(* ===== verification/_CoqProject ===== *)
-Q . S2P
Prelude.v
BTree.v
Wire.v
Text.v
NameInput.v
Float32.v
Convert.v
Storage.v
Jitter.v
Registry.v
Profiles.v
Gate.v
VolumeControl.v
Transport.v
Identity.v
Silence.v
Packetizer.v
Server.v
Ring.v
Pairing.v
Address.v
DeviceControl.v
ClientState.v
Receiver.v
Client.v
EndToEnd.v
Reconnect.v
Engine.v
EngineSafety.v
EngineCalls.v
RemoteVolume.v
PhoneSession.v
Capture.v
Hub.v
Loudness.v
Microphone.v
Waveform.v
Calibration.v
CalibrationSafety.v
CalibrationControl.v
Session.v
Panel.v
PanelSafety.v
PanelSessions.v
PanelTray.v
Slider.v
Qr.v
View.v
NameField.v
Editor.v
Window.v
WindowSafety.v
Tray.v
Startup.v
Shutdown.v
PhoneTests.v
ServerTests.v
