(* ===== verification/Prelude.v ===== *)
(** * Soundwave: a verification development

    Soundwave plays the sound of a Windows computer on several Android phones at
    once.  This library models the Rust code of the repository (under [src/]) as
    Rocq functions and proves what makes it correct.  This file is the root: the
    header below documents the whole development, the rest of the file is the
    prelude (machine integers, results, list functions of Rust, hints).

    ** The program and its parts

    - [crates/protocol]: the audio datagram and the control messages.
    - [crates/transport]: framing and encoding over QUIC streams and datagrams,
      the server's certificate, fingerprints and the pairing link.
    - [windows-server]: capture of the computer's sound, one session per phone
      that cuts it into datagrams, the registry of connected phones, the volume
      controller that alone decides who may play, calibration with a microphone,
      volume profiles on disk, the controller behind the windows, the windows and
      the start of the program.
    - [android/app/src/main/rust]: the phone's receiver: the engine behind the
      JNI entry points, the task that keeps a session, jitter buffer, sample
      ring, test tone and the state shown to Kotlin.

    Sound goes Capture -> Hub -> Server (Packetizer, Silence) -> network ->
    Client -> Receiver -> Jitter -> Ring -> audio thread.  Control goes both ways
    over Transport; on the server it ends in Registry, on which VolumeControl,
    Calibration and Panel work, the last driven by Window; on the phone it ends in
    DeviceControl and ClientState.

    ** Files and sources

    (sources under [windows-server/src] unless said otherwise)

    - [Prelude], [BTree] (BTreeMap and BTreeSet as sorted association lists),
      [Text] (strings as code points, UTF-8, decimal numbers), [Storage] (the
      file system as an interface): the standard library the sources use.
    - [Wire]: [crates/protocol/src/audio.rs], [control.rs], [error.rs].
    - [Transport]: [crates/transport/src/control.rs], [datagram.rs], [error.rs].
    - [Identity]: [crates/transport/src/config.rs], [pairing.rs].
    - [Registry]: [application/registry.rs]; the playback gates are a store of
      booleans shared with the sender tasks.
    - [Profiles]: [volume_profiles.rs].
    - [Gate]: [audio/transmission.rs].
    - [VolumeControl]: [application/volume_control.rs]; [System] puts state,
      registry, disk and switch together, [system_op] is all that happens to them.
    - [Silence], [Packetizer], [Server]: [network/silence.rs], [network/server.rs]
      and the block type of [audio/mod.rs].
    - [Float32], [Convert]: binary32 as [SpecFloat] with its rounding lemmas, and
      [audio/convert.rs] on it.
    - [Capture]: [audio/capture.rs]; [Hub]: [application/hub.rs];
      [Session]: [application/session.rs] and the accept loop of [streamer.rs].
    - [Pairing]: [pairing.rs].
    - [Loudness], [Microphone]: [loudness.rs] and [audio/microphone.rs] on binary64.
    - [Calibration], [CalibrationSafety], [CalibrationControl]:
      [application/calibration.rs] (the run, its theorems, its controller).
    - [Panel], [PanelSafety], [PanelSessions], [PanelTray]: [ui/model.rs] (the
      code, then three groups of theorems).
    - [NameInput]: [ui/name_input.rs]; [Slider]: [ui/controls.rs]; [View]: what
      [ui/dashboard.rs] and [ui/calibration_window.rs] show and let the user do;
      [Editor]: its theorem about the calibration window; [NameField]: the name
      of the profile in that window; [Window],
      [WindowSafety]: the event loop of [ui/mod.rs], [dashboard.rs],
      [calibration_window.rs] and [tray.rs], and its theorems; [Tray]: the rest
      of [ui/tray.rs]; [Qr]: [ui/qr.rs].
    - [Startup]: [main.rs], [application/desktop.rs], the start in [streamer.rs],
      [application/state.rs], [config.rs], [audio/device.rs] and the debug
      recording of [audio/capture.rs].
    - [Shutdown]: [Startup], [Session] and [Hub] as one step relation, up to the
      end of [desktop.rs] and [streamer.rs].
    - [Jitter], [Ring], [DeviceControl], [ClientState], [Receiver], [Client]:
      [jitter.rs], [ring_buffer.rs], [device_control.rs], [state.rs],
      [receiver.rs], the loop of [client.rs] under [android/app/src/main/rust/src].
    - [Address]: the parser of socket addresses of Rust's library; [Reconnect]:
      the session task of [client.rs]; [Engine], [EngineSafety], [EngineCalls]:
      [jni.rs] there (the code, then two groups of theorems).
    - [RemoteVolume], [PhoneSession]: [DeviceVolumeControl.kt],
      [CalibrationOutputPolicy.kt] and their call in [AudioService.kt] under
      [android/app/src/main/java] (what a request of the server does to the phone,
      then the life of a calibration on it).
    - [Waveform]: the test tone of [device_control.rs].
    - [EndToEnd]: both programs together.
    - [PhoneTests], [ServerTests]: the unit tests of the repository, run on the
      model.

    ** How the code is modelled

    - A struct is a record, an enum an inductive type, a method a function from
      the old state to the new state and the result; [result E A] is Rust's
      [Result], [option] also stands for a panic where the doc comment says so.
    - Integers are [Z]; wrapping, saturating and checked operations are written
      out at their width, additions the source leaves unchecked wrap as in a
      release build.  Samples are 16-bit integers, bytes 8-bit [Z]; floats are
      IEEE singles and doubles ([SpecFloat], with the fused multiply-add), [powf],
      [log10], [cos] and [sin] parameters.
    - A method that holds a lock for its whole body is one step.  Where a lock is
      released, or none is held, the steps are separate and other threads run in
      between: [Ring] interleaves the receiver task with the audio thread,
      [Hub] and [Session] interleave tasks and threads, [Engine] interleaves the
      calls of Kotlin with the polls of the tasks, [Startup] the main thread with
      the server task, and [Calibration] and [Panel] are monads whose every call first runs the other threads, as a
      schedule given from outside prescribes.  [tokio::select!] is a case
      distinction given as an argument.
    - Larger steps than the code's: [VolumeControl.tick] is one step over the
      registry, although the worker holds the registry's lock only call by call
      (the lock of its own state it holds throughout); reading a control message
      is one event of [Client], although another branch of the [select!] may drop
      the read half way.  [Reconnect.other_op] has every writer of the state shown
      on the phone, refused calls and disconnects included.
    - What happened is told by logs and histories: [Calibration.log_entry] has an
      entry per call, with the phone and whether it could be queued, tied to the
      registry by [happened] and [performs]; [Transport.handed] has every datagram
      given to the connection with its answer; [Hub] the threads started, told to
      stop and ended.  [Capture.heard] counts the silence that the capture thread
      inserts when a wait times out as heard.
    - The audio system of the phone is a class ([AudioSystem]): any outputs, calls
      that throw, volumes that are ignored or refused.
    - The clock is an argument or part of the world; instants are milliseconds.
    - Third-party code is an interface: tokio's mpsc ([Mpsc]), crossbeam's bounded
      channel ([BoundedChannel]), quinn ([SendStream], [RecvStream],
      [QuicConnection], [QuicServer]), the wasapi crate ([Wasapi]), postcard ([ControlCodec], [LibraryCodec]), rcgen, rustls
      and SHA-256 ([Identity]), the file system, GetAdaptersAddresses, the
      microphone.  Their laws are classes of their own; each file with such an
      interface has a concrete instance that its witnesses run on.
    - User-visible texts are constructors; the text itself is modelled only
      where it is data (fingerprint, pairing link, profile names).

    ** Fuel and bounds

    - [Jitter.drain_loop]: fuel from the number of buffered packets and gaps;
      [drain_fuel_enough] shows it suffices, so a push always returns.
    - [Calibration.wait_loop]: [WAIT_FUEL] is 151 rounds.  Each round sleeps at
      least 20 ms and the deadline is 3 s away, so the 151st round is past it;
      [every_run_ends] shows that the fuel never runs out.
    - [Capture.drain]: one more round than the queue can hold blocks.
    - [Pairing.enumerate_attempts]: the source's three attempts.
    - [Microphone.listen_loop], [Startup.record_loop]: driven by a script of what
      the device answers; [measurement_is_of_whole_windows] shows that 401 rounds
      are enough, [recording_round_trip] that the loop ends when the clock passes
      the deadline.
    - Everything else is structural recursion.

    ** What the theorems show

    - Safety of the volumes: in every reachable state a phone that plays stands
      exactly where the active profile puts it ([playing_phones_are_in_place]),
      also under every click and during a measurement
      ([clicks_keep_phones_in_place]); an approval lapses with the next change a
      phone reports ([playing_only_as_approved]); when all stand, one tick lets
      them play ([tick_opens_standing_phones]); the server's own requests never
      count as the user's ([own_requests_never_echo]); trial volumes and test
      tones are always taken back ([trial_volumes_stay_in_sessions],
      [every_run_cleans_up], [a_result_means_restored]).
    - The way of the sound: blocks are the captured samples
      ([capture_keeps_the_newest]), datagrams are the blocks
      ([audible_stream_leaves_whole], over any connection; [agreed_duration_always_fits],
      [stream_is_numbered]), floats become the nearest samples
      ([conversion_is_accurate]), reordering costs nothing within the playout target
      ([reordering_is_lossless], [playback_order_and_accounting],
      [resumption_loses_nothing]), the ring keeps order under any interleaving
      ([audio_is_heard_in_order], [writing_keeps_the_newest]), and all of it
      composed, where the network loses nothing: [handshakes_meet], [captured_audio_is_heard].
    - Lives of sessions and captures: the hub refines a shared resource, whose
      capture runs while somebody holds it and is told to stop when nobody does
      ([hub_refines_shared_resource]), no thread is left behind
      ([captures_are_owned]), accounts balance ([sessions_balance]).
    - Calibration: a returned profile rests on measurements
      ([a_result_is_measured]), a measurement reads whole windows
      ([measurement_is_of_whole_windows]), runs end ([every_run_ends]), a
      cancelled one has no result ([cancelled_run_has_no_result]).
    - The windows: the calibration window is open exactly while its session is
      ([calibration_window_is_the_session]), what it offers is granted, up to
      listed conditions its buttons do not look at ([offered_commands_are_granted]), the main window moves only the master
      ([main_window_moves_the_master]), exit works ([exit_ends_the_program]), the
      text field survives all but stray calls ([only_stray_calls_panic],
      [composition_leaves_what_is_committed]).
      Whatever Windows refuses, the tray leaves nothing ([tray_leaves_nothing]);
      the pairing code is painted without gaps ([pairing_code_is_sharp]).
    - The program: no failed start is lost ([start_failure_is_reported]), the two
      threads never wait for each other for ever ([stopped_program_ends]), and
      although the shutdown aborts the sessions, no receiver is left behind and no
      capture but one whose fan-out thread did not start ([server_leaves_nothing]).
    - The phone's volume: a request of the server comes back as the volume the
      phone stands at ([volume_request_comes_back]), the Kotlin code keeps the
      books it should ([phone_refines_volumes]), and a calibration that ends or
      is lost leaves no session, and the user's volume where the system obeys and
      the output stayed ([calibration_leaves_no_trace],
      [session_lost_on_route_change]); the test
      tone stays within its level ([tone_never_clips]).
    - The phone's engine: one session at a time ([one_session_at_a_time]), begun
      in silence, up to the tone of a last poll ([new_connection_starts_silent],
      [late_poll_starts_tone]) and ended for good
      ([disconnect_is_final]); the state shown is the state of the connection
      ([shown_state_is_true]), a lost connection comes back
      ([lost_connections_come_back]); a scanned pairing code connects
      ([paired_phone_connects]), a refused call changes nothing
      ([refused_connect]).
    - Data: the nearest common index ([nearest_is_closest_common]), the neighbouring
      one ([tray_moves_one_notch]), saving and loading ([save_load_round_trip],
      [failed_save_keeps_library], [unreadable_library_is_kept]), messages and
      fingerprints ([control_messages_round_trip],
      [displayed_fingerprint_pins_certificate]), the pairing address
      ([automatic_choice]).
    - The phone's session: every iteration returns with a well-formed receiver
      ([client_loop_is_total]), silence stays silence ([idle_until_the_boundary]),
      adaptation stays in bounds ([adaptation_is_bounded]), forgotten tones end
      ([tone_falls_silent]), observers miss no change ([changes_are_signalled]).

    Further theorems with the same standing (limits, classifications, error
    paths, the races found) are in the files' sections "Properties".

    ** Not modelled

    - Layout, colours, painting and fixed texts of the windows (but for the image
      of the pairing code) and the Win32 calls of [ui/native.rs]: output and calls
      of libraries.  What the windows offer is modelled as a list of elements.
    - The parsing of the command line ([clap]), the log, conversions between Java
      and Rust strings; WASAPI, COM and the QUIC endpoints appear by the answers
      of their calls.
    - The sine, cosine, logarithm and power functions of the platform.
    - The other Kotlin files: activities and views, and in [AudioService.kt] the
      notifications, the wake lock and the audio track, which are calls of Android.
    - Of the unit tests the few that need tokio's broadcast channel or the
      platform's sine; those that open connections run on the concrete instances
      of the interfaces.
    - Wake-ups: the condition variable and [tokio::Notify] appear by what their
      waiters observe.  Memory orderings: atomics are sequentially consistent.

    ** Limits of the composition

    [EndToEnd] composes the way of the sound, [RemoteVolume] a volume request over
    both programs, [PhoneSession] a calibration on the phone, [Shutdown] the
    threads of the server.  Not composed are the windows with the server's threads
    ([Window] drives [Panel], whose schedules stand for them) and the microphone
    with the phone whose tone it hears: between them lies the air of the room. *)

From Stdlib Require Import ZArith Lia Sorted.
From stdpp Require Export base tactics option list list_numbers numbers sets gmap.

#[global] Open Scope Z_scope.

(** ** Machine integers

    An integer of the source is a [Z]; its width is written at each operation
    that can leave the range. *)

Declare Scope sw_scope.
Delimit Scope sw_scope with sw.
#[global] Open Scope sw_scope.

Definition wrap (w z : Z) : Z := z mod 2 ^ w.
Definition wrapping_add (w a b : Z) : Z := wrap w (a + b).
Definition wrapping_sub (w a b : Z) : Z := wrap w (a - b).
Definition uint_max (w : Z) : Z := 2 ^ w - 1.
Definition saturating_add (w a b : Z) : Z := Z.min (a + b) (uint_max w).
Definition saturating_mul (w a b : Z) : Z := Z.min (a * b) (uint_max w).
Definition saturating_sub (a b : Z) : Z := Z.max 0 (a - b).
Definition abs_diff (a b : Z) : Z := Z.abs (a - b).
(** [n.div_ceil(d)] on unsigned integers. *)
Definition div_ceil (n d : Z) : Z := (n + d - 1) / d.

(** The range of an unsigned integer of [w] bits. *)
Definition in_uint (w z : Z) : Prop := 0 <= z < 2 ^ w.

#[export] Instance in_uint_dec w z : Decision (in_uint w z) := _.

Notation "z ∈u w" := (in_uint w z) (at level 70, no associativity) : sw_scope.

Lemma wrap_range w z : 0 <= w -> wrap w z ∈u w.
Proof. intros. apply Z.mod_pos_bound, Z.pow_pos_nonneg; lia. Qed.

Lemma wrap_small w z : z ∈u w -> wrap w z = z.
Proof. apply Z.mod_small. Qed.

Lemma wrap_wrap w z : wrap w (wrap w z) = wrap w z.
Proof. unfold wrap. apply Zmod_mod. Qed.

Lemma wrap_add_l w a b : wrap w (wrap w a + b) = wrap w (a + b).
Proof. apply Zplus_mod_idemp_l. Qed.

Lemma wrap_add_r w a b : wrap w (a + wrap w b) = wrap w (a + b).
Proof. apply Zplus_mod_idemp_r. Qed.

Lemma wrap_sub_l w a b : wrap w (wrap w a - b) = wrap w (a - b).
Proof. apply Zminus_mod_idemp_l. Qed.

Lemma wrap_sub_r w a b : wrap w (a - wrap w b) = wrap w (a - b).
Proof. apply Zminus_mod_idemp_r. Qed.

Create HintDb sw.
Create Rewrite HintDb wrapdb.
#[export] Hint Rewrite wrap_wrap wrap_add_l wrap_add_r wrap_sub_l wrap_sub_r : wrapdb.

(** Two values of the same range that agree after wrapping a common shift are
    equal. *)
Lemma wrap_sub_inj w a b e :
  0 <= w -> a ∈u w -> b ∈u w -> wrapping_sub w a e = wrapping_sub w b e -> a = b.
Proof.
  intros Hw Ha Hb H. unfold wrapping_sub in H.
  assert (wrap w (wrap w (a - e) + e) = wrap w (wrap w (b - e) + e)) as H' by congruence.
  autorewrite with wrapdb in H'.
  replace (a - e + e) with a in H' by lia. replace (b - e + e) with b in H' by lia.
  rewrite !wrap_small in H'; done.
Qed.

(** Rust's wrapping addition and subtraction cancel. *)
Lemma wrapping_add_sub w a e :
  a ∈u w -> wrapping_add w e (wrapping_sub w a e) = a.
Proof.
  intros Ha. unfold wrapping_add, wrapping_sub. rewrite wrap_add_r.
  replace (e + (a - e)) with a by lia. by apply wrap_small.
Qed.

Lemma wrapping_sub_add w e d :
  wrapping_sub w (wrapping_add w e d) e = wrap w d.
Proof.
  unfold wrapping_add, wrapping_sub. rewrite wrap_sub_l. f_equal. lia.
Qed.

(** Advancing the reference by [d] shortens a distance of at least [d]. *)
Lemma wrapping_sub_advance w a e d :
  0 <= d -> d <= wrapping_sub w a e -> 0 <= w ->
  wrapping_sub w a (wrapping_add w e d) = wrapping_sub w a e - d.
Proof.
  intros Hd Hle Hw. unfold wrapping_add, wrapping_sub in *. rewrite wrap_sub_r.
  replace (a - (e + d)) with ((a - e) - d) by lia.
  rewrite <- wrap_sub_l. apply wrap_small.
  pose proof (wrap_range w (a - e) Hw). unfold in_uint in *. lia.
Qed.

Lemma wrapping_sub_range w a b : 0 <= w -> wrapping_sub w a b ∈u w.
Proof. apply wrap_range. Qed.

Lemma wrapping_add_range w a b : 0 <= w -> wrapping_add w a b ∈u w.
Proof. apply wrap_range. Qed.

Lemma wrapping_sub_0 w a b :
  0 <= w -> a ∈u w -> b ∈u w -> wrapping_sub w a b = 0 -> a = b.
Proof.
  intros Hw Ha Hb H. apply (wrap_sub_inj w a b b); [done..|].
  rewrite H. unfold wrapping_sub. rewrite Z.sub_diag. done.
Qed.

Lemma wrapping_sub_diag w a : wrapping_sub w a a = 0.
Proof. unfold wrapping_sub. rewrite Z.sub_diag. done. Qed.

#[export] Hint Resolve wrap_range wrapping_sub_range wrapping_add_range : sw.

(** ** Results

    [Result<A, E>]: the error type comes first so that [result E] is a monad. *)

Inductive result (E A : Type) : Type :=
| Ok (a : A)
| Err (e : E).
Arguments Ok {E A} a.
Arguments Err {E A} e.

#[export] Instance result_ret {E} : MRet (result E) := fun A a => Ok a.
#[export] Instance result_bind {E} : MBind (result E) := fun A B f m =>
  match m with Ok a => f a | Err e => Err e end.
#[export] Instance result_fmap {E} : FMap (result E) := fun A B f m =>
  match m with Ok a => Ok (f a) | Err e => Err e end.

#[export] Instance result_eq_dec {E A} `{EqDecision E, EqDecision A} :
  EqDecision (result E A).
Proof. solve_decision. Defined.

Definition is_ok {E A} (r : result E A) : bool :=
  match r with Ok _ => true | Err _ => false end.

Definition is_err {E A} (r : result E A) : bool := negb (is_ok r).

(** [option.ok_or(e)] / [.context(e)]. *)
Definition ok_or {E A} (e : E) (o : option A) : result E A :=
  match o with Some a => Ok a | None => Err e end.

(** [ensure!(c, e)]. *)
Definition ensure {E} (c : bool) (e : E) : result E unit :=
  if c then Ok tt else Err e.

(** [?] with a conversion of the error. *)
Definition map_err {E F A} (f : E -> F) (r : result E A) : result F A :=
  match r with Ok a => Ok a | Err e => Err (f e) end.

Lemma bind_ok {E A B} (f : A -> result E B) (m : result E A) b :
  m ≫= f = Ok b <-> exists a, m = Ok a /\ f a = Ok b.
Proof.
  split.
  - destruct m as [a|e]; simpl; [eauto | done].
  - intros (a & -> & H). exact H.
Qed.

Lemma ensure_ok {E} c (e : E) u : ensure c e = Ok u <-> c = true.
Proof. unfold ensure. destruct c, u; naive_solver. Qed.

Lemma ok_or_ok {E A} (e : E) (o : option A) a : ok_or e o = Ok a <-> o = Some a.
Proof. destruct o; naive_solver. Qed.

(** Splits hypotheses of the form [m ≫= f = Ok b] into their steps. *)
Ltac invert_ok :=
  repeat match goal with
  | H : _ ≫= _ = Ok _ |- _ =>
      let a := fresh "a" in let Ha := fresh "Hok" in
      apply bind_ok in H as (a & Ha & H)
  | H : ensure _ _ = Ok _ |- _ => apply ensure_ok in H
  | H : ok_or _ _ = Ok _ |- _ => apply ok_or_ok in H
  | H : Ok _ = Ok _ |- _ => injection H as H
  | H : Err _ = Ok _ |- _ => discriminate H
  | H : mret _ = Ok _ |- _ => injection H as H
  end.

(** ** Lists *)

Section lists.
Context {A : Type}.
Implicit Types (l : list A).

Lemma filter_true_id (P : A -> Prop) `{!forall x, Decision (P x)} l :
    (forall x, x ∈ l -> P x) -> filter P l = l.
Proof.
    induction l as [|x l IH]; intros Hall; [done|].
    rewrite filter_cons_True by set_solver. f_equal. apply IH. set_solver.
Qed.

Lemma filter_none (P : A -> Prop) `{!forall x, Decision (P x)} l :
    (forall x, x ∈ l -> ¬ P x) -> filter P l = [].
Proof.
    induction l as [|x l IH]; intros Hall; [done|].
    rewrite filter_cons_False by set_solver. apply IH. set_solver.
Qed.

  (** [iter().find(f)]. *)
Fixpoint find (f : A -> bool) l : option A :=
    match l with
    | [] => None
    | x :: l' => if f x then Some x else find f l'
    end.

Lemma find_Some f l x : find f l = Some x -> x ∈ l /\ f x = true.
Proof.
    induction l as [|y l IH]; simpl; [done|].
    destruct (f y) eqn:E; [|set_solver]. intros. simplify_eq. set_solver.
Qed.

Lemma find_None f l : find f l = None <-> forall x, x ∈ l -> f x = false.
Proof.
    induction l as [|y l IH]; simpl; [set_solver|].
    destruct (f y) eqn:E; [|set_solver].
    split; [done|]. intros Hall. rewrite Hall in E; [done | set_solver].
Qed.

  (** [iter().all(f)] and [iter().any(f)]. *)
Lemma forallb_true f l : forallb f l = true <-> forall x, x ∈ l -> f x = true.
Proof.
    rewrite forallb_forall. by setoid_rewrite list_elem_of_In.
Qed.

Lemma existsb_true f l : existsb f l = true <-> exists x, x ∈ l /\ f x = true.
Proof.
    rewrite existsb_exists. by setoid_rewrite list_elem_of_In.
Qed.

Lemma existsb_false f l : existsb f l = false <-> forall x, x ∈ l -> f x = false.
Proof.
    rewrite <- not_true_iff_false, existsb_true. split.
    - intros H x Hx. destruct (f x) eqn:E; [|done]. destruct H. eauto.
    - intros H (x & Hx & E). rewrite H in E; done.
Qed.

  (** [iter().min_by_key(f)]: the first element with the least key. *)
Fixpoint min_by_key (f : A -> Z) l : option A :=
    match l with
    | [] => None
    | x :: l' =>
        match min_by_key f l' with
        | Some y => if f x <=? f y then Some x else Some y
        | None => Some x
        end
    end.

Lemma min_by_key_elem f l x : min_by_key f l = Some x -> x ∈ l.
Proof.
    revert x. induction l as [|y l IH]; simpl; [done|]. intros x.
    destruct (min_by_key f l) as [z|].
    - specialize (IH z eq_refl). destruct (f y <=? f z); intros; simplify_eq; set_solver.
    - intros. simplify_eq. set_solver.
Qed.

Lemma min_by_key_None f l : min_by_key f l = None <-> l = [].
Proof.
    destruct l as [|y l]; simpl; [done|].
    destruct (min_by_key f l) as [z|]; [|done]. by destruct (f y <=? f z).
Qed.

Lemma min_by_key_le f l x y : min_by_key f l = Some x -> y ∈ l -> f x <= f y.
Proof.
    revert x. induction l as [|z l IH]; simpl; [done|]. intros x Hx Hy.
    destruct (min_by_key f l) as [w|] eqn:E.
    - specialize (IH w eq_refl). destruct (Z.leb_spec (f z) (f w)); simplify_eq.
      + apply elem_of_cons in Hy as [->|Hy]; [lia|]. specialize (IH Hy). lia.
      + apply elem_of_cons in Hy as [->|Hy]; [lia|]. by apply IH.
    - apply min_by_key_None in E as ->. simplify_eq. set_solver by lia.
Qed.

  (** The tie-break: the keys before the chosen element are strictly larger. *)
Lemma min_by_key_first f l x :
    min_by_key f l = Some x ->
    exists l1 l2, l = l1 ++ x :: l2 /\ Forall (fun y => f x < f y) l1.
Proof.
    revert x. induction l as [|z l IH]; simpl; [done|]. intros x Hx.
    destruct (min_by_key f l) as [w|] eqn:E.
    - destruct (Z.leb_spec (f z) (f w)); simplify_eq; [by exists [], l|].
      destruct (IH _ eq_refl) as (l1 & l2 & -> & Hl). exists (z :: l1), l2.
      split; [done|]. by constructor.
    - simplify_eq. by exists [], l.
Qed.
End lists.
