(* ===== verification/BTree.v ===== *)
(** * BTree: the standard library's [BTreeMap] and [BTreeSet]

    A map with integer keys is the list of its bindings in increasing key
    order, so that iteration ([iter], [keys], [values], [retain]) and
    [pop_first] visit the keys in the order the source relies on.  [bt_wf] is
    the ordering invariant; every operation preserves it. *)

From Stdlib Require Import ZArith Lia Sorted.
From S2P Require Import Prelude.

Abbreviation btree V := (list (Z * V)).

Section btree.
Context {V : Type}.
Local Abbreviation btree := (list (Z * V)).
Implicit Types (m : btree) (k : Z) (v : V).

Fixpoint bt_get k m : option V :=
    match m with
    | [] => None
    | (k', v) :: m' => if k =? k' then Some v else bt_get k m'
    end.

Definition bt_contains_key k m : bool :=
    match bt_get k m with Some _ => true | None => false end.

Fixpoint bt_insert k v m : btree :=
    match m with
    | [] => [(k, v)]
    | (k', v') :: m' =>
        if k <? k' then (k, v) :: m
        else if k =? k' then (k, v) :: m'
        else (k', v') :: bt_insert k v m'
    end.

Definition bt_remove k m : btree := filter (fun kv => kv.1 ≠ k) m.

Definition bt_retain (f : Z -> V -> bool) m : btree :=
    filter (fun kv => f kv.1 kv.2 = true) m.

  (** [get_mut(&k)] followed by an update of the value in place. *)
Definition bt_update (f : V -> V) k m : btree :=
    match bt_get k m with Some v => bt_insert k (f v) m | None => m end.

Definition bt_pop_first m : btree := tail m.

Definition bt_keys m : list Z := m.*1.
Definition bt_values m : list V := m.*2.
Definition bt_len m : Z := Z.of_nat (length m).

Definition bt_wf m : Prop := StronglySorted Z.lt (bt_keys m).

  (** ** Lookups *)

Lemma bt_get_insert k k' v m :
    bt_get k' (bt_insert k v m) = if k' =? k then Some v else bt_get k' m.
Proof.
    induction m as [|[j w] m IH]; simpl; [done|].
    destruct (Z.ltb_spec k j); simpl; [done|].
    destruct (Z.eqb_spec k j); simpl.
    - subst. by destruct (Z.eqb_spec k' j).
    - rewrite IH. destruct (Z.eqb_spec k' j), (Z.eqb_spec k' k); congruence || done.
Qed.

Lemma bt_get_remove k k' m :
    bt_get k' (bt_remove k m) = if k' =? k then None else bt_get k' m.
Proof.
    unfold bt_remove. induction m as [|[j w] m IH]; [by destruct (k' =? k)|].
    rewrite filter_cons. case_decide as Hj; simpl in *.
    - rewrite IH. destruct (Z.eqb_spec k' j), (Z.eqb_spec k' k); congruence || done.
    - rewrite IH. destruct (Z.eqb_spec k' j), (Z.eqb_spec k' k); congruence || done.
Qed.

Lemma bt_get_update f k k' m :
    bt_get k' (bt_update f k m) =
      if k' =? k then f <$> bt_get k m else bt_get k' m.
Proof.
    unfold bt_update. destruct (bt_get k m) as [v|] eqn:E.
    - rewrite bt_get_insert. by destruct (k' =? k).
    - destruct (Z.eqb_spec k' k); simpl; congruence.
Qed.

Lemma bt_get_In k v m : bt_get k m = Some v -> (k, v) ∈ m.
Proof.
    induction m as [|[j w] m IH]; simpl; [done|].
    destruct (Z.eqb_spec k j); intros; simplify_eq; set_solver.
Qed.

Lemma bt_get_key k v m : bt_get k m = Some v -> k ∈ bt_keys m.
Proof. intros H%bt_get_In. apply list_elem_of_fmap. by exists (k, v). Qed.

Lemma bt_get_None k m : bt_get k m = None <-> k ∉ bt_keys m.
Proof.
    induction m as [|[j w] m IH]; simpl; [set_solver|].
    destruct (Z.eqb_spec k j); set_solver.
Qed.

Lemma bt_contains_key_true k m : bt_contains_key k m = true <-> k ∈ bt_keys m.
Proof.
    unfold bt_contains_key. destruct (bt_get k m) eqn:E.
    - split; [intros _; by eapply bt_get_key | done].
    - split; [done|]. by apply bt_get_None in E.
Qed.

Lemma bt_contains_key_false k m : bt_contains_key k m = false <-> bt_get k m = None.
Proof. unfold bt_contains_key. by destruct (bt_get k m). Qed.

Lemma bt_keys_get k m : k ∈ bt_keys m -> is_Some (bt_get k m).
Proof.
    intros H. destruct (bt_get k m) eqn:E; [eauto|].
    by apply bt_get_None in E.
Qed.

  (** ** The ordering invariant *)

Lemma bt_wf_nil : bt_wf [].
Proof. constructor. Qed.

Lemma bt_wf_cons k v m : bt_wf ((k, v) :: m) <-> bt_wf m /\ Forall (Z.lt k) (bt_keys m).
Proof.
    unfold bt_wf. simpl. split; [intros H; by inversion H|].
    intros []. by constructor.
Qed.

Lemma bt_keys_insert k v m j : j ∈ bt_keys (bt_insert k v m) <-> j = k \/ j ∈ bt_keys m.
Proof.
    induction m as [|[i w] m IH]; simpl; [set_solver|].
    destruct (Z.ltb_spec k i); simpl; [set_solver|].
    destruct (Z.eqb_spec k i); simpl; set_solver.
Qed.

Lemma bt_wf_insert k v m : bt_wf m -> bt_wf (bt_insert k v m).
Proof.
    induction m as [|[j w] m IH]; simpl.
    - intros _. apply bt_wf_cons. split; [apply bt_wf_nil | constructor].
    - intros Hwf. pose proof Hwf as [Hm Hj]%bt_wf_cons.
      destruct (Z.ltb_spec k j).
      + apply bt_wf_cons. split; [done|]. simpl. constructor; [lia|].
        eapply Forall_impl; [done | simpl; lia].
      + destruct (Z.eqb_spec k j); apply bt_wf_cons; [by subst|].
        split; [by apply IH|]. apply Forall_forall. intros i [->|Hi]%bt_keys_insert; [lia|].
        by eapply Forall_forall in Hj.
Qed.

Lemma bt_wf_filter (P : Z * V -> Prop) `{!forall x, Decision (P x)} m :
    bt_wf m -> bt_wf (filter P m).
Proof.
    induction m as [|[j w] m IH]; [done|]. intros [Hm Hj]%bt_wf_cons.
    rewrite filter_cons. case_decide; [|by apply IH].
    apply bt_wf_cons. split; [by apply IH|]. apply Forall_forall. intros i Hi.
    apply list_elem_of_fmap in Hi as ((i' & v') & -> & [_ Hi]%list_elem_of_filter).
    eapply Forall_forall in Hj; [exact Hj|]. apply list_elem_of_fmap. by exists (i', v').
Qed.

Lemma bt_wf_remove k m : bt_wf m -> bt_wf (bt_remove k m).
Proof. apply bt_wf_filter. Qed.

Lemma bt_wf_retain f m : bt_wf m -> bt_wf (bt_retain f m).
Proof. apply bt_wf_filter. Qed.

Lemma bt_wf_update f k m : bt_wf m -> bt_wf (bt_update f k m).
Proof. unfold bt_update. destruct (bt_get k m); [apply bt_wf_insert | done]. Qed.

Lemma bt_wf_pop_first m : bt_wf m -> bt_wf (bt_pop_first m).
Proof. destruct m as [|[k v] m]; [done|]. by intros [H _]%bt_wf_cons. Qed.

Lemma bt_wf_NoDup m : bt_wf m -> NoDup (bt_keys m).
Proof.
    induction m as [|[k v] m IH]; [constructor|]. intros [Hm Hk]%bt_wf_cons.
    simpl. constructor; [|by apply IH]. intros Hin.
    eapply Forall_forall in Hk; [|exact Hin]. lia.
Qed.

Lemma bt_In_get k v m : bt_wf m -> (k, v) ∈ m -> bt_get k m = Some v.
Proof.
    induction m as [|[j w] m IH]; simpl; [set_solver|].
    intros [Hm Hk]%bt_wf_cons [Heq|Hin]%elem_of_cons.
    - simplify_eq. by rewrite Z.eqb_refl.
    - destruct (Z.eqb_spec k j); [|by apply IH]. subst.
      eapply Forall_forall in Hk; [|apply list_elem_of_fmap; by exists (j, v)]. simpl in Hk. lia.
Qed.

Lemma bt_get_retain f k m :
    bt_wf m ->
    bt_get k (bt_retain f m) =
      match bt_get k m with Some v => if f k v then Some v else None | None => None end.
Proof.
    intros Hwf. destruct (bt_get k (bt_retain f m)) as [v|] eqn:E.
    - apply bt_get_In, list_elem_of_filter in E as [Hf Hin]. simpl in Hf.
      rewrite (bt_In_get k v m) by done. by rewrite Hf.
    - destruct (bt_get k m) as [v|] eqn:E'; [|done]. destruct (f k v) eqn:Hf; [|done].
      apply bt_get_None in E. destruct E. apply list_elem_of_fmap. exists (k, v).
      split; [done|]. apply list_elem_of_filter. split; [done|]. by apply bt_get_In.
Qed.

Lemma bt_ext m1 m2 :
    bt_wf m1 -> bt_wf m2 -> (forall k, bt_get k m1 = bt_get k m2) -> m1 = m2.
Proof.
    revert m2. induction m1 as [|[k v] m1 IH]; intros [|[j w] m2] H1 H2 Hget; [done|..].
    - specialize (Hget j). simpl in Hget. by rewrite Z.eqb_refl in Hget.
    - specialize (Hget k). simpl in Hget. by rewrite Z.eqb_refl in Hget.
    - apply bt_wf_cons in H1 as [H1 Hk], H2 as [H2 Hj].
      assert (k = j) as <-.
      { pose proof (Hget k) as Hgk. pose proof (Hget j) as Hgj. simpl in *.
        rewrite Z.eqb_refl in Hgk, Hgj.
        destruct (Z.eqb_spec k j), (Z.eqb_spec j k); try lia.
        symmetry in Hgk. apply bt_get_key in Hgk, Hgj. rewrite Forall_forall in Hk, Hj.
        specialize (Hk _ Hgj). specialize (Hj _ Hgk). lia. }
      assert (v = w) as <-.
      { specialize (Hget k). simpl in Hget. rewrite Z.eqb_refl in Hget. congruence. }
      f_equal. apply IH; [done..|]. intros i. specialize (Hget i). simpl in Hget.
      destruct (Z.eqb_spec i k); [|done]. subst i.
      rewrite Forall_forall in Hk, Hj.
      destruct (bt_get k m1) eqn:E1; [apply bt_get_key, Hk in E1; lia|].
      destruct (bt_get k m2) eqn:E2; [apply bt_get_key, Hj in E2; lia|done].
Qed.

  (** ** Sizes *)

Lemma bt_len_insert k v m :
    bt_wf m ->
    bt_len (bt_insert k v m) = if bt_contains_key k m then bt_len m else bt_len m + 1.
Proof.
    unfold bt_len, bt_contains_key. induction m as [|[j w] m IH]; simpl; [done|].
    intros [Hm Hj]%bt_wf_cons. specialize (IH Hm).
    destruct (Z.ltb_spec k j); simpl.
    - destruct (Z.eqb_spec k j); [lia|].
      destruct (bt_get k m) eqn:E; [|lia]. apply bt_get_key in E.
      eapply Forall_forall in Hj; [|exact E]. lia.
    - destruct (Z.eqb_spec k j); simpl; [done|]. destruct (bt_get k m); lia.
Qed.

Lemma bt_len_filter (P : Z * V -> Prop) `{!forall x, Decision (P x)} m :
    bt_len (filter P m) <= bt_len m.
Proof. unfold bt_len. pose proof (length_filter P m). lia. Qed.

Lemma bt_len_remove k v m :
    bt_wf m -> bt_get k m = Some v -> bt_len (bt_remove k m) = bt_len m - 1.
Proof.
    unfold bt_len. induction m as [|[j w] m IH]; simpl; [done|].
    intros [Hm Hj]%bt_wf_cons Hget. unfold bt_remove. rewrite filter_cons. simpl.
    destruct (Z.eqb_spec k j).
    - subst j. rewrite decide_False by congruence.
      assert (filter (fun kv : Z * V => kv.1 ≠ k) m = m) as ->; [|lia].
      apply filter_true_id. intros [i u] Hi Heq. simpl in Heq. subst i.
      eapply Forall_forall in Hj; [|apply list_elem_of_fmap; by exists (k, u)]. simpl in Hj. lia.
    - rewrite decide_True by done. simpl. specialize (IH Hm Hget). unfold bt_remove in IH. lia.
Qed.

Lemma bt_len_nonneg m : 0 <= bt_len m.
Proof. unfold bt_len. lia. Qed.

Lemma bt_len_0 m : bt_len m = 0 -> m = [].
Proof. unfold bt_len. destruct m; simpl; [done | lia]. Qed.

Lemma bt_len_pop_first m : bt_len (bt_pop_first m) = Z.max 0 (bt_len m - 1).
Proof. unfold bt_len, bt_pop_first. destruct m; simpl; lia. Qed.

Lemma bt_pop_first_get k v m : bt_wf m -> bt_get k (bt_pop_first m) = Some v -> bt_get k m = Some v.
Proof.
    destruct m as [|[j w] m]; [done|]. simpl. intros [Hm Hj]%bt_wf_cons H.
    destruct (Z.eqb_spec k j); [|done]. subst. apply bt_get_key in H.
    eapply Forall_forall in Hj; [|exact H]. lia.
Qed.

  (** Removing a binding and listing it separately is a permutation. *)
Lemma bt_remove_perm k v m :
    bt_wf m -> bt_get k m = Some v -> bt_values m ≡ₚ v :: bt_values (bt_remove k m).
Proof.
    unfold bt_values. induction m as [|[j w] m IH]; simpl; [done|].
    intros [Hm Hj]%bt_wf_cons Hget. unfold bt_remove. rewrite filter_cons. simpl.
    destruct (Z.eqb_spec k j).
    - subst j. rewrite decide_False by congruence. simplify_eq.
      rewrite filter_true_id; [done|]. intros [i u] Hi Heq. simpl in Heq. subst i.
      eapply Forall_forall in Hj; [|apply list_elem_of_fmap; by exists (k, u)]. simpl in Hj. lia.
    - rewrite decide_True by done. simpl. rewrite (IH Hm Hget). by rewrite Permutation_swap.
Qed.

Lemma bt_insert_perm k v m :
    bt_wf m -> bt_get k m = None -> bt_values (bt_insert k v m) ≡ₚ v :: bt_values m.
Proof.
    unfold bt_values. induction m as [|[j w] m IH]; simpl; [done|].
    intros [Hm Hj]%bt_wf_cons Hget. destruct (Z.eqb_spec k j); [done|].
    destruct (k <? j); simpl; [done|]. rewrite IH by done. by rewrite Permutation_swap.
Qed.
End btree.

(** ** Sets of integers: maps to [unit]. *)

Abbreviation bset := (btree unit).
Definition bs_insert (k : Z) (s : bset) : bset := bt_insert k tt s.
Definition bs_remove (k : Z) (s : bset) : bset := bt_remove k s.
Definition bs_contains (k : Z) (s : bset) : bool := bt_contains_key k s.

(** [iter().collect::<BTreeSet<_>>()]. *)
Definition bs_of_list (l : list Z) : bset := foldr bs_insert [] l.

Lemma bs_contains_insert k j s :
  bs_contains j (bs_insert k s) = (j =? k) || bs_contains j s.
Proof.
  unfold bs_contains, bs_insert, bt_contains_key. rewrite bt_get_insert.
  by destruct (j =? k).
Qed.

Lemma bs_contains_remove k j s :
  bs_contains j (bs_remove k s) = negb (j =? k) && bs_contains j s.
Proof.
  unfold bs_contains, bs_remove, bt_contains_key. rewrite bt_get_remove.
  by destruct (j =? k).
Qed.

Lemma bs_contains_of_list k l : bs_contains k (bs_of_list l) = bool_decide (k ∈ l).
Proof.
  induction l as [|j l IH]; simpl; [done|]. rewrite bs_contains_insert, IH.
  destruct (Z.eqb_spec k j); repeat case_bool_decide; set_solver.
Qed.

Lemma bs_wf_of_list l : bt_wf (bs_of_list l).
Proof. induction l; simpl; [apply bt_wf_nil | by apply bt_wf_insert]. Qed.

#[export] Hint Resolve bt_wf_nil bt_wf_insert bt_wf_remove bt_wf_retain bt_wf_update
  bt_wf_pop_first bt_len_nonneg : sw.
