(* ===== verification/Wire.v ===== *)
(** * Wire: the protocol crate

    [crates/protocol/src/audio.rs] (the audio datagram and its 12-byte header)
    and [crates/protocol/src/control.rs] (the control messages and the
    constants both peers share).  Bytes are integers in [0, 256). *)

From Stdlib Require Import ZArith Lia.
From S2P Require Import Prelude.

(** Rust [String]: the list of its Unicode scalar values. *)
Abbreviation rstring := (list Z).
Abbreviation bytes := (list Z).

Definition is_byte (b : Z) : Prop := 0 <= b < 256.

(** ** Byte order *)

(** [from_be_bytes]. *)
Definition from_be_bytes (bs : bytes) : Z := foldl (fun acc b => acc * 256 + b) 0 bs.

(** The [n]-byte [to_be_bytes]. *)
Fixpoint to_be_bytes (n : nat) (z : Z) : bytes :=
  match n with
  | O => []
  | S n' => to_be_bytes n' (z / 256) ++ [z mod 256]
  end.

(** [i16::to_le_bytes] and [i16::from_le_bytes]: two's complement. *)
Definition i16_to_le_bytes (z : Z) : bytes := [z mod 256; (z / 256) mod 256].
Definition i16_from_le_bytes (b0 b1 : Z) : Z :=
  let u := b0 + 256 * b1 in if u <? 32768 then u else u - 65536.

Definition in_i16 (z : Z) : Prop := -32768 <= z <= 32767.

(** ** [audio.rs] *)

Definition AUDIO_PACKET_HEADER_LEN : Z := 12.

Record AudioPacket : Type := mkAudioPacket {
  ap_sequence : Z;
  ap_timestamp : Z;
  ap_payload : bytes;
}.

Inductive PacketError : Type :=
| TooShort (actual minimum : Z).

#[export] Instance AudioPacket_eq_dec : EqDecision AudioPacket.
Proof. solve_decision. Defined.
#[export] Instance PacketError_eq_dec : EqDecision PacketError.
Proof. solve_decision. Defined.

Definition encode (p : AudioPacket) : bytes :=
  to_be_bytes 4 (ap_sequence p) ++ to_be_bytes 8 (ap_timestamp p) ++ ap_payload p.

Definition decode (encoded : bytes) : result PacketError AudioPacket :=
  let len := Z.of_nat (length encoded) in
  if len <? AUDIO_PACKET_HEADER_LEN
  then Err (TooShort len AUDIO_PACKET_HEADER_LEN)
  else Ok (mkAudioPacket (from_be_bytes (take 4 encoded))
             (from_be_bytes (take 8 (drop 4 encoded))) (drop 12 encoded)).

(** ** [control.rs] *)

Definition PROTOCOL_VERSION : Z := 8.
Definition SAMPLE_RATE : Z := 48000.
Definition CHANNELS : Z := 2.
(** The calibration frequencies in Hz; all are whole numbers. *)
Definition CALIBRATION_FREQUENCIES : list Z := [317; 503; 797; 1259; 1999; 3163].

Inductive SampleFormat : Type := I16Le.

Record StreamInfo : Type := mkStreamInfo {
  si_sample_rate : Z;
  si_channels : Z;
  si_sample_format : SampleFormat;
  si_frame_duration_ms : Z;
}.

Inductive VolumePurpose : Type := User | Calibration | RestoreSpeaker.

Inductive CalibrationAction : Type :=
| Begin
| Cancel
| Commit (index : Z).

Record DeviceStatus : Type := mkDeviceStatus {
  ds_request_id : Z;
  ds_device_id : rstring;
  ds_name : rstring;
  ds_volume : Z;
  ds_minimum : Z;
  ds_maximum : Z;
  ds_fixed : bool;
  ds_speaker : bool;
  ds_failed : bool;
}.

Inductive ControlMessage : Type :=
| Hello (protocol_version : Z)
| StreamInfoMsg (info : StreamInfo)
| Start
| Stop
| AdjustVolume (steps : Z)
| AudioIdle (next_sequence : Z)
| QueryDevice (request_id : Z)
| SetVolume (request_id index : Z) (purpose : VolumePurpose)
| DeviceStatusMsg (status : DeviceStatus)
| CalibrationTone (request_id : Z) (enabled : bool)
| ToneState (request_id : Z) (playing failed : bool)
| CalibrationSession (request_id : Z) (action : CalibrationAction).

#[export] Instance SampleFormat_eq_dec : EqDecision SampleFormat.
Proof. solve_decision. Defined.
#[export] Instance StreamInfo_eq_dec : EqDecision StreamInfo.
Proof. solve_decision. Defined.
#[export] Instance VolumePurpose_eq_dec : EqDecision VolumePurpose.
Proof. solve_decision. Defined.
#[export] Instance CalibrationAction_eq_dec : EqDecision CalibrationAction.
Proof. solve_decision. Defined.
#[export] Instance DeviceStatus_eq_dec : EqDecision DeviceStatus.
Proof. solve_decision. Defined.
#[export] Instance ControlMessage_eq_dec : EqDecision ControlMessage.
Proof. solve_decision. Defined.

(** The ranges of the fields of an [AudioPacket] value. *)
Definition packet_wf (p : AudioPacket) : Prop :=
  ap_sequence p ∈u 32 /\ ap_timestamp p ∈u 64 /\ Forall is_byte (ap_payload p).

(** ** Lemmas on byte order *)

Lemma from_be_bytes_snoc bs b : from_be_bytes (bs ++ [b]) = from_be_bytes bs * 256 + b.
Proof. unfold from_be_bytes. by rewrite foldl_snoc. Qed.

Lemma length_to_be_bytes n z : length (to_be_bytes n z) = n.
Proof. revert z. induction n as [|n IH]; intros z; simpl; [done|]. rewrite length_app, IH. simpl. lia. Qed.

Lemma to_be_bytes_bytes n z : Forall is_byte (to_be_bytes n z).
Proof.
  revert z. induction n as [|n IH]; intros z; simpl; [constructor|].
  apply Forall_app. split; [done|]. constructor; [|constructor].
  unfold is_byte. pose proof (Z.mod_pos_bound z 256). lia.
Qed.

Lemma from_to_be_bytes n z : from_be_bytes (to_be_bytes n z) = z mod 256 ^ Z.of_nat n.
Proof.
  revert z. induction n as [|n IH]; intros z.
  - simpl. by rewrite Z.mod_1_r.
  - cbn [to_be_bytes]. rewrite from_be_bytes_snoc, IH.
    rewrite Nat2Z.inj_succ, Z.pow_succ_r by lia.
    rewrite Z.rem_mul_r by lia. lia.
Qed.

Lemma from_be_bytes_range bs :
  Forall is_byte bs -> 0 <= from_be_bytes bs < 256 ^ Z.of_nat (length bs).
Proof.
  induction bs as [|b bs IH] using rev_ind; [intros; unfold from_be_bytes; simpl; lia|].
  intros [Hbs Hb]%Forall_app. inversion Hb as [|? ? Hbb _]; subst. unfold is_byte in Hbb.
  specialize (IH Hbs). rewrite from_be_bytes_snoc, length_app. simpl.
  rewrite Nat2Z.inj_add. simpl. rewrite Z.pow_add_r by lia. lia.
Qed.

Lemma to_from_be_bytes bs :
  Forall is_byte bs -> to_be_bytes (length bs) (from_be_bytes bs) = bs.
Proof.
  induction bs as [|b bs IH] using rev_ind; [done|].
  intros [Hbs Hb]%Forall_app. inversion Hb as [|? ? Hbb _]; subst. unfold is_byte in Hbb.
  rewrite length_app, Nat.add_1_r. cbn [to_be_bytes]. rewrite from_be_bytes_snoc.
  rewrite Z.div_add_l, (Z.div_small b), Z.add_0_r, IH by (done || lia).
  f_equal. f_equal. rewrite Z.add_comm, Z.mod_add, Z.mod_small by lia. done.
Qed.

Lemma i16_le_bytes_round_trip z :
  in_i16 z -> i16_from_le_bytes (z mod 256) ((z / 256) mod 256) = z.
Proof.
  unfold in_i16, i16_from_le_bytes. intros Hz.
  assert (z mod 256 + 256 * ((z / 256) mod 256) = z mod 65536) as ->.
  { change 65536 with (256 * 256). rewrite Z.rem_mul_r by lia. done. }
  destruct (Z.ltb_spec (z mod 65536) 32768);
    pose proof (Z.div_mod z 65536); pose proof (Z.mod_pos_bound z 65536); nia.
Qed.

Lemma i16_to_le_bytes_bytes z : Forall is_byte (i16_to_le_bytes z).
Proof.
  unfold i16_to_le_bytes, is_byte. repeat constructor; apply Z.mod_pos_bound; lia.
Qed.

(** ** The audio datagram *)

Lemma length_encode p :
  Z.of_nat (length (encode p)) = AUDIO_PACKET_HEADER_LEN + Z.of_nat (length (ap_payload p)).
Proof.
  unfold encode. rewrite !length_app, !length_to_be_bytes.
  unfold AUDIO_PACKET_HEADER_LEN. lia.
Qed.

Lemma take_drop_header (a b c : bytes) :
  length a = 4%nat -> length b = 8%nat ->
  take 4 (a ++ b ++ c) = a /\ take 8 (drop 4 (a ++ b ++ c)) = b /\ drop 12 (a ++ b ++ c) = c.
Proof.
  intros Ha Hb. split; [|split].
  - by rewrite take_app_length'.
  - rewrite drop_app_length' by done. by rewrite take_app_length'.
  - rewrite app_assoc. apply drop_app_length'. rewrite length_app. lia.
Qed.

Lemma decode_encode p : packet_wf p -> decode (encode p) = Ok p.
Proof.
  intros (Hs & Ht & _). unfold decode. rewrite length_encode.
  destruct (Z.ltb_spec (AUDIO_PACKET_HEADER_LEN + Z.of_nat (length (ap_payload p)))
              AUDIO_PACKET_HEADER_LEN); [lia|].
  unfold encode.
  destruct (take_drop_header (to_be_bytes 4 (ap_sequence p)) (to_be_bytes 8 (ap_timestamp p))
              (ap_payload p)) as (-> & -> & ->); [apply length_to_be_bytes..|].
  rewrite !from_to_be_bytes, !Z.mod_small by done. by destruct p.
Qed.

Lemma encode_decode bs p : Forall is_byte bs -> decode bs = Ok p -> encode p = bs /\ packet_wf p.
Proof.
  intros Hbs. unfold decode, AUDIO_PACKET_HEADER_LEN. case_match eqn:E; [done|].
  apply Z.ltb_ge in E. intros. simplify_eq. unfold encode, packet_wf. cbn [ap_sequence ap_timestamp ap_payload].
  assert (bs = take 4 bs ++ take 8 (drop 4 bs) ++ drop 12 bs) as Hsplit.
  { rewrite <- (take_drop 4 bs) at 1. f_equal.
    rewrite <- (take_drop 8 (drop 4 bs)) at 1. by rewrite drop_drop. }
  rewrite Hsplit, !Forall_app in Hbs. destruct Hbs as (H4 & H8 & H12).
  assert (length (take 4 bs) = 4%nat) as L4 by (rewrite length_take; lia).
  assert (length (take 8 (drop 4 bs)) = 8%nat) as L8
    by (rewrite length_take, length_drop; lia).
  pose proof (to_from_be_bytes _ H4) as E4. pose proof (to_from_be_bytes _ H8) as E8.
  pose proof (from_be_bytes_range _ H4) as R4. pose proof (from_be_bytes_range _ H8) as R8.
  rewrite L4 in E4, R4. rewrite L8 in E8, R8. split; [by rewrite E4, E8|].
  by split; [|split].
Qed.

(** The audio datagram codec is exact: [decode] accepts a byte string as
    the packet [p] precisely when it is [p]'s encoding. *)
Theorem packet_round_trip (p : AudioPacket) (bs : bytes)
  (Hp : packet_wf p) (Hbs : Forall is_byte bs) :
  decode bs = Ok p <-> bs = encode p.
Proof.
  split.
  - intros H. by apply encode_decode in H as [-> _].
  - intros ->. by apply decode_encode.
Qed.

Lemma packet_round_trip_witness :
  let p := mkAudioPacket 4294967295 480 [1; 255] in
  packet_wf p /\ (decode (encode p) = Ok p <-> encode p = encode p).
Proof.
  intros p. assert (packet_wf p) as Hp.
  { split_and!; [done|done|]. repeat constructor; done. }
  split; [done|]. apply packet_round_trip; [done|]. vm_compute. repeat constructor; done.
Defined.
