(* ===== verification/Text.v ===== *)
(** * Text: the standard-library vocabulary of the server

    Strings as lists of Unicode scalar values (what [str::chars] yields), the
    character classes the validation code uses, socket addresses, and the
    interface of a bounded [tokio::sync::mpsc] sender: the queue is third-party
    code, so a sender is any type with a [try_send] that either enqueues the
    message or fails and leaves the queue alone. *)

From Stdlib Require Import ZArith Lia.
From S2P Require Import Prelude Wire.

(** ** Characters *)

(** [char::is_whitespace]: the Unicode [White_Space] property. *)
Definition is_whitespace (c : Z) : bool :=
  ((9 <=? c) && (c <=? 13)) || (c =? 32) || (c =? 133) || (c =? 160) || (c =? 5760)
  || ((8192 <=? c) && (c <=? 8202)) || (c =? 8232) || (c =? 8233) || (c =? 8239)
  || (c =? 8287) || (c =? 12288).

(** [char::is_control]: the general category Cc. *)
Definition is_control (c : Z) : bool :=
  ((0 <=? c) && (c <=? 31)) || ((127 <=? c) && (c <=? 159)).

Definition is_ascii_digit (c : Z) : bool := (48 <=? c) && (c <=? 57).
Definition is_ascii_alphanumeric (c : Z) : bool :=
  is_ascii_digit c || ((65 <=? c) && (c <=? 90)) || ((97 <=? c) && (c <=? 122)).

(** [str::len]: the length of the UTF-8 encoding. *)
Definition utf8_width (c : Z) : Z :=
  if c <? 128 then 1 else if c <? 2048 then 2 else if c <? 65536 then 3 else 4.
Definition utf8_len (s : rstring) : Z := foldr (fun c n => utf8_width c + n) 0 s.

(** ** [str::trim] *)

Fixpoint trim_start (s : rstring) : rstring :=
  match s with
  | [] => []
  | c :: s' => if is_whitespace c then trim_start s' else s
  end.
Definition trim_end (s : rstring) : rstring := reverse (trim_start (reverse s)).
Definition trim (s : rstring) : rstring := trim_end (trim_start s).

(** The first character, if any, is no white space. *)
Definition head_solid (s : rstring) : Prop :=
  match s with [] => True | c :: _ => is_whitespace c = false end.

Lemma trim_start_solid s : head_solid (trim_start s).
Proof. induction s as [|c s IH]; simpl; [done|]. by destruct (is_whitespace c) eqn:E. Qed.

Lemma trim_start_id s : head_solid s -> trim_start s = s.
Proof. destruct s as [|c s]; simpl; [done|]. by intros ->. Qed.

Lemma trim_start_suffix s : exists w, s = w ++ trim_start s.
Proof.
  induction s as [|c s [w IH]]; simpl; [by exists []|].
  destruct (is_whitespace c); [|by exists []]. exists (c :: w). simpl. by f_equal.
Qed.

Lemma trim_end_head s : head_solid s -> head_solid (trim_end s).
Proof.
  unfold trim_end. destruct (trim_start_suffix (reverse s)) as [w Hw].
  assert (s = reverse (trim_start (reverse s)) ++ reverse w) as Hs.
  { rewrite <- reverse_app, <- Hw. by rewrite reverse_involutive. }
  destruct (reverse (trim_start (reverse s))) as [|c r]; [done|]. rewrite Hs. done.
Qed.

Lemma trim_end_idem s : trim_end (trim_end s) = trim_end s.
Proof.
  unfold trim_end. rewrite reverse_involutive. f_equal.
  apply trim_start_id, trim_start_solid.
Qed.

(** Trimming twice changes nothing. *)
Lemma trim_idem s : trim (trim s) = trim s.
Proof.
  unfold trim. rewrite (trim_start_id (trim_end (trim_start s))).
  - apply trim_end_idem.
  - apply trim_end_head, trim_start_solid.
Qed.

(** ** Standard types *)

Record SocketAddr : Type := mkSocketAddr {
  sa_ip : list Z;
  sa_port : Z;
}.

#[export] Instance SocketAddr_eq_dec : EqDecision SocketAddr.
Proof. solve_decision. Defined.

(** ** Bounded channels *)

(** [Sender::try_send]: [None] when the queue is full or its receiving end is
    gone. *)
Class Mpsc (Sender M : Type) : Type := {
  try_send : Sender -> M -> option Sender;
}.

(** The queue documented by tokio: a buffer of bounded capacity, and whether
    the receiving half still exists. *)
Record Channel (M : Type) : Type := mkChannel {
  ch_capacity : Z;
  ch_open : bool;
  ch_queue : list M;
}.
Arguments mkChannel {M} ch_capacity ch_open ch_queue.
Arguments ch_capacity {M} _.
Arguments ch_open {M} _.
Arguments ch_queue {M} _.

#[export] Instance channel_mpsc {M} : Mpsc (Channel M) M := {
  try_send c m :=
    if ch_open c && (Z.of_nat (length (ch_queue c)) <? ch_capacity c)
    then Some (mkChannel (ch_capacity c) (ch_open c) (ch_queue c ++ [m]))
    else None;
}.
