(* ===== verification/NameInput.v ===== *)
(** * NameInput: the text field for the name of a profile

    [windows-server/src/ui/name_input.rs].  The text is a list of characters;
    offsets count bytes of its UTF-8 form, as in the source, and the platform
    counts UTF-16 units.  [None] is a panic: a slice at an offset that is not
    the start of a character, or whose end comes before its start.  Drawing,
    scrolling, the focus and [bounds_for_range], which only asks the shaped line,
    are left out; of that line only the text it was shaped from is kept, and the
    offset the library finds below the mouse is an argument.  The calls that can
    break the field ([stray]) are told apart from all others. *)

From Stdlib Require Import ZArith Lia.
From S2P Require Import Prelude Wire Text.

(** ** Slices *)

Definition utf16_width (c : Z) : Z := if c <? 65536 then 1 else 2.
(** [encode_utf16().count()]. *)
Definition utf16_len (s : rstring) : Z := foldr (fun c n => utf16_width c + n) 0 s.

(** [s.split_at(n)]. *)
Fixpoint split_at (s : rstring) (n : Z) : option (rstring * rstring) :=
  if n =? 0 then Some ([], s)
  else match s with
       | [] => None
       | c :: s' =>
           if n <? utf8_width c then None
           else '(before, after) ← split_at s' (n - utf8_width c); Some (c :: before, after)
       end.

(** [s[..n]], [s[n..]] and [s[a..b]]. *)
Definition slice_to (s : rstring) (n : Z) : option rstring := fst <$> split_at s n.
Definition slice_from (s : rstring) (n : Z) : option rstring := snd <$> split_at s n.
Definition slice (s : rstring) (range : Z * Z) : option rstring := before ← slice_to s range.2; slice_from before range.1.

(** [String::replace_range]. *)
Definition replace_range (s : rstring) (range : Z * Z) (text : rstring) : option rstring :=
  _ ← slice s range;
  before ← slice_to s range.1;
  after ← slice_from s range.2;
  Some (before ++ text ++ after).

(** ** State *)

Record NameInput : Type := mkNameInput {
  ni_text : rstring;
  ni_selection : Z * Z;
  ni_marked : option (Z * Z);
  ni_line : option rstring;
}.

Definition input_new : NameInput := mkNameInput [] (0, 0) None None.

Definition set_selection (r : Z * Z) (i : NameInput) : NameInput := mkNameInput (ni_text i) r (ni_marked i) (ni_line i).
Definition set_marked (m : option (Z * Z)) (i : NameInput) : NameInput :=
  mkNameInput (ni_text i) (ni_selection i) m (ni_line i).

Definition set_text (text : rstring) (i : NameInput) : NameInput :=
  mkNameInput text (utf8_len text, utf8_len text) None (ni_line i).

(** ** Offsets *)

(** The loop of [utf8]. *)
Fixpoint utf8_loop (s : rstring) (index units offset : Z) : Z :=
  match s with
  | [] => index
  | c :: s' =>
      if offset <=? units then index else utf8_loop s' (index + utf8_width c) (units + utf16_width c) offset
  end.
Definition utf8 (i : NameInput) (offset : Z) : Z := utf8_loop (ni_text i) 0 0 offset.

Definition range_bytes (i : NameInput) (range : Z * Z) : Z * Z := (utf8 i range.1, utf8 i range.2).
Definition range_units (i : NameInput) (range : Z * Z) : option (Z * Z) :=
  before ← slice_to (ni_text i) range.1;
  up_to ← slice_to (ni_text i) range.2;
  Some (utf16_len before, utf16_len up_to).

(** ** The input handler *)

Definition text_for_range (i : NameInput) (range : Z * Z) : option ((Z * Z) * rstring) :=
  let range := range_bytes i range in
  actual ← range_units i range;
  text ← slice (ni_text i) range;
  Some (actual, text).

Definition selected_text_range (i : NameInput) : option (Z * Z) := range_units i (ni_selection i).
(** The outer [option] is the panic, the inner one the method's. *)
Definition marked_text_range (i : NameInput) : option (option (Z * Z)) :=
  match ni_marked i with
  | None => Some None
  | Some range => Some <$> range_units i range
  end.
Definition unmark_text (i : NameInput) : NameInput := set_marked None i.

(** The bytes that a replacement is about. *)
Definition target_range (i : NameInput) (range : option (Z * Z)) : Z * Z :=
  match range with
  | Some range => range_bytes i range
  | None => default (ni_selection i) (ni_marked i)
  end.

Definition replace_text_in_range (i : NameInput) (range : option (Z * Z)) (text : rstring) : option NameInput :=
  let range := target_range i range in
  let text := filter (fun c => negb (is_control c) = true) text in
  before ← slice_to (ni_text i) range.1;
  after ← slice_from (ni_text i) range.2;
  if 80 <? Z.of_nat (length before) + Z.of_nat (length text) + Z.of_nat (length after) then Some i
  else
    replaced ← replace_range (ni_text i) range text;
    let cursor := range.1 + utf8_len text in
    Some (mkNameInput replaced (cursor, cursor) None (ni_line i)).

(** [usize] addition.  On overflow a debug build panics, a release build wraps;
    nothing is promised for such an offset. *)
Definition offset_add (a b : Z) : option Z := if uint_max 64 <? a + b then None else Some (a + b).

Definition replace_and_mark_text_in_range (i : NameInput) (range : option (Z * Z)) (text : rstring)
    (selected : option (Z * Z)) : option NameInput :=
  let start := (target_range i range).1 in
  i ← replace_text_in_range i range text;
  let stop := (ni_selection i).2 in
  let i := if start <? stop then set_marked (Some (start, stop)) i else i in
  match selected with
  | None => Some i
  | Some selected =>
      before ← slice_to (ni_text i) start;
      let prefix := utf16_len before in
      first ← offset_add prefix selected.1;
      last ← offset_add prefix selected.2;
      Some (set_selection (range_bytes i (first, last)) i)
  end.

(** [closest] is what [closest_index_for_x] returns; there is no answer
    without a line. *)
Definition character_index_for_point (i : NameInput) (closest : Z) : option (option Z) :=
  match ni_line i with
  | None => Some None
  | Some _ =>
      before ← slice_to (ni_text i) (Z.min closest (utf8_len (ni_text i)));
      Some (Some (utf16_len before))
  end.

(** ** Mouse and keyboard *)

Definition mouse_down (i : NameInput) (closest : Z) : NameInput :=
  let offset := match ni_line i with
                | None => utf8_len (ni_text i)
                | Some _ => Z.min closest (utf8_len (ni_text i))
                end in
  set_selection (offset, offset) i.

Inductive key : Type :=
| KeySelectAll
| KeyPaste (clipboard : option rstring)
| KeyCopy
| KeyBackspace
| KeyDelete
| KeyLeft
| KeyRight
| KeyHome
| KeyEnd
| KeyOther.

(** [char_indices().next_back()] of the text before an offset, and the offset
    after the next character. *)
Definition previous_index (s : rstring) (n : Z) : option Z :=
  before ← slice_to s n;
  Some (match last before with Some c => utf8_len before - utf8_width c | None => 0 end).
Definition next_index (s : rstring) (n : Z) : option Z :=
  after ← slice_from s n;
  Some (match after with c :: _ => n + utf8_width c | [] => n end).

(** The new state, and what is written to the clipboard. *)
Definition key_down (i : NameInput) (k : key) : option (NameInput * option rstring) :=
  let '(start, stop) := ni_selection i in
  match k with
  | KeySelectAll => Some (set_selection (0, utf8_len (ni_text i)) i, None)
  | KeyPaste None => Some (i, None)
  | KeyPaste (Some text) => i ← replace_text_in_range i None text; Some (i, None)
  | KeyCopy => text ← slice (ni_text i) (ni_selection i); Some (i, Some text)
  | KeyBackspace =>
      i ← (if stop <=? start then start ← previous_index (ni_text i) stop; Some (set_selection (start, stop) i) else Some i);
      i ← replace_text_in_range i None [];
      Some (i, None)
  | KeyDelete =>
      i ← (if stop <=? start then stop ← next_index (ni_text i) stop; Some (set_selection (start, stop) i) else Some i);
      i ← replace_text_in_range i None [];
      Some (i, None)
  | KeyLeft => offset ← previous_index (ni_text i) start; Some (set_selection (offset, offset) i, None)
  | KeyRight => offset ← next_index (ni_text i) stop; Some (set_selection (offset, offset) i, None)
  | KeyHome => Some (set_selection (0, 0) i, None)
  | KeyEnd => Some (set_selection (utf8_len (ni_text i), utf8_len (ni_text i)) i, None)
  | KeyOther => Some (i, None)
  end.

(** Painting shapes the text as it is. *)
Definition paint (i : NameInput) : NameInput :=
  mkNameInput (ni_text i) (ni_selection i) (ni_marked i) (Some (ni_text i)).

(** ** Histories *)

Inductive input_op : Type :=
| InSet (text : rstring)
| InTextForRange (range : Z * Z)
| InSelectedRange
| InMarkedRange
| InUnmark
| InReplace (range : option (Z * Z)) (text : rstring)
| InReplaceAndMark (range : option (Z * Z)) (text : rstring) (selected : option (Z * Z))
| InPoint (closest : Z)
| InMouse (closest : Z)
| InKey (k : key)
| InPaint.

Definition input_step (i : NameInput) (op : input_op) : option NameInput :=
  match op with
  | InSet text => Some (set_text text i)
  | InTextForRange range => _ ← text_for_range i range; Some i
  | InSelectedRange => _ ← selected_text_range i; Some i
  | InMarkedRange => _ ← marked_text_range i; Some i
  | InUnmark => Some (unmark_text i)
  | InReplace range text => replace_text_in_range i range text
  | InReplaceAndMark range text selected => replace_and_mark_text_in_range i range text selected
  | InPoint closest => _ ← character_index_for_point i closest; Some i
  | InMouse closest => Some (mouse_down i closest)
  | InKey k => fst <$> key_down i k
  | InPaint => Some (paint i)
  end.

Fixpoint input_run (i : NameInput) (ops : list input_op) : option NameInput :=
  match ops with
  | [] => Some i
  | op :: ops' => i ← input_step i op; input_run i ops'
  end.

(** ** Slices at character boundaries *)

Definition boundary (s : rstring) (n : Z) : Prop := exists before after, s = before ++ after /\ n = utf8_len before.
Definition on_boundary (s : rstring) (n : Z) : bool := bool_decide (is_Some (split_at s n)).

Lemma utf8_width_pos c : 1 <= utf8_width c <= 4.
Proof. unfold utf8_width. repeat case_match; lia. Qed.

Lemma utf16_width_pos c : 1 <= utf16_width c <= 2.
Proof. unfold utf16_width. case_match; lia. Qed.

Lemma utf8_len_app a b : utf8_len (a ++ b) = utf8_len a + utf8_len b.
Proof. unfold utf8_len. induction a as [|c a IH]; simpl; [done|]. rewrite IH. lia. Qed.

Lemma utf16_len_app a b : utf16_len (a ++ b) = utf16_len a + utf16_len b.
Proof. unfold utf16_len. induction a as [|c a IH]; simpl; [done|]. rewrite IH. lia. Qed.

Lemma utf8_len_nonneg s : 0 <= utf8_len s.
Proof. unfold utf8_len. induction s as [|c s IH]; simpl; [done|]. pose proof (utf8_width_pos c). lia. Qed.

Lemma utf16_len_nonneg s : 0 <= utf16_len s.
Proof. unfold utf16_len. induction s as [|c s IH]; simpl; [done|]. pose proof (utf16_width_pos c). lia. Qed.

Lemma utf8_len_zero s : utf8_len s = 0 -> s = [].
Proof.
  destruct s as [|c s]; [done|]. unfold utf8_len. simpl. pose proof (utf8_width_pos c). pose proof (utf8_len_nonneg s).
  unfold utf8_len in *. lia.
Qed.

Lemma split_at_app before after : split_at (before ++ after) (utf8_len before) = Some (before, after).
Proof.
  induction before as [|c before IH]; [by destruct after|]. pose proof (utf8_width_pos c). pose proof (utf8_len_nonneg before).
  unfold utf8_len in *. cbn [app split_at foldr].
  replace (utf8_width c + _ =? 0) with false by lia. replace (utf8_width c + _ <? utf8_width c) with false by lia.
  replace (utf8_width c + foldr _ 0 before - utf8_width c) with (foldr (fun c n => utf8_width c + n) 0 before) by lia.
  by rewrite IH.
Qed.

Lemma split_at_some s n before after : split_at s n = Some (before, after) -> s = before ++ after /\ n = utf8_len before.
Proof.
  revert n before. induction s as [|c s IH]; intros n before; cbn [split_at]; destruct (Z.eqb_spec n 0) as [->|];
    try (by intros [= <- <-]).
  destruct (n <? utf8_width c); [done|]. destruct (split_at s (n - utf8_width c)) as [[p q]|] eqn:E; [|done].
  intros [= <- <-]. apply IH in E as [-> E]. split; [done|]. unfold utf8_len in *. cbn [foldr]. lia.
Qed.

Lemma on_boundary_spec s n : on_boundary s n = true <-> boundary s n.
Proof.
  unfold on_boundary. rewrite bool_decide_eq_true. split.
  - intros [[p q] H]. apply split_at_some in H as [-> ->]. by exists p, q.
  - intros (p & q & -> & ->). exists (p, q). apply split_at_app.
Qed.

Lemma slice_to_app before after : slice_to (before ++ after) (utf8_len before) = Some before.
Proof. unfold slice_to. by rewrite split_at_app. Qed.

Lemma slice_from_app before after : slice_from (before ++ after) (utf8_len before) = Some after.
Proof. unfold slice_from. by rewrite split_at_app. Qed.

(** A range of two boundaries in order cuts the text in three. *)
Definition range_of (s : rstring) (range : Z * Z) : Prop :=
  exists before middle after, s = before ++ middle ++ after /\ range = (utf8_len before, utf8_len before + utf8_len middle).

Lemma app_split (a b c d : rstring) :
  a ++ b = c ++ d -> utf8_len a <= utf8_len c -> exists m, c = a ++ m /\ b = m ++ d.
Proof.
  revert c. induction a as [|x a IH]; intros c Heq Hle; [by exists c|].
  destruct c as [|y c].
  - unfold utf8_len in Hle. simpl in Hle. pose proof (utf8_width_pos x). pose proof (utf8_len_nonneg a). unfold utf8_len in *. lia.
  - cbn in Heq. injection Heq as -> Heq. unfold utf8_len in Hle. simpl in Hle.
    destruct (IH c Heq) as (m & -> & ->); [unfold utf8_len; lia|]. by exists m.
Qed.

Lemma range_of_boundaries s a b : boundary s a -> boundary s b -> a <= b -> range_of s (a, b).
Proof.
  intros (p & q & -> & ->) (p' & q' & Heq & ->) Hle.
  destruct (app_split p q p' q' Heq Hle) as (m & -> & ->). exists p, m, q'. by rewrite utf8_len_app.
Qed.

Lemma boundary_0 s : boundary s 0.
Proof. by exists [], s. Qed.
Lemma boundary_len s : boundary s (utf8_len s).
Proof. exists s, []. by rewrite app_nil_r. Qed.
Lemma boundary_app p q : boundary (p ++ q) (utf8_len p).
Proof. by exists p, q. Qed.

Lemma range_of_start s range : range_of s range -> boundary s range.1.
Proof. intros (p & m & q & -> & ->). apply boundary_app. Qed.
Lemma range_of_stop s range : range_of s range -> boundary s range.2.
Proof. intros (p & m & q & -> & ->). cbn. rewrite <- utf8_len_app, (assoc_L (++)). apply boundary_app. Qed.

Lemma range_of_point s n : boundary s n -> range_of s (n, n).
Proof. intros H. by apply range_of_boundaries. Qed.

(** ** UTF-16 offsets *)

Lemma utf8_loop_app p q index units :
  utf8_loop (p ++ q) index units (units + utf16_len p) = index + utf8_len p.
Proof.
  revert index units. induction p as [|c p IH]; intros index units.
  - unfold utf16_len, utf8_len. simpl. destruct q as [|c q]; simpl; [lia|]. by replace (units + 0 <=? units) with true by lia; lia.
  - pose proof (utf16_width_pos c). pose proof (utf16_len_nonneg p). unfold utf16_len, utf8_len in *. simpl.
    replace (units + (utf16_width c + _) <=? units) with false by lia.
    specialize (IH (index + utf8_width c) (units + utf16_width c)). rewrite <- Z.add_assoc in IH. rewrite IH. lia.
Qed.

Lemma utf8_loop_spec s index units offset :
  exists p q, s = p ++ q /\ utf8_loop s index units offset = index + utf8_len p.
Proof.
  revert index units. induction s as [|c s IH]; intros index units.
  - exists [], []. split; [done|]. unfold utf8_len. simpl. lia.
  - simpl. destruct (offset <=? units); [exists [], (c :: s); split; [done|]; unfold utf8_len; simpl; lia|].
    destruct (IH (index + utf8_width c) (units + utf16_width c)) as (p & q & -> & ->).
    exists (c :: p), q. split; [done|]. unfold utf8_len. simpl. lia.
Qed.

Lemma utf8_loop_mono s index units a b : a <= b -> utf8_loop s index units a <= utf8_loop s index units b.
Proof.
  revert index units. induction s as [|c s IH]; intros index units Hab; [done|]. simpl.
  destruct (Z.leb_spec a units), (Z.leb_spec b units); try lia; [|by apply IH].
  destruct (utf8_loop_spec s (index + utf8_width c) (units + utf16_width c) b) as (p & q & _ & ->).
  pose proof (utf8_width_pos c). pose proof (utf8_len_nonneg p). lia.
Qed.

Lemma utf8_boundary i offset : boundary (ni_text i) (utf8 i offset).
Proof. unfold utf8. destruct (utf8_loop_spec (ni_text i) 0 0 offset) as (p & q & Hs & ->). by exists p, q. Qed.

Lemma range_bytes_of i range : range.1 <= range.2 -> range_of (ni_text i) (range_bytes i range).
Proof. intros H. apply range_of_boundaries; [apply utf8_boundary..|]. by apply utf8_loop_mono. Qed.

Lemma range_units_ok i range :
  range_of (ni_text i) range -> exists before middle after,
    ni_text i = before ++ middle ++ after /\ range = (utf8_len before, utf8_len before + utf8_len middle) /\
    range_units i range = Some (utf16_len before, utf16_len before + utf16_len middle) /\
    slice (ni_text i) range = Some middle.
Proof.
  intros (p & m & q & Ht & ->). exists p, m, q. split_and!; [done..| |].
  - unfold range_units. cbn [fst snd]. rewrite Ht, slice_to_app. cbn.
    rewrite <- utf8_len_app, (assoc_L (++)), slice_to_app. cbn. by rewrite utf16_len_app.
  - unfold slice. cbn [fst snd]. rewrite Ht, <- utf8_len_app, (assoc_L (++)), slice_to_app. cbn. apply slice_from_app.
Qed.

(** ** Replacing *)

Definition typed (text : rstring) : rstring := filter (fun c => negb (is_control c) = true) text.

(** The invariant of the field. [clean] says that no name that was set had a
    control character. *)
Record input_wf (clean : Prop) (i : NameInput) : Prop := {
  iw_selection : range_of (ni_text i) (ni_selection i);
  iw_marked m : ni_marked i = Some m -> range_of (ni_text i) m;
  iw_length : (length (ni_text i) <= 80)%nat;
  iw_printable : clean -> Forall (fun c => is_control c = false) (ni_text i);
}.

Section invariant.
Context {clean : Prop}.
Abbreviation input_wf := (input_wf clean).

Lemma target_range_of i range :
  input_wf i -> (forall r, range = Some r -> r.1 <= r.2) -> range_of (ni_text i) (target_range i range).
Proof.
  intros Hw Hr. unfold target_range. destruct range as [r|]; [by apply range_bytes_of, Hr|].
  destruct (ni_marked i) as [m|] eqn:Hm; [by apply (iw_marked _ i Hw)|apply (iw_selection _ i Hw)].
Qed.

Lemma replace_spec i range text before middle after :
  ni_text i = before ++ middle ++ after ->
  target_range i range = (utf8_len before, utf8_len before + utf8_len middle) ->
  replace_text_in_range i range text =
    Some (if 80 <? Z.of_nat (length before + length (typed text) + length after) then i
          else mkNameInput (before ++ typed text ++ after)
                 (utf8_len before + utf8_len (typed text), utf8_len before + utf8_len (typed text)) None (ni_line i)).
Proof.
  intros Ht Hr. unfold replace_text_in_range. rewrite Hr. cbn [fst snd]. fold (typed text).
  assert (slice_to (ni_text i) (utf8_len before) = Some before) as Hb by (rewrite Ht; apply slice_to_app).
  assert (slice_from (ni_text i) (utf8_len before + utf8_len middle) = Some after) as Ha.
  { rewrite Ht, <- utf8_len_app, (assoc_L (++)). apply slice_from_app. }
  assert (slice (ni_text i) (utf8_len before, utf8_len before + utf8_len middle) = Some middle) as Hm.
  { unfold slice. cbn [fst snd]. rewrite Ht, <- utf8_len_app, (assoc_L (++)), slice_to_app. cbn. apply slice_from_app. }
  rewrite Hb, Ha. cbn [mbind option_bind]. rewrite !Nat2Z.inj_add. case_match; [done|].
  unfold replace_range. rewrite Hm. cbn [fst snd mbind option_bind]. rewrite Hb, Ha. done.
Qed.

Lemma typed_printable text : Forall (fun c => is_control c = false) (typed text).
Proof.
  apply Forall_forall. intros c Hc. unfold typed in Hc. apply list_elem_of_filter in Hc as [Hc _]. by destruct (is_control c).
Qed.

Lemma replace_wf i range text :
  input_wf i -> (forall r, range = Some r -> r.1 <= r.2) ->
  exists i', replace_text_in_range i range text = Some i' /\ input_wf i' /\
    boundary (ni_text i') (target_range i range).1.
Proof.
  intros Hw Hr. destruct (target_range_of i range Hw Hr) as (p & m & q & Ht & Htar).
  rewrite (replace_spec i range text p m q Ht Htar), Htar. cbn [fst].
  eexists. split; [reflexivity|]. destruct (Z.ltb_spec 80 (Z.of_nat (length p + length (typed text) + length q))).
  - split; [done|]. rewrite Ht. apply boundary_app.
  - split; [|apply boundary_app]. pose proof (iw_printable _ i Hw) as Hp. rewrite Ht in Hp.
    split; cbn; [|done|rewrite !length_app; lia|].
    + apply range_of_point. rewrite <- utf8_len_app, (assoc_L (++)). apply boundary_app.
    + intros Hc. specialize (Hp Hc). apply Forall_app in Hp as [Hp1 Hp2]. apply Forall_app in Hp2 as [_ Hp2].
      repeat (apply Forall_app; split); [done|apply typed_printable|done].
Qed.

Lemma wf_selection i r : input_wf i -> range_of (ni_text i) r -> input_wf (set_selection r i).
Proof. intros [H1 H2 H3 H4] Hr. by split. Qed.

Lemma wf_marked i m : input_wf i -> (forall r, m = Some r -> range_of (ni_text i) r) -> input_wf (set_marked m i).
Proof. intros [H1 H2 H3 H4] Hr. by split. Qed.

Lemma previous_index_ok s n : boundary s n -> exists k, previous_index s n = Some k /\ boundary s k /\ k <= n.
Proof.
  intros (p & q & -> & ->). unfold previous_index. rewrite slice_to_app. cbn. eexists. split; [reflexivity|].
  destruct p as [|c p _] using rev_ind; [split; [apply boundary_0|done]|].
  rewrite last_snoc, utf8_len_app. unfold utf8_len at 2 4. cbn. pose proof (utf8_width_pos c). split; [|lia].
  replace (utf8_len p + (utf8_width c + 0) - utf8_width c) with (utf8_len p) by lia.
  rewrite <- (assoc_L (++)). apply boundary_app.
Qed.

Lemma next_index_ok s n : boundary s n -> exists k, next_index s n = Some k /\ boundary s k /\ n <= k.
Proof.
  intros (p & q & -> & ->). unfold next_index. rewrite slice_from_app. cbn. eexists. split; [reflexivity|].
  destruct q as [|c q]; [split; [apply boundary_app|done]|]. pose proof (utf8_width_pos c). split; [|lia].
  exists (p ++ [c]), q. split; [by rewrite <- (assoc_L (++))|]. rewrite utf8_len_app. unfold utf8_len at 3. cbn. lia.
Qed.

(** ** Every operation *)

Definition reversed (range : option (Z * Z)) : bool := match range with Some r => r.2 <? r.1 | None => false end.

(** The calls nothing is promised for: a name that is too long for a profile, a
    range of the platform that ends before it starts, or past any offset there
    can be, and a point for which the line, as it was drawn, gives an offset
    that is inside a character of the present text. *)
Definition stray (i : NameInput) (op : input_op) : bool :=
  match op with
  | InSet text => 80 <? Z.of_nat (length text)
  | InTextForRange range => reversed (Some range)
  | InReplace range _ => reversed range
  | InReplaceAndMark range _ selected =>
      reversed range || reversed selected || match selected with Some s => 2 ^ 63 <=? s.2 | None => false end
  | InPoint closest | InMouse closest =>
      match ni_line i with
      | Some _ => negb (on_boundary (ni_text i) (Z.min closest (utf8_len (ni_text i))))
      | None => false
      end
  | _ => false
  end.

Definition prints (op : input_op) : Prop :=
  match op with InSet text => Forall (fun c => is_control c = false) text | _ => True end.

Fixpoint calls_ok (i : NameInput) (ops : list input_op) : Prop :=
  match ops with
  | [] => True
  | op :: ops' => stray i op = false /\ forall i', input_step i op = Some i' -> calls_ok i' ops'
  end.

Lemma ordered_some range : reversed range = false -> forall r, range = Some r -> r.1 <= r.2.
Proof. intros H r ->. simpl in H. lia. Qed.

Lemma boundary_le s n : boundary s n -> n <= utf8_len s.
Proof. intros (p & q & -> & ->). rewrite utf8_len_app. pose proof (utf8_len_nonneg q). lia. Qed.

Lemma utf16_len_length s : utf16_len s <= 2 * Z.of_nat (length s).
Proof.
  induction s as [|c s IH]; [done|]. unfold utf16_len in *. cbn [foldr length]. pose proof (utf16_width_pos c). lia.
Qed.

Lemma offset_add_small a b : a + b < 2 ^ 64 -> offset_add a b = Some (a + b).
Proof. intros H. unfold offset_add, uint_max. by replace (2 ^ 64 - 1 <? a + b) with false by lia. Qed.

Lemma replace_and_mark_wf i range text selected :
  input_wf i -> (forall r, range = Some r -> r.1 <= r.2) -> (forall r, selected = Some r -> r.1 <= r.2) ->
  (forall r, selected = Some r -> r.2 < 2 ^ 63) ->
  exists i', replace_and_mark_text_in_range i range text selected = Some i' /\ input_wf i'.
Proof.
  intros Hw Hr Hs Hbig. unfold replace_and_mark_text_in_range.
  destruct (replace_wf i range text Hw Hr) as (i1 & Hrep & Hw1 & Hb). rewrite Hrep. cbn [mbind option_bind].
  set (start := (target_range i range).1) in *. set (i2 := if start <? _ then _ else i1).
  assert (input_wf i2 /\ ni_text i2 = ni_text i1) as [Hw2 Ht2].
  { unfold i2. destruct (Z.ltb_spec start (ni_selection i1).2); [|done]. split; [|done].
    apply wf_marked; [done|]. intros r [= <-]. apply range_of_boundaries; [done| |lia].
    apply (range_of_stop _ _ (iw_selection _ i1 Hw1)). }
  destruct selected as [sel|]; [|by exists i2].
  destruct Hb as (p & q & Hsplit & Hstart).
  assert (slice_to (ni_text i2) start = Some p) as Hp by (rewrite Ht2, Hsplit, Hstart; apply slice_to_app).
  specialize (Hs sel eq_refl). specialize (Hbig sel eq_refl).
  assert (utf16_len p <= 160) as Hsmall.
  { pose proof (utf16_len_length p). pose proof (iw_length _ _ Hw1) as Hl. rewrite Hsplit, length_app in Hl. lia. }
  rewrite Hp. cbn [mbind option_bind]. rewrite !offset_add_small by lia. cbn [mbind option_bind].
  eexists. split; [reflexivity|]. apply wf_selection; [done|]. apply range_bytes_of. cbn. lia.
Qed.

Lemma key_wf i k : input_wf i -> exists i' copied, key_down i k = Some (i', copied) /\ input_wf i'.
Proof.
  intros Hw. pose proof (iw_selection _ i Hw) as Hsel. unfold key_down.
  destruct (ni_selection i) as [start stop] eqn:Hs.
  pose proof (range_of_start _ _ Hsel) as Hstart. pose proof (range_of_stop _ _ Hsel) as Hstop. cbn in Hstart, Hstop.
  assert (forall j, input_wf j -> exists i' copied,
    (i ← replace_text_in_range j None []; Some (i, @None rstring)) = Some (i', copied) /\ input_wf i') as Hdelete.
  { intros j Hj. destruct (replace_wf j None [] Hj) as (j' & -> & Hj' & _); [done|]. by exists j', (@None rstring). }
  destruct k as [|[text|]| | | | | | | |].
  - eexists _, _. split; [reflexivity|]. apply wf_selection; [done|].
    apply range_of_boundaries; [apply boundary_0|apply boundary_len|apply utf8_len_nonneg].
  - destruct (replace_wf i None text Hw) as (i' & -> & Hw' & _); [done|]. by exists i', None.
  - by exists i, None.
  - destruct (range_units_ok i _ Hsel) as (_ & m & _ & _ & _ & _ & ->). by exists i, (Some m).
  - destruct (Z.leb_spec stop start); [|by apply Hdelete].
    destruct (previous_index_ok _ _ Hstop) as (n & -> & Hn & Hle). cbn [mbind option_bind].
    apply Hdelete, wf_selection; [done|]. by apply range_of_boundaries.
  - destruct (Z.leb_spec stop start); [|by apply Hdelete].
    destruct (next_index_ok _ _ Hstop) as (n & -> & Hn & Hle). cbn [mbind option_bind].
    apply Hdelete, wf_selection; [done|]. destruct Hsel as (p & m & q & _ & Heq). injection Heq as -> ->.
    pose proof (utf8_len_nonneg m). apply range_of_boundaries; [done..|lia].
  - destruct (previous_index_ok _ _ Hstart) as (n & -> & Hn & _). eexists _, _. split; [reflexivity|].
    apply wf_selection; [done|]. by apply range_of_point.
  - destruct (next_index_ok _ _ Hstop) as (n & -> & Hn & _). eexists _, _. split; [reflexivity|].
    apply wf_selection; [done|]. by apply range_of_point.
  - eexists _, _. split; [reflexivity|]. apply wf_selection; [done|]. apply range_of_point, boundary_0.
  - eexists _, _. split; [reflexivity|]. apply wf_selection; [done|]. apply range_of_point, boundary_len.
  - by exists i, None.
Qed.

Lemma input_step_wf i op :
  input_wf i -> stray i op = false -> (clean -> prints op) -> exists i', input_step i op = Some i' /\ input_wf i'.
Proof.
  intros Hw Hok Hprint. destruct op; cbn [input_step stray prints] in *.
  - eexists. split; [reflexivity|]. split; cbn; [apply range_of_point, boundary_len|done|lia|done].
  - unfold text_for_range. destruct (range_units_ok i _ (range_bytes_of i range (ordered_some _ Hok _ eq_refl)))
      as (p & m & q & _ & _ & -> & ->). by exists i.
  - unfold selected_text_range. destruct (range_units_ok i _ (iw_selection _ i Hw)) as (p & m & q & _ & _ & -> & _). by exists i.
  - unfold marked_text_range. destruct (ni_marked i) as [r|] eqn:Hm; [|by exists i].
    destruct (range_units_ok i _ (iw_marked _ i Hw r Hm)) as (p & m & q & _ & _ & -> & _). by exists i.
  - eexists. split; [reflexivity|]. by apply wf_marked.
  - destruct (replace_wf i range text Hw (ordered_some _ Hok)) as (i' & -> & Hw' & _). by exists i'.
  - apply orb_false_iff in Hok as [[H1 H2]%orb_false_iff H3].
    apply replace_and_mark_wf; [done|by apply ordered_some..|]. intros r ->. lia.
  - unfold character_index_for_point. destruct (ni_line i) as [line|]; [|by exists i].
    apply negb_false_iff, on_boundary_spec in Hok as (p & q & Ht & ->). rewrite Ht, slice_to_app. by exists i.
  - eexists. split; [reflexivity|]. unfold mouse_down. apply wf_selection; [done|]. apply range_of_point.
    destruct (ni_line i) as [line|]; [|apply boundary_len]. by apply negb_false_iff, on_boundary_spec in Hok.
  - destruct (key_wf i k Hw) as (i' & copied & -> & Hw'). by exists i'.
  - eexists. split; [reflexivity|]. by destruct Hw as [H1 H2 H3 H4].
Qed.

Lemma input_new_wf : input_wf input_new.
Proof. split; cbn; [apply range_of_point, boundary_0|done|lia|done]. Qed.

(** Every call returns, up to the first stray one. *)
Lemma input_run_cases i ops :
  input_wf i -> (clean -> Forall prints ops) ->
  (exists i', input_run i ops = Some i' /\ input_wf i') \/
  exists before op after i', ops = before ++ op :: after /\ input_run i before = Some i' /\ input_wf i' /\ stray i' op = true.
Proof.
  revert i. induction ops as [|op ops IH]; intros i Hw Hp; [left; by exists i|].
  destruct (stray i op) eqn:Hs; [right; by exists [], op, ops, i|].
  destruct (input_step_wf i op Hw Hs) as (i1 & Hstep & Hw1); [by intros Hc; apply Forall_inv in Hp|].
  destruct (IH i1 Hw1) as [(i' & Hrun & Hw')|(before & op' & after & i' & -> & Hrun & Hw' & Hs')];
    [by intros Hc; apply Forall_inv_tail in Hp|..].
  - left. exists i'. cbn [input_run]. by rewrite Hstep.
  - right. exists (op :: before), op', after, i'. cbn [input_run]. by rewrite Hstep.
Qed.

Lemma input_run_wf i ops :
  input_wf i -> calls_ok i ops -> (clean -> Forall prints ops) -> exists i', input_run i ops = Some i' /\ input_wf i'.
Proof.
  intros Hw Hok Hp. destruct (input_run_cases i ops Hw Hp) as [|(before & op & after & i' & -> & Hrun & _ & Hs)]; [done|].
  exfalso. clear Hw Hp. revert i Hok Hrun. induction before as [|op' before IH]; intros i [Hop Hok] Hrun.
  - injection Hrun as <-. congruence.
  - cbn [input_run] in Hrun. destruct (input_step i op') as [i1|] eqn:E; [|done]. by apply (IH i1); [apply Hok|].
Qed.
End invariant.

(** *** An input method composing *)

(** The text between [before] and [after] is what the next input replaces. *)
Definition composing (before middle after : rstring) (i : NameInput) : Prop :=
  ni_text i = before ++ middle ++ after /\ target_range i None = (utf8_len before, utf8_len before + utf8_len middle).

(** The part the input method selects lies within what it inserts. *)
Definition selects_within (update : rstring * option (Z * Z)) : Prop :=
  forall r, update.2 = Some r -> 0 <= r.1 <= r.2 /\ r.2 <= utf16_len (typed update.1).

Definition fits (before text after : rstring) : Prop := (length before + length (typed text) + length after <= 80)%nat.

Lemma composing_step before middle after i update :
  composing before middle after i -> fits before update.1 after -> selects_within update ->
  exists i', replace_and_mark_text_in_range i None update.1 update.2 = Some i' /\
    composing before (typed update.1) after i'.
Proof.
  intros [Ht Htar] Hfits Hsel. destruct update as [text selected]. cbn [fst snd] in *. unfold fits in Hfits.
  unfold replace_and_mark_text_in_range. rewrite (replace_spec i None text before middle after Ht Htar), Htar.
  cbn [fst mbind option_bind]. destruct (Z.ltb_spec 80 (Z.of_nat (length before + length (typed text) + length after))); [lia|].
  cbn [ni_selection snd]. pose proof (utf8_len_nonneg (typed text)).
  set (i0 := mkNameInput _ _ None _). set (i1 := if _ <? _ then _ else i0).
  assert (ni_text i1 = before ++ typed text ++ after) as Ht1 by (unfold i1; by case_match).
  assert (utf8_len (typed text) = 0 -> typed text = []) as Hempty by apply utf8_len_zero.
  assert (forall r, 0 <= r.1 <= r.2 -> r.2 <= utf16_len (typed text) ->
    utf8_len (typed text) = 0 -> range_bytes i1 (utf16_len before + r.1, utf16_len before + r.2) = (utf8_len before, utf8_len before)) as Hrange.
  { intros r H1 H2 Hz. rewrite (Hempty Hz) in *. unfold utf16_len at 1 in H2. cbn in H2.
    assert (r.1 = 0 /\ r.2 = 0) as [-> ->] by lia. rewrite Z.add_0_r. unfold range_bytes, utf8. cbn. rewrite Ht1.
    pose proof (utf8_loop_app before ([] ++ after) 0 0) as Hloop. rewrite !Z.add_0_l in Hloop. by rewrite Hloop. }
  assert (slice_to (ni_text i1) (utf8_len before) = Some before) as Hb by (rewrite Ht1; apply slice_to_app).
  assert (composing before (typed text) after i1) as Hc1.
  { split; [done|]. unfold i1, target_range, i0.
    destruct (Z.ltb_spec (utf8_len before) (utf8_len before + utf8_len (typed text))); cbn; [done|].
    f_equal; lia. }
  destruct selected as [sel|]; [|by exists i1]. rewrite Hb. cbn [mbind option_bind].
  destruct (Hsel sel eq_refl) as [Hs1 Hs2]. cbn [fst] in Hs2.
  pose proof (utf16_len_length before). pose proof (utf16_len_length (typed text)).
  rewrite !offset_add_small by lia. cbn [mbind option_bind].
  eexists. split; [reflexivity|]. split; [done|].
  destruct Hc1 as [_ Hc1]. unfold target_range in *. cbn [ni_marked set_selection].
  destruct (ni_marked i1) as [m|] eqn:Hm; cbn in *; [done|].
  assert (utf8_len (typed text) = 0) as Hz.
  { unfold i1, i0 in Hm. destruct (Z.ltb_spec (utf8_len before) (utf8_len before + utf8_len (typed text))); [done|lia]. }
  rewrite (Hrange sel Hs1 Hs2 Hz), Hz. f_equal; lia.
Qed.

(** ** Properties *)

(** C25. Only a stray call makes the text field panic. On any calls of the
    keyboard, the clipboard, the mouse and the input method, every one of them
    returns until the first stray one, if there is any: up to it, and before it,
    no slice is taken inside a character or in the wrong order, the text has at
    most 80 characters, none of them a control character unless a name with one
    was set, and the selection and the marked range lie on character boundaries
    of it. Stray are: setting a name too long for a profile, a range of the
    platform that ends before it starts or beyond 2^63, and a click or a question
    about a point that hits a line drawn from an earlier text at an offset that is
    inside a character of the present one; on a line drawn from the present text
    no point is stray. *)
Theorem only_stray_calls_panic (ops : list input_op) :
  ((exists i, input_run input_new ops = Some i /\ input_wf (Forall prints ops) i) \/
   (exists before op after i, ops = before ++ op :: after /\ input_run input_new before = Some i /\
      input_wf (Forall prints ops) i /\ stray i op = true)) /\
  (forall i closest, ni_line i = Some (ni_text i) -> boundary (ni_text i) closest ->
     stray i (InPoint closest) = false /\ stray i (InMouse closest) = false).
Proof.
  split; [by apply input_run_cases; [apply input_new_wf|]|]. intros i closest Hl Hb. cbn [stray]. rewrite Hl.
  assert (on_boundary (ni_text i) (Z.min closest (utf8_len (ni_text i))) = true) as -> by
    (rewrite Z.min_l by (by apply boundary_le); by apply on_boundary_spec). done.
Qed.

(** A composition leaves what was committed and nothing else. While an
    input method composes, each update replaces the one before, wherever it
    puts the selection within its own text; when it commits, the text is the
    old one with the selected part replaced by the committed characters,
    control characters left out, and the cursor behind them. *)
Theorem composition_leaves_what_is_committed (i : NameInput) (before selected after : rstring)
  (updates : list (rstring * option (Z * Z))) (text : rstring)
  (Htext : ni_text i = before ++ selected ++ after) (Hmarked : ni_marked i = None)
  (Hselection : ni_selection i = (utf8_len before, utf8_len before + utf8_len selected))
  (Hfits : Forall (fun u => fits before u.1 after) updates) (Hwithin : Forall selects_within updates)
  (Hlast : fits before text after) :
  exists i', input_run i (((fun u => InReplaceAndMark None u.1 u.2) <$> updates) ++ [InReplace None text]) = Some i' /\
    ni_text i' = before ++ typed text ++ after /\ ni_marked i' = None /\
    ni_selection i' = (utf8_len (before ++ typed text), utf8_len (before ++ typed text)).
Proof.
  assert (composing before selected after i) as Hc by (split; [done|]; unfold target_range; by rewrite Hmarked).
  clear Htext Hmarked Hselection. revert i selected Hc. induction Hfits as [|u updates Hu _ IH]; intros i middle Hc.
  - destruct Hc as [Ht Htar]. cbn [fmap list_fmap app input_run input_step].
    rewrite (replace_spec i None text before middle after Ht Htar). cbn [mbind option_bind]. eexists. split; [reflexivity|].
    unfold fits in Hlast. destruct (Z.ltb_spec 80 (Z.of_nat (length before + length (typed text) + length after))); [lia|].
    cbn. by rewrite utf8_len_app.
  - apply Forall_cons in Hwithin as [Hwu Hwithin].
    destruct (composing_step before middle after i u Hc Hu Hwu) as (i' & Hstep & Hc').
    cbn [fmap list_fmap app input_run input_step]. rewrite Hstep. cbn [mbind option_bind]. by apply (IH Hwithin i' (typed u.1)).
Qed.

(** The offsets of the platform and of the text fit: translated to UTF-16
    units and back, a range of whole characters is the same range, and the
    platform gets exactly its characters. *)
Theorem platform_offsets_round_trip (i : NameInput) (before middle after : rstring)
  (Htext : ni_text i = before ++ middle ++ after) :
  let range := (utf8_len before, utf8_len before + utf8_len middle) in
  exists units, range_units i range = Some units /\ range_bytes i units = range /\
    text_for_range i units = Some (units, middle).
Proof.
  intros range. assert (range_of (ni_text i) range) as Hr by (by exists before, middle, after).
  destruct (range_units_ok i range Hr) as (p & m & q & Ht & Heq & Hunits & Hslice).
  assert (utf8_len p = utf8_len before /\ utf8_len m = utf8_len middle) as [Hp Hm].
  { unfold range in Heq. injection Heq as H1 H2. lia. }
  rewrite Htext in Ht. destruct (app_split before (middle ++ after) p (m ++ q) Ht) as (x & -> & Hx); [lia|].
  rewrite utf8_len_app in Hp. assert (x = []) as -> by (apply utf8_len_zero; lia). rewrite app_nil_r in *. cbn in Hx.
  destruct (app_split middle after m q Hx) as (y & -> & Hy); [lia|].
  rewrite utf8_len_app in Hm. assert (y = []) as -> by (apply utf8_len_zero; lia). rewrite app_nil_r in *.
  assert (range_bytes i (utf16_len before, utf16_len before + utf16_len middle) = range) as Hback.
  { unfold range_bytes, utf8. cbn [fst snd]. rewrite Htext, <- utf16_len_app.
    pose proof (utf8_loop_app before (middle ++ after) 0 0) as H1.
    pose proof (utf8_loop_app (before ++ middle) after 0 0) as H2. rewrite <- (assoc_L (++)) in H2.
    rewrite !Z.add_0_l in H1, H2. by rewrite H1, H2, utf8_len_app. }
  eexists. split; [exact Hunits|]. split; [done|]. unfold text_for_range. rewrite Hback, Hunits. cbn. by rewrite Hslice.
Qed.

(** A stray point is no idle worry: the question for its character panics at
    once. *)
Lemma stray_point_panics i closest : stray i (InPoint closest) = true -> input_step i (InPoint closest) = None.
Proof.
  cbn [stray input_step]. unfold character_index_for_point, slice_to. destruct (ni_line i); [|done].
  rewrite negb_true_iff. unfold on_boundary. rewrite bool_decide_eq_false. destruct (split_at _ _); [|done].
  intros H. by destruct H.
Qed.

(** A click that comes before the changed text was drawn: the offset is one of
    the old text, inside the first character of the new one, and the next key
    panics. *)
Theorem stale_line_panics :
  let i := input_run input_new
    [InSet [97; 98]; InPaint; InKey KeySelectAll; InKey (KeyPaste (Some [233])); InMouse 1] in
  (exists i0 i', input_run input_new [InSet [97; 98]; InPaint; InKey KeySelectAll; InKey (KeyPaste (Some [233]))] = Some i0 /\
     stray i0 (InMouse 1) = true /\ i = Some i' /\ boundary [97; 98] 1 /\ ni_text i' = [233] /\ ni_selection i' = (1, 1) /\
     input_step i' (InKey KeyLeft) = None).
Proof. eexists _, _. split; [reflexivity|]. split; [reflexivity|]. split; [reflexivity|]. split_and!; try reflexivity. by exists [97], [98]. Qed.

(** An update of a composition that does not fit is dropped, but the range that
    is marked becomes the part before the cursor: the rest of the composition
    stays in the text after the commit. *)
Theorem refused_update_leaves_remains :
  let full := replicate 78 97 in
  input_run input_new
    [InSet full; InReplaceAndMark None [98; 99] (Some (1, 1)); InReplaceAndMark None [98; 99; 100] (Some (1, 1));
     InReplace None [101]]
  = Some (mkNameInput (full ++ [101; 99]) (79, 79) None None).
Proof. vm_compute. reflexivity. Qed.

(** ** Witnesses *)

Definition typing : list input_op :=
  [InReplaceAndMark None [110; 105] (Some (2, 2)); InReplace None [20320]; InPaint; InMouse 3; InKey KeyLeft;
   InKey (KeyPaste (Some [128512; 10])); InKey KeyBackspace; InTextForRange (0, 1); InSelectedRange; InMarkedRange].

Lemma only_stray_calls_panic_witness :
  (exists i, input_run input_new typing = Some i /\ ni_text i = [20320] /\ input_wf (Forall prints typing) i) /\
  stray (paint (set_text [97; 98] input_new)) (InMouse 1) = false.
Proof.
  split; [|apply (proj2 (only_stray_calls_panic [])); [reflexivity|by exists [97], [98]]].
  destruct (proj1 (only_stray_calls_panic typing)) as [(i & Hrun & Hw)|(before & op & after & i & Heq & Hrun & _ & Hs)].
  - exists i. split; [exact Hrun|]. split; [|exact Hw]. vm_compute in Hrun. by injection Hrun as <-.
  - exfalso. unfold typing in Heq.
    repeat (destruct before as [|? before]; [injection Heq as <- _; vm_compute in Hrun; injection Hrun as <-; vm_compute in Hs; discriminate Hs
                                            |injection Heq as <- Heq]). destruct before; discriminate Heq.
Defined.

Lemma composition_leaves_what_is_committed_witness :
  exists i', input_run (set_text [97; 98] input_new)
      [InReplaceAndMark None [110] (Some (0, 1)); InReplaceAndMark None [110; 105] None; InReplace None [20320; 10]] = Some i' /\
    ni_text i' = [97; 98; 20320].
Proof.
  destruct (composition_leaves_what_is_committed (set_text [97; 98] input_new) [97; 98] [] []
    [([110], Some (0, 1)); ([110; 105], None)] [20320; 10]) as (i' & Hrun & Ht & _).
  1-3: reflexivity.
  - apply Forall_cons. split; [|apply Forall_cons; split; [|constructor]]; unfold fits; vm_compute; lia.
  - apply Forall_cons. split; [|apply Forall_cons; split; [|constructor]]; intros r; [|done].
    intros [= <-]. split_and!; vm_compute; discriminate.
  - unfold fits. vm_compute. lia.
  - exists i'. split; [exact Hrun|exact Ht].
Defined.

Lemma platform_offsets_round_trip_witness :
  exists units, range_units (set_text [128512; 233] input_new) (4, 6) = Some units /\
    range_bytes (set_text [128512; 233] input_new) units = (4, 6).
Proof.
  destruct (platform_offsets_round_trip (set_text [128512; 233] input_new) [128512] [233] [] eq_refl)
    as (units & H1 & H2 & _).
  exists units. split; [exact H1|exact H2].
Defined.
