(* ===== verification/Float32.v ===== *)
(** * Float32: single-precision arithmetic of the sources

    [f32] as the Standard Library's [spec_float] with 24 bits of precision:
    decoding, [clamp], multiplication by an integer, [round] and the casts to
    integers.  The lemmas bound what scaling a fraction costs. *)

From Stdlib Require Import ZArith Lia.
From Stdlib Require Import SpecFloat.
From S2P Require Import Prelude Wire.

Definition f32 : Type := spec_float.

(** [f32::from_le_bytes]: one sign bit, eight of the exponent, 23 of the
    fraction. *)
Definition f32_of_bits (bits : Z) : f32 :=
  let sign := Z.testbit bits 31 in
  let exponent := Z.land (Z.shiftr bits 23) 255 in
  let fraction := Z.land bits (2 ^ 23 - 1) in
  if exponent =? 255 then (if fraction =? 0 then S754_infinity sign else S754_nan)
  else if exponent =? 0 then
    match fraction with Z.pos m => S754_finite sign m (-149) | _ => S754_zero sign end
  else
    match fraction + 2 ^ 23 with Z.pos m => S754_finite sign m (exponent - 150) | _ => S754_nan end.

Definition from_le_bytes (b0 b1 b2 b3 : Z) : f32 := f32_of_bits (b0 + 256 * (b1 + 256 * (b2 + 256 * b3))).

(** [f32::from] of an integer of at most 16 bits is exact. *)
Definition f32_of_Z (z : Z) : f32 := binary_normalize 24 128 z 0 false.
Definition f32_mul : f32 -> f32 -> f32 := SFmul 24 128.

(** [x.clamp(low, high)]; a NaN stays. *)
Definition f32_clamp (x low high : f32) : f32 :=
  if SFltb x low then low else if SFltb high x then high else x.

(** [round]: to the nearest integer, halves away from zero. *)
Definition round_magnitude (m : positive) (e : Z) : Z :=
  if 0 <=? e then Z.pos m * 2 ^ e else (2 * Z.pos m + 2 ^ (- e)) / (2 * 2 ^ (- e)).

(** [x.round() as iN]: the cast saturates, NaN becomes zero. *)
Definition round_as (low high : Z) (x : f32) : Z :=
  match x with
  | S754_nan => 0
  | S754_zero _ => 0
  | S754_infinity true => low
  | S754_infinity false => high
  | S754_finite sign m e =>
      let n := round_magnitude m e in
      Z.max low (Z.min (if sign then - n else n) high)
  end.

(** ** Digits *)

Lemma digits2_spec p : 2 ^ (Z.pos (digits2_pos p) - 1) <= Z.pos p < 2 ^ Z.pos (digits2_pos p).
Proof.
  induction p as [p IH|p IH|]; simpl digits2_pos; [..|done].
  - rewrite Pos2Z.inj_succ. replace (Z.succ (Z.pos (digits2_pos p)) - 1) with (Z.succ (Z.pos (digits2_pos p) - 1)) by lia.
    rewrite !Z.pow_succ_r by lia. lia.
  - rewrite Pos2Z.inj_succ. replace (Z.succ (Z.pos (digits2_pos p)) - 1) with (Z.succ (Z.pos (digits2_pos p) - 1)) by lia.
    rewrite !Z.pow_succ_r by lia. lia.
Qed.

Lemma digits2_le p k : 0 <= k -> Z.pos p < 2 ^ k -> Z.pos (digits2_pos p) <= k.
Proof.
  intros Hk Hp. pose proof (digits2_spec p) as [H _].
  destruct (Z.le_gt_cases (Z.pos (digits2_pos p)) k); [done|].
  assert (2 ^ k <= 2 ^ (Z.pos (digits2_pos p) - 1)) by (apply Z.pow_le_mono_r; lia). lia.
Qed.

(** ** Shifting right *)

Lemma iter_pos_nat {A} (f : A -> A) p x : SpecFloat.iter_pos f p x = Nat.iter (Pos.to_nat p) f x.
Proof.
  revert x. induction p as [p IH|p IH|]; intros x; cbn [SpecFloat.iter_pos].
  - rewrite !IH, Pos2Nat.inj_xI, <- Nat.iter_add. replace (Pos.to_nat p + Pos.to_nat p)%nat with (2 * Pos.to_nat p)%nat by lia.
    by rewrite Nat.iter_succ_r.
  - rewrite !IH, Pos2Nat.inj_xO, <- Nat.iter_add. f_equal. lia.
  - done.
Qed.

Lemma shr_1_m mrs : 0 <= shr_m mrs -> shr_m (shr_1 mrs) = shr_m mrs / 2.
Proof.
  destruct mrs as [[|[p|p|]|p] r s]; cbn; intros H; try done.
  - change (Z.pos p~1) with (2 * Z.pos p + 1). rewrite Z.mul_comm, Z.div_add_l by lia. by rewrite Z.add_0_r.
  - change (Z.pos p~0) with (2 * Z.pos p). by rewrite Z.mul_comm, Z.div_mul.
Qed.

Lemma shr_iter_m n mrs : 0 <= shr_m mrs -> shr_m (Nat.iter n shr_1 mrs) = shr_m mrs / 2 ^ Z.of_nat n.
Proof.
  intros H. induction n as [|n IH]; [by rewrite Z.div_1_r|].
  rewrite Nat.iter_succ. rewrite shr_1_m by (rewrite IH; apply Z.div_pos; lia).
  rewrite IH, Z.div_div by lia. f_equal. rewrite Nat2Z.inj_succ, Z.pow_succ_r by lia. lia.
Qed.

(** A shift by [n]: the mantissa, and the exponent. *)
Lemma shr_any mrs0 e n :
  0 <= shr_m mrs0 -> exists mrs e', shr mrs0 e n = (mrs, e') /\
    e' = e + Z.max 0 n /\ shr_m mrs = shr_m mrs0 / 2 ^ Z.max 0 n /\ (n <= 0 -> mrs = mrs0).
Proof.
  intros Hm. destruct n as [|p|p]; cbn [shr].
  - eexists _, _. split; [reflexivity|]. rewrite Z.max_id, Z.div_1_r. split_and!; [lia|done|done].
  - eexists _, _. split; [reflexivity|]. rewrite Z.max_r by lia. split_and!; [done| |lia].
    rewrite iter_pos_nat, shr_iter_m by done. by rewrite positive_nat_Z.
  - eexists _, _. split; [reflexivity|]. rewrite Z.max_l, Z.div_1_r by lia. split_and!; [lia|done|done].
Qed.

Lemma shr_spec m e n :
  0 <= m -> exists mrs e', shr (Build_shr_record m false false) e n = (mrs, e') /\
    e' = e + Z.max 0 n /\ shr_m mrs = m / 2 ^ Z.max 0 n /\ (n <= 0 -> loc_of_shr_record mrs = loc_Exact).
Proof.
  intros Hm. destruct (shr_any (Build_shr_record m false false) e n Hm) as (mrs & e' & H1 & H2 & H3 & H4).
  exists mrs, e'. split_and!; try done. intros Hn. by rewrite (H4 Hn).
Qed.

(** A multiple of the new unit is shifted without remainder. *)
Lemma shr_iter_exact m n :
  0 <= m -> Nat.iter n shr_1 (Build_shr_record (m * 2 ^ Z.of_nat n) false false) = Build_shr_record m false false.
Proof.
  intros Hm. induction n as [|n IH]; [cbn; f_equal; lia|]. rewrite Nat.iter_succ_r.
  replace (shr_1 (Build_shr_record (m * 2 ^ Z.of_nat (S n)) false false)) with (Build_shr_record (m * 2 ^ Z.of_nat n) false false);
    [exact IH|].
  rewrite Nat2Z.inj_succ, Z.pow_succ_r by lia. replace (m * (2 * 2 ^ Z.of_nat n)) with (2 * (m * 2 ^ Z.of_nat n)) by lia.
  assert (0 <= m * 2 ^ Z.of_nat n) as H by (apply Z.mul_nonneg_nonneg; [done|apply Z.pow_nonneg; lia]).
  by destruct (m * 2 ^ Z.of_nat n).
Qed.

Lemma shr_exact m e p : 0 <= m -> 0 <= p -> shr (Build_shr_record (m * 2 ^ p) false false) e p = (Build_shr_record m false false, e + p).
Proof.
  intros Hm Hp. destruct p as [|p|p]; cbn [shr]; [rewrite Z.mul_1_r, Z.add_0_r; done| |lia].
  rewrite iter_pos_nat. rewrite <- (positive_nat_Z p) at 1. by rewrite shr_iter_exact.
Qed.

(** The mantissa at a smaller exponent. *)
Lemma shl_align_value m e e' : e' <= e -> Z.pos (fst (shl_align m e e')) = Z.pos m * 2 ^ (e - e').
Proof.
  intros H. unfold shl_align. destruct (e' - e) as [|d|d] eqn:E; [|lia|].
  - replace (e - e') with 0 by lia. cbn. lia.
  - replace (e - e') with (Z.pos d) by lia. cbn [fst]. clear. revert m. induction d as [|d IH] using Pos.peano_ind; intros m.
    + cbn. lia.
    + rewrite Pos.iter_succ. rewrite Pos2Z.inj_succ, Z.pow_succ_r by lia. specialize (IH m).
      change (Z.pos (xO (Pos.iter xO m d))) with (2 * Z.pos (Pos.iter xO m d)). lia.
Qed.

Lemma round_even_spec m l : round_nearest_even m l = m \/ (round_nearest_even m l = m + 1 /\ l <> loc_Exact).
Proof. destruct l as [|[]]; cbn; [by left| | |]; try (by left); try (by right). destruct (Z.even m); [by left|by right]. Qed.

(** ** Rounding

    Values are compared as integers at a scale that makes all of them
    integers. *)

Definition SCALE : Z := 400.
Definition scaled (m : Z) (e : Z) : Z := m * 2 ^ (e + SCALE).

Lemma scaled_shift m e p : 0 <= p -> - SCALE <= e -> scaled m (e + p) = scaled (m * 2 ^ p) e.
Proof.
  intros Hp He. unfold scaled. replace (e + p + SCALE) with (p + (e + SCALE)) by lia. rewrite Z.pow_add_r by lia. lia.
Qed.

(** [x] is finite, not negative, and within [2 ^ (-8)] of [m * 2 ^ e]. *)
Definition near (x : f32) (m e : Z) : Prop :=
  match x with
  | S754_zero _ => scaled m e <= 2 ^ (SCALE - 8)
  | S754_finite false m' e' => -149 <= e' <= 17 /\ Z.abs (scaled (Z.pos m') e' - scaled m e) <= 2 ^ (SCALE - 8)
  | _ => False
  end.

(** The first rounding: the mantissa has 24 bits or is rounded up to the next
    power of two, and is at most one unit off. *)
Lemma first_rounding (m : positive) (e p : Z) (mrs : shr_record) :
  p = Z.max 0 (fexp 24 128 (Z.pos (digits2_pos m) + e) - e) -> shr_m mrs = Z.pos m / 2 ^ p ->
  (fexp 24 128 (Z.pos (digits2_pos m) + e) - e <= 0 -> loc_of_shr_record mrs = loc_Exact) ->
  let r := round_nearest_even (shr_m mrs) (loc_of_shr_record mrs) in
  0 <= r <= 2 ^ 24 /\ (p = 0 -> r = Z.pos m) /\ Z.abs (r * 2 ^ p - Z.pos m) <= 2 ^ p.
Proof.
  intros Hp Hm Hl r. pose proof (digits2_spec m) as [_ Hd].
  assert (0 < 2 ^ p) as H2p by (apply Z.pow_pos_nonneg; lia).
  assert (Z.pos m < 2 ^ 24 * 2 ^ p) as Hlt.
  { rewrite <- Z.pow_add_r by lia. eapply Z.lt_le_trans; [exact Hd|]. apply Z.pow_le_mono_r; [lia|].
    unfold fexp in Hp. lia. }
  pose proof (Z.div_mod (Z.pos m) (2 ^ p) ltac:(lia)) as Hdiv.
  pose proof (Z.mod_pos_bound (Z.pos m) (2 ^ p) H2p) as Hmod.
  assert (0 <= Z.pos m / 2 ^ p < 2 ^ 24) as Hq by (split; [apply Z.div_pos; lia|apply Z.div_lt_upper_bound; lia]).
  assert (r = Z.pos m / 2 ^ p \/ (r = Z.pos m / 2 ^ p + 1 /\ p <> 0)) as Hr.
  { unfold r. rewrite <- Hm. destruct (round_even_spec (shr_m mrs) (loc_of_shr_record mrs)) as [->|[-> Hne]]; [by left|].
    right. split; [done|]. intros Hp0. apply Hne, Hl. lia. }
  split; [lia|]. split.
  - intros Hp0. destruct Hr as [->|[_ ?]]; [|done]. by rewrite Hp0, Z.div_1_r.
  - destruct Hr as [->|[-> _]]; nia.
Qed.

Lemma round_near (m : positive) (e : Z) :
  Z.pos (digits2_pos m) + e <= 16 -> - SCALE <= e ->
  near (binary_round_aux 24 128 false (Z.pos m) e loc_Exact) (Z.pos m) e.
Proof.
  intros Hd He. unfold binary_round_aux, shr_fexp at 1. cbn [shr_record_of_loc Zdigits2].
  set (n1 := fexp 24 128 _ - e).
  destruct (shr_spec (Z.pos m) e n1 ltac:(lia)) as (mrs & e1 & -> & He1 & Hm1 & Hl1).
  destruct (first_rounding m e (Z.max 0 n1) mrs eq_refl Hm1 Hl1) as (Hr & Hexact & Herr).
  set (r := round_nearest_even _ _) in *. unfold shr_fexp. cbn [shr_record_of_loc].
  set (n2 := fexp 24 128 _ - e1). destruct (shr_spec r e1 n2 ltac:(lia)) as (mrs2 & e2 & -> & He2 & Hm2 & _).
  assert (e1 = Z.max e (Z.max (Z.pos (digits2_pos m) + e - 24) (-149))) as Hmax by (unfold n1, fexp, emin in He1; lia).
  assert (scaled (shr_m mrs2) e2 = scaled r e1 /\ e2 <= e1 + 1 /\ 0 <= shr_m mrs2) as (Hval & He2' & Hpos).
  { rewrite Hm2, He2. destruct (Z.le_gt_cases n2 0) as [Hn2|Hn2].
    - rewrite Z.max_l, Z.div_1_r, Z.add_0_r by done. lia.
    - assert (r = 2 ^ 24 /\ n2 = 1) as [-> ->].
      { destruct r as [|pr|]; [unfold n2, fexp, emin in Hn2; cbn in Hn2; lia| |lia].
        unfold n2, fexp, emin in Hn2. cbn [Zdigits2] in Hn2.
        destruct (Z.lt_ge_cases (Z.pos pr) (2 ^ 24)) as [Hlt|Hge].
        - apply (digits2_le pr 24) in Hlt; lia.
        - assert (Z.pos pr = 2 ^ 24) as Heq by lia. split; [done|]. unfold n2. rewrite Heq. change (Zdigits2 (2 ^ 24)) with 25. unfold fexp, emin. lia. }
      rewrite (scaled_shift _ e1 (Z.max 0 1)) by lia. split; [f_equal; reflexivity|]. split; [lia|]. apply Z.div_pos; lia. }
  assert (Z.abs (scaled r e1 - scaled (Z.pos m) e) <= 2 ^ (SCALE - 8)) as Hnear.
  { rewrite He1. destruct (Z.le_gt_cases n1 0) as [Hn1|Hn1].
    - rewrite Hexact by lia. rewrite Z.max_l, Z.add_0_r by done. rewrite Z.sub_diag. change (Z.abs 0) with 0.
      apply Z.pow_nonneg. lia.
    - rewrite scaled_shift by lia. unfold scaled. rewrite <- Z.mul_sub_distr_r, Z.abs_mul.
      rewrite (Z.abs_eq (2 ^ (e + SCALE))) by (apply Z.pow_nonneg; lia).
      etransitivity; [apply Z.mul_le_mono_nonneg_r; [apply Z.pow_nonneg; lia|exact Herr]|].
      rewrite <- Z.pow_add_r by lia. apply Z.pow_le_mono_r; [lia|]. lia. }
  rewrite <- Hval in Hnear. destruct (shr_m mrs2) as [|m2|m2]; cbn; [|..|lia].
  - unfold scaled at 1 in Hnear. rewrite Z.mul_0_l in Hnear. lia.
  - pose proof (digits2_spec m). destruct (Z.leb_spec e2 (128 - 24)); [|lia]. cbn. split; [lia|done].
Qed.

(** ** Numbers of the format *)

(** What decoding and rounding yield: 24 bits of mantissa, normal or with the
    least exponent. *)
Definition canonical (x : f32) : Prop :=
  match x with S754_finite _ m e => Z.pos m < 2 ^ 24 /\ -149 <= e /\ (-149 < e -> 2 ^ 23 <= Z.pos m) | _ => True end.

Lemma f32_of_bits_canonical bits : canonical (f32_of_bits bits).
Proof.
  unfold f32_of_bits.
  pose proof (Z.land_ones bits 23 ltac:(lia)) as Ef. change (Z.ones 23) with (2 ^ 23 - 1) in Ef.
  pose proof (Z.mod_pos_bound bits (2 ^ 23) ltac:(lia)) as Hf. rewrite <- Ef in Hf. clear Ef.
  pose proof (Z.land_ones (Z.shiftr bits 23) 8 ltac:(lia)) as Ee. change (Z.ones 8) with 255 in Ee.
  pose proof (Z.mod_pos_bound (Z.shiftr bits 23) (2 ^ 8) ltac:(lia)) as He. rewrite <- Ee in He. clear Ee.
  set (ex := Z.land (Z.shiftr bits 23) 255) in *. set (fr := Z.land bits (2 ^ 23 - 1)) in *.
  destruct (ex =? 255); [by destruct (fr =? 0)|].
  destruct (Z.eqb_spec ex 0).
  - destruct fr; cbn; try done. split_and!; lia.
  - destruct (fr + 2 ^ 23) eqn:E; cbn; try done. split_and!; lia.
Qed.

Lemma digits_of m : 0 <= m -> 0 <= Zdigits2 m /\ m < 2 ^ Zdigits2 m /\ (0 < m -> 2 ^ (Zdigits2 m - 1) <= m).
Proof.
  destruct m as [|p|p]; intros H; [|pose proof (digits2_spec p); cbn [Zdigits2]; lia|lia].
  cbn [Zdigits2]. split_and!; lia.
Qed.

Lemma digits_below m k : 0 <= k -> 0 <= m < 2 ^ k -> Zdigits2 m <= k.
Proof. intros Hk Hm. destruct m as [|p|p]; cbn [Zdigits2]; [done| |lia]. apply digits2_le; [done|]. apply Hm. Qed.

Lemma digits_above m k : 0 <= k -> 2 ^ k <= m -> k < Zdigits2 m.
Proof.
  intros Hk Hm. assert (0 < 2 ^ k) by (apply Z.pow_pos_nonneg; lia).
  destruct (digits_of m) as (_ & Hup & _); [lia|]. apply (Z.pow_lt_mono_r_iff 2); [lia| |lia].
  destruct m as [|p|p]; cbn [Zdigits2] in *; lia.
Qed.

(** The second rounding step, of a mantissa that fits. *)
Lemma renormalise_canonical sx r e1 :
  -149 <= e1 -> 0 <= r <= 2 ^ 24 -> (-149 < e1 -> 2 ^ 23 <= r) ->
  canonical (let '(mrs, e) := shr_fexp 24 128 r e1 loc_Exact in
             match shr_m mrs with
             | Z0 => S754_zero sx
             | Z.pos m => if e <=? 128 - 24 then S754_finite sx m e else S754_infinity sx
             | _ => S754_nan
             end).
Proof.
  intros He Hr Hlow. unfold shr_fexp. cbn [shr_record_of_loc]. set (n := fexp 24 128 _ - e1).
  destruct (shr_spec r e1 n) as (mrs & e & -> & -> & Hm & _); [lia|].
  assert ((n <= 0 /\ r < 2 ^ 24) \/ (n = 1 /\ r = 2 ^ 24)) as Hn.
  { unfold n, fexp, emin. destruct (Z.lt_ge_cases r (2 ^ 24)) as [Hlt|Hge].
    - left. split; [|done]. pose proof (digits_below r 24 ltac:(lia) ltac:(lia)). lia.
    - right. assert (r = 2 ^ 24) as -> by lia. split; [|done]. change (Zdigits2 (2 ^ 24)) with 25. lia. }
  destruct Hn as [[Hn Hlt]|[-> ->]].
  - rewrite Z.max_l, Z.div_1_r in Hm by done. rewrite Z.max_l, Z.add_0_r by done. rewrite Hm.
    destruct r as [|p|p]; [done| |done]. destruct (e1 <=? 128 - 24); [|done]. by split_and!; [|lia|].
  - change (2 ^ 24 / 2 ^ Z.max 0 1) with (Z.pos 8388608) in Hm. rewrite Hm. destruct (_ <=? _); [|done].
    split_and!; [done|lia|done].
Qed.

Lemma round_canonical sx m e l :
  0 <= m -> e <= fexp 24 128 (Zdigits2 m + e) -> canonical (binary_round_aux 24 128 sx m e l).
Proof.
  intros Hm He. unfold binary_round_aux. unfold shr_fexp at 1. set (n := fexp 24 128 _ - e).
  destruct (shr_any (shr_record_of_loc m l) e n) as (mrs & e1 & -> & He1 & Hm1 & _); [by destruct l as [|[]]|].
  assert (shr_m (shr_record_of_loc m l) = m) as Heq by by destruct l as [|[]]. rewrite Heq in Hm1. clear Heq.
  destruct (digits_of m Hm) as (Hd & Hup & Hlow). rewrite Z.max_r in He1, Hm1 by lia.
  assert (0 < 2 ^ n) as Hpow by (apply Z.pow_pos_nonneg; lia).
  assert (e1 = fexp 24 128 (Zdigits2 m + e)) as He1' by lia.
  assert (0 <= shr_m mrs < 2 ^ 24) as Hbound.
  { rewrite Hm1. split; [apply Z.div_pos; lia|]. apply Z.div_lt_upper_bound; [done|]. eapply Z.lt_le_trans; [exact Hup|].
    rewrite <- Z.pow_add_r by lia. apply Z.pow_le_mono_r; [lia|]. unfold n, fexp, emin. lia. }
  apply renormalise_canonical; [unfold fexp, emin in He1'; lia| |].
  - destruct (round_even_spec (shr_m mrs) (loc_of_shr_record mrs)) as [->|[-> _]]; lia.
  - intros H149. unfold fexp, emin in He1'.
    assert (2 ^ 23 <= shr_m mrs) as Hge.
    { rewrite Hm1. apply Z.div_le_lower_bound; [done|]. rewrite <- Z.pow_add_r by lia.
      assert (0 < m) by (destruct (Z.eq_dec m 0) as [->|]; [cbn [Zdigits2] in *; lia|lia]).
      etransitivity; [|apply Hlow; lia]. apply Z.pow_le_mono_r; [lia|]. lia. }
    destruct (round_even_spec (shr_m mrs) (loc_of_shr_record mrs)) as [->|[-> _]]; lia.
Qed.

(** A quotient has enough digits to be rounded. *)
Lemma div_canonical x y : canonical (SFdiv 24 128 x y).
Proof.
  destruct x as [sx|sx| |sx m1 e1], y as [sy|sy| |sy m2 e2]; try done.
  unfold SFdiv, SFdiv_core_binary. set (e' := Z.min _ (e1 - e2)). set (s := e1 - e2 - e').
  assert (0 <= s) as Hs by lia.
  assert (match s with 0 => Z.pos m1 | Z.pos _ => Z.shiftl (Z.pos m1) s | Z.neg _ => 0 end = Z.pos m1 * 2 ^ s) as ->.
  { destruct s; [lia|by rewrite Z.shiftl_mul_pow2|lia]. }
  pose proof (Z_div_mod (Z.pos m1 * 2 ^ s) (Z.pos m2) ltac:(lia)) as Hdiv.
  destruct (Z.div_eucl (Z.pos m1 * 2 ^ s) (Z.pos m2)) as [q r]. destruct Hdiv as [Hdiv Hr].
  assert (0 < 2 ^ s) by (apply Z.pow_pos_nonneg; lia). assert (0 <= q) as Hq by nia.
  apply round_canonical; [done|].
  assert (Zdigits2 (Z.pos m1) + s - Zdigits2 (Z.pos m2) <= Zdigits2 q) as Hdig.
  { destruct (digits_of q Hq) as (Hdq & _). destruct (digits_of (Z.pos m1) ltac:(lia)) as (_ & _ & H1).
    destruct (digits_of (Z.pos m2) ltac:(lia)) as (Hd2 & H2 & _). specialize (H1 ltac:(lia)).
    set (k := Zdigits2 (Z.pos m1) + s - Zdigits2 (Z.pos m2)).
    destruct (Z.le_gt_cases k 0); [lia|]. assert (2 ^ (k - 1) <= q); [|pose proof (digits_above q (k - 1)); lia].
    apply Z.lt_succ_r. apply (Z.mul_lt_mono_pos_l (2 ^ Zdigits2 (Z.pos m2))); [apply Z.pow_pos_nonneg; lia|].
    rewrite <- Z.pow_add_r by lia. replace (Zdigits2 (Z.pos m2) + (k - 1)) with (Zdigits2 (Z.pos m1) - 1 + s) by lia.
    rewrite Z.pow_add_r by (cbn [Zdigits2]; lia). nia. }
  unfold e', s, fexp, emin in *. lia.
Qed.

(** ** Rounding to an integer *)

Lemma round_magnitude_spec m e :
  - SCALE <= e -> 0 <= round_magnitude m e /\ Z.abs (2 * scaled (round_magnitude m e) 0 - 2 * scaled (Z.pos m) e) <= 2 ^ SCALE.
Proof.
  intros He. unfold round_magnitude. destruct (Z.leb_spec 0 e).
  - pose proof (Z.pow_nonneg 2 e). split; [nia|]. unfold scaled. rewrite Z.add_0_l, Z.pow_add_r by (unfold SCALE; lia).
    replace (2 * (Z.pos m * 2 ^ e * 2 ^ SCALE) - 2 * (Z.pos m * (2 ^ e * 2 ^ SCALE))) with 0 by lia. apply Z.pow_nonneg. lia.
  - set (d := 2 ^ (- e)). assert (0 < d) as Hd by (apply Z.pow_pos_nonneg; lia).
    pose proof (Z.div_mod (2 * Z.pos m + d) (2 * d) ltac:(lia)) as Hdiv.
    pose proof (Z.mod_pos_bound (2 * Z.pos m + d) (2 * d) ltac:(lia)) as Hmod.
    set (q := (2 * Z.pos m + d) / (2 * d)) in *. split; [apply Z.div_pos; lia|].
    unfold scaled. rewrite Z.add_0_l. assert (2 ^ SCALE = d * 2 ^ (e + SCALE)) as ->.
    { unfold d. rewrite <- Z.pow_add_r by lia. f_equal. lia. }
    replace (2 * (q * (d * 2 ^ (e + SCALE))) - 2 * (Z.pos m * 2 ^ (e + SCALE)))
      with ((2 * (q * d) - 2 * Z.pos m) * 2 ^ (e + SCALE)) by lia.
    rewrite Z.abs_mul, (Z.abs_eq (2 ^ (e + SCALE))) by (apply Z.pow_nonneg; lia).
    apply Z.mul_le_mono_nonneg_r; [apply Z.pow_nonneg; lia|]. nia.
Qed.

(** What the cast of a rounded value of magnitude about [m * 2 ^ e] gives. *)
Lemma round_as_near (low high m e : Z) (sign : bool) (x : f32) :
  low <= 0 <= high -> 0 <= m -> near x m e ->
  exists q, 0 <= q /\ 2 * Z.abs (q * 2 ^ SCALE - scaled m e) <= 2 ^ SCALE + 2 ^ (SCALE - 7) /\
    round_as low high (if sign then SFopp x else x) = Z.max low (Z.min (if sign then - q else q) high).
Proof.
  intros Hlh Hm Hnear. assert (2 ^ (SCALE - 7) = 2 * 2 ^ (SCALE - 8)) as ->.
  { replace (SCALE - 7) with (Z.succ (SCALE - 8)) by lia. by rewrite Z.pow_succ_r by (unfold SCALE; lia). }
  pose proof (Z.pow_nonneg 2 SCALE). destruct x as [s|s| |[] m' e']; cbn [near] in Hnear; try done.
  - exists 0. split; [done|]. split.
    + unfold scaled in *. pose proof (Z.pow_nonneg 2 (e + SCALE)).
      rewrite Z.mul_0_l, Z.sub_0_l, Z.abs_opp, Z.abs_eq by nia. lia.
    + destruct sign; cbn; lia.
  - destruct Hnear as [He Hnear]. destruct (round_magnitude_spec m' e') as [Hq Herr]; [unfold SCALE; lia|].
    exists (round_magnitude m' e'). split; [done|]. split.
    + unfold scaled at 1 in Herr. rewrite Z.add_0_l in Herr. lia.
    + by destruct sign.
Qed.

Lemma digits2_mul m n : Z.pos (digits2_pos (m * n)) <= Z.pos (digits2_pos m) + Z.pos (digits2_pos n).
Proof.
  apply digits2_le; [lia|]. pose proof (digits2_spec m). pose proof (digits2_spec n).
  rewrite Pos2Z.inj_mul, Z.pow_add_r by lia. apply Z.mul_lt_mono_nonneg; lia.
Qed.

(** A product of magnitudes below [2 ^ 16]. *)
Lemma mul_near sx m ex n ey :
  Z.pos (digits2_pos m) + ex + (Z.pos (digits2_pos n) + ey) <= 16 -> - SCALE <= ex + ey ->
  exists x, near x (Z.pos m * Z.pos n) (ex + ey) /\
    f32_mul (S754_finite sx m ex) (S754_finite false n ey) = if sx then SFopp x else x.
Proof.
  intros Hd He. exists (binary_round_aux 24 128 false (Z.pos (m * n)) (ex + ey) loc_Exact). split.
  - rewrite <- Pos2Z.inj_mul. apply round_near; [|done]. pose proof (digits2_mul m n). lia.
  - unfold f32_mul. cbn [SFmul]. rewrite xorb_false_r. destruct sx; [|done].
    unfold binary_round_aux. destruct (shr_fexp _ _ _ _ _) as [r e]. destruct (shr_fexp _ _ _ _ _) as [r' e'].
    destruct (shr_m r'); [done| |done]. by destruct (e' <=? _).
Qed.

(** ** Clamping *)

Lemma compare_floor m :
  2 ^ 23 <= Z.pos m ->
  ((Pos.compare_cont Eq m 8388608 = Eq /\ m = 8388608%positive) \/ Pos.compare_cont Eq m 8388608 = Gt) /\
  ((Pos.compare_cont Eq 8388608 m = Eq /\ m = 8388608%positive) \/ Pos.compare_cont Eq 8388608 m = Lt).
Proof.
  change (2 ^ 23) with (Z.pos 8388608). generalize 8388608%positive. intros k Hk.
  fold (Pos.compare m k). fold (Pos.compare k m). split.
  - destruct (Pos.compare_spec m k) as [->|?|?]; [by left|lia|by right].
  - destruct (Pos.compare_spec k m) as [->|?|?]; [by left|by right|lia].
Qed.

(** A magnitude below one, or one that [clamp] replaces. *)
Lemma clamp_finite sign m e :
  canonical (S754_finite sign m e) ->
  let x := S754_finite sign m e in
  (scaled (Z.pos m) e < 2 ^ SCALE /\ Z.pos (digits2_pos m) + e <= 0 /\ - SCALE <= e /\
   f32_clamp x (f32_of_Z (-1)) (f32_of_Z 1) = x) \/
  (2 ^ SCALE <= scaled (Z.pos m) e /\ f32_clamp x (f32_of_Z (-1)) (f32_of_Z 1) = f32_of_Z (if sign then -1 else 1)).
Proof.
  intros (Hm & He & Hn) x. unfold scaled.
  change (f32_of_Z (-1)) with (S754_finite true 8388608 (-23)).
  change (f32_of_Z 1) with (S754_finite false 8388608 (-23)).
  pose proof (digits2_le m 24 ltac:(lia) Hm) as Hd.
  destruct (Z.lt_ge_cases e (-23)) as [Hlt|Hge].
  - left. assert (Z.pos m * 2 ^ (e + SCALE) < 2 ^ 24 * 2 ^ (e + SCALE)) as H1.
    { apply Z.mul_lt_mono_pos_r; [apply Z.pow_pos_nonneg; unfold SCALE; lia|done]. }
    rewrite <- Z.pow_add_r in H1 by (unfold SCALE; lia).
    assert (2 ^ (24 + (e + SCALE)) <= 2 ^ SCALE) by (apply Z.pow_le_mono_r; unfold SCALE; lia).
    split_and!; [lia|lia|unfold SCALE; lia|].
    unfold f32_clamp, x, SFltb. destruct sign; cbn [SFcompare].
    + by rewrite (proj2 (Z.compare_lt_iff e (-23)) Hlt).
    + by rewrite (proj2 (Z.compare_gt_iff (-23) e) Hlt).
  - right. specialize (Hn ltac:(lia)). assert (2 ^ 23 * 2 ^ (e + SCALE) <= Z.pos m * 2 ^ (e + SCALE)) as H1.
    { apply Z.mul_le_mono_nonneg_r; [apply Z.pow_nonneg; lia|done]. }
    rewrite <- Z.pow_add_r in H1 by (unfold SCALE; lia).
    assert (2 ^ SCALE <= 2 ^ (23 + (e + SCALE))) by (apply Z.pow_le_mono_r; unfold SCALE; lia).
    split; [lia|]. clear H1 H Hd. unfold f32_clamp, x, SFltb. destruct sign; cbn [SFcompare].
    + destruct (Z.compare_spec e (-23)) as [->|?|?]; [|lia|reflexivity]. cbv beta iota.
      by destruct (compare_floor m Hn) as [[[-> ->] | ->] _].
    + destruct (Z.compare_spec (-23) e) as [<-|?|?]; [|reflexivity|lia]. cbv beta iota.
      by destruct (compare_floor m Hn) as [_ [[-> ->] | ->]].
Qed.

Lemma scaled_times m e n k full :
  Z.pos n = full * 2 ^ (- k) -> k <= 0 -> - SCALE <= e + k ->
  scaled (Z.pos m * Z.pos n) (e + k) = full * scaled (Z.pos m) e.
Proof.
  intros -> Hk He. unfold scaled. replace (e + SCALE) with (- k + (e + k + SCALE)) by lia.
  rewrite (Z.pow_add_r 2 (- k)) by lia. lia.
Qed.

Lemma scaled_nonneg m e : 0 <= scaled (Z.pos m) e.
Proof. unfold scaled. pose proof (Z.pow_nonneg 2 (e + SCALE)). nia. Qed.

Lemma scale_split : 2 ^ SCALE = 128 * 2 ^ (SCALE - 7) /\ 0 < 2 ^ (SCALE - 7).
Proof.
  split; [|apply Z.pow_pos_nonneg; unfold SCALE; lia].
  change 128 with (2 ^ 7). rewrite <- Z.pow_add_r by (unfold SCALE; lia). f_equal.
Qed.
