(* ===== verification/Convert.v ===== *)
(** * Convert: captured floats to 16-bit samples ([audio/convert.rs])

    [f32_le_to_i16] with the IEEE arithmetic it performs, and how far a sample
    can be from the float it stands for. *)

From stdpp Require Import base list.
From Stdlib Require Import ZArith Lia SpecFloat.
From S2P Require Import Prelude Wire Float32.
Open Scope Z_scope.

Inductive ConvertError : Type := InvalidCaptureBytes (len : nat).

(** [slice::as_chunks::<4>]. *)
Fixpoint as_chunks (input : list Z) : list f32 * list Z :=
  match input with
  | b0 :: b1 :: b2 :: b3 :: rest =>
      let '(samples, remainder) := as_chunks rest in (from_le_bytes b0 b1 b2 b3 :: samples, remainder)
  | remainder => ([], remainder)
  end.

(** One sample: clamped, then scaled by [i16::MAX] or by [-i16::MIN]. *)
Definition sample_to_i16 (sample : f32) : Z :=
  let sample := f32_clamp sample (f32_of_Z (-1)) (f32_of_Z 1) in
  if SFleb (S754_zero false) sample
  then round_as (-32768) 32767 (f32_mul sample (f32_of_Z 32767))
  else round_as (-32768) 32767 (f32_mul sample (SFopp (f32_of_Z (-32768)))).

Definition f32_le_to_i16 (input : list Z) : result ConvertError (list Z) :=
  let '(samples, remainder) := as_chunks input in
  match remainder with
  | _ :: _ => Err (InvalidCaptureBytes (length input))
  | [] => Ok (sample_to_i16 <$> samples)
  end.

Example converts_little_endian_float_pcm :
  f32_le_to_i16 [0; 0; 0; 0; 0; 0; 128; 191; 0; 0; 128; 63] = Ok [0; -32768; 32767].
Proof. by vm_compute. Qed.

(** ** What a sample becomes *)

Definition full_scale (sign : bool) : Z := if sign then -32768 else 32767.

(** [s] is the sample for [x]: saturated from one on, and otherwise within
    [1/2 + 2 ^ (-8)] of the scaled value. *)
Definition converted (x : f32) (s : Z) : Prop :=
  in_i16 s /\
  match x with
  | S754_nan => s = 0
  | S754_zero _ => s = 0
  | S754_infinity sign => s = full_scale sign
  | S754_finite sign m e =>
      if 2 ^ SCALE <=? scaled (Z.pos m) e then s = full_scale sign
      else 2 * Z.abs (s * 2 ^ SCALE - full_scale sign * scaled (Z.pos m) e) <= 2 ^ SCALE + 2 ^ (SCALE - 7)
           /\ 0 <= s * full_scale sign
  end.

(** The arithmetic of a rounded magnitude [q] about [full * v], [v] below one
    ([128 * u] is one). *)
Lemma rounded_below_full sign q v u s :
  let full := Z.abs (full_scale sign) in
  0 < u -> 0 <= q -> 0 <= v < 128 * u -> 2 * Z.abs (q * (128 * u) - full * v) <= 128 * u + u ->
  s = Z.max (-32768) (Z.min (if sign then - q else q) 32767) ->
  in_i16 s /\ 0 <= s * full_scale sign /\ 2 * Z.abs (s * (128 * u) - full_scale sign * v) <= 128 * u + u.
Proof.
  intros full Hu Hq Hv Herr Hs.
  assert (q <= full) as Hqf.
  { destruct (Z.le_gt_cases q full); [done|]. assert ((full + 1) * (128 * u) <= q * (128 * u)) by nia.
    assert (full * v <= full * (128 * u)) by (apply Z.mul_le_mono_nonneg_l; [unfold full; lia|lia]). lia. }
  assert (s = (if sign then - q else q)) as ->.
  { rewrite Hs. unfold full, full_scale in Hqf. destruct sign; cbn in Hqf; lia. }
  unfold in_i16, full, full_scale in *. destruct sign; cbn [Z.abs] in *; split_and!; lia.
Qed.

(** A magnitude below one, scaled by [full]. *)
Lemma scaled_sample (sign : bool) m e n k :
  let full := Z.abs (full_scale sign) in
  Z.pos n = full * 2 ^ (- k) -> -9 <= k <= -8 -> Z.pos (digits2_pos n) = 24 ->
  canonical (S754_finite sign m e) -> Z.pos (digits2_pos m) + e <= 0 -> scaled (Z.pos m) e < 2 ^ SCALE ->
  let s := round_as (-32768) 32767 (f32_mul (S754_finite sign m e) (S754_finite false n k)) in
  in_i16 s /\ 0 <= s * full_scale sign /\
  2 * Z.abs (s * 2 ^ SCALE - full_scale sign * scaled (Z.pos m) e) <= 2 ^ SCALE + 2 ^ (SCALE - 7).
Proof.
  intros full Hn Hk Hdn (Hm & He & _) Hd Hlt s.
  destruct (mul_near sign m e n k) as (x & Hx & Hmul); [lia|unfold SCALE; lia|].
  destruct (round_as_near (-32768) 32767 (Z.pos m * Z.pos n) (e + k) sign x) as (q & Hq & Herr & Hr); [lia..|exact Hx|].
  rewrite <- Hmul in Hr. fold s in Hr. clear Hmul Hx.
  rewrite (scaled_times m e n k full) in Herr by (unfold SCALE; lia).
  pose proof (scaled_nonneg m e) as Hpos.
  destruct scale_split as [H2 H2'].
  rewrite H2 in *. by apply (rounded_below_full sign q).
Qed.

Lemma sample_to_i16_converted x : canonical x -> converted x (sample_to_i16 x).
Proof.
  intros Hx. unfold converted. destruct x as [sign|sign| |sign m e].
  - destruct sign; vm_compute; split_and!; done.
  - destruct sign; vm_compute; split_and!; done.
  - vm_compute; split_and!; done.
  - unfold sample_to_i16. destruct (clamp_finite sign m e Hx) as [(Hlt & Hd & He & ->)|(Hge & ->)].
    + destruct (Z.leb_spec (2 ^ SCALE) (scaled (Z.pos m) e)); [lia|].
      assert (SFleb (S754_zero false) (S754_finite sign m e) = negb sign) as -> by by destruct sign.
      change (f32_of_Z 32767) with (S754_finite false 16776704 (-9)).
      change (SFopp (f32_of_Z (-32768))) with (S754_finite false 8388608 (-8)).
      destruct sign; cbn [negb].
      * destruct (scaled_sample true m e 8388608 (-8)) as (? & ? & ?); try done.
      * destruct (scaled_sample false m e 16776704 (-9)) as (? & ? & ?); try done.
    + destruct (Z.leb_spec (2 ^ SCALE) (scaled (Z.pos m) e)); [|lia]. destruct sign; vm_compute; split_and!; done.
Qed.

(** ** The buffer *)

Definition float_samples (input : list Z) : list f32 := (as_chunks input).1.

Lemma as_chunks_spec input :
  Forall canonical (as_chunks input).1 /\
  length input = (4 * length (as_chunks input).1 + length (as_chunks input).2)%nat /\ (length (as_chunks input).2 < 4)%nat.
Proof.
  revert input. fix IH 1. intros [|b0 [|b1 [|b2 [|b3 rest]]]]; try (simpl; split_and!; [constructor|lia|lia]).
  specialize (IH rest). simpl. destruct (as_chunks rest) as [samples remainder]. simpl in *. destruct IH as (Hs & Hl & Hr).
  split_and!; [|lia|done]. constructor; [|done]. apply f32_of_bits_canonical.
Qed.

(** C18. A captured buffer is refused exactly when its length is not a multiple
    of four bytes, and the refusal names the length.  Otherwise there is one
    16-bit sample for every float: zero for a NaN and for zeros, full scale
    from one on and for infinities, and for every other float a sample on its
    side of zero, at most [1/2 + 2 ^ (-8)] away from the float times full scale
    (32767 above zero, 32768 below). *)
Theorem conversion_is_accurate (input : list Z) :
  match f32_le_to_i16 input with
  | Err (InvalidCaptureBytes n) => n = length input /\ (n mod 4 <> 0)%nat
  | Ok output =>
      (length input = 4 * length output)%nat /\ length output = length (float_samples input) /\
      Forall2 converted (float_samples input) output
  end.
Proof.
  unfold f32_le_to_i16, float_samples. destruct (as_chunks_spec input) as (Hs & Hl & Hr).
  destruct (as_chunks input) as [samples [|b remainder]]; cbn [fst snd] in *.
  - rewrite length_fmap. split_and!; [cbn in Hl; lia|done|]. apply Forall2_fmap_r, Forall_Forall2_diag.
    eapply Forall_impl; [exact Hs|]. apply sample_to_i16_converted.
  - split; [done|]. intros Hmod. apply Nat.Div0.mod_divides in Hmod as [c Hc]. cbn [length] in *. lia.
Qed.
