(* ===== verification/Storage.v ===== *)
(** * Storage: the file system as the sources see it

    The standard library's file operations ([std::fs]) as an interface with
    their documented behaviour as laws, used by the profile library
    ([Profiles]) and the server identity ([Identity]), and two disks in memory
    that satisfy the laws. *)

From Stdlib Require Import ZArith Lia.
From S2P Require Import Prelude Wire.

Inductive IoError : Type := NotFound | OtherIo.


(** A path: directory, file stem and extension. *)
Record Path : Type := mkPath {
  p_parent : option rstring;
  p_stem : rstring;
  p_extension : option rstring;
}.

#[export] Instance Path_eq_dec : EqDecision Path.
Proof. solve_decision. Defined.

Definition with_extension (e : rstring) (p : Path) : Path := mkPath (p_parent p) (p_stem p) (Some e).
Definition TMP : rstring := [116; 109; 112].

(** The file operations the source calls; each returns the new disk. *)
Class FileSystem (FS : Type) : Type := {
  fs_metadata : FS -> Path -> result IoError Z;
  fs_read : FS -> Path -> result IoError bytes;
  fs_create_dir_all : FS -> rstring -> FS * result IoError unit;
  fs_create : FS -> Path -> FS * result IoError unit;
  fs_write_all : FS -> Path -> bytes -> FS * result IoError unit;
  fs_sync_all : FS -> Path -> FS * result IoError unit;
  fs_replace : FS -> Path -> Path -> FS * result IoError unit;
}.

(** The documented behaviour of those calls: creating directories and syncing
    change no file; writing changes only the file written, and a successful
    create and write leave exactly the bytes; the replacing move is atomic —
    it puts the source's content at the destination or fails and leaves the
    destination alone; a file that can be read has its length as metadata. *)
Class FileSystemLaws (FS : Type) `{!FileSystem FS} : Prop := {
  metadata_read d p b : fs_read d p = Ok b -> fs_metadata d p = Ok (Z.of_nat (length b));
  create_dir_frame d dir q : fs_read (fs_create_dir_all d dir).1 q = fs_read d q;
  create_frame d p q : q <> p -> fs_read (fs_create d p).1 q = fs_read d q;
  create_empty d p d' : fs_create d p = (d', Ok tt) -> fs_read d' p = Ok [];
  write_frame d p b q : q <> p -> fs_read (fs_write_all d p b).1 q = fs_read d q;
  write_appends d p b b0 d' :
    fs_read d p = Ok b0 -> fs_write_all d p b = (d', Ok tt) -> fs_read d' p = Ok (b0 ++ b);
  sync_frame d p q : fs_read (fs_sync_all d p).1 q = fs_read d q;
  replace_ok d p q d' : fs_replace d p q = (d', Ok tt) -> fs_read d' q = fs_read d p;
  replace_err d p q d' e : fs_replace d p q = (d', Err e) -> fs_read d' q = fs_read d q;
}.

(** [fs::write]: create or truncate, then write everything. *)
Definition fs_write {FS} `{!FileSystem FS} (d : FS) (p : Path) (b : bytes) : FS * result IoError unit :=
  match fs_create d p with
  | (d, Err e) => (d, Err e)
  | (d, Ok _) => fs_write_all d p b
  end.

Lemma fs_write_read {FS} `{!FileSystem FS, !FileSystemLaws FS} (d d' : FS) p b :
  fs_write d p b = (d', Ok tt) -> fs_read d' p = Ok b.
Proof.
  unfold fs_write. destruct (fs_create d p) as [d1 [[]|e]] eqn:Hc; [|done]. intros Hw.
  by apply (write_appends d1 p b [] d'); [eapply create_empty|].
Qed.

Lemma fs_write_frame {FS} `{!FileSystem FS, !FileSystemLaws FS} (d : FS) p b q :
  q <> p -> fs_read (fs_write d p b).1 q = fs_read d q.
Proof.
  intros Hne. unfold fs_write. pose proof (create_frame d p q Hne) as Hc.
  destruct (fs_create d p) as [d1 [[]|e]]; simpl in *; [|done].
  by rewrite write_frame.
Qed.

(** ** Disks in memory *)

(** A disk in memory that never fails. *)
Definition MemDisk : Type := list (Path * bytes).

Fixpoint mem_get (d : MemDisk) (p : Path) : option bytes :=
  match d with
  | [] => None
  | (q, b) :: d' => if bool_decide (p = q) then Some b else mem_get d' p
  end.

#[export] Instance mem_file_system : FileSystem MemDisk := {
  fs_metadata d p := match mem_get d p with Some b => Ok (Z.of_nat (length b)) | None => Err NotFound end;
  fs_read d p := match mem_get d p with Some b => Ok b | None => Err NotFound end;
  fs_create_dir_all d _ := (d, Ok tt);
  fs_create d p := ((p, []) :: d, Ok tt);
  fs_write_all d p b :=
    match mem_get d p with
    | Some b0 => ((p, b0 ++ b) :: d, Ok tt)
    | None => (d, Err NotFound)
    end;
  fs_sync_all d _ := (d, Ok tt);
  fs_replace d p q :=
    match mem_get d p with
    | Some b => ((q, b) :: d, Ok tt)
    | None => (d, Err NotFound)
    end;
}.

Lemma mem_get_cons (d : MemDisk) p q b :
  mem_get ((q, b) :: d) p = if bool_decide (p = q) then Some b else mem_get d p.
Proof. done. Qed.

#[export] Instance mem_file_system_laws : FileSystemLaws MemDisk.
Proof.
  split; simpl; intros; try done.
  - destruct (mem_get d p); by simplify_eq.
  - by rewrite bool_decide_eq_false_2.
  - simplify_eq. simpl. by rewrite bool_decide_eq_true_2.
  - destruct (mem_get d p); simpl; [|done]. by rewrite bool_decide_eq_false_2.
  - destruct (mem_get d p); simplify_eq. simpl. by rewrite bool_decide_eq_true_2.
  - destruct (mem_get d p); simplify_eq. simpl. by rewrite bool_decide_eq_true_2.
  - destruct (mem_get d p); by simplify_eq.
Qed.

(** A disk on which nothing but the move fails. *)
Record ReadOnlyDisk : Type := mkReadOnlyDisk { ro_disk : MemDisk }.

#[export] Instance read_only_file_system : FileSystem ReadOnlyDisk := {
  fs_metadata d p := fs_metadata (ro_disk d) p;
  fs_read d p := fs_read (ro_disk d) p;
  fs_create_dir_all d _ := (d, Ok tt);
  fs_create d p := (mkReadOnlyDisk (fs_create (ro_disk d) p).1, Ok tt);
  fs_write_all d p b :=
    (mkReadOnlyDisk (fs_write_all (ro_disk d) p b).1, (fs_write_all (ro_disk d) p b).2);
  fs_sync_all d _ := (d, Ok tt);
  fs_replace d _ _ := (d, Err OtherIo);
}.

#[export] Instance read_only_file_system_laws : FileSystemLaws ReadOnlyDisk.
Proof.
  split; simpl; intros; try done.
  - destruct (mem_get (ro_disk d) p); by simplify_eq.
  - by rewrite bool_decide_eq_false_2.
  - simplify_eq. simpl. by rewrite bool_decide_eq_true_2.
  - destruct (mem_get (ro_disk d) p); simpl; [|done]. by rewrite bool_decide_eq_false_2.
  - destruct (mem_get (ro_disk d) p); simplify_eq. simpl. by rewrite bool_decide_eq_true_2.
  - by simplify_eq.
Qed.

