(* ===== verification/Jitter.v ===== *)
(** * Jitter: the adaptive jitter buffer

    [android/app/src/main/rust/src/jitter.rs].  Packets wait in a map keyed by
    sequence number; [push] releases the longest playable run, replacing
    confirmed gaps by silence.  Sequence numbers are 32-bit and compared
    modulo wrap-around. *)

From Stdlib Require Import ZArith Lia Sorted.
From S2P Require Import Prelude BTree Wire.

(** ** Definitions *)

Inductive JitterOutput : Type :=
| Audio (packet : AudioPacket)
| Silence.

Record JitterBuffer : Type := mkJitterBuffer {
  jb_expected_sequence : option Z;
  jb_packets : btree AudioPacket;
  jb_target_packets : Z;
  jb_max_packets : Z;
  jb_started : bool;
  jb_lost_packets : Z;
  jb_late_packets : Z;
}.

Definition sequence_is_before (sequence reference : Z) : bool :=
  let distance := wrapping_sub 32 sequence reference in
  negb (distance =? 0) && (2 ^ 31 <=? distance).

Definition sequence_is_after (sequence reference : Z) : bool :=
  let distance := wrapping_sub 32 sequence reference in
  negb (distance =? 0) && (distance <? 2 ^ 31).

(** [target_packets.saturating_mul(3).max(4)]. *)
Definition max_for_target (target : Z) : Z := Z.max (saturating_mul 64 target 3) 4.

Definition jb_new (target_packets : Z) : JitterBuffer :=
  let target_packets := Z.max target_packets 1 in
  mkJitterBuffer None [] target_packets (max_for_target target_packets) false 0 0.

Definition restart (j : JitterBuffer) (next_sequence : Z) : JitterBuffer :=
  mkJitterBuffer (Some next_sequence) [] (jb_target_packets j) (jb_max_packets j) false
    (jb_lost_packets j) (jb_late_packets j).

Definition increase_target (j : JitterBuffer) (additional_packets maximum_packets : Z)
  : JitterBuffer * bool :=
  let maximum_packets := Z.max maximum_packets 1 in
  if maximum_packets <=? jb_target_packets j then (j, false)
  else
    let target := Z.min (saturating_add 64 (jb_target_packets j) (Z.max additional_packets 1))
                    maximum_packets in
    (mkJitterBuffer (jb_expected_sequence j) (jb_packets j) target (max_for_target target) false
       (jb_lost_packets j) (jb_late_packets j), true).

Definition next_buffered_sequence (j : JitterBuffer) (expected : Z) : option Z :=
  min_by_key (fun sequence => wrapping_sub 32 sequence expected)
    (filter (fun sequence => sequence_is_after sequence expected = true) (bt_keys (jb_packets j))).

(** One iteration of the [while let] loop of [drain_ready]. *)
Inductive drain_outcome : Type :=
| DrainBreak
| DrainContinue (j : JitterBuffer) (output : list JitterOutput).

Definition jb_advance (j : JitterBuffer) (expected : Z) (packets : btree AudioPacket) (lost : Z)
  : JitterBuffer :=
  mkJitterBuffer (Some expected) packets (jb_target_packets j) (jb_max_packets j) (jb_started j)
    lost (jb_late_packets j).

Definition drain_step (j : JitterBuffer) : drain_outcome :=
  match jb_expected_sequence j with
  | None => DrainBreak
  | Some expected =>
      match bt_get expected (jb_packets j) with
      | Some packet =>
          DrainContinue
            (jb_advance j (wrapping_add 32 expected 1) (bt_remove expected (jb_packets j))
               (jb_lost_packets j))
            [Audio packet]
      | None =>
          match next_buffered_sequence j expected with
          | None => DrainBreak
          | Some next_sequence =>
              let missing := wrapping_sub 32 next_sequence expected in
              if jb_max_packets j <? missing then
                DrainContinue
                  (jb_advance j next_sequence (jb_packets j)
                     (saturating_add 64 (jb_lost_packets j) missing)) []
              else if (bt_len (jb_packets j) <? jb_target_packets j)
                      && (bt_len (jb_packets j) <? jb_max_packets j) then DrainBreak
              else
                DrainContinue
                  (jb_advance j (wrapping_add 32 expected 1) (jb_packets j)
                     (saturating_add 64 (jb_lost_packets j) 1)) [Silence]
          end
      end
  end.

(** The loop; [None] is "the fuel ran out". *)
Fixpoint drain_loop (fuel : nat) (j : JitterBuffer) (output : list JitterOutput)
  : option (JitterBuffer * list JitterOutput) :=
  match fuel with
  | O => None
  | S fuel' =>
      match drain_step j with
      | DrainBreak => Some (j, output)
      | DrainContinue j' out => drain_loop fuel' j' (output ++ out)
      end
  end.

(** Every buffered packet costs at most [max_packets + 2] iterations. *)
Definition drain_fuel (j : JitterBuffer) : nat :=
  Z.to_nat ((bt_len (jb_packets j) + 1) * (jb_max_packets j + 2)).

Definition set_started (j : JitterBuffer) : JitterBuffer :=
  mkJitterBuffer (jb_expected_sequence j) (jb_packets j) (jb_target_packets j)
    (jb_max_packets j) true (jb_lost_packets j) (jb_late_packets j).

Definition drain_ready (j : JitterBuffer) : option (JitterBuffer * list JitterOutput) :=
  if negb (jb_started j) && (bt_len (jb_packets j) <? jb_target_packets j) then Some (j, [])
  else drain_loop (drain_fuel j) (set_started j) [].

Definition push (j : JitterBuffer) (packet : AudioPacket)
  : option (JitterBuffer * list JitterOutput) :=
  let sequence := ap_sequence packet in
  let expected := default sequence (jb_expected_sequence j) in
  let j := mkJitterBuffer (Some expected) (jb_packets j) (jb_target_packets j)
             (jb_max_packets j) (jb_started j) (jb_lost_packets j) (jb_late_packets j) in
  if bt_contains_key sequence (jb_packets j) then Some (j, [])
  else if sequence_is_before sequence expected then
    Some (mkJitterBuffer (jb_expected_sequence j) (jb_packets j) (jb_target_packets j)
            (jb_max_packets j) (jb_started j) (jb_lost_packets j)
            (saturating_add 64 (jb_late_packets j) 1), [])
  else
    drain_ready
      (mkJitterBuffer (jb_expected_sequence j) (bt_insert sequence packet (jb_packets j))
         (jb_target_packets j) (jb_max_packets j) (jb_started j) (jb_lost_packets j)
         (jb_late_packets j)).

(** A stream of arrivals, as [handle_packet] feeds them. *)
Fixpoint push_all (j : JitterBuffer) (arrivals : list AudioPacket)
  : option (JitterBuffer * list JitterOutput) :=
  match arrivals with
  | [] => Some (j, [])
  | packet :: arrivals' =>
      '(j', out) ← push j packet;
      '(j'', out') ← push_all j' arrivals';
      Some (j'', out ++ out')
  end.

(** ** Specification vocabulary *)

Definition audio_of (o : JitterOutput) : option AudioPacket :=
  match o with Audio p => Some p | Silence => None end.
Definition audios (out : list JitterOutput) : list AudioPacket := omap audio_of out.
Definition n_audio (out : list JitterOutput) : Z := Z.of_nat (length (audios out)).

(** Distance of a sequence number from the playback cursor. *)
Definition dist (expected sequence : Z) : Z := wrapping_sub 32 sequence expected.

Record jb_wf (j : JitterBuffer) : Prop := {
  wf_packets : bt_wf (jb_packets j);
  wf_stored : forall k p, bt_get k (jb_packets j) = Some p -> ap_sequence p = k /\ k ∈u 32;
  wf_expected : forall e, jb_expected_sequence j = Some e ->
    e ∈u 32 /\ forall k, k ∈ bt_keys (jb_packets j) -> dist e k < 2 ^ 31;
  wf_unset : jb_expected_sequence j = None -> jb_packets j = [];
  wf_target : 1 <= jb_target_packets j <= uint_max 64;
  wf_max : jb_max_packets j = max_for_target (jb_target_packets j);
  wf_lost : 0 <= jb_lost_packets j <= uint_max 64;
}.

(** Between two calls the buffer holds fewer packets than the target. *)
Definition jb_bounded (j : JitterBuffer) : Prop :=
  bt_len (jb_packets j) < jb_target_packets j.

(** ** Sequence comparison *)

Lemma dist_range e k : 0 <= dist e k < 2 ^ 32.
Proof. apply wrapping_sub_range. lia. Qed.

Lemma dist_inj e k k' : k ∈u 32 -> k' ∈u 32 -> dist e k = dist e k' -> k = k'.
Proof. apply wrap_sub_inj. lia. Qed.

Lemma dist_self e : dist e e = 0.
Proof. apply wrapping_sub_diag. Qed.

Lemma dist_0 e k : e ∈u 32 -> k ∈u 32 -> dist e k = 0 -> k = e.
Proof. intros. apply (wrapping_sub_0 32); done || lia. Qed.

Lemma dist_advance e k d : 0 <= d <= dist e k -> dist (wrapping_add 32 e d) k = dist e k - d.
Proof. intros []. apply wrapping_sub_advance; done || lia. Qed.

Lemma dist_to_next e k : k ∈u 32 -> wrapping_add 32 e (dist e k) = k.
Proof. apply wrapping_add_sub. Qed.

Lemma sequence_is_after_spec k e :
  sequence_is_after k e = true <-> 0 < dist e k < 2 ^ 31.
Proof.
  unfold sequence_is_after. fold (dist e k). pose proof (dist_range e k).
  rewrite andb_true_iff, negb_true_iff, Z.eqb_neq, Z.ltb_lt. lia.
Qed.

Lemma sequence_is_before_spec k e :
  sequence_is_before k e = true <-> 2 ^ 31 <= dist e k.
Proof.
  unfold sequence_is_before. fold (dist e k). pose proof (dist_range e k).
  rewrite andb_true_iff, negb_true_iff, Z.eqb_neq, Z.leb_le. lia.
Qed.

Lemma max_for_target_bounds t :
  1 <= t <= uint_max 64 -> t <= max_for_target t /\ 4 <= max_for_target t.
Proof. unfold max_for_target, saturating_mul. lia. Qed.

(** ** The drain loop as a relation *)

Inductive drains : JitterBuffer -> list JitterOutput -> JitterBuffer -> Prop :=
| drains_done j : drains j [] j
| drains_step j j' j'' out out' :
    drain_step j = DrainContinue j' out -> drains j' out' j'' -> drains j (out ++ out') j''.

Lemma drain_loop_sound fuel j acc j' out :
  drain_loop fuel j acc = Some (j', out) ->
  exists out', out = acc ++ out' /\ drains j out' j' /\ drain_step j' = DrainBreak.
Proof.
  revert j acc. induction fuel as [|fuel IH]; simpl; [done|]. intros j acc.
  destruct (drain_step j) as [|j1 o] eqn:E.
  - intros. simplify_eq. exists []. rewrite app_nil_r. split_and!; [done|constructor|done].
  - intros (out' & -> & Hd & Hb)%IH. exists (o ++ out'). rewrite app_assoc.
    split_and!; [done|by econstructor|done].
Qed.

Lemma drains_trans j1 j2 j3 o1 o2 : drains j1 o1 j2 -> drains j2 o2 j3 -> drains j1 (o1 ++ o2) j3.
Proof.
  induction 1; intros; simpl; [done|]. rewrite <- app_assoc. econstructor; eauto.
Qed.

(** ** One iteration preserves the invariant *)

Lemma next_buffered_some j e n :
  jb_wf j -> jb_expected_sequence j = Some e -> next_buffered_sequence j e = Some n ->
  n ∈ bt_keys (jb_packets j) /\ 0 < dist e n < 2 ^ 31 /\ n ∈u 32.
Proof.
  intros Hwf He Hn. apply min_by_key_elem, list_elem_of_filter in Hn as [Ha Hk].
  apply sequence_is_after_spec in Ha. split_and!; [done|lia..|].
  all: apply bt_keys_get in Hk as [p Hp]; by apply (wf_stored _ Hwf) in Hp as [_ Hp].
Qed.

Lemma next_buffered_le j e n k :
  jb_wf j -> jb_expected_sequence j = Some e -> next_buffered_sequence j e = Some n ->
  bt_get e (jb_packets j) = None -> k ∈ bt_keys (jb_packets j) -> dist e n <= dist e k.
Proof.
  intros Hwf He Hn Hnone Hk. eapply min_by_key_le in Hn; [exact Hn|].
  apply list_elem_of_filter. split; [|done]. apply sequence_is_after_spec.
  destruct (wf_expected _ Hwf _ He) as [Heu Hwin]. specialize (Hwin _ Hk).
  pose proof (dist_range e k). destruct (decide (dist e k = 0)) as [H0|]; [|lia].
  assert (k = e) as ->.
  { apply dist_0; [done| |done]. apply bt_keys_get in Hk as [p Hp].
    by apply (wf_stored _ Hwf) in Hp as [_ Hp]. }
  by apply bt_get_None in Hnone.
Qed.

Lemma next_buffered_none j e :
  jb_wf j -> jb_expected_sequence j = Some e -> bt_get e (jb_packets j) = None ->
  next_buffered_sequence j e = None -> jb_packets j = [].
Proof.
  intros Hwf He Hnone Hn. apply min_by_key_None in Hn.
  destruct (jb_packets j) as [|[k p] m] eqn:E; [done|]. exfalso.
  assert (k ∈ bt_keys (jb_packets j)) as Hk by (rewrite E; simpl; set_solver).
  assert (sequence_is_after k e = true) as Ha.
  { apply sequence_is_after_spec. destruct (wf_expected _ Hwf _ He) as [Heu Hwin].
    specialize (Hwin _ Hk). pose proof (dist_range e k).
    destruct (decide (dist e k = 0)) as [H0|]; [|lia].
    assert (k = e) as ->; [|simpl in Hnone; by rewrite Z.eqb_refl in Hnone].
    apply dist_0; [done| |done].
    apply bt_keys_get in Hk as [q Hq]. by apply (wf_stored _ Hwf) in Hq as [_ Hq]. }
  assert (k ∈ filter (fun s => sequence_is_after s e = true) (bt_keys ((k, p) :: m))) as Hin
    by (apply list_elem_of_filter; split; [done | simpl; set_solver]).
  rewrite Hn in Hin. set_solver.
Qed.

Lemma saturating_add_range a b :
  0 <= a <= uint_max 64 -> 0 <= b -> 0 <= saturating_add 64 a b <= uint_max 64.
Proof. unfold saturating_add. lia. Qed.

Lemma jb_wf_advance j e e' packets lost :
  jb_wf j -> jb_expected_sequence j = Some e ->
  bt_wf packets ->
  (forall k p, bt_get k packets = Some p -> bt_get k (jb_packets j) = Some p) ->
  e' ∈u 32 ->
  (forall k, k ∈ bt_keys packets -> dist e' k < 2 ^ 31) ->
  0 <= lost <= uint_max 64 ->
  jb_wf (jb_advance j e' packets lost).
Proof.
  intros Hwf He Hpk Hsub He' Hwin Hlost. destruct Hwf as [H1 H2 H3 H4 H5 H6 H7].
  split; simpl; try done.
  - intros k p Hp. by apply H2, Hsub.
  - intros ? [= <-]. done.
Qed.

Lemma drain_step_wf j j' out : jb_wf j -> drain_step j = DrainContinue j' out -> jb_wf j'.
Proof.
  intros Hwf. unfold drain_step. destruct (jb_expected_sequence j) as [e|] eqn:He; [|done].
  destruct (wf_expected _ Hwf _ He) as [Heu Hwin].
  pose proof (wrapping_add_range 32 e 1 ltac:(lia)) as Hadd.
  destruct (bt_get e (jb_packets j)) as [p|] eqn:Hget.
  - intros [= <- <-]. eapply jb_wf_advance; try done.
    + apply bt_wf_remove, Hwf.
    + intros k q. rewrite bt_get_remove. by destruct (k =? e).
    + intros k Hk. apply bt_keys_get in Hk as [q Hq]. rewrite bt_get_remove in Hq.
      destruct (Z.eqb_spec k e); [done|]. pose proof Hq as Hk%bt_get_key.
      specialize (Hwin _ Hk). apply (wf_stored _ Hwf) in Hq as [_ Hku].
      pose proof (dist_range e k). assert (dist e k <> 0) by (intros ?%dist_0; done).
      rewrite dist_advance by lia. lia.
    + apply Hwf.
  - destruct (next_buffered_sequence j e) as [n|] eqn:Hn; [|done].
    pose proof (next_buffered_some _ _ _ Hwf He Hn) as (Hnk & Hnd & Hnu).
    pose proof (wf_lost _ Hwf) as Hlost.
    pose proof (fun k => next_buffered_le _ _ _ k Hwf He Hn Hget) as Hmin.
    fold (dist e n). case_match.
    + intros [= <- <-]. eapply jb_wf_advance; try done; [apply Hwf| |by apply saturating_add_range; lia].
      intros k Hk. specialize (Hmin _ Hk). specialize (Hwin _ Hk).
      rewrite <- (dist_to_next e n Hnu), dist_advance by lia. lia.
    + case_match; [done|]. intros [= <- <-].
      eapply jb_wf_advance; try done; [apply Hwf| |by apply saturating_add_range; lia].
      intros k Hk. specialize (Hmin _ Hk). specialize (Hwin _ Hk). rewrite dist_advance by lia. lia.
Qed.

Lemma drains_wf j out j' : drains j out j' -> jb_wf j -> jb_wf j'.
Proof. induction 1; eauto using drain_step_wf. Qed.

(** ** Termination *)

(** Iterations left before the run of the nearest packet is over. *)
Definition gap (j : JitterBuffer) : Z :=
  match jb_expected_sequence j with
  | None => 0
  | Some e =>
      match min_by_key (dist e) (bt_keys (jb_packets j)) with
      | None => 0
      | Some n => if jb_max_packets j <? dist e n then 1 else dist e n
      end
  end.

Definition measure (j : JitterBuffer) : Z :=
  bt_len (jb_packets j) * (jb_max_packets j + 2) + gap j.

Lemma gap_bounds j : 4 <= jb_max_packets j -> 0 <= gap j <= jb_max_packets j.
Proof.
  intros. unfold gap. destruct (jb_expected_sequence j) as [e|]; [|lia].
  destruct (min_by_key _ _) as [n|]; [|lia].
  pose proof (dist_range e n). destruct (Z.ltb_spec (jb_max_packets j) (dist e n)); lia.
Qed.

(** The gap of a cursor that has reached distance [d] of the nearest packet. *)
Lemma gap_le j e n d :
  jb_expected_sequence j = Some e -> n ∈ bt_keys (jb_packets j) -> dist e n <= d ->
  d <= jb_max_packets j -> gap j <= d.
Proof.
  intros He Hn Hd Hmax. unfold gap. rewrite He.
  destruct (min_by_key (dist e) (bt_keys (jb_packets j))) as [k|] eqn:E.
  - pose proof (min_by_key_le _ _ _ _ E Hn).
    destruct (Z.ltb_spec (jb_max_packets j) (dist e k)); lia.
  - pose proof (dist_range e n). lia.
Qed.

Lemma gap_next j e n :
  jb_wf j -> jb_expected_sequence j = Some e -> bt_get e (jb_packets j) = None ->
  next_buffered_sequence j e = Some n ->
  gap j = if jb_max_packets j <? dist e n then 1 else dist e n.
Proof.
  intros Hwf He Hget Hn. unfold gap. rewrite He.
  pose proof (next_buffered_some _ _ _ Hwf He Hn) as (Hnk & _ & Hnu).
  destruct (min_by_key (dist e) (bt_keys (jb_packets j))) as [k|] eqn:E.
  - pose proof (min_by_key_le _ _ _ _ E Hnk).
    pose proof (next_buffered_le _ _ _ k Hwf He Hn Hget (min_by_key_elem _ _ _ E)).
    replace (dist e k) with (dist e n) by lia. done.
  - apply min_by_key_None in E. rewrite E in Hnk. set_solver.
Qed.

Lemma drain_step_measure j j' out :
  jb_wf j -> drain_step j = DrainContinue j' out ->
  measure j' + 1 <= measure j /\ jb_max_packets j' = jb_max_packets j
  /\ Z.of_nat (length out) <= 1.
Proof.
  intros Hwf Hstep. pose proof (drain_step_wf _ _ _ Hwf Hstep) as Hwf'. revert Hstep.
  pose proof (max_for_target_bounds _ (wf_target _ Hwf)) as [_ Hmax4].
  rewrite <- (wf_max _ Hwf) in Hmax4.
  unfold drain_step. destruct (jb_expected_sequence j) as [e|] eqn:He; [|done].
  destruct (bt_get e (jb_packets j)) as [p|] eqn:Hget.
  - intros [= <- <-]. simpl in *. split_and!; [|done|lia].
    pose proof (gap_bounds j Hmax4).
    pose proof (gap_bounds _ (Hmax4 : 4 <= jb_max_packets (jb_advance j (wrapping_add 32 e 1)
      (bt_remove e (jb_packets j)) (jb_lost_packets j)))) as Hg. unfold measure. simpl in *.
    rewrite (bt_len_remove e p) by (done || apply Hwf). lia.
  - destruct (next_buffered_sequence j e) as [n|] eqn:Hn; [|done].
    pose proof (next_buffered_some _ _ _ Hwf He Hn) as (Hnk & Hnd & Hnu).
    pose proof (gap_next _ _ _ Hwf He Hget Hn) as Hgap.
    fold (dist e n). destruct (Z.ltb_spec (jb_max_packets j) (dist e n)).
    + intros [= <- <-]. split_and!; [|done|simpl; lia]. unfold measure. rewrite Hgap. simpl.
      enough (gap (jb_advance j n (jb_packets j)
                     (saturating_add 64 (jb_lost_packets j) (dist e n))) <= 0) by lia.
      apply (gap_le _ n n); simpl; [done..| |lia]. rewrite dist_self. lia.
    + case_match; [done|]. intros [= <- <-]. split_and!; [|done|simpl; lia].
      unfold measure. rewrite Hgap. simpl.
      enough (gap (jb_advance j (wrapping_add 32 e 1) (jb_packets j)
                     (saturating_add 64 (jb_lost_packets j) 1)) <= dist e n - 1) by lia.
      eapply (gap_le _ _ n); simpl; [done..| |lia]. rewrite dist_advance by lia. lia.
Qed.

Lemma drain_loop_complete fuel j acc :
  jb_wf j -> measure j < Z.of_nat fuel -> is_Some (drain_loop fuel j acc).
Proof.
  revert j acc. induction fuel as [|fuel IH]; intros j acc Hwf Hf.
  - pose proof (max_for_target_bounds _ (wf_target _ Hwf)) as [_ Hmax4].
    rewrite <- (wf_max _ Hwf) in Hmax4. pose proof (gap_bounds j Hmax4).
    unfold measure in Hf. pose proof (bt_len_nonneg (jb_packets j)). nia.
  - simpl. destruct (drain_step j) as [|j1 o] eqn:E; [eauto|].
    pose proof (drain_step_measure _ _ _ Hwf E). apply IH; [by eapply drain_step_wf|lia].
Qed.

Lemma drains_length j out j' :
  drains j out j' -> jb_wf j -> Z.of_nat (length out) <= measure j - measure j'.
Proof.
  induction 1 as [j|j j' j'' out out' Hstep Hd IH]; intros Hwf; simpl; [lia|].
  pose proof (drain_step_measure _ _ _ Hwf Hstep) as (? & _ & ?).
  specialize (IH (drain_step_wf _ _ _ Hwf Hstep)). rewrite length_app. lia.
Qed.

Lemma drain_fuel_enough j : jb_wf j -> measure j < Z.of_nat (drain_fuel j).
Proof.
  intros Hwf. pose proof (max_for_target_bounds _ (wf_target _ Hwf)) as [_ Hmax4].
  rewrite <- (wf_max _ Hwf) in Hmax4. pose proof (gap_bounds j Hmax4).
  pose proof (bt_len_nonneg (jb_packets j)).
  unfold measure, drain_fuel. rewrite Z2Nat.id by nia. lia.
Qed.

(** ** The operations keep the buffer well formed and bounded *)

Lemma jb_wf_new t : 0 <= t <= uint_max 64 -> jb_wf (jb_new t) /\ jb_bounded (jb_new t).
Proof.
  intros Ht. unfold jb_bounded, jb_new. split; [split; simpl; try done|].
  - apply bt_wf_nil.
  - unfold uint_max in *. lia.
  - unfold bt_len. simpl. lia.
Qed.

Lemma jb_wf_restart j n : jb_wf j -> n ∈u 32 -> jb_wf (restart j n) /\ jb_bounded (restart j n).
Proof.
  intros [H1 H2 H3 H4 H5 H6 H7] Hn. unfold jb_bounded.
  split; [split; simpl; try done|unfold bt_len; simpl; lia].
  - apply bt_wf_nil.
  - intros ? [= <-]. split; [done|]. set_solver.
Qed.

Lemma jb_wf_increase_target j a m :
  jb_wf j -> jb_bounded j -> 0 <= a <= uint_max 64 -> m <= uint_max 64 ->
  jb_wf (increase_target j a m).1 /\ jb_bounded (increase_target j a m).1.
Proof.
  intros Hwf Hb Ha Hm. unfold increase_target. case_match eqn:E; [done|]. simpl.
  apply Z.leb_gt in E. pose proof (wf_target _ Hwf) as Ht.
  unfold jb_bounded in *. split; [|simpl; unfold saturating_add; lia].
  destruct Hwf as [H1 H2 H3 H4 H5 H6 H7]. split; simpl; try done.
  unfold saturating_add. lia.
Qed.

(** When the loop stops, fewer packets than the target remain. *)
Lemma drain_break_bounded j : jb_wf j -> drain_step j = DrainBreak -> jb_bounded j.
Proof.
  intros Hwf. unfold drain_step, jb_bounded. pose proof (wf_target _ Hwf) as [Ht _].
  destruct (jb_expected_sequence j) as [e|] eqn:He.
  - destruct (bt_get e (jb_packets j)) eqn:Hget; [done|].
    destruct (next_buffered_sequence j e) as [n|] eqn:Hn.
    + repeat case_match; try done. rewrite andb_true_iff, !Z.ltb_lt in *. lia.
    + rewrite (next_buffered_none _ _ Hwf He Hget Hn). unfold bt_len. simpl. lia.
  - rewrite (wf_unset _ Hwf He). unfold bt_len. simpl. lia.
Qed.

Lemma jb_wf_set_started j : jb_wf j -> jb_wf (set_started j).
Proof. intros [H1 H2 H3 H4 H5 H6 H7]. by split. Qed.

(** [drain_ready] returns, and what it returned is a maximal run of the loop. *)
Lemma drain_ready_spec j :
  jb_wf j ->
  (jb_started j = false /\ bt_len (jb_packets j) < jb_target_packets j
     /\ drain_ready j = Some (j, []))
  \/ ((jb_started j = true \/ jb_target_packets j <= bt_len (jb_packets j)) /\
      exists j' out, drain_ready j = Some (j', out) /\ drains (set_started j) out j'
                     /\ drain_step j' = DrainBreak).
Proof.
  intros Hwf. unfold drain_ready.
  destruct (negb (jb_started j) && (bt_len (jb_packets j) <? jb_target_packets j)) eqn:E.
  - left. apply andb_true_iff in E as [E1 E2]. rewrite Z.ltb_lt in E2.
    by destruct (jb_started j).
  - right. split.
    + destruct (jb_started j); [by left|]. right. simpl in E. by apply Z.ltb_ge in E.
    + destruct (drain_loop_complete (drain_fuel j) (set_started j) [])
        as [[j' out] Hl]; [by apply jb_wf_set_started|by apply (drain_fuel_enough (set_started j)), jb_wf_set_started|].
      apply drain_loop_sound in Hl as Hs. destruct Hs as (out' & -> & Hd & Hb). eauto.
Qed.

(** What [push] does with a packet, by case. *)
Definition with_expected (j : JitterBuffer) (e : Z) : JitterBuffer :=
  mkJitterBuffer (Some e) (jb_packets j) (jb_target_packets j) (jb_max_packets j)
    (jb_started j) (jb_lost_packets j) (jb_late_packets j).

Lemma jb_wf_with_expected j p :
  jb_wf j -> ap_sequence p ∈u 32 ->
  jb_wf (with_expected j (default (ap_sequence p) (jb_expected_sequence j))).
Proof.
  intros [H1 H2 H3 H4 H5 H6 H7] Hs. split; simpl; try done. intros ? [= <-].
  destruct (jb_expected_sequence j) as [e|]; simpl; [by apply H3|].
  split; [done|]. rewrite H4 by done. simpl. set_solver.
Qed.

Definition stored (j : JitterBuffer) (e : Z) (p : AudioPacket) : JitterBuffer :=
  mkJitterBuffer (Some e) (bt_insert (ap_sequence p) p (jb_packets j)) (jb_target_packets j)
    (jb_max_packets j) (jb_started j) (jb_lost_packets j) (jb_late_packets j).

Lemma jb_wf_stored j e p :
  jb_wf (with_expected j e) -> ap_sequence p ∈u 32 -> dist e (ap_sequence p) < 2 ^ 31 ->
  jb_wf (stored j e p).
Proof.
  intros [H1 H2 H3 H4 H5 H6 H7] Hs Hd. simpl in *. split; simpl; try done.
  - by apply bt_wf_insert.
  - intros k q. rewrite bt_get_insert. destruct (Z.eqb_spec k (ap_sequence p)).
    + intros [= <-]. by subst.
    + apply H2.
  - intros ? [= <-]. destruct (H3 e eq_refl) as [He Hwin]. split; [done|].
    intros k [->|Hk]%bt_keys_insert; [done|by apply Hwin].
Qed.

Lemma push_cases j p :
  let e := default (ap_sequence p) (jb_expected_sequence j) in
  (bt_contains_key (ap_sequence p) (jb_packets j) = true /\ push j p = Some (with_expected j e, []))
  \/ (bt_get (ap_sequence p) (jb_packets j) = None /\ 2 ^ 31 <= dist e (ap_sequence p) /\
      push j p = Some (mkJitterBuffer (Some e) (jb_packets j) (jb_target_packets j)
        (jb_max_packets j) (jb_started j) (jb_lost_packets j)
        (saturating_add 64 (jb_late_packets j) 1), []))
  \/ (bt_get (ap_sequence p) (jb_packets j) = None /\ dist e (ap_sequence p) < 2 ^ 31 /\
      push j p = drain_ready (stored j e p)).
Proof.
  intros e. unfold push. fold e. destruct (bt_contains_key _ _) eqn:Hc; [by left|].
  apply bt_contains_key_false in Hc. right.
  destruct (sequence_is_before _ _) eqn:Hb.
  - left. apply sequence_is_before_spec in Hb. done.
  - right. split_and!; [done| |done].
    rewrite <- not_true_iff_false, sequence_is_before_spec in Hb. lia.
Qed.

Lemma push_wf j p :
  jb_wf j -> jb_bounded j -> ap_sequence p ∈u 32 ->
  exists j' out, push j p = Some (j', out) /\ jb_wf j' /\ jb_bounded j'.
Proof.
  intros Hwf Hb Hp. pose proof (jb_wf_with_expected _ _ Hwf Hp) as Hwe.
  destruct (push_cases j p) as [[_ ->]|[(_ & _ & ->)|(_ & Hd & ->)]].
  - eauto.
  - eexists _, _. split; [done|]. split; [|done]. by destruct Hwe; split.
  - pose proof (jb_wf_stored _ _ _ Hwe Hp Hd) as Hst.
    destruct (drain_ready_spec _ Hst) as [(_ & Hlt & ->)|(_ & j' & out & -> & Hdr & Hbr)].
    + eauto.
    + exists j', out. split; [done|].
      pose proof (drains_wf _ _ _ Hdr (jb_wf_set_started _ Hst)) as Hwf'.
      split; [done|]. by apply drain_break_bounded.
Qed.

(** ** Conservation of packets *)

Lemma audios_app o1 o2 : audios (o1 ++ o2) = audios o1 ++ audios o2.
Proof. apply omap_app. Qed.

Lemma n_audio_app o1 o2 : n_audio (o1 ++ o2) = n_audio o1 + n_audio o2.
Proof. unfold n_audio. rewrite audios_app, length_app. lia. Qed.

Lemma drains_conserve j out j' :
  drains j out j' -> jb_wf j ->
  bt_values (jb_packets j) ≡ₚ audios out ++ bt_values (jb_packets j').
Proof.
  induction 1 as [j|j j1 j2 o o' Hstep Hd IH]; intros Hwf; [done|].
  specialize (IH (drain_step_wf _ _ _ Hwf Hstep)). rewrite audios_app, <- app_assoc, <- IH.
  revert Hstep. unfold drain_step. destruct (jb_expected_sequence j) as [e|]; [|done].
  destruct (bt_get e (jb_packets j)) as [p|] eqn:Hget.
  - intros [= <- <-]. simpl. apply bt_remove_perm; [apply Hwf|done].
  - repeat case_match; intros; simplify_eq; done.
Qed.

(** ** The playback cursor *)

(** [out] played from cursor [e] over [adv] sequence numbers: the audio sits at
    strictly increasing positions of that span, every other position of the
    span was counted as lost, and at least the silences were. *)
Definition cursor_run (e adv : Z) (out : list JitterOutput) : Prop :=
  Z.of_nat (length out) <= adv /\
  exists ps, StronglySorted Z.lt ps /\ Forall (fun q => e <= q < e + adv) ps /\
             (wrap 32) <$> ps = ap_sequence <$> audios out.

Lemma StronglySorted_app_lt (l1 l2 : list Z) m :
  StronglySorted Z.lt l1 -> StronglySorted Z.lt l2 ->
  Forall (fun q => q < m) l1 -> Forall (fun q => m <= q) l2 -> StronglySorted Z.lt (l1 ++ l2).
Proof.
  induction l1 as [|x l1 IH]; simpl; [done|]. intros H1 H2 Hl1 Hl2.
  inversion H1; subst. inversion Hl1; subst. constructor; [by apply IH|].
  apply Forall_app. split; [done|]. eapply Forall_impl; [done|]. simpl. lia.
Qed.

Lemma cursor_run_nil e : cursor_run e 0 [].
Proof. split; [simpl; lia|]. exists []. split_and!; constructor. Qed.

Lemma cursor_run_skip e adv : 0 <= adv -> cursor_run e adv [].
Proof. intros. split; [simpl; lia|]. exists []. split_and!; constructor. Qed.

Lemma cursor_run_app e a1 a2 o1 o2 :
  0 <= a1 -> 0 <= a2 -> cursor_run e a1 o1 -> cursor_run (e + a1) a2 o2 ->
  cursor_run e (a1 + a2) (o1 ++ o2).
Proof.
  intros Ha1 Ha2 (Hl1 & p1 & Hs1 & Hr1 & He1) (Hl2 & p2 & Hs2 & Hr2 & He2).
  split; [rewrite length_app; lia|]. exists (p1 ++ p2). split_and!.
  - eapply (StronglySorted_app_lt _ _ (e + a1)); [done..| |].
    + eapply Forall_impl; [exact Hr1|]. simpl. lia.
    + eapply Forall_impl; [exact Hr2|]. simpl. lia.
  - apply Forall_app. split; eapply Forall_impl; try done; simpl; lia.
  - rewrite audios_app, !fmap_app. by rewrite He1, He2.
Qed.

(** The cursor only matters modulo 2^32. *)
Lemma cursor_run_wrap e e' adv out :
  wrap 32 e = wrap 32 e' -> cursor_run e adv out -> cursor_run e' adv out.
Proof.
  intros Hw (Hl & ps & Hs & Hr & He). split; [done|].
  exists ((fun q => q + (e' - e)) <$> ps). split_and!.
  - clear Hr He. induction Hs as [|x l Hs IH Hx]; simpl; constructor; [done|].
    apply Forall_fmap. eapply Forall_impl; [done|]. simpl. lia.
  - apply Forall_fmap. eapply Forall_impl; [done|]. simpl. lia.
  - rewrite <- He, <- list_fmap_compose. apply list_fmap_ext. intros i q _. simpl.
    replace (q + (e' - e)) with (q - e + e') by lia.
    rewrite <- wrap_add_r, <- Hw, wrap_add_r. f_equal. lia.
Qed.

Lemma saturating_add_add a b c :
  0 <= b -> 0 <= c -> saturating_add 64 (saturating_add 64 a b) c = saturating_add 64 a (b + c).
Proof. unfold saturating_add. lia. Qed.

(** One iteration, seen from the cursor. *)
Lemma drain_step_cursor j j' out e :
  jb_wf j -> jb_expected_sequence j = Some e -> drain_step j = DrainContinue j' out ->
  exists adv, 0 <= adv /\ n_audio out <= adv /\
    jb_expected_sequence j' = Some (wrapping_add 32 e adv) /\
    jb_lost_packets j' = saturating_add 64 (jb_lost_packets j) (adv - n_audio out) /\
    cursor_run e adv out.
Proof.
  intros Hwf He. pose proof (wf_lost _ Hwf) as Hlost.
  destruct (wf_expected _ Hwf _ He) as [Heu _]. unfold drain_step. rewrite He.
  destruct (bt_get e (jb_packets j)) as [p|] eqn:Hget.
  - intros [= <- <-]. apply (wf_stored _ Hwf) in Hget as [Hseq _].
    exists 1. unfold n_audio. simpl. split_and!; [lia..|done| |].
    + unfold saturating_add. lia.
    + split; [simpl; lia|]. exists [e]. simpl. rewrite Hseq, (wrap_small 32 e) by done.
      split_and!; [repeat constructor|repeat constructor; lia|done].
  - destruct (next_buffered_sequence j e) as [n|] eqn:Hn; [|done].
    pose proof (next_buffered_some _ _ _ Hwf He Hn) as (_ & Hnd & Hnu).
    fold (dist e n). case_match.
    + intros [= <- <-]. exists (dist e n). unfold n_audio. simpl.
      rewrite dist_to_next, Z.sub_0_r by done.
      split_and!; [lia..|done|done|apply cursor_run_skip; lia].
    + case_match; [done|]. intros [= <- <-]. exists 1. unfold n_audio. simpl.
      split_and!; [lia..|done|done|]. split; [simpl; lia|]. exists []. split_and!; constructor.
Qed.

Lemma drains_cursor j out j' e :
  drains j out j' -> jb_wf j -> jb_expected_sequence j = Some e ->
  exists adv, 0 <= adv /\ n_audio out <= adv /\
    jb_expected_sequence j' = Some (wrapping_add 32 e adv) /\
    jb_lost_packets j' = saturating_add 64 (jb_lost_packets j) (adv - n_audio out) /\
    cursor_run e adv out.
Proof.
  intros Hd. revert e. induction Hd as [j|j j1 j2 o o' Hstep Hd IH]; intros e Hwf He.
  - exists 0. pose proof (wf_lost _ Hwf). unfold n_audio. simpl.
    split_and!; [lia..| | |apply cursor_run_nil].
    + rewrite He. f_equal. unfold wrapping_add. rewrite Z.add_0_r. symmetry.
      apply wrap_small. by eapply wf_expected.
    + unfold saturating_add. lia.
  - destruct (drain_step_cursor _ _ _ _ Hwf He Hstep) as (a1 & Ha1 & Hn1 & He1 & Hl1 & Hc1).
    destruct (IH _ (drain_step_wf _ _ _ Hwf Hstep) He1) as (a2 & Ha2 & Hn2 & He2 & Hl2 & Hc2).
    exists (a1 + a2). rewrite n_audio_app. split_and!; [lia..| | |].
    + rewrite He2. f_equal. unfold wrapping_add. rewrite wrap_add_l. f_equal. lia.
    + rewrite Hl2, Hl1, saturating_add_add by lia. f_equal. lia.
    + apply cursor_run_app; [done..|]. eapply cursor_run_wrap; [|exact Hc2].
      unfold wrapping_add. apply wrap_wrap.
Qed.

Lemma drains_config j out j' :
  drains j out j' -> jb_target_packets j' = jb_target_packets j /\
    jb_max_packets j' = jb_max_packets j /\ jb_started j' = jb_started j /\
    jb_late_packets j' = jb_late_packets j.
Proof.
  induction 1 as [j|j j1 j2 o o' Hstep Hd IH]; [done|].
  destruct IH as (-> & -> & -> & ->). revert Hstep. unfold drain_step.
  repeat case_match; intros; simplify_eq; done.
Qed.

(** ** Properties of [push] *)

(** What one [push] does to the buffer, the counters and the cursor. *)
Lemma push_spec j p :
  jb_wf j -> jb_bounded j -> ap_sequence p ∈u 32 ->
  let e := default (ap_sequence p) (jb_expected_sequence j) in
  exists j' out adv, push j p = Some (j', out) /\ jb_wf j' /\ jb_bounded j' /\
    0 <= adv /\ n_audio out <= adv /\
    jb_expected_sequence j' = Some (wrapping_add 32 e adv) /\
    jb_lost_packets j' = saturating_add 64 (jb_lost_packets j) (adv - n_audio out) /\
    cursor_run e adv out /\
    jb_target_packets j' = jb_target_packets j /\
    (if bt_contains_key (ap_sequence p) (jb_packets j)
     then out = [] /\ jb_packets j' = jb_packets j /\ jb_late_packets j' = jb_late_packets j
     else if sequence_is_before (ap_sequence p) e
     then out = [] /\ jb_packets j' = jb_packets j
          /\ jb_late_packets j' = saturating_add 64 (jb_late_packets j) 1
     else p :: bt_values (jb_packets j) ≡ₚ audios out ++ bt_values (jb_packets j')
          /\ jb_late_packets j' = jb_late_packets j).
Proof.
  intros Hwf Hb Hp e. pose proof (jb_wf_with_expected _ _ Hwf Hp) as Hwe. fold e in Hwe.
  pose proof (wf_lost _ Hwf) as Hlost.
  destruct (wf_expected _ Hwe e eq_refl) as [Heu _].
  assert (wrapping_add 32 e 0 = e) as He0.
  { unfold wrapping_add. rewrite Z.add_0_r. by apply wrap_small. }
  assert (jb_lost_packets j = saturating_add 64 (jb_lost_packets j) (0 - n_audio [])) as Hl0.
  { unfold n_audio, saturating_add. simpl. lia. }
  pose proof (push_cases j p) as Hcases. cbn zeta in Hcases. fold e in Hcases.
  destruct Hcases as [[Hc ->]|[(Hn & Hd & ->)|(Hn & Hd & ->)]].
  - eexists _, [], 0. rewrite He0, <- Hl0, Hc. simpl.
    split_and!; try done; apply cursor_run_nil.
  - apply bt_contains_key_false in Hn as ->. apply sequence_is_before_spec in Hd as ->.
    eexists _, [], 0. rewrite He0, <- Hl0. simpl.
    split_and!; try done; [by destruct Hwe; split|apply cursor_run_nil].
  - pose proof (jb_wf_stored _ _ _ Hwe Hp Hd) as Hst.
    pose proof (bt_insert_perm _ p _ (wf_packets _ Hwf) Hn) as Hperm.
    apply bt_contains_key_false in Hn as ->.
    assert (sequence_is_before (ap_sequence p) e = false) as ->.
    { rewrite <- not_true_iff_false, sequence_is_before_spec. lia. }
    destruct (drain_ready_spec _ Hst) as [(Hs & Hlt & ->)|(_ & j' & out & -> & Hdr & Hbr)].
    + eexists _, [], 0. rewrite He0, <- Hl0. simpl.
      split_and!; try done; apply cursor_run_nil.
    + pose proof (jb_wf_set_started _ Hst) as Hst'.
      destruct (drains_cursor _ _ _ e Hdr Hst' eq_refl) as (adv & Ha & Hna & He' & Hl' & Hc').
      pose proof (drains_wf _ _ _ Hdr Hst') as Hwf'.
      pose proof (drains_conserve _ _ _ Hdr Hst') as Hcons. simpl in Hcons.
      destruct (drains_config _ _ _ Hdr) as (Ht & _ & _ & Hlate).
      exists j', out, adv. split_and!; try done; [by apply drain_break_bounded|].
      by rewrite <- Hcons, Hperm.
Qed.

(** ** Reordering inside a window *)

(** The packets [ps] carry consecutive sequence numbers from [e] on. *)
Fixpoint in_order (e : Z) (ps : list AudioPacket) : Prop :=
  match ps with
  | [] => True
  | p :: ps' => ap_sequence p = e /\ in_order (wrapping_add 32 e 1) ps'
  end.

Lemma in_order_dist e ps p :
  e ∈u 32 -> in_order e ps -> Z.of_nat (length ps) < 2 ^ 31 -> p ∈ ps ->
  dist e (ap_sequence p) < Z.of_nat (length ps) /\ ap_sequence p ∈u 32.
Proof.
  revert e. induction ps as [|q ps IH]; intros e He; [set_solver|].
  intros [Hq Hps] Hlen [->|Hp]%elem_of_cons.
  - rewrite Hq, dist_self. simpl. split; [lia|done].
  - simpl in Hlen. destruct (IH (wrapping_add 32 e 1)) as [Hd Hu]; [|done|lia|done|].
    + apply wrapping_add_range. lia.
    + split; [|done]. simpl. unfold dist in *.
      pose proof (wrapping_add_range 32 e 1 ltac:(lia)).
      replace (wrapping_sub 32 (ap_sequence p) e)
        with (wrap 32 (wrapping_sub 32 (ap_sequence p) (wrapping_add 32 e 1) + 1)).
      * rewrite wrap_small; [lia|]. pose proof (wrapping_sub_range 32 (ap_sequence p)
          (wrapping_add 32 e 1) ltac:(lia)). unfold in_uint in *. lia.
      * unfold wrapping_sub, wrapping_add. autorewrite with wrapdb. f_equal.
        lia.
Qed.

(** The head of an ordered run is the only packet with its sequence number. *)
Lemma in_order_tail_fresh e p ps q :
  e ∈u 32 -> in_order e (p :: ps) -> Z.of_nat (length (p :: ps)) < 2 ^ 31 -> q ∈ ps ->
  ap_sequence q <> e.
Proof.
  intros He [Hp Hps] Hlen Hq Heq. simpl in Hlen.
  destruct (in_order_dist (wrapping_add 32 e 1) ps q) as [Hd _]; try done; try lia.
  { apply wrapping_add_range. lia. }
  rewrite Heq in Hd. unfold dist, wrapping_sub, wrapping_add in Hd.
  rewrite wrap_sub_r in Hd. replace (e - (e + 1)) with (-1) in Hd by lia.
  change (wrap 32 (-1)) with (2 ^ 32 - 1) in Hd. lia.
Qed.

(** The buffer holds exactly the packets of the unplayed run [R] that have
    arrived ([S]); the cursor is at the start of [R]. *)
Record window (j : JitterBuffer) (e : Z) (R S : list AudioPacket) : Prop := {
  win_wf : jb_wf j;
  win_cursor : jb_expected_sequence j = Some e;
  win_order : in_order e R;
  win_length : Z.of_nat (length R) <= jb_target_packets j /\ Z.of_nat (length R) < 2 ^ 31;
  win_packets : forall k q, bt_get k (jb_packets j) = Some q <->
                            q ∈ R /\ q ∈ S /\ ap_sequence q = k;
}.

Lemma win_cursor_range j e R S : window j e R S -> e ∈u 32.
Proof. intros Hw. by eapply wf_expected; [apply (win_wf _ _ _ _ Hw)|apply Hw]. Qed.

(** Buffered packets that all come from a list are at most as many. *)
Lemma buffered_length m (R : list AudioPacket) :
  bt_wf m -> (forall k q, bt_get k m = Some q -> q ∈ R /\ ap_sequence q = k) ->
  bt_len m <= Z.of_nat (length R).
Proof.
  intros Hwf HR. unfold bt_len.
  assert (bt_keys m ⊆+ (ap_sequence <$> R)) as Hsub%submseteq_length.
  { apply NoDup_submseteq; [by apply bt_wf_NoDup|]. intros k Hk.
    apply bt_keys_get in Hk as [q Hq]. apply HR in Hq as [Hq <-].
    by apply list_elem_of_fmap_2. }
  unfold bt_keys in Hsub. rewrite !length_fmap in Hsub. lia.
Qed.

Lemma window_step j e p R S :
  window j e (p :: R) S -> p ∈ S ->
  exists j', drain_step j = DrainContinue j' [Audio p] /\
    window j' (wrapping_add 32 e 1) R S /\
    jb_lost_packets j' = jb_lost_packets j.
Proof.
  intros Hw Hp. pose proof (win_cursor_range _ _ _ _ Hw) as He.
  destruct Hw as [Hwf Hcur Hord Hlen Hpk]. pose proof Hord as [Hseq Hord'].
  assert (bt_get e (jb_packets j) = Some p) as Hget.
  { apply Hpk. split_and!; [set_solver|done|done]. }
  assert (drain_step j = DrainContinue (jb_advance j (wrapping_add 32 e 1)
    (bt_remove e (jb_packets j)) (jb_lost_packets j)) [Audio p]) as Hstep.
  { unfold drain_step. by rewrite Hcur, Hget. }
  eexists. split; [exact Hstep|]. split; [|done]. split; simpl.
  - by eapply drain_step_wf.
  - done.
  - done.
  - simpl in Hlen. lia.
  - intros k q. rewrite bt_get_remove. destruct (Z.eqb_spec k e) as [->|Hne].
    + split; [done|]. intros (Hq & _ & Hqs). exfalso.
      by apply (in_order_tail_fresh e p R q He Hord (proj2 Hlen) Hq).
    + rewrite Hpk. split; intros (Hq & HqS & Hqk).
      * apply elem_of_cons in Hq as [->|Hq]; [congruence|done].
      * split_and!; [set_solver|done|done].
Qed.

(** With the head of the run missing, the loop waits for it. *)
Lemma window_break j e R S :
  window j e R S -> (forall p, head R = Some p -> p ∉ S) -> drain_step j = DrainBreak.
Proof.
  intros Hw Hhd. pose proof (win_cursor_range _ _ _ _ Hw) as He.
  destruct Hw as [Hwf Hcur Hord Hlen Hpk].
  pose proof (max_for_target_bounds _ (wf_target _ Hwf)) as [Hmt _].
  rewrite <- (wf_max _ Hwf) in Hmt.
  unfold drain_step. rewrite Hcur. destruct (bt_get e (jb_packets j)) as [q|] eqn:Hget.
  { apply Hpk in Hget as (Hq & HqS & Hqe). destruct R as [|p R]; [set_solver|].
    apply elem_of_cons in Hq as [->|Hq]; [by destruct (Hhd p eq_refl)|].
    exfalso. by apply (in_order_tail_fresh e p R q He Hord (proj2 Hlen) Hq). }
  destruct (next_buffered_sequence j e) as [n|] eqn:Hn; [|done].
  pose proof (next_buffered_some _ _ _ Hwf Hcur Hn) as (Hnk & Hnd & Hnu).
  apply bt_keys_get in Hnk as [q Hq]. apply Hpk in Hq as (HqR & HqS & <-).
  destruct (in_order_dist e R q He Hord (proj2 Hlen) HqR) as [Hd _]. fold (dist e (ap_sequence q)).
  destruct (Z.ltb_spec (jb_max_packets j) (dist e (ap_sequence q))); [lia|].
  destruct R as [|p R]; [set_solver|].
  assert (bt_len (jb_packets j) <= Z.of_nat (length R)) as Hbl.
  { apply buffered_length; [apply Hwf|]. intros k r (Hr & HrS & Hrk)%Hpk. split; [|done].
    apply elem_of_cons in Hr as [->|Hr]; [|done]. by destruct (Hhd p eq_refl). }
  simpl in Hlen.
  assert ((bt_len (jb_packets j) <? jb_target_packets j) = true) as -> by (apply Z.ltb_lt; lia).
  assert ((bt_len (jb_packets j) <? jb_max_packets j) = true) as -> by (apply Z.ltb_lt; lia).
  done.
Qed.

(** Draining plays the arrived prefix of the run, in order and without loss. *)
Lemma window_drains j e R S :
  window j e R S ->
  exists j' R1 R2, R = R1 ++ R2 /\ drains j (Audio <$> R1) j' /\
    window j' (wrapping_add 32 e (Z.of_nat (length R1))) R2 S /\
    (forall p, head R2 = Some p -> p ∉ S) /\ Forall (fun p => p ∈ S) R1 /\
    jb_lost_packets j' = jb_lost_packets j.
Proof.
  revert j e. induction R as [|p R IH]; intros j e Hw.
  - exists j, [], []. pose proof (win_cursor_range _ _ _ _ Hw) as He. simpl.
    unfold wrapping_add. rewrite Z.add_0_r, wrap_small by done.
    split_and!; try done; constructor.
  - destruct (decide (p ∈ S)) as [Hp|Hp].
    + destruct (window_step _ _ _ _ _ Hw Hp) as (j1 & Hstep & Hw1 & Hl1).
      destruct (IH _ _ Hw1) as (j' & R1 & R2 & -> & Hd & Hw' & Hh & HS & Hl).
      exists j', (p :: R1), R2. split_and!; [done| | |done|by constructor|congruence].
      * simpl. by apply (drains_step j j1 j' [Audio p]).
      * replace (wrapping_add 32 e (Z.of_nat (length (p :: R1))))
          with (wrapping_add 32 (wrapping_add 32 e 1) (Z.of_nat (length R1))); [done|].
        unfold wrapping_add. rewrite wrap_add_l. f_equal. simpl length. lia.
    + exists j, [], (p :: R). pose proof (win_cursor_range _ _ _ _ Hw) as He. simpl.
      unfold wrapping_add. rewrite Z.add_0_r, wrap_small by done.
      split_and!; try done; try constructor. by intros ? [= <-].
Qed.

Lemma in_order_inj e R p q :
  e ∈u 32 -> in_order e R -> Z.of_nat (length R) < 2 ^ 31 -> p ∈ R -> q ∈ R ->
  ap_sequence p = ap_sequence q -> p = q.
Proof.
  revert e. induction R as [|r R IH]; intros e He Hord Hlen Hp Hq Heq; [set_solver|].
  apply elem_of_cons in Hp as [->|Hp], Hq as [->|Hq]; [done| | |].
  - destruct (in_order_tail_fresh e r R q He Hord Hlen Hq). rewrite <- Heq. apply Hord.
  - destruct (in_order_tail_fresh e r R p He Hord Hlen Hp). rewrite Heq. apply Hord.
  - destruct Hord as [_ Hord]. simpl in Hlen. apply (IH (wrapping_add 32 e 1)); try done; [apply wrapping_add_range; lia|lia].
Qed.

Lemma drains_deterministic j o1 j1 o2 j2 :
  drains j o1 j1 -> drain_step j1 = DrainBreak -> drains j o2 j2 -> drain_step j2 = DrainBreak ->
  o1 = o2 /\ j1 = j2.
Proof.
  intros H1 Hb1. revert o2 j2. induction H1 as [j|j j' j'' o o' Hs Hd IH]; intros o2 j2 H2 Hb2.
  - inversion H2; [done|congruence].
  - inversion H2 as [|? j3 ? o3 o4 Hs3 Hd3]; subst; [congruence|].
    rewrite Hs in Hs3. injection Hs3 as <- <-. by destruct (IH Hb1 _ _ Hd3 Hb2) as [-> ->].
Qed.

(** Storing the next arrival of the window. *)
Lemma window_stored j e R S p :
  window j e R S -> p ∈ R -> p ∉ S ->
  push j p = drain_ready (stored j e p) /\ window (stored j e p) e R (p :: S) /\
  bt_len (jb_packets (stored j e p)) = bt_len (jb_packets j) + 1.
Proof.
  intros Hw Hp HpS. pose proof (win_cursor_range _ _ _ _ Hw) as He.
  destruct Hw as [Hwf Hcur Hord Hlen Hpk].
  destruct (in_order_dist e R p He Hord (proj2 Hlen) Hp) as [Hd Hu].
  assert (bt_get (ap_sequence p) (jb_packets j) = None) as Hnone.
  { destruct (bt_get (ap_sequence p) (jb_packets j)) as [q|] eqn:Hq; [|done].
    apply Hpk in Hq as (Hq & HqS & Heq). exfalso. apply HpS.
    by rewrite <- (in_order_inj e R q p He Hord (proj2 Hlen)). }
  assert (with_expected j e = j) as Hwe by (unfold with_expected; rewrite <- Hcur; by destruct j).
  split_and!.
  - pose proof (push_cases j p) as Hc. cbn zeta in Hc. rewrite Hcur in Hc. simpl in Hc.
    destruct Hc as [[Hc _]|[(_ & Hc & _)|(_ & _ & Hc)]]; [|lia|done].
    apply bt_contains_key_false in Hnone. congruence.
  - split; simpl; try done.
    + apply jb_wf_stored; [by rewrite Hwe|done|lia].
    + intros k q. rewrite bt_get_insert. destruct (Z.eqb_spec k (ap_sequence p)) as [->|Hne].
      * split; [intros [= <-]; set_solver|]. intros (Hq & _ & Heq). f_equal.
        by apply (in_order_inj e R p q He Hord (proj2 Hlen)).
      * rewrite Hpk. split; intros (Hq & HqS & Hqk); (split_and!; [done| |done]).
        -- set_solver.
        -- apply elem_of_cons in HqS as [->|HqS]; [congruence|done].
  - simpl. rewrite bt_len_insert by apply Hwf. apply bt_contains_key_false in Hnone as ->. done.
Qed.

Lemma window_set_started j e R S : window j e R S -> window (set_started j) e R S.
Proof. intros [H1 H2 H3 H4 H5]. split; try done. by apply jb_wf_set_started. Qed.

(** What a push that reaches the drain loop plays. *)
Lemma window_drain_ready j e R S :
  window j e R S -> jb_started j = true \/ jb_target_packets j <= bt_len (jb_packets j) ->
  exists j' R1 R2, R = R1 ++ R2 /\ drain_ready j = Some (j', Audio <$> R1) /\
    window j' (wrapping_add 32 e (Z.of_nat (length R1))) R2 S /\
    (forall p, head R2 = Some p -> p ∉ S) /\ Forall (fun p => p ∈ S) R1 /\
    jb_lost_packets j' = jb_lost_packets j /\ jb_late_packets j' = jb_late_packets j /\
    jb_started j' = true /\ jb_target_packets j' = jb_target_packets j.
Proof.
  intros Hw Hgo. destruct (drain_ready_spec _ (win_wf _ _ _ _ Hw))
    as [(Hs & Hlt & _)|(_ & j' & out & Hdr & Hd & Hb)].
  { destruct Hgo as [Hgo|Hgo]; [congruence|lia]. }
  destruct (window_drains _ _ _ _ (window_set_started _ _ _ _ Hw))
    as (j1 & R1 & R2 & -> & Hd1 & Hw1 & Hh & HS & Hl).
  pose proof (window_break _ _ _ _ Hw1 Hh) as Hb1.
  destruct (drains_deterministic _ _ _ _ _ Hd Hb Hd1 Hb1) as [-> ->].
  destruct (drains_config _ _ _ Hd) as (Ht & _ & Hst & Hla).
  exists j1, R1, R2. by split_and!.
Qed.

Lemma window_push j e R S p :
  window j e R S -> jb_started j = true \/ jb_target_packets j <= bt_len (jb_packets j) + 1 ->
  p ∈ R -> p ∉ S ->
  exists j' R1 R2, R = R1 ++ R2 /\ push j p = Some (j', Audio <$> R1) /\
    window j' (wrapping_add 32 e (Z.of_nat (length R1))) R2 (p :: S) /\
    (forall q, head R2 = Some q -> q ∉ p :: S) /\ Forall (fun q => q ∈ p :: S) R1 /\
    jb_lost_packets j' = jb_lost_packets j /\ jb_late_packets j' = jb_late_packets j /\
    jb_started j' = true /\ jb_target_packets j' = jb_target_packets j.
Proof.
  intros Hw Hgo Hp HpS. destruct (window_stored _ _ _ _ _ Hw Hp HpS) as (-> & Hw' & Hl).
  apply (window_drain_ready (stored j e p)) in Hw'; [exact Hw'|].
  destruct Hgo; [by left|right]. rewrite Hl. done.
Qed.

(** Every arrival order of the rest of a started window plays it in order. *)
Lemma window_push_all arrivals j e R S :
  window j e R S -> jb_started j = true ->
  (forall p, head R = Some p -> p ∉ S) ->
  NoDup (S ++ arrivals) ->
  (forall q, q ∈ R -> q ∈ S \/ q ∈ arrivals) -> (forall q, q ∈ arrivals -> q ∈ R) ->
  exists j' S', push_all j arrivals = Some (j', Audio <$> R) /\
    window j' (wrapping_add 32 e (Z.of_nat (length R))) [] S' /\
    jb_lost_packets j' = jb_lost_packets j /\ jb_late_packets j' = jb_late_packets j /\
    jb_started j' = true /\ jb_target_packets j' = jb_target_packets j.
Proof.
  revert j e R S. induction arrivals as [|p arrivals IH]; intros j e R S Hw Hst Hh Hnd Hall Hin.
  - assert (R = []) as ->.
    { destruct R as [|r R]; [done|]. destruct (Hh r eq_refl).
      destruct (Hall r) as [?|?]; set_solver. }
    exists j, S. pose proof (win_cursor_range _ _ _ _ Hw) as He. simpl.
    unfold wrapping_add. rewrite Z.add_0_r, wrap_small by done. done.
  - assert (p ∉ S) as HpS.
    { intros HpS. apply NoDup_app in Hnd as (_ & Hnd & _). apply (Hnd p HpS). set_solver. }
    destruct (window_push j e R S p Hw (or_introl Hst) ltac:(apply Hin; set_solver) HpS)
      as (j1 & R1 & R2 & -> & Hpush & Hw1 & Hh1 & HS1 & Hl1 & Hla1 & Hst1 & Ht1).
    assert (NoDup ((p :: S) ++ arrivals)) as Hnd'.
    { simpl. by rewrite Permutation_middle. }
    destruct (IH j1 _ R2 (p :: S) Hw1 Hst1 Hh1 Hnd') as (j' & S' & Hpa & Hw' & Hl & Hla & Hst' & Ht').
    + intros q Hq. destruct (Hall q) as [?|Hqa]; [set_solver..|]. set_solver.
    + intros q Hq. assert (q ∈ R1 ++ R2) as [Hq1|Hq2]%elem_of_app by (apply Hin; set_solver); [|done].
      rewrite Forall_forall in HS1. specialize (HS1 q Hq1).
      apply NoDup_app in Hnd' as (_ & Hnd' & _). by destruct (Hnd' q HS1).
    + exists j', S'. simpl. rewrite Hpush. simpl. rewrite Hpa. simpl.
      rewrite fmap_app. split_and!; [done| |congruence..].
      replace (wrapping_add 32 e (Z.of_nat (length (R1 ++ R2))))
        with (wrapping_add 32 (wrapping_add 32 e (Z.of_nat (length R1))) (Z.of_nat (length R2)));
        [done|].
      unfold wrapping_add. rewrite wrap_add_l, length_app. f_equal. lia.
Qed.

(** While the buffer prefills, arrivals are only stored; the one that reaches
    the target plays the whole window. *)
Lemma window_prefill arrivals j e R S :
  window j e R S -> jb_started j = false -> bt_len (jb_packets j) = Z.of_nat (length S) ->
  Z.of_nat (length R) = jb_target_packets j -> R ≡ₚ S ++ arrivals -> NoDup R -> arrivals <> [] ->
  exists j' S', push_all j arrivals = Some (j', Audio <$> R) /\
    window j' (wrapping_add 32 e (Z.of_nat (length R))) [] S' /\
    jb_lost_packets j' = jb_lost_packets j /\ jb_late_packets j' = jb_late_packets j /\
    jb_started j' = true /\ jb_target_packets j' = jb_target_packets j.
Proof.
  revert j S. induction arrivals as [|p arrivals IH]; [done|].
  intros j S Hw Hst Hcnt Hlen Hperm Hnd _.
  assert (p ∈ R) as HpR by (rewrite Hperm; set_solver).
  assert (p ∉ S) as HpS.
  { intros HpS. rewrite Hperm in Hnd. apply NoDup_app in Hnd as (_ & Hnd & _).
    apply (Hnd p HpS). set_solver. }
  assert (length R = length S + 1 + length arrivals)%nat as HlenR.
  { rewrite Hperm, length_app. simpl. lia. }
  assert (R ≡ₚ (p :: S) ++ arrivals) as Hperm' by (rewrite Hperm; simpl; by rewrite Permutation_middle).
  destruct (decide (arrivals = [])) as [->|Hne].
  - destruct (window_push j e R S p Hw) as (j1 & R1 & R2 & -> & Hpush & Hw1 & Hh1 & _ & Hrest);
      [right; simpl in HlenR; lia|done..|].
    assert (R2 = []) as ->.
    { destruct R2 as [|r R2]; [done|]. destruct (Hh1 r eq_refl).
      rewrite app_nil_r in Hperm'. rewrite <- Hperm'. set_solver. }
    rewrite app_nil_r in *. exists j1, (p :: S). simpl. rewrite Hpush. simpl. by rewrite app_nil_r.
  - destruct (window_stored _ _ _ _ _ Hw HpR HpS) as (Hpush & Hw1 & Hl).
    assert (0 < length arrivals)%nat by (destruct arrivals; simpl; [done|lia]).
    assert (drain_ready (stored j e p) = Some (stored j e p, [])) as Hdr.
    { unfold drain_ready. simpl jb_started. rewrite Hst, Hl, Hcnt. simpl jb_target_packets.
      destruct (Z.ltb_spec (Z.of_nat (length S) + 1) (jb_target_packets j)); [done|lia]. }
    destruct (IH (stored j e p) (p :: S)) as (j' & S' & Hpa & Hrest); try done.
    + rewrite Hl. simpl. lia.
    + exists j', S'. simpl. rewrite Hpush, Hdr. simpl. rewrite Hpa. done.
Qed.

(** ** Operation sequences *)

Inductive jitter_op : Type :=
| OpPush (packet : AudioPacket)
| OpRestart (next_sequence : Z)
| OpIncreaseTarget (additional_packets maximum_packets : Z).

(** The arguments are values of their Rust types. *)
Definition op_ok (op : jitter_op) : Prop :=
  match op with
  | OpPush p => ap_sequence p ∈u 32
  | OpRestart n => n ∈u 32
  | OpIncreaseTarget a m => a ∈u 64 /\ m ∈u 64
  end.

Definition jitter_step (j : JitterBuffer) (op : jitter_op)
  : option (JitterBuffer * list JitterOutput) :=
  match op with
  | OpPush p => push j p
  | OpRestart n => Some (restart j n, [])
  | OpIncreaseTarget a m => Some ((increase_target j a m).1, [])
  end.

Fixpoint jitter_run (j : JitterBuffer) (ops : list jitter_op)
  : option (JitterBuffer * list JitterOutput) :=
  match ops with
  | [] => Some (j, [])
  | op :: ops' =>
      '(j', out) ← jitter_step j op;
      '(j'', out') ← jitter_run j' ops';
      Some (j'', out ++ out')
  end.

Lemma uint_max_u64 z : z ∈u 64 -> 0 <= z <= uint_max 64.
Proof. unfold in_uint, uint_max. lia. Qed.

Lemma jitter_step_wf j op :
  jb_wf j -> jb_bounded j -> op_ok op ->
  exists j' out, jitter_step j op = Some (j', out) /\ jb_wf j' /\ jb_bounded j'.
Proof.
  intros Hwf Hb Hop. destruct op as [p|n|a m]; simpl in *.
  - by apply push_wf.
  - eexists _, _. split; [done|]. by apply jb_wf_restart.
  - eexists _, _. split; [done|]. destruct Hop as [Ha Hm].
    apply jb_wf_increase_target; try done; [by apply uint_max_u64|].
    by apply uint_max_u64 in Hm as [_ ?].
Qed.

Lemma jitter_run_wf ops j :
  jb_wf j -> jb_bounded j -> Forall op_ok ops ->
  exists j' out, jitter_run j ops = Some (j', out) /\ jb_wf j' /\ jb_bounded j'.
Proof.
  revert j. induction ops as [|op ops IH]; intros j Hwf Hb Hops; simpl.
  - by eexists _, _.
  - inversion Hops as [|? ? Hop Hops']; subst.
    destruct (jitter_step_wf j op Hwf Hb Hop) as (j1 & o1 & -> & Hwf1 & Hb1). simpl.
    destruct (IH j1 Hwf1 Hb1 Hops') as (j2 & o2 & -> & Hwf2 & Hb2). simpl. by eexists _, _.
Qed.

Lemma push_length j p j' out :
  jb_wf j -> jb_bounded j -> ap_sequence p ∈u 32 -> push j p = Some (j', out) ->
  Z.of_nat (length out) <= jb_target_packets j * (jb_max_packets j + 2) + jb_max_packets j.
Proof.
  intros Hwf Hb Hp. pose proof (jb_wf_with_expected _ _ Hwf Hp) as Hwe.
  pose proof (max_for_target_bounds _ (wf_target _ Hwf)) as [_ Hmax4].
  rewrite <- (wf_max _ Hwf) in Hmax4. pose proof (wf_target _ Hwf) as [Ht _].
  assert (0 <= jb_target_packets j * (jb_max_packets j + 2) + jb_max_packets j) by nia.
  destruct (push_cases j p) as [[_ ->]|[(_ & _ & ->)|(Hn & Hd & ->)]];
    [by intros; simplify_eq..|].
  pose proof (jb_wf_stored _ _ _ Hwe Hp Hd) as Hst.
  destruct (drain_ready_spec _ Hst) as [(_ & _ & ->)|(_ & j1 & o1 & -> & Hdr & _)];
    intros; simplify_eq; [done|].
  pose proof (jb_wf_set_started _ Hst) as Hst'.
  pose proof (drains_length _ _ _ Hdr Hst') as Hlen.
  pose proof (gap_bounds _ (Hmax4 : 4 <= jb_max_packets (set_started
    (stored j (default (ap_sequence p) (jb_expected_sequence j)) p)))) as Hg.
  pose proof (drains_config _ _ _ Hdr) as (_ & Hm & _).
  pose proof (gap_bounds j' ltac:(rewrite Hm; done)) as Hg'.
  pose proof (bt_len_nonneg (jb_packets j')).
  apply bt_contains_key_false in Hn. pose proof (bt_len_insert (ap_sequence p) p _ (wf_packets _ Hwf)) as Hins.
  rewrite Hn in Hins. unfold measure in Hlen. simpl in *. unfold jb_bounded in Hb.
  rewrite Hins, Hm in Hlen. nia.
Qed.

Lemma push_all_cursor arrivals j e :
  jb_wf j -> jb_bounded j -> jb_expected_sequence j = Some e ->
  Forall (fun p => ap_sequence p ∈u 32) arrivals ->
  exists j' out adv, push_all j arrivals = Some (j', out) /\ jb_wf j' /\ jb_bounded j' /\
    0 <= adv /\ n_audio out <= adv /\
    jb_expected_sequence j' = Some (wrapping_add 32 e adv) /\
    jb_lost_packets j' = saturating_add 64 (jb_lost_packets j) (adv - n_audio out) /\
    cursor_run e adv out.
Proof.
  revert j e. induction arrivals as [|p arrivals IH]; intros j e Hwf Hb He Hall; simpl.
  - exists j, [], 0. pose proof (wf_lost _ Hwf). unfold n_audio. simpl.
    split_and!; try done; [| |apply cursor_run_nil].
    + rewrite He. f_equal. unfold wrapping_add. rewrite Z.add_0_r. symmetry.
      apply wrap_small. by eapply wf_expected.
    + unfold saturating_add. lia.
  - inversion Hall as [|? ? Hp Hall']; subst.
    destruct (push_spec j p Hwf Hb Hp)
      as (j1 & o1 & a1 & -> & Hwf1 & Hb1 & Ha1 & Hn1 & He1 & Hl1 & Hc1 & _).
    rewrite He in *. simpl in *.
    destruct (IH j1 _ Hwf1 Hb1 He1 Hall')
      as (j2 & o2 & a2 & -> & Hwf2 & Hb2 & Ha2 & Hn2 & He2 & Hl2 & Hc2). simpl.
    exists j2, (o1 ++ o2), (a1 + a2). rewrite n_audio_app. split_and!; try done; [lia..| | |].
    + rewrite He2. f_equal. unfold wrapping_add. rewrite wrap_add_l. f_equal. lia.
    + rewrite Hl2, Hl1, saturating_add_add by lia. f_equal. lia.
    + apply cursor_run_app; [done..|]. eapply cursor_run_wrap; [|exact Hc2].
      unfold wrapping_add. apply wrap_wrap.
Qed.

Lemma wrap_inj_interval e a b :
  e <= a < e + 2 ^ 32 -> e <= b < e + 2 ^ 32 -> wrap 32 a = wrap 32 b -> a = b.
Proof.
  unfold wrap. intros Ha Hb Heq.
  pose proof (Z.div_mod a (2 ^ 32) ltac:(lia)). pose proof (Z.div_mod b (2 ^ 32) ltac:(lia)).
  pose proof (Z.mod_pos_bound a (2 ^ 32) ltac:(lia)). nia.
Qed.

Lemma cursor_run_NoDup e adv out :
  adv <= 2 ^ 32 -> cursor_run e adv out -> NoDup (ap_sequence <$> audios out).
Proof.
  intros Hadv (_ & ps & Hs & Hr & <-). induction Hs as [|x l Hs IH Hx]; simpl; [constructor|].
  inversion Hr as [|? ? Hx' Hr']; subst. constructor; [|by apply IH].
  intros (y & Heq & Hy)%list_elem_of_fmap. rewrite Forall_forall in Hx, Hr'.
  specialize (Hx y Hy). specialize (Hr' y Hy). simpl in *.
  assert (x = y); [|lia]. apply (wrap_inj_interval e); [lia..|done].
Qed.

(** A window of a stream: consecutive packets and the order they arrive in. *)
Definition windows_ok (target : Z) (ws : list (list AudioPacket * list AudioPacket)) : Prop :=
  Forall (fun w => w.2 ≡ₚ w.1 /\ Z.of_nat (length w.1) <= target) ws.

Lemma push_all_app j a1 a2 :
  push_all j (a1 ++ a2) =
    '(j', out) ← push_all j a1; '(j'', out') ← push_all j' a2; Some (j'', out ++ out').
Proof.
  revert j. induction a1 as [|p a1 IH]; intros j; simpl.
  - by destruct (push_all j a2) as [[]|].
  - destruct (push j p) as [[j1 o1]|]; simpl; [|done]. rewrite IH.
    destruct (push_all j1 a1) as [[j2 o2]|]; simpl; [|done].
    destruct (push_all j2 a2) as [[j3 o3]|]; simpl; [|done]. by rewrite app_assoc.
Qed.

Lemma in_order_app e ps qs :
  e ∈u 32 -> in_order e (ps ++ qs) <->
  in_order e ps /\ in_order (wrapping_add 32 e (Z.of_nat (length ps))) qs.
Proof.
  revert e. induction ps as [|p ps IH]; intros e He; simpl.
  - unfold wrapping_add. rewrite Z.add_0_r, wrap_small by done. tauto.
  - rewrite IH by (apply wrapping_add_range; lia).
    replace (wrapping_add 32 (wrapping_add 32 e 1) (Z.of_nat (length ps)))
      with (wrapping_add 32 e (Z.of_nat (S (length ps)))); [tauto|].
    unfold wrapping_add. rewrite wrap_add_l. f_equal. lia.
Qed.

Lemma window_empty j e ps :
  jb_wf j -> jb_expected_sequence j = Some e -> jb_packets j = [] -> in_order e ps ->
  Z.of_nat (length ps) <= jb_target_packets j -> Z.of_nat (length ps) < 2 ^ 31 ->
  window j e ps [].
Proof.
  intros Hwf He Hpk Hord Hlen Hlen'. split; try done. intros k q. rewrite Hpk. simpl.
  split; [done|]. set_solver.
Qed.

Lemma in_order_NoDup e ps :
  e ∈u 32 -> in_order e ps -> Z.of_nat (length ps) < 2 ^ 31 -> NoDup ps.
Proof.
  revert e. induction ps as [|p ps IH]; intros e He Hord Hlen; [constructor|].
  constructor.
  - intros Hin. by eapply (in_order_tail_fresh e p ps p); [done..|apply Hord].
  - destruct Hord as [_ Hord]. simpl in Hlen.
    apply (IH (wrapping_add 32 e 1)); [apply wrapping_add_range; lia|done|lia].
Qed.

Lemma window_done j e S : window j e [] S -> jb_packets j = [].
Proof.
  intros Hw. destruct (jb_packets j) as [|[k p] m] eqn:E; [done|].
  assert (bt_get k (jb_packets j) = Some p) as Hk by (rewrite E; simpl; by rewrite Z.eqb_refl).
  apply (win_packets _ _ _ _ Hw) in Hk as [Hk _]. set_solver.
Qed.

Lemma windows_push_all ws j e :
  jb_wf j -> jb_expected_sequence j = Some e -> jb_packets j = [] -> jb_started j = true ->
  windows_ok (jb_target_packets j) ws -> Forall (fun w => Z.of_nat (length w.1) < 2 ^ 31) ws ->
  in_order e (concat (ws.*1)) ->
  exists j', push_all j (concat (ws.*2)) = Some (j', Audio <$> concat (ws.*1)) /\
    jb_packets j' = [] /\ jb_lost_packets j' = jb_lost_packets j /\
    jb_late_packets j' = jb_late_packets j.
Proof.
  revert j e. induction ws as [|[ps arr] ws IH]; intros j e Hwf He Hpk Hst Hok Hsmall Hord.
  - exists j. done.
  - inversion Hok as [|? ? [Hperm Hlen] Hok']; subst. inversion Hsmall as [|? ? Hs Hsmall']; subst.
    simpl in *. destruct (wf_expected _ Hwf _ He) as [Heu _].
    apply in_order_app in Hord as [Hord1 Hord2]; [|done].
    pose proof (window_empty _ _ _ Hwf He Hpk Hord1 Hlen Hs) as Hw.
    destruct (window_push_all arr j e ps [] Hw Hst) as (j1 & S1 & Hp1 & Hw1 & Hl1 & Hla1 & Hst1 & Ht1).
    + set_solver.
    + simpl. rewrite Hperm. by eapply in_order_NoDup.
    + intros q Hq. right. by rewrite Hperm.
    + intros q Hq. by rewrite <- Hperm.
    + destruct (IH j1 _ (win_wf _ _ _ _ Hw1) (win_cursor _ _ _ _ Hw1) (window_done _ _ _ Hw1) Hst1)
        as (j2 & Hp2 & Hpk2 & Hl2 & Hla2); [by rewrite Ht1|done|done|].
      exists j2. rewrite push_all_app, Hp1. simpl. change (list_fmap _ _ snd ws) with (ws.*2).
      rewrite Hp2. simpl.
      rewrite fmap_app. split_and!; [done|done|congruence..].
Qed.

Lemma jb_new_wf t : t ∈u 64 -> jb_wf (jb_new t) /\ jb_bounded (jb_new t).
Proof. intros Ht. by apply jb_wf_new, uint_max_u64. Qed.

(** ** The properties *)

(** Whatever sequence of [push], [restart] and [increase_target] calls the
    receiver makes on a fresh buffer, every call returns (the draining loop
    terminates), the representation invariant holds afterwards, and fewer
    packets stay buffered than the playout target. *)
Theorem jitter_total_and_bounded (target : Z) (ops : list jitter_op)
  (Ht : target ∈u 64) (Hops : Forall op_ok ops) :
  exists j out, jitter_run (jb_new target) ops = Some (j, out) /\ jb_wf j /\ jb_bounded j.
Proof. destruct (jb_new_wf target Ht). by apply jitter_run_wf. Qed.

Definition pkt (sequence : Z) : AudioPacket := mkAudioPacket sequence (sequence * 480) [0; 0].

Lemma jitter_total_and_bounded_witness :
  exists j out,
    jitter_run (jb_new 2) [OpPush (pkt 0); OpPush (pkt 1); OpPush (pkt 10000); OpRestart 7;
                           OpIncreaseTarget 2 5; OpPush (pkt 8)] = Some (j, out)
    /\ jb_wf j /\ jb_bounded j.
Proof.
  apply (jitter_total_and_bounded 2); [done|].
  repeat constructor; vm_compute; done.
Defined.

(** C21. Playback after [restart j e] moves the cursor forward only: over any
    arrivals (losses, duplicates, reordering and stale packets included) the
    packets handed to the ring carry strictly increasing positions of the
    stretch [e, e + adv) that the cursor passed, so no sequence number is
    played twice before the 32-bit counter wraps; the positions of the stretch
    that were not played are exactly what the lost-packet counter gained. *)
Theorem playback_order_and_accounting (j : JitterBuffer) (e : Z) (arrivals : list AudioPacket)
  (Hwf : jb_wf j) (He : e ∈u 32)
  (Harr : Forall (fun p => ap_sequence p ∈u 32) arrivals) :
  exists j' out adv,
    push_all (restart j e) arrivals = Some (j', out) /\
    jb_expected_sequence j' = Some (wrapping_add 32 e adv) /\
    cursor_run e adv out /\
    (adv <= 2 ^ 32 -> NoDup (ap_sequence <$> audios out)) /\
    n_audio out <= adv /\
    jb_lost_packets j' = saturating_add 64 (jb_lost_packets j) (adv - n_audio out).
Proof.
  destruct (jb_wf_restart j e Hwf He) as [Hw Hb].
  destruct (push_all_cursor arrivals _ e Hw Hb eq_refl Harr)
    as (j' & out & adv & Hp & _ & _ & Hadv & Hn & Hc & Hl & Hrun).
  exists j', out, adv. split_and!; try done. intros. by eapply cursor_run_NoDup.
Qed.

Lemma playback_order_and_accounting_witness :
  exists j' out adv,
    push_all (restart (jb_new 2) 4294967294)
      [pkt 4294967294; pkt 0; pkt 4294967295; pkt 4294967295; pkt 2; pkt 3] = Some (j', out) /\
    jb_expected_sequence j' = Some (wrapping_add 32 4294967294 adv) /\
    cursor_run 4294967294 adv out /\
    (adv <= 2 ^ 32 -> NoDup (ap_sequence <$> audios out)) /\
    n_audio out <= adv /\
    jb_lost_packets j' = saturating_add 64 (jb_lost_packets (jb_new 2)) (adv - n_audio out).
Proof.
  apply (playback_order_and_accounting (jb_new 2) 4294967294); [by apply jb_new_wf|done|].
  repeat constructor; vm_compute; done.
Defined.

(** What one [push] does with the packet it is given: a duplicate of a
    buffered packet changes nothing, a packet behind the cursor only bumps the
    late counter, and any other packet is stored and no packet is dropped or
    invented: the packets released plus those still buffered are the old
    contents plus the new packet. *)
Theorem push_classification (j : JitterBuffer) (p : AudioPacket)
  (Hwf : jb_wf j) (Hb : jb_bounded j) (Hp : ap_sequence p ∈u 32) :
  let e := default (ap_sequence p) (jb_expected_sequence j) in
  exists j' out, push j p = Some (j', out) /\ jb_wf j' /\ jb_bounded j' /\
    if bt_contains_key (ap_sequence p) (jb_packets j)
    then out = [] /\ jb_packets j' = jb_packets j /\ jb_late_packets j' = jb_late_packets j
    else if sequence_is_before (ap_sequence p) e
    then out = [] /\ jb_packets j' = jb_packets j
         /\ jb_late_packets j' = saturating_add 64 (jb_late_packets j) 1
    else p :: bt_values (jb_packets j) ≡ₚ audios out ++ bt_values (jb_packets j')
         /\ jb_late_packets j' = jb_late_packets j.
Proof.
  intros e. destruct (push_spec j p Hwf Hb Hp)
    as (j' & out & adv & Hpush & Hwf' & Hb' & _ & _ & _ & _ & _ & _ & Hcase).
  exists j', out. split_and!; done.
Qed.

Lemma push_classification_witness :
  exists j' out, push (restart (jb_new 2) 5) (pkt 4) = Some (j', out) /\ jb_wf j' /\
    jb_bounded j' /\ out = [] /\ jb_packets j' = [] /\ jb_late_packets j' = 1.
Proof.
  destruct (jb_new_wf 2) as [Hwf _]; [done|]. destruct (jb_wf_restart _ 5 Hwf) as [Hw Hb]; [done|].
  destruct (push_classification _ (pkt 4) Hw Hb) as (j' & out & Hp & H1 & H2 & H3); [done|].
  exists j', out. by split_and!; try apply H3.
Defined.

(** One arriving packet never enqueues an unbounded amount of audio: even
    after a gap of two billion sequence numbers the outputs of one [push] are
    bounded by the playout target alone. *)
Theorem push_output_bound (target : Z) (ops : list jitter_op) (p : AudioPacket)
  (j j' : JitterBuffer) (out0 out : list JitterOutput)
  (Ht : target ∈u 64) (Hops : Forall op_ok ops) (Hp : ap_sequence p ∈u 32)
  (Hreach : jitter_run (jb_new target) ops = Some (j, out0))
  (Hpush : push j p = Some (j', out)) :
  Z.of_nat (length out) <=
    jb_target_packets j * (max_for_target (jb_target_packets j) + 2)
    + max_for_target (jb_target_packets j).
Proof.
  destruct (jb_new_wf target Ht) as [Hw Hb].
  destruct (jitter_run_wf ops _ Hw Hb Hops) as (j1 & o1 & Hrun & Hwf & Hbd). simplify_eq.
  rewrite <- (wf_max _ Hwf). by eapply push_length.
Qed.

Lemma push_output_bound_witness :
  exists j out0 j' out,
    jitter_run (jb_new 2) [OpPush (pkt 0); OpPush (pkt 1)] = Some (j, out0) /\
    push j (pkt 2000000000) = Some (j', out) /\ Z.of_nat (length out) <= 2 * (6 + 2) + 6.
Proof.
  destruct (jitter_run (jb_new 2) [OpPush (pkt 0); OpPush (pkt 1)]) as [[j out0]|] eqn:E1;
    [|by vm_compute in E1].
  destruct (push j (pkt 2000000000)) as [[j' out]|] eqn:E2;
    [|vm_compute in E1; injection E1 as <- <-; by vm_compute in E2].
  exists j, out0, j', out. split_and!; [done..|].
  assert (jb_target_packets j = 2) as Ht by (vm_compute in E1; by injection E1 as <- <-).
  eapply Z.le_trans; [eapply push_output_bound; [| | |exact E1|exact E2]|by rewrite Ht].
  - done.
  - repeat constructor; vm_compute; done.
  - done.
Defined.

Lemma reordering_plays_all (j : JitterBuffer) (e : Z) (first arrivals : list AudioPacket)
  (ws : list (list AudioPacket * list AudioPacket))
  (Hwf : jb_wf j) (He : e ∈u 32)
  (Hfirst : Z.of_nat (length first) = jb_target_packets j) (Hperm : arrivals ≡ₚ first)
  (Hws : windows_ok (jb_target_packets j) ws)
  (Hsmall : jb_target_packets j < 2 ^ 31)
  (Horder : in_order e (first ++ concat (ws.*1))) :
  exists j',
    push_all (restart j e) (arrivals ++ concat (ws.*2)) =
      Some (j', Audio <$> (first ++ concat (ws.*1))) /\
    jb_packets j' = [] /\
    jb_lost_packets j' = jb_lost_packets j /\ jb_late_packets j' = jb_late_packets j.
Proof.
  destruct (jb_wf_restart j e Hwf He) as [Hw _]. pose proof (wf_target _ Hwf) as Ht.
  apply in_order_app in Horder as [Ho1 Ho2]; [|done].
  assert (window (restart j e) e first []) as Hwin
    by (apply window_empty; simpl; done || lia).
  destruct (window_prefill arrivals _ _ _ _ Hwin) as (j1 & S1 & Hp1 & Hw1 & Hl1 & Hla1 & Hst1 & Ht1);
    [done|done|done|done|apply (in_order_NoDup e); done || lia| |].
  { intros ->. apply Permutation_nil_l in Hperm as <-. simpl in Hfirst. lia. }
  destruct (windows_push_all ws j1 _ (win_wf _ _ _ _ Hw1) (win_cursor _ _ _ _ Hw1)
              (window_done _ _ _ Hw1) Hst1) as (j2 & Hp2 & Hpk & Hl2 & Hla2); [by rewrite Ht1| |done|].
  - eapply Forall_impl; [exact Hws|]. simpl. intros w [_ Hl]. lia.
  - exists j2. rewrite push_all_app, Hp1. simpl. rewrite Hp2. simpl. rewrite fmap_app.
    split_and!; [done|done| |]; simpl in *; congruence.
Qed.

(** C4. The jitter buffer does its job: if the packets of a stream arrive
    after [restart j e] shuffled inside consecutive windows of at most
    [target] packets (the first one filling the prefill exactly), the ring
    receives every packet once, in sequence order and without any silence,
    and neither the lost nor the late counter moves. *)
Theorem reordering_is_lossless (j : JitterBuffer) (e : Z) (first arrivals : list AudioPacket)
  (ws : list (list AudioPacket * list AudioPacket))
  (Hwf : jb_wf j) (He : e ∈u 32)
  (Hfirst : Z.of_nat (length first) = jb_target_packets j) (Hperm : arrivals ≡ₚ first)
  (Hws : windows_ok (jb_target_packets j) ws)
  (Hsmall : jb_target_packets j < 2 ^ 31)
  (Horder : in_order e (first ++ concat (ws.*1))) :
  exists j',
    push_all (restart j e) (arrivals ++ concat (ws.*2)) =
      Some (j', Audio <$> (first ++ concat (ws.*1))) /\
    jb_packets j' = [] /\
    jb_lost_packets j' = jb_lost_packets j /\ jb_late_packets j' = jb_late_packets j.
Proof. by apply (reordering_plays_all j e first). Qed.

Lemma reordering_is_lossless_witness :
  exists j',
    push_all (restart (jb_new 2) 4294967294)
      ([pkt 4294967295; pkt 4294967294] ++ concat ([([pkt 0; pkt 1], [pkt 1; pkt 0])].*2)) =
      Some (j', Audio <$> ([pkt 4294967294; pkt 4294967295] ++
                            concat ([([pkt 0; pkt 1], [pkt 1; pkt 0])].*1))) /\
    jb_packets j' = [] /\
    jb_lost_packets j' = jb_lost_packets (jb_new 2) /\
    jb_late_packets j' = jb_late_packets (jb_new 2).
Proof.
  apply reordering_is_lossless; [by apply jb_new_wf|done|done|apply Permutation_swap| |done|].
  - apply Forall_singleton. split; [apply Permutation_swap|done].
  - split_and!; reflexivity || done.
Defined.
