(* ===== verification/Registry.v ===== *)
(** * Registry: the connected receivers

    [windows-server/src/application/registry.rs].  The registry keeps, for each
    connected phone, its control queue, its last reported state, the replies
    that wait for a requester and the playback gate.  A gate is an
    [Arc<AtomicBool>] shared with the session that streams to the phone, so the
    gates live in a store of cells and a receiver holds the address of its own.
    [NEXT_REQUEST], a static of the source, is a field of the state. *)

From Stdlib Require Import ZArith Lia.
From S2P Require Import Prelude BTree Wire Text.

Definition AIRTIME_WARNING_RECEIVERS : Z := 4.
(** The bound of each reply map and of the set of own volume requests. *)
Definition PENDING_REPLIES : Z := 32.

Inductive RegistryError : Type :=
| Disconnected
| QueueRefused.

#[export] Instance RegistryError_eq_dec : EqDecision RegistryError.
Proof. solve_decision. Defined.

Record ReceiverSnapshot : Type := mkReceiverSnapshot {
  rs_id : Z;
  rs_peer : SocketAddr;
  rs_device : option DeviceStatus;
  rs_playing : bool;
}.

Section registry.
Context {Sender : Type} `{!Mpsc Sender ControlMessage}.

Record Receiver : Type := mkReceiver {
  r_peer : SocketAddr;
  r_controls : Sender;
  r_device : option DeviceStatus;
  r_replies : btree DeviceStatus;
  r_tone_replies : btree (bool * bool);
  r_playback : Z;
  r_unsolicited_volume : option Z;
  r_observed_volume : option Z;
  r_volume_requests : bset;
  r_panel_barrier : option Z;
}.

Record Registry : Type := mkRegistry {
  reg_next_id : Z;
  reg_receivers : btree Receiver;
  reg_airtime_warned : bool;
  (** the cells of the gates, and the next free address *)
  reg_gates : gmap Z bool;
  reg_next_gate : Z;
  (** the static [NEXT_REQUEST] *)
  reg_next_request : Z;
}.

Definition registry_default : Registry := mkRegistry 0 [] false ∅ 0 1.

(** *** Field updates *)

Definition with_controls (c : Sender) (r : Receiver) : Receiver :=
  mkReceiver (r_peer r) c (r_device r) (r_replies r) (r_tone_replies r) (r_playback r)
    (r_unsolicited_volume r) (r_observed_volume r) (r_volume_requests r) (r_panel_barrier r).
Definition with_device (d : option DeviceStatus) (r : Receiver) : Receiver :=
  mkReceiver (r_peer r) (r_controls r) d (r_replies r) (r_tone_replies r) (r_playback r)
    (r_unsolicited_volume r) (r_observed_volume r) (r_volume_requests r) (r_panel_barrier r).
Definition with_replies (m : btree DeviceStatus) (r : Receiver) : Receiver :=
  mkReceiver (r_peer r) (r_controls r) (r_device r) m (r_tone_replies r) (r_playback r)
    (r_unsolicited_volume r) (r_observed_volume r) (r_volume_requests r) (r_panel_barrier r).
Definition with_tone_replies (m : btree (bool * bool)) (r : Receiver) : Receiver :=
  mkReceiver (r_peer r) (r_controls r) (r_device r) (r_replies r) m (r_playback r)
    (r_unsolicited_volume r) (r_observed_volume r) (r_volume_requests r) (r_panel_barrier r).
Definition with_unsolicited (v : option Z) (r : Receiver) : Receiver :=
  mkReceiver (r_peer r) (r_controls r) (r_device r) (r_replies r) (r_tone_replies r)
    (r_playback r) v (r_observed_volume r) (r_volume_requests r) (r_panel_barrier r).
Definition with_observed (v : option Z) (r : Receiver) : Receiver :=
  mkReceiver (r_peer r) (r_controls r) (r_device r) (r_replies r) (r_tone_replies r)
    (r_playback r) (r_unsolicited_volume r) v (r_volume_requests r) (r_panel_barrier r).
Definition with_volume_requests (s : bset) (r : Receiver) : Receiver :=
  mkReceiver (r_peer r) (r_controls r) (r_device r) (r_replies r) (r_tone_replies r)
    (r_playback r) (r_unsolicited_volume r) (r_observed_volume r) s (r_panel_barrier r).
Definition with_panel_barrier (b : option Z) (r : Receiver) : Receiver :=
  mkReceiver (r_peer r) (r_controls r) (r_device r) (r_replies r) (r_tone_replies r)
    (r_playback r) (r_unsolicited_volume r) (r_observed_volume r) (r_volume_requests r) b.

Definition with_receivers (m : btree Receiver) (s : Registry) : Registry :=
  mkRegistry (reg_next_id s) m (reg_airtime_warned s) (reg_gates s) (reg_next_gate s)
    (reg_next_request s).
Definition with_gates (g : gmap Z bool) (s : Registry) : Registry :=
  mkRegistry (reg_next_id s) (reg_receivers s) (reg_airtime_warned s) g (reg_next_gate s)
    (reg_next_request s).
Definition with_airtime_warned (b : bool) (s : Registry) : Registry :=
  mkRegistry (reg_next_id s) (reg_receivers s) b (reg_gates s) (reg_next_gate s)
    (reg_next_request s).

Definition get_receiver (s : Registry) (id : Z) : option Receiver := bt_get id (reg_receivers s).
(** [receivers.get_mut(&id)] followed by an update of the receiver. *)
Definition modify (s : Registry) (id : Z) (f : Receiver -> Receiver) : Registry :=
  with_receivers (bt_update f id (reg_receivers s)) s.

(** *** Gates *)

(** [gate.load(Acquire)] and [gate.store(b, Release)] on the cell at [l]. *)
Definition gate_load (s : Registry) (l : Z) : bool := default false (reg_gates s !! l).
Definition gate_store (l : Z) (b : bool) (s : Registry) : Registry :=
  with_gates (<[l := b]> (reg_gates s)) s.
(** [Arc::new(AtomicBool::new(false))]. *)
Definition gate_alloc (s : Registry) : Registry * Z :=
  (mkRegistry (reg_next_id s) (reg_receivers s) (reg_airtime_warned s)
     (<[reg_next_gate s := false]> (reg_gates s)) (reg_next_gate s + 1) (reg_next_request s),
   reg_next_gate s).
(** Stores [f id] in the gate of every receiver, in key order. *)
Definition store_each (f : Z -> bool) (s : Registry) : Registry :=
  foldl (fun s kv => gate_store (r_playback kv.2) (f kv.1) s) s (reg_receivers s).

(** *** Registration *)

Definition register (s : Registry) (peer : SocketAddr) (controls : Sender) : Registry * Z :=
  let id := reg_next_id s in
  let '(s, gate) := gate_alloc s in
  let receivers := bt_insert id
    (mkReceiver peer controls None [] [] gate None None [] None) (reg_receivers s) in
  let s := mkRegistry (wrapping_add 64 id 1) receivers (reg_airtime_warned s) (reg_gates s)
             (reg_next_gate s) (reg_next_request s) in
  let count := bt_len (reg_receivers s) in
  if (AIRTIME_WARNING_RECEIVERS <? count) && negb (reg_airtime_warned s)
  then (with_airtime_warned true s, id) else (s, id).

(** The drop of a [ReceiverGuard]. *)
Definition remove (s : Registry) (id : Z) : Registry :=
  let removed := get_receiver s id in
  let s := with_receivers (bt_remove id (reg_receivers s)) s in
  let s := match removed with Some _ => store_each (fun _ => false) s | None => s end in
  if bt_len (reg_receivers s) <=? AIRTIME_WARNING_RECEIVERS
  then with_airtime_warned false s else s.

(** *** Reading *)

Definition snapshots (s : Registry) : list ReceiverSnapshot :=
  (fun kv => mkReceiverSnapshot kv.1 (r_peer kv.2) (r_device kv.2)
               (gate_load s (r_playback kv.2))) <$> reg_receivers s.

(** A receiver that is gone yields a fresh gate nobody opens. *)
Definition playback_gate (s : Registry) (id : Z) : Registry * Z :=
  match get_receiver s id with
  | Some r => (s, r_playback r)
  | None => gate_alloc s
  end.

Definition has_panel_barrier (s : Registry) (id : Z) : bool :=
  match get_receiver s id with
  | Some r => bool_decide (is_Some (r_panel_barrier r))
  | None => false
  end.

(** *** Approval *)

Definition deny_all (s : Registry) : Registry := store_each (fun _ => false) s.

Definition same_range (a b : DeviceStatus) : bool :=
  bool_decide (ds_device_id a = ds_device_id b)
  && (ds_minimum a =? ds_minimum b) && (ds_maximum a =? ds_maximum b).

(** The speaker of [d] can be set and heard. *)
Definition playable (d : DeviceStatus) : bool := ds_speaker d && negb (ds_fixed d) && negb (ds_failed d).

Definition still_as (expected actual : DeviceStatus) : bool :=
  same_range actual expected && (ds_volume actual =? ds_volume expected) && playable actual.

Definition approve_ready (s : Registry) (expected : list (Z * DeviceStatus)) : bool :=
  forallb (fun '(id, expected) =>
    match get_receiver s id ≫= r_device with
    | Some actual => still_as expected actual
    | None => false
    end) expected.

Definition approve (s : Registry) (expected : list (Z * DeviceStatus)) : Registry :=
  let ready := approve_ready s expected in
  store_each (fun id => ready && existsb (fun '(approved, _) => approved =? id) expected) s.

(** *** Sending *)

Definition broadcast (s : Registry) (message : ControlMessage) : Registry :=
  with_receivers
    ((fun kv => (kv.1, match try_send (r_controls kv.2) message with
                       | Some c => with_controls c kv.2
                       | None => kv.2
                       end)) <$> reg_receivers s) s.

Definition send (s : Registry) (id : Z) (message : ControlMessage)
  : Registry * result RegistryError unit :=
  match get_receiver s id with
  | None => (s, Err Disconnected)
  | Some r =>
      match try_send (r_controls r) message with
      | None => (s, Err QueueRefused)
      | Some c => (modify s id (with_controls c), Ok tt)
      end
  end.

(** [NEXT_REQUEST.fetch_add(1, Relaxed).max(1)]. *)
Definition fetch_request (s : Registry) : Registry * Z :=
  (mkRegistry (reg_next_id s) (reg_receivers s) (reg_airtime_warned s) (reg_gates s)
     (reg_next_gate s) (wrapping_add 32 (reg_next_request s) 1), Z.max (reg_next_request s) 1).

(** The shape of [request], [calibration_request] and [tone_request]. *)
Definition send_request (s : Registry) (id : Z) (message : Z -> ControlMessage)
  : Registry * result RegistryError Z :=
  let '(s, request_id) := fetch_request s in
  let '(s, r) := send s id (message request_id) in
  (s, match r with Ok _ => Ok request_id | Err e => Err e end).

Definition record_volume_request (request_id : Z) (barrier : bool) (r : Receiver) : Receiver :=
  let requests := if PENDING_REPLIES <=? bt_len (r_volume_requests r)
                  then bt_pop_first (r_volume_requests r) else r_volume_requests r in
  let r := with_volume_requests (bs_insert request_id requests) r in
  if barrier then with_unsolicited None (with_panel_barrier (Some request_id) r) else r.

Definition volume_request_with_barrier (s : Registry) (id index : Z) (purpose : VolumePurpose)
    (barrier : bool) : Registry * result RegistryError Z :=
  let '(s, request_id) := fetch_request s in
  match get_receiver s id with
  | None => (s, Err Disconnected)
  | Some r =>
      match try_send (r_controls r) (SetVolume request_id index purpose) with
      | None => (s, Err QueueRefused)
      | Some c =>
          (modify s id (fun r => record_volume_request request_id barrier (with_controls c r)),
           Ok request_id)
      end
  end.

Definition volume_request s id index purpose := volume_request_with_barrier s id index purpose false.
Definition calibration_volume_request s id index := volume_request s id index Calibration.
Definition restore_volume_request s id index := volume_request s id index RestoreSpeaker.
Definition panel_volume_request s id index :=
  volume_request_with_barrier s id index RestoreSpeaker true.
Definition request (s : Registry) (id : Z) (index : option Z) : Registry * result RegistryError Z :=
  match index with
  | Some index => volume_request s id index User
  | None => send_request s id QueryDevice
  end.
Definition calibration_request s id action :=
  send_request s id (fun request_id => CalibrationSession request_id action).
Definition tone_request s id enabled :=
  send_request s id (fun request_id => CalibrationTone request_id enabled).

(** *** Replies *)

Definition update_tone (s : Registry) (id request_id : Z) (playing failed : bool) : Registry :=
  if request_id =? 0 then s
  else modify s id (fun r =>
    let replies := if PENDING_REPLIES <=? bt_len (r_tone_replies r)
                   then bt_pop_first (r_tone_replies r) else r_tone_replies r in
    with_tone_replies (bt_insert request_id (playing, failed) replies) r).

Definition take_tone_reply (s : Registry) (id request_id : Z) : Registry * option (bool * bool) :=
  match get_receiver s id with
  | None => (s, None)
  | Some r =>
      (modify s id (fun r => with_tone_replies (bt_remove request_id (r_tone_replies r)) r),
       bt_get request_id (r_tone_replies r))
  end.

Definition take_reply (s : Registry) (id request_id : Z) : Registry * option DeviceStatus :=
  match get_receiver s id with
  | None => (s, None)
  | Some r =>
      (modify s id (fun r => with_replies (bt_remove request_id (r_replies r)) r),
       bt_get request_id (r_replies r))
  end.

Definition take_unsolicited_volume (s : Registry) (id : Z) : Registry * option Z :=
  match get_receiver s id with
  | None => (s, None)
  | Some r => (modify s id (with_unsolicited None), r_unsolicited_volume r)
  end.

(** *** A reported device state *)

Definition status_valid (d : DeviceStatus) : bool :=
  negb ((ds_maximum d <? ds_minimum d) || (ds_maximum d <? ds_volume d)
        || (ds_volume d <? ds_minimum d) || (512 <? ds_maximum d)).

(** The name without control characters and the identifier without anything
    but ASCII letters, digits and dashes, 80 characters each. *)
Definition sanitize (d : DeviceStatus) : DeviceStatus :=
  mkDeviceStatus (ds_request_id d)
    (take 80 (filter (fun c => is_ascii_alphanumeric c || (c =? 45) = true) (ds_device_id d)))
    (take 80 (filter (fun c => negb (is_control c) = true) (ds_name d)))
    (ds_volume d) (ds_minimum d) (ds_maximum d) (ds_fixed d) (ds_speaker d) (ds_failed d).

(** The three-way [if] that separates a new device, a change made on the phone
    and the answer to a request of this server. *)
Definition observe (status : DeviceStatus) (r : Receiver) : Receiver :=
  let same_device := match r_device r with Some old => same_range old status | None => false end in
  if negb same_device then
    with_unsolicited None (with_observed (Some (ds_volume status)) r)
  else if (ds_request_id status =? 0) && playable status then
    let r := if bool_decide (r_panel_barrier r = None)
                && match r_observed_volume r with
                   | Some volume => negb (volume =? ds_volume status)
                   | None => false
                   end
             then with_unsolicited (Some (ds_volume status)) r else r in
    with_observed (Some (ds_volume status)) r
  else
    let removed := bs_contains (ds_request_id status) (r_volume_requests r) in
    let r := with_volume_requests (bs_remove (ds_request_id status) (r_volume_requests r)) r in
    if removed && (negb (ds_failed status) || (negb (ds_fixed status) && ds_speaker status))
    then with_observed (Some (ds_volume status)) r else r.

(** The report differs from the previous one in a field the approval read. *)
Definition state_changed (old : option DeviceStatus) (status : DeviceStatus) : bool :=
  match old with
  | None => true
  | Some old =>
      negb (ds_volume old =? ds_volume status) || negb (same_range old status)
      || negb (eqb (ds_speaker old) (ds_speaker status))
      || negb (eqb (ds_failed old) (ds_failed status))
      || negb (eqb (ds_fixed old) (ds_fixed status))
  end.

Definition lift_barrier (status : DeviceStatus) (r : Receiver) : Receiver :=
  if bool_decide (r_panel_barrier r = Some (ds_request_id status))
  then with_panel_barrier None r else r.

Definition record_reply (status : DeviceStatus) (r : Receiver) : Receiver :=
  if ds_request_id status =? 0 then r
  else
    let replies := if PENDING_REPLIES <=? bt_len (r_replies r)
                   then match bt_keys (r_replies r) with
                        | oldest :: _ => bt_remove oldest (r_replies r)
                        | [] => r_replies r
                        end
                   else r_replies r in
    with_replies (bt_insert (ds_request_id status) status replies) r.

Definition update_device (s : Registry) (id : Z) (status : DeviceStatus) : Registry :=
  if negb (status_valid status) then s
  else
    let status := sanitize status in
    match get_receiver s id with
    | None => s
    | Some r =>
        let s := if state_changed (r_device r) status then gate_store (r_playback r) false s else s in
        modify s id (fun r =>
          record_reply status (with_device (Some status) (lift_barrier status (observe status r))))
    end.

(** ** Histories *)

Inductive registry_op : Type :=
| RegRegister (peer : SocketAddr) (controls : Sender)
| RegRemove (id : Z)
| RegBroadcast (message : ControlMessage)
| RegPlaybackGate (id : Z)
| RegDenyAll
| RegApprove (expected : list (Z * DeviceStatus))
| RegSend (id : Z) (message : ControlMessage)
| RegQuery (id : Z)
| RegVolume (id index : Z) (purpose : VolumePurpose) (barrier : bool)
| RegCalibration (id : Z) (action : CalibrationAction)
| RegTone (id : Z) (enabled : bool)
| RegUpdateTone (id request_id : Z) (playing failed : bool)
| RegTakeToneReply (id request_id : Z)
| RegTakeReply (id request_id : Z)
| RegTakeUnsolicited (id : Z)
| RegUpdateDevice (id : Z) (status : DeviceStatus)
(** the session of [id] takes messages out of its queue, or drops it *)
| RegQueueMoved (id : Z) (controls : Sender).

Definition registry_step (s : Registry) (op : registry_op) : Registry :=
  match op with
  | RegRegister peer controls => (register s peer controls).1
  | RegRemove id => remove s id
  | RegBroadcast m => broadcast s m
  | RegPlaybackGate id => (playback_gate s id).1
  | RegDenyAll => deny_all s
  | RegApprove expected => approve s expected
  | RegSend id m => (send s id m).1
  | RegQuery id => (request s id None).1
  | RegVolume id index purpose barrier => (volume_request_with_barrier s id index purpose barrier).1
  | RegCalibration id a => (calibration_request s id a).1
  | RegTone id e => (tone_request s id e).1
  | RegUpdateTone id q p f => update_tone s id q p f
  | RegTakeToneReply id q => (take_tone_reply s id q).1
  | RegTakeReply id q => (take_reply s id q).1
  | RegTakeUnsolicited id => (take_unsolicited_volume s id).1
  | RegUpdateDevice id d => update_device s id d
  | RegQueueMoved id c => modify s id (with_controls c)
  end.

Definition registry_run (s : Registry) (ops : list registry_op) : Registry := foldl registry_step s ops.

(** ** Invariant *)

Record receiver_wf (s : Registry) (r : Receiver) : Prop := {
  rw_gate : 0 <= r_playback r < reg_next_gate s;
  rw_replies : bt_wf (r_replies r) /\ bt_len (r_replies r) <= PENDING_REPLIES;
  rw_tones : bt_wf (r_tone_replies r) /\ bt_len (r_tone_replies r) <= PENDING_REPLIES;
  rw_requests : bt_wf (r_volume_requests r) /\ bt_len (r_volume_requests r) <= PENDING_REPLIES;
  rw_barrier : is_Some (r_panel_barrier r) -> r_unsolicited_volume r = None;
  rw_device : forall d, r_device r = Some d -> status_valid d = true /\ sanitize d = d;
  rw_playing : gate_load s (r_playback r) = true ->
    exists d, r_device r = Some d /\ playable d = true;
}.

Record registry_wf (s : Registry) : Prop := {
  rgw_receivers : bt_wf (reg_receivers s);
  rgw_next : 0 <= reg_next_gate s;
  rgw_each : forall id r, get_receiver s id = Some r -> receiver_wf s r;
  rgw_distinct : forall id1 id2 r1 r2,
    get_receiver s id1 = Some r1 -> get_receiver s id2 = Some r2 ->
    r_playback r1 = r_playback r2 -> id1 = id2;
}.

(** ** Lemmas on the store of gates *)

Lemma gate_load_store s l b l' :
  gate_load (gate_store l b s) l' = if l' =? l then b else gate_load s l'.
Proof.
  unfold gate_load, gate_store, with_gates. simpl. destruct (Z.eqb_spec l' l) as [->|].
  - by rewrite lookup_insert_eq.
  - by rewrite lookup_insert_ne.
Qed.

Definition store_list (f : Z -> bool) (m : list (Z * Receiver)) (s : Registry) : Registry :=
  foldl (fun s kv => gate_store (r_playback kv.2) (f kv.1) s) s m.

Lemma store_list_frame f m s :
  reg_receivers (store_list f m s) = reg_receivers s /\
  reg_next_gate (store_list f m s) = reg_next_gate s /\
  reg_next_id (store_list f m s) = reg_next_id s /\
  reg_next_request (store_list f m s) = reg_next_request s /\
  reg_airtime_warned (store_list f m s) = reg_airtime_warned s.
Proof. revert s. induction m as [|kv m IH]; intros s; simpl; [done|].
  exact (IH (gate_store (r_playback kv.2) (f kv.1) s)).
Qed.

Lemma store_list_other f m s l :
  (forall kv, kv ∈ m -> r_playback kv.2 <> l) -> gate_load (store_list f m s) l = gate_load s l.
Proof.
  revert s. induction m as [|kv m IH]; intros s Hl; simpl; [done|].
  rewrite IH by set_solver. rewrite gate_load_store.
  destruct (Z.eqb_spec l (r_playback kv.2)); [|done]. by destruct (Hl kv); [set_solver|].
Qed.

Lemma store_list_hit f m s kv :
  NoDup (r_playback ∘ snd <$> m) -> kv ∈ m ->
  gate_load (store_list f m s) (r_playback kv.2) = f kv.1.
Proof.
  revert s. induction m as [|kv' m IH]; intros s; [set_solver|].
  intros [Hnew Hnd]%NoDup_cons [->|Hin]%elem_of_cons; simpl; [|by apply IH].
  rewrite store_list_other.
  - rewrite gate_load_store. by rewrite Z.eqb_refl.
  - intros kv Hkv Heq. apply Hnew. apply list_elem_of_fmap. exists kv. done.
Qed.

Lemma receivers_gates_NoDup s : registry_wf s -> NoDup (r_playback ∘ snd <$> reg_receivers s).
Proof.
  intros [Hwf _ _ Hd]. unfold get_receiver in Hd. revert Hwf Hd.
  generalize (reg_receivers s) as m.
  induction m as [|[k r] m IH]; intros Hwf Hd; simpl; [constructor|].
  pose proof Hwf as [Hm Hk]%bt_wf_cons. constructor.
  - intros ([k' r'] & Heq & Hin)%list_elem_of_fmap. simpl in Heq.
    assert (k' ∈ bt_keys m) as Hk' by (apply list_elem_of_fmap; by exists (k', r')).
    rewrite Forall_forall in Hk. specialize (Hk _ Hk').
    assert (k = k'); [|lia]. eapply (Hd k k' r r'); [by simpl; rewrite Z.eqb_refl| |done].
    apply bt_In_get; [done|set_solver].
  - apply IH; [done|]. intros i1 i2 r1 r2 H1 H2 Heq. eapply (Hd i1 i2 r1 r2); [| |done].
    + apply bt_In_get; [done|]. apply bt_get_In in H1. set_solver.
    + apply bt_In_get; [done|]. apply bt_get_In in H2. set_solver.
Qed.

Lemma store_each_frame f s :
  reg_receivers (store_each f s) = reg_receivers s /\
  reg_next_gate (store_each f s) = reg_next_gate s /\
  reg_next_id (store_each f s) = reg_next_id s /\
  reg_next_request (store_each f s) = reg_next_request s /\
  reg_airtime_warned (store_each f s) = reg_airtime_warned s.
Proof. apply store_list_frame. Qed.

(** Storing in every receiver's gate: each reads back its own value. *)
Lemma store_each_load f s id r :
  registry_wf s -> get_receiver s id = Some r ->
  gate_load (store_each f s) (r_playback r) = f id.
Proof.
  intros Hwf Hr. apply (store_list_hit f (reg_receivers s) s (id, r)).
  - by apply receivers_gates_NoDup.
  - by apply bt_get_In.
Qed.

Lemma get_receiver_store_each f s id : get_receiver (store_each f s) id = get_receiver s id.
Proof. unfold get_receiver. by destruct (store_each_frame f s) as [-> _]. Qed.

Lemma get_receiver_modify s id f id' :
  get_receiver (modify s id f) id' =
    if id' =? id then f <$> get_receiver s id else get_receiver s id'.
Proof. apply bt_get_update. Qed.

Lemma gate_load_modify s id f l : gate_load (modify s id f) l = gate_load s l.
Proof. done. Qed.

(** ** Preservation of the invariant *)

(** A receiver stays well formed when its gate is closed or unchanged. *)
Lemma receiver_wf_gates s s' r :
  receiver_wf s r -> reg_next_gate s <= reg_next_gate s' ->
  (gate_load s' (r_playback r) = true -> gate_load s (r_playback r) = true) ->
  receiver_wf s' r.
Proof. intros [H1 H2 H3 H4 H5 H6 H7] Hle Hg. split; try done; [lia|eauto]. Qed.

Lemma registry_wf_gates s s' :
  registry_wf s -> reg_receivers s' = reg_receivers s -> reg_next_gate s <= reg_next_gate s' ->
  (forall id r, get_receiver s id = Some r ->
     gate_load s' (r_playback r) = true -> gate_load s (r_playback r) = true) ->
  registry_wf s'.
Proof.
  intros [H1 H2 H3 H4] Hr Hn Hg. split; unfold get_receiver in *; rewrite ?Hr; try done; [lia|].
  intros id r Hid. eapply receiver_wf_gates; eauto.
Qed.

Lemma modify_wf s id f :
  registry_wf s ->
  (forall r, get_receiver s id = Some r ->
     r_playback (f r) = r_playback r /\ receiver_wf s (f r)) ->
  registry_wf (modify s id f).
Proof.
  intros [H1 H2 H3 H4] Hf. split.
  - apply bt_wf_update, H1.
  - done.
  - intros id' r. rewrite get_receiver_modify. destruct (Z.eqb_spec id' id) as [->|].
    + destruct (get_receiver s id) as [r0|] eqn:E; simpl; [|done]. intros [= <-].
      destruct (Hf _ eq_refl) as [_ Hw]. eapply receiver_wf_gates; [exact Hw|done|done].
    + intros Hr. eapply receiver_wf_gates; [by eapply H3|done|done].
  - assert (forall i r, get_receiver (modify s id f) i = Some r ->
      exists r0, get_receiver s i = Some r0 /\ r_playback r = r_playback r0) as Hback.
    { intros i r. rewrite get_receiver_modify. destruct (Z.eqb_spec i id) as [->|]; [|eauto].
      destruct (get_receiver s id) as [r0|] eqn:E; simpl; [|done]. intros [= <-].
      exists r0. split; [done|]. by apply Hf. }
    intros i1 i2 r1 r2 (q1 & Hq1 & ->)%Hback (q2 & Hq2 & ->)%Hback. by apply H4.
Qed.

Lemma store_each_false_wf s : registry_wf s -> registry_wf (store_each (fun _ => false) s).
Proof.
  intros Hwf. destruct (store_each_frame (fun _ => false) s) as (Hr & Hn & _).
  apply (registry_wf_gates s); [done|done|lia|].
  intros id r Hid. by rewrite (store_each_load _ _ _ _ Hwf Hid).
Qed.

Lemma gate_alloc_wf s : registry_wf s -> registry_wf (gate_alloc s).1.
Proof.
  intros Hwf. apply (registry_wf_gates s); [done|done|simpl; lia|].
  intros id r Hid. pose proof (rw_gate _ _ (rgw_each _ Hwf _ _ Hid)).
  unfold gate_load. simpl. rewrite lookup_insert_ne by lia. done.
Qed.

Lemma fetch_request_wf s : registry_wf s -> registry_wf (fetch_request s).1.
Proof. intros Hwf. by apply (registry_wf_gates s). Qed.

Lemma airtime_wf s b : registry_wf s -> registry_wf (with_airtime_warned b s).
Proof. intros Hwf. by apply (registry_wf_gates s). Qed.

(** A reply map with room made for one more entry stays within its bound. *)
Lemma bounded_insert {V} (m m' : btree V) k v :
  bt_wf m -> bt_len m <= PENDING_REPLIES ->
  (PENDING_REPLIES <= bt_len m -> bt_wf m' /\ bt_len m' <= PENDING_REPLIES - 1) ->
  let m'' := if PENDING_REPLIES <=? bt_len m then m' else m in
  bt_wf (bt_insert k v m'') /\ bt_len (bt_insert k v m'') <= PENDING_REPLIES.
Proof.
  intros Hwf Hlen Hm'. simpl.
  assert (bt_wf (if PENDING_REPLIES <=? bt_len m then m' else m) /\
          bt_len (if PENDING_REPLIES <=? bt_len m then m' else m) <= PENDING_REPLIES - 1) as [Hw Hl].
  { destruct (Z.leb_spec PENDING_REPLIES (bt_len m)); [auto|]. split; [done|lia]. }
  split; [by apply bt_wf_insert|]. rewrite bt_len_insert by done. destruct (bt_contains_key _ _); lia.
Qed.

Lemma bounded_pop {V} (m : btree V) :
  bt_wf m -> bt_len m <= PENDING_REPLIES ->
  PENDING_REPLIES <= bt_len m -> bt_wf (bt_pop_first m) /\ bt_len (bt_pop_first m) <= PENDING_REPLIES - 1.
Proof.
  intros Hwf Hlen Hge. split; [by apply bt_wf_pop_first|]. rewrite bt_len_pop_first.
  unfold PENDING_REPLIES in *. lia.
Qed.

Lemma bounded_remove_oldest {V} (m : btree V) :
  bt_wf m -> bt_len m <= PENDING_REPLIES -> PENDING_REPLIES <= bt_len m ->
  let m' := match bt_keys m with oldest :: _ => bt_remove oldest m | [] => m end in
  bt_wf m' /\ bt_len m' <= PENDING_REPLIES - 1.
Proof.
  intros Hwf Hlen Hge. destruct m as [|[k v] m]; [by vm_compute in Hge|].
  change (bt_wf (bt_remove k ((k, v) :: m)) /\ bt_len (bt_remove k ((k, v) :: m)) <= PENDING_REPLIES - 1).
  split; [by apply bt_wf_remove|].
  rewrite (bt_len_remove k v); [lia|done|]. simpl. by rewrite Z.eqb_refl.
Qed.

Lemma bounded_remove {V} (m : btree V) k :
  bt_wf m /\ bt_len m <= PENDING_REPLIES ->
  bt_wf (bt_remove k m) /\ bt_len (bt_remove k m) <= PENDING_REPLIES.
Proof.
  intros [Hwf Hlen]. split; [by apply bt_wf_remove|].
  etrans; [apply bt_len_filter|done].
Qed.

Lemma sanitize_idem d : sanitize (sanitize d) = sanitize d.
Proof.
  assert (forall (P : Z -> Prop) `{!forall x, Decision (P x)} (l : list Z),
    take 80 (filter P (take 80 (filter P l))) = take 80 (filter P l)) as H.
  { intros P ? l. rewrite filter_true_id; [by rewrite take_take|].
    intros x Hx. apply (subseteq_take 80) in Hx. by apply list_elem_of_filter in Hx as [? _]. }
  unfold sanitize. simpl. by rewrite !H.
Qed.

Lemma sanitize_valid d : status_valid (sanitize d) = status_valid d.
Proof. done. Qed.

Lemma state_changed_false old status :
  state_changed old status = false ->
  exists d, old = Some d /\ same_range d status = true /\ ds_volume d = ds_volume status /\
    ds_speaker d = ds_speaker status /\ ds_failed d = ds_failed status /\
    ds_fixed d = ds_fixed status.
Proof.
  unfold state_changed. destruct old as [d|]; [|done].
  rewrite !orb_false_iff, !negb_false_iff, !eqb_true_iff, Z.eqb_eq. naive_solver.
Qed.

Lemma state_changed_playable old status d :
  state_changed (Some old) status = false -> old = d -> playable d = playable status.
Proof.
  intros (d' & [= <-] & _ & _ & H1 & H2 & H3)%state_changed_false <-.
  unfold playable. by rewrite H1, H2, H3.
Qed.

(** The steps of [update_device] that leave the gate and the queues alone. *)
Lemma observe_fields status r :
  r_playback (observe status r) = r_playback r /\ r_device (observe status r) = r_device r /\
  r_replies (observe status r) = r_replies r /\ r_tone_replies (observe status r) = r_tone_replies r /\
  r_panel_barrier (observe status r) = r_panel_barrier r /\
  r_controls (observe status r) = r_controls r /\ r_peer (observe status r) = r_peer r.
Proof. unfold observe. repeat case_match; done. Qed.

Lemma observe_barrier status r :
  (is_Some (r_panel_barrier r) -> r_unsolicited_volume r = None) ->
  is_Some (r_panel_barrier r) -> r_unsolicited_volume (observe status r) = None.
Proof.
  intros Hb Hs. unfold observe. case_match; [done|].
  destruct ((ds_request_id status =? 0) && playable status).
  - rewrite bool_decide_eq_false_2; [by apply Hb|]. by destruct Hs as [? ->].
  - repeat case_match; by apply Hb.
Qed.

Lemma observe_requests status r :
  bt_wf (r_volume_requests r) /\ bt_len (r_volume_requests r) <= PENDING_REPLIES ->
  bt_wf (r_volume_requests (observe status r)) /\
  bt_len (r_volume_requests (observe status r)) <= PENDING_REPLIES.
Proof.
  intros Hr. unfold observe. repeat case_match; try done; simpl; by apply bounded_remove.
Qed.

Lemma lift_barrier_fields status r :
  r_playback (lift_barrier status r) = r_playback r /\
  r_replies (lift_barrier status r) = r_replies r /\
  r_tone_replies (lift_barrier status r) = r_tone_replies r /\
  r_volume_requests (lift_barrier status r) = r_volume_requests r /\
  r_unsolicited_volume (lift_barrier status r) = r_unsolicited_volume r /\
  (is_Some (r_panel_barrier (lift_barrier status r)) -> is_Some (r_panel_barrier r)).
Proof. unfold lift_barrier. case_match; simpl; split_and!; try done; by intros []. Qed.

Lemma record_reply_fields status r :
  r_playback (record_reply status r) = r_playback r /\ r_device (record_reply status r) = r_device r /\
  r_tone_replies (record_reply status r) = r_tone_replies r /\
  r_volume_requests (record_reply status r) = r_volume_requests r /\
  r_unsolicited_volume (record_reply status r) = r_unsolicited_volume r /\
  r_panel_barrier (record_reply status r) = r_panel_barrier r.
Proof. unfold record_reply. case_match; done. Qed.

Lemma record_reply_bounded status r :
  bt_wf (r_replies r) /\ bt_len (r_replies r) <= PENDING_REPLIES ->
  bt_wf (r_replies (record_reply status r)) /\
  bt_len (r_replies (record_reply status r)) <= PENDING_REPLIES.
Proof.
  intros [Hw Hl]. unfold record_reply. case_match; [done|]. simpl.
  apply bounded_insert; [done..|]. intros Hge. by apply bounded_remove_oldest.
Qed.

Definition absorb (status : DeviceStatus) (r : Receiver) : Receiver :=
  record_reply status (with_device (Some status) (lift_barrier status (observe status r))).

Lemma absorb_wf s status r :
  receiver_wf s r -> status_valid status = true -> sanitize status = status ->
  (gate_load s (r_playback r) = true -> playable status = true) ->
  r_playback (absorb status r) = r_playback r /\ receiver_wf s (absorb status r).
Proof.
  intros [H1 H2 H3 H4 H5 H6 H7] Hv Hs Hp. unfold absorb.
  set (q := with_device (Some status) (lift_barrier status (observe status r))).
  destruct (record_reply_fields status q) as (Ha & Hb & Hc & Hd & He & Hf).
  destruct (observe_fields status r) as (Oa & Ob & Oc & Od & Oe & _).
  destruct (lift_barrier_fields status (observe status r)) as (La & Lb & Lc & Ld & Le & Lf).
  assert (r_playback q = r_playback r) as Hq by (unfold q; simpl; congruence).
  split; [congruence|]. split.
  - by rewrite Ha, Hq.
  - apply record_reply_bounded. unfold q. simpl. by rewrite Lb, Oc.
  - rewrite Hc. unfold q. simpl. by rewrite Lc, Od.
  - rewrite Hd. unfold q. simpl. rewrite Ld. by apply observe_requests.
  - rewrite Hf, He. unfold q. simpl. intros Hsome%Lf. rewrite Le. rewrite Oe in Hsome.
    by apply observe_barrier.
  - rewrite Hb. unfold q. simpl. by intros ? [= <-].
  - rewrite Ha, Hq, Hb. unfold q. simpl. intros Hg. exists status. auto.
Qed.

Lemma update_device_wf s id status : registry_wf s -> registry_wf (update_device s id status).
Proof.
  intros Hwf. unfold update_device. destruct (status_valid status) eqn:Hv; simpl; [|done].
  destruct (get_receiver s id) as [r|] eqn:Hr; [|done].
  set (d := sanitize status). set (b := state_changed (r_device r) d).
  assert (registry_wf (if b then gate_store (r_playback r) false s else s)) as Hwf'.
  { destruct b; [|done]. apply (registry_wf_gates s); [done|done|done|].
    intros id' r' Hr'. rewrite gate_load_store. by case_match. }
  apply modify_wf; [done|]. intros r' Hr'.
  assert (r' = r) as ->.
  { destruct b; unfold get_receiver in *; simpl in *; congruence. }
  apply absorb_wf; [by eapply rgw_each|by unfold d; rewrite sanitize_valid|apply sanitize_idem|].
  destruct b eqn:Hb; [rewrite gate_load_store, Z.eqb_refl; done|].
  intros Hg. pose proof (rgw_each _ Hwf _ _ Hr) as Hrw.
  destruct (rw_playing _ _ Hrw Hg) as (old & Hold & Hplay). unfold b in Hb. rewrite Hold in Hb.
  by rewrite <- (state_changed_playable _ _ _ Hb eq_refl).
Qed.

(** ** What a step does to the receivers and their gates *)

Lemma bt_get_map {V W} (f : V -> W) (m : btree V) k :
  bt_get k ((fun kv => (kv.1, f kv.2)) <$> m) = f <$> bt_get k m.
Proof. induction m as [|[j v] m IH]; simpl; [done|]. by destruct (k =? j). Qed.

Lemma bt_keys_map {V W} (f : V -> W) (m : btree V) :
  bt_keys ((fun kv => (kv.1, f kv.2)) <$> m) = bt_keys m.
Proof. unfold bt_keys. rewrite <- list_fmap_compose. by apply list_fmap_ext. Qed.

Definition offer (message : ControlMessage) (r : Receiver) : Receiver :=
  match try_send (r_controls r) message with Some c => with_controls c r | None => r end.

Lemma get_receiver_broadcast s message id :
  get_receiver (broadcast s message) id = offer message <$> get_receiver s id.
Proof. apply (bt_get_map (offer message)). Qed.

Lemma offer_fields message r :
  r_playback (offer message r) = r_playback r /\ r_device (offer message r) = r_device r /\
  r_unsolicited_volume (offer message r) = r_unsolicited_volume r /\
  r_panel_barrier (offer message r) = r_panel_barrier r.
Proof. unfold offer. by case_match. Qed.

Lemma offer_wf s message r : receiver_wf s r -> receiver_wf s (offer message r).
Proof. unfold offer. case_match; [|done]. by intros []. Qed.

Lemma broadcast_wf s message : registry_wf s -> registry_wf (broadcast s message).
Proof.
  intros [H1 H2 H3 H4]. split; [|done| |].
  - unfold bt_wf, broadcast. simpl. rewrite (bt_keys_map (offer message)). apply H1.
  - intros id r. rewrite get_receiver_broadcast. destruct (get_receiver s id) as [q|] eqn:E; [|done].
    intros [= <-]. eapply receiver_wf_gates; [apply offer_wf; by eapply H3|done|done].
  - intros i1 i2 r1 r2. rewrite !get_receiver_broadcast.
    destruct (get_receiver s i1) as [q1|] eqn:E1; [|done].
    destruct (get_receiver s i2) as [q2|] eqn:E2; [|done]. intros [= <-] [= <-].
    destruct (offer_fields message q1) as (-> & _), (offer_fields message q2) as (-> & _). by eapply H4.
Qed.

Lemma send_cases s id message :
  (send s id message).1 = s \/
  exists r c, get_receiver s id = Some r /\ try_send (r_controls r) message = Some c /\
              (send s id message).1 = modify s id (with_controls c) /\
              (send s id message).2 = Ok tt.
Proof.
  unfold send. destruct (get_receiver s id) as [r|]; [|by left].
  destruct (try_send (r_controls r) message) as [c|] eqn:E; [|by left].
  right. by exists r, c.
Qed.

Lemma with_controls_wf s id c : registry_wf s -> registry_wf (modify s id (with_controls c)).
Proof.
  intros Hwf. apply modify_wf; [done|]. intros r Hr. split; [done|].
  by destruct (rgw_each _ Hwf _ _ Hr).
Qed.

Lemma send_wf s id message : registry_wf s -> registry_wf (send s id message).1.
Proof.
  intros Hwf. destruct (send_cases s id message) as [->|(r & c & _ & _ & -> & _)]; [done|].
  by apply with_controls_wf.
Qed.

Lemma send_request_fst s id message :
  (send_request s id message).1 =
    (send (fetch_request s).1 id (message (fetch_request s).2)).1.
Proof.
  unfold send_request. destruct (fetch_request s) as [s1 q]. simpl. by destruct (send s1 id _).
Qed.

Lemma send_request_wf s id message : registry_wf s -> registry_wf (send_request s id message).1.
Proof. intros. rewrite send_request_fst. by apply send_wf, fetch_request_wf. Qed.

Lemma record_volume_request_wf s q b c r :
  receiver_wf s r -> receiver_wf s (record_volume_request q b (with_controls c r)).
Proof.
  intros [H1 H2 H3 [H4 H4'] H5 H6 H7]. unfold record_volume_request.
  pose proof (bounded_insert (r_volume_requests r) (bt_pop_first (r_volume_requests r)) q tt H4 H4'
    (bounded_pop _ H4 H4')) as Hins.
  destruct b; split; simpl; try done.
Qed.

Lemma volume_request_cases s id index purpose barrier :
  (volume_request_with_barrier s id index purpose barrier).1 = (fetch_request s).1 \/
  exists r c, get_receiver s id = Some r /\
    (volume_request_with_barrier s id index purpose barrier).1 =
      modify (fetch_request s).1 id (fun r =>
        record_volume_request (fetch_request s).2 barrier (with_controls c r)).
Proof.
  unfold volume_request_with_barrier. destruct (fetch_request s) as [s1 q] eqn:E.
  assert (get_receiver s1 id = get_receiver s id) as -> by (injection E as <- _; done).
  destruct (get_receiver s id) as [r|]; [|by left].
  destruct (try_send (r_controls r) _) as [c|]; [|by left]. right. by exists r, c.
Qed.

Lemma volume_request_wf s id index purpose barrier :
  registry_wf s -> registry_wf (volume_request_with_barrier s id index purpose barrier).1.
Proof.
  intros Hwf%fetch_request_wf.
  destruct (volume_request_cases s id index purpose barrier) as [->|(r & c & _ & ->)]; [done|].
  apply modify_wf; [done|]. intros q Hq. split.
  - unfold record_volume_request. by destruct barrier.
  - apply record_volume_request_wf. by eapply rgw_each.
Qed.

Lemma update_tone_wf s id q p f : registry_wf s -> registry_wf (update_tone s id q p f).
Proof.
  intros Hwf. unfold update_tone. case_match; [done|]. apply modify_wf; [done|].
  intros r Hr. split; [done|]. destruct (rgw_each _ Hwf _ _ Hr) as [H1 H2 [H3 H3'] H4 H5 H6 H7].
  split; simpl; try done. apply bounded_insert; [done..|]. by apply bounded_pop.
Qed.

Lemma take_tone_reply_wf s id q : registry_wf s -> registry_wf (take_tone_reply s id q).1.
Proof.
  intros Hwf. unfold take_tone_reply. destruct (get_receiver s id) as [r|] eqn:Hr; [|done].
  apply modify_wf; [done|]. intros r' Hr'. split; [done|].
  destruct (rgw_each _ Hwf _ _ Hr') as [H1 H2 H3 H4 H5 H6 H7].
  split; simpl; try done. by apply bounded_remove.
Qed.

Lemma take_reply_wf s id q : registry_wf s -> registry_wf (take_reply s id q).1.
Proof.
  intros Hwf. unfold take_reply. destruct (get_receiver s id) as [r|] eqn:Hr; [|done].
  apply modify_wf; [done|]. intros r' Hr'. split; [done|].
  destruct (rgw_each _ Hwf _ _ Hr') as [H1 H2 H3 H4 H5 H6 H7].
  split; simpl; try done. by apply bounded_remove.
Qed.

Lemma take_unsolicited_wf s id : registry_wf s -> registry_wf (take_unsolicited_volume s id).1.
Proof.
  intros Hwf. unfold take_unsolicited_volume. destruct (get_receiver s id) as [r|] eqn:Hr; [|done].
  apply modify_wf; [done|]. intros r' Hr'. split; [done|].
  by destruct (rgw_each _ Hwf _ _ Hr').
Qed.

(** The state of [register] before the airtime warning. *)
Definition admitted (s : Registry) (peer : SocketAddr) (controls : Sender) : Registry :=
  let s' := (gate_alloc s).1 in
  mkRegistry (wrapping_add 64 (reg_next_id s) 1)
    (bt_insert (reg_next_id s)
       (mkReceiver peer controls None [] [] (reg_next_gate s) None None [] None) (reg_receivers s))
    (reg_airtime_warned s') (reg_gates s') (reg_next_gate s') (reg_next_request s').

Lemma register_cases s peer controls :
  (register s peer controls).2 = reg_next_id s /\
  ((register s peer controls).1 = admitted s peer controls \/
   (register s peer controls).1 = with_airtime_warned true (admitted s peer controls)).
Proof. unfold register. simpl. case_match; [split; [done|by right]|split; [done|by left]]. Qed.

Lemma get_receiver_admitted s peer controls id :
  get_receiver (admitted s peer controls) id =
    if id =? reg_next_id s
    then Some (mkReceiver peer controls None [] [] (reg_next_gate s) None None [] None)
    else get_receiver s id.
Proof. apply bt_get_insert. Qed.

Lemma gate_load_alloc s l :
  gate_load (gate_alloc s).1 l = if l =? reg_next_gate s then false else gate_load s l.
Proof.
  unfold gate_load. simpl. destruct (Z.eqb_spec l (reg_next_gate s)) as [->|].
  - by rewrite lookup_insert_eq.
  - by rewrite lookup_insert_ne.
Qed.

Lemma admitted_wf s peer controls : registry_wf s -> registry_wf (admitted s peer controls).
Proof.
  intros Hwf. pose proof Hwf as [H1 H2 H3 H4]. pose proof (gate_alloc_wf _ Hwf) as Hwf'. split.
  - apply bt_wf_insert, H1.
  - simpl. lia.
  - intros id r. rewrite get_receiver_admitted. destruct (Z.eqb_spec id (reg_next_id s)).
    + intros [= <-]. split; simpl; try done; [lia|by split; [constructor|]..|].
      change (gate_load (gate_alloc s).1 (reg_next_gate s) = true -> exists d, None = Some d /\ playable d = true).
      rewrite gate_load_alloc, Z.eqb_refl. done.
    + intros Hr. eapply receiver_wf_gates; [by eapply (rgw_each _ Hwf')|done|done].
  - intros i1 i2 r1 r2. rewrite !get_receiver_admitted.
    destruct (Z.eqb_spec i1 (reg_next_id s)), (Z.eqb_spec i2 (reg_next_id s)); intros Hr1 Hr2 Heq.
    + congruence.
    + simplify_eq/=. pose proof (rw_gate _ _ (H3 _ _ Hr2)). lia.
    + simplify_eq/=. pose proof (rw_gate _ _ (H3 _ _ Hr1)). lia.
    + by eapply H4.
Qed.

Lemma register_wf s peer controls : registry_wf s -> registry_wf (register s peer controls).1.
Proof.
  intros Hwf. destruct (register_cases s peer controls) as [_ [-> | ->]].
  - by apply admitted_wf.
  - by apply airtime_wf, admitted_wf.
Qed.

Definition without (s : Registry) (id : Z) : Registry := with_receivers (bt_remove id (reg_receivers s)) s.

Lemma get_receiver_without s id id' :
  get_receiver (without s id) id' = if id' =? id then None else get_receiver s id'.
Proof. apply bt_get_remove. Qed.

Lemma without_wf s id : registry_wf s -> registry_wf (without s id).
Proof.
  intros [H1 H2 H3 H4]. split; [by apply bt_wf_remove|done| |].
  - intros id' r. rewrite get_receiver_without. case_match; [done|]. intros Hr.
    eapply receiver_wf_gates; [by eapply H3|done|done].
  - intros i1 i2 r1 r2. rewrite !get_receiver_without. do 2 (case_match; [done|]). by apply H4.
Qed.

Lemma remove_cases s id :
  let s1 := match get_receiver s id with
            | Some _ => store_each (fun _ => false) (without s id) | None => without s id end in
  remove s id = s1 \/ remove s id = with_airtime_warned false s1.
Proof. unfold remove. simpl. fold (without s id). case_match; [by right|by left]. Qed.

Lemma remove_wf s id : registry_wf s -> registry_wf (remove s id).
Proof.
  intros Hwf. pose proof (without_wf s id Hwf) as Hwf'.
  assert (registry_wf match get_receiver s id with
            | Some _ => store_each (fun _ => false) (without s id) | None => without s id end) as H
    by (destruct (get_receiver s id); [by apply store_each_false_wf|done]).
  destruct (remove_cases s id) as [-> | ->]; [done|by apply airtime_wf].
Qed.

Lemma approve_ready_spec s expected :
  approve_ready s expected = true <->
  forall id e, (id, e) ∈ expected ->
    exists r d, get_receiver s id = Some r /\ r_device r = Some d /\ still_as e d = true.
Proof.
  unfold approve_ready. rewrite forallb_true. split.
  - intros H id e Hin. specialize (H _ Hin). simpl in H.
    destruct (get_receiver s id) as [r|] eqn:E; [|done]. simpl in H.
    destruct (r_device r) as [d|] eqn:E'; [|done]. eauto.
  - intros H [id e] Hin. destruct (H _ _ Hin) as (r & d & -> & Hd & Hs). simpl. by rewrite Hd.
Qed.

Lemma approved_in (expected : list (Z * DeviceStatus)) id :
  existsb (fun '(approved, _) => approved =? id) expected = true <-> id ∈ expected.*1.
Proof.
  rewrite existsb_true, list_elem_of_fmap. split.
  - intros ([k d] & Hin & ->%Z.eqb_eq). by exists (id, d).
  - intros ([k d] & -> & Hin). exists (k, d). split; [done|]. apply Z.eqb_refl.
Qed.

Lemma approve_load s expected id r :
  registry_wf s -> get_receiver s id = Some r ->
  gate_load (approve s expected) (r_playback r) = true <->
  approve_ready s expected = true /\ id ∈ expected.*1.
Proof.
  intros Hwf Hr. unfold approve. rewrite (store_each_load _ _ id r Hwf Hr).
  by rewrite andb_true_iff, approved_in.
Qed.

Lemma still_as_playable e d : still_as e d = true -> playable d = true.
Proof. unfold still_as. rewrite !andb_true_iff. tauto. Qed.

Lemma approve_wf s expected : registry_wf s -> registry_wf (approve s expected).
Proof.
  intros Hwf.
  destruct (store_each_frame (fun id => approve_ready s expected &&
    existsb (fun '(approved, _) => approved =? id) expected) s) as (Hr & Hn & _).
  fold (approve s expected) in Hr, Hn. pose proof Hwf as [H1 H2 H3 H4].
  split; unfold get_receiver in *; rewrite ?Hr; [done|lia| |done].
  intros id r Hid. destruct (H3 id r Hid) as [W1 W2 W3 W4 W5 W6 W7]. split; try done; [lia|].
  intros [Hready Hin]%(approve_load s expected id r Hwf Hid).
  apply list_elem_of_fmap in Hin as ([id' e] & -> & Hin).
  destruct (proj1 (approve_ready_spec s expected) Hready _ _ Hin) as (r' & d & Hr' & Hd & Hs).
  simpl in Hid. unfold get_receiver in Hr'. simplify_eq. exists d. split; [done|].
  by eapply still_as_playable.
Qed.

Lemma registry_step_wf s op : registry_wf s -> registry_wf (registry_step s op).
Proof.
  intros Hwf. destruct op; simpl;
    eauto using register_wf, remove_wf, broadcast_wf, store_each_false_wf, approve_wf, send_wf,
      send_request_wf, volume_request_wf, update_tone_wf, take_tone_reply_wf, take_reply_wf,
      take_unsolicited_wf, update_device_wf, with_controls_wf.
  unfold playback_gate. destruct (get_receiver s id); [done|by apply gate_alloc_wf].
Qed.

Lemma registry_run_wf ops s : registry_wf s -> registry_wf (registry_run s ops).
Proof. revert s. induction ops as [|op ops IH]; intros s Hwf; simpl; [done|]. by apply IH, registry_step_wf. Qed.

Lemma registry_default_wf : registry_wf registry_default.
Proof. split; try done. constructor. Qed.

(** ** No step but [approve] opens a gate *)

(** The two reports agree in everything an approval depends on. *)
Definition agree (old new : option DeviceStatus) : Prop :=
  new = old \/
  exists d d', old = Some d /\ new = Some d' /\ same_range d d' = true /\
    ds_volume d = ds_volume d' /\ playable d = playable d'.

(** Whoever plays in [s'] already played in [s], with the same state reported. *)
Definition plays_back (s s' : Registry) : Prop :=
  forall id r', get_receiver s' id = Some r' -> gate_load s' (r_playback r') = true ->
    exists r, get_receiver s id = Some r /\ gate_load s (r_playback r) = true /\
              agree (r_device r) (r_device r').

Lemma plays_back_refl s : plays_back s s.
Proof. intros id r Hr Hg. exists r. split_and!; [done..|by left]. Qed.

Lemma same_range_trans a b c : same_range a b = true -> same_range b c = true -> same_range a c = true.
Proof.
  unfold same_range. rewrite !andb_true_iff, !bool_decide_eq_true, !Z.eqb_eq.
  intros [[-> ->] ->] [[-> ->] ->]. done.
Qed.

Lemma same_range_sym a b : same_range a b = same_range b a.
Proof.
  unfold same_range. rewrite (Z.eqb_sym (ds_minimum a)), (Z.eqb_sym (ds_maximum a)).
  do 2 f_equal. apply bool_decide_ext. done.
Qed.

Lemma agree_trans a b c : agree a b -> agree b c -> agree a c.
Proof.
  intros [->|(d & d' & -> & -> & H1 & H2 & H3)] Hbc; [done|].
  destruct Hbc as [->|(e & e' & He & -> & G1 & G2 & G3)]; [right; by exists d, d'|].
  injection He as <-. right. exists d, e'. split_and!; try congruence.
  by eapply same_range_trans.
Qed.

Lemma plays_back_trans s1 s2 s3 : plays_back s1 s2 -> plays_back s2 s3 -> plays_back s1 s3.
Proof.
  intros H12 H23 id r3 Hr3 Hg3. destruct (H23 _ _ Hr3 Hg3) as (r2 & Hr2 & Hg2 & Ha).
  destruct (H12 _ _ Hr2 Hg2) as (r1 & Hr1 & Hg1 & Hb). exists r1.
  split_and!; [done..|by eapply agree_trans].
Qed.

Lemma plays_back_modify s id f :
  (forall r, r_playback (f r) = r_playback r /\ r_device (f r) = r_device r) ->
  plays_back s (modify s id f).
Proof.
  intros Hf i r'. rewrite get_receiver_modify, gate_load_modify.
  destruct (Z.eqb_spec i id) as [->|].
  - destruct (get_receiver s id) as [r|]; simpl; [|done]. intros [= <-].
    destruct (Hf r) as [-> ->]. intros. exists r. split_and!; [done..|by left].
  - intros. exists r'. split_and!; [done..|by left].
Qed.

Lemma plays_back_frame s s' :
  reg_receivers s' = reg_receivers s ->
  (forall id r, get_receiver s id = Some r -> gate_load s' (r_playback r) = true ->
     gate_load s (r_playback r) = true) ->
  plays_back s s'.
Proof.
  intros Hr Hg id r Hid Hload. unfold get_receiver in *. rewrite Hr in Hid.
  exists r. split_and!; [done|by eapply Hg|by left].
Qed.

Lemma plays_back_deny s : registry_wf s -> plays_back s (store_each (fun _ => false) s).
Proof.
  intros Hwf. apply plays_back_frame; [apply store_each_frame|].
  intros id r Hid. by rewrite (store_each_load _ _ _ _ Hwf Hid).
Qed.

Lemma plays_back_alloc s : registry_wf s -> plays_back s (gate_alloc s).1.
Proof.
  intros Hwf. apply plays_back_frame; [done|].
  intros id r Hid. rewrite gate_load_alloc. by case_match.
Qed.

Lemma plays_back_send s id message : plays_back s (send s id message).1.
Proof.
  destruct (send_cases s id message) as [->|(r & c & _ & _ & -> & _)]; [apply plays_back_refl|].
  by apply plays_back_modify.
Qed.

Lemma plays_back_fetch s : plays_back s (fetch_request s).1.
Proof. by apply plays_back_frame. Qed.

Lemma plays_back_register s peer controls :
  registry_wf s -> plays_back s (register s peer controls).1.
Proof.
  intros Hwf id r. assert (forall id, get_receiver (register s peer controls).1 id =
                                 get_receiver (admitted s peer controls) id) as Hget
    by (intros; by destruct (register_cases s peer controls) as [_ [-> | ->]]).
  assert (forall l, gate_load (register s peer controls).1 l = gate_load (gate_alloc s).1 l) as Hload
    by (intros; by destruct (register_cases s peer controls) as [_ [-> | ->]]).
  rewrite Hget, Hload, get_receiver_admitted, gate_load_alloc.
  destruct (Z.eqb_spec id (reg_next_id s)).
  - intros [= <-]. simpl. by rewrite Z.eqb_refl.
  - intros Hr. case_match; [done|]. intros Hg. exists r. split_and!; [done..|by left].
Qed.

Lemma plays_back_remove s id : registry_wf s -> plays_back s (remove s id).
Proof.
  intros Hwf. pose proof (without_wf s id Hwf) as Hwf'.
  assert (plays_back s (without s id)) as Hb.
  { intros i r. rewrite get_receiver_without. case_match; [done|]. intros Hr Hg.
    exists r. split_and!; [done..|by left]. }
  destruct (remove_cases s id) as [-> | ->].
  - destruct (get_receiver s id); [|done]. eapply plays_back_trans; [exact Hb|by apply plays_back_deny].
  - eapply plays_back_trans; [|by apply plays_back_frame].
    destruct (get_receiver s id); [|done]. eapply plays_back_trans; [exact Hb|by apply plays_back_deny].
Qed.

Lemma absorb_fields status r :
  r_playback (absorb status r) = r_playback r /\ r_device (absorb status r) = Some status.
Proof.
  unfold absorb. destruct (record_reply_fields status
    (with_device (Some status) (lift_barrier status (observe status r)))) as (-> & -> & _). simpl.
  destruct (lift_barrier_fields status (observe status r)) as (-> & _).
  by destruct (observe_fields status r) as (-> & _).
Qed.

Lemma plays_back_update s id status : registry_wf s -> plays_back s (update_device s id status).
Proof.
  intros Hwf. unfold update_device. case_match; [apply plays_back_refl|].
  destruct (get_receiver s id) as [r|] eqn:Hr; [|apply plays_back_refl].
  set (d := sanitize status). intros i r'. fold (absorb d). rewrite get_receiver_modify, gate_load_modify.
  assert (forall i, get_receiver (if state_changed (r_device r) d
            then gate_store (r_playback r) false s else s) i = get_receiver s i) as Hget by (intros; by case_match).
  rewrite !Hget, Hr. simpl. destruct (Z.eqb_spec i id) as [->|Hne].
  - intros [= <-]. destruct (absorb_fields d r) as [-> Hd].
    destruct (state_changed (r_device r) d) eqn:Hc.
    + by rewrite gate_load_store, Z.eqb_refl.
    + intros Hg. exists r. split_and!; [done..|]. right.
      pose proof Hc as (old & Hold & H1 & H2 & H3 & H4 & H5)%state_changed_false.
      exists old, d. split_and!; try done. unfold playable. by rewrite H3, H4, H5.
  - intros Hr' Hg. exists r'. split_and!; [done| |by left].
    destruct (state_changed (r_device r) d); [|done]. rewrite gate_load_store in Hg.
    by destruct (r_playback r' =? r_playback r).
Qed.

Definition approves (op : registry_op) : bool :=
  match op with RegApprove _ => true | _ => false end.

Lemma registry_step_plays_back s op :
  registry_wf s -> approves op = false -> plays_back s (registry_step s op).
Proof.
  intros Hwf Hop. destruct op; simpl in *; try done.
  - by apply plays_back_register.
  - by apply plays_back_remove.
  - intros i r. rewrite get_receiver_broadcast. destruct (get_receiver s i) as [q|] eqn:E; [|done].
    intros [= <-]. destruct (offer_fields message q) as (-> & Hd & _). intros Hg.
    exists q. split_and!; [done..|left; done].
  - unfold playback_gate. destruct (get_receiver s id); [apply plays_back_refl|by apply plays_back_alloc].
  - by apply plays_back_deny.
  - apply plays_back_send.
  - unfold request. rewrite send_request_fst. eapply plays_back_trans; [apply plays_back_fetch|apply plays_back_send].
  - destruct (volume_request_cases s id index purpose barrier) as [->|(r & c & _ & ->)];
      [apply plays_back_fetch|]. eapply plays_back_trans; [apply plays_back_fetch|].
    apply plays_back_modify. intros q. unfold record_volume_request. by destruct barrier.
  - unfold calibration_request. rewrite send_request_fst.
    eapply plays_back_trans; [apply plays_back_fetch|apply plays_back_send].
  - unfold tone_request. rewrite send_request_fst.
    eapply plays_back_trans; [apply plays_back_fetch|apply plays_back_send].
  - unfold update_tone. case_match; [apply plays_back_refl|by apply plays_back_modify].
  - unfold take_tone_reply. destruct (get_receiver s id); [by apply plays_back_modify|apply plays_back_refl].
  - unfold take_reply. destruct (get_receiver s id); [by apply plays_back_modify|apply plays_back_refl].
  - unfold take_unsolicited_volume. destruct (get_receiver s id); [by apply plays_back_modify|apply plays_back_refl].
  - by apply plays_back_update.
  - by apply plays_back_modify.
Qed.

Lemma registry_run_plays_back s ops :
  registry_wf s -> Forall (fun op => approves op = false) ops -> plays_back s (registry_run s ops).
Proof.
  revert s. induction ops as [|op ops IH]; intros s Hwf Hops; simpl; [apply plays_back_refl|].
  inversion Hops; subst. eapply plays_back_trans; [by apply registry_step_plays_back|].
  apply IH; [by apply registry_step_wf|done].
Qed.

Lemma still_as_agree e d d' :
  still_as e d = true -> agree (Some d) d' -> exists d'', d' = Some d'' /\ still_as e d'' = true.
Proof.
  intros Hs [->|(a & b & [= <-] & -> & H1 & H2 & H3)]; [by exists d|]. exists b. split; [done|].
  unfold still_as in *. rewrite !andb_true_iff, Z.eqb_eq in Hs. destruct Hs as [[Hr Hv] Hp].
  rewrite <- H3, <- H2, Hp, Hv, Z.eqb_refl, !andb_true_r.
  eapply same_range_trans; [|exact Hr]. by rewrite same_range_sym.
Qed.

(** Every receiver that plays is one of [expected], and still reports the
    device, range and volume it was approved with on a working speaker. *)
Definition playing_as (expected : list (Z * DeviceStatus)) (s : Registry) : Prop :=
  forall id r, get_receiver s id = Some r -> gate_load s (r_playback r) = true ->
    exists d e, r_device r = Some d /\ (id, e) ∈ expected /\ still_as e d = true.

Lemma approve_playing_as s expected : registry_wf s -> playing_as expected (approve s expected).
Proof.
  intros Hwf id r Hr Hg. unfold approve in Hr. rewrite get_receiver_store_each in Hr.
  apply (approve_load s expected id r Hwf Hr) in Hg as [Hready Hin].
  apply list_elem_of_fmap in Hin as ([id' e] & -> & Hin).
  destruct (proj1 (approve_ready_spec s expected) Hready _ _ Hin) as (r' & d & Hr' & Hd & Hs).
  simpl in *. simplify_eq. by exists d, e.
Qed.

Lemma playing_as_back expected s s' : playing_as expected s -> plays_back s s' -> playing_as expected s'.
Proof.
  intros Hp Hb id r' Hr' Hg'. destruct (Hb _ _ Hr' Hg') as (r & Hr & Hg & Ha).
  destruct (Hp _ _ Hr Hg) as (d & e & Hd & Hin & Hs). rewrite Hd in Ha.
  destruct (still_as_agree _ _ _ Hs Ha) as (d' & Hd' & Hs'). by exists d', e.
Qed.

(** ** Unsolicited volume changes *)

Definition unsolicited (s : Registry) (id : Z) : option Z := get_receiver s id ≫= r_unsolicited_volume.
Definition barrier_of (s : Registry) (id : Z) : option Z := get_receiver s id ≫= r_panel_barrier.

Lemma take_unsolicited_snd s id : (take_unsolicited_volume s id).2 = unsolicited s id.
Proof. unfold take_unsolicited_volume, unsolicited. by destruct (get_receiver s id). Qed.

Lemma has_panel_barrier_of s id : has_panel_barrier s id = bool_decide (is_Some (barrier_of s id)).
Proof. unfold has_panel_barrier, barrier_of. by destruct (get_receiver s id). Qed.

(** Projections of a receiver that an update leaves alone. *)
Lemma modify_proj {A} (p : Receiver -> option A) s id i f :
  (forall r, p (f r) = p r) -> get_receiver (modify s id f) i ≫= p = get_receiver s i ≫= p.
Proof.
  intros Hf. rewrite get_receiver_modify. destruct (Z.eqb_spec i id) as [->|]; [|done].
  destruct (get_receiver s id) as [r|]; simpl; [apply Hf|done].
Qed.

Lemma absorb_unsolicited status r :
  ds_request_id status <> 0 -> r_unsolicited_volume r = None -> r_unsolicited_volume (absorb status r) = None.
Proof.
  intros Hq Hu. unfold absorb. destruct (record_reply_fields status
    (with_device (Some status) (lift_barrier status (observe status r)))) as (_ & _ & _ & _ & -> & _). simpl.
  destruct (lift_barrier_fields status (observe status r)) as (_ & _ & _ & _ & -> & _).
  unfold observe. apply Z.eqb_neq in Hq. rewrite Hq. simpl. repeat case_match; done.
Qed.

Lemma absorb_barrier status r :
  r_panel_barrier (absorb status r) =
    if bool_decide (r_panel_barrier r = Some (ds_request_id status)) then None else r_panel_barrier r.
Proof.
  unfold absorb. destruct (record_reply_fields status
    (with_device (Some status) (lift_barrier status (observe status r)))) as (_ & _ & _ & _ & _ & ->). simpl.
  destruct (observe_fields status r) as (_ & _ & _ & _ & Hb & _).
  unfold lift_barrier. rewrite Hb. by case_bool_decide.
Qed.

Lemma update_device_cases s id status :
  update_device s id status = s \/
  exists s1, reg_receivers s1 = reg_receivers s /\
             update_device s id status = modify s1 id (absorb (sanitize status)) /\ status_valid status = true.
Proof.
  unfold update_device. destruct (status_valid status); simpl; [|by left].
  destruct (get_receiver s id) as [r|]; [|by left]. right.
  exists (if state_changed (r_device r) (sanitize status) then gate_store (r_playback r) false s else s).
  split; [|done]. by case_match.
Qed.

(** A report about [id] that answers no request. *)
Definition unsolicited_report (id : Z) (op : registry_op) : bool :=
  match op with
  | RegUpdateDevice id' d => (id' =? id) && (ds_request_id d =? 0)
  | _ => false
  end.

(** The projection of a receiver survives every step, except for the ones
    named by the three side conditions. *)
Lemma registry_step_proj {A} (p : Receiver -> option A) s op id :
  (forall c r, p (with_controls c r) = p r) ->
  (forall m r, p (with_tone_replies m r) = p r) ->
  (forall m r, p (with_replies m r) = p r) ->
  match op with
  | RegRegister _ _ => reg_next_id s <> id
  | RegRemove id' => id' <> id
  | RegVolume _ _ _ b => forall q c r, p (record_volume_request q b (with_controls c r)) = p r
  | RegTakeUnsolicited id' => id' <> id \/ forall v r, p (with_unsolicited v r) = p r
  | RegUpdateDevice id' _ => id' <> id
  | _ => True
  end ->
  get_receiver (registry_step s op) id ≫= p = get_receiver s id ≫= p.
Proof.
  intros Hc Ht Hrep Hop.
  assert (forall s1 i m, get_receiver (send s1 i m).1 id ≫= p = get_receiver s1 id ≫= p) as Hsend.
  { intros s1 i m. destruct (send_cases s1 i m) as [->|(r & c & _ & _ & -> & _)]; [done|].
    by apply modify_proj. }
  destruct op; simpl in *.
  - destruct (register_cases s peer controls) as [_ [-> | ->]].
    all: change (get_receiver (admitted s peer controls) id ≫= p = get_receiver s id ≫= p).
    all: rewrite get_receiver_admitted; destruct (Z.eqb_spec id (reg_next_id s)); [congruence|done].
  - assert (get_receiver (remove s id0) id = get_receiver s id) as ->; [|done].
    assert (get_receiver (without s id0) id = get_receiver s id) as Hw.
    { rewrite get_receiver_without. by destruct (Z.eqb_spec id id0); [congruence|]. }
    destruct (remove_cases s id0) as [-> | ->]; destruct (get_receiver s id0); try done.
    + by rewrite get_receiver_store_each.
    + change (get_receiver (store_each (fun _ => false) (without s id0)) id = get_receiver s id).
      by rewrite get_receiver_store_each.
  - rewrite get_receiver_broadcast. destruct (get_receiver s id) as [r|]; simpl; [|done].
    unfold offer. case_match; [apply Hc|done].
  - unfold playback_gate. by destruct (get_receiver s id0).
  - unfold deny_all. by rewrite get_receiver_store_each.
  - unfold approve. by rewrite get_receiver_store_each.
  - apply Hsend.
  - unfold request. rewrite send_request_fst, Hsend. done.
  - destruct (volume_request_cases s id0 index purpose barrier) as [->|(r & c & _ & ->)]; [done|].
    rewrite modify_proj; [done|]. intros. apply Hop.
  - unfold calibration_request. rewrite send_request_fst, Hsend. done.
  - unfold tone_request. rewrite send_request_fst, Hsend. done.
  - unfold update_tone. case_match; [done|]. by apply modify_proj.
  - unfold take_tone_reply. destruct (get_receiver s id0); [|done]. by apply modify_proj.
  - unfold take_reply. destruct (get_receiver s id0); [|done]. by apply modify_proj.
  - unfold take_unsolicited_volume. destruct (get_receiver s id0); [|done].
    destruct Hop as [Hne|Hop]; [|by apply modify_proj]. simpl. rewrite get_receiver_modify.
    by destruct (Z.eqb_spec id id0); [congruence|].
  - destruct (update_device_cases s id0 status) as [->|(s1 & Hs1 & -> & _)]; [done|].
    rewrite get_receiver_modify. destruct (Z.eqb_spec id id0); [congruence|].
    unfold get_receiver. by rewrite Hs1.
  - by apply modify_proj.
Qed.

Lemma registry_step_unsolicited s op id :
  unsolicited_report id op = false -> unsolicited s id = None -> unsolicited (registry_step s op) id = None.
Proof.
  intros Hop Hu.
  assert (forall q b c r, r_unsolicited_volume r = None ->
    r_unsolicited_volume (record_volume_request q b (with_controls c r)) = None) as Hrec
    by (intros; unfold record_volume_request; by case_match).
  destruct op as [peer c|i| | | | | | |i index purpose b| | | | | |i|i d|i c];
    try (unfold unsolicited in *; rewrite registry_step_proj; done).
  - unfold unsolicited. simpl. destruct (register_cases s peer c) as [_ [-> | ->]].
    all: change (get_receiver (admitted s peer c) id ≫= r_unsolicited_volume = None).
    all: rewrite get_receiver_admitted; case_match; [done|exact Hu].
  - destruct (decide (i = id)) as [->|]; [|unfold unsolicited in *; by rewrite registry_step_proj].
    unfold unsolicited. simpl.
    assert (get_receiver (without s id) id = None) as Hw by (rewrite get_receiver_without; by rewrite Z.eqb_refl).
    assert (get_receiver (remove s id) id = None) as ->; [|done].
    destruct (remove_cases s id) as [-> | ->]; destruct (get_receiver s id); try done.
    + by rewrite get_receiver_store_each.
    + change (get_receiver (store_each (fun _ => false) (without s id)) id = None).
      by rewrite get_receiver_store_each.
  - unfold unsolicited in *. simpl.
    destruct (volume_request_cases s i index purpose b) as [->|(r & c & _ & ->)]; [done|].
    rewrite get_receiver_modify. destruct (Z.eqb_spec id i) as [->|]; [|done].
    change (get_receiver (fetch_request s).1 i) with (get_receiver s i).
    destruct (get_receiver s i) as [q|]; simpl in *; [by apply Hrec|done].
  - unfold unsolicited in *. simpl. unfold take_unsolicited_volume.
    destruct (get_receiver s i) eqn:E; [|done]. simpl. rewrite get_receiver_modify.
    destruct (Z.eqb_spec id i) as [->|]; [by rewrite E|done].
  - unfold unsolicited in *. simpl.
    destruct (update_device_cases s i d) as [->|(s1 & Hs1 & -> & _)]; [done|].
    rewrite get_receiver_modify. unfold get_receiver in *. rewrite Hs1.
    destruct (Z.eqb_spec id i) as [->|]; [|done].
    destruct (bt_get i (reg_receivers s)) as [q|]; simpl in *; [|done].
    rewrite Z.eqb_refl in Hop. simpl in Hop. by apply absorb_unsolicited; [apply Z.eqb_neq|].
Qed.

Lemma registry_step_barrier s op id :
  has_panel_barrier s id = true -> has_panel_barrier (registry_step s op) id = false ->
  match op with
  | RegRemove id' => id' = id
  | RegRegister _ _ => reg_next_id s = id
  | RegUpdateDevice id' d => id' = id /\ barrier_of s id = Some (ds_request_id d) /\ status_valid d = true
  | _ => False
  end.
Proof.
  rewrite !has_panel_barrier_of, bool_decide_eq_true, bool_decide_eq_false. intros Hb Hn.
  destruct op as [peer c|i| | | | | | |i index purpose b| | | | | |i|i d|i c];
    try (destruct Hn; unfold barrier_of in *; rewrite registry_step_proj; done || by right).
  - destruct (decide (reg_next_id s = id)) as [|Hne]; [done|].
    destruct Hn. unfold barrier_of in *. by rewrite registry_step_proj.
  - destruct (decide (i = id)) as [|Hne]; [done|].
    destruct Hn. unfold barrier_of in *. by rewrite registry_step_proj.
  - destruct b; [|destruct Hn; unfold barrier_of in *; by rewrite registry_step_proj].
    destruct Hn. unfold barrier_of in *. simpl.
    destruct (volume_request_cases s i index purpose true) as [->|(r & c & _ & ->)]; [done|].
    rewrite get_receiver_modify. destruct (Z.eqb_spec id i) as [->|]; [|done].
    change (get_receiver (fetch_request s).1 i) with (get_receiver s i).
    destruct (get_receiver s i) as [q|]; simpl in *; [by eexists|done].
  - destruct (decide (i = id)) as [->|Hne];
      [|destruct Hn; unfold barrier_of in *; by rewrite registry_step_proj].
    unfold barrier_of in *. simpl in Hn.
    destruct (update_device_cases s id d) as [Heq|(s1 & Hs1 & Heq & Hv)]; rewrite Heq in Hn; [done|].
    rewrite get_receiver_modify, Z.eqb_refl in Hn. unfold get_receiver in *. rewrite Hs1 in Hn.
    destruct (bt_get id (reg_receivers s)) as [q|]; simpl in *; [|by destruct Hb].
    rewrite absorb_barrier in Hn. case_bool_decide as Hq; [|done]. done.
Qed.

(** ** The properties *)

(** C5. A phone plays only what was approved: after [approve expected], as long
    as no other approval is given, whatever the sessions and the panel do —
    phones joining and leaving, reports arriving, requests being sent, queues
    filling up — every receiver whose gate is open is one of [expected] and
    still reports the same device and range, exactly the approved volume, and
    an adjustable, working speaker. *)
Theorem playing_only_as_approved (s : Registry) (expected : list (Z * DeviceStatus))
  (ops : list registry_op)
  (Hwf : registry_wf s) (Hops : Forall (fun op => approves op = false) ops) :
  playing_as expected (registry_run (approve s expected) ops).
Proof.
  eapply playing_as_back; [by apply approve_playing_as|].
  apply registry_run_plays_back; [by apply approve_wf|done].
Qed.

(** The registry's representation invariant holds in every reachable
    state: keys are ordered, no two receivers share a gate, the reply maps and
    the request set hold at most 32 entries, stored reports are validated and
    sanitised, a pending panel request implies that no phone-side change is
    recorded, and an open gate belongs to a working adjustable speaker. *)
Theorem registry_reachable_wf (ops : list registry_op) :
  registry_wf (registry_run registry_default ops).
Proof. apply registry_run_wf, registry_default_wf. Qed.

(** Approval is all or nothing: it opens exactly the gates of the listed
    receivers when every one of them still reports what was expected, and
    otherwise closes every gate. *)
Theorem approve_all_or_nothing (s : Registry) (expected : list (Z * DeviceStatus)) (id : Z)
  (r : Receiver) (Hwf : registry_wf s) (Hr : get_receiver s id = Some r) :
  gate_load (approve s expected) (r_playback r) = true <->
  id ∈ expected.*1 /\
  forall id' e, (id', e) ∈ expected ->
    exists r' d, get_receiver s id' = Some r' /\ r_device r' = Some d /\ still_as e d = true.
Proof. rewrite (approve_load s expected id r Hwf Hr), approve_ready_spec. tauto. Qed.

(** A departure silences everyone: when a connected receiver is removed,
    no remaining gate is open. *)
Theorem departure_silences_all (s : Registry) (id id' : Z) (r r' : Receiver)
  (Hwf : registry_wf s) (Hr : get_receiver s id = Some r)
  (Hr' : get_receiver (remove s id) id' = Some r') :
  gate_load (remove s id) (r_playback r') = false.
Proof.
  pose proof (without_wf s id Hwf) as Hwf'. revert Hr'.
  destruct (remove_cases s id) as [-> | ->]; rewrite Hr.
  - rewrite get_receiver_store_each. intros Hr'. by rewrite (store_each_load _ _ _ _ Hwf' Hr').
  - intros Hr'. change (get_receiver (store_each (fun _ => false) (without s id)) id' = Some r') in Hr'.
    rewrite get_receiver_store_each in Hr'.
    change (gate_load (store_each (fun _ => false) (without s id)) (r_playback r') = false).
    by rewrite (store_each_load _ _ _ _ Hwf' Hr').
Qed.

(** The server's own volume commands never come back as user input: in a
    history without a report about [id] that answers no request, no volume
    change by the user of phone [id] is ever recorded. *)
Theorem own_requests_never_echo (s : Registry) (id : Z) (ops : list registry_op)
  (Hclean : (take_unsolicited_volume s id).2 = None)
  (Hops : Forall (fun op => unsolicited_report id op = false) ops) :
  (take_unsolicited_volume (registry_run s ops) id).2 = None.
Proof.
  rewrite take_unsolicited_snd in *. revert s Hclean.
  induction Hops as [|op ops Hop _ IH]; intros s Hclean; simpl; [done|].
  by apply IH, registry_step_unsolicited.
Qed.

(** The panel barrier: while a panel request to phone [id] is
    unanswered, no phone-side volume change is handed out, and the only steps that
    end this are the report that answers the very request, the departure of
    the phone and the reuse of its identifier. *)
Theorem panel_barrier_shields (s : Registry) (op : registry_op) (id : Z)
  (Hwf : registry_wf s) (Hb : has_panel_barrier s id = true) :
  (take_unsolicited_volume s id).2 = None /\
  (has_panel_barrier (registry_step s op) id = false ->
   match op with
   | RegRemove id' => id' = id
   | RegRegister _ _ => reg_next_id s = id
   | RegUpdateDevice id' d =>
       id' = id /\ barrier_of s id = Some (ds_request_id d) /\ status_valid d = true
   | _ => False
   end).
Proof.
  split; [|by apply registry_step_barrier].
  rewrite take_unsolicited_snd. rewrite has_panel_barrier_of, bool_decide_eq_true in Hb.
  unfold barrier_of, unsolicited in *. destruct (get_receiver s id) as [r|] eqn:Hr; [|done].
  simpl in *. by apply (rw_barrier _ _ (rgw_each _ Hwf _ _ Hr)).
Qed.

End registry.
Arguments Receiver : clear implicits.
Arguments Registry : clear implicits.
Arguments registry_op : clear implicits.

(** ** Witnesses, with tokio's bounded queue as the channel *)

Definition CONTROL_QUEUE : Channel ControlMessage := mkChannel 16 true [].
Definition peer_a : SocketAddr := mkSocketAddr [192; 168; 1; 20] 40000.
Definition phone (id : rstring) (request volume : Z) : DeviceStatus :=
  mkDeviceStatus request id [80; 104] volume 0 15 false true false.
Definition two_phones : Registry (Channel ControlMessage) :=
  registry_run registry_default
    [RegRegister peer_a CONTROL_QUEUE; RegRegister peer_a CONTROL_QUEUE;
     RegUpdateDevice 0 (phone [97] 0 3); RegUpdateDevice 1 (phone [98] 0 5)].

Lemma two_phones_wf : registry_wf two_phones.
Proof. apply registry_run_wf, registry_default_wf. Qed.

Lemma playing_only_as_approved_witness :
  (rs_playing <$> snapshots (approve two_phones [(0, phone [97] 0 3); (1, phone [98] 0 5)])) = [true; true] /\
  playing_as [(0, phone [97] 0 3); (1, phone [98] 0 5)]
    (registry_run (approve two_phones [(0, phone [97] 0 3); (1, phone [98] 0 5)])
       [RegUpdateDevice 0 (phone [97] 0 4); RegQuery 1]).
Proof.
  split; [vm_compute; done|].
  apply playing_only_as_approved; [apply two_phones_wf|]. repeat constructor.
Defined.

Lemma approve_all_or_nothing_witness :
  exists r, get_receiver two_phones 0 = Some r /\
    (gate_load (approve two_phones [(0, phone [97] 0 3)]) (r_playback r) = true <->
     0 ∈ [(0, phone [97] 0 3)].*1 /\
     forall id' e, (id', e) ∈ [(0, phone [97] 0 3)] ->
       exists r' d, get_receiver two_phones id' = Some r' /\ r_device r' = Some d /\ still_as e d = true).
Proof.
  eexists. split; [vm_compute; reflexivity|].
  apply approve_all_or_nothing; [apply two_phones_wf|vm_compute; reflexivity].
Defined.

Lemma departure_silences_all_witness :
  let s := approve two_phones [(0, phone [97] 0 3); (1, phone [98] 0 5)] in
  exists r', get_receiver (remove s 0) 1 = Some r' /\ gate_load (remove s 0) (r_playback r') = false.
Proof.
  eexists. split; [vm_compute; reflexivity|].
  eapply (departure_silences_all _ 0 1);
    [apply approve_wf, two_phones_wf|vm_compute; reflexivity|vm_compute; reflexivity].
Defined.

Lemma own_requests_never_echo_witness :
  (take_unsolicited_volume (registry_run two_phones
     [RegVolume 0 7 RestoreSpeaker false; RegUpdateDevice 0 (phone [97] 1 7)]) 0).2 = None.
Proof. apply own_requests_never_echo; [vm_compute; reflexivity|repeat constructor]. Defined.

Lemma panel_barrier_shields_witness :
  let s := (panel_volume_request two_phones 0 7).1 in
  (take_unsolicited_volume s 0).2 = None /\
  (has_panel_barrier (registry_step s (RegUpdateDevice 0 (phone [97] 1 7))) 0 = false ->
   0 = 0 /\ barrier_of s 0 = Some 1 /\ status_valid (phone [97] 1 7) = true).
Proof.
  intros s.
  apply (panel_barrier_shields s (RegUpdateDevice 0 (phone [97] 1 7)) 0);
    [apply volume_request_wf, two_phones_wf|vm_compute; reflexivity].
Defined.
