(* ===== verification/Profiles.v ===== *)
(** * Profiles: the stored volume profiles

    [windows-server/src/volume_profiles.rs].  A profile names a master phone
    and, for each follower, the follower index measured for a master index;
    the library of profiles is one postcard file that [save] replaces through
    a temporary file.  The postcard encoding and the file system are other
    people's code: they are interfaces here, with the documented behaviour
    the source relies on as laws. *)

From Stdlib Require Import ZArith Lia Sorted.
From S2P Require Import Prelude BTree Wire Text Storage Registry.

(** ** Data *)

Record DeviceRange : Type := mkDeviceRange {
  dr_id : rstring;
  dr_name : rstring;
  dr_minimum : Z;
  dr_maximum : Z;
}.

#[export] Instance DeviceRange_eq_dec : EqDecision DeviceRange.
Proof. solve_decision. Defined.

Definition from_status (device : DeviceStatus) : DeviceRange :=
  mkDeviceRange (ds_device_id device) (ds_name device) (ds_minimum device) (ds_maximum device).

Definition matches (r : DeviceRange) (device : DeviceStatus) : bool :=
  bool_decide (dr_id r = ds_device_id device) && (dr_minimum r =? ds_minimum device)
  && (dr_maximum r =? ds_maximum device) && ds_speaker device && negb (ds_fixed device)
  && negb (ds_failed device).

Record Follower : Type := mkFollower {
  fo_device : DeviceRange;
  fo_mapping : btree Z;
}.

Record Profile : Type := mkProfile {
  pr_id : Z;
  pr_name : rstring;
  pr_master : DeviceRange;
  pr_followers : list Follower;
  pr_volume : Z;
}.

#[export] Instance Follower_eq_dec : EqDecision Follower.
Proof. solve_decision. Defined.
#[export] Instance Profile_eq_dec : EqDecision Profile.
Proof. solve_decision. Defined.

Definition with_pr_id (id : Z) (p : Profile) : Profile :=
  mkProfile id (pr_name p) (pr_master p) (pr_followers p) (pr_volume p).
Definition with_pr_name (name : rstring) (p : Profile) : Profile :=
  mkProfile (pr_id p) name (pr_master p) (pr_followers p) (pr_volume p).
Definition with_pr_volume (volume : Z) (p : Profile) : Profile :=
  mkProfile (pr_id p) (pr_name p) (pr_master p) (pr_followers p) volume.
Definition with_pr_followers (followers : list Follower) (p : Profile) : Profile :=
  mkProfile (pr_id p) (pr_name p) (pr_master p) followers (pr_volume p).

(** One constructor per message of the source. *)
Inductive ProfileError : Type :=
| NameLength
| DeviceIdInvalid
| DuplicateDevice
| RangeInvalid
| VolumeOutOfRange
| MappingOutOfRange
| TooManyProfiles
| IdsExhausted
| CannotStat
| FileTooLarge
| CannotRead
| FileCorrupt
| FormatUnsupported
| CountExceeded
| DuplicateProfileId
| ActiveMissing
| CannotCreateDir
| EncodingFailed
| SizeExceeded
| CannotSave
| CannotReplace.

#[export] Instance ProfileError_eq_dec : EqDecision ProfileError.
Proof. solve_decision. Defined.

(** ** [Profile] *)

(** [(a..=b).contains(&x)]. *)
Definition in_range (a b x : Z) : bool := (a <=? x) && (x <=? b).

Definition id_valid (id : rstring) : bool :=
  negb (bool_decide (id = [])) && (utf8_len id <=? 80)
  && forallb (fun c => is_ascii_alphanumeric c || (c =? 45)) id.

(** The loop over the master and the followers, with the identifiers seen. *)
Fixpoint validate_devices (ids : list rstring) (devices : list DeviceRange) : result ProfileError unit :=
  match devices with
  | [] => Ok tt
  | device :: devices' =>
      _ ← ensure (id_valid (dr_id device)) DeviceIdInvalid;
      _ ← ensure (negb (bool_decide (dr_id device ∈ ids))) DuplicateDevice;
      _ ← ensure ((dr_minimum device <? dr_maximum device) && (dr_maximum device <=? 512)) RangeInvalid;
      validate_devices (dr_id device :: ids) devices'
  end.

Definition mapping_in_range (master : DeviceRange) (f : Follower) : bool :=
  forallb (fun kv => in_range (dr_minimum master) (dr_maximum master) kv.1
                     && in_range (dr_minimum (fo_device f)) (dr_maximum (fo_device f)) kv.2)
    (fo_mapping f).

Definition validate (p : Profile) : result ProfileError unit :=
  _ ← ensure (negb (bool_decide (trim (pr_name p) = [])) && (Z.of_nat (length (pr_name p)) <=? 80))
        NameLength;
  _ ← validate_devices [] (pr_master p :: (fo_device <$> pr_followers p));
  _ ← ensure (in_range (dr_minimum (pr_master p)) (dr_maximum (pr_master p)) (pr_volume p))
        VolumeOutOfRange;
  ensure (forallb (mapping_in_range (pr_master p)) (pr_followers p)) MappingOutOfRange.

Definition count {A} (f : A -> bool) (l : list A) : Z := Z.of_nat (length (filter (fun x => f x = true) l)).

(** A follower takes part when it is calibrated and exactly one connected
    device matches it. *)
Definition takes_part (devices : list DeviceStatus) (f : Follower) : bool :=
  negb (bool_decide (fo_mapping f = [])) && (count (matches (fo_device f)) devices =? 1).

Definition participating (p : Profile) (devices : list DeviceStatus) : list rstring :=
  (fun f => dr_id (fo_device f)) <$> filter (fun f => takes_part devices f = true) (pr_followers p).

Definition covers (participating : list rstring) (index : Z) (f : Follower) : bool :=
  negb (bool_decide (dr_id (fo_device f) ∈ participating)) || bt_contains_key index (fo_mapping f).

Definition available (p : Profile) (participating : list rstring) : list Z :=
  filter (fun index => forallb (covers participating index) (pr_followers p) = true)
    (seqZ (dr_minimum (pr_master p)) (dr_maximum (pr_master p) - dr_minimum (pr_master p) + 1)).

Definition nearest (p : Profile) (requested : Z) (participating : list rstring) : option Z :=
  min_by_key (fun index => abs_diff index requested) (available p participating).

(** ** [Library] *)

Record Library : Type := mkLibrary {
  li_version : Z;
  li_active : option Z;
  li_profiles : list Profile;
}.

#[export] Instance Library_eq_dec : EqDecision Library.
Proof. solve_decision. Defined.

Definition library_default : Library := mkLibrary 1 None [].

Definition MAX_FILE_BYTES : Z := 8 * 1024 * 1024.
Definition MAX_PROFILES : Z := 128.

Definition profile_with_id (id : Z) (p : Profile) : bool := pr_id p =? id.

Definition current (l : Library) : option Profile :=
  find (fun p => bool_decide (Some (pr_id p) = li_active l)) (li_profiles l).

(** [iter_mut().find(f)] followed by an assignment through the reference;
    [None] when no element satisfies [f]. *)
Fixpoint update_first {A} (f : A -> bool) (g : A -> A) (l : list A) : option (list A) :=
  match l with
  | [] => None
  | x :: l' => if f x then Some (g x :: l') else cons x <$> update_first f g l'
  end.

(** [iter().map(|p| p.id).max().unwrap_or(0)]. *)
Definition max_id (profiles : list Profile) : Z := foldr Z.max 0 (pr_id <$> profiles).

Definition put (l : Library) (profile : Profile) : result ProfileError (Library * Z) :=
  let profile := with_pr_name (trim (pr_name profile)) profile in
  _ ← validate profile;
  profile ← (if pr_id profile =? 0 then
    _ ← ensure (Z.of_nat (length (li_profiles l)) <? MAX_PROFILES) TooManyProfiles;
    let id := max_id (li_profiles l) + 1 in
    _ ← ensure (id <? 2 ^ 64) IdsExhausted;
    Ok (with_pr_id id profile)
  else Ok profile);
  let id := pr_id profile in
  let profiles := match update_first (profile_with_id id) (fun _ => profile) (li_profiles l) with
                  | Some profiles => profiles
                  | None => li_profiles l ++ [profile]
                  end in
  Ok (mkLibrary (li_version l) (Some id) profiles, id).

(** ** Storage *)

(** Postcard on the library type. *)
Class LibraryCodec : Type := {
  to_allocvec : Library -> option bytes;
  take_from_bytes : bytes -> option (Library * bytes);
}.

Class LibraryCodecLaws `{!LibraryCodec} : Prop := {
  take_to_allocvec l b tail : to_allocvec l = Some b -> take_from_bytes (b ++ tail) = Some (l, tail);
}.

Section storage.
Context {FS : Type} `{!FileSystem FS, !LibraryCodec}.

(** The loop of [load] over the profiles. *)
Fixpoint validate_profiles (ids : list Z) (profiles : list Profile) : result ProfileError (list Z) :=
  match profiles with
  | [] => Ok ids
  | p :: profiles' =>
      _ ← validate p;
      _ ← ensure (negb (bool_decide (pr_id p ∈ ids))) DuplicateProfileId;
      validate_profiles (pr_id p :: ids) profiles'
  end.

Definition load (d : FS) (path : Path) : result ProfileError Library :=
  match fs_metadata d path with
  | Err NotFound => Ok library_default
  | Err _ => Err CannotStat
  | Ok len =>
      _ ← ensure (len <=? MAX_FILE_BYTES) FileTooLarge;
      bytes ← map_err (fun _ => CannotRead) (fs_read d path);
      '(library, tail) ← ok_or FileCorrupt (take_from_bytes bytes);
      _ ← ensure (bool_decide (tail = []) && (li_version library =? 1)) FormatUnsupported;
      _ ← ensure (Z.of_nat (length (li_profiles library)) <=? MAX_PROFILES) CountExceeded;
      ids ← validate_profiles [] (li_profiles library);
      _ ← ensure (match li_active library with None => true | Some id => bool_decide (id ∈ ids) end)
            ActiveMissing;
      Ok library
  end.

Definition save (d : FS) (l : Library) (path : Path) : FS * result ProfileError unit :=
  let '(d, r) := match p_parent path with
                 | Some parent => fs_create_dir_all d parent
                 | None => (d, Ok tt)
                 end in
  match r with
  | Err _ => (d, Err CannotCreateDir)
  | Ok _ =>
      match to_allocvec l with
      | None => (d, Err EncodingFailed)
      | Some bytes =>
          if negb (Z.of_nat (length bytes) <=? MAX_FILE_BYTES) then (d, Err SizeExceeded)
          else
            let temporary := with_extension TMP path in
            let '(d, r) := fs_create d temporary in
            match r with
            | Err _ => (d, Err CannotSave)
            | Ok _ =>
                let '(d, r) := fs_write_all d temporary bytes in
                match r with
                | Err _ => (d, Err CannotSave)
                | Ok _ =>
                    let '(d, r) := fs_sync_all d temporary in
                    match r with
                    | Err _ => (d, Err CannotSave)
                    | Ok _ =>
                        let '(d, r) := fs_replace d temporary path in
                        (d, map_err (fun _ => CannotReplace) r)
                    end
                end
            end
      end
  end.
End storage.

(** ** Specifications *)

(** What a profile promises once validated. *)
Record profile_ok (p : Profile) : Prop := {
  po_name : trim (pr_name p) <> [] /\ Z.of_nat (length (pr_name p)) <= 80;
  po_ids : Forall (fun d => id_valid (dr_id d) = true) (pr_master p :: (fo_device <$> pr_followers p));
  po_distinct : NoDup (dr_id <$> pr_master p :: (fo_device <$> pr_followers p));
  po_ranges : Forall (fun d => dr_minimum d < dr_maximum d <= 512)
                (pr_master p :: (fo_device <$> pr_followers p));
  po_volume : dr_minimum (pr_master p) <= pr_volume p <= dr_maximum (pr_master p);
  po_mapping : forall f k v, f ∈ pr_followers p -> (k, v) ∈ fo_mapping f ->
    dr_minimum (pr_master p) <= k <= dr_maximum (pr_master p) /\
    dr_minimum (fo_device f) <= v <= dr_maximum (fo_device f);
}.

Record library_ok (l : Library) : Prop := {
  lo_version : li_version l = 1;
  lo_count : Z.of_nat (length (li_profiles l)) <= MAX_PROFILES;
  lo_profiles : Forall profile_ok (li_profiles l);
  lo_distinct : NoDup (pr_id <$> li_profiles l);
  lo_active : forall id, li_active l = Some id -> id ∈ pr_id <$> li_profiles l;
}.

(** ** Validation *)

Lemma bind_unit_ok {E A} (m : result E unit) (k : unit -> result E A) a :
  m ≫= k = Ok a <-> m = Ok tt /\ k tt = Ok a.
Proof. destruct m as [[]|e]; simpl; naive_solver. Qed.

Lemma ensure_bind {E A} c (e : E) (k : unit -> result E A) a :
  ensure c e ≫= k = Ok a <-> c = true /\ k tt = Ok a.
Proof.
  unfold ensure. destruct c; simpl; naive_solver.
Qed.

Lemma negb_bool_decide (P : Prop) `{Decision P} : negb (bool_decide P) = true <-> ~ P.
Proof. rewrite negb_true_iff. apply bool_decide_eq_false. Qed.

Lemma in_range_spec a b x : in_range a b x = true <-> a <= x <= b.
Proof. unfold in_range. rewrite andb_true_iff, !Z.leb_le. lia. Qed.

Lemma validate_devices_ok ids ds :
  validate_devices ids ds = Ok tt <->
  Forall (fun d => id_valid (dr_id d) = true) ds /\
  NoDup (dr_id <$> ds) /\ (forall x, x ∈ dr_id <$> ds -> x ∉ ids) /\
  Forall (fun d => dr_minimum d < dr_maximum d <= 512) ds.
Proof.
  revert ids. induction ds as [|d ds IH]; intros ids; simpl.
  - split; [|done]. intros _. split_and!; [done|constructor|set_solver|done].
  - rewrite !ensure_bind, IH, negb_bool_decide, andb_true_iff, Z.ltb_lt, Z.leb_le.
    rewrite !Forall_cons, NoDup_cons. set_solver by lia.
Qed.

Lemma mapping_in_range_spec master f :
  mapping_in_range master f = true <->
  forall k v, (k, v) ∈ fo_mapping f ->
    dr_minimum master <= k <= dr_maximum master /\
    dr_minimum (fo_device f) <= v <= dr_maximum (fo_device f).
Proof.
  unfold mapping_in_range. rewrite forallb_true. split.
  - intros H k v Hin. specialize (H _ Hin). by rewrite andb_true_iff, !in_range_spec in H.
  - intros H [k v] Hin. by rewrite andb_true_iff, !in_range_spec; apply H.
Qed.

Lemma validate_profile_ok p : validate p = Ok tt <-> profile_ok p.
Proof.
  unfold validate. rewrite ensure_bind, bind_unit_ok, ensure_bind, ensure_ok, validate_devices_ok.
  rewrite andb_true_iff, negb_bool_decide, Z.leb_le, in_range_spec, forallb_true.
  setoid_rewrite mapping_in_range_spec. split.
  - intros (H1 & (H2 & H3 & _ & H4) & H5 & H6). split; try done.
    intros f k v Hf Hkv. by eapply H6.
  - intros [H1 H2 H3 H4 H5 H6]. split_and!; try done; try apply H1; try apply H5; [set_solver|].
    intros f Hf k v Hkv. by eapply H6.
Qed.

(** ** The mapping of a profile *)

Lemma available_spec p parts i :
  i ∈ available p parts <->
  dr_minimum (pr_master p) <= i <= dr_maximum (pr_master p) /\
  forall f, f ∈ pr_followers p -> dr_id (fo_device f) ∈ parts -> i ∈ bt_keys (fo_mapping f).
Proof.
  unfold available. rewrite list_elem_of_filter, elem_of_seqZ, forallb_true. unfold covers.
  setoid_rewrite orb_true_iff. setoid_rewrite negb_bool_decide. setoid_rewrite bt_contains_key_true.
  split.
  - intros [H1 H2]. split; [lia|]. intros f Hf Hin. by destruct (H1 f Hf).
  - intros [H1 H2]. split; [|lia]. intros f Hf.
    destruct (decide (dr_id (fo_device f) ∈ parts)); [right; auto|by left].
Qed.

Lemma StronglySorted_filter (P : Z -> Prop) `{!forall x, Decision (P x)} l :
  StronglySorted Z.lt l -> StronglySorted Z.lt (filter P l).
Proof.
  induction 1 as [|x l Hl IH Hx]; [constructor|]. rewrite filter_cons. case_decide; [|done].
  constructor; [done|]. apply Forall_forall. intros y [_ Hy]%list_elem_of_filter.
  rewrite Forall_forall in Hx. auto.
Qed.

Lemma seqZ_sorted a n : StronglySorted Z.lt (seqZ a n).
Proof.
  destruct (decide (0 <= n)) as [Hn|]; [|rewrite seqZ_nil by lia; constructor].
  revert a. pattern n. apply natlike_ind; [|intros m Hm IH|done]; intros a.
  - rewrite seqZ_nil by lia. constructor.
  - rewrite seqZ_cons by lia. rewrite Z.pred_succ. constructor; [apply IH|].
    apply Forall_forall. intros y Hy%elem_of_seqZ. lia.
Qed.

Lemma min_by_key_sorted_ties f l x y :
  StronglySorted Z.lt l -> min_by_key f l = Some x -> y ∈ l -> f y = f x -> x <= y.
Proof.
  intros Hs (l1 & l2 & -> & Hl1)%min_by_key_first Hy Heq.
  apply elem_of_app in Hy as [Hy|[->|Hy]%elem_of_cons]; [|done|].
  - rewrite Forall_forall in Hl1. specialize (Hl1 _ Hy). lia.
  - clear Hl1. induction l1 as [|z l1 IH]; simpl in Hs; inversion Hs as [|? ? Hs' Hx]; subst; [|by apply IH].
    rewrite Forall_forall in Hx. specialize (Hx _ Hy). lia.
Qed.

Lemma nearest_some p requested parts i :
  nearest p requested parts = Some i ->
  i ∈ available p parts /\
  forall j, j ∈ available p parts ->
    abs_diff i requested < abs_diff j requested \/
    (abs_diff i requested = abs_diff j requested /\ i <= j).
Proof.
  intros Hn. split; [by eapply min_by_key_elem|]. intros j Hj.
  pose proof (min_by_key_le _ _ _ _ Hn Hj) as Hle. simpl in Hle.
  destruct (decide (abs_diff i requested = abs_diff j requested)) as [Heq|]; [|left; lia].
  right. split; [done|]. eapply (min_by_key_sorted_ties _ (available p parts)); [|done|done|done].
  apply StronglySorted_filter, seqZ_sorted.
Qed.

Lemma nearest_none p requested parts : nearest p requested parts = None <-> available p parts = [].
Proof. apply min_by_key_None. Qed.

(** The index the controller looks up in a participating follower's mapping
    is there: [follower.mapping[&index]] does not panic. *)
Lemma nearest_mapped p requested parts i f :
  nearest p requested parts = Some i -> f ∈ pr_followers p -> dr_id (fo_device f) ∈ parts ->
  is_Some (bt_get i (fo_mapping f)).
Proof.
  intros [Hi _]%nearest_some Hf Hin. apply available_spec in Hi as [_ Hi].
  apply bt_keys_get. by eapply Hi.
Qed.

(** ** [put] *)

Lemma update_first_spec {A} (f : A -> bool) (g : A -> A) (l : list A) :
  match update_first f g l with
  | Some l' => exists l1 x l2, l = l1 ++ x :: l2 /\ f x = true /\ Forall (fun y => f y = false) l1 /\
                               l' = l1 ++ g x :: l2
  | None => Forall (fun y => f y = false) l
  end.
Proof.
  induction l as [|x l IH]; simpl; [constructor|]. destruct (f x) eqn:E.
  - exists [], x, l. split_and!; [done..|constructor|done].
  - destruct (update_first f g l) as [l'|]; simpl; [|by constructor].
    destruct IH as (l1 & y & l2 & -> & Hy & Hl1 & ->). exists (x :: l1), y, l2.
    split_and!; [done..|by constructor|done].
Qed.

Lemma max_id_ge ps p : p ∈ ps -> pr_id p <= max_id ps.
Proof.
  unfold max_id. induction ps as [|q ps IH]; [set_solver|].
  intros [->|H]%elem_of_cons; csimpl; [lia|]. specialize (IH H). lia.
Qed.

Lemma max_id_fresh ps : max_id ps + 1 ∉ pr_id <$> ps.
Proof. intros (p & Hp & Hin)%list_elem_of_fmap. apply max_id_ge in Hin. lia. Qed.

Lemma max_id_nonneg ps : 0 <= max_id ps.
Proof. unfold max_id. induction ps as [|p ps IH]; csimpl; [done|]. lia. Qed.

(** The profile that [put] stores. *)
Definition stored_profile (l : Library) (p : Profile) : Profile :=
  with_pr_id (if pr_id p =? 0 then max_id (li_profiles l) + 1 else pr_id p)
    (with_pr_name (trim (pr_name p)) p).

Lemma put_ok l p l' id :
  put l p = Ok (l', id) <->
  profile_ok (with_pr_name (trim (pr_name p)) p) /\
  (pr_id p = 0 -> Z.of_nat (length (li_profiles l)) < MAX_PROFILES /\ max_id (li_profiles l) + 1 < 2 ^ 64) /\
  id = pr_id (stored_profile l p) /\
  l' = mkLibrary (li_version l) (Some id)
         (match update_first (profile_with_id id) (fun _ => stored_profile l p) (li_profiles l) with
          | Some profiles => profiles | None => li_profiles l ++ [stored_profile l p] end).
Proof.
  unfold put. cbn [pr_id with_pr_name]. rewrite bind_unit_ok, validate_profile_ok.
  unfold stored_profile. destruct (Z.eqb_spec (pr_id p) 0) as [H0|H0].
  - assert (forall x, (_ ← ensure (Z.of_nat (length (li_profiles l)) <? MAX_PROFILES) TooManyProfiles;
      _ ← ensure (max_id (li_profiles l) + 1 <? 2 ^ 64) IdsExhausted;
      Ok (with_pr_id (max_id (li_profiles l) + 1) (with_pr_name (trim (pr_name p)) p))) = Ok x <->
      (Z.of_nat (length (li_profiles l)) < MAX_PROFILES /\ max_id (li_profiles l) + 1 < 2 ^ 64) /\
      x = with_pr_id (max_id (li_profiles l) + 1) (with_pr_name (trim (pr_name p)) p)) as Hx.
    { intros x. rewrite !ensure_bind, !Z.ltb_lt. naive_solver. }
    cbn zeta. rewrite bind_ok. setoid_rewrite Hx. cbn [pr_id with_pr_id]. naive_solver.
  - simpl. destruct p; simpl in *. naive_solver.
Qed.

Lemma profile_ok_with_id id p : profile_ok p -> profile_ok (with_pr_id id p).
Proof. by intros []. Qed.

Lemma put_library_ok l p l' id :
  library_ok l -> put l p = Ok (l', id) ->
  (pr_id p ∈ pr_id <$> li_profiles l \/ Z.of_nat (length (li_profiles l)) < MAX_PROFILES) ->
  library_ok l'.
Proof.
  intros [H1 H2 H3 H4 H5] (Hp & Hroom & -> & ->)%put_ok Hsize.
  assert (profile_ok (stored_profile l p)) as Hok by (by apply profile_ok_with_id).
  assert (Z.of_nat (length (li_profiles l)) < MAX_PROFILES \/
          pr_id (stored_profile l p) ∈ pr_id <$> li_profiles l) as Hsize'.
  { unfold stored_profile. simpl. destruct (Z.eqb_spec (pr_id p) 0); [left; by apply Hroom|tauto]. }
  pose proof (update_first_spec (profile_with_id (pr_id (stored_profile l p)))
    (fun _ => stored_profile l p) (li_profiles l)) as Hu.
  destruct (update_first _ _ _) as [ps|].
  - destruct Hu as (l1 & x & l2 & Hl & Hx%Z.eqb_eq & _ & ->). rewrite Hl in *.
    split; simpl; [done| | | |].
    + rewrite length_app in *. simpl in *. lia.
    + apply Forall_app in H3 as [F1 F2]. inversion F2; subst. apply Forall_app. split; [done|by constructor].
    + rewrite !fmap_app in *. simpl in *. by rewrite <- Hx.
    + intros ? [= <-]. rewrite fmap_app. simpl. set_solver.
  - assert (pr_id (stored_profile l p) ∉ pr_id <$> li_profiles l) as Hfresh.
    { intros (q & Hq & Hin)%list_elem_of_fmap. rewrite Forall_forall in Hu.
      specialize (Hu _ Hin). unfold profile_with_id in Hu. apply Z.eqb_neq in Hu. congruence. }
    split; simpl; [done| | | |].
    + rewrite length_app. simpl. destruct Hsize'; [lia|done].
    + apply Forall_app. by split; [|constructor].
    + rewrite fmap_app. apply NoDup_app. split_and!; [done|set_solver|apply NoDup_singleton].
    + intros ? [= <-]. rewrite fmap_app. set_solver.
Qed.

Lemma find_app_none {A} (f : A -> bool) l1 l2 :
  Forall (fun y => f y = false) l1 -> find f (l1 ++ l2) = find f l2.
Proof. induction 1 as [|x l1 Hx _ IH]; simpl; [done|]. by rewrite Hx. Qed.

Lemma find_put l p l' id id' :
  put l p = Ok (l', id) ->
  find (profile_with_id id') (li_profiles l') =
    if id' =? id then Some (stored_profile l p) else find (profile_with_id id') (li_profiles l).
Proof.
  intros (_ & _ & -> & ->)%put_ok. cbn [li_profiles].
  set (q := stored_profile l p). set (id := pr_id q).
  assert (profile_with_id id q = true) as Hq by apply Z.eqb_refl.
  pose proof (update_first_spec (profile_with_id id) (fun _ => q) (li_profiles l)) as Hu.
  change (pr_id (stored_profile l p)) with id. change (stored_profile l p) with q.
  destruct (update_first _ _ _) as [ps|].
  - destruct Hu as (l1 & x & l2 & -> & Hx & Hl1 & ->).
    destruct (Z.eqb_spec id' id) as [->|Hne].
    + rewrite find_app_none by done. cbn [find]. by rewrite Hq.
    + assert (profile_with_id id' q = false /\ profile_with_id id' x = false) as [Hq' Hx'].
      { unfold profile_with_id in *. apply Z.eqb_eq in Hx, Hq. rewrite Hx, Hq.
        split; by apply Z.eqb_neq, not_eq_sym. }
      clear Hl1. induction l1 as [|y l1 IH]; cbn [find app]; [by rewrite Hq', Hx'|by rewrite IH].
  - destruct (Z.eqb_spec id' id) as [->|Hne].
    + rewrite find_app_none by done. cbn [find]. by rewrite Hq.
    + assert (profile_with_id id' q = false) as Hq'.
      { unfold profile_with_id in *. apply Z.eqb_eq in Hq. rewrite Hq. by apply Z.eqb_neq, not_eq_sym. }
      clear Hu. induction (li_profiles l) as [|y ps IH]; cbn [find app]; [by rewrite Hq'|by rewrite IH].
Qed.

(** ** Loading and saving *)

Lemma validate_profiles_ok ids ps ids' :
  validate_profiles ids ps = Ok ids' ->
  Forall profile_ok ps /\ NoDup (pr_id <$> ps) /\ (forall x, x ∈ pr_id <$> ps -> x ∉ ids) /\
  (forall x, x ∈ ids' <-> x ∈ ids \/ x ∈ pr_id <$> ps).
Proof.
  revert ids. induction ps as [|p ps IH]; intros ids; simpl.
  - intros [= <-]. split_and!; [constructor|constructor|set_solver|set_solver].
  - rewrite bind_unit_ok, ensure_bind, negb_bool_decide, validate_profile_ok.
    intros (Hp & Hnew & (H1 & H2 & H3 & H4)%IH). rewrite Forall_cons, NoDup_cons. set_solver.
Qed.

Lemma validate_profiles_complete ids ps :
  Forall profile_ok ps -> NoDup (pr_id <$> ps) -> (forall x, x ∈ pr_id <$> ps -> x ∉ ids) ->
  exists ids', validate_profiles ids ps = Ok ids'.
Proof.
  revert ids. induction ps as [|p ps IH]; intros ids; simpl; [eauto|].
  rewrite Forall_cons, NoDup_cons. intros [Hp Hps] [Hnew Hnd] Hids.
  apply validate_profile_ok in Hp as ->. simpl. rewrite bool_decide_eq_false_2 by set_solver. simpl.
  apply IH; [done..|set_solver].
Qed.

Section storage_facts.
Context {FS : Type} `{!FileSystem FS, !FileSystemLaws FS, !LibraryCodec, !LibraryCodecLaws}.

Lemma load_library_ok (d : FS) path l : load d path = Ok l -> library_ok l.
Proof.
  unfold load. destruct (fs_metadata d path) as [len|[]].
  - rewrite ensure_bind, Z.leb_le. intros [_ Hrest]. apply bind_ok in Hrest as (b & _ & Hrest).
    apply bind_ok in Hrest as ([l' tail] & _ & G).
    rewrite !ensure_bind, andb_true_iff, Z.eqb_eq, Z.leb_le in G. destruct G as ((_ & Hv) & Hc & G).
    apply bind_ok in G as (ids & (H1 & H2 & _ & H3)%validate_profiles_ok & G).
    rewrite ensure_bind in G. destruct G as [Ha [= <-]]. split; try done.
    intros id Hid. rewrite Hid in Ha. apply bool_decide_eq_true in Ha. set_solver.
  - intros [= <-]. split; try done. by constructor.
  - done.
Qed.

Lemma load_complete (d : FS) path l b :
  fs_read d path = Ok b -> Z.of_nat (length b) <= MAX_FILE_BYTES -> to_allocvec l = Some b ->
  library_ok l -> load d path = Ok l.
Proof.
  intros Hread Hlen Henc [H1 H2 H3 H4 H5]. unfold load.
  rewrite (metadata_read _ _ _ Hread). apply Z.leb_le in Hlen. unfold ensure at 1. rewrite Hlen. simpl.
  rewrite Hread. simpl. pose proof (take_to_allocvec _ _ [] Henc) as Ht. rewrite app_nil_r in Ht.
  rewrite Ht. simpl. apply Z.eqb_eq in H1. rewrite H1. simpl.
  apply Z.leb_le in H2. rewrite H2. simpl.
  destruct (validate_profiles_complete [] (li_profiles l) H3 H4) as [ids Hids]; [set_solver|].
  rewrite Hids. simpl. apply validate_profiles_ok in Hids as (_ & _ & _ & Hids).
  destruct (li_active l) as [id|]; simpl; [|done].
  rewrite bool_decide_eq_true_2; [done|]. apply Hids. right. by apply H5.
Qed.

(** The content of the destination after [save], on every path through it. *)
Lemma save_read (d d' : FS) l path r :
  with_extension TMP path <> path -> save d l path = (d', r) ->
  match r with
  | Ok _ => exists b, to_allocvec l = Some b /\ Z.of_nat (length b) <= MAX_FILE_BYTES /\
                      fs_read d' path = Ok b
  | Err _ => fs_read d' path = fs_read d path
  end.
Proof.
  intros Hne. unfold save. set (t := with_extension TMP path) in *.
  assert (forall d1, fs_read d1 path = fs_read d path ->
    (match to_allocvec l with
     | None => (d1, Err EncodingFailed)
     | Some bytes =>
         if negb (Z.of_nat (length bytes) <=? MAX_FILE_BYTES) then (d1, Err SizeExceeded)
         else
           let '(d, r) := fs_create d1 t in
           match r with
           | Err _ => (d, Err CannotSave)
           | Ok _ =>
               let '(d, r) := fs_write_all d t bytes in
               match r with
               | Err _ => (d, Err CannotSave)
               | Ok _ =>
                   let '(d, r) := fs_sync_all d t in
                   match r with
                   | Err _ => (d, Err CannotSave)
                   | Ok _ => let '(d, r) := fs_replace d t path in (d, map_err (fun _ => CannotReplace) r)
                   end
               end
           end
     end) = (d', r) ->
    match r with
    | Ok _ => exists b, to_allocvec l = Some b /\ Z.of_nat (length b) <= MAX_FILE_BYTES /\
                        fs_read d' path = Ok b
    | Err _ => fs_read d' path = fs_read d path
    end) as Hrest.
  { intros d1 Hd1. destruct (to_allocvec l) as [b|]; [|by intros [= <- <-]].
    destruct (Z.leb_spec (Z.of_nat (length b)) MAX_FILE_BYTES) as [Hlen|]; simpl; [|by intros [= <- <-]].
    pose proof (create_frame d1 t path (not_eq_sym Hne)) as Hc.
    destruct (fs_create d1 t) as [d2 [[]|]] eqn:Ec; simpl in Hc; [|intros [= <- <-]; congruence].
    pose proof (write_frame d2 t b path (not_eq_sym Hne)) as Hw.
    destruct (fs_write_all d2 t b) as [d3 [[]|]] eqn:Ew; simpl in Hw; [|intros [= <- <-]; congruence].
    pose proof (sync_frame d3 t) as Hs.
    destruct (fs_sync_all d3 t) as [d4 [[]|]] eqn:Es; simpl in Hs; [|intros [= <- <-]; rewrite Hs; congruence].
    destruct (fs_replace d4 t path) as [d5 [[]|e]] eqn:Er; intros [= <- <-]; simpl.
    - exists b. split_and!; [done..|]. rewrite (replace_ok _ _ _ _ Er), Hs.
      apply (write_appends d2 t b []); [by eapply create_empty|done].
    - rewrite (replace_err _ _ _ _ _ Er), Hs. congruence. }
  destruct (p_parent path) as [parent|]; [|by apply Hrest].
  pose proof (create_dir_frame d parent path) as Hd.
  destruct (fs_create_dir_all d parent) as [d1 [[]|]]; simpl in Hd; [by apply Hrest|].
  by intros [= <- <-].
Qed.

(** ** The properties *)

(** C40. What was saved is what is loaded: after a successful [save] of a
    consistent library, [load] returns that library. *)
Theorem save_load_round_trip (d d' : FS) (l : Library) (path : Path)
  (Hl : library_ok l) (Hpath : with_extension TMP path <> path)
  (Hsave : save d l path = (d', Ok tt)) :
  load d' path = Ok l.
Proof.
  destruct (save_read d d' l path _ Hpath Hsave) as (b & Hb & Hlen & Hread).
  by eapply load_complete.
Qed.

(** C19. A save over a readable earlier file that fails at any step — directory, encoding, size, temporary
    file, write, sync or the final move — leaves what a later [load] returns
    exactly as it was. *)
Theorem failed_save_keeps_library (d d' : FS) (l : Library) (path : Path) (e : ProfileError)
  (b : bytes) (Hpath : with_extension TMP path <> path)
  (Hold : fs_read d path = Ok b) (Hsave : save d l path = (d', Err e)) :
  load d' path = load d path.
Proof.
  pose proof (save_read d d' l path _ Hpath Hsave) as Hread. simpl in Hread.
  rewrite Hold in Hread. unfold load.
  by rewrite (metadata_read _ _ _ Hread), (metadata_read _ _ _ Hold), Hread, Hold.
Qed.

(** Only a consistent library is ever loaded: at most 128 profiles, every
    one validated, identifiers distinct, and the active one among them. *)
Theorem loaded_library_is_consistent (d : FS) (path : Path) (l : Library)
  (Hload : load d path = Ok l) : library_ok l.
Proof. by eapply load_library_ok. Qed.
End storage_facts.

(** [validate] accepts exactly the profiles that keep their promises:
    a name of 1 to 80 characters, well-formed and distinct device identifiers,
    non-empty ranges below 512, a volume and mappings inside the ranges. *)
Theorem validate_characterised (p : Profile) : validate p = Ok tt <-> profile_ok p.
Proof. apply validate_profile_ok. Qed.

(** [nearest] picks a master index that every participating follower was
    calibrated at; no such index is closer to the requested one, and of two
    equally close ones it takes the quieter. It fails exactly when the
    participating followers have no index in common. *)
Theorem nearest_is_closest_common (p : Profile) (requested : Z) (parts : list rstring) :
  match nearest p requested parts with
  | Some i =>
      dr_minimum (pr_master p) <= i <= dr_maximum (pr_master p) /\
      (forall f, f ∈ pr_followers p -> dr_id (fo_device f) ∈ parts ->
         is_Some (bt_get i (fo_mapping f))) /\
      forall j, j ∈ available p parts ->
        abs_diff i requested < abs_diff j requested \/
        (abs_diff i requested = abs_diff j requested /\ i <= j)
  | None =>
      forall i, dr_minimum (pr_master p) <= i <= dr_maximum (pr_master p) ->
        exists f, f ∈ pr_followers p /\ dr_id (fo_device f) ∈ parts /\ bt_get i (fo_mapping f) = None
  end.
Proof.
  destruct (nearest p requested parts) as [i|] eqn:Hn.
  - pose proof (nearest_some _ _ _ _ Hn) as [Hi Hmin].
    pose proof Hi as [Hr _]%available_spec. split; [exact Hr|]. split; [|done].
    intros f Hf Hin. by eapply nearest_mapped.
  - apply nearest_none in Hn. intros i Hi.
    destruct (forallb (covers parts i) (pr_followers p)) eqn:Hc.
    + assert (i ∈ available p parts) as Hin; [|rewrite Hn in Hin; set_solver].
      apply list_elem_of_filter. split; [done|]. apply elem_of_seqZ. lia.
    + apply not_true_iff_false in Hc. rewrite forallb_true in Hc.
      destruct (decide (Exists (fun f => covers parts i f = false) (pr_followers p))) as [He|He].
      * apply Exists_exists in He as (f & Hf & Hcov). exists f. split; [done|].
        unfold covers in Hcov. apply orb_false_iff in Hcov as [H1 H2].
        rewrite negb_false_iff, bool_decide_eq_true in H1. by rewrite bt_contains_key_false in H2.
      * destruct Hc. intros f Hf. destruct (covers parts i f) eqn:E; [done|].
        destruct He. apply Exists_exists. eauto.
Qed.

(** [put] keeps the library consistent when it replaces a known profile or
    there is room for a new one; looking the returned identifier up yields the
    profile with its name trimmed, every other profile is untouched, and the
    stored profile becomes the active one. *)
Theorem put_stores (l : Library) (p : Profile) (l' : Library) (id : Z)
  (Hl : library_ok l) (Hput : put l p = Ok (l', id))
  (Hroom : pr_id p ∈ pr_id <$> li_profiles l \/ Z.of_nat (length (li_profiles l)) < MAX_PROFILES) :
  library_ok l' /\ li_active l' = Some id /\
  find (profile_with_id id) (li_profiles l') = Some (with_pr_id id (with_pr_name (trim (pr_name p)) p)) /\
  (forall id', id' <> id ->
     find (profile_with_id id') (li_profiles l') = find (profile_with_id id') (li_profiles l)) /\
  (pr_id p = 0 -> id ∉ pr_id <$> li_profiles l).
Proof.
  pose proof Hput as (_ & _ & Hid & Hl')%put_ok. split_and!.
  - by eapply put_library_ok.
  - by rewrite Hl'.
  - rewrite (find_put _ _ _ _ id Hput), Z.eqb_refl, Hid. done.
  - intros id' Hne. rewrite (find_put _ _ _ _ id' Hput). by apply Z.eqb_neq in Hne as ->.
  - intros H0. rewrite Hid. unfold stored_profile. rewrite H0. apply max_id_fresh.
Qed.

(** The number of profiles is not limited by [put] itself: for a non-zero
    identifier that is not in a full library, a valid profile is stored as the
    129th one, and [load] refuses any file with such a library. *)
Theorem put_can_exceed_limit (l : Library) (p : Profile)
  (Hl : library_ok l) (Hfull : Z.of_nat (length (li_profiles l)) = MAX_PROFILES)
  (Hid : pr_id p <> 0) (Hnew : pr_id p ∉ pr_id <$> li_profiles l)
  (Hp : profile_ok (with_pr_name (trim (pr_name p)) p)) :
  exists l', put l p = Ok (l', pr_id p) /\ ~ library_ok l'.
Proof.
  exists (mkLibrary (li_version l) (Some (pr_id p)) (li_profiles l ++ [stored_profile l p])).
  assert (pr_id (stored_profile l p) = pr_id p) as Hsp.
  { unfold stored_profile. simpl. by apply Z.eqb_neq in Hid as ->. }
  split.
  - apply put_ok. rewrite Hsp. split_and!; [done|done|done|].
    pose proof (update_first_spec (profile_with_id (pr_id p)) (fun _ => stored_profile l p) (li_profiles l)) as Hu.
    destruct (update_first _ _ _) as [ps|]; [|done].
    destruct Hu as (l1 & x & l2 & Heq & Hx%Z.eqb_eq & _ & _). destruct Hnew. rewrite <- Hx, Heq.
    rewrite fmap_app. simpl. set_solver.
  - intros [_ Hc _ _ _]. simpl in Hc. rewrite length_app in Hc. simpl in Hc. lia.
Qed.

(** ** Concrete storage, for the witnesses *)

(** An encoding of libraries: one number of the countable type, in front of
    the tail. *)
#[export] Instance DeviceRange_countable : Countable DeviceRange.
Proof.
  apply (inj_countable' (fun r => (dr_id r, dr_name r, dr_minimum r, dr_maximum r))
           (fun '(a, b, c, d) => mkDeviceRange a b c d)). by intros [].
Defined.
#[export] Instance Follower_countable : Countable Follower.
Proof.
  apply (inj_countable' (fun f => (fo_device f, fo_mapping f)) (fun '(a, b) => mkFollower a b)).
  by intros [].
Defined.
#[export] Instance Profile_countable : Countable Profile.
Proof.
  apply (inj_countable' (fun p => (pr_id p, pr_name p, pr_master p, pr_followers p, pr_volume p))
           (fun '(a, b, c, d, e) => mkProfile a b c d e)). by intros [].
Defined.
#[export] Instance Library_countable : Countable Library.
Proof.
  apply (inj_countable' (fun l => (li_version l, li_active l, li_profiles l))
           (fun '(a, b, c) => mkLibrary a b c)). by intros [].
Defined.

#[export] Instance countable_codec : LibraryCodec := {
  to_allocvec l := Some [Zpos (countable.encode l)];
  take_from_bytes b :=
    match b with
    | Zpos n :: tail => l ← countable.decode n; Some (l, tail)
    | _ => None
    end;
}.

#[export] Instance countable_codec_laws : LibraryCodecLaws.
Proof. split. simpl. intros l b tail [= <-]. simpl. by rewrite countable.decode_encode. Qed.

Definition room_path : Path := mkPath (Some [99]) [118] (Some [98; 105; 110]).
Definition room_master : DeviceRange := mkDeviceRange [109] [77] 0 15.
Definition room_profile : Profile :=
  mkProfile 0 [32; 82; 32] room_master
    [mkFollower (mkDeviceRange [102] [70] 0 10) [(3, 2); (7, 5)]] 3.
Definition room_library : Library :=
  match put library_default room_profile with Ok (l, _) => l | Err _ => library_default end.

Lemma library_default_ok : library_ok library_default.
Proof. split; try done; constructor. Qed.

Lemma room_library_ok : library_ok room_library.
Proof.
  apply (put_library_ok library_default room_profile _ 1); [apply library_default_ok| |by right].
  vm_compute. reflexivity.
Qed.

Lemma save_load_round_trip_witness :
  exists d' : MemDisk, save [] room_library room_path = (d', Ok tt) /\ load d' room_path = Ok room_library.
Proof.
  destruct (save ([] : MemDisk) room_library room_path) as [d' r] eqn:E. exists d'.
  assert (r = Ok tt) as -> by (revert E; vm_compute; by intros [= _ <-]). split; [done|].
  apply (save_load_round_trip [] d'); [apply room_library_ok|done|exact E].
Defined.

Lemma failed_save_keeps_library_witness :
  let d := mkReadOnlyDisk (save ([] : MemDisk) room_library room_path).1 in
  exists d', save d library_default room_path = (d', Err CannotReplace) /\ load d' room_path = load d room_path.
Proof.
  intros d. destruct (save d library_default room_path) as [d' r] eqn:E. exists d'.
  assert (r = Err CannotReplace) as -> by (revert E; vm_compute; by intros [= _ <-]). split; [done|].
  eapply (failed_save_keeps_library d d'); [done| |exact E].
  instantiate (1 := default [] (to_allocvec room_library)). vm_compute. reflexivity.
Defined.

Lemma loaded_library_is_consistent_witness :
  let d := (save ([] : MemDisk) room_library room_path).1 in
  load d room_path = Ok room_library /\ library_ok room_library.
Proof.
  intros d. assert (load d room_path = Ok room_library) as H by (vm_compute; reflexivity).
  split; [exact H|]. exact (loaded_library_is_consistent d room_path room_library H).
Defined.

Lemma put_stores_witness :
  exists l' id, put library_default room_profile = Ok (l', id) /\ library_ok l' /\ li_active l' = Some id /\ find (profile_with_id id) (li_profiles l') =
      Some (with_pr_id id (with_pr_name (trim (pr_name room_profile)) room_profile)) /\ (forall id', id' <> id ->
       find (profile_with_id id') (li_profiles l') = find (profile_with_id id') (li_profiles library_default)) /\ (pr_id room_profile = 0 -> id ∉ pr_id <$> li_profiles library_default).
Proof.
  destruct (put library_default room_profile) as [[l' id]|e] eqn:E; [|by vm_compute in E].
  exists l', id. split; [done|].
  apply (put_stores library_default room_profile l' id); [apply library_default_ok|exact E|by right].
Defined.

(** A library with 128 profiles. *)
Definition full_library : Library :=
  mkLibrary 1 None ((fun id => with_pr_id id (with_pr_name [82] room_profile)) <$> seqZ 1 128).

Lemma full_library_ok : library_ok full_library.
Proof.
  split; [done|vm_compute; done| | |done].
  - apply Forall_fmap, Forall_forall. intros id _. simpl.
    apply profile_ok_with_id. apply validate_profile_ok. reflexivity.
  - apply (bool_decide_unpack _). vm_compute. exact I.
Qed.

Lemma put_can_exceed_limit_witness :
  exists l', put full_library (with_pr_id 500 room_profile) = Ok (l', 500) /\ ~ library_ok l'.
Proof.
  apply (put_can_exceed_limit full_library (with_pr_id 500 room_profile)).
  - apply full_library_ok.
  - vm_compute. reflexivity.
  - done.
  - apply (bool_decide_unpack _). vm_compute. exact I.
  - apply validate_profile_ok. vm_compute. reflexivity.
Defined.
