(* ===== verification/Gate.v ===== *)
(** * Gate: the transmission switch of the server

    [windows-server/src/audio/transmission.rs].  The switch is on when the user
    enabled it and no calibration is running; the capture side waits on it.
    The condition variable is modelled by what its waiter observes each time it
    wakes up (by a notification, a spurious wake-up or the half-second
    timeout). *)

From Stdlib Require Import ZArith Lia.
From S2P Require Import Prelude.

Record AudioTransmissionGate : Type := mkGate {
  tg_enabled : bool;
  tg_calibrating : bool;
}.

Definition gate_enabled : AudioTransmissionGate := mkGate true false.
Definition is_enabled (g : AudioTransmissionGate) : bool := tg_enabled g && negb (tg_calibrating g).
Definition set_calibrating (g : AudioTransmissionGate) (calibrating : bool) : AudioTransmissionGate :=
  mkGate (tg_enabled g) calibrating.
Definition set_enabled (g : AudioTransmissionGate) (enabled : bool) : AudioTransmissionGate :=
  mkGate enabled (tg_calibrating g).

(** [wait_until_enabled] over the successive (gate, stop requested) states the
    loop condition sees; the rest of the observations is left, [None] is "still
    waiting". *)
Fixpoint wait_until_enabled (seen : list (AudioTransmissionGate * bool))
  : option (list (AudioTransmissionGate * bool)) :=
  match seen with
  | [] => None
  | (g, stop) :: seen' =>
      if negb (is_enabled g) && negb stop then wait_until_enabled seen' else Some seen'
  end.

(** The wait ends at the first observation of an open gate or of a stop
    request, and not before. *)
Lemma wait_until_enabled_spec seen :
  match wait_until_enabled seen with
  | Some rest => exists before g stop, seen = before ++ (g, stop) :: rest /\
      (is_enabled g = true \/ stop = true) /\
      Forall (fun o => is_enabled o.1 = false /\ o.2 = false) before
  | None => Forall (fun o => is_enabled o.1 = false /\ o.2 = false) seen
  end.
Proof.
  induction seen as [|[g stop] seen IH]; simpl; [constructor|].
  destruct (is_enabled g) eqn:Hg, stop; simpl.
  - exists [], g, true. split_and!; [done|by left|constructor].
  - exists [], g, false. split_and!; [done|by left|constructor].
  - exists [], g, true. split_and!; [done|by right|constructor].
  - destruct (wait_until_enabled seen) as [rest|].
    + destruct IH as (before & g' & stop' & -> & H & Hb). exists ((g, false) :: before), g', stop'.
      split_and!; [done|done|by constructor].
    + by constructor.
Qed.
