(* ===== verification/VolumeControl.v ===== *)
(** * VolumeControl: the worker that keeps the phones' volumes together

    [windows-server/src/application/volume_control.rs].  The controller's
    mutex-protected state, the operations of the panel and the calibration
    window, and the worker's [tick], which alone decides which phones may
    play.  Instants are milliseconds; every operation that reads the clock
    takes the time as an argument.  A panic is [None]. *)

From Stdlib Require Import ZArith Lia.
From S2P Require Import Prelude BTree Wire Text Storage Registry Profiles Gate.

Inductive VolumeError : Type :=
| NotWritable
| AlreadyEditing
| WhileEditing
| PendingRequests
| UnusableMaster
| NotEditing
| NoDraft
| NoMapping
| NoCommonIndex
| NoSuchProfile
| NoActiveProfile
| MasterUnavailable
| EditFailed
| ProfileErr (e : ProfileError)
| RegistryErr (e : RegistryError).

(** The texts shown in the panel. *)
Inductive Message : Type :=
| MsgNone
| MsgLoadError (e : ProfileError)
| MsgRestoreFailed (name : rstring) (e : RegistryError)
| MsgCannotApply (name : rstring)
| MsgNoConfirmation
| MsgRegistry (e : RegistryError)
| MsgSaveFailed (e : VolumeError).

Record Pending : Type := mkPending {
  pe_request : Z;
  pe_index : Z;
  pe_at : Z;
}.

Record State : Type := mkState {
  vs_library : Library;
  vs_draft : option Profile;
  vs_editing : bool;
  vs_originals : list (Z * DeviceStatus);
  vs_pending : btree Pending;
  vs_blocked : bset;
  vs_master_seen : option (Z * Z);
  vs_message : Message;
  vs_dirty : bool;
  vs_changed : Z;
  vs_confirmed : option (Z * Z);
  vs_load_error : option ProfileError;
  vs_needs_fence : bool;
}.

(** *** Field updates *)

Definition set_library x s := mkState x (vs_draft s) (vs_editing s) (vs_originals s) (vs_pending s)
  (vs_blocked s) (vs_master_seen s) (vs_message s) (vs_dirty s) (vs_changed s) (vs_confirmed s)
  (vs_load_error s) (vs_needs_fence s).
Definition set_draft_field x s := mkState (vs_library s) x (vs_editing s) (vs_originals s) (vs_pending s)
  (vs_blocked s) (vs_master_seen s) (vs_message s) (vs_dirty s) (vs_changed s) (vs_confirmed s)
  (vs_load_error s) (vs_needs_fence s).
Definition set_editing x s := mkState (vs_library s) (vs_draft s) x (vs_originals s) (vs_pending s)
  (vs_blocked s) (vs_master_seen s) (vs_message s) (vs_dirty s) (vs_changed s) (vs_confirmed s)
  (vs_load_error s) (vs_needs_fence s).
Definition set_originals x s := mkState (vs_library s) (vs_draft s) (vs_editing s) x (vs_pending s)
  (vs_blocked s) (vs_master_seen s) (vs_message s) (vs_dirty s) (vs_changed s) (vs_confirmed s)
  (vs_load_error s) (vs_needs_fence s).
Definition set_pending x s := mkState (vs_library s) (vs_draft s) (vs_editing s) (vs_originals s) x
  (vs_blocked s) (vs_master_seen s) (vs_message s) (vs_dirty s) (vs_changed s) (vs_confirmed s)
  (vs_load_error s) (vs_needs_fence s).
Definition set_blocked x s := mkState (vs_library s) (vs_draft s) (vs_editing s) (vs_originals s)
  (vs_pending s) x (vs_master_seen s) (vs_message s) (vs_dirty s) (vs_changed s) (vs_confirmed s)
  (vs_load_error s) (vs_needs_fence s).
Definition set_master_seen x s := mkState (vs_library s) (vs_draft s) (vs_editing s) (vs_originals s)
  (vs_pending s) (vs_blocked s) x (vs_message s) (vs_dirty s) (vs_changed s) (vs_confirmed s)
  (vs_load_error s) (vs_needs_fence s).
Definition set_message x s := mkState (vs_library s) (vs_draft s) (vs_editing s) (vs_originals s)
  (vs_pending s) (vs_blocked s) (vs_master_seen s) x (vs_dirty s) (vs_changed s) (vs_confirmed s)
  (vs_load_error s) (vs_needs_fence s).
Definition set_dirty x s := mkState (vs_library s) (vs_draft s) (vs_editing s) (vs_originals s)
  (vs_pending s) (vs_blocked s) (vs_master_seen s) (vs_message s) x (vs_changed s) (vs_confirmed s)
  (vs_load_error s) (vs_needs_fence s).
Definition set_changed x s := mkState (vs_library s) (vs_draft s) (vs_editing s) (vs_originals s)
  (vs_pending s) (vs_blocked s) (vs_master_seen s) (vs_message s) (vs_dirty s) x (vs_confirmed s)
  (vs_load_error s) (vs_needs_fence s).
Definition set_confirmed x s := mkState (vs_library s) (vs_draft s) (vs_editing s) (vs_originals s)
  (vs_pending s) (vs_blocked s) (vs_master_seen s) (vs_message s) (vs_dirty s) (vs_changed s) x
  (vs_load_error s) (vs_needs_fence s).
Definition set_load_error x s := mkState (vs_library s) (vs_draft s) (vs_editing s) (vs_originals s)
  (vs_pending s) (vs_blocked s) (vs_master_seen s) (vs_message s) (vs_dirty s) (vs_changed s)
  (vs_confirmed s) x (vs_needs_fence s).
Definition set_needs_fence x s := mkState (vs_library s) (vs_draft s) (vs_editing s) (vs_originals s)
  (vs_pending s) (vs_blocked s) (vs_master_seen s) (vs_message s) (vs_dirty s) (vs_changed s)
  (vs_confirmed s) (vs_load_error s) x.

(** [instant.elapsed()] at time [now]: zero for an instant in the future. *)
Definition elapsed (now at_ : Z) : Z := Z.max 0 (now - at_).

Definition PENDING_TIMEOUT_MS : Z := 4000.
Definition SAVE_DELAY_MS : Z := 500.
Definition SAVE_RETRY_MS : Z := 4000.

(** [library.current().map(|p| (p.id, p.volume))]. *)
Definition current_volume (l : Library) : option (Z * Z) := (fun p => (pr_id p, pr_volume p)) <$> current l.

Definition state_new (library : Library) (message : Message) (now : Z) : State :=
  mkState library None false [] [] [] None message false now (current_volume library) None false.

Definition ensure_writable (s : State) : result VolumeError unit :=
  match vs_load_error s with Some _ => Err NotWritable | None => Ok tt end.

Definition with_profiles (profiles : list Profile) (l : Library) : Library :=
  mkLibrary (li_version l) (li_active l) profiles.
Definition with_active (active : option Z) (l : Library) : Library :=
  mkLibrary (li_version l) active (li_profiles l).

(** Sets the volume of the first profile with that identifier. *)
Definition with_volume (id volume : Z) (l : Library) : Library :=
  match update_first (profile_with_id id) (with_pr_volume volume) (li_profiles l) with
  | Some profiles => with_profiles profiles l
  | None => l
  end.

(** The library as the disk should have it: with the last confirmed volume. *)
Definition persisted (s : State) : Library :=
  match vs_confirmed s with
  | Some (id, index) => with_volume id index (vs_library s)
  | None => vs_library s
  end.

Record VolumeView : Type := mkVolumeView {
  vv_library : Library;
  vv_draft : option Profile;
  vv_editing : bool;
  vv_message : Message;
}.

Definition view (s : State) : VolumeView :=
  mkVolumeView (vs_library s) (vs_draft s) (vs_editing s) (vs_message s).

Section controller.
Context {Sender : Type} `{!Mpsc Sender ControlMessage}.
Context {FS : Type} `{!FileSystem FS} {Hcodec : LibraryCodec}.
Implicit Types (s : State) (reg : Registry Sender) (d : FS) (path : Path).

(** *** Start and shutdown *)

Definition controller_new d path (now : Z) : State :=
  match load d path with
  | Ok library => state_new library MsgNone now
  | Err e => set_load_error (Some e) (state_new library_default (MsgLoadError e) now)
  end.

(** What the worker does after its loop. *)
Definition worker_exit reg (gate : AudioTransmissionGate) : Registry Sender * AudioTransmissionGate :=
  let reg := deny_all reg in
  let reg := broadcast reg (CalibrationSession 0 Cancel) in
  let reg := broadcast reg (CalibrationTone 0 false) in
  (reg, set_calibrating gate false).

Definition finish s d path : State * FS * result VolumeError unit :=
  if vs_dirty s then
    match ensure_writable s with
    | Err e => (s, d, Err e)
    | Ok _ =>
        match save d (persisted s) path with
        | (d, Err e) => (s, d, Err (ProfileErr e))
        | (d, Ok _) => (set_dirty false s, d, Ok tt)
        end
    end
  else (s, d, Ok tt).

(** *** The calibration window *)

Definition open s reg gate : result VolumeError (State * Registry Sender * AudioTransmissionGate) :=
  _ ← ensure (negb (vs_editing s)) AlreadyEditing;
  _ ← ensure (bool_decide (vs_pending s = [])) PendingRequests;
  let s := set_draft_field (current (vs_library s)) (set_editing true s) in
  let s := set_originals
    (omap (fun r => pair (rs_id r) <$> rs_device r) (snapshots reg)) s in
  Ok (set_blocked [] s, deny_all reg, set_calibrating gate true).

(** The loop of [close] that puts the original volumes back. *)
Definition restore_one (now : Z) (acc : State * Registry Sender) (original : Z * DeviceStatus)
  : State * Registry Sender :=
  let '(s, reg) := acc in
  let '(id, device) := original in
  match restore_volume_request reg id (ds_volume device) with
  | (reg, Ok request) =>
      (set_pending (bt_insert id (mkPending request (ds_volume device) now) (vs_pending s)) s, reg)
  | (reg, Err e) => (set_message (MsgRestoreFailed (ds_name device) e) s, reg)
  end.

Definition close s reg gate (now : Z) : State * Registry Sender * AudioTransmissionGate :=
  let reg := broadcast reg (CalibrationTone 0 false) in
  let reg := broadcast reg (CalibrationSession 0 Cancel) in
  let s := set_pending [] s in
  let originals := vs_originals s in
  let '(s, reg) := foldl (restore_one now) (set_originals [] s, reg) originals in
  let s := set_blocked [] (set_master_seen None (set_draft_field None (set_editing false s))) in
  (s, reg, set_calibrating gate false).

(** One snapshot in the loop of [set_master]. *)
Definition add_follower (draft : Profile) (r : ReceiverSnapshot) : Profile :=
  match rs_device r with
  | None => draft
  | Some device =>
      if bool_decide (ds_device_id device = dr_id (pr_master draft))
         || bool_decide (ds_device_id device = []) || negb (ds_speaker device)
         || ds_fixed device || ds_failed device || (ds_maximum device <=? ds_minimum device)
      then draft
      else
        match update_first (fun f => bool_decide (dr_id (fo_device f) = ds_device_id device))
                (fun f => if negb (matches (fo_device f) device)
                          then mkFollower (from_status device) [] else f)
                (pr_followers draft) with
        | Some followers => with_pr_followers followers draft
        | None => with_pr_followers (pr_followers draft ++ [mkFollower (from_status device) []]) draft
        end
  end.

(** The name of a fresh profile. *)
Definition NEW_PROFILE_NAME : rstring := [26032; 37197; 32622].

Definition set_master s (master : DeviceStatus) reg : result VolumeError State :=
  _ ← ensure (negb (ds_fixed master) && negb (ds_failed master) && ds_speaker master
              && negb (bool_decide (ds_device_id master = [])) && (ds_minimum master <? ds_maximum master))
        UnusableMaster;
  _ ← ensure (vs_editing s) NotEditing;
  let fresh := mkProfile 0 NEW_PROFILE_NAME (from_status master) [] (ds_volume master) in
  let draft := match vs_draft s with
               | Some p => if matches (pr_master p) master then p else fresh
               | None => fresh
               end in
  Ok (set_draft_field (Some (foldl add_follower draft (snapshots reg))) s).

Definition remember s (id : Z) (device : DeviceStatus) : State :=
  if vs_editing s && negb (existsb (fun '(old, _) => old =? id) (vs_originals s))
  then set_originals (vs_originals s ++ [(id, device)]) s else s.

Definition new_draft s : result VolumeError State :=
  _ ← ensure (vs_editing s) NotEditing;
  Ok (set_draft_field None s).

(** The closure may have changed the draft before it failed. *)
Definition edit s (change : Profile -> Profile * result VolumeError unit)
  : State * result VolumeError unit :=
  if vs_editing s then
    match vs_draft s with
    | None => (s, Err NoDraft)
    | Some draft => let '(draft, r) := change draft in (set_draft_field (Some draft) s, r)
    end
  else (s, Err NotEditing).

Definition set_draft s (draft : Profile) : result VolumeError State :=
  _ ← map_err ProfileErr (validate draft);
  _ ← ensure (vs_editing s) NotEditing;
  Ok (set_draft_field (Some draft) s).

Definition calibrated (f : Follower) : bool := negb (bool_decide (fo_mapping f = [])).

(** The draft and library [save_draft] is about to store. *)
Definition prepare_draft s (name : rstring) (copy : bool)
  : result VolumeError (Profile * Library * Z) :=
  _ ← ensure (vs_editing s) NotEditing;
  _ ← ensure_writable s;
  draft ← ok_or NoDraft (vs_draft s);
  let draft := with_pr_name (trim name) draft in
  let draft := if copy then with_pr_id 0 draft else draft in
  _ ← ensure (existsb calibrated (pr_followers draft)) NoMapping;
  let parts := (fun f => dr_id (fo_device f)) <$> filter (fun f => calibrated f = true) (pr_followers draft) in
  volume ← ok_or NoCommonIndex (nearest draft (pr_volume draft) parts);
  let draft := with_pr_volume volume draft in
  '(library, id) ← map_err ProfileErr (put (persisted s) draft);
  Ok (draft, library, id).

Definition save_draft s d path (name : rstring) (copy : bool) : State * FS * result VolumeError unit :=
  match prepare_draft s name copy with
  | Err e => (s, d, Err e)
  | Ok (draft, library, id) =>
      match save d library path with
      | (d, Err e) => (s, d, Err (ProfileErr e))
      | (d, Ok _) =>
          let draft := with_pr_id id draft in
          let s := set_library library s in
          let s := set_confirmed (Some (pr_id draft, pr_volume draft)) s in
          let s := set_master_seen None (set_dirty false (set_draft_field (Some draft) s)) in
          (set_message MsgNone s, d, Ok tt)
      end
  end.

Definition select s reg d path (id : Z) : State * Registry Sender * FS * result VolumeError unit :=
  if negb (bool_decide (vs_pending s = [])) then (s, reg, d, Err PendingRequests)
  else if negb (existsb (profile_with_id id) (li_profiles (vs_library s)))
  then (s, reg, d, Err NoSuchProfile)
  else if vs_editing s then
    (set_draft_field (find (profile_with_id id) (li_profiles (vs_library s))) s, reg, d, Ok tt)
  else
    match ensure_writable s with
    | Err e => (s, reg, d, Err e)
    | Ok _ =>
        let library := with_active (Some id) (persisted s) in
        match save d library path with
        | (d, Err e) => (s, reg, d, Err (ProfileErr e))
        | (d, Ok _) =>
            let s := set_library library (set_confirmed (current_volume library) s) in
            let s := set_master_seen None (set_blocked [] (set_pending [] s)) in
            let s := set_message MsgNone (set_dirty false (set_needs_fence true s)) in
            (s, deny_all reg, d, Ok tt)
        end
    end.

Definition delete s d path (id : Z) : State * FS * result VolumeError unit :=
  if negb (vs_editing s) then (s, d, Err NotEditing)
  else
    match ensure_writable s with
    | Err e => (s, d, Err e)
    | Ok _ =>
        let library := persisted s in
        let library := with_profiles
          (filter (fun p => negb (pr_id p =? id) = true) (li_profiles library)) library in
        let library := if bool_decide (li_active library = Some id)
                       then with_active None library else library in
        match save d library path with
        | (d, Err e) => (s, d, Err (ProfileErr e))
        | (d, Ok _) =>
            let s := set_library library (set_confirmed (current_volume library) s) in
            (set_dirty false (set_draft_field (current library) s), d, Ok tt)
        end
    end.

(** *** The panel's volume slider *)

(** Exactly one connected device matches the range. *)
Definition matching (snaps : list ReceiverSnapshot) (range : DeviceRange) : list ReceiverSnapshot :=
  filter (fun r => match rs_device r with Some d => matches range d | None => false end = true) snaps.

Definition devices_of (snaps : list ReceiverSnapshot) : list DeviceStatus := omap rs_device snaps.

Definition set_volume s reg (requested now : Z) : State * Registry Sender * result VolumeError unit :=
  if vs_editing s then (s, reg, Err WhileEditing)
  else
    let snaps := snapshots reg in
    match current (vs_library s) with
    | None => (s, reg, Err NoActiveProfile)
    | Some profile =>
        match matching snaps (pr_master profile) with
        | [master] =>
            let parts := participating profile (devices_of snaps) in
            match nearest profile requested parts with
            | None => (s, reg, Err NoCommonIndex)
            | Some index =>
                match panel_volume_request reg (rs_id master) index with
                | (reg, Err e) => (s, reg, Err (RegistryErr e))
                | (reg, Ok request) =>
                    let s := set_library (with_volume (pr_id profile) index (vs_library s)) s in
                    let s := set_needs_fence false s in
                    let s := set_pending
                      (bt_insert (rs_id master) (mkPending request index now) (vs_pending s)) s in
                    let s := set_blocked [] (set_message MsgNone s) in
                    (set_changed now (set_dirty true s), deny_all reg, Ok tt)
                end
            end
        | _ => (s, reg, Err MasterUnavailable)
        end
    end.

(** *** The worker's [tick] *)

(** The closure of [pending.retain], in key order: which requests stay, and
    the failures found. Taking a reply changes the registry. *)
Fixpoint settle_pending (now : Z) (ids : list Z) (pending : btree Pending) reg
  : btree Pending * Registry Sender * list (Z * Message) :=
  match pending with
  | [] => ([], reg, [])
  | (id, p) :: pending' =>
      if negb (bool_decide (id ∈ ids)) then settle_pending now ids pending' reg
      else
        match take_reply reg id (pe_request p) with
        | (reg, Some reply) =>
            let '(kept, reg, failures) := settle_pending now ids pending' reg in
            if ds_failed reply || negb (ds_volume reply =? pe_index p) || negb (ds_speaker reply)
               || ds_fixed reply
            then (kept, reg, (id, MsgCannotApply (ds_name reply)) :: failures)
            else (kept, reg, failures)
        | (reg, None) =>
            let '(kept, reg, failures) := settle_pending now ids pending' reg in
            if PENDING_TIMEOUT_MS <=? elapsed now (pe_at p)
            then (kept, reg, (id, MsgNoConfirmation) :: failures)
            else ((id, p) :: kept, reg, failures)
        end
  end.

(** [for (id, message) in failures]. *)
Definition block_failures s (failures : list (Z * Message)) : State :=
  foldl (fun s f => set_message f.2 (set_blocked (bs_insert f.1 (vs_blocked s)) s)) s failures.

(** The first half of [tick]: forget who left, settle what was asked. *)
Definition settle (now : Z) s reg : State * Registry Sender :=
  let ids := rs_id <$> snapshots reg in
  let s := set_blocked (bt_retain (fun id _ => bool_decide (id ∈ ids)) (vs_blocked s)) s in
  let '(kept, reg, failures) := settle_pending now ids (vs_pending s) reg in
  (block_failures (set_pending kept s) failures, reg).

(** The branch that fences a master whose volume the panel set. *)
Definition send_fence (now : Z) s reg (profile : Profile) (master : ReceiverSnapshot)
    (device : DeviceStatus) (parts : list rstring) : State * Registry Sender :=
  let reg := deny_all reg in
  if bs_contains (rs_id master) (vs_blocked s) then (s, reg)
  else
    match nearest profile (pr_volume profile) parts with
    | None => (s, reg)
    | Some index =>
        match panel_volume_request reg (rs_id master) index with
        | (reg, Ok request) =>
            let s := set_master_seen (Some (rs_id master, ds_volume device)) s in
            let s := set_needs_fence false s in
            (set_pending (bt_insert (rs_id master) (mkPending request index now) (vs_pending s)) s, reg)
        | (reg, Err e) =>
            (set_blocked (bs_insert (rs_id master) (vs_blocked s)) (set_message (MsgRegistry e) s), reg)
        end
    end.

(** The volume each phone should have: [None] is the panic of
    [follower.mapping[&index]]. *)
Fixpoint follower_targets (snaps : list ReceiverSnapshot) (parts : list rstring) (index : Z)
    (followers : list Follower) : option (list (Z * Z)) :=
  match followers with
  | [] => Some []
  | f :: followers' =>
      if negb (bool_decide (dr_id (fo_device f) ∈ parts))
      then follower_targets snaps parts index followers'
      else
        match matching snaps (fo_device f) with
        | [] => follower_targets snaps parts index followers'
        | receiver :: _ =>
            target ← bt_get index (fo_mapping f);
            targets ← follower_targets snaps parts index followers';
            Some ((rs_id receiver, target) :: targets)
        end
  end.

Definition find_snapshot (snaps : list ReceiverSnapshot) (id : Z) : option ReceiverSnapshot :=
  find (fun r => rs_id r =? id) snaps.

(** One target; [None] is the panic of the [unwrap] on its device. *)
Definition drive_one (now : Z) (snaps : list ReceiverSnapshot) s reg (ready : bool) (target : Z * Z)
  : option (State * Registry Sender * bool) :=
  let '(id, volume) := target in
  actual ← find_snapshot snaps id ≫= rs_device;
  let waiting := bt_contains_key id (vs_pending s) in
  let blocked := bs_contains id (vs_blocked s) in
  if negb (ds_volume actual =? volume) || waiting || blocked then
    if negb waiting && negb blocked then
      match restore_volume_request reg id volume with
      | (reg, Ok request) =>
          Some (set_pending (bt_insert id (mkPending request volume now) (vs_pending s)) s, reg, false)
      | (reg, Err e) =>
          Some (set_blocked (bs_insert id (vs_blocked s)) (set_message (MsgRegistry e) s), reg, false)
      end
    else Some (s, reg, false)
  else Some (s, reg, ready).

Fixpoint drive (now : Z) (snaps : list ReceiverSnapshot) s reg (ready : bool) (targets : list (Z * Z))
  : option (State * Registry Sender * bool) :=
  match targets with
  | [] => Some (s, reg, ready)
  | t :: targets' =>
      '(s, reg, ready) ← drive_one now snaps s reg ready t;
      drive now snaps s reg ready targets'
  end.

(** What [approve] is told to expect. *)
Definition expected_of (snaps : list ReceiverSnapshot) (targets : list (Z * Z)) : list (Z * DeviceStatus) :=
  omap (fun t => pair t.1 <$> (find_snapshot snaps t.1 ≫= rs_device)) targets.

Definition save_confirmed (now : Z) s d path : State * FS :=
  match ensure_writable s with
  | Err e => (set_changed (now + SAVE_RETRY_MS) (set_message (MsgSaveFailed e) s), d)
  | Ok _ =>
      match save d (persisted s) path with
      | (d, Ok _) => (set_dirty false s, d)
      | (d, Err e) =>
          (set_changed (now + SAVE_RETRY_MS) (set_message (MsgSaveFailed (ProfileErr e)) s), d)
      end
  end.

(** The second half of [tick], once the master index is known. *)
Definition apply_index (now : Z) s reg d path (profile : Profile) (master : ReceiverSnapshot)
    (snaps : list ReceiverSnapshot) (parts : list rstring) (index : Z)
  : option (State * Registry Sender * FS) :=
  let s := match current (vs_library s) with
           | Some p =>
               if negb (pr_volume p =? index)
               then set_changed now (set_dirty true
                      (set_library (with_volume (pr_id profile) index (vs_library s)) s))
               else s
           | None => s
           end in
  followers ← follower_targets snaps parts index (pr_followers profile);
  let targets := (rs_id master, index) :: followers in
  '(s, reg, ready) ← drive now snaps s reg true targets;
  let reg := if ready : bool then approve reg (expected_of snaps targets) else deny_all reg in
  let s := if ready : bool then set_confirmed (Some (pr_id profile, index)) s else s in
  if ready && vs_dirty s && (SAVE_DELAY_MS <=? elapsed now (vs_changed s)) then
    let '(s, d) := save_confirmed now s d path in Some (s, reg, d)
  else Some (s, reg, d).

Definition tick (now : Z) s reg d path : option (State * Registry Sender * FS) :=
  if vs_editing s then Some (s, deny_all reg, d)
  else
    let snaps := snapshots reg in
    let '(s, reg) := settle now s reg in
    match current (vs_library s) with
    | None => Some (s, deny_all reg, d)
    | Some profile =>
        match matching snaps (pr_master profile) with
        | [master] =>
            device ← rs_device master;
            let parts := participating profile (devices_of snaps) in
            if (vs_needs_fence s || has_panel_barrier reg (rs_id master))
               && negb (bt_contains_key (rs_id master) (vs_pending s))
            then
              let '(s, reg) := send_fence now s reg profile master device parts in
              Some (s, reg, d)
            else
              let '(reg, change) := take_unsolicited_volume reg (rs_id master) in
              let requested :=
                match vs_master_seen s, change with
                | Some (id, _), Some index => if id =? rs_id master then index else pr_volume profile
                | _, _ => pr_volume profile
                end in
              let s := set_master_seen (Some (rs_id master, ds_volume device)) s in
              match nearest profile requested parts with
              | None => Some (s, deny_all reg, d)
              | Some index => apply_index now s reg d path profile master snaps parts index
              end
        | _ => Some (set_master_seen None s, deny_all reg, d)
        end
    end.

(** ** The whole system: controller, registry, disk and transmission switch *)

Record System : Type := mkSystem {
  sy_state : State;
  sy_registry : Registry Sender;
  sy_disk : FS;
  sy_gate : AudioTransmissionGate;
}.

Inductive system_op : Type :=
(** the sessions and the rest of the server; [approve] is called by [tick] alone *)
| SysRegistry (op : registry_op Sender)
| SysTick (now : Z)
| SysOpen
| SysClose (now : Z)
| SysSetMaster (master : DeviceStatus)
| SysRemember (id : Z) (device : DeviceStatus)
| SysNewDraft
| SysEdit (change : Profile -> Profile * result VolumeError unit)
| SysSetDraft (draft : Profile)
| SysSaveDraft (name : rstring) (copy : bool)
| SysSelect (id : Z)
| SysDelete (id : Z)
| SysSetVolume (requested now : Z)
| SysFinish
| SysWorkerExit
| SysSetEnabled (enabled : bool).

Definition with_state (y : System) s : System := mkSystem s (sy_registry y) (sy_disk y) (sy_gate y).

(** The state after an operation that may fail and then changes nothing. *)
Definition or_unchanged (y : System) {A} (f : A -> System) (r : result VolumeError A) : System :=
  match r with Ok a => f a | Err _ => y end.

Definition system_step path (y : System) (op : system_op) : option System :=
  let '(mkSystem s reg d gate) := y in
  match op with
  | SysRegistry op => Some (mkSystem s (registry_step reg op) d gate)
  | SysTick now => '(s, reg, d) ← tick now s reg d path; Some (mkSystem s reg d gate)
  | SysOpen => Some (or_unchanged y (fun '(s, reg, gate) => mkSystem s reg d gate) (open s reg gate))
  | SysClose now => let '(s, reg, gate) := close s reg gate now in Some (mkSystem s reg d gate)
  | SysSetMaster master => Some (or_unchanged y (with_state y) (set_master s master reg))
  | SysRemember id device => Some (with_state y (remember s id device))
  | SysNewDraft => Some (or_unchanged y (with_state y) (new_draft s))
  | SysEdit change => Some (with_state y (edit s change).1)
  | SysSetDraft draft => Some (or_unchanged y (with_state y) (set_draft s draft))
  | SysSaveDraft name copy =>
      let '(s, d, _) := save_draft s d path name copy in Some (mkSystem s reg d gate)
  | SysSelect id => let '(s, reg, d, _) := select s reg d path id in Some (mkSystem s reg d gate)
  | SysDelete id => let '(s, d, _) := delete s d path id in Some (mkSystem s reg d gate)
  | SysSetVolume requested now =>
      let '(s, reg, _) := set_volume s reg requested now in Some (mkSystem s reg d gate)
  | SysFinish => let '(s, d, _) := finish s d path in Some (mkSystem s reg d gate)
  | SysWorkerExit => let '(reg, gate) := worker_exit reg gate in Some (mkSystem s reg d gate)
  | SysSetEnabled enabled => Some (mkSystem s reg d (set_enabled gate enabled))
  end.

Fixpoint system_run path (y : System) (ops : list system_op) : option System :=
  match ops with
  | [] => Some y
  | op :: ops' => y ← system_step path y op; system_run path y ops'
  end.

(** Only [tick] calls [approve]. *)
Definition op_allowed (op : system_op) : Prop :=
  match op with SysRegistry op => approves op = false | _ => True end.

Definition system_start d path (now : Z) : System :=
  mkSystem (controller_new d path now) registry_default d gate_enabled.

(** ** What the controller promises *)

(** The device stands at the place the profile gives it: the master at the
    profile's volume, a follower at the index measured for that volume. *)
Definition in_place (p : Profile) (device : DeviceStatus) : Prop :=
  (matches (pr_master p) device = true /\ ds_volume device = pr_volume p) \/
  exists f, f ∈ pr_followers p /\ matches (fo_device f) device = true /\
            bt_get (pr_volume p) (fo_mapping f) = Some (ds_volume device).

Definition volume_consistent (l : Library) reg : Prop :=
  forall id r, get_receiver reg id = Some r -> gate_load reg (r_playback r) = true ->
    exists p device, current l = Some p /\ r_device r = Some device /\ in_place p device.

Definition quiet reg : Prop :=
  forall id r, get_receiver reg id = Some r -> gate_load reg (r_playback r) = false.

Record system_ok (y : System) : Prop := {
  so_registry : registry_wf (sy_registry y);
  so_consistent : volume_consistent (vs_library (sy_state y)) (sy_registry y);
  so_editing : vs_editing (sy_state y) = true -> quiet (sy_registry y);
}.

(** ** Registry calls that open no gate *)

Definition calm reg reg' : Prop := registry_wf reg -> registry_wf reg' /\ plays_back reg reg'.

Lemma calm_refl reg : calm reg reg.
Proof. intros Hwf. split; [done|apply plays_back_refl]. Qed.

Lemma calm_trans reg1 reg2 reg3 : calm reg1 reg2 -> calm reg2 reg3 -> calm reg1 reg3.
Proof.
  intros H12 H23 [Hwf Hb]%H12. apply H23 in Hwf as [Hwf Hb'].
  split; [done|by eapply plays_back_trans].
Qed.

Lemma calm_step reg op : approves op = false -> calm reg (registry_step reg op).
Proof. intros Hop Hwf. split; [by apply registry_step_wf|by apply registry_step_plays_back]. Qed.

Lemma calm_restore reg id v : calm reg (restore_volume_request reg id v).1.
Proof. by apply (calm_step reg (RegVolume id v RestoreSpeaker false)). Qed.
Lemma calm_panel reg id v : calm reg (panel_volume_request reg id v).1.
Proof. by apply (calm_step reg (RegVolume id v RestoreSpeaker true)). Qed.
Lemma calm_take_reply reg id q : calm reg (take_reply reg id q).1.
Proof. by apply (calm_step reg (RegTakeReply id q)). Qed.
Lemma calm_take_unsolicited reg id : calm reg (take_unsolicited_volume reg id).1.
Proof. by apply (calm_step reg (RegTakeUnsolicited id)). Qed.
Lemma calm_broadcast reg m : calm reg (broadcast reg m).
Proof. by apply (calm_step reg (RegBroadcast m)). Qed.
Lemma calm_deny reg : calm reg (deny_all reg).
Proof. by apply (calm_step reg RegDenyAll). Qed.

Lemma quiet_deny reg : registry_wf reg -> quiet (deny_all reg).
Proof.
  intros Hwf id r. unfold deny_all. rewrite get_receiver_store_each. intros Hr.
  by rewrite (store_each_load _ _ _ _ Hwf Hr).
Qed.

Lemma quiet_back reg reg' : quiet reg -> plays_back reg reg' -> quiet reg'.
Proof.
  intros Hq Hb id r' Hr'. destruct (gate_load reg' (r_playback r')) eqn:Hg; [|done].
  destruct (Hb _ _ Hr' Hg) as (r & Hr & Hg' & _). by rewrite (Hq _ _ Hr) in Hg'.
Qed.

Lemma matches_agree range a b :
  same_range a b = true -> playable a = playable b -> matches range a = matches range b.
Proof.
  unfold same_range, matches, playable. rewrite !andb_true_iff, bool_decide_eq_true, !Z.eqb_eq.
  intros [[Hid Hmin] Hmax] Hp. rewrite Hid, Hmin, Hmax, <- !andb_assoc. rewrite <- !andb_assoc in Hp. by rewrite Hp.
Qed.

Lemma in_place_agree p a b :
  same_range a b = true -> ds_volume a = ds_volume b -> playable a = playable b ->
  in_place p a -> in_place p b.
Proof.
  intros Hr Hv Hp [[Hm Hvol]|(f & Hf & Hm & Hmap)].
  - left. rewrite <- (matches_agree _ _ _ Hr Hp), <- Hv. done.
  - right. exists f. rewrite <- (matches_agree _ _ _ Hr Hp), <- Hv. done.
Qed.

Lemma consistent_back l reg reg' : volume_consistent l reg -> plays_back reg reg' -> volume_consistent l reg'.
Proof.
  intros Hc Hb id r' Hr' Hg'. destruct (Hb _ _ Hr' Hg') as (r & Hr & Hg & Ha).
  destruct (Hc _ _ Hr Hg) as (p & a & Hp & Hd & Hin). rewrite Hd in Ha.
  destruct Ha as [->|(x & b & [= <-] & -> & H1 & H2 & H3)]; [by exists p, a|].
  exists p, b. split_and!; [done..|by eapply in_place_agree].
Qed.

Lemma consistent_quiet l reg : quiet reg -> volume_consistent l reg.
Proof. intros Hq id r Hr Hg. by rewrite (Hq _ _ Hr) in Hg. Qed.

(** ** Snapshots *)

Lemma snapshot_ids reg : rs_id <$> snapshots reg = bt_keys (reg_receivers reg).
Proof. unfold snapshots, bt_keys. rewrite <- list_fmap_compose. done. Qed.

Lemma snapshot_ids_NoDup reg : registry_wf reg -> NoDup (rs_id <$> snapshots reg).
Proof. intros Hwf. rewrite snapshot_ids. apply bt_wf_NoDup, Hwf. Qed.

Lemma find_snapshot_in snaps r :
  NoDup (rs_id <$> snaps) -> r ∈ snaps -> find_snapshot snaps (rs_id r) = Some r.
Proof.
  unfold find_snapshot. induction snaps as [|x snaps IH]; csimpl; [set_solver|].
  intros [Hx Hnd]%NoDup_cons [->|Hin]%elem_of_cons; [by rewrite Z.eqb_refl|].
  destruct (Z.eqb_spec (rs_id x) (rs_id r)) as [Heq|]; [|by apply IH].
  destruct Hx. rewrite Heq. by apply list_elem_of_fmap_2.
Qed.

Lemma matching_in snaps range r :
  r ∈ matching snaps range -> r ∈ snaps /\ exists dev, rs_device r = Some dev /\ matches range dev = true.
Proof.
  unfold matching. rewrite list_elem_of_filter. intros [Hm Hr]. split; [done|].
  destruct (rs_device r) as [dev|]; [eauto|done].
Qed.

(** ** [tick]: settling *)

Lemma block_failures_fields s failures :
  vs_library (block_failures s failures) = vs_library s /\
  vs_editing (block_failures s failures) = vs_editing s /\
  vs_pending (block_failures s failures) = vs_pending s /\
  vs_load_error (block_failures s failures) = vs_load_error s /\
  vs_confirmed (block_failures s failures) = vs_confirmed s /\
  vs_needs_fence (block_failures s failures) = vs_needs_fence s /\
  vs_master_seen (block_failures s failures) = vs_master_seen s /\
  vs_dirty (block_failures s failures) = vs_dirty s /\
  vs_changed (block_failures s failures) = vs_changed s.
Proof.
  unfold block_failures. revert s. induction failures as [|f fs IH]; intros s; simpl; [done|].
  destruct (IH (set_message f.2 (set_blocked (bs_insert f.1 (vs_blocked s)) s)))
    as (-> & -> & -> & -> & -> & -> & -> & -> & ->). done.
Qed.

Lemma settle_pending_calm now ids pending reg kept reg' failures :
  settle_pending now ids pending reg = (kept, reg', failures) -> calm reg reg'.
Proof.
  revert reg kept reg' failures. induction pending as [|[id p] pending IH]; intros reg kept reg' failures; simpl.
  - intros [= <- <- <-]. apply calm_refl.
  - case_match; [apply IH|]. pose proof (calm_take_reply reg id (pe_request p)) as Hc.
    destruct (take_reply reg id (pe_request p)) as [reg1 [reply|]]; simpl in Hc;
      destruct (settle_pending now ids pending reg1) as [[k1 r1] f1] eqn:E;
      apply IH in E; intros Heq; case_match; injection Heq as <- <- <-; by eapply calm_trans.
Qed.

Lemma settle_fields now s reg s' reg' :
  settle now s reg = (s', reg') ->
  calm reg reg' /\ vs_library s' = vs_library s /\ vs_editing s' = vs_editing s /\
  vs_load_error s' = vs_load_error s /\ vs_needs_fence s' = vs_needs_fence s /\
  vs_confirmed s' = vs_confirmed s /\ vs_master_seen s' = vs_master_seen s.
Proof.
  unfold settle. destruct (settle_pending _ _ _ _) as [[kept reg1] failures] eqn:E.
  intros [= <- <-]. split; [by eapply settle_pending_calm|].
  match goal with |- context [block_failures ?x ?f] =>
    destruct (block_failures_fields x f) as (-> & -> & _ & -> & -> & -> & -> & _) end. done.
Qed.

(** ** [tick]: the targets *)

Lemma follower_targets_total snaps p requested parts index :
  nearest p requested parts = Some index ->
  forall followers, (forall f, f ∈ followers -> f ∈ pr_followers p) ->
  exists targets, follower_targets snaps parts index followers = Some targets.
Proof.
  intros Hn followers. induction followers as [|f fs IH]; simpl; intros Hsub; [eauto|].
  destruct IH as [targets Ht]; [set_solver|].
  case_bool_decide as Hin; simpl; [|eauto]. destruct (matching snaps (fo_device f)); [eauto|].
  destruct (nearest_mapped _ _ _ _ f Hn) as [v ->]; [set_solver|done|]. simpl. rewrite Ht. simpl. eauto.
Qed.

(** A target comes from a follower whose device is connected. *)
Lemma follower_targets_in snaps parts index followers targets id v :
  follower_targets snaps parts index followers = Some targets -> (id, v) ∈ targets ->
  exists f r dev, f ∈ followers /\ r ∈ snaps /\ rs_id r = id /\ rs_device r = Some dev /\
    matches (fo_device f) dev = true /\ bt_get index (fo_mapping f) = Some v.
Proof.
  revert targets. induction followers as [|f fs IH]; simpl; intros targets; [intros [= <-]; set_solver|].
  assert (forall ts, follower_targets snaps parts index fs = Some ts -> (id, v) ∈ ts ->
    exists g r dev, g ∈ f :: fs /\ r ∈ snaps /\ rs_id r = id /\ rs_device r = Some dev /\
      matches (fo_device g) dev = true /\ bt_get index (fo_mapping g) = Some v) as Hrest.
  { intros ts Hts Hin. destruct (IH _ Hts Hin) as (g & r & dev & Hg & Hr).
    exists g, r, dev. split; [set_solver|done]. }
  case_match; [apply Hrest|]. destruct (matching snaps (fo_device f)) as [|r rs] eqn:Hm; [apply Hrest|].
  destruct (bt_get index (fo_mapping f)) as [w|] eqn:Hw; simpl; [|done].
  destruct (follower_targets snaps parts index fs) as [ts|]; simpl; [|done].
  intros [= <-] [[= -> ->]|Hin]%elem_of_cons; [|by apply (Hrest ts)].
  destruct (matching_in snaps (fo_device f) r) as (Hr & dev & Hd & Hmd); [rewrite Hm; set_solver|].
  exists f, r, dev. set_solver.
Qed.

(** Every target of a tick is a connected device with a report. *)
Definition targets_known (snaps : list ReceiverSnapshot) (targets : list (Z * Z)) : Prop :=
  Forall (fun t => is_Some (find_snapshot snaps t.1 ≫= rs_device)) targets.

Lemma follower_targets_known snaps parts index followers targets :
  NoDup (rs_id <$> snaps) -> follower_targets snaps parts index followers = Some targets ->
  targets_known snaps targets.
Proof.
  intros Hnd Ht. apply Forall_forall. intros [id v] Hin.
  destruct (follower_targets_in _ _ _ _ _ _ _ Ht Hin) as (f & r & dev & _ & Hr & <- & Hd & _).
  simpl. rewrite (find_snapshot_in _ _ Hnd Hr). simpl. by eexists.
Qed.

(** ** [tick]: driving the targets *)

Lemma drive_one_spec now snaps s reg ready t :
  is_Some (find_snapshot snaps t.1 ≫= rs_device) ->
  exists s' reg' ready', drive_one now snaps s reg ready t = Some (s', reg', ready') /\
    calm reg reg' /\ vs_library s' = vs_library s /\ vs_editing s' = vs_editing s /\
    vs_load_error s' = vs_load_error s /\ vs_dirty s' = vs_dirty s /\
    vs_changed s' = vs_changed s /\ vs_confirmed s' = vs_confirmed s /\
    vs_needs_fence s' = vs_needs_fence s /\
    (ready' = true -> ready = true /\ s' = s /\ reg' = reg /\
       bt_contains_key t.1 (vs_pending s) = false /\ bs_contains t.1 (vs_blocked s) = false /\
       (ds_volume <$> (find_snapshot snaps t.1 ≫= rs_device)) = Some t.2) /\
    (forall id, bt_contains_key id (vs_pending s) = true -> bt_get id (vs_pending s') = bt_get id (vs_pending s)) /\
    (forall id p, bt_get id (vs_pending s') = Some p -> bt_get id (vs_pending s) = Some p \/ pe_at p = now).
Proof.
  intros [actual Ha]. destruct t as [id v]. simpl in *. unfold drive_one. rewrite Ha. simpl.
  destruct (negb (ds_volume actual =? v) || bt_contains_key id (vs_pending s)
            || bs_contains id (vs_blocked s)) eqn:Hcond.
  - destruct (negb (bt_contains_key id (vs_pending s)) && negb (bs_contains id (vs_blocked s))) eqn:Hfree.
    + pose proof (calm_restore reg id v) as Hc.
      destruct (restore_volume_request reg id v) as [reg1 [q|e]]; simpl in Hc;
        eexists _, _, _; (split; [reflexivity|]); simpl; split_and!; try done; try (by auto).
      * intros i. rewrite bt_get_insert. apply andb_true_iff in Hfree as [Hfree _].
        destruct (Z.eqb_spec i id) as [->|]; [|done]. intros Hi. rewrite Hi in Hfree. done.
      * intros i p. rewrite bt_get_insert. destruct (i =? id); [|by left]. intros [= <-]. by right.
    + eexists _, _, _. split; [reflexivity|]. split_and!; try done; try (by auto). apply calm_refl.
  - eexists _, _, _. split; [reflexivity|]. apply orb_false_iff in Hcond as [[Hv Hp]%orb_false_iff Hb].
    apply negb_false_iff, Z.eqb_eq in Hv. split_and!; try done; try (by auto); [apply calm_refl|].
    intros ->. by rewrite Hv.
Qed.

Lemma drive_spec now snaps targets s reg ready :
  targets_known snaps targets ->
  exists s' reg' ready', drive now snaps s reg ready targets = Some (s', reg', ready') /\
    calm reg reg' /\ vs_library s' = vs_library s /\ vs_editing s' = vs_editing s /\
    vs_load_error s' = vs_load_error s /\ vs_dirty s' = vs_dirty s /\
    vs_changed s' = vs_changed s /\ vs_confirmed s' = vs_confirmed s /\
    vs_needs_fence s' = vs_needs_fence s /\
    (ready' = true -> ready = true /\ s' = s /\ reg' = reg /\
       Forall (fun t => ds_volume <$> (find_snapshot snaps t.1 ≫= rs_device) = Some t.2) targets) /\
    (forall id, bt_contains_key id (vs_pending s) = true -> bt_get id (vs_pending s') = bt_get id (vs_pending s)) /\
    (forall id p, bt_get id (vs_pending s') = Some p -> bt_get id (vs_pending s) = Some p \/ pe_at p = now).
Proof.
  revert s reg ready. induction targets as [|t ts IH]; intros s reg ready; simpl.
  - intros _. eexists _, _, _. split; [reflexivity|]. split_and!; try done; [apply calm_refl|by auto].
  - intros [Ht Hts]%Forall_cons.
    destruct (drive_one_spec now snaps s reg ready t Ht)
      as (s1 & reg1 & ready1 & -> & Hc & L1 & E1 & LE1 & D1 & C1 & CF1 & NF1 & Hr1 & Hk1 & Hn1). simpl.
    destruct (IH s1 reg1 ready1 Hts)
      as (s2 & reg2 & ready2 & -> & Hc2 & L2 & E2 & LE2 & D2 & C2 & CF2 & NF2 & Hr2 & Hk2 & Hn2).
    eexists _, _, _. split; [reflexivity|]. split_and!; try congruence; [by eapply calm_trans| | |].
    + intros (Hready & -> & -> & Hall)%Hr2. apply Hr1 in Hready as (-> & -> & -> & _ & _ & Hv).
      split_and!; [done..|]. by constructor.
    + intros id Hid. rewrite Hk2, Hk1; [done|done|].
      unfold bt_contains_key in *. by rewrite Hk1.
    + intros id p [Hp|Hp]%Hn2; [|by right]. by apply Hn1.
Qed.

(** ** The library's current profile *)

Lemma current_with_volume l p v :
  current l = Some p -> current (with_volume (pr_id p) v l) = Some (with_pr_volume v p).
Proof.
  unfold current, with_volume. intros Hcur.
  pose proof (update_first_spec (profile_with_id (pr_id p)) (with_pr_volume v) (li_profiles l)) as Hu.
  pose proof (find_Some _ _ _ Hcur) as [Hin Hid]. apply bool_decide_eq_true in Hid.
  destruct (update_first _ _ _) as [ps|].
  - destruct Hu as (l1 & x & l2 & Hl & Hx%Z.eqb_eq & Hl1 & ->). simpl. rewrite Hl in Hcur.
    assert (Forall (fun y => bool_decide (Some (pr_id y) = li_active l) = false) l1) as Hl1'.
    { eapply Forall_impl; [exact Hl1|]. simpl. intros y Hy%Z.eqb_neq.
      apply bool_decide_eq_false. congruence. }
    rewrite find_app_none in Hcur |- * by done. simpl in *.
    rewrite bool_decide_eq_true_2 in Hcur by congruence. injection Hcur as ->.
    by rewrite bool_decide_eq_true_2.
  - rewrite Forall_forall in Hu. specialize (Hu _ Hin). unfold profile_with_id in Hu. by rewrite Z.eqb_refl in Hu.
Qed.

(** ** [tick]: the approval *)

(** The library once the master index is settled. *)
Definition indexed (profile : Profile) (index : Z) (l : Library) : Library :=
  match current l with
  | Some p => if negb (pr_volume p =? index) then with_volume (pr_id profile) index l else l
  | None => l
  end.

Lemma current_indexed l p index :
  current l = Some p -> current (indexed p index l) = Some (with_pr_volume index p).
Proof.
  intros Hcur. unfold indexed. rewrite Hcur. destruct (Z.eqb_spec (pr_volume p) index) as [<-|]; simpl.
  - rewrite Hcur. by destruct p.
  - by apply current_with_volume.
Qed.

Lemma approve_in_place reg snaps l profile parts index master targets :
  registry_wf reg -> NoDup (rs_id <$> snaps) -> current l = Some profile ->
  master ∈ matching snaps (pr_master profile) ->
  follower_targets snaps parts index (pr_followers profile) = Some targets ->
  Forall (fun t => ds_volume <$> (find_snapshot snaps t.1 ≫= rs_device) = Some t.2)
    ((rs_id master, index) :: targets) ->
  volume_consistent (indexed profile index l)
    (approve reg (expected_of snaps ((rs_id master, index) :: targets))).
Proof.
  intros Hwf Hnd Hcur Hmaster Htargets Hvol id r Hr Hg.
  destruct (approve_playing_as reg _ Hwf id r Hr Hg) as (dev & e & Hd & Hin & Hstill).
  exists (with_pr_volume index profile), dev. split; [by apply current_indexed|]. split; [done|].
  apply list_elem_of_omap in Hin as ([tid v] & Ht & Heq). simpl in Heq.
  destruct (find_snapshot snaps tid ≫= rs_device) as [e'|] eqn:Hsnap; simpl in Heq; [|done].
  injection Heq as -> ->. rewrite Forall_forall in Hvol. pose proof (Hvol _ Ht) as Hv. simpl in Hv.
  rewrite Hsnap in Hv. injection Hv as Hv.
  assert (forall range, matches range e = true -> matches range dev = true /\ ds_volume dev = v) as Hmatch.
  { intros range Hm. unfold still_as in Hstill. rewrite !andb_true_iff, Z.eqb_eq in Hstill.
    destruct Hstill as [[Hsr Hvv] Hp]. split; [|congruence].
    rewrite (matches_agree range dev e Hsr); [done|]. unfold playable in *. unfold matches in Hm.
    rewrite !andb_true_iff in Hm. destruct Hm as [[[_ ->] ->] ->]. by rewrite Hp. }
  apply elem_of_cons in Ht as [[= -> ->]|Ht].
  - destruct (matching_in _ _ _ Hmaster) as (Hm & dev0 & Hdev0 & Hmd).
    rewrite (find_snapshot_in _ _ Hnd Hm) in Hsnap. simpl in Hsnap. simplify_eq.
    left. simpl. by apply Hmatch.
  - destruct (follower_targets_in _ _ _ _ _ _ _ Htargets Ht) as (f & x & dev0 & Hf & Hx & <- & Hdev0 & Hmd & Hmap).
    rewrite (find_snapshot_in _ _ Hnd Hx) in Hsnap. simpl in Hsnap. simplify_eq.
    right. exists f. simpl. destruct (Hmatch _ Hmd) as [H1 H2]. rewrite H2. done.
Qed.

Lemma save_confirmed_fields now s d path s' d' :
  save_confirmed now s d path = (s', d') ->
  vs_library s' = vs_library s /\ vs_editing s' = vs_editing s /\ vs_load_error s' = vs_load_error s /\
  vs_pending s' = vs_pending s /\ (is_Some (vs_load_error s) -> d' = d).
Proof.
  unfold save_confirmed, ensure_writable. destruct (vs_load_error s) eqn:Hle.
  - intros [= <- <-]. done.
  - destruct (save d (persisted s) path) as [d1 [[]|e]]; intros [= <- <-]; split_and!; try done; by intros [].
Qed.

Lemma apply_index_spec now s reg d path profile master snaps parts requested index :
  registry_wf reg -> NoDup (rs_id <$> snaps) -> current (vs_library s) = Some profile ->
  master ∈ matching snaps (pr_master profile) -> nearest profile requested parts = Some index ->
  exists s' reg' d', apply_index now s reg d path profile master snaps parts index = Some (s', reg', d') /\
    registry_wf reg' /\ volume_consistent (vs_library s') reg' /\
    vs_library s' = indexed profile index (vs_library s) /\ vs_editing s' = vs_editing s /\
    vs_load_error s' = vs_load_error s /\ (is_Some (vs_load_error s) -> d' = d) /\
    (forall id p, bt_get id (vs_pending s') = Some p -> bt_get id (vs_pending s) = Some p \/ pe_at p = now).
Proof.
  intros Hwf Hnd Hcur Hm Hn. unfold apply_index. rewrite Hcur.
  set (s1 := if negb (pr_volume profile =? index) then _ else s).
  assert (vs_library s1 = indexed profile index (vs_library s) /\ vs_editing s1 = vs_editing s /\
          vs_load_error s1 = vs_load_error s /\ vs_pending s1 = vs_pending s) as (HL & HE & HLE & HP).
  { unfold s1, indexed. rewrite Hcur. by destruct (negb (pr_volume profile =? index)). }
  clearbody s1.
  destruct (follower_targets_total snaps profile requested parts index Hn (pr_followers profile))
    as [targets Ht]; [done|]. rewrite Ht. cbn [mbind option_bind].
  destruct (matching_in _ _ _ Hm) as (Hin & dev & Hdev & _).
  assert (targets_known snaps ((rs_id master, index) :: targets)) as Hknown.
  { constructor; [|by eapply follower_targets_known]. simpl. rewrite (find_snapshot_in _ _ Hnd Hin). by exists dev. }
  destruct (drive_spec now snaps _ s1 reg true Hknown)
    as (s2 & reg2 & ready & Hdrive & Hc & L2 & E2 & LE2 & D2 & C2 & CF2 & NF2 & Hready & Hk & Hnew).
  rewrite Hdrive. cbn [mbind option_bind]. destruct (Hc Hwf) as [Hwf2 _].
  set (reg3 := if ready then approve reg2 _ else deny_all reg2). set (s3 := if ready then set_confirmed _ s2 else s2).
  assert (registry_wf reg3 /\ volume_consistent (indexed profile index (vs_library s)) reg3) as [Hwf3 Hcons].
  { unfold reg3. destruct ready.
    - destruct (Hready eq_refl) as (_ & -> & -> & Hvol). split; [by apply approve_wf|].
      by eapply approve_in_place.
    - split; [by apply store_each_false_wf|]. apply consistent_quiet. by apply quiet_deny. }
  assert (vs_library s3 = indexed profile index (vs_library s) /\ vs_editing s3 = vs_editing s /\
          vs_load_error s3 = vs_load_error s /\ vs_pending s3 = vs_pending s2) as (HL3 & HE3 & HLE3 & HP3).
  { unfold s3. destruct ready; simpl; split_and!; congruence. }
  assert (forall id p, bt_get id (vs_pending s2) = Some p -> bt_get id (vs_pending s) = Some p \/ pe_at p = now)
    as Hnew' by (by rewrite <- HP).
  clearbody reg3 s3. case_match.
  - destruct (save_confirmed now s3 d path) as [s4 d4] eqn:Hsave.
    destruct (save_confirmed_fields _ _ _ _ _ _ Hsave) as (HL4 & HE4 & HLE4 & HP4 & Hd4).
    exists s4, reg3, d4. split; [done|]. rewrite HL4, HL3, HE4, HLE4, HP4, HP3. split_and!; try congruence; try done.
    rewrite <- HLE3. apply Hd4.
  - exists s3, reg3, d. split; [done|]. rewrite HL3, HP3. split_and!; try congruence; done.
Qed.

(** What a tick promises of its outcome. *)
Definition tick_promise (s : State) (reg : Registry Sender) (d : FS) (outcome : option (State * Registry Sender * FS)) : Prop :=
  exists s' reg' d', outcome = Some (s', reg', d') /\
    registry_wf reg' /\ volume_consistent (vs_library s') reg' /\
    vs_editing s' = vs_editing s /\ (vs_editing s = true -> quiet reg') /\
    vs_load_error s' = vs_load_error s /\ (is_Some (vs_load_error s) -> d' = d).

Lemma tick_quiet s reg d s' reg' :
  registry_wf reg' -> quiet reg' -> vs_editing s' = vs_editing s -> vs_load_error s' = vs_load_error s ->
  tick_promise s reg d (Some (s', reg', d)).
Proof. intros Hwf Hq HE HLE. exists s', reg', d. split_and!; try done. by apply consistent_quiet. Qed.

Lemma tick_deny s reg d s' reg' :
  registry_wf reg' -> vs_editing s' = vs_editing s -> vs_load_error s' = vs_load_error s ->
  tick_promise s reg d (Some (s', deny_all reg', d)).
Proof. intros Hwf. apply tick_quiet; [by apply store_each_false_wf|by apply quiet_deny]. Qed.

(** The fence goes out while the gates are closed. *)
Lemma send_fence_promise now s reg d s1 reg1 profile master dev parts :
  registry_wf reg1 -> vs_editing s1 = vs_editing s -> vs_load_error s1 = vs_load_error s ->
  let '(s', reg') := send_fence now s1 reg1 profile master dev parts in tick_promise s reg d (Some (s', reg', d)).
Proof.
  intros Hwf HE HLE. pose proof (quiet_deny _ Hwf) as Hqd. pose proof (store_each_false_wf _ Hwf) as Hwfd. fold (deny_all reg1) in Hwfd.
  assert (forall s' reg', calm (deny_all reg1) reg' -> vs_editing s' = vs_editing s -> vs_load_error s' = vs_load_error s ->
    tick_promise s reg d (Some (s', reg', d))) as Hcalm.
  { intros s' reg' Hcalm HE' HLE'. destruct (Hcalm Hwfd) as [Hwf' Hb']. apply tick_quiet; try done. by eapply quiet_back. }
  unfold send_fence. destruct (bs_contains (rs_id master) (vs_blocked s1)); [by apply Hcalm; [apply calm_refl|..]|].
  destruct (nearest profile (pr_volume profile) parts) as [index|]; [|by apply Hcalm; [apply calm_refl|..]].
  pose proof (calm_panel (deny_all reg1) (rs_id master) index) as Hcp.
  by destruct (panel_volume_request (deny_all reg1) (rs_id master) index) as [reg2 [q|e]]; apply Hcalm.
Qed.

(** What [tick] guarantees, whatever the state it starts from. *)
Lemma tick_spec now s reg d path :
  registry_wf reg -> (vs_editing s = true -> quiet reg) -> tick_promise s reg d (tick now s reg d path).
Proof.
  intros Hwf Hq. unfold tick. destruct (vs_editing s) eqn:Hed; [by apply tick_deny|].
  destruct (settle now s reg) as [s1 reg1] eqn:Hsettle.
  destruct (settle_fields _ _ _ _ _ Hsettle) as (Hc & HL & HE & HLE & _). destruct (Hc Hwf) as [Hwf1 _].
  destruct (current (vs_library s1)) as [profile|] eqn:Hcur; [|by apply tick_deny].
  destruct (matching (snapshots reg) (pr_master profile)) as [|master [|]] eqn:Hm; [by apply tick_deny| |by apply tick_deny].
  assert (master ∈ matching (snapshots reg) (pr_master profile)) as Hin by (rewrite Hm; set_solver).
  destruct (matching_in _ _ _ Hin) as (Hsn & dev & Hdev & _). rewrite Hdev. simpl.
  pose proof (snapshot_ids_NoDup _ Hwf) as Hnd.
  set (parts := participating profile (devices_of (snapshots reg))).
  destruct ((vs_needs_fence s1 || has_panel_barrier reg1 (rs_id master))
            && negb (bt_contains_key (rs_id master) (vs_pending s1))).
  { pose proof (send_fence_promise now s reg d s1 reg1 profile master dev parts Hwf1 HE HLE) as Hf.
    by destruct (send_fence now s1 reg1 profile master dev parts). }
  pose proof (calm_take_unsolicited reg1 (rs_id master)) as Hct.
  destruct (take_unsolicited_volume reg1 (rs_id master)) as [reg2 change]. simpl in Hct.
  destruct (Hct Hwf1) as [Hwf2 _].
  destruct (nearest profile _ parts) as [index|] eqn:Hn; [|by apply tick_deny].
  destruct (apply_index_spec now (set_master_seen (Some (rs_id master, ds_volume dev)) s1) reg2 d path
              profile master (snapshots reg) parts _ index Hwf2 Hnd Hcur Hin Hn)
    as (s' & reg' & d' & -> & H1 & H2 & _ & H4 & H5 & H6 & _). simpl in *.
  exists s', reg', d'. split_and!; try done; try congruence. rewrite <- HLE. done.
Qed.

(** ** Every operation keeps the promise *)

Lemma system_ok_quiet s reg d gate : registry_wf reg -> quiet reg -> system_ok (mkSystem s reg d gate).
Proof. intros Hwf Hq. split; simpl; [done|by apply consistent_quiet|done]. Qed.

(** What an operation that opens no gate and leaves the library alone needs
    to preserve. *)
Definition state_frame s s' : Prop :=
  vs_library s' = vs_library s /\ (vs_editing s' = true -> vs_editing s = true) /\
  vs_load_error s' = vs_load_error s.

Lemma state_frame_refl s : state_frame s s.
Proof. done. Qed.

Lemma state_frame_trans s1 s2 s3 : state_frame s1 s2 -> state_frame s2 s3 -> state_frame s1 s3.
Proof. intros (H1 & H2 & H3) (G1 & G2 & G3). split_and!; [congruence|auto|congruence]. Qed.

Lemma system_ok_frame y s reg d gate :
  system_ok y -> calm (sy_registry y) reg -> state_frame (sy_state y) s ->
  system_ok (mkSystem s reg d gate).
Proof.
  intros [H1 H2 H3] Hc (Hl & He & _). destruct (Hc H1) as [Hwf Hb]. split; simpl; [done| |].
  - rewrite Hl. by eapply consistent_back.
  - intros Hs. eapply quiet_back; [|exact Hb]. auto.
Qed.

Lemma restore_all_spec now originals s reg :
  calm reg (foldl (restore_one now) (s, reg) originals).2 /\
  state_frame s (foldl (restore_one now) (s, reg) originals).1.
Proof.
  revert s reg. induction originals as [|[id device] os IH]; intros s reg;
    [split; [apply calm_refl|apply state_frame_refl]|].
  cbn [foldl]. unfold restore_one at 2 4. pose proof (calm_restore reg id (ds_volume device)) as Hc.
  destruct (restore_volume_request reg id (ds_volume device)) as [reg1 [q|e]]; simpl in Hc;
    match goal with |- context [foldl _ (?s1, reg1) os] => destruct (IH s1 reg1) as [Hc' Hf] end;
    (split; [by eapply calm_trans|eapply state_frame_trans; [|exact Hf]; done]).
Qed.

Lemma close_spec s reg gate now :
  calm reg (close s reg gate now).1.2 /\ state_frame s (close s reg gate now).1.1.
Proof.
  unfold close. set (reg1 := broadcast (broadcast reg _) _).
  assert (calm reg reg1) as H1 by (eapply calm_trans; apply calm_broadcast).
  pose proof (restore_all_spec now (vs_originals (set_pending [] s))
    (set_originals [] (set_pending [] s)) reg1) as [Hc Hf].
  destruct (foldl _ _ _) as [s2 reg2]. simpl in *. split; [by eapply calm_trans|].
  destruct Hf as (H2 & H3 & H4). by split_and!.
Qed.

Lemma open_spec s reg gate s' reg' gate' :
  open s reg gate = Ok (s', reg', gate') ->
  reg' = deny_all reg /\ vs_load_error s' = vs_load_error s /\ vs_library s' = vs_library s /\
  vs_editing s = false /\ vs_editing s' = true.
Proof.
  unfold open. rewrite !ensure_bind, negb_true_iff. intros (He & _ & [= <- <- <-]). done.
Qed.

Lemma set_volume_spec s reg requested now s' reg' r :
  registry_wf reg -> set_volume s reg requested now = (s', reg', r) ->
  vs_load_error s' = vs_load_error s /\ registry_wf reg' /\
  ((s' = s /\ calm reg reg') \/ quiet reg').
Proof.
  intros Hwf. unfold set_volume.
  assert (forall e, (s, reg, Err e) = (s', reg', r) -> vs_load_error s' = vs_load_error s /\
    registry_wf reg' /\ ((s' = s /\ calm reg reg') \/ quiet reg')) as Hsame.
  { intros e [= <- <- <-]. split_and!; try done. left. split; [done|apply calm_refl]. }
  destruct (vs_editing s); [apply Hsame|]. destruct (current (vs_library s)) as [p|]; [|apply Hsame].
  destruct (matching (snapshots reg) (pr_master p)) as [|m [|]]; [apply Hsame| |apply Hsame].
  destruct (nearest p requested _) as [index|]; [|apply Hsame].
  pose proof (calm_panel reg (rs_id m) index) as Hc. destruct (Hc Hwf) as [Hwf1 _].
  destruct (panel_volume_request reg (rs_id m) index) as [reg1 [q|e]]; simpl in *; intros [= <- <- <-].
  - split_and!; [done|by apply store_each_false_wf|right; by apply quiet_deny].
  - split_and!; [done..|by left].
Qed.

Lemma save_draft_spec s d path name copy s' d' r :
  save_draft s d path name copy = (s', d', r) ->
  vs_load_error s' = vs_load_error s /\ vs_editing s' = vs_editing s /\
  (s' = s \/ vs_editing s = true) /\ (is_Some (vs_load_error s) -> d' = d).
Proof.
  unfold save_draft. destruct (prepare_draft s name copy) as [[[draft l] id]|e] eqn:Hp.
  - unfold prepare_draft in Hp. rewrite ensure_bind in Hp. destruct Hp as [He Hp].
    apply bind_unit_ok in Hp as [Hw _]. unfold ensure_writable in Hw.
    destruct (vs_load_error s) eqn:Hle; [done|].
    destruct (save d l path) as [d1 [[]|e]]; intros [= <- <- <-]; split_and!; simpl; try done; try (by right).
    all: by intros [].
  - intros [= <- <- <-]. split_and!; try done. by left.
Qed.

Lemma select_spec s reg d path id s' reg' d' r :
  registry_wf reg -> select s reg d path id = (s', reg', d', r) ->
  vs_load_error s' = vs_load_error s /\ (is_Some (vs_load_error s) -> d' = d) /\
  registry_wf reg' /\ ((reg' = reg /\ state_frame s s') \/ quiet reg').
Proof.
  intros Hwf. unfold select.
  assert (forall s1 d1 r1, vs_load_error s1 = vs_load_error s -> (is_Some (vs_load_error s) -> d1 = d) ->
    state_frame s s1 -> (s1, reg, d1, r1) = (s', reg', d', r) ->
    vs_load_error s' = vs_load_error s /\ (is_Some (vs_load_error s) -> d' = d) /\
    registry_wf reg' /\ ((reg' = reg /\ state_frame s s') \/ quiet reg')) as Hsame.
  { intros s1 d1 r1 H1 H2 H3 [= <- <- <- <-]. split_and!; try done. by left. }
  case_match; [by apply Hsame|]. case_match; [by apply Hsame|]. case_match; [by apply Hsame|].
  unfold ensure_writable. destruct (vs_load_error s) eqn:Hle; [apply Hsame; done|].
  destruct (save d _ path) as [d1 [[]|e]].
  - intros [= <- <- <- <-]. split_and!; [done|by intros []|by apply store_each_false_wf|].
    right. by apply quiet_deny.
  - apply Hsame; [done|by intros []|done].
Qed.

Lemma delete_spec s d path id s' d' r :
  delete s d path id = (s', d', r) ->
  vs_load_error s' = vs_load_error s /\ (is_Some (vs_load_error s) -> d' = d) /\
  (s' = s \/ (vs_editing s = true /\ vs_editing s' = true)).
Proof.
  unfold delete. destruct (vs_editing s) eqn:He; simpl.
  - unfold ensure_writable. destruct (vs_load_error s) eqn:Hle.
    + intros [= <- <- <-]. split_and!; try done. by left.
    + destruct (save d _ path) as [d1 [[]|e]]; intros [= <- <- <-]; split_and!; simpl; try done;
        try (by intros []); [by right|by left].
  - intros [= <- <- <-]. split_and!; try done. by left.
Qed.

Lemma finish_spec s d path s' d' r :
  finish s d path = (s', d', r) -> state_frame s s' /\ (is_Some (vs_load_error s) -> d' = d).
Proof.
  unfold finish, ensure_writable. destruct (vs_dirty s); [|by intros [= <- <- <-]].
  destruct (vs_load_error s) eqn:Hle; [by intros [= <- <- <-]|].
  destruct (save d _ path) as [d1 [[]|e]]; intros [= <- <- <-]; split; try done; by intros [].
Qed.

Lemma worker_exit_calm reg gate : calm reg (worker_exit reg gate).1.
Proof.
  unfold worker_exit. simpl. eapply calm_trans; [apply calm_deny|].
  eapply calm_trans; apply calm_broadcast.
Qed.

(** One operation returns, keeps the invariant, and never touches the disk when
    the library file could not be read. *)
Definition step_promise (y : System) (outcome : option System) : Prop :=
  exists y', outcome = Some y' /\ system_ok y' /\
    vs_load_error (sy_state y') = vs_load_error (sy_state y) /\
    (is_Some (vs_load_error (sy_state y)) -> sy_disk y' = sy_disk y).

Lemma step_frame s reg d gate s' reg' gate' :
  system_ok (mkSystem s reg d gate) -> calm reg reg' -> state_frame s s' ->
  step_promise (mkSystem s reg d gate) (Some (mkSystem s' reg' d gate')).
Proof.
  intros Hok Hc Hf. eexists. split; [reflexivity|]. simpl. split_and!; [|apply Hf|done]. by eapply system_ok_frame.
Qed.

(** Either nothing that matters changed, or everything is silent. *)
Lemma step_either s reg d gate s' reg' d' gate' :
  system_ok (mkSystem s reg d gate) -> vs_load_error s' = vs_load_error s ->
  (is_Some (vs_load_error s) -> d' = d) ->
  (calm reg reg' /\ state_frame s s') \/ (registry_wf reg' /\ quiet reg') ->
  step_promise (mkSystem s reg d gate) (Some (mkSystem s' reg' d' gate')).
Proof.
  intros Hok Hle Hd Hcase. eexists. split; [reflexivity|]. split_and!; simpl; try done. destruct Hcase as [[Hc Hf]|[Hwf Hq]].
  - by eapply (system_ok_frame (mkSystem s reg d gate)).
  - by apply system_ok_quiet.
Qed.

(** The operations of the calibration window on the draft. *)
Lemma set_master_frame s master reg s' : set_master s master reg = Ok s' -> state_frame s s'.
Proof. unfold set_master. rewrite !ensure_bind. by intros (_ & _ & [= <-]). Qed.

Lemma new_draft_frame s s' : new_draft s = Ok s' -> state_frame s s'.
Proof. unfold new_draft. rewrite ensure_bind. by intros (_ & [= <-]). Qed.

Lemma edit_frame s change : state_frame s (edit s change).1.
Proof.
  unfold edit. destruct (vs_editing s) eqn:He; [|done]. destruct (vs_draft s); [|done].
  destruct (change _). split_and!; simpl; [done|by rewrite He|done].
Qed.

Lemma set_draft_frame s draft s' : set_draft s draft = Ok s' -> state_frame s s'.
Proof. unfold set_draft. rewrite bind_unit_ok, ensure_bind. by intros (_ & _ & [= <-]). Qed.

Lemma system_step_spec path y op :
  system_ok y -> op_allowed op -> step_promise y (system_step path y op).
Proof.
  intros Hok Hop. pose proof Hok as [Hwf Hcons Hq]. destruct y as [s reg d gate].
  cbn [sy_state sy_registry sy_disk sy_gate] in *.
  assert (forall s', state_frame s s' -> step_promise (mkSystem s reg d gate) (Some (mkSystem s' reg d gate))) as Hstate
    by (intros s'; apply step_frame; [done|apply calm_refl]).
  destruct op as [op|now| |now|master|id device| |change|draft|name copy|id|id|requested now| | |enabled];
    cbn [system_step]; unfold with_state; cbn [sy_registry sy_disk sy_gate].
  - apply step_frame; [done|by apply calm_step|done].
  - destruct (tick_spec now s reg d path Hwf Hq) as (s' & reg' & d' & -> & H1 & H2 & H3 & H4 & H5 & H6).
    eexists. split; [reflexivity|]. split_and!; simpl; try done. split; simpl; try done.
    intros He. apply H4. congruence.
  - destruct (open s reg gate) as [[[s' reg'] gate']|e] eqn:Ho; simpl; [|by apply Hstate].
    destruct (open_spec _ _ _ _ _ _ Ho) as (-> & Hle & _).
    apply step_either; try done. right. split; [by apply store_each_false_wf|by apply quiet_deny].
  - destruct (close_spec s reg gate now) as [Hc Hf].
    destruct (close s reg gate now) as [[s' reg'] gate']. by apply step_frame.
  - destruct (set_master s master reg) as [s'|e] eqn:Hm; simpl; apply Hstate; [|done]. by eapply set_master_frame.
  - apply Hstate. unfold remember. by case_match.
  - destruct (new_draft s) as [s'|e] eqn:Hm; simpl; apply Hstate; [|done]. by eapply new_draft_frame.
  - apply Hstate, edit_frame.
  - destruct (set_draft s draft) as [s'|e] eqn:Hm; simpl; apply Hstate; [|done]. by eapply set_draft_frame.
  - destruct (save_draft s d path name copy) as [[s' d'] r] eqn:Hs.
    destruct (save_draft_spec _ _ _ _ _ _ _ _ Hs) as (H1 & H2 & H3 & H4). apply step_either; try done.
    destruct H3 as [->|H3]; [left; by split; [apply calm_refl|]|right; auto].
  - destruct (select s reg d path id) as [[[s' reg'] d'] r] eqn:Hs.
    destruct (select_spec _ _ _ _ _ _ _ _ _ Hwf Hs) as (H1 & H2 & H3 & H4). apply step_either; try done.
    destruct H4 as [[-> Hf]|H4]; [left; by split; [apply calm_refl|]|by right].
  - destruct (delete s d path id) as [[s' d'] r] eqn:Hs.
    destruct (delete_spec _ _ _ _ _ _ _ Hs) as (H1 & H2 & H3). apply step_either; try done.
    destruct H3 as [->|[H3 _]]; [left; by split; [apply calm_refl|]|right; auto].
  - destruct (set_volume s reg requested now) as [[s' reg'] r] eqn:Hs.
    destruct (set_volume_spec _ _ _ _ _ _ _ Hwf Hs) as (H1 & H2 & H3). apply step_either; try done.
    destruct H3 as [[-> Hc]|H3]; [by left|by right].
  - destruct (finish s d path) as [[s' d'] r] eqn:Hs.
    destruct (finish_spec _ _ _ _ _ _ Hs) as (H1 & H2). apply step_either; try done; [apply H1|]. left. split; [apply calm_refl|done].
  - apply step_frame; [done|apply (worker_exit_calm reg gate)|done].
  - apply step_frame; [done|apply calm_refl|done].
Qed.

Lemma system_run_spec path ops y :
  system_ok y -> Forall op_allowed ops ->
  exists y', system_run path y ops = Some y' /\ system_ok y' /\
    vs_load_error (sy_state y') = vs_load_error (sy_state y) /\
    (is_Some (vs_load_error (sy_state y)) -> sy_disk y' = sy_disk y).
Proof.
  revert y. induction ops as [|op ops IH]; intros y Hok Hops; simpl; [by exists y|].
  apply Forall_cons in Hops as [Hop Hops].
  destruct (system_step_spec path y op Hok Hop) as (y1 & -> & Hok1 & Hle1 & Hd1). simpl.
  destruct (IH y1 Hok1 Hops) as (y2 & -> & Hok2 & Hle2 & Hd2).
  exists y2. split_and!; [done..|congruence|]. intros Hsome. rewrite Hd2; [auto|by rewrite Hle1].
Qed.

Lemma system_start_ok d path now : system_ok (system_start d path now).
Proof.
  apply system_ok_quiet; [apply registry_default_wf|]. intros id r Hr. done.
Qed.

(** ** Opening: when everything stands, [tick] lets the phones play *)

Lemma snapshot_receiver reg r :
  registry_wf reg -> r ∈ snapshots reg ->
  exists q, get_receiver reg (rs_id r) = Some q /\ r_device q = rs_device r.
Proof.
  intros Hwf Hin. unfold snapshots in Hin. apply list_elem_of_fmap in Hin as ([id q] & -> & Hin). simpl.
  exists q. split; [|done]. apply bt_In_get; [apply Hwf|done].
Qed.

Lemma drive_standing now snaps targets s reg :
  vs_pending s = [] -> vs_blocked s = [] ->
  Forall (fun t => ds_volume <$> (find_snapshot snaps t.1 ≫= rs_device) = Some t.2) targets ->
  drive now snaps s reg true targets = Some (s, reg, true).
Proof.
  intros Hp Hb. induction 1 as [|[id v] ts Ht _ IH]; [done|]. cbn [drive].
  assert (drive_one now snaps s reg true (id, v) = Some (s, reg, true)) as ->; [|exact IH].
  unfold drive_one. simpl in Ht. destruct (find_snapshot snaps id ≫= rs_device) as [actual|]; [|done].
  injection Ht as <-. rewrite Hp, Hb. simpl. by rewrite Z.eqb_refl.
Qed.

(** Devices found at their targets satisfy the approval's own check. *)
Lemma standing_ready reg reg' snaps profile parts index master targets :
  registry_wf reg -> snaps = snapshots reg ->
  (forall id, get_receiver reg' id ≫= r_device = get_receiver reg id ≫= r_device) ->
  master ∈ matching snaps (pr_master profile) ->
  follower_targets snaps parts index (pr_followers profile) = Some targets ->
  approve_ready reg' (expected_of snaps ((rs_id master, index) :: targets)) = true.
Proof.
  intros Hwf -> Hdev Hm Ht. apply approve_ready_spec. intros id e Hin.
  apply list_elem_of_omap in Hin as ([tid v] & Hin & Heq). simpl in Heq.
  destruct (find_snapshot (snapshots reg) tid ≫= rs_device) as [e'|] eqn:Hsnap; simpl in Heq; [|done].
  injection Heq as -> ->. pose proof (snapshot_ids_NoDup _ Hwf) as Hnd.
  assert (exists x range, x ∈ snapshots reg /\ rs_id x = id /\ rs_device x = Some e /\ matches range e = true)
    as (x & range & Hx & <- & Hxd & Hmatch).
  { apply elem_of_cons in Hin as [[= -> ->]|Hin].
    - destruct (matching_in _ _ _ Hm) as (Hx & dev & Hd & Hmd). exists master, (pr_master profile).
      rewrite (find_snapshot_in _ _ Hnd Hx) in Hsnap. simpl in Hsnap. by simplify_eq.
    - destruct (follower_targets_in _ _ _ _ _ _ _ Ht Hin) as (f & x & dev & _ & Hx & <- & Hd & Hmd & _).
      exists x, (fo_device f). rewrite (find_snapshot_in _ _ Hnd Hx) in Hsnap. simpl in Hsnap. by simplify_eq. }
  destruct (snapshot_receiver _ _ Hwf Hx) as (q & Hq & Hqd). specialize (Hdev (rs_id x)). rewrite Hq in Hdev.
  simpl in Hdev. destruct (get_receiver reg' (rs_id x)) as [q'|]; simpl in Hdev; [|congruence].
  exists q', e. split_and!; [done|congruence|]. unfold still_as, same_range.
  rewrite bool_decide_eq_true_2 by done. rewrite !Z.eqb_refl. simpl. unfold matches in Hmatch.
  rewrite !andb_true_iff in Hmatch. destruct Hmatch as [[[_ H1] H2] H3]. unfold playable. by rewrite H1, H2, H3.
Qed.

Lemma approved_gate reg expected id :
  registry_wf reg -> approve_ready reg expected = true -> id ∈ expected.*1 ->
  exists r, get_receiver (approve reg expected) id = Some r /\
            gate_load (approve reg expected) (r_playback r) = true.
Proof.
  intros Hwf Hready Hin. pose proof Hin as ([id' e] & -> & Hin')%list_elem_of_fmap.
  destruct (proj1 (approve_ready_spec _ _) Hready _ _ Hin') as (r & dev & Hr & _ & _).
  exists r. unfold approve at 1. rewrite get_receiver_store_each. split; [done|].
  by apply (approve_load reg expected _ r Hwf Hr).
Qed.

Lemma settle_pending_fresh now ids pending reg kept reg' failures :
  settle_pending now ids pending reg = (kept, reg', failures) ->
  forall id p, (id, p) ∈ kept -> id ∈ ids /\ elapsed now (pe_at p) < PENDING_TIMEOUT_MS.
Proof.
  revert reg kept reg' failures. induction pending as [|[id0 p0] pending IH]; intros reg kept reg' failures; simpl.
  - intros [= <- <- <-]. set_solver.
  - case_bool_decide as Hin; simpl; [|apply IH].
    destruct (take_reply reg id0 (pe_request p0)) as [reg1 [reply|]];
      destruct (settle_pending now ids pending reg1) as [[k1 r1] f1] eqn:E; specialize (IH _ _ _ _ E).
    + intros Heq. case_match; injection Heq as <- <- <-; exact IH.
    + destruct (Z.leb_spec PENDING_TIMEOUT_MS (elapsed now (pe_at p0))); intros [= <- <- <-]; [exact IH|].
      intros id p [[= -> ->]|Hk]%elem_of_cons; [done|by apply IH].
Qed.

Lemma settle_fresh now s reg s' reg' :
  settle now s reg = (s', reg') ->
  forall id p, bt_get id (vs_pending s') = Some p -> elapsed now (pe_at p) < PENDING_TIMEOUT_MS.
Proof.
  unfold settle. destruct (settle_pending _ _ _ _) as [[kept reg1] failures] eqn:E. intros [= <- <-] id p.
  match goal with |- context [block_failures ?x ?f] =>
    destruct (block_failures_fields x f) as (_ & _ & -> & _) end.
  simpl. intros Hp%bt_get_In. by eapply settle_pending_fresh.
Qed.

(** ** The properties *)

(** C1. The system never desynchronises: in every state reachable from a cold
    start — through joins, departures, reports and replies in any order,
    ticks at any times (each one step over the registry), slider moves, profile selection and editing, the
    calibration window opening and closing — the worker never panics, and
    every phone whose gate is open stands exactly where the active profile
    puts it: the master at the profile's volume, a follower at the index
    measured for that volume, each on the device and range of the profile.
    While the calibration window is open no phone plays at all. *)
Theorem playing_phones_are_in_place (path : Path) (d : FS) (now : Z) (ops : list system_op)
  (Hops : Forall op_allowed ops) :
  exists y, system_run path (system_start d path now) ops = Some y /\
    registry_wf (sy_registry y) /\
    volume_consistent (vs_library (sy_state y)) (sy_registry y) /\
    (vs_editing (sy_state y) = true -> quiet (sy_registry y)).
Proof.
  destruct (system_run_spec path ops _ (system_start_ok d path now) Hops) as (y & Hy & [H1 H2 H3] & _).
  by exists y.
Qed.

(** An unreadable library is never overwritten: if [load] failed at the
    start, no sequence of operations writes to the disk. *)
Theorem unreadable_library_is_kept (path : Path) (d : FS) (now : Z) (e : ProfileError)
  (ops : list system_op) (y : System)
  (Hload : load d path = Err e) (Hops : Forall op_allowed ops)
  (Hrun : system_run path (system_start d path now) ops = Some y) :
  sy_disk y = d /\ vs_load_error (sy_state y) = Some e.
Proof.
  destruct (system_run_spec path ops _ (system_start_ok d path now) Hops) as (y' & Hy & _ & Hle & Hd).
  simplify_eq. unfold system_start, controller_new in *. simpl in *. rewrite Hload in *. simpl in *.
  split; [|done]. apply Hd. by exists e.
Qed.

(** Nothing waits forever: after every tick outside the calibration
    window, each request still waiting for its confirmation is younger than
    four seconds. *)
Theorem no_request_outlives_its_timeout (now : Z) s reg d path s' reg' d'
  (Hwf : registry_wf reg) (Hed : vs_editing s = false)
  (Htick : tick now s reg d path = Some (s', reg', d')) (id : Z) (p : Pending)
  (Hp : bt_get id (vs_pending s') = Some p) :
  elapsed now (pe_at p) < PENDING_TIMEOUT_MS.
Proof.
  assert (forall a, a = now -> elapsed now a < PENDING_TIMEOUT_MS) as Hnow
    by (intros a ->; unfold elapsed, PENDING_TIMEOUT_MS; lia).
  revert Htick Hp. unfold tick. rewrite Hed. destruct (settle now s reg) as [s1 reg1] eqn:Hsettle.
  pose proof (settle_fresh _ _ _ _ _ Hsettle id p) as Hfresh.
  destruct (settle_fields _ _ _ _ _ Hsettle) as (Hc & _). destruct (Hc Hwf) as [Hwf1 _].
  destruct (current (vs_library s1)) as [profile|] eqn:Hcur; [|by intros [= <- <- <-]].
  destruct (matching (snapshots reg) (pr_master profile)) as [|master [|]] eqn:Hm; [by intros [= <- <- <-]| |by intros [= <- <- <-]].
  assert (master ∈ matching (snapshots reg) (pr_master profile)) as Hin by (rewrite Hm; set_solver).
  destruct (matching_in _ _ _ Hin) as (_ & dev & Hdev & _). rewrite Hdev. cbn [mbind option_bind].
  destruct (_ && negb _).
  - unfold send_fence. destruct (bs_contains _ _); [by intros [= <- <- <-]|].
    destruct (nearest profile _ _) as [index|]; [|by intros [= <- <- <-]].
    destruct (panel_volume_request _ _ _) as [reg2 [q|e]]; intros [= <- <- <-]; [|done]. simpl.
    rewrite bt_get_insert. destruct (id =? rs_id master); [|done]. intros [= <-]. by apply Hnow.
  - pose proof (calm_take_unsolicited reg1 (rs_id master)) as Hct.
    destruct (take_unsolicited_volume reg1 (rs_id master)) as [reg2 change]. simpl in Hct.
    destruct (Hct Hwf1) as [Hwf2 _].
    destruct (nearest profile _ _) as [index|] eqn:Hn; [|by intros [= <- <- <-]].
    destruct (apply_index_spec now (set_master_seen (Some (rs_id master, ds_volume dev)) s1) reg2 d path
                profile master (snapshots reg) _ _ index Hwf2 (snapshot_ids_NoDup _ Hwf) Hcur Hin Hn)
      as (s2 & reg3 & d2 & -> & _ & _ & _ & _ & _ & _ & Hnew). intros [= <- <- <-] Hp.
    destruct (Hnew _ _ Hp) as [Hold|Hold]; [by apply Hfresh|by apply Hnow].
Qed.

(** C20. The phones do get to play: when nothing is pending or blocked, exactly
    one master is connected, and the master and every connected participating
    follower report the volumes the profile asks for, one tick opens the gates of all
    of them and confirms the volume. *)
Theorem tick_opens_standing_phones (now : Z) s reg d path (profile : Profile)
  (master : ReceiverSnapshot) (index : Z) (targets : list (Z * Z))
  (Hwf : registry_wf reg) (Hed : vs_editing s = false)
  (Hpending : vs_pending s = []) (Hblocked : vs_blocked s = []) (Hfence : vs_needs_fence s = false)
  (Hbarrier : has_panel_barrier reg (rs_id master) = false)
  (Hquiet : (take_unsolicited_volume reg (rs_id master)).2 = None)
  (Hcur : current (vs_library s) = Some profile)
  (Hmaster : matching (snapshots reg) (pr_master profile) = [master])
  (Hindex : nearest profile (pr_volume profile)
              (participating profile (devices_of (snapshots reg))) = Some index)
  (Htargets : follower_targets (snapshots reg) (participating profile (devices_of (snapshots reg)))
                index (pr_followers profile) = Some targets)
  (Hstand : Forall (fun t => ds_volume <$> (find_snapshot (snapshots reg) t.1 ≫= rs_device) = Some t.2)
              ((rs_id master, index) :: targets)) :
  exists s' reg' d', tick now s reg d path = Some (s', reg', d') /\
    vs_confirmed s' = Some (pr_id profile, index) /\
    forall id v, (id, v) ∈ (rs_id master, index) :: targets ->
      exists r, get_receiver reg' id = Some r /\ gate_load reg' (r_playback r) = true.
Proof.
  unfold tick. rewrite Hed. unfold settle.
  cbn [vs_pending vs_blocked set_blocked]. rewrite Hpending, Hblocked. cbn [settle_pending block_failures foldl].
  change (bt_retain _ []) with (@nil (Z * unit)).
  cbn [vs_library set_pending set_blocked vs_needs_fence vs_pending]. rewrite Hcur, Hmaster, Hfence, Hbarrier.
  assert (master ∈ matching (snapshots reg) (pr_master profile)) as Hin by (rewrite Hmaster; set_solver).
  destruct (matching_in _ _ _ Hin) as (_ & dev & Hdev & _). rewrite Hdev. cbn [mbind option_bind orb andb].
  pose proof (calm_take_unsolicited reg (rs_id master) Hwf) as [Hwf2 _].
  assert (forall id, get_receiver (take_unsolicited_volume reg (rs_id master)).1 id ≫= r_device =
                     get_receiver reg id ≫= r_device) as Hdevs.
  { intros id. unfold take_unsolicited_volume. destruct (get_receiver reg (rs_id master)); [|done]. by apply modify_proj. }
  destruct (take_unsolicited_volume reg (rs_id master)) as [reg2 change]. cbn [fst snd] in *. subst change.
  set (s1 := set_master_seen _ _). assert (vs_pending s1 = [] /\ vs_blocked s1 = [] /\ vs_library s1 = vs_library s)
    as (Hp1 & Hb1 & Hl1) by done.
  assert (match vs_master_seen (set_pending [] (set_blocked [] s)) with
          | Some (id, _) => pr_volume profile | None => pr_volume profile end = pr_volume profile) as Hreq
    by (by destruct (vs_master_seen _) as [[]|]).
  rewrite Hreq, Hindex. clear Hreq. clearbody s1. unfold apply_index. rewrite Hl1, Hcur, Htargets. cbn [mbind option_bind].
  set (s2 := if negb (pr_volume profile =? index) then _ else s1).
  assert (vs_pending s2 = [] /\ vs_blocked s2 = []) as (Hp2 & Hb2) by (unfold s2; by case_match).
  clearbody s2. rewrite (drive_standing _ _ _ _ _ Hp2 Hb2 Hstand). cbn [mbind option_bind andb].
  pose proof (standing_ready reg reg2 _ profile _ index master targets Hwf eq_refl Hdevs Hin Htargets) as Hready.
  set (expected := expected_of (snapshots reg) ((rs_id master, index) :: targets)) in *.
  assert (forall id v, (id, v) ∈ (rs_id master, index) :: targets ->
      exists r, get_receiver (approve reg2 expected) id = Some r /\
                gate_load (approve reg2 expected) (r_playback r) = true) as Hopen.
  { intros id v Hid. apply approved_gate; [done..|]. rewrite Forall_forall in Hstand. specialize (Hstand _ Hid).
    simpl in Hstand. destruct (find_snapshot (snapshots reg) id ≫= rs_device) as [e|] eqn:He; [|done].
    apply list_elem_of_fmap. exists (id, e). split; [done|]. apply list_elem_of_omap. exists (id, v). simpl. by rewrite He. }
  case_match; [|eexists _, _, _; split; [reflexivity|]; done].
  unfold save_confirmed. destruct (ensure_writable _) as [u|e]; [|eexists _, _, _; split; [reflexivity|]; done].
  destruct (save d _ path) as [d1 [u1|e1]]; eexists _, _, _; split; try reflexivity; done.
Qed.
End controller.

(** ** Witnesses: a room with a master and one calibrated follower *)

Definition room_disk : MemDisk := (save ([] : MemDisk) room_library room_path).1.
Definition speaker (id : rstring) (maximum request volume : Z) : DeviceStatus :=
  mkDeviceStatus request id [80; 104] volume 0 maximum false true false.

(** Two phones join and report where the profile wants them. *)
Definition joining : list (registry_op (Channel ControlMessage)) :=
  [RegRegister peer_a CONTROL_QUEUE; RegRegister peer_a CONTROL_QUEUE;
   RegUpdateDevice 0 (speaker [109] 15 0 3); RegUpdateDevice 1 (speaker [102] 10 0 2)].
Definition room_ops : list (system_op (Sender := Channel ControlMessage)) :=
  (SysRegistry <$> joining) ++ [SysTick 100; SysSetEnabled true; SysTick 200].

Lemma room_ops_allowed : Forall op_allowed room_ops.
Proof. repeat constructor. Qed.

Lemma playing_phones_are_in_place_witness :
  ((fun y => rs_playing <$> snapshots (sy_registry y)) <$>
     system_run room_path (system_start room_disk room_path 0) room_ops) = Some [true; true] /\
  exists y, system_run room_path (system_start room_disk room_path 0) room_ops = Some y /\
    registry_wf (sy_registry y) /\
    volume_consistent (vs_library (sy_state y)) (sy_registry y) /\
    (vs_editing (sy_state y) = true -> quiet (sy_registry y)).
Proof.
  split; [vm_compute; reflexivity|].
  apply playing_phones_are_in_place. apply room_ops_allowed.
Defined.

(** A disk whose library file is garbage. *)
Definition broken_disk : MemDisk := [(room_path, [0; 1; 2])].

Lemma unreadable_library_is_kept_witness :
  exists y, system_run room_path (system_start broken_disk room_path 0) room_ops = Some y /\
    sy_disk y = broken_disk /\ vs_load_error (sy_state y) = Some FileCorrupt.
Proof.
  destruct (system_run room_path (system_start broken_disk room_path 0) room_ops) as [y|] eqn:E;
    [|by vm_compute in E].
  exists y. split; [done|].
  eapply (unreadable_library_is_kept room_path broken_disk 0 FileCorrupt room_ops y);
    [vm_compute; reflexivity|apply room_ops_allowed|exact E].
Defined.

Definition room_registry : Registry (Channel ControlMessage) := registry_run registry_default joining.
Definition room_state : State := state_new room_library MsgNone 0.

Lemma room_registry_wf : registry_wf room_registry.
Proof. apply registry_run_wf, registry_default_wf. Qed.

(** After the panel asked for index 7, the master's request is outstanding. *)
Definition asked : State * Registry (Channel ControlMessage) :=
  (set_volume room_state room_registry 7 1000).1.

Lemma asked_wf : registry_wf asked.2.
Proof.
  destruct (set_volume room_state room_registry 7 1000) as [[s reg] r] eqn:E.
  assert (asked = (s, reg)) as -> by (unfold asked; by rewrite E).
  by destruct (set_volume_spec _ _ _ _ _ _ _ room_registry_wf E) as (_ & H & _).
Qed.

Lemma no_request_outlives_its_timeout_witness :
  exists s' reg' d' p, tick 2000 asked.1 asked.2 room_disk room_path = Some (s', reg', d') /\
    bt_get 0 (vs_pending s') = Some p /\ elapsed 2000 (pe_at p) < PENDING_TIMEOUT_MS.
Proof.
  destruct (tick 2000 asked.1 asked.2 room_disk room_path) as [[[s' reg'] d']|] eqn:E; [|by vm_compute in E].
  destruct (bt_get 0 (vs_pending s')) as [p|] eqn:Hp;
    [|vm_compute in E; injection E as <- _ _; by vm_compute in Hp].
  exists s', reg', d', p. split; [done|]. split; [done|].
  eapply (no_request_outlives_its_timeout 2000 asked.1 asked.2 room_disk room_path);
    [apply asked_wf|vm_compute; reflexivity|exact E|exact Hp].
Defined.

Definition the_room : Profile := default room_profile (current room_library).
Definition room_snapshot : ReceiverSnapshot :=
  mkReceiverSnapshot 0 peer_a (Some (speaker [109] 15 0 3)) false.

Lemma tick_opens_standing_phones_witness :
  exists s' reg' d', tick 100 room_state room_registry room_disk room_path = Some (s', reg', d') /\
    vs_confirmed s' = Some (1, 3) /\
    forall id v, (id, v) ∈ [(0, 3); (1, 2)] ->
      exists r, get_receiver reg' id = Some r /\ gate_load reg' (r_playback r) = true.
Proof.
  apply (tick_opens_standing_phones 100 room_state room_registry room_disk room_path
           the_room room_snapshot 3 [(1, 2)]); try (vm_compute; reflexivity).
  - apply room_registry_wf.
  - repeat constructor.
Defined.
