(* ===== verification/Transport.v ===== *)
(** * Transport: control framing and audio datagrams over QUIC

    [crates/transport/src/control.rs] and [datagram.rs].  The QUIC connection
    (quinn) and the message encoding (postcard) are interfaces: a send stream
    appends to the bytes the peer will read, a receive stream hands them out in
    order, the codec inverts itself. *)

From Stdlib Require Import ZArith Lia.
From S2P Require Import Prelude Wire Text.

Definition MAX_CONTROL_MESSAGE_BYTES : Z := 4 * 1024.

Inductive TransportError : Type :=
| Quinn
| ControlMessageTooLarge (actual maximum : Z)
| DatagramUnsupported
| DatagramTooLarge (actual maximum : Z)
| Certificate.

#[export] Instance TransportError_eq_dec : EqDecision TransportError.
Proof. solve_decision. Defined.

(** ** Interfaces *)

(** [ControlMessage::encode] and [ControlMessage::decode]: postcard. *)
Class ControlCodec : Type := {
  control_encode : ControlMessage -> option bytes;
  control_decode : bytes -> option ControlMessage;
}.

Class ControlCodecLaws `{!ControlCodec} : Prop := {
  control_decode_encode m b : control_encode m = Some b -> control_decode b = Some m;
}.

(** [quinn::SendStream]: [written] is what the peer can read, in order. *)
Class SendStream (W : Type) : Type := {
  write_all : W -> bytes -> W * bool;
  flush : W -> W * bool;
  written : W -> bytes;
}.

Class SendStreamLaws (W : Type) `{!SendStream W} : Prop := {
  write_all_ok w b w' : write_all w b = (w', true) -> written w' = written w ++ b;
  flush_written w : written (flush w).1 = written w;
}.

(** [quinn::RecvStream]: [pending] is what is still to come. *)
Class RecvStream (R : Type) : Type := {
  read_exact : R -> Z -> R * option bytes;
  pending : R -> bytes;
}.

Class RecvStreamLaws (R : Type) `{!RecvStream R} : Prop := {
  read_exact_enough r n :
    0 <= n <= Z.of_nat (length (pending r)) ->
    exists r', read_exact r n = (r', Some (take (Z.to_nat n) (pending r))) /\
               pending r' = drop (Z.to_nat n) (pending r);
  read_exact_some r n r' b :
    read_exact r n = (r', Some b) -> 0 <= n -> Z.of_nat (length b) = n /\ pending r = b ++ pending r';
}.

(** [quinn::Connection], as far as datagrams go. *)
Class QuicConnection (C : Type) : Type := {
  max_datagram_size : C -> option Z;
  send_datagram : C -> bytes -> C * bool;
}.

(** Every datagram handed to the connection is taken or refused, and the answer
    is what [send_datagram] returned. *)
Class QuicConnectionLaws (C : Type) `{!QuicConnection C} : Type := {
  handed : C -> list (bytes * bool);
  send_datagram_handed c b : handed (send_datagram c b).1 = handed c ++ [(b, (send_datagram c b).2)];
}.

Section handed_over.
Context {C : Type} `{!QuicConnection C} {Hquic : QuicConnectionLaws C}.

(** The datagrams the connection took, and those it refused, in order. *)
Definition sent (c : C) : list bytes := omap (fun a : bytes * bool => if a.2 then Some a.1 else None) (handed c).
Definition refused (c : C) : list bytes := omap (fun a : bytes * bool => if a.2 then None else Some a.1) (handed c).

Lemma send_datagram_answer c b c' answer :
  send_datagram c b = (c', answer) -> handed c' = handed c ++ [(b, answer)].
Proof. intros H. pose proof (send_datagram_handed c b) as Hh. by rewrite H in Hh. Qed.

Lemma send_datagram_ok c b c' : send_datagram c b = (c', true) -> sent c' = sent c ++ [b].
Proof. intros H. unfold sent. by rewrite (send_datagram_answer _ _ _ _ H), omap_app. Qed.

Lemma send_datagram_refused c b c' : send_datagram c b = (c', false) -> sent c' = sent c.
Proof. intros H. unfold sent. rewrite (send_datagram_answer _ _ _ _ H), omap_app. simpl. by rewrite app_nil_r. Qed.

(** Where nothing is refused, everything handed over is sent. *)
Lemma none_refused (c c' : C) bs answers :
  length answers = length bs -> handed c' = handed c ++ zip bs answers -> refused c' = refused c ->
  sent c' = sent c ++ bs.
Proof.
  intros Hlen Hh. unfold refused, sent. rewrite Hh, !omap_app. intros Hr. f_equal.
  rewrite <- (app_nil_r (omap _ (handed c))) in Hr at 2. apply app_inv_head in Hr. clear Hh.
  revert answers Hlen Hr. induction bs as [|b bs IH]; intros [|[] answers] Hlen Hr; try done.
  csimpl in *. f_equal. apply (IH answers); [lia|done].
Qed.
End handed_over.

(** ** [control.rs] *)

Section control.
Context {W R : Type} `{!SendStream W} `{!RecvStream R} {Hcodec : ControlCodec}.

(** [ControlWriter::send]. *)
Definition writer_send (w : W) (message : ControlMessage) : W * result TransportError unit :=
  match control_encode message with
  | None => (w, Err Quinn)
  | Some encoded =>
      let len := Z.of_nat (length encoded) in
      if MAX_CONTROL_MESSAGE_BYTES <? len
      then (w, Err (ControlMessageTooLarge len MAX_CONTROL_MESSAGE_BYTES))
      else if uint_max 16 <? len
      then (w, Err (ControlMessageTooLarge len MAX_CONTROL_MESSAGE_BYTES))
      else
        match write_all w (to_be_bytes 2 len) with
        | (w, false) => (w, Err Quinn)
        | (w, true) =>
            match write_all w encoded with
            | (w, false) => (w, Err Quinn)
            | (w, true) =>
                match flush w with
                | (w, false) => (w, Err Quinn)
                | (w, true) => (w, Ok tt)
                end
            end
        end
  end.

(** [ControlReader::receive]. *)
Definition reader_receive (r : R) : R * result TransportError ControlMessage :=
  match read_exact r 2 with
  | (r, None) => (r, Err Quinn)
  | (r, Some header) =>
      let len := from_be_bytes header in
      if MAX_CONTROL_MESSAGE_BYTES <? len
      then (r, Err (ControlMessageTooLarge len MAX_CONTROL_MESSAGE_BYTES))
      else
        match read_exact r len with
        | (r, None) => (r, Err Quinn)
        | (r, Some encoded) =>
            (r, match control_decode encoded with Some m => Ok m | None => Err Quinn end)
        end
  end.

(** A series of [send]s that stops at the first error, and of [receive]s. *)
Fixpoint send_all (w : W) (ms : list ControlMessage) : W * result TransportError unit :=
  match ms with
  | [] => (w, Ok tt)
  | m :: ms' => match writer_send w m with (w, Ok _) => send_all w ms' | (w, Err e) => (w, Err e) end
  end.

Fixpoint receive_n (r : R) (n : nat) : R * result TransportError (list ControlMessage) :=
  match n with
  | O => (r, Ok [])
  | S n' =>
      match reader_receive r with
      | (r, Err e) => (r, Err e)
      | (r, Ok m) => let '(r, ms) := receive_n r n' in (r, cons m <$> ms)
      end
  end.
End control.

(** ** [datagram.rs] *)

Section datagram.
Context {C : Type} `{!QuicConnection C}.

Definition sender_new (c : C) : result TransportError C :=
  match max_datagram_size c with None => Err DatagramUnsupported | Some _ => Ok c end.

Definition max_payload_len (c : C) : Z :=
  saturating_sub (default 0 (max_datagram_size c)) AUDIO_PACKET_HEADER_LEN.

(** [DatagramSender::send]. *)
Definition datagram_send (c : C) (packet : AudioPacket) : C * result TransportError unit :=
  let encoded := encode packet in
  match max_datagram_size c with
  | None => (c, Err DatagramUnsupported)
  | Some allowed =>
      let len := Z.of_nat (length encoded) in
      if allowed <? len then (c, Err (DatagramTooLarge len allowed))
      else
        match send_datagram c encoded with
        | (c, true) => (c, Ok tt)
        | (c, false) => (c, Err Quinn)
        end
  end.

(** [DatagramReceiver::receive], on the outcome of [read_datagram]. *)
Definition datagram_receive (read : option bytes) : result TransportError AudioPacket :=
  match read with
  | None => Err Quinn
  | Some encoded => map_err (fun _ => Quinn) (decode encoded)
  end.
End datagram.

(** ** Framing *)

(** The bytes of one framed message. *)
Definition frame (encoded : bytes) : bytes := to_be_bytes 2 (Z.of_nat (length encoded)) ++ encoded.

Section framing.
Context {W R : Type} `{!SendStream W, !SendStreamLaws W} `{!RecvStream R, !RecvStreamLaws R}.
Context {Hcodec : ControlCodec} {Hlaws : ControlCodecLaws}.

Lemma writer_send_ok (w w' : W) m :
  writer_send w m = (w', Ok tt) ->
  exists b, control_encode m = Some b /\ Z.of_nat (length b) <= MAX_CONTROL_MESSAGE_BYTES /\
            written w' = written w ++ frame b.
Proof.
  unfold writer_send. destruct (control_encode m) as [b|]; [|done].
  destruct (Z.ltb_spec MAX_CONTROL_MESSAGE_BYTES (Z.of_nat (length b))); [done|].
  case_match; [done|].
  destruct (write_all w _) as [w1 []] eqn:H1; [|done].
  destruct (write_all w1 b) as [w2 []] eqn:H2; [|done].
  pose proof (flush_written w2) as Hf. destruct (flush w2) as [w3 []]; [|done]. intros [= <-].
  exists b. split_and!; [done..|]. simpl in Hf. rewrite Hf.
  rewrite (write_all_ok _ _ _ H2), (write_all_ok _ _ _ H1). unfold frame. by rewrite app_assoc.
Qed.

Lemma writer_send_too_large (w w' : W) m e :
  writer_send w m = (w', Err e) ->
  (forall b, control_encode m = Some b -> MAX_CONTROL_MESSAGE_BYTES < Z.of_nat (length b)) ->
  w' = w.
Proof.
  unfold writer_send. destruct (control_encode m) as [b|]; [|by intros [= <- _]].
  intros H Hlen. specialize (Hlen b eq_refl). apply Z.ltb_lt in Hlen. rewrite Hlen in H. by injection H.
Qed.

Lemma header_length n : 0 <= n <= MAX_CONTROL_MESSAGE_BYTES -> from_be_bytes (to_be_bytes 2 n) = n.
Proof.
  intros Hn. rewrite from_to_be_bytes. unfold MAX_CONTROL_MESSAGE_BYTES in Hn. apply Z.mod_small.
  change (256 ^ Z.of_nat 2) with 65536. lia.
Qed.

Lemma reader_receive_frame (r : R) b rest m :
  pending r = frame b ++ rest -> Z.of_nat (length b) <= MAX_CONTROL_MESSAGE_BYTES ->
  control_encode m = Some b ->
  exists r', reader_receive r = (r', Ok m) /\ pending r' = rest.
Proof.
  intros Hp Hlen Hm. unfold reader_receive, frame in *. rewrite <- app_assoc in Hp.
  assert (length (to_be_bytes 2 (Z.of_nat (length b))) = 2%nat) as Hh by apply length_to_be_bytes.
  destruct (read_exact_enough r 2) as (r1 & -> & Hp1).
  { rewrite Hp, !length_app, Hh. lia. }
  change (Z.to_nat 2) with 2%nat in *. rewrite Hp, <- Hh, take_app_length, drop_app_length in *.
  rewrite header_length by lia.
  destruct (Z.ltb_spec MAX_CONTROL_MESSAGE_BYTES (Z.of_nat (length b))); [lia|].
  destruct (read_exact_enough r1 (Z.of_nat (length b))) as (r2 & -> & Hp2).
  { rewrite Hp1, length_app. lia. }
  rewrite Nat2Z.id, Hp1, take_app_length, drop_app_length in *.
  rewrite (control_decode_encode _ _ Hm). by exists r2.
Qed.

Lemma send_all_written ms (w w' : W) :
  send_all w ms = (w', Ok tt) ->
  exists bs, Forall2 (fun m b => control_encode m = Some b /\
                                 Z.of_nat (length b) <= MAX_CONTROL_MESSAGE_BYTES) ms bs /\
             written w' = written w ++ concat (frame <$> bs).
Proof.
  revert w. induction ms as [|m ms IH]; intros w; simpl.
  - intros [= <-]. exists []. split; [constructor|]. by rewrite app_nil_r.
  - destruct (writer_send w m) as [w1 [[]|e]] eqn:Hs; [|done]. intros (bs & Hbs & Hw)%IH.
    destruct (writer_send_ok _ _ _ Hs) as (b & Hb & Hlen & Hw1). exists (b :: bs).
    split; [by constructor|]. rewrite Hw, Hw1. simpl. by rewrite <- app_assoc.
Qed.

Lemma receive_frames ms bs (r : R) rest :
  Forall2 (fun m b => control_encode m = Some b /\
                      Z.of_nat (length b) <= MAX_CONTROL_MESSAGE_BYTES) ms bs ->
  pending r = concat (frame <$> bs) ++ rest ->
  exists r', receive_n r (length ms) = (r', Ok ms) /\ pending r' = rest.
Proof.
  intros H. revert r. induction H as [|m b ms bs [Hm Hlen] _ IH]; intros r; simpl.
  - intros Hp. by exists r.
  - rewrite <- app_assoc. intros Hp.
    destruct (reader_receive_frame r b _ m Hp Hlen Hm) as (r1 & -> & Hp1).
    destruct (IH r1 Hp1) as (r2 & -> & Hp2). by exists r2.
Qed.

(** ** The properties *)

(** The control stream delivers messages: whatever messages one peer sent
    without an error, the other one receives exactly those, in that order, and
    is left at the start of the next frame. *)
Theorem control_messages_round_trip (ms : list ControlMessage) (w w' : W) (r : R) (rest : bytes)
  (Hempty : written w = []) (Hsend : send_all w ms = (w', Ok tt))
  (Hpipe : pending r = written w' ++ rest) :
  exists r', receive_n r (length ms) = (r', Ok ms) /\ pending r' = rest.
Proof.
  destruct (send_all_written ms w w' Hsend) as (bs & Hbs & Hw). rewrite Hempty in Hw. simpl in Hw.
  rewrite Hw in Hpipe. by eapply receive_frames.
Qed.

(** A hostile length prefix costs nothing: one [receive] takes at most the
    two bytes of the prefix and 4096 bytes of message off the stream, and a
    longer announcement is refused after the prefix alone. *)
Theorem receive_is_bounded (r r' : R) (res : result TransportError ControlMessage) (header : bytes)
  (r1 : R) (Hheader : read_exact r 2 = (r1, Some header)) (Hrecv : reader_receive r = (r', res)) :
  (MAX_CONTROL_MESSAGE_BYTES < from_be_bytes header ->
     r' = r1 /\ res = Err (ControlMessageTooLarge (from_be_bytes header) MAX_CONTROL_MESSAGE_BYTES)) /\
  (forall m, res = Ok m -> 0 <= from_be_bytes header ->
     Z.of_nat (length (pending r)) <=
       Z.of_nat (length (pending r')) + 2 + MAX_CONTROL_MESSAGE_BYTES).
Proof.
  unfold reader_receive in Hrecv. rewrite Hheader in Hrecv.
  destruct (read_exact_some _ _ _ _ Hheader) as [Hlen Hp]; [lia|].
  destruct (Z.ltb_spec MAX_CONTROL_MESSAGE_BYTES (from_be_bytes header)) as [Hbig|Hsmall].
  - injection Hrecv as <- <-. by split.
  - split; [lia|]. intros m -> H0.
    destruct (read_exact r1 (from_be_bytes header)) as [r2 [b|]] eqn:Hb; [|done].
    destruct (read_exact_some _ _ _ _ Hb H0) as [Hlb Hp1]. injection Hrecv as <- _.
    rewrite Hp, Hp1, !length_app. lia.
Qed.

(** A message that cannot be encoded within 4096 bytes is refused before
    anything is written, so the peer's framing stays intact. *)
Theorem oversized_message_writes_nothing (w w' : W) (m : ControlMessage) (b : bytes)
  (Hb : control_encode m = Some b) (Hlen : MAX_CONTROL_MESSAGE_BYTES < Z.of_nat (length b))
  (res : result TransportError unit) (Hsend : writer_send w m = (w', res)) :
  res = Err (ControlMessageTooLarge (Z.of_nat (length b)) MAX_CONTROL_MESSAGE_BYTES) /\ w' = w.
Proof.
  unfold writer_send in Hsend. rewrite Hb in Hsend. apply Z.ltb_lt in Hlen. rewrite Hlen in Hsend.
  by injection Hsend as <- <-.
Qed.
End framing.

(** ** Witnesses: a pipe in memory and a codec for a few messages *)

Record PipeEnd : Type := mkPipeEnd { pipe_bytes : bytes }.

#[export] Instance pipe_send : SendStream PipeEnd := {
  write_all w b := (mkPipeEnd (pipe_bytes w ++ b), true);
  flush w := (w, true);
  written := pipe_bytes;
}.
#[export] Instance pipe_send_laws : SendStreamLaws PipeEnd.
Proof. split; [|done]. simpl. intros w b w' [= <-]. done. Qed.

#[export] Instance pipe_recv : RecvStream PipeEnd := {
  read_exact r n :=
    if n <=? Z.of_nat (length (pipe_bytes r))
    then (mkPipeEnd (drop (Z.to_nat n) (pipe_bytes r)), Some (take (Z.to_nat n) (pipe_bytes r)))
    else (r, None);
  pending := pipe_bytes;
}.
#[export] Instance pipe_recv_laws : RecvStreamLaws PipeEnd.
Proof.
  split; simpl.
  - intros r n [_ Hn]. apply Z.leb_le in Hn. rewrite Hn. by eexists.
  - intros r n r' b H Hn. destruct (Z.leb_spec n (Z.of_nat (length (pipe_bytes r)))); [|done].
    injection H as <- <-. simpl. rewrite take_drop, length_take. split; [lia|done].
Qed.

(** An encoding of every message: its countable code, as a list of bits. *)
Definition bz (b : bool) : Z := if b then 1 else 0.
Definition zb (z : Z) : bool := z =? 1.

Definition message_repr (m : ControlMessage) : Z * list Z * rstring * rstring :=
  match m with
  | Hello v => (0, [v], [], [])
  | StreamInfoMsg i => (1, [si_sample_rate i; si_channels i; si_frame_duration_ms i], [], [])
  | Start => (2, [], [], [])
  | Stop => (3, [], [], [])
  | AdjustVolume s => (4, [s], [], [])
  | AudioIdle n => (5, [n], [], [])
  | QueryDevice q => (6, [q], [], [])
  | SetVolume q i User => (7, [q; i], [], [])
  | SetVolume q i Calibration => (8, [q; i], [], [])
  | SetVolume q i RestoreSpeaker => (9, [q; i], [], [])
  | DeviceStatusMsg d =>
      (10, [ds_request_id d; ds_volume d; ds_minimum d; ds_maximum d; bz (ds_fixed d);
            bz (ds_speaker d); bz (ds_failed d)], ds_device_id d, ds_name d)
  | CalibrationTone q b => (11, [q; bz b], [], [])
  | ToneState q p f => (12, [q; bz p; bz f], [], [])
  | CalibrationSession q Begin => (13, [q], [], [])
  | CalibrationSession q Cancel => (14, [q], [], [])
  | CalibrationSession q (Commit i) => (15, [q; i], [], [])
  end.

Definition message_of (r : Z * list Z * rstring * rstring) : ControlMessage :=
  match r with
  | (0, [v], _, _) => Hello v
  | (1, [a; b; c], _, _) => StreamInfoMsg (mkStreamInfo a b I16Le c)
  | (3, [], _, _) => Stop
  | (4, [s], _, _) => AdjustVolume s
  | (5, [n], _, _) => AudioIdle n
  | (6, [q], _, _) => QueryDevice q
  | (7, [q; i], _, _) => SetVolume q i User
  | (8, [q; i], _, _) => SetVolume q i Calibration
  | (9, [q; i], _, _) => SetVolume q i RestoreSpeaker
  | (10, [q; v; a; b; x; y; z], id, name) => DeviceStatusMsg (mkDeviceStatus q id name v a b (zb x) (zb y) (zb z))
  | (11, [q; b], _, _) => CalibrationTone q (zb b)
  | (12, [q; p; f], _, _) => ToneState q (zb p) (zb f)
  | (13, [q], _, _) => CalibrationSession q Begin
  | (14, [q], _, _) => CalibrationSession q Cancel
  | (15, [q; i], _, _) => CalibrationSession q (Commit i)
  | _ => Start
  end.

#[export] Instance ControlMessage_countable : Countable ControlMessage.
Proof.
  apply (inj_countable' message_repr message_of).
  assert (forall b, zb (bz b) = b) as Hzb by (by intros []).
  intros [ |[? ? [] ?]| | | | | |? ? []|[]| | |? []]; simpl; by rewrite ?Hzb.
Defined.

Fixpoint bits_of (p : positive) : bytes :=
  match p with xH => [] | xO p => 0 :: bits_of p | xI p => 1 :: bits_of p end.
Fixpoint of_bits (b : bytes) : positive :=
  match b with [] => xH | x :: b' => if x =? 1 then xI (of_bits b') else xO (of_bits b') end.

Lemma of_bits_of p : of_bits (bits_of p) = p.
Proof. induction p as [p IH|p IH|]; simpl; congruence. Qed.

#[export] Instance bit_codec : ControlCodec := {
  control_encode m := Some (bits_of (countable.encode m));
  control_decode b := countable.decode (of_bits b);
}.
#[export] Instance bit_codec_laws : ControlCodecLaws.
Proof. split. simpl. intros m b [= <-]. by rewrite of_bits_of, countable.decode_encode. Qed.

Definition hello_messages : list ControlMessage := [Hello PROTOCOL_VERSION; Start; AudioIdle 7].

Lemma control_messages_round_trip_witness :
  exists w', send_all (mkPipeEnd []) hello_messages = (w', Ok tt) /\
  exists r', receive_n (mkPipeEnd (written w' ++ [9])) 3 = (r', Ok hello_messages) /\ pending r' = [9].
Proof.
  destruct (send_all (mkPipeEnd []) hello_messages) as [w' res] eqn:E. exists w'.
  assert (res = Ok tt) as -> by (revert E; vm_compute; by intros [= _ <-]). split; [done|].
  apply (control_messages_round_trip hello_messages (mkPipeEnd []) w'); [done|exact E|done].
Defined.

Lemma receive_is_bounded_witness :
  reader_receive (mkPipeEnd [255; 255; 1; 2]) =
    (mkPipeEnd [1; 2], Err (ControlMessageTooLarge 65535 MAX_CONTROL_MESSAGE_BYTES)).
Proof.
  destruct (reader_receive (mkPipeEnd [255; 255; 1; 2])) as [r' res] eqn:E.
  destruct (receive_is_bounded (mkPipeEnd [255; 255; 1; 2]) r' res [255; 255] (mkPipeEnd [1; 2]))
    as [[-> ->] _]; [reflexivity|exact E|vm_compute; done|done].
Defined.

(** A report with a very long device name. *)
Definition long_report : ControlMessage :=
  DeviceStatusMsg (mkDeviceStatus 0 [] (replicate 150 (2 ^ 21)) 0 0 0 false false false).

Lemma oversized_message_writes_nothing_witness :
  exists b, control_encode long_report = Some b /\
    writer_send (mkPipeEnd [1]) long_report =
      (mkPipeEnd [1], Err (ControlMessageTooLarge (Z.of_nat (length b)) MAX_CONTROL_MESSAGE_BYTES)).
Proof.
  destruct (control_encode long_report) as [b|] eqn:Hb; [|done]. exists b. split; [done|].
  destruct (writer_send (mkPipeEnd [1]) long_report) as [w' res] eqn:E.
  destruct (oversized_message_writes_nothing (mkPipeEnd [1]) w' long_report b Hb) with res as [-> ->];
    [|exact E|done].
  assert (b = bits_of (countable.encode long_report)) as -> by (by injection Hb).
  vm_compute. done.
Defined.
