(* ===== verification/Identity.v ===== *)
(** * Identity: the pinned server certificate

    [crates/transport/src/config.rs] and [pairing.rs]: the server's stored
    identity, the text form of a certificate fingerprint, the verifier of the
    client, and the pairing link.  SHA-256, certificate generation and the TLS
    configuration are other people's code and stay interfaces. *)

From Stdlib Require Import ZArith Lia.
From S2P Require Import Prelude Wire Text Storage Transport.

(** ** Interfaces *)

(** [sha2::Sha256::digest]: 32 bytes. *)
Class Sha256 : Type := { digest : bytes -> bytes }.
Class Sha256Laws `{!Sha256} : Prop := {
  digest_length b : length (digest b) = 32%nat;
  digest_bytes b : Forall is_byte (digest b);
}.

(** [rcgen] and [quinn::ServerConfig::with_single_cert]. *)
Class Tls (ServerConfig : Type) : Type := {
  generate_simple_self_signed : option (bytes * bytes);
  with_single_cert : bytes -> bytes -> option ServerConfig;
}.

(** ** Hexadecimal text *)

(** [{byte:02X}]. *)
Definition hex_digit (n : Z) : Z := if n <? 10 then 48 + n else 55 + n.
Definition hex_byte (b : Z) : rstring := [hex_digit (b / 16); hex_digit (b mod 16)].

Definition hex_nibble (byte : Z) : option Z :=
  if (48 <=? byte) && (byte <=? 57) then Some (byte - 48)
  else if (97 <=? byte) && (byte <=? 102) then Some (byte - 97 + 10)
  else if (65 <=? byte) && (byte <=? 70) then Some (byte - 65 + 10)
  else None.

(** [join(":")]. *)
Fixpoint join (sep : rstring) (parts : list rstring) : rstring :=
  match parts with
  | [] => []
  | [p] => p
  | p :: parts' => p ++ sep ++ join sep parts'
  end.

Definition format_fingerprint (fingerprint : bytes) : rstring := join [58] (hex_byte <$> fingerprint).

(** The UTF-8 bytes of a character, and of a string ([as_bytes]). *)
Definition utf8_encode (c : Z) : bytes :=
  if c <? 128 then [c]
  else if c <? 2048 then [192 + c / 64; 128 + c mod 64]
  else if c <? 65536 then [224 + c / 4096; 128 + (c / 64) mod 64; 128 + c mod 64]
  else [240 + c / 262144; 128 + (c / 4096) mod 64; 128 + (c / 64) mod 64; 128 + c mod 64].
Definition as_bytes (s : rstring) : bytes := s ≫= utf8_encode.

(** The separators [parse_fingerprint] drops. *)
Definition separator (c : Z) : bool :=
  (c =? 58) || (c =? 45) || (c =? 32) || (c =? 9) || (c =? 13) || (c =? 10).

(** The loop over [chunks_exact(2)]. *)
Fixpoint parse_pairs (bs : bytes) : result TransportError bytes :=
  match bs with
  | hi :: lo :: bs' =>
      high ← ok_or Certificate (hex_nibble hi);
      low ← ok_or Certificate (hex_nibble lo);
      rest ← parse_pairs bs';
      Ok (Z.lor (Z.shiftl high 4) low :: rest)
  | _ => Ok []
  end.

Definition parse_fingerprint (input : rstring) : result TransportError bytes :=
  let compact := filter (fun c => negb (separator c) = true) input in
  if negb (Z.of_nat (length (as_bytes compact)) =? 64) then Err Certificate
  else parse_pairs (as_bytes compact).

(** ** The verifier *)

Section verifier.
Context {Hsha : Sha256}.

Definition certificate_fingerprint (certificate_der : bytes) : bytes := digest certificate_der.

Record FingerprintVerifier : Type := mkVerifier { fv_expected : bytes }.

(** [verify_server_cert]: intermediates, name, OCSP answer and time are not
    looked at. *)
Definition verify_server_cert (v : FingerprintVerifier) (end_entity : bytes) : result TransportError unit :=
  if bool_decide (digest end_entity = fv_expected v) then Ok tt else Err Certificate.

Definition make_pinned_verifier (fingerprint : bytes) : FingerprintVerifier := mkVerifier fingerprint.

(** ** The stored identity *)

Record CertificateIdentity : Type := mkIdentity {
  ci_certificate_der : bytes;
  ci_sha256_fingerprint : bytes;
}.

Context {ServerConfig : Type} `{!Tls ServerConfig}.
Context {FS : Type} `{!FileSystem FS}.

Definition server_config_from_der (certificate_der private_key_der : bytes)
  : result TransportError (ServerConfig * CertificateIdentity) :=
  match with_single_cert certificate_der private_key_der with
  | None => Err Certificate
  | Some config => Ok (config, mkIdentity certificate_der (certificate_fingerprint certificate_der))
  end.

Definition make_server_config : result TransportError (ServerConfig * CertificateIdentity) :=
  match generate_simple_self_signed with
  | None => Err Certificate
  | Some (certificate, key) => server_config_from_der certificate key
  end.

(** "server-cert.der" and "server-key.der". *)
Definition DER : rstring := [100; 101; 114].
Definition SERVER_CERT : rstring := [115; 101; 114; 118; 101; 114; 45; 99; 101; 114; 116].
Definition SERVER_KEY : rstring := [115; 101; 114; 118; 101; 114; 45; 107; 101; 121].
Definition identity_file (identity_dir name : rstring) : Path := mkPath (Some identity_dir) name (Some DER).

Definition load_or_create_server_config (d : FS) (identity_dir : rstring)
  : FS * result TransportError (ServerConfig * CertificateIdentity) :=
  match fs_create_dir_all d identity_dir with
  | (d, Err _) => (d, Err Certificate)
  | (d, Ok _) =>
      let certificate_path := identity_file identity_dir SERVER_CERT in
      let private_key_path := identity_file identity_dir SERVER_KEY in
      match fs_read d certificate_path, fs_read d private_key_path with
      | Ok certificate, Ok private_key => (d, server_config_from_der certificate private_key)
      | Err NotFound, Err NotFound =>
          match generate_simple_self_signed with
          | None => (d, Err Certificate)
          | Some (certificate, private_key) =>
              match fs_write d certificate_path certificate with
              | (d, Err _) => (d, Err Certificate)
              | (d, Ok _) =>
                  match fs_write d private_key_path private_key with
                  | (d, Err _) => (d, Err Certificate)
                  | (d, Ok _) => (d, server_config_from_der certificate private_key)
                  end
              end
          end
      | _, _ => (d, Err Certificate)
      end
  end.
End verifier.

(** ** The pairing link *)

(** [{n}] for an unsigned integer. *)
Fixpoint decimal_digits (fuel : nat) (n : Z) : rstring :=
  match fuel with
  | O => []
  | S fuel' => (if n <? 10 then [] else decimal_digits fuel' (n / 10)) ++ [48 + n mod 10]
  end.
(** Ten digits are enough for 32 bits. *)
Definition decimal (n : Z) : rstring := decimal_digits 10 n.

(** [{host}] for an [Ipv4Addr] of four octets. *)
Definition format_ipv4 (host : list Z) : rstring := join [46] (decimal <$> host).

(** "soundwave://pair/v1?host=", "&port=" and "&fp=". *)
Definition URI_HOST : rstring :=
  [115; 111; 117; 110; 100; 119; 97; 118; 101; 58; 47; 47; 112; 97; 105; 114; 47; 118; 49; 63;
   104; 111; 115; 116; 61].
Definition URI_PORT : rstring := [38; 112; 111; 114; 116; 61].
Definition URI_FP : rstring := [38; 102; 112; 61].

Definition encode_pairing_uri (host : list Z) (port : Z) (fingerprint : bytes) : rstring :=
  URI_HOST ++ format_ipv4 host ++ URI_PORT ++ decimal port ++ URI_FP ++ (fingerprint ≫= hex_byte).

(** ** Lemmas on hexadecimal text *)

Lemma hex_nibble_digit n : 0 <= n < 16 -> hex_nibble (hex_digit n) = Some n.
Proof.
  intros Hn. assert (n ∈ seqZ 0 16) as Hin by (apply elem_of_seqZ; lia).
  revert Hin. vm_compute seqZ. intros Hin.
  repeat (apply elem_of_cons in Hin as [->|Hin]; [reflexivity|]). set_solver.
Qed.

Lemma hex_digit_solid n : 0 <= n < 16 -> separator (hex_digit n) = false /\ hex_digit n < 128.
Proof.
  intros Hn. assert (n ∈ seqZ 0 16) as Hin by (apply elem_of_seqZ; lia).
  revert Hin. vm_compute seqZ. intros Hin.
  repeat (apply elem_of_cons in Hin as [->|Hin]; [split; reflexivity|]). set_solver.
Qed.

Lemma nibbles b : is_byte b -> 0 <= b / 16 < 16 /\ 0 <= b mod 16 < 16 /\
  Z.lor (Z.shiftl (b / 16) 4) (b mod 16) = b.
Proof.
  unfold is_byte. intros Hb. pose proof (Z.mod_pos_bound b 16 ltac:(lia)) as Hm.
  pose proof (Z.div_mod b 16 ltac:(lia)) as Hdm.
  split; [lia|]. split; [lia|]. rewrite Z.shiftl_mul_pow2 by lia. change (2 ^ 4) with 16.
  assert (Z.land (b / 16 * 16) (b mod 16) = 0) as Hland.
  { apply Z.bits_inj'. intros k Hk. rewrite Z.land_spec, Z.bits_0.
    change 16 with (2 ^ 4) at 2 3. destruct (Z.ltb_spec k 4).
    - rewrite Z.mul_pow2_bits_low by lia. done.
    - rewrite (Z.mod_pow2_bits_high b) by lia. apply andb_false_r. }
  rewrite <- Z.lxor_lor, <- Z.add_nocarry_lxor by done. lia.
Qed.

Lemma parse_pairs_hex fp : Forall is_byte fp -> parse_pairs (fp ≫= hex_byte) = Ok fp.
Proof.
  induction 1 as [|b fp Hb _ IH]; [done|]. destruct (nibbles b Hb) as (Hh & Hl & Hor).
  rewrite bind_cons. cbn [hex_byte app parse_pairs].
  rewrite !hex_nibble_digit by done. simpl. rewrite IH. simpl. by rewrite Hor.
Qed.

Lemma filter_join_hex fp :
  Forall is_byte fp ->
  filter (fun c => negb (separator c) = true) (join [58] (hex_byte <$> fp)) = fp ≫= hex_byte.
Proof.
  induction 1 as [|b fp Hb Hfp IH]; [done|]. destruct (nibbles b Hb) as (Hh & Hl & _).
  destruct (hex_digit_solid _ Hh) as [H1 _], (hex_digit_solid _ Hl) as [H2 _].
  rewrite bind_cons, <- IH.
  assert (forall l, filter (fun c => negb (separator c) = true) (hex_digit (b / 16) :: hex_digit (b mod 16) :: l) =
    hex_digit (b / 16) :: hex_digit (b mod 16) :: filter (fun c => negb (separator c) = true) l) as Hf.
  { intros l. by rewrite !filter_cons_True by (by rewrite ?H1, ?H2). }
  destruct fp as [|b' fp]; [apply (Hf [])|].
  change (join [58] (hex_byte <$> b :: b' :: fp)) with
    (hex_digit (b / 16) :: hex_digit (b mod 16) :: 58 :: join [58] (hex_byte <$> b' :: fp)).
  rewrite Hf. by rewrite filter_cons_False.
Qed.

Lemma as_bytes_ascii s : Forall (fun c => c < 128) s -> as_bytes s = s.
Proof.
  induction 1 as [|c s Hc _ IH]; [done|]. unfold as_bytes in *. rewrite bind_cons, IH.
  unfold utf8_encode. apply Z.ltb_lt in Hc. by rewrite Hc.
Qed.

Lemma hex_text_ascii fp : Forall is_byte fp -> Forall (fun c => c < 128) (fp ≫= hex_byte).
Proof.
  induction 1 as [|b fp Hb _ IH]; [constructor|]. destruct (nibbles b Hb) as (Hh & Hl & _).
  rewrite bind_cons. apply Forall_app. split; [|done].
  repeat constructor; by apply hex_digit_solid.
Qed.

Lemma length_hex_text fp : length (fp ≫= hex_byte) = (2 * length fp)%nat.
Proof. induction fp as [|b fp IH]; [done|]. rewrite bind_cons, length_app, IH. simpl. lia. Qed.

Lemma parse_format fp :
  Forall is_byte fp -> length fp = 32%nat -> parse_fingerprint (format_fingerprint fp) = Ok fp.
Proof.
  intros Hb Hl. unfold parse_fingerprint, format_fingerprint. rewrite filter_join_hex by done.
  rewrite as_bytes_ascii by (by apply hex_text_ascii). rewrite length_hex_text, Hl. simpl.
  by apply parse_pairs_hex.
Qed.

(** ** Parsing is strict *)

Lemma hex_nibble_range b n : hex_nibble b = Some n -> 0 <= n < 16 /\ b < 128.
Proof.
  unfold hex_nibble.
  destruct (Z.leb_spec 48 b), (Z.leb_spec b 57), (Z.leb_spec 97 b), (Z.leb_spec b 102),
    (Z.leb_spec 65 b), (Z.leb_spec b 70); simpl; intros; simplify_eq; lia.
Qed.

Lemma parse_pairs_ok bs fp n :
  parse_pairs bs = Ok fp -> length bs = (2 * n)%nat ->
  length fp = n /\ Forall (fun b => 0 <= b < 16 * 16) fp /\
  (forall k b, bs !! k = Some b -> is_Some (hex_nibble b)).
Proof.
  revert bs fp. induction n as [|n IH]; intros bs fp.
  - destruct bs; [|done]. intros [= <-] _. split_and!; [done|constructor|done].
  - destruct bs as [|hi [|lo bs]]; [done|simpl; lia|]. cbn [parse_pairs].
    destruct (hex_nibble hi) as [h|] eqn:Hh; simpl; [|done].
    destruct (hex_nibble lo) as [l|] eqn:Hl; simpl; [|done].
    destruct (parse_pairs bs) as [rest|] eqn:Hr; simpl; [|done]. intros [= <-] Hlen.
    destruct (IH bs rest Hr) as (H1 & H2 & H3); [lia|].
    destruct (hex_nibble_range _ _ Hh) as [Rh _], (hex_nibble_range _ _ Hl) as [Rl _].
    split_and!; [simpl; lia| |].
    + constructor; [|done]. rewrite Z.shiftl_mul_pow2 by lia. change (2 ^ 4) with 16.
      split; [apply Z.lor_nonneg; lia|]. change (16 * 16) with (2 ^ 8).
      destruct (decide (Z.lor (h * 16) l = 0)) as [->|]; [lia|].
      apply Z.log2_lt_pow2; [assert (0 <= Z.lor (h * 16) l) by (apply Z.lor_nonneg; lia); lia|].
      rewrite Z.log2_lor by lia. apply Z.max_lub_lt.
      * destruct (decide (h = 0)) as [->|]; [simpl; lia|]. apply Z.log2_lt_pow2; lia.
      * destruct (decide (l = 0)) as [->|]; [simpl; lia|]. apply Z.log2_lt_pow2; lia.
    + intros [|[|k]] b Hb; simpl in Hb; [by simplify_eq; rewrite Hh; eexists|by simplify_eq; rewrite Hl; eexists|by eapply H3].
Qed.

(** ** The properties *)

(** The text shown on the server and the text typed into the phone agree:
    a 32-byte fingerprint survives formatting and parsing. *)
Theorem fingerprint_round_trip (fp : bytes) (Hb : Forall is_byte fp) (Hl : length fp = 32%nat) :
  parse_fingerprint (format_fingerprint fp) = Ok fp.
Proof. by apply parse_format. Qed.

(** [parse_fingerprint] never accepts a damaged fingerprint: success means
    that the input holds exactly 64 characters besides the separators, all of
    them hexadecimal digits, and yields 32 bytes. *)
Theorem parsed_fingerprint_is_complete (input : rstring) (fp : bytes)
  (Hparse : parse_fingerprint input = Ok fp) :
  length fp = 32%nat /\ Forall is_byte fp /\
  length (filter (fun c => negb (separator c) = true) input) = 64%nat /\
  forall c, c ∈ input -> separator c = true \/ is_Some (hex_nibble c).
Proof.
  unfold parse_fingerprint in Hparse.
  set (compact := filter (fun c => negb (separator c) = true) input) in *.
  destruct (Z.eqb_spec (Z.of_nat (length (as_bytes compact))) 64) as [Hlen|]; simpl in Hparse; [|done].
  destruct (parse_pairs_ok _ _ 32 Hparse) as (H1 & H2 & H3); [lia|].
  assert (forall c, c ∈ compact -> c < 128 /\ is_Some (hex_nibble c)) as Hc.
  { intros c Hin. assert (forall b, b ∈ utf8_encode c -> is_Some (hex_nibble b)) as Hbytes.
    { intros b Hb. assert (b ∈ as_bytes compact) as Hba by (apply list_elem_of_bind; eauto).
      apply list_elem_of_lookup in Hba as [k Hk]. by eapply H3. }
    unfold utf8_encode in Hbytes. destruct (Z.ltb_spec c 128) as [Hs|Hs]; [split; [done|set_solver]|].
    assert (forall x, 128 <= x -> ~ is_Some (hex_nibble x)) as Hbad
      by (intros x Hx [n [_ Hn]%hex_nibble_range]; lia).
    exfalso. repeat case_match; eapply Hbad; try (apply Hbytes; by left).
    all: pose proof (Z.div_pos c 64); pose proof (Z.div_pos c 4096); pose proof (Z.div_pos c 262144); lia. }
  split_and!; [done|done| |].
  - rewrite as_bytes_ascii in Hlen; [lia|]. apply Forall_forall. intros c Hin. by apply Hc.
  - intros c Hin. destruct (separator c) eqn:Hsep; [by left|]. right. apply Hc.
    apply list_elem_of_filter. by rewrite Hsep.
Qed.

(** Pairing works and pins: a phone configured with the text the server
    displays accepts the server's certificate, and any other certificate it
    accepts has the same SHA-256 digest. *)
Theorem displayed_fingerprint_pins_certificate {Hsha : Sha256} {Hlaws : Sha256Laws}
  (certificate other : bytes) :
  exists fp, parse_fingerprint (format_fingerprint (certificate_fingerprint certificate)) = Ok fp /\
    verify_server_cert (make_pinned_verifier fp) certificate = Ok tt /\
    (verify_server_cert (make_pinned_verifier fp) other = Ok tt -> digest other = digest certificate).
Proof.
  exists (digest certificate). split; [|split].
  - apply parse_format; [apply digest_bytes|apply digest_length].
  - unfold verify_server_cert. simpl. by rewrite bool_decide_eq_true_2.
  - unfold verify_server_cert. simpl. by case_bool_decide.
Qed.

Section stored_identity.
Context {Hsha : Sha256} {ServerConfig : Type} `{!Tls ServerConfig}.
Context {FS : Type} `{!FileSystem FS, !FileSystemLaws FS}.

(** The identity survives restarts: once the server has started
    successfully in a directory, every later start that finds the directory
    succeeds with the same configuration and fingerprint and writes no file. *)
Theorem identity_is_stable (d d' : FS) (dir : rstring) (config : ServerConfig) (id : CertificateIdentity)
  (Hstart : load_or_create_server_config d dir = (d', Ok (config, id)))
  (d'' : FS) (Hdir : fs_create_dir_all d' dir = (d'', Ok tt)) :
  load_or_create_server_config d' dir = (d'', Ok (config, id)).
Proof.
  set (cp := identity_file dir SERVER_CERT) in *. set (kp := identity_file dir SERVER_KEY) in *.
  assert (exists c k, fs_read d' cp = Ok c /\ fs_read d' kp = Ok k /\
                      server_config_from_der c k = Ok (config, id)) as (c & k & Hc & Hk & Hcfg).
  { unfold load_or_create_server_config in Hstart. fold cp kp in Hstart.
    destruct (fs_create_dir_all d dir) as [d1 [u|e]]; [|done].
    destruct (fs_read d1 cp) as [c|[]] eqn:Hc, (fs_read d1 kp) as [k|[]] eqn:Hk; try done.
    - injection Hstart as <- Hcfg. by exists c, k.
    - destruct generate_simple_self_signed as [[c k]|]; [|done].
      destruct (fs_write d1 cp c) as [d2 [[]|e]] eqn:Hw1; [|done].
      pose proof (fs_write_frame d2 kp k cp ltac:(done)) as Hframe.
      destruct (fs_write d2 kp k) as [d3 [[]|e]] eqn:Hw2; [|done]. injection Hstart as <- Hcfg.
      exists c, k. split_and!; [|by eapply fs_write_read|done].
      simpl in Hframe. rewrite Hframe. by eapply fs_write_read. }
  unfold load_or_create_server_config. fold cp kp. rewrite Hdir.
  pose proof (fun q => create_dir_frame d' dir q) as Hf. rewrite Hdir in Hf. simpl in Hf.
  by rewrite !Hf, Hc, Hk, Hcfg.
Qed.

(** A half-present identity is never replaced: when just one of the two
    files is there, or one cannot be read, starting fails and both files stay
    as they were. *)
Theorem damaged_identity_is_kept (d d' : FS) (dir : rstring)
  (res : result TransportError (ServerConfig * CertificateIdentity))
  (Hdamaged : ~ (fs_read d (identity_file dir SERVER_CERT) = Err NotFound /\
                 fs_read d (identity_file dir SERVER_KEY) = Err NotFound))
  (Hstart : load_or_create_server_config d dir = (d', res)) :
  (forall q, fs_read d' q = fs_read d q) /\
  (is_err (fs_read d (identity_file dir SERVER_CERT)) = true \/
   is_err (fs_read d (identity_file dir SERVER_KEY)) = true -> res = Err Certificate).
Proof.
  unfold load_or_create_server_config in Hstart.
  pose proof (fun q => create_dir_frame d dir q) as Hf.
  destruct (fs_create_dir_all d dir) as [d1 [u|e]]; simpl in Hf; [|by injection Hstart as <- <-].
  rewrite !Hf in Hstart.
  destruct (fs_read d (identity_file dir SERVER_CERT)) as [c|[]],
    (fs_read d (identity_file dir SERVER_KEY)) as [k|[]]; injection Hstart as <- <- || (by destruct Hdamaged).
  all: split; [done|]; try done. by intros [|].
Qed.
End stored_identity.

(** ** Witnesses *)

(** A toy digest: the sum of the bytes, in the first of 32 bytes. *)
Definition sum_digest (b : bytes) : bytes := foldr Z.add 0 b mod 256 :: replicate 31 0.

#[export] Instance toy_sha : Sha256 := { digest := sum_digest }.
#[export] Instance toy_sha_laws : Sha256Laws.
Proof.
  split; [done|]. intros b. constructor; [apply Z.mod_pos_bound; lia|].
  apply Forall_replicate. done.
Qed.

#[export] Instance toy_tls : Tls (bytes * bytes) := {
  generate_simple_self_signed := Some ([1; 2; 3], [4; 5]);
  with_single_cert c k := Some (c, k);
}.

Lemma fingerprint_round_trip_witness :
  parse_fingerprint (format_fingerprint (replicate 32 171)) = Ok (replicate 32 171).
Proof. apply fingerprint_round_trip; [apply Forall_replicate; done|reflexivity]. Defined.

Lemma parsed_fingerprint_is_complete_witness :
  let text := format_fingerprint (replicate 32 171) in
  parse_fingerprint text = Ok (replicate 32 171) /\ length (replicate 32 171) = 32%nat.
Proof.
  intros text. assert (parse_fingerprint text = Ok (replicate 32 171)) as H by (vm_compute; reflexivity).
  split; [exact H|]. apply (parsed_fingerprint_is_complete text _ H).
Defined.

Lemma displayed_fingerprint_pins_certificate_witness :
  exists fp, parse_fingerprint (format_fingerprint (certificate_fingerprint [1; 2; 3])) = Ok fp /\
    verify_server_cert (make_pinned_verifier fp) [1; 2; 3] = Ok tt /\
    (verify_server_cert (make_pinned_verifier fp) [9] = Ok tt -> digest [9] = digest [1; 2; 3]).
Proof. apply displayed_fingerprint_pins_certificate. Defined.

Definition identity_dir : rstring := [105].

Lemma identity_is_stable_witness :
  exists (d' : MemDisk) config id,
    load_or_create_server_config ([] : MemDisk) identity_dir = (d', Ok (config, id)) /\
    load_or_create_server_config d' identity_dir = (d', Ok (config, id)).
Proof.
  destruct (load_or_create_server_config ([] : MemDisk) identity_dir) as [d' [[config id]|e]] eqn:E;
    [|by vm_compute in E].
  exists d', config, id. split; [done|].
  exact (identity_is_stable [] d' identity_dir config id E d' eq_refl).
Defined.

Lemma damaged_identity_is_kept_witness :
  let d : MemDisk := [(identity_file identity_dir SERVER_CERT, [1; 2; 3])] in
  exists d' res, load_or_create_server_config d identity_dir = (d', res) /\ res = Err Certificate.
Proof.
  intros d. destruct (load_or_create_server_config d identity_dir) as [d' res] eqn:E. exists d', res.
  split; [done|].
  apply (damaged_identity_is_kept d d' identity_dir res); [|exact E|right; vm_compute; reflexivity].
  intros [H _]. by vm_compute in H.
Defined.
