(* ===== verification/Silence.v ===== *)
(** * Silence: when the server stops sending

    [windows-server/src/network/silence.rs].  Times are sample counts at
    48 kHz; 300 ms of silence put a receiver to sleep, the first audible block
    wakes it. *)

From Stdlib Require Import ZArith Lia.
From S2P Require Import Prelude Wire.

Record SilenceDetector : Type := mkSilenceDetector {
  sd_silent_since : option Z;
  sd_idle : bool;
}.

Definition silence_new : SilenceDetector := mkSilenceDetector None false.

(** [u64::from(SAMPLE_RATE) * 300 / 1_000]. *)
Definition SILENCE_GRACE : Z := SAMPLE_RATE * 300 / 1000.

(** Returns whether to send the block and whether the receiver just fell
    asleep. *)
Definition silence_update (d : SilenceDetector) (timestamp : Z) (silent enabled : bool)
  : SilenceDetector * (bool * bool) :=
  let was_idle := sd_idle d in
  let d :=
    if negb enabled then mkSilenceDetector None true
    else if silent then
      let since := default timestamp (sd_silent_since d) in
      mkSilenceDetector (Some since)
        (sd_idle d || (SILENCE_GRACE <=? wrapping_sub 64 timestamp since))
    else mkSilenceDetector None false in
  (d, (negb (sd_idle d), sd_idle d && negb was_idle)).

(** One block as the sender task sees it. *)
Record SilenceInput : Type := mkSilenceInput {
  in_timestamp : Z;
  in_silent : bool;
  in_enabled : bool;
}.

Fixpoint silence_run (d : SilenceDetector) (inputs : list SilenceInput)
  : SilenceDetector * list (bool * bool) :=
  match inputs with
  | [] => (d, [])
  | i :: inputs' =>
      let '(d, r) := silence_update d (in_timestamp i) (in_silent i) (in_enabled i) in
      let '(d, rs) := silence_run d inputs' in
      (d, r :: rs)
  end.

(** ** Properties *)

(** An audible block of an open transmission is always sent, and counts as
    awake whatever came before. *)
Lemma silence_audible d timestamp :
  silence_update d timestamp false true = (mkSilenceDetector None false, (true, false)).
Proof. unfold silence_update. by destruct (sd_idle d). Qed.

(** A stretch of silence that starts at block [t0] and advances by [step]
    samples per block. *)
Fixpoint silent_stretch (t step : Z) (n : nat) : list SilenceInput :=
  match n with
  | O => []
  | S n' => mkSilenceInput t true true :: silent_stretch (wrapping_add 64 t step) step n'
  end.

(** The state inside such a stretch, [k] samples after its first block. *)
Lemma silence_stretch_step t0 k idle :
  t0 ∈u 64 -> 0 <= k < 2 ^ 64 ->
  (silence_update (mkSilenceDetector (Some t0) idle) (wrapping_add 64 t0 k) true true) =
  (mkSilenceDetector (Some t0) (idle || (SILENCE_GRACE <=? k)),
   (negb (idle || (SILENCE_GRACE <=? k)), (idle || (SILENCE_GRACE <=? k)) && negb idle)).
Proof.
  intros Ht Hk. unfold silence_update. simpl. by rewrite wrapping_sub_add, wrap_small.
Qed.

(** What the detector answers for the [n] blocks of a stretch that is already
    [k] samples old. *)
Fixpoint stretch_answers (k step : Z) (idle : bool) (n : nat) : list (bool * bool) :=
  match n with
  | O => []
  | S n' =>
      let idle' := idle || (SILENCE_GRACE <=? k) in
      (negb idle', idle' && negb idle) :: stretch_answers (k + step) step idle' n'
  end.

Lemma silence_stretch_run n t0 k step idle :
  t0 ∈u 64 -> 0 <= k -> 0 <= step -> k + Z.of_nat n * step < 2 ^ 64 ->
  (silence_run (mkSilenceDetector (Some t0) idle)
     (silent_stretch (wrapping_add 64 t0 k) step n)).2 = stretch_answers k step idle n.
Proof.
  revert k idle. induction n as [|n IH]; intros k idle Ht Hk Hs Hmax; [done|].
  cbn [silent_stretch silence_run in_timestamp in_silent in_enabled].
  rewrite silence_stretch_step by (done || lia).
  assert (wrapping_add 64 (wrapping_add 64 t0 k) step = wrapping_add 64 t0 (k + step)) as ->.
  { unfold wrapping_add. rewrite wrap_add_l. f_equal. lia. }
  specialize (IH (k + step) (idle || (SILENCE_GRACE <=? k)) Ht).
  destruct (silence_run _ (silent_stretch (wrapping_add 64 t0 (k + step)) step n)) as [d' rs].
  simpl in *. rewrite IH by lia. done.
Qed.

Lemma stretch_answers_spec n k step idle i :
  0 <= k -> 0 <= step -> (i < n)%nat ->
  stretch_answers k step idle n !! i =
    Some (negb (idle || (SILENCE_GRACE <=? k + Z.of_nat i * step)),
          negb idle && (SILENCE_GRACE <=? k + Z.of_nat i * step) &&
          bool_decide (i = 0%nat \/ k + (Z.of_nat i - 1) * step < SILENCE_GRACE)).
Proof.
  revert k idle i. induction n as [|n IH]; intros k idle i Hk Hs Hi; [lia|].
  destruct i as [|i].
  - replace (k + Z.of_nat 0 * step) with k by lia. rewrite bool_decide_eq_true_2 by (by left).
    rewrite andb_true_r. cbn. do 2 f_equal. by destruct idle, (SILENCE_GRACE <=? k).
  - change (stretch_answers k step idle (S n) !! S i) with
      (stretch_answers (k + step) step (idle || (SILENCE_GRACE <=? k)) n !! i). rewrite IH by lia.
    replace (k + step + Z.of_nat i * step) with (k + Z.of_nat (S i) * step) by lia.
    destruct idle; simpl; [done|].
    destruct (Z.leb_spec SILENCE_GRACE k) as [Hg|Hg]; simpl.
    + assert (SILENCE_GRACE <= k + Z.of_nat (S i) * step) as Hle by nia.
      apply Z.leb_le in Hle. rewrite Hle. simpl. do 2 f_equal. symmetry. apply bool_decide_eq_false.
      intros [|Hlt]; [done|]. nia.
    + do 2 f_equal. f_equal. apply bool_decide_ext. split.
      * intros [->|Hlt]; [right; lia|right; lia].
      * intros [|Hlt]; [done|]. destruct i as [|i]; [by left|right; lia].
Qed.

(** Silence detection does what it promises, from an awake receiver: in a
    stretch of silent blocks every block of the first 300 ms is still sent and
    none after it, the receiver falls asleep exactly once, and the first
    audible block after the stretch is sent. *)
Theorem silence_grace_period (t0 step : Z) (n : nat) (d : SilenceDetector) (i : nat) (t1 : Z)
  (Ht : t0 ∈u 64) (Hstep : 0 <= step) (Hn : Z.of_nat n * step < 2 ^ 64)
  (Hawake : d = mkSilenceDetector None false) (Hi : (i < n)%nat) :
  let outputs := (silence_run d (silent_stretch t0 step n)).2 in
  outputs !! i = Some (bool_decide (Z.of_nat i * step < SILENCE_GRACE),
                       bool_decide (SILENCE_GRACE <= Z.of_nat i * step /\
                                    (Z.of_nat i - 1) * step < SILENCE_GRACE)) /\
  (silence_update (silence_run d (silent_stretch t0 step n)).1 t1 false true).2 = (true, false).
Proof.
  intros outputs. split; [|by rewrite silence_audible].
  assert (outputs = stretch_answers 0 step false n) as ->.
  { subst d outputs. destruct n as [|n]; [done|].
    rewrite <- (silence_stretch_run (S n) t0 0 step false) by (done || lia).
    unfold wrapping_add. rewrite Z.add_0_r, wrap_small by done.
    cbn [silent_stretch silence_run in_timestamp in_silent in_enabled].
    assert (silence_update (mkSilenceDetector None false) t0 true true =
            silence_update (mkSilenceDetector (Some t0) false) t0 true true) as -> by done. done. }
  rewrite stretch_answers_spec by lia. rewrite !Z.add_0_l. simpl.
  f_equal. f_equal.
  - destruct (Z.leb_spec SILENCE_GRACE (Z.of_nat i * step)); simpl;
      [by rewrite bool_decide_eq_false_2 by lia|by rewrite bool_decide_eq_true_2].
  - destruct (Z.leb_spec SILENCE_GRACE (Z.of_nat i * step)); simpl.
    + apply bool_decide_ext. split; [|tauto]. intros [->|]; [|tauto].
      split; [done|]. assert (SILENCE_GRACE = 14400) by reflexivity. lia.
    + symmetry. apply bool_decide_eq_false. lia.
Qed.

Lemma silence_grace_period_witness :
  let outputs := (silence_run silence_new (silent_stretch 480 480 40)).2 in
  outputs !! 30%nat = Some (false, true) /\
  (silence_update (silence_run silence_new (silent_stretch 480 480 40)).1 20000 false true).2 = (true, false).
Proof.
  apply (silence_grace_period 480 480 40 silence_new 30 20000); done || lia || by vm_compute.
Defined.

(** Closing the transmission puts the receiver to sleep at once and tells
    it once; while it stays closed, or silence follows, nothing is sent until
    an audible block arrives. *)
Theorem closing_sleeps_at_once (d : SilenceDetector) (timestamp : Z) (silent : bool)
  (inputs : list SilenceInput)
  (Hquiet : Forall (fun i => in_enabled i = false \/ in_silent i = true) inputs) :
  let '(d', (send, became_idle)) := silence_update d timestamp silent false in
  send = false /\ became_idle = negb (sd_idle d) /\
  Forall (fun r => r = (false, false)) (silence_run d' inputs).2.
Proof.
  simpl. split_and!; [done|done|].
  assert (forall d, sd_idle d = true -> Forall (fun r => r = (false, false)) (silence_run d inputs).2) as H;
    [|by apply H].
  induction Hquiet as [|i inputs Hi _ IH]; intros d0 Hd; [constructor|]. cbn [silence_run].
  assert (exists d1, silence_update d0 (in_timestamp i) (in_silent i) (in_enabled i) = (d1, (false, false)) /\
                     sd_idle d1 = true) as (d1 & -> & Hd1).
  { unfold silence_update. destruct Hi as [-> | ->]; simpl; [rewrite Hd; by eexists|].
    destruct (in_enabled i); simpl; rewrite Hd; by eexists. }
  specialize (IH d1 Hd1). destruct (silence_run d1 inputs) as [d2 rs]. simpl in *. by constructor.
Qed.

Lemma closing_sleeps_at_once_witness :
  let '(d', (send, became_idle)) := silence_update silence_new 0 false false in
  send = false /\ became_idle = true /\
  Forall (fun r => r = (false, false))
    (silence_run d' [mkSilenceInput 480 true true; mkSilenceInput 960 false false]).2.
Proof.
  apply (closing_sleeps_at_once silence_new 0 false
           [mkSilenceInput 480 true true; mkSilenceInput 960 false false]).
  constructor; [by right|]. constructor; [by left|constructor].
Defined.
