(* ===== verification/Packetizer.v ===== *)
(** * Packetizer: cutting capture blocks into datagrams

    The packetizer of [windows-server/src/network/server.rs]: the choice of the
    packet duration, the division of 10 ms blocks, and the four-millisecond
    split that carries the rest of a block over to the next one.  The callback
    of [for_each_packet] is an arbitrary state transformer, as in the source. *)

From Stdlib Require Import ZArith Lia.
From S2P Require Import Prelude Wire.

(** ** Blocks and durations *)

Definition PCM_BLOCK_SAMPLES : nat := Z.to_nat (SAMPLE_RATE * CHANNELS / 100).

Record PcmBlock : Type := mkPcmBlock {
  pb_timestamp : Z;
  pb_samples : list Z;
}.

Definition samples_per_packet (frame_duration_ms : Z) : Z :=
  SAMPLE_RATE * frame_duration_ms / 1000 * CHANNELS.

Definition PACKET_DURATIONS : list Z := [10; 5; 4; 2; 1].

(** [choose_packet_duration_ms], with [checked_mul] on 64 bits. *)
Fixpoint choose_duration (durations : list Z) (max_payload_bytes : Z) : option Z :=
  match durations with
  | [] => None
  | d :: durations' =>
      let bytes := samples_per_packet d * 2 in
      if uint_max 64 <? bytes then None
      else if bytes <=? max_payload_bytes then Some d
      else choose_duration durations' max_payload_bytes
  end.
Definition choose_packet_duration_ms : Z -> option Z := choose_duration PACKET_DURATIONS.

Definition FOUR_MS_PACKET_SAMPLES : nat := Z.to_nat (samples_per_packet 4).
Definition FOUR_MS_TAIL_SAMPLES : nat := (PCM_BLOCK_SAMPLES mod FOUR_MS_PACKET_SAMPLES)%nat.

(** ** The packetizer *)

Record PendingTail : Type := mkPendingTail {
  pt_timestamp : Z;
  pt_samples : list Z;
}.

Record Packetizer : Type := mkPacketizer {
  pk_sequence : Z;
  pk_frame_duration_ms : Z;
  pk_samples_per_packet : Z;
  pk_pending_tail : option PendingTail;
}.

Definition packetizer_new (frame_duration_ms : Z) : Packetizer :=
  mkPacketizer 0 frame_duration_ms (samples_per_packet frame_duration_ms) None.

Definition with_tail (t : option PendingTail) (k : Packetizer) : Packetizer :=
  mkPacketizer (pk_sequence k) (pk_frame_duration_ms k) (pk_samples_per_packet k) t.
Definition with_sequence (s : Z) (k : Packetizer) : Packetizer :=
  mkPacketizer s (pk_frame_duration_ms k) (pk_samples_per_packet k) (pk_pending_tail k).

(** The timestamp of sample [offset] of a block. *)
Definition sample_time (block : PcmBlock) (offset : nat) : Z :=
  wrapping_add 64 (pb_timestamp block) (Z.of_nat offset / CHANNELS).

Section for_each.
Context {S : Type} (callback : S -> Z -> list Z -> S * bool).

(** [block.samples.chunks(n).enumerate()]; the fuel is the number of samples. *)
Fixpoint each_chunk (fuel : nat) (block : PcmBlock) (n index : nat) (rest : list Z) (s : S) : S :=
  match fuel, rest with
  | Datatypes.S fuel', _ :: _ =>
      let '(s, more) := callback s (sample_time block (index * n)) (take n rest) in
      if more : bool then each_chunk fuel' block n (Datatypes.S index) (drop n rest) s else s
  | _, _ => s
  end.

(** The [while] loop of the four-millisecond split: the state, the offset it
    ended at, and whether the callback asked to go on. *)
Fixpoint four_ms_loop (fuel : nat) (block : PcmBlock) (offset : nat) (s : S) : S * nat * bool :=
  match fuel with
  | O => (s, offset, true)
  | Datatypes.S fuel' =>
      if Nat.leb (offset + FOUR_MS_PACKET_SAMPLES) (length (pb_samples block)) then
        let '(s, more) := callback s (sample_time block offset)
                            (take FOUR_MS_PACKET_SAMPLES (drop offset (pb_samples block))) in
        if more : bool then four_ms_loop fuel' block (offset + FOUR_MS_PACKET_SAMPLES) s
        else (s, offset, false)
      else (s, offset, true)
  end.

(** The samples after the last whole packet become the pending tail. *)
Definition four_ms_rest (k : Packetizer) (block : PcmBlock) (offset : nat) (s : S) : Packetizer * S :=
  let '(s, offset, more) := four_ms_loop (length (pb_samples block)) block offset s in
  if (more : bool) && negb (Nat.eqb (length (pb_samples block) - offset) 0)
  then (with_tail (Some (mkPendingTail (sample_time block offset) (drop offset (pb_samples block)))) k, s)
  else (k, s).

Definition for_each_four_ms_packet (k : Packetizer) (block : PcmBlock) (s : S) : Packetizer * S :=
  let tail := pk_pending_tail k in
  let k := with_tail None k in
  match tail with
  | Some tail =>
      let expected_timestamp :=
        wrapping_add 64 (pt_timestamp tail) (Z.of_nat FOUR_MS_TAIL_SAMPLES / CHANNELS) in
      if pb_timestamp block =? expected_timestamp then
        let head := (FOUR_MS_PACKET_SAMPLES - FOUR_MS_TAIL_SAMPLES)%nat in
        let '(s, more) := callback s (pt_timestamp tail) (pt_samples tail ++ take head (pb_samples block)) in
        if more : bool then four_ms_rest k block head s else (k, s)
      else four_ms_rest k block 0 s
  | None => four_ms_rest k block 0 s
  end.

Definition for_each_packet (k : Packetizer) (block : PcmBlock) (s : S) : Packetizer * S :=
  if pk_frame_duration_ms k =? 4 then for_each_four_ms_packet k block s
  else (k, each_chunk (length (pb_samples block)) block (Z.to_nat (pk_samples_per_packet k)) 0
             (pb_samples block) s).
End for_each.


(** ** The packets of a block, apart from the callback *)

(** A callback over a list of packets, until it declines. *)
Fixpoint run {S} (callback : S -> Z -> list Z -> S * bool) (s : S) (ps : list (Z * list Z)) : S * bool :=
  match ps with
  | [] => (s, true)
  | (timestamp, samples) :: ps' =>
      let '(s, more) := callback s timestamp samples in
      if more : bool then run callback s ps' else (s, false)
  end.

Fixpoint chunk_list (fuel : nat) (block : PcmBlock) (n index : nat) (rest : list Z) : list (Z * list Z) :=
  match fuel, rest with
  | S fuel', _ :: _ =>
      (sample_time block (index * n), take n rest) :: chunk_list fuel' block n (S index) (drop n rest)
  | _, _ => []
  end.

Fixpoint four_ms_list (fuel : nat) (block : PcmBlock) (offset : nat) : list (Z * list Z) * nat :=
  match fuel with
  | O => ([], offset)
  | S fuel' =>
      if Nat.leb (offset + FOUR_MS_PACKET_SAMPLES) (length (pb_samples block)) then
        let '(ps, last) := four_ms_list fuel' block (offset + FOUR_MS_PACKET_SAMPLES) in
        ((sample_time block offset, take FOUR_MS_PACKET_SAMPLES (drop offset (pb_samples block))) :: ps, last)
      else ([], offset)
  end.

Definition contiguous (k : Packetizer) (block : PcmBlock) : bool :=
  match pk_pending_tail k with
  | Some tail =>
      pb_timestamp block =? wrapping_add 64 (pt_timestamp tail) (Z.of_nat FOUR_MS_TAIL_SAMPLES / CHANNELS)
  | None => false
  end.

Definition HEAD_SAMPLES : nat := (FOUR_MS_PACKET_SAMPLES - FOUR_MS_TAIL_SAMPLES)%nat.

Definition tail_packet (k : Packetizer) (block : PcmBlock) : list (Z * list Z) :=
  match pk_pending_tail k with
  | Some tail =>
      if contiguous k block then [(pt_timestamp tail, pt_samples tail ++ take HEAD_SAMPLES (pb_samples block))]
      else []
  | None => []
  end.

Definition start_offset (k : Packetizer) (block : PcmBlock) : nat :=
  if contiguous k block then HEAD_SAMPLES else 0%nat.

Definition packets (k : Packetizer) (block : PcmBlock) : list (Z * list Z) :=
  if pk_frame_duration_ms k =? 4 then
    tail_packet k block ++ (four_ms_list (length (pb_samples block)) block (start_offset k block)).1
  else chunk_list (length (pb_samples block)) block (Z.to_nat (pk_samples_per_packet k)) 0 (pb_samples block).

(** The packetizer once every packet of the block was accepted. *)
Definition after (k : Packetizer) (block : PcmBlock) : Packetizer :=
  if pk_frame_duration_ms k =? 4 then
    let last := (four_ms_list (length (pb_samples block)) block (start_offset k block)).2 in
    if negb (Nat.eqb (length (pb_samples block) - last) 0)
    then with_tail (Some (mkPendingTail (sample_time block last) (drop last (pb_samples block)))) k
    else with_tail None k
  else k.

Section run_lemmas.
Context {S : Type} (cb : S -> Z -> list Z -> S * bool).

Lemma run_app s ps qs :
  run cb s (ps ++ qs) = let '(s', more) := run cb s ps in if more then run cb s' qs else (s', false).
Proof.
  revert s. induction ps as [|[t x] ps IH]; intros s; simpl; [done|].
  destruct (cb s t x) as [s' []]; [apply IH|done].
Qed.

Lemma each_chunk_run fuel block n index rest s :
  each_chunk cb fuel block n index rest s = (run cb s (chunk_list fuel block n index rest)).1.
Proof.
  revert index rest s. induction fuel as [|fuel IH]; intros index rest s; [done|].
  destruct rest as [|x rest]; [done|]. cbn [each_chunk chunk_list run].
  destruct (cb s _ _) as [s' []]; [apply IH|done].
Qed.

Lemma four_ms_loop_run fuel block offset s :
  let '(s', more) := run cb s (four_ms_list fuel block offset).1 in
  exists last, four_ms_loop cb fuel block offset s = (s', last, more) /\
               (more = true -> last = (four_ms_list fuel block offset).2).
Proof.
  revert offset s. induction fuel as [|fuel IH]; intros offset s; simpl; [by exists offset|].
  destruct (Nat.leb _ _); [|by exists offset].
  specialize (IH (offset + FOUR_MS_PACKET_SAMPLES)%nat).
  destruct (four_ms_list fuel block (offset + FOUR_MS_PACKET_SAMPLES)) as [ps last]. cbn [fst snd run] in *.
  destruct (cb s _ _) as [s1 []]; [apply IH|by exists offset].
Qed.

(** [for_each_packet] is the callback run over [packets]; the fields other than
    the tail never change, and the tail is [after]'s unless the callback
    declined. *)
Lemma for_each_packet_run k block s :
  exists tail, for_each_packet cb k block s = (with_tail tail k, (run cb s (packets k block)).1) /\
    ((run cb s (packets k block)).2 = true -> with_tail tail k = after k block) /\
    ((run cb s (packets k block)).2 = false -> tail = None \/ tail = pk_pending_tail k).
Proof.
  assert (forall k', with_tail (pk_pending_tail k') k' = k') as Hid by (by intros []).
  unfold for_each_packet, packets, after. destruct (pk_frame_duration_ms k =? 4).
  2: { exists (pk_pending_tail k). rewrite Hid, each_chunk_run. split_and!; [done|done|by right]. }
  assert (forall s0 off, off = start_offset k block ->
    exists tail, four_ms_rest cb (with_tail None k) block off s0 =
      (with_tail tail k, (run cb s0 (four_ms_list (length (pb_samples block)) block off).1).1) /\
    ((run cb s0 (four_ms_list (length (pb_samples block)) block off).1).2 = true ->
     with_tail tail k =
       if negb (Nat.eqb (length (pb_samples block) -
                         (four_ms_list (length (pb_samples block)) block off).2) 0)
       then with_tail (Some (mkPendingTail
              (sample_time block (four_ms_list (length (pb_samples block)) block off).2)
              (drop (four_ms_list (length (pb_samples block)) block off).2 (pb_samples block)))) k
       else with_tail None k) /\
    ((run cb s0 (four_ms_list (length (pb_samples block)) block off).1).2 = false ->
     tail = None \/ tail = pk_pending_tail k)) as Hrest.
  { intros s0 off _. unfold four_ms_rest.
    pose proof (four_ms_loop_run (length (pb_samples block)) block off s0) as Hloop.
    destruct (run cb s0 _) as [s' more]. destruct Hloop as (last & -> & Hlast). simpl.
    destruct more; simpl; [|exists None; split_and!; [done|done|by left]].
    rewrite <- (Hlast eq_refl). destruct (Nat.eqb _ _); simpl.
    - exists None. done.
    - eexists. split; [reflexivity|done]. }
  unfold for_each_four_ms_packet, tail_packet, start_offset, contiguous in *.
  destruct (pk_pending_tail k) as [tail|]; [|by apply (Hrest s 0%nat)].
  destruct (pb_timestamp block =? _) eqn:Hc; [|by apply (Hrest s 0%nat)].
  fold HEAD_SAMPLES. rewrite run_app. cbn [run]. destruct (cb s (pt_timestamp tail) _) as [s1 []].
  - by apply (Hrest s1 HEAD_SAMPLES).
  - exists None. split_and!; [done|done|by left].
Qed.
End run_lemmas.

(** ** The packets of a run of blocks *)

Fixpoint packets_all (k : Packetizer) (blocks : list PcmBlock) : list (Z * list Z) * Packetizer :=
  match blocks with
  | [] => ([], k)
  | b :: blocks' => let '(ps, k') := packets_all (after k b) blocks' in (packets k b ++ ps, k')
  end.

Definition tail_samples (k : Packetizer) : list Z :=
  match pk_pending_tail k with Some t => pt_samples t | None => [] end.

Definition block_ok (b : PcmBlock) : Prop := length (pb_samples b) = PCM_BLOCK_SAMPLES.

(** Consecutive 10 ms blocks from time [t] on, before the counter wraps. *)
Fixpoint capture (t : Z) (blocks : list PcmBlock) : Prop :=
  match blocks with
  | [] => True
  | b :: blocks' => block_ok b /\ pb_timestamp b = t /\ t + 480 < 2 ^ 64 /\ capture (t + 480) blocks'
  end.

(** Packets of [n] samples whose timestamps follow each other from [t] on. *)
Definition consecutive (n : nat) (t : Z) (ps : list (Z * list Z)) : Prop :=
  forall i p, ps !! i = Some p -> p.1 = t + Z.of_nat i * (Z.of_nat n / 2) /\ length p.2 = n.

Lemma consecutive_app n t ps qs :
  consecutive n t ps -> consecutive n (t + Z.of_nat (length ps) * (Z.of_nat n / 2)) qs ->
  consecutive n t (ps ++ qs).
Proof.
  intros Hp Hq i p. rewrite lookup_app. destruct (ps !! i) as [q|] eqn:E.
  - intros [= <-]. by apply Hp.
  - intros H. apply lookup_ge_None in E. destruct (Hq _ _ H) as [-> Hl]. split; [|done].
    rewrite Nat2Z.inj_sub by done. lia.
Qed.

(** The packetizer is in step with a capture that continues at time [t]: its
    tail, if any, are the samples just before [t]. *)
Definition in_step (d t : Z) (k : Packetizer) : Prop :=
  pk_frame_duration_ms k = d /\ pk_samples_per_packet k = samples_per_packet d /\
  match pk_pending_tail k with
  | None => True
  | Some tail => d = 4 /\ pt_timestamp tail = t - 96 /\ 0 <= t - 96 /\
                 length (pt_samples tail) = FOUR_MS_TAIL_SAMPLES
  end.

(** The time of the first sample not yet in a packet. *)
Definition open_time (t : Z) (k : Packetizer) : Z :=
  t - Z.of_nat (length (tail_samples k)) / 2.

Lemma sample_time_small b t off :
  pb_timestamp b = t -> 0 <= t -> t + 480 < 2 ^ 64 -> (off <= 960)%nat ->
  sample_time b off = t + Z.of_nat off / 2.
Proof.
  intros Hb H0 H1 H2. unfold sample_time, wrapping_add, CHANNELS. rewrite Hb. apply wrap_small.
  pose proof (Z.div_pos (Z.of_nat off) 2). pose proof (Z.div_le_upper_bound (Z.of_nat off) 2 480).
  unfold in_uint. lia.
Qed.

Lemma chunk_list_spec n m fuel block idx rest :
  (0 < n)%nat -> length rest = (m * n)%nat -> (length rest <= fuel)%nat ->
  let ps := chunk_list fuel block n idx rest in
  concat (ps.*2) = rest /\ length ps = m /\
  forall i p, ps !! i = Some p -> p.1 = sample_time block ((idx + i) * n) /\ length p.2 = n.
Proof.
  intros Hn. revert fuel idx rest. induction m as [|m IH]; intros fuel idx rest Hlen Hfuel.
  - destruct rest; [|done]. by destruct fuel.
  - destruct rest as [|x rest'] eqn:Hrest; [simpl in Hlen; lia|]. rewrite <- Hrest in *.
    destruct fuel as [|fuel]; [rewrite Hrest in Hfuel; simpl in Hfuel; lia|].
    assert (chunk_list (S fuel) block n idx rest =
      (sample_time block (idx * n), take n rest) :: chunk_list fuel block n (S idx) (drop n rest)) as ->
      by (by rewrite Hrest).
    destruct (IH fuel (S idx) (drop n rest)) as (H1 & H2 & H3); [rewrite length_drop; lia|rewrite length_drop; lia|].
    split_and!.
    + csimpl. rewrite H1. apply take_drop.
    + simpl. by rewrite H2.
    + intros [|i] p; simpl.
      * intros [= <-]. simpl. rewrite length_take. split; [f_equal; lia|lia].
      * intros Hp. destruct (H3 _ _ Hp) as [-> ->]. split; [f_equal; lia|done].
Qed.

Lemma four_ms_list_step fuel block off :
  length (pb_samples block) = PCM_BLOCK_SAMPLES -> (off + FOUR_MS_PACKET_SAMPLES <= PCM_BLOCK_SAMPLES)%nat ->
  four_ms_list (S fuel) block off =
    ((sample_time block off, take FOUR_MS_PACKET_SAMPLES (drop off (pb_samples block)))
       :: (four_ms_list fuel block (off + FOUR_MS_PACKET_SAMPLES)).1,
     (four_ms_list fuel block (off + FOUR_MS_PACKET_SAMPLES)).2).
Proof.
  intros Hlen Hle. cbn [four_ms_list]. rewrite Hlen. apply Nat.leb_le in Hle. rewrite Hle.
  by destruct (four_ms_list fuel block _).
Qed.

Lemma four_ms_list_stop fuel block off :
  length (pb_samples block) = PCM_BLOCK_SAMPLES -> (PCM_BLOCK_SAMPLES < off + FOUR_MS_PACKET_SAMPLES)%nat ->
  four_ms_list fuel block off = ([], off).
Proof.
  intros Hlen Hlt. destruct fuel as [|fuel]; [done|]. cbn [four_ms_list]. rewrite Hlen.
  apply Nat.leb_gt in Hlt. by rewrite Hlt.
Qed.

Lemma four_constants :
  PCM_BLOCK_SAMPLES = 960%nat /\ FOUR_MS_PACKET_SAMPLES = 384%nat /\ FOUR_MS_TAIL_SAMPLES = 192%nat /\
  HEAD_SAMPLES = 192%nat.
Proof. split_and!; reflexivity. Qed.

(** A block's whole four-millisecond packets from offset 0 and from 192. *)
Lemma four_ms_block block :
  length (pb_samples block) = PCM_BLOCK_SAMPLES ->
  four_ms_list (length (pb_samples block)) block 0 =
    ([(sample_time block 0, take 384 (drop 0 (pb_samples block)));
      (sample_time block 384, take 384 (drop 384 (pb_samples block)))], 768%nat) /\
  four_ms_list (length (pb_samples block)) block 192 =
    ([(sample_time block 192, take 384 (drop 192 (pb_samples block)));
      (sample_time block 576, take 384 (drop 576 (pb_samples block)))], 960%nat).
Proof.
  intros Hlen. destruct four_constants as (HP & H4 & _). rewrite Hlen, HP.
  change 960%nat with (S (S 958)) at 1 2.
  split; (rewrite !four_ms_list_step by (done || (rewrite HP, H4; simpl; lia)));
    (rewrite four_ms_list_stop by (done || (rewrite HP, H4; simpl; lia))); by rewrite H4.
Qed.

Definition block_fact (d t : Z) (k : Packetizer) (b : PcmBlock) : Prop :=
  let n := Z.to_nat (samples_per_packet d) in
  tail_samples k ++ pb_samples b = concat ((packets k b).*2) ++ tail_samples (after k b) /\
  consecutive n (open_time t k) (packets k b) /\
  in_step d (t + 480) (after k b) /\
  open_time (t + 480) (after k b) = open_time t k + Z.of_nat (length (packets k b)) * (Z.of_nat n / 2).

(** Durations that divide a block. *)
Lemma whole_block_step d m t k b :
  d <> 4 -> (0 < Z.to_nat (samples_per_packet d))%nat ->
  PCM_BLOCK_SAMPLES = (m * Z.to_nat (samples_per_packet d))%nat ->
  480 = Z.of_nat m * (Z.of_nat (Z.to_nat (samples_per_packet d)) / 2) ->
  (forall i, Z.of_nat (i * Z.to_nat (samples_per_packet d)) / 2 =
             Z.of_nat i * (Z.of_nat (Z.to_nat (samples_per_packet d)) / 2)) ->
  in_step d t k -> block_ok b -> pb_timestamp b = t -> 0 <= t -> t + 480 < 2 ^ 64 ->
  block_fact d t k b.
Proof.
  intros Hd Hn Hm H480 Hdiv (Hdur & Hspp & Htail) Hok Hts H0 Hmax. set (n := Z.to_nat (samples_per_packet d)) in *.
  assert (pk_pending_tail k = None) as Ht.
  { destruct (pk_pending_tail k) as [tail|]; [|done]. by destruct Htail as [-> _]. }
  assert ((pk_frame_duration_ms k =? 4) = false) as H4 by (apply Z.eqb_neq; congruence).
  unfold block_fact, packets, after, open_time, tail_samples, in_step. rewrite H4, Ht, Hspp. fold n.
  destruct (chunk_list_spec n m (length (pb_samples b)) b 0 (pb_samples b) Hn) as (H1 & H2 & H3);
    [by rewrite Hok|done|].
  split_and!; try done.
  - by rewrite H1, app_nil_r.
  - intros i p Hp. destruct (H3 i p Hp) as [-> ->]. split; [|done]. simpl.
    apply lookup_lt_Some in Hp. rewrite H2 in Hp.
    rewrite (sample_time_small b t) by (done || (unfold n in *; assert (PCM_BLOCK_SAMPLES = 960%nat) by reflexivity; nia)).
    rewrite Hdiv. change (Z.of_nat 0 / 2) with 0. lia.
  - rewrite H2. simpl. change (0 / 2) with 0. lia.
Qed.

Lemma four_block_step t k b :
  in_step 4 t k -> block_ok b -> pb_timestamp b = t -> 0 <= t -> t + 480 < 2 ^ 64 -> block_fact 4 t k b.
Proof.
  intros (Hdur & Hspp & Htail) Hok Hts H0 Hmax. unfold block_fact. change (Z.to_nat (samples_per_packet 4)) with 384%nat.
  change (Z.of_nat 384 / 2) with 192.
  destruct (four_ms_block b Hok) as [HL0 HL192]. destruct four_constants as (HP & H4 & HT & HH).
  unfold block_ok in Hok. rewrite HP in Hok.
  assert (forall off, (off <= 960)%nat -> sample_time b off = t + Z.of_nat off / 2) as Htime
    by (intros; by apply sample_time_small).
  assert (forall off n, (off + n <= 960)%nat -> length (take n (drop off (pb_samples b))) = n) as Hlen
    by (intros; rewrite length_take, length_drop; lia).
  unfold packets, after, tail_packet, start_offset, open_time, tail_samples, contiguous, in_step.
  rewrite Hdur. cbn [Z.eqb Pos.eqb].
  destruct (pk_pending_tail k) as [tail|] eqn:Htl.
  - destruct Htail as (_ & Htt & Ht0 & Htlen).
    assert ((pb_timestamp b =? wrapping_add 64 (pt_timestamp tail) (Z.of_nat FOUR_MS_TAIL_SAMPLES / CHANNELS)) = true) as ->.
    { apply Z.eqb_eq. rewrite HT. change (Z.of_nat 192 / CHANNELS) with 96. unfold wrapping_add.
      rewrite wrap_small; [lia|]. unfold in_uint. lia. }
    rewrite HH, HL192. rewrite Hok. cbn [fst snd Nat.sub Nat.eqb negb pk_pending_tail with_tail].
    change (960 - 960)%nat with 0%nat. cbn [Nat.eqb negb pk_pending_tail with_tail pk_frame_duration_ms pk_samples_per_packet].
    rewrite Htlen, HT. split_and!; try done.
    + cbn [app fmap list_fmap snd concat]. rewrite !app_nil_r, <- app_assoc. f_equal.
      rewrite <- (take_drop 192 (pb_samples b)) at 1. f_equal.
      rewrite <- (take_drop 384 (drop 192 (pb_samples b))) at 1. f_equal. rewrite drop_drop.
      symmetry. apply take_ge. rewrite length_drop. lia.
    + intros i p. rewrite !Htime by lia. change (Z.of_nat 384 / 2) with 192. intros Hp.
      destruct i as [|[|[|i]]]; cbn in Hp; [injection Hp as <-..|done]; cbn [fst snd].
      * split; [change (Z.of_nat 192 / 2) with 96; lia|]. rewrite length_app, Htlen, HT, length_take. lia.
      * rewrite Hlen by lia. split; [|done]. change (Z.of_nat 192 / 2) with 96. lia.
      * rewrite Hlen by lia. split; [|done]. change (Z.of_nat 192 / 2) with 96. change (Z.of_nat 576 / 2) with 288. lia.
    + cbn [length app]. change (Z.of_nat 192 / 2) with 96. change (Z.of_nat 0 / 2) with 0. lia.
  - rewrite HL0. rewrite Hok. cbn [fst snd]. change (960 - 768)%nat with 192%nat.
    cbn [Nat.eqb negb pk_pending_tail with_tail pk_frame_duration_ms pk_samples_per_packet pt_samples pt_timestamp app].
    rewrite !length_drop, Hok, HT. change (960 - 768)%nat with 192%nat. split_and!; try done.
    + cbn [fmap list_fmap snd concat]. rewrite app_nil_r, <- app_assoc. rewrite drop_0.
      rewrite <- (take_drop 384 (pb_samples b)) at 1. f_equal.
      rewrite <- (take_drop 384 (drop 384 (pb_samples b))) at 1. f_equal. by rewrite drop_drop.
    + intros i p. rewrite !Htime by lia. change (Z.of_nat 384 / 2) with 192. intros Hp. change (Z.of_nat (length []) / 2) with 0.
      destruct i as [|[|i]]; cbn in Hp; [injection Hp as <-..|done]; cbn [fst snd].
      * rewrite Hlen by lia. split; [change (Z.of_nat 0 / 2) with 0; lia|done].
      * rewrite Hlen by lia. split; [change (Z.of_nat 384 / 2) with 192; lia|done].
    + rewrite Htime by lia. change (Z.of_nat 768 / 2) with 384. lia.
    + lia.
    + cbn [length app]. change (Z.of_nat 192 / 2) with 96. change (Z.of_nat 0 / 2) with 0. lia.
Qed.

Lemma half_mul i n : Z.of_nat (i * (2 * n)) / 2 = Z.of_nat i * (Z.of_nat (2 * n) / 2).
Proof.
  replace (Z.of_nat (i * (2 * n))) with (Z.of_nat i * Z.of_nat n * 2) by lia.
  replace (Z.of_nat (2 * n)) with (Z.of_nat n * 2) by lia. by rewrite !Z.div_mul.
Qed.

Lemma block_step d t k b :
  d ∈ PACKET_DURATIONS -> in_step d t k -> block_ok b -> pb_timestamp b = t -> 0 <= t -> t + 480 < 2 ^ 64 ->
  block_fact d t k b.
Proof.
  intros Hd. unfold PACKET_DURATIONS in Hd.
  repeat (apply elem_of_cons in Hd as [->|Hd]).
  - by apply (whole_block_step 10 1); try done; [vm_compute; lia|intros i; apply (half_mul i 480)].
  - by apply (whole_block_step 5 2); try done; [vm_compute; lia|intros i; apply (half_mul i 240)].
  - apply four_block_step.
  - by apply (whole_block_step 2 5); try done; [vm_compute; lia|intros i; apply (half_mul i 96)].
  - by apply (whole_block_step 1 10); try done; [vm_compute; lia|intros i; apply (half_mul i 48)].
  - set_solver.
Qed.

Lemma packets_all_spec d blocks t k :
  d ∈ PACKET_DURATIONS -> in_step d t k -> 0 <= t -> capture t blocks ->
  let n := Z.to_nat (samples_per_packet d) in
  tail_samples k ++ concat (pb_samples <$> blocks) =
    concat ((packets_all k blocks).1.*2) ++ tail_samples (packets_all k blocks).2 /\
  consecutive n (open_time t k) (packets_all k blocks).1.
Proof.
  intros Hd. revert t k. induction blocks as [|b blocks IH]; intros t k Hstep H0 Hcap; simpl.
  - rewrite app_nil_r. split; [done|]. intros i p. by rewrite lookup_nil.
  - destruct Hcap as (Hok & Hts & Hmax & Hcap).
    destruct (block_step d t k b Hd Hstep Hok Hts H0 Hmax) as (H1 & H2 & H3 & H4).
    specialize (IH (t + 480) (after k b) H3 ltac:(lia) Hcap).
    destruct (packets_all (after k b) blocks) as [ps k']. cbn [fst snd] in *. destruct IH as [IH1 IH2].
    split.
    + rewrite fmap_app, concat_app, app_assoc, H1. rewrite <- !app_assoc. f_equal. exact IH1.
    + apply consecutive_app; [done|]. by rewrite <- H4.
Qed.

(** ** Shapes: every packet has the negotiated size *)

Definition shaped (d : Z) (k : Packetizer) : Prop :=
  pk_frame_duration_ms k = d /\ pk_samples_per_packet k = samples_per_packet d /\
  (forall tail, pk_pending_tail k = Some tail -> d = 4 /\ length (pt_samples tail) = FOUR_MS_TAIL_SAMPLES).

Definition sized (d : Z) (ps : list (Z * list Z)) : Prop :=
  Forall (fun p => length p.2 = Z.to_nat (samples_per_packet d)) ps.

Lemma shaped_no_tail d k : shaped d k -> shaped d (with_tail None k).
Proof. intros (H1 & H2 & _). by split_and!. Qed.

Lemma whole_block_shape d m k b :
  d <> 4 -> (0 < Z.to_nat (samples_per_packet d))%nat ->
  PCM_BLOCK_SAMPLES = (m * Z.to_nat (samples_per_packet d))%nat ->
  shaped d k -> block_ok b -> sized d (packets k b) /\ shaped d (after k b).
Proof.
  intros Hd Hn Hm (Hdur & Hspp & Htail) Hok. pose proof (proj2 (Z.eqb_neq _ _) Hd) as H4.
  unfold packets, after. rewrite Hdur, H4, Hspp. split; [|done].
  destruct (chunk_list_spec (Z.to_nat (samples_per_packet d)) m (length (pb_samples b)) b 0 (pb_samples b) Hn)
    as (_ & _ & H3); [by rewrite Hok|done|].
  apply Forall_lookup. intros i p Hp. by apply (H3 i p).
Qed.

Lemma four_block_shape k b :
  shaped 4 k -> block_ok b -> sized 4 (packets k b) /\ shaped 4 (after k b).
Proof.
  intros (Hdur & Hspp & Htail) Hok. destruct (four_ms_block b Hok) as [HL0 HL192].
  destruct four_constants as (HP & H4 & HT & HH). unfold block_ok in Hok. rewrite HP in Hok.
  assert (forall off, (off + 384 <= 960)%nat -> length (take 384 (drop off (pb_samples b))) = 384%nat) as Hlen
    by (intros; rewrite length_take, length_drop; lia).
  unfold packets, after, start_offset, tail_packet. rewrite Hdur. cbn [Z.eqb Pos.eqb].
  destruct (contiguous k b) eqn:Hc.
  - unfold contiguous in Hc. destruct (pk_pending_tail k) as [tail|] eqn:Htl; [|done].
    destruct (Htail tail eq_refl) as [_ Htlen]. rewrite HH, HL192, Hok. cbn [fst snd].
    change (960 - 960)%nat with 0%nat. cbn [Nat.eqb negb]. split; [|by split_and!].
    unfold sized. cbn [app]. rewrite !Forall_cons, Forall_nil. cbn [snd].
    change (Z.to_nat (samples_per_packet 4)) with 384%nat.
    split_and!; [rewrite length_app, Htlen, HT, length_take; lia|apply Hlen; lia|apply Hlen; lia|done].
  - assert (match pk_pending_tail k with Some _ => [] | None => [] end = @nil (Z * list Z)) as ->
      by (by destruct (pk_pending_tail k)).
    rewrite HL0, Hok. cbn [fst snd]. change (960 - 768)%nat with 192%nat. cbn [Nat.eqb negb app]. split.
    + unfold sized. rewrite !Forall_cons, Forall_nil. cbn [snd].
      change (Z.to_nat (samples_per_packet 4)) with 384%nat. split_and!; [apply Hlen; lia|apply Hlen; lia|done].
    + split_and!; [done..|]. cbn [pk_pending_tail with_tail]. intros tail [= <-]. split; [done|]. simpl.
      rewrite length_drop, Hok. done.
Qed.

Lemma block_shape d k b :
  d ∈ PACKET_DURATIONS -> shaped d k -> block_ok b -> sized d (packets k b) /\ shaped d (after k b).
Proof.
  intros Hd. unfold PACKET_DURATIONS in Hd. repeat (apply elem_of_cons in Hd as [->|Hd]).
  - by apply (whole_block_shape 10 1); try done; vm_compute; lia.
  - by apply (whole_block_shape 5 2); try done; vm_compute; lia.
  - apply four_block_shape.
  - by apply (whole_block_shape 2 5); try done; vm_compute; lia.
  - by apply (whole_block_shape 1 10); try done; vm_compute; lia.
  - set_solver.
Qed.

(** ** Properties *)

Lemma packetizer_new_in_step d t : in_step d t (packetizer_new d).
Proof. by split_and!. Qed.

Lemma durations_cases (Q : Z -> Prop) d :
  Q 10 -> Q 5 -> Q 4 -> Q 2 -> Q 1 -> d ∈ PACKET_DURATIONS -> Q d.
Proof.
  intros ????? Hd. unfold PACKET_DURATIONS in Hd.
  repeat (apply elem_of_cons in Hd as [->|Hd]; [done|]). by apply elem_of_nil in Hd.
Qed.

Lemma choose_duration_sound durations n d :
  choose_duration durations n = Some d -> d ∈ durations /\ samples_per_packet d * 2 <= n.
Proof.
  induction durations as [|e l IH]; simpl; [done|]. case_match; [done|].
  destruct (Z.leb_spec (samples_per_packet e * 2) n).
  - intros [= <-]. split; [apply list_elem_of_here|done].
  - intros H'. destruct (IH H'). split; [by apply list_elem_of_further|done].
Qed.

(** The packet duration chosen for a path is the longest of 10, 5, 4, 2 and
    1 ms whose samples fit into the payload the path allows; the choice fails
    exactly when not even one millisecond (192 bytes) fits. *)
Theorem packet_duration_is_longest (max_payload_bytes : Z) :
  match choose_packet_duration_ms max_payload_bytes with
  | Some d => d ∈ PACKET_DURATIONS /\ samples_per_packet d * 2 <= max_payload_bytes /\
      Forall (fun d' => samples_per_packet d' * 2 <= max_payload_bytes -> d' <= d) PACKET_DURATIONS
  | None => max_payload_bytes < 192
  end.
Proof.
  unfold choose_packet_duration_ms, PACKET_DURATIONS, choose_duration.
  assert (samples_per_packet 10 = 960 /\ samples_per_packet 5 = 480 /\ samples_per_packet 4 = 384 /\
          samples_per_packet 2 = 192 /\ samples_per_packet 1 = 96) as (H10 & H5 & H4 & H2 & H1) by done.
  rewrite H10, H5, H4, H2, H1. cbv zeta.
  assert (forall n, n <= 960 -> (uint_max 64 <? n * 2) = false) as Hbig
    by (intros n Hn; apply Z.ltb_ge; change (uint_max 64) with 18446744073709551615; lia).
  rewrite !Hbig by lia.
  repeat match goal with
  | |- context [if ?a <=? ?b then _ else _] => destruct (Z.leb_spec a b); cbv iota
  end;
    try lia; (split_and!; [set_solver|lia|rewrite !Forall_cons, Forall_nil, H10, H5, H4, H2, H1; lia]).
Qed.

(** Cutting a gapless capture into packets of any offered duration loses
    and invents nothing: the samples of the packets, followed by the tail kept
    for the next block, are the samples of the blocks, every packet has the
    negotiated size, and the packet timestamps count on from the start without
    gaps. *)
Theorem packetization_is_lossless (d t : Z) (blocks : list PcmBlock)
  (Hd : d ∈ PACKET_DURATIONS) (Ht : 0 <= t) (Hcapture : capture t blocks) :
  let '(ps, k) := packets_all (packetizer_new d) blocks in
  concat (ps.*2) ++ tail_samples k = concat (pb_samples <$> blocks) /\
  forall i p, ps !! i = Some p ->
    Z.of_nat (length p.2) = samples_per_packet d /\
    p.1 = t + Z.of_nat i * (samples_per_packet d / CHANNELS).
Proof.
  pose proof (packets_all_spec d blocks t _ Hd (packetizer_new_in_step d t) Ht Hcapture) as [H1 H2].
  destruct (packets_all _ _) as [ps k]. split; [done|].
  intros i p Hp. destruct (H2 i p Hp) as [-> ->]. unfold open_time. simpl.
  change (Z.of_nat 0 / 2) with 0. rewrite Z.sub_0_r.
  clear -Hd. pattern d. by apply (durations_cases _ d).
Qed.

Lemma packetization_is_lossless_witness :
  let blocks := [mkPcmBlock 960 (replicate 960 7); mkPcmBlock 1440 (replicate 960 (-7))] in
  let '(ps, k) := packets_all (packetizer_new 4) blocks in
  concat (ps.*2) ++ tail_samples k = concat (pb_samples <$> blocks) /\
  forall i p, ps !! i = Some p ->
    Z.of_nat (length p.2) = samples_per_packet 4 /\ p.1 = 960 + Z.of_nat i * (samples_per_packet 4 / CHANNELS).
Proof.
  apply (packetization_is_lossless 4 960 [mkPcmBlock 960 (replicate 960 7); mkPcmBlock 1440 (replicate 960 (-7))]).
  - unfold PACKET_DURATIONS. set_solver.
  - lia.
  - cbn [capture pb_timestamp]. unfold block_ok, pb_samples. rewrite !length_replicate.
    split_and!; (reflexivity || lia || exact I).
Defined.
