(* ===== verification/Server.v ===== *)
(** * Server: packets, handshake and control loop of one receiver

    [windows-server/src/network/server.rs].  The sender task decides
    block by block whether to send the packets of the packetizer; the handshake and the control loop run on
    the reliable stream.  A [tokio::select!] is a case distinction on which
    branch was ready, given as an argument; a read of the shared transmission
    gate inside the loop takes the next of a list of observations. *)

From Stdlib Require Import ZArith Lia.
From S2P Require Import Prelude BTree Wire Text Transport Silence Packetizer Registry.

(** ** Sending a block *)

Record StreamCounters : Type := mkCounters {
  sc_packets_sent : Z;
  sc_packets_dropped : Z;
  sc_blocks_skipped : Z;
}.
Definition counters_default : StreamCounters := mkCounters 0 0 0.

Definition count_sent (c : StreamCounters) : StreamCounters :=
  mkCounters (wrapping_add 64 (sc_packets_sent c) 1) (sc_packets_dropped c) (sc_blocks_skipped c).
Definition count_dropped (c : StreamCounters) : StreamCounters :=
  mkCounters (sc_packets_sent c) (wrapping_add 64 (sc_packets_dropped c) 1) (sc_blocks_skipped c).
Definition count_skipped (n : Z) (c : StreamCounters) : StreamCounters :=
  mkCounters (sc_packets_sent c) (sc_packets_dropped c) (wrapping_add 64 (sc_blocks_skipped c) n).

(** The next observation of the transmission gate; closed when there is none. *)
Definition observe_gate (reads : list bool) : bool * list bool :=
  match reads with b :: reads' => (b, reads') | [] => (false, []) end.

(** [sample.to_le_bytes()] of every sample. *)
Definition payload_of (samples : list Z) : bytes := samples ≫= i16_to_le_bytes.

Section sender.
Context {C : Type} `{!QuicConnection C}.

(** The variables the closure of [send_block] captures. *)
Record SendState : Type := mkSendState {
  ss_sequence : Z;
  ss_conn : C;
  ss_counters : StreamCounters;
  ss_error : option TransportError;
  ss_reads : list bool;
}.

Definition send_callback (s : SendState) (timestamp : Z) (samples : list Z) : SendState * bool :=
  let '(enabled, reads) := observe_gate (ss_reads s) in
  if negb enabled
  then (mkSendState (ss_sequence s) (ss_conn s) (ss_counters s) (ss_error s) reads, false)
  else
    let packet := mkAudioPacket (ss_sequence s) timestamp (payload_of samples) in
    let sequence := wrapping_add 32 (ss_sequence s) 1 in
    match datagram_send (ss_conn s) packet with
    | (c, Ok _) => (mkSendState sequence c (count_sent (ss_counters s)) (ss_error s) reads, true)
    | (c, Err Quinn) => (mkSendState sequence c (count_dropped (ss_counters s)) (ss_error s) reads, true)
    | (c, Err e) => (mkSendState sequence c (ss_counters s) (Some e) reads, false)
    end.

Definition send_block (k : Packetizer) (c : C) (block : PcmBlock) (counters : StreamCounters)
    (reads : list bool) : Packetizer * C * StreamCounters * result TransportError unit :=
  let '(enabled, reads) := observe_gate reads in
  if negb enabled then (k, c, counters, Ok tt)
  else
    let '(k, s) := for_each_packet send_callback k block (mkSendState (pk_sequence k) c counters None reads) in
    (with_sequence (ss_sequence s) k, ss_conn s, ss_counters s,
     match ss_error s with Some e => Err e | None => Ok tt end).

(** ** The sender task *)

Record SenderTask : Type := mkSenderTask {
  st_conn : C;
  st_packetizer : Packetizer;
  st_silence : SilenceDetector;
  st_counters : StreamCounters;
  (** the messages this task put into the outbound control queue *)
  st_outbound : list ControlMessage;
}.

(** What one iteration of the loop finds. [outbound] is whether the control
    queue still has a receiver when an idle notice is to be queued. *)
Inductive sender_event : Type :=
| SendStopped
| SendGateClosed (outbound : bool)
| SendBlock (block : PcmBlock) (allowed enabled : bool) (reads : list bool) (outbound : bool)
| SendLagged (skipped : Z)
| SendClosed
| SendTimeout.

(** [None] is "go on", [Some r] is the value the loop breaks with. *)
Abbreviation loop_result := (option (result TransportError unit)).

Definition report_idle (t : SenderTask) (outbound : bool) : SenderTask * bool :=
  if outbound
  then (mkSenderTask (st_conn t) (st_packetizer t) (st_silence t) (st_counters t)
          (st_outbound t ++ [AudioIdle (pk_sequence (st_packetizer t))]), true)
  else (t, false).

Definition drop_tail (t : SenderTask) : SenderTask :=
  mkSenderTask (st_conn t) (with_tail None (st_packetizer t)) (st_silence t) (st_counters t)
    (st_outbound t).
Definition with_silence (d : SilenceDetector) (t : SenderTask) : SenderTask :=
  mkSenderTask (st_conn t) (st_packetizer t) d (st_counters t) (st_outbound t).

Definition sender_step (t : SenderTask) (ev : sender_event) : SenderTask * loop_result :=
  match ev with
  | SendStopped => (t, Some (Ok tt))
  | SendGateClosed outbound =>
      let '(silence, (_, became_idle)) := silence_update (st_silence t) 0 true false in
      let t := drop_tail (with_silence silence t) in
      if became_idle then
        let '(t, ok) := report_idle t outbound in
        (t, if negb ok then Some (Ok tt) else None)
      else (t, None)
  | SendBlock block allowed enabled reads outbound =>
      let '(silence, (send, became_idle)) :=
        silence_update (st_silence t) (pb_timestamp block)
          (forallb (fun sample => sample =? 0) (pb_samples block)) (enabled && allowed) in
      let t := with_silence silence t in
      let '(t, ok) := if became_idle then report_idle (drop_tail t) outbound else (t, true) in
      if negb ok then (t, Some (Ok tt))
      else if negb send then (t, None)
      else
        let '(k, c, counters, r) :=
          send_block (st_packetizer t) (st_conn t) block (st_counters t) reads in
        (mkSenderTask c k (st_silence t) counters (st_outbound t),
         match r with Ok _ => None | Err e => Some (Err e) end)
  | SendLagged skipped =>
      (mkSenderTask (st_conn t) (with_tail None (st_packetizer t)) (st_silence t)
         (count_skipped skipped (st_counters t)) (st_outbound t), None)
  | SendClosed => (t, Some (Ok tt))
  | SendTimeout => (t, None)
  end.

Fixpoint sender_run (t : SenderTask) (evs : list sender_event) : SenderTask * loop_result :=
  match evs with
  | [] => (t, None)
  | ev :: evs' =>
      match sender_step t ev with
      | (t, None) => sender_run t evs'
      | (t, Some r) => (t, Some r)
      end
  end.

Definition sender_start (c : C) (frame_duration_ms : Z) : result TransportError SenderTask :=
  c ← sender_new c;
  Ok (mkSenderTask c (packetizer_new frame_duration_ms) silence_new counters_default []).
End sender.

(** ** The handshake *)

(** The branch of a [tokio::select!] that was ready. *)
Inductive selected (A : Type) : Type :=
| Ready (a : A)
| ShuttingDown
| ConnectionClosed.
Arguments Ready {A} a.
Arguments ShuttingDown {A}.
Arguments ConnectionClosed {A}.

Inductive HandshakeError : Type :=
| HsShutdown
| HsDisconnected
| HsNoStream
| HsReadHello
| HsVersion (protocol_version : Z)
| HsUnexpected (m : ControlMessage)
| HsNoDatagrams
| HsPayloadTooSmall
| HsSend.

Section handshake.
Context {W : Type} `{!SendStream W} {Hcodec : ControlCodec} {C : Type} `{!QuicConnection C}.

Definition stream_info (frame_duration_ms : Z) : StreamInfo :=
  mkStreamInfo SAMPLE_RATE CHANNELS I16Le frame_duration_ms.

(** [writer.send(m).await.context(...)?] *)
Definition send_or_fail (w : W) (m : ControlMessage) : W * result HandshakeError unit :=
  let '(w, r) := writer_send w m in (w, map_err (fun _ => HsSend) r).

Definition perform_handshake (c : C) (streams : selected (option W))
    (hello : selected (result TransportError ControlMessage)) : option W * result HandshakeError Z :=
  match streams with
  | ShuttingDown => (None, Err HsShutdown)
  | ConnectionClosed => (None, Err HsDisconnected)
  | Ready None => (None, Err HsNoStream)
  | Ready (Some w) =>
      match hello with
      | ShuttingDown => (Some w, Err HsShutdown)
      | ConnectionClosed => (Some w, Err HsDisconnected)
      | Ready (Err _) => (Some w, Err HsReadHello)
      | Ready (Ok (Hello protocol_version)) =>
          if negb (protocol_version =? PROTOCOL_VERSION) then (Some w, Err (HsVersion protocol_version))
          else
            match sender_new c with
            | Err _ => (Some w, Err HsNoDatagrams)
            | Ok datagrams =>
                match choose_packet_duration_ms (max_payload_len datagrams) with
                | None => (Some w, Err HsPayloadTooSmall)
                | Some frame_duration_ms =>
                    let '(w, r) := send_or_fail w (Hello PROTOCOL_VERSION) in
                    match r with
                    | Err e => (Some w, Err e)
                    | Ok _ =>
                        let '(w, r) := send_or_fail w (StreamInfoMsg (stream_info frame_duration_ms)) in
                        match r with
                        | Err e => (Some w, Err e)
                        | Ok _ =>
                            let '(w, r) := send_or_fail w Start in
                            match r with
                            | Err e => (Some w, Err e)
                            | Ok _ => (Some w, Ok frame_duration_ms)
                            end
                        end
                    end
                end
            end
      | Ready (Ok m) => (Some w, Err (HsUnexpected m))
      end
  end.
End handshake.

(** ** The control loop *)

Section control_loop.
Context {W : Type} `{!SendStream W} {Hcodec : ControlCodec}.
Context {Sender : Type} `{!Mpsc Sender ControlMessage}.

(** The ready branch of the loop's [select!]. *)
Inductive control_event : Type :=
| CtlStop
| CtlClosed
| CtlTick
| CtlOutbound (m : ControlMessage)
| CtlReceived (m : result TransportError ControlMessage).

(** One iteration: the new stream and registry, and whether the loop goes on. *)
Definition control_step (w : W) (registry : Registry Sender) (receiver_id : Z) (ev : control_event)
  : W * Registry Sender * bool :=
  match ev with
  | CtlStop | CtlClosed => (w, registry, false)
  | CtlTick => (w, (request registry receiver_id None).1, true)
  | CtlOutbound m =>
      match writer_send w m with
      | (w, Ok _) => (w, registry, true)
      | (w, Err _) => (w, registry, false)
      end
  | CtlReceived (Ok Stop) => (w, registry, false)
  | CtlReceived (Ok (DeviceStatusMsg status)) => (w, update_device registry receiver_id status, true)
  | CtlReceived (Ok (ToneState request_id playing failed)) =>
      (w, update_tone registry receiver_id request_id playing failed, true)
  | CtlReceived (Ok _) => (w, registry, true)
  | CtlReceived (Err _) => (w, registry, false)
  end.

Fixpoint process_control_messages (w : W) (registry : Registry Sender) (receiver_id : Z)
    (evs : list control_event) : W * Registry Sender :=
  match evs with
  | [] => (w, registry)
  | ev :: evs' =>
      match control_step w registry receiver_id ev with
      | (w, registry, true) => process_control_messages w registry receiver_id evs'
      | (w, registry, false) => (w, registry)
      end
  end.
End control_loop.

(** ** The outputs of the sender task, numbered *)

Inductive sender_output : Type :=
| Datagram (packet : AudioPacket)
| Idle (next_sequence : Z).

(** Positions count packets without wrapping. A datagram takes its position
    (positions without a datagram are packets that were lost before the
    network), an idle notice announces the next one. *)
Inductive numbered : Z -> list sender_output -> Z -> Prop :=
| numbered_done pos pos' : pos <= pos' -> numbered pos [] pos'
| numbered_datagram pos q p outs pos' :
    pos <= q -> ap_sequence p = wrap 32 q -> numbered (q + 1) outs pos' ->
    numbered pos (Datagram p :: outs) pos'
| numbered_idle pos q outs pos' :
    pos <= q -> numbered q outs pos' -> numbered pos (Idle (wrap 32 q) :: outs) pos'.

Lemma numbered_le pos outs pos' : numbered pos outs pos' -> pos <= pos'.
Proof. induction 1; lia. Qed.

Lemma numbered_weaken pos0 pos outs pos' : pos0 <= pos -> numbered pos outs pos' -> numbered pos0 outs pos'.
Proof. 
  intros Hle H. inversion H; subst;
    [apply numbered_done; lia|eapply numbered_datagram; [|done|done]; lia|apply numbered_idle; [lia|done]].
Qed.

Lemma numbered_app pos outs mid outs' pos' :
  numbered pos outs mid -> numbered mid outs' pos' -> numbered pos (outs ++ outs') pos'.
Proof.
  induction 1; intros H'; simpl;
    [by eapply numbered_weaken|eapply numbered_datagram; eauto|apply numbered_idle; eauto].
Qed.

Definition datagram_of (o : sender_output) : option AudioPacket :=
  match o with Datagram p => Some p | Idle _ => None end.
Definition idle_of (o : sender_output) : option ControlMessage :=
  match o with Datagram _ => None | Idle n => Some (AudioIdle n) end.

Lemma wrap_succ pos : wrapping_add 32 (wrap 32 pos) 1 = wrap 32 (pos + 1).
Proof. unfold wrapping_add. apply wrap_add_l. Qed.

Section sender_facts.
Context {C : Type} `{!QuicConnection C} {Hquic : QuicConnectionLaws C}.

Lemma datagram_send_sent (c c' : C) p r :
  datagram_send c p = (c', r) ->
  match r with Ok _ => sent c' = sent c ++ [encode p] | Err _ => sent c' = sent c end.
Proof.
  unfold datagram_send. destruct (max_datagram_size c) as [m|]; [|by intros [= <- <-]].
  destruct (m <? _); [by intros [= <- <-]|].
  destruct (send_datagram c (encode p)) as [c1 []] eqn:Hs; intros [= <- <-].
  - by apply send_datagram_ok.
  - by eapply send_datagram_refused.
Qed.

(** The callback over any packets: sequence numbers count up, and only
    accepted packets reach the network. *)
Lemma send_run_numbered ps s s' more pos :
  run send_callback s ps = (s', more) -> ss_sequence s = wrap 32 pos ->
  exists outs pos', numbered pos outs pos' /\ ss_sequence s' = wrap 32 pos' /\
    sent (ss_conn s') = sent (ss_conn s) ++ (encode <$> omap datagram_of outs) /\
    omap idle_of outs = [].
Proof.
  revert s pos. induction ps as [|[timestamp samples] ps IH]; intros s pos.
  - cbn [run]. intros [= <- <-] Hs. exists [], pos. simpl. rewrite app_nil_r. by repeat constructor.
  - cbn [run]. unfold send_callback at 1. destruct (observe_gate (ss_reads s)) as [enabled reads].
    destruct enabled; cbn [negb].
    2: { intros [= <- <-] Hs. exists [], pos. simpl. rewrite app_nil_r. by repeat constructor. }
    set (p := mkAudioPacket (ss_sequence s) timestamp (payload_of samples)).
    destruct (datagram_send (ss_conn s) p) as [c r] eqn:Hd. pose proof (datagram_send_sent _ _ _ _ Hd) as Hsent.
    intros Hrun Hs. destruct r as [u|e].
    + destruct (IH _ (pos + 1) Hrun) as (outs & pos' & H1 & H2 & H3 & H4); [simpl; rewrite Hs; apply wrap_succ|].
      exists (Datagram p :: outs), pos'. split_and!; [by eapply numbered_datagram|done| |done].
      rewrite H3. simpl. rewrite Hsent. by rewrite <- app_assoc.
    + assert (forall e0, (mkSendState (wrapping_add 32 (ss_sequence s) 1) c (ss_counters s) e0 reads, false) = (s', more) ->
        exists outs pos', numbered pos outs pos' /\ ss_sequence s' = wrap 32 pos' /\
          sent (ss_conn s') = sent (ss_conn s) ++ (encode <$> omap datagram_of outs) /\ omap idle_of outs = []) as Hstop.
      { intros e0 [= <- <-]. exists [], (pos + 1). simpl. rewrite app_nil_r, Hs, wrap_succ.
        split_and!; [constructor; lia|done|done|done]. }
      destruct e; try (by eapply Hstop).
      destruct (IH _ (pos + 1) Hrun) as (outs & pos' & H1 & H2 & H3 & H4); [simpl; rewrite Hs; apply wrap_succ|].
      exists outs, pos'. simpl in H3. rewrite Hsent in H3. split_and!; [|done..].
      eapply numbered_weaken; [|done]. lia.
Qed.

Definition step_outputs (t t' : SenderTask) (pos : Z) : Prop :=
  exists outs pos', numbered pos outs pos' /\ pk_sequence (st_packetizer t') = wrap 32 pos' /\
    sent (st_conn t') = sent (st_conn t) ++ (encode <$> omap datagram_of outs) /\
    st_outbound t' = st_outbound t ++ omap idle_of outs.

Lemma step_outputs_same t t' pos :
  pk_sequence (st_packetizer t) = wrap 32 pos -> pk_sequence (st_packetizer t') = pk_sequence (st_packetizer t) ->
  sent (st_conn t') = sent (st_conn t) -> st_outbound t' = st_outbound t -> step_outputs t t' pos.
Proof.
  intros H1 H2 H3 H4. exists [], pos. simpl. rewrite !app_nil_r. split_and!; [constructor; lia|congruence..].
Qed.

Lemma report_idle_outputs t t0 t' outbound ok pos :
  pk_sequence (st_packetizer t) = wrap 32 pos -> st_conn t = st_conn t0 -> st_outbound t = st_outbound t0 ->
  report_idle t outbound = (t', ok) -> step_outputs t0 t' pos.
Proof.
  intros Hs Hc Ho. unfold report_idle. destruct outbound; intros [= <- <-].
  - exists [Idle (wrap 32 pos)], pos. simpl. rewrite app_nil_r, Hs, Hc, Ho.
    split_and!; [apply numbered_idle; [lia|constructor; lia]|done..].
  - exists [], pos. simpl. rewrite !app_nil_r, Hc, Ho, Hs. split_and!; [constructor; lia|done..].
Qed.

Lemma sender_step_outputs t ev t' r pos :
  sender_step t ev = (t', r) -> pk_sequence (st_packetizer t) = wrap 32 pos -> step_outputs t t' pos.
Proof.
  destruct ev as [|outbound|block allowed enabled reads outbound|n| |]; cbn [sender_step].
  - intros [= <- <-] Hs. by apply step_outputs_same.
  - destruct (silence_update _ _ _ _) as [d [send became_idle]]. destruct became_idle.
    + destruct (report_idle _ outbound) as [t1 ok] eqn:Hr. intros [= <- <-] Hs.
      by eapply (report_idle_outputs (drop_tail (with_silence d t)) t).
    + intros [= <- <-] Hs. by apply step_outputs_same.
  - destruct (silence_update _ _ _ _) as [d [send became_idle]] eqn:Hsil.
    destruct became_idle.
    + assert (send = false) as ->.
      { revert Hsil. unfold silence_update. intros [= _ <- Hb]. by destruct (sd_idle _). }
      destruct (report_idle _ outbound) as [t1 ok] eqn:Hr.
      destruct ok; cbn [negb]; intros [= <- <-] Hs;
        by eapply (report_idle_outputs (drop_tail (with_silence d t)) t).
    + cbn [negb]. destruct send; cbn [negb]; [|intros [= <- <-] Hs; by apply step_outputs_same].
      unfold send_block. cbn [st_packetizer st_conn st_counters st_silence st_outbound with_silence].
      destruct (observe_gate reads) as [open reads']. destruct open; cbn [negb];
        [|intros [= <- <-] Hs; by apply step_outputs_same].
      destruct (for_each_packet_run send_callback (st_packetizer t) block
        (mkSendState (pk_sequence (st_packetizer t)) (st_conn t) (st_counters t) None reads')) as (tail & -> & _).
      destruct (run send_callback _ (packets (st_packetizer t) block)) as [s' more] eqn:Hrun. cbn [fst].
      intros [= <- <-] Hs. destruct (send_run_numbered _ _ _ _ pos Hrun) as (outs & pos' & H1 & H2 & H3 & H4); [done|].
      exists outs, pos'. simpl in *. rewrite H4, app_nil_r. done.
  - intros [= <- <-] Hs. by apply step_outputs_same.
  - intros [= <- <-] Hs. by apply step_outputs_same.
  - intros [= <- <-] Hs. by apply step_outputs_same.
Qed.

Lemma sender_run_outputs evs t t' r pos :
  sender_run t evs = (t', r) -> pk_sequence (st_packetizer t) = wrap 32 pos -> step_outputs t t' pos.
Proof.
  revert t pos. induction evs as [|ev evs IH]; intros t pos; cbn [sender_run].
  - intros [= <- <-] Hs. by apply step_outputs_same.
  - destruct (sender_step t ev) as [t1 [r1|]] eqn:Hstep.
    + intros [= <- <-] Hs. by eapply sender_step_outputs.
    + intros Hrun Hs. destruct (sender_step_outputs _ _ _ _ _ Hstep Hs) as (o1 & p1 & A1 & A2 & A3 & A4).
      destruct (IH _ p1 Hrun A2) as (o2 & p2 & B1 & B2 & B3 & B4).
      exists (o1 ++ o2), p2. split_and!; [by eapply numbered_app|done| |].
      * rewrite B3, A3, omap_app, fmap_app. by rewrite <- app_assoc.
      * rewrite B4, A4, omap_app. by rewrite <- app_assoc.
Qed.

(** *** Sizes *)

Lemma length_payload samples : length (payload_of samples) = (2 * length samples)%nat.
Proof.
  induction samples as [|x l IH]; [done|]. unfold payload_of in *. rewrite bind_cons, length_app, IH.
  simpl. lia.
Qed.

(** The path's datagram size does not shrink while the session lives. *)
Definition stable_size : Prop :=
  forall c b, max_datagram_size (send_datagram c b).1 = max_datagram_size (c : C).

Definition roomy (d : Z) (c : C) : Prop :=
  exists m, max_datagram_size c = Some m /\ AUDIO_PACKET_HEADER_LEN + samples_per_packet d * 2 <= m.

Definition fatal (e : option TransportError) : bool := match e with Some _ => true | None => false end.

Lemma datagram_send_fits c p d c' r :
  stable_size -> roomy d c -> Z.of_nat (length (ap_payload p)) = samples_per_packet d * 2 ->
  datagram_send c p = (c', r) -> roomy d c' /\ (r = Ok tt \/ r = Err Quinn).
Proof.
  intros Hst (m & Hm & Hle) Hlen. unfold datagram_send. rewrite Hm, length_encode, Hlen.
  destruct (Z.ltb_spec m (AUDIO_PACKET_HEADER_LEN + samples_per_packet d * 2)); [lia|].
  pose proof (Hst c (encode p)) as Hs. destruct (send_datagram c (encode p)) as [c1 []]; simpl in Hs;
    intros [= <- <-]; (split; [exists m; split; [congruence|done]|]); [by left|by right].
Qed.

Lemma send_run_fits d ps s s' more :
  d ∈ PACKET_DURATIONS -> stable_size -> sized d ps -> roomy d (ss_conn s) -> ss_error s = None ->
  run send_callback s ps = (s', more) -> roomy d (ss_conn s') /\ ss_error s' = None.
Proof.
  intros Hd Hst. revert s. induction ps as [|[timestamp samples] ps IH]; intros s Hsz Hroom Herr; cbn [run].
  - intros [= <- <-]. done.
  - apply Forall_cons in Hsz as [Hlen Hsz]. simpl in Hlen. unfold send_callback at 1.
    destruct (observe_gate (ss_reads s)) as [[] reads]; cbn [negb]; [|by intros [= <- <-]].
    set (p := mkAudioPacket (ss_sequence s) timestamp (payload_of samples)).
    assert (Z.of_nat (length (ap_payload p)) = samples_per_packet d * 2) as Hp.
    { unfold p. simpl. rewrite length_payload, Hlen. unfold PACKET_DURATIONS in Hd.
      repeat (apply elem_of_cons in Hd as [->|Hd]; [reflexivity|]). set_solver. }
    destruct (datagram_send (ss_conn s) p) as [c r] eqn:Hds.
    destruct (datagram_send_fits _ _ _ _ _ Hst Hroom Hp Hds) as [Hc [-> | ->]]; intros Hrun.
    + apply (IH _ Hsz) in Hrun; done.
    + apply (IH _ Hsz) in Hrun; done.
Qed.

Definition event_ok (ev : sender_event) : Prop :=
  match ev with SendBlock b _ _ _ _ => block_ok b | _ => True end.

Definition task_ok (d : Z) (t : SenderTask) : Prop := shaped d (st_packetizer t) /\ roomy d (st_conn t).

Lemma shaped_sequence d s k : shaped d k -> shaped d (with_sequence s k).
Proof. intros (H1 & H2 & H3). by split_and!. Qed.

Lemma send_block_ok d k c block counters reads k' c' counters' r :
  d ∈ PACKET_DURATIONS -> stable_size -> block_ok block -> shaped d k -> roomy d c ->
  send_block k c block counters reads = (k', c', counters', r) ->
  shaped d k' /\ roomy d c' /\ r = Ok tt.
Proof.
  intros Hd Hst Hb Hsh Hroom. unfold send_block.
  destruct (observe_gate reads) as [[] reads']; cbn [negb]; [|by intros [= <- <- <- <-]].
  destruct (block_shape d _ block Hd Hsh Hb) as [Hsz Haft].
  destruct (for_each_packet_run send_callback k block (mkSendState (pk_sequence k) c counters None reads'))
    as (tail & -> & Htail1 & Htail2).
  destruct (run send_callback _ (packets k block)) as [s' more] eqn:Hrun. cbn [fst snd] in *.
  destruct (send_run_fits d _ (mkSendState (pk_sequence k) c counters None reads') _ _ Hd Hst Hsz Hroom eq_refl Hrun)
    as [Hc Herr].
  rewrite Herr. intros [= <- <- <- <-]. split_and!; [|done..]. apply shaped_sequence. destruct more.
  - by rewrite Htail1.
  - destruct (Htail2 eq_refl) as [-> | ->]; [by apply shaped_no_tail|by destruct k].
Qed.

Lemma report_idle_same (t0 t1 : @SenderTask C) outbound ok :
  report_idle t0 outbound = (t1, ok) ->
  st_packetizer t1 = st_packetizer t0 /\ st_conn t1 = st_conn t0 /\ ok = outbound.
Proof. unfold report_idle. destruct outbound; by intros [= <- <-]. Qed.

Lemma sender_step_ok d t ev t' r :
  d ∈ PACKET_DURATIONS -> stable_size -> event_ok ev -> task_ok d t -> sender_step t ev = (t', r) ->
  task_ok d t' /\ (forall e, r <> Some (Err e)).
Proof.
  intros Hd Hst Hev [Hsh Hroom]. pose proof (shaped_no_tail _ _ Hsh) as Hno.
  destruct ev as [|outbound|block allowed enabled reads outbound|n| |]; cbn [sender_step];
    try (intros [= <- <-]; by split_and!).
  - destruct (silence_update _ _ _ _) as [sd [send became_idle]].
    destruct became_idle; [|intros [= <- <-]; by split_and!].
    destruct (report_idle _ outbound) as [t1 ok] eqn:Hr.
    apply report_idle_same in Hr as (Hk & Hc & _). simpl in Hk, Hc. intros [= <- <-].
    unfold task_ok. rewrite Hk, Hc. split; [done|by destruct ok].
  - destruct (silence_update _ _ _ _) as [sd [send became_idle]].
    destruct (if became_idle then _ else _) as [t1 ok] eqn:Hr.
    assert (task_ok d t1) as [Hsh1 Hroom1].
    { unfold task_ok. destruct became_idle; [|by injection Hr as <- _].
      apply report_idle_same in Hr as (Hk & Hc & _). simpl in Hk, Hc. by rewrite Hk, Hc. }
    destruct ok; cbn [negb]; [|intros [= <- <-]; by split_and!].
    destruct send; cbn [negb]; [|intros [= <- <-]; by split_and!].
    destruct (send_block _ _ _ _ _) as [[[k c] counters] r1] eqn:Hsend.
    destruct (send_block_ok _ _ _ _ _ _ _ _ _ _ Hd Hst Hev Hsh1 Hroom1 Hsend) as (Hk & Hc & ->).
    intros [= <- <-]. by split_and!.
Qed.

Lemma sender_run_ok d evs t t' r :
  d ∈ PACKET_DURATIONS -> stable_size -> Forall event_ok evs -> task_ok d t -> sender_run t evs = (t', r) ->
  task_ok d t' /\ (forall e, r <> Some (Err e)).
Proof.
  intros Hd Hst Hevs. revert t. induction Hevs as [|ev evs Hev _ IH]; intros t Ht; cbn [sender_run].
  - by intros [= <- <-].
  - destruct (sender_step t ev) as [t1 r1] eqn:Hstep.
    destruct (sender_step_ok _ _ _ _ _ Hd Hst Hev Ht Hstep) as [H1 H2].
    destruct r1 as [r1|]; [intros [= <- <-]; done|]. by apply IH.
Qed.
End sender_facts.

(** ** A stream nothing disturbs *)

(** The packets as they leave: numbered from [pos] on. *)
Fixpoint datagrams_of (pos : Z) (ps : list (Z * list Z)) : list AudioPacket :=
  match ps with
  | [] => []
  | (timestamp, samples) :: ps' =>
      mkAudioPacket (wrap 32 pos) timestamp (payload_of samples) :: datagrams_of (pos + 1) ps'
  end.

Lemma datagrams_of_app pos ps qs :
  datagrams_of pos (ps ++ qs) = datagrams_of pos ps ++ datagrams_of (pos + Z.of_nat (length ps)) qs.
Proof.
  revert pos. induction ps as [|[t x] ps IH]; intros pos; simpl; [by rewrite Z.add_0_r|].
  rewrite IH. do 2 f_equal. f_equal. lia.
Qed.

Lemma datagrams_of_lookup pos ps i p :
  datagrams_of pos ps !! i = Some p ->
  exists q, ps !! i = Some q /\ p = mkAudioPacket (wrap 32 (pos + Z.of_nat i)) q.1 (payload_of q.2).
Proof.
  revert pos i. induction ps as [|[t x] ps IH]; intros pos i; [done|]. destruct i as [|i]; simpl.
  - intros [= <-]. exists (t, x). by rewrite Z.add_0_r.
  - intros H. destruct (IH _ _ H) as (q & Hq & ->). exists q. split; [done|]. do 2 f_equal. lia.
Qed.

Lemma datagrams_of_payloads pos ps :
  concat (ap_payload <$> datagrams_of pos ps) = payload_of (concat (ps.*2)).
Proof.
  revert pos. induction ps as [|[t x] ps IH]; intros pos; [done|]. csimpl. rewrite IH.
  unfold payload_of. by rewrite bind_app.
Qed.

Lemma packets_with_sequence s k b : packets (with_sequence s k) b = packets k b.
Proof. done. Qed.

Lemma packets_count d t k b :
  d ∈ PACKET_DURATIONS -> in_step d t k -> block_ok b -> pb_timestamp b = t -> 0 <= t -> t + 480 < 2 ^ 64 ->
  (length (packets k b) <= 12)%nat.
Proof.
  intros Hd Hs Hb Ht H0 Hmax. pose proof (block_step d t k b Hd Hs Hb Ht H0 Hmax) as (_ & _ & Hs' & Hot).
  assert (forall t k, in_step d t k -> t - 96 <= open_time t k <= t) as Hopen.
  { intros t0 k0 (_ & _ & Hk). unfold open_time, tail_samples. destruct (pk_pending_tail k0) as [tail|].
    - destruct Hk as (_ & _ & _ & ->). destruct four_constants as (_ & _ & -> & _).
      change (Z.of_nat 192 / 2) with 96. lia.
    - cbn [length]. change (Z.of_nat 0 / 2) with 0. lia. }
  pose proof (Hopen _ _ Hs). pose proof (Hopen _ _ Hs').
  assert (48 <= Z.of_nat (Z.to_nat (samples_per_packet d)) / 2) by (clear -Hd; pattern d; by apply (durations_cases _ d)).
  set (x := Z.of_nat (Z.to_nat (samples_per_packet d)) / 2) in *. clearbody x. nia.
Qed.

Section undisturbed.
Context {C : Type} `{!QuicConnection C} {Hquic : QuicConnectionLaws C}.

(** The connection cannot carry packet [p] any more, and what [DatagramSender::send] says then. *)
Definition too_small (c : C) (p : AudioPacket) (e : TransportError) : Prop :=
  match max_datagram_size c with
  | None => e = DatagramUnsupported
  | Some m => m < Z.of_nat (length (encode p)) /\ e = DatagramTooLarge (Z.of_nat (length (encode p))) m
  end.

(** What was handed to the connection on the way from [c] to [c']: each of the
    packets once and in order, whatever the connection answered; or those before
    the first one it could not carry, which is the error. *)
Definition handed_on (c c' : C) (ps : list AudioPacket) (err : option TransportError) : Prop :=
  match err with
  | None => exists answers, length answers = length ps /\ handed c' = handed c ++ zip (encode <$> ps) answers
  | Some e => exists n p answers, ps !! n = Some p /\ too_small c' p e /\
      length answers = n /\ handed c' = handed c ++ zip (encode <$> take n ps) answers
  end.

Lemma handed_on_nil c : handed_on c c [] None.
Proof. exists []. simpl. by rewrite app_nil_r. Qed.

Lemma handed_on_app c c1 c' ps qs err :
  handed_on c c1 ps None -> handed_on c1 c' qs err -> handed_on c c' (ps ++ qs) err.
Proof.
  intros (a1 & Hl1 & Hc1). destruct err as [e|].
  - intros (n & p & a2 & Hp & Hsmall & Hl2 & Hc'). exists (length ps + n)%nat, p, (a1 ++ a2).
    rewrite lookup_app_r by lia. replace (length ps + n - length ps)%nat with n by lia.
    split_and!; [done|done|rewrite length_app; lia|].
    rewrite Hc', Hc1, take_app_add, fmap_app, zip_with_app by (by rewrite length_fmap). by rewrite app_assoc.
  - intros (a2 & Hl2 & Hc'). exists (a1 ++ a2). split; [rewrite !length_app; lia|].
    rewrite Hc', Hc1, fmap_app, zip_with_app by (by rewrite length_fmap). by rewrite app_assoc.
Qed.

Lemma handed_on_stop c c' ps qs e : handed_on c c' ps (Some e) -> handed_on c c' (ps ++ qs) (Some e).
Proof.
  intros (n & p & a & Hp & Hsmall & Hl & Hc'). exists n, p, a. apply lookup_lt_Some in Hp as Hn.
  rewrite take_app_le by lia. split_and!; [by apply lookup_app_l_Some|done..].
Qed.

Lemma handed_on_sent c c' ps : handed_on c c' ps None -> refused c' = refused c -> sent c' = sent c ++ (encode <$> ps).
Proof. intros (a & Hl & Hc). apply (none_refused _ _ _ a); [by rewrite length_fmap|done]. Qed.

(** One packet. *)
Lemma datagram_send_handed c p c' r :
  datagram_send c p = (c', r) ->
  match r with
  | Ok _ | Err Quinn => handed_on c c' [p] None
  | Err e => handed_on c c' [p] (Some e)
  end.
Proof.
  unfold datagram_send. destruct (max_datagram_size c) as [m|] eqn:Hm.
  - destruct (Z.ltb_spec m (Z.of_nat (length (encode p)))).
    + intros [= <- <-]. exists 0%nat, p, []. unfold too_small. rewrite Hm. simpl. by rewrite app_nil_r.
    + destruct (send_datagram c (encode p)) as [c1 []] eqn:Hs; intros [= <- <-];
        apply send_datagram_answer in Hs; (eexists [_]; split; [done|exact Hs]).
  - intros [= <- <-]. exists 0%nat, p, []. unfold too_small. rewrite Hm. simpl. by rewrite app_nil_r.
Qed.

Definition open_gate (reads : list bool) : Prop := Forall (eq true) reads /\ (16 <= length reads)%nat.

(** The events of a stream with an open gate, in which every block is audible. *)
Definition undisturbed (b : PcmBlock) (ev : sender_event) : Prop :=
  forallb (fun sample => sample =? 0) (pb_samples b) = false /\
  exists reads outbound, open_gate reads /\ ev = SendBlock b true true reads outbound.

(** The callback over packets while the gate is open. *)
Lemma send_run_open pos ps s :
  Forall (eq true) (ss_reads s) -> (length ps <= length (ss_reads s))%nat -> ss_sequence s = wrap 32 pos ->
  ss_error s = None ->
  handed_on (ss_conn s) (ss_conn (run send_callback s ps).1) (datagrams_of pos ps)
    (ss_error (run send_callback s ps).1) /\
  (ss_error (run send_callback s ps).1 = None ->
     (run send_callback s ps).2 = true /\
     ss_sequence (run send_callback s ps).1 = wrap 32 (pos + Z.of_nat (length ps))).
Proof.
  revert pos s. induction ps as [|[timestamp samples] ps IH]; intros pos [sq c counters err reads] Hopen Hlen Hseq Herr;
    cbn [ss_conn ss_reads ss_sequence ss_error] in *; subst sq err.
  - cbn [run fst snd datagrams_of length ss_conn ss_error ss_sequence]. rewrite Z.add_0_r. split; [apply handed_on_nil|done].
  - destruct reads as [|r reads]; simpl in Hlen; [lia|]. apply Forall_cons in Hopen as [<- Hopen].
    set (p := mkAudioPacket (wrap 32 pos) timestamp (payload_of samples)).
    destruct (datagram_send c p) as [c' r] eqn:Hds.
    set (s1 counters err := mkSendState (wrapping_add 32 (wrap 32 pos) 1) c' counters err reads).
    assert (run send_callback (mkSendState (wrap 32 pos) c counters None (true :: reads)) ((timestamp, samples) :: ps) =
      match r with
      | Ok _ => run send_callback (s1 (count_sent counters) None) ps
      | Err Quinn => run send_callback (s1 (count_dropped counters) None) ps
      | Err e => (s1 counters (Some e), false)
      end) as ->.
    { cbn [run]. unfold send_callback at 1. cbn [ss_reads observe_gate negb ss_conn ss_sequence ss_counters ss_error].
      fold p. rewrite Hds. by destruct r as [|[]]. }
    apply datagram_send_handed in Hds. cbn [datagrams_of].
    change (p :: datagrams_of (pos + 1) ps) with ([p] ++ datagrams_of (pos + 1) ps).
    assert (forall counters', handed_on c c' [p] None ->
      handed_on c (ss_conn (run send_callback (s1 counters' None) ps).1) ([p] ++ datagrams_of (pos + 1) ps)
        (ss_error (run send_callback (s1 counters' None) ps).1) /\
      (ss_error (run send_callback (s1 counters' None) ps).1 = None ->
        (run send_callback (s1 counters' None) ps).2 = true /\
        ss_sequence (run send_callback (s1 counters' None) ps).1 =
          wrap 32 (pos + Z.of_nat (length ((timestamp, samples) :: ps))))) as Hgo.
    { intros counters' Hone. destruct (IH (pos + 1) (s1 counters' None)) as [H1 H2]; [done|simpl; lia|apply wrap_succ|done|].
      split; [by eapply handed_on_app|]. intros Hn. destruct (H2 Hn) as [-> ->]. split; [done|]. f_equal. simpl. lia. }
    destruct r as [u|[]]; try (by apply Hgo); (split; [exact (handed_on_stop c c' [p] _ _ Hds)|done]).
Qed.

Lemma in_step_shaped d t k : in_step d t k -> shaped d k.
Proof.
  intros (H1 & H2 & H3). split_and!; [done..|]. intros tail Ht. rewrite Ht in H3. tauto.
Qed.

Lemma packets_all_shaped d blocks k :
  d ∈ PACKET_DURATIONS -> shaped d k -> Forall block_ok blocks -> shaped d (packets_all k blocks).2.
Proof.
  intros Hd Hk Hb. revert k Hk. induction Hb as [|b blocks Hb _ IH]; intros k Hk; [done|]. cbn [packets_all].
  destruct (block_shape d k b Hd Hk Hb) as [_ Hs]. specialize (IH _ Hs). by destruct (packets_all (after k b) blocks).
Qed.

Lemma capture_blocks t blocks : capture t blocks -> Forall block_ok blocks.
Proof. revert t. induction blocks as [|b blocks IH]; intros t; [constructor|]. intros (Hb & _ & _ & Hc). constructor; [done|by eapply IH]. Qed.

Lemma shaped_tail d k : d ∈ PACKET_DURATIONS -> shaped d k -> Z.of_nat (length (tail_samples k)) < Packetizer.samples_per_packet d.
Proof.
  intros Hd (_ & _ & Htail). unfold tail_samples. destruct (pk_pending_tail k) as [tail|] eqn:E.
  - destruct (Htail tail eq_refl) as [-> Hlen]. rewrite Hlen. vm_compute. done.
  - clear -Hd. pattern d. by apply (durations_cases _ d).
Qed.

(** One block of such a stream. *)
Lemma undisturbed_step d t pos k0 task b ev :
  d ∈ PACKET_DURATIONS -> undisturbed b ev -> block_ok b ->
  pb_timestamp b = t -> 0 <= t -> t + 480 < 2 ^ 64 ->
  in_step d t k0 -> st_packetizer task = with_sequence (wrap 32 pos) k0 ->
  exists task' err, sender_step task ev = (task', Err <$> err) /\
    handed_on (st_conn task) (st_conn task') (datagrams_of pos (packets k0 b)) err /\
    (err = None ->
      st_packetizer task' = with_sequence (wrap 32 (pos + Z.of_nat (length (packets k0 b)))) (after k0 b)).
Proof.
  intros Hd [Haud (reads & outbound & [Hopen Hlen] & ->)] Hb Ht H0 Hmax Hstep Hk.
  pose proof (packets_count d t k0 b Hd Hstep Hb Ht H0 Hmax) as Hcount.
  destruct task as [c k sd counters out]. cbn [st_packetizer st_conn] in *. subst k.
  cbn [sender_step st_silence]. rewrite Haud, silence_audible. cbn [andb negb with_silence st_conn st_packetizer st_counters st_silence st_outbound].
  destruct reads as [|r reads]; simpl in Hlen; [lia|]. apply Forall_cons in Hopen as [<- Hopen].
  unfold send_block. cbn [observe_gate negb].
  set (s0 := mkSendState (pk_sequence (with_sequence (wrap 32 pos) k0)) c counters None reads).
  destruct (for_each_packet_run send_callback (with_sequence (wrap 32 pos) k0) b s0) as (tail & -> & Htail & _).
  rewrite packets_with_sequence in *.
  destruct (send_run_open pos (packets k0 b) s0 Hopen) as [H1 H2]; [simpl; lia|done|done|].
  destruct (run send_callback s0 (packets k0 b)) as [s' more] eqn:Hrun. cbn [fst snd] in *.
  eexists _, (ss_error s'). split; [by destruct (ss_error s')|]. cbn [st_packetizer st_conn]. split; [exact H1|].
  intros Hn. destruct (H2 Hn) as [-> H3].
  rewrite Htail, H3 by done. unfold after, with_sequence, with_tail, start_offset, contiguous. simpl.
  by destruct (pk_frame_duration_ms k0 =? 4); [case_match|].
Qed.

Lemma undisturbed_run d t pos k0 task blocks evs :
  d ∈ PACKET_DURATIONS -> Forall2 undisturbed blocks evs ->
  0 <= t -> capture t blocks ->
  in_step d t k0 -> st_packetizer task = with_sequence (wrap 32 pos) k0 ->
  exists task' err, sender_run task evs = (task', Err <$> err) /\
    handed_on (st_conn task) (st_conn task') (datagrams_of pos (packets_all k0 blocks).1) err.
Proof.
  intros Hd Hevs. revert t pos k0 task.
  induction Hevs as [|b ev blocks evs Hev _ IH]; intros t pos k0 task H0 Hcap Hstep Hk.
  - exists task, None. split; [done|apply handed_on_nil].
  - destruct Hcap as (Hb & Ht & Hmax & Hcap).
    destruct (undisturbed_step d t pos k0 task b ev) as (task1 & err & Hrun & Hsent & Hk1); try done.
    pose proof (block_step d t k0 b Hd Hstep Hb Ht H0 Hmax) as (_ & _ & Hstep1 & _).
    cbn [sender_run packets_all]. rewrite Hrun.
    destruct err as [e|]; cbn [fmap option_fmap option_map].
    + exists task1, (Some e). split; [done|].
      destruct (packets_all (after k0 b) blocks) as [ps k']. cbn [fst].
      rewrite datagrams_of_app. by apply handed_on_stop.
    + destruct (IH (t + 480) _ (after k0 b) task1 ltac:(lia) Hcap Hstep1 (Hk1 eq_refl)) as (task' & err & Hrun' & Hsent').
      exists task', err. split; [done|]. destruct (packets_all (after k0 b) blocks) as [ps k']. cbn [fst] in *.
      rewrite datagrams_of_app. by eapply handed_on_app.
Qed.
End undisturbed.

(** ** Properties *)

(** A connection that records its datagrams and refuses every [rec_every]-th
    one (none when 0). *)
Record Recorder : Type := mkRecorder {
  rec_max : option Z;
  rec_every : nat;
  rec_calls : nat;
  rec_handed : list (bytes * bool);
}.

#[export] Instance recorder_connection : QuicConnection Recorder := {
  max_datagram_size := rec_max;
  send_datagram c b :=
    let refuse := Nat.eqb (S (rec_calls c) mod rec_every c) 0 && negb (Nat.eqb (rec_every c) 0) in
    (mkRecorder (rec_max c) (rec_every c) (S (rec_calls c)) (rec_handed c ++ [(b, negb refuse)]), negb refuse);
}.
#[export] Instance recorder_laws : QuicConnectionLaws Recorder.
Proof. by refine {| handed := rec_handed |}; intros [m e n l] b. Defined.

Lemma recorder_stable : stable_size (C := Recorder).
Proof. by intros [m e n l] b. Qed.

(** A connection that takes everything. *)
Record Sink : Type := mkSink { sink_sent : list bytes }.
#[export] Instance sink_connection : QuicConnection Sink := {
  max_datagram_size _ := Some 1200;
  send_datagram c b := (mkSink (sink_sent c ++ [b]), true);
}.
#[export] Instance sink_laws : QuicConnectionLaws Sink.
Proof.
  refine {| handed c := (fun b => (b, true)) <$> sink_sent c |}. intros [l] b. simpl. by rewrite fmap_app.
Defined.

Section properties.
Context {C : Type} `{!QuicConnection C} {Hquic : QuicConnectionLaws C}.

(** Whatever happens to a sender task, the datagrams that reach the
    network and the idle notices in the control queue tell one story: the
    sequence numbers count the packets from 0, a number is never used twice and
    never goes back (until 2^32 packets), packets lost before the network leave
    a hole, and an idle notice announces exactly the number the next packet
    would have. *)
Theorem stream_is_numbered (c : C) (d : Z) (t0 : SenderTask) (evs : list sender_event) (Hstart : sender_start c d = Ok t0) :
  exists outs last, numbered 0 outs last /\
    sent (st_conn (sender_run t0 evs).1) = sent c ++ (encode <$> omap datagram_of outs) /\
    st_outbound (sender_run t0 evs).1 = omap idle_of outs /\
    pk_sequence (st_packetizer (sender_run t0 evs).1) = wrap 32 last.
Proof.
  unfold sender_start, sender_new in Hstart. destruct (max_datagram_size c); [|done].
  injection Hstart as <-. destruct (sender_run _ evs) as [t' r] eqn:Hrun.
  destruct (sender_run_outputs _ _ _ _ 0 Hrun eq_refl) as (outs & last & H1 & H2 & H3 & H4).
  exists outs, last. done.
Qed.

Lemma choose_roomy (c : C) d :
  sender_new c = Ok c -> choose_packet_duration_ms (max_payload_len c) = Some d ->
  d ∈ PACKET_DURATIONS /\ roomy d c.
Proof.
  unfold sender_new, max_payload_len. destruct (max_datagram_size c) as [m|] eqn:Hm; [|done]. intros _ H.
  apply choose_duration_sound in H as [Hd Hle]. split; [done|]. exists m. split; [done|].
  simpl in Hle. unfold saturating_sub in Hle.
  assert (192 <= samples_per_packet d * 2) by (clear -Hd; pattern d; by apply (durations_cases _ d)).
  destruct (Z.max_spec 0 (m - AUDIO_PACKET_HEADER_LEN)); lia.
Qed.

(** The duration the handshake agrees on is one the sender can honour:
    while the path's datagram size stays what it was, no sequence of blocks,
    gates, lags and refusals ever makes the sender task end with an error; it
    runs on, or stops because it was told to. *)
Theorem agreed_duration_always_fits (c : C) (d : Z) (evs : list sender_event)
  (Hagreed : choose_packet_duration_ms (max_payload_len c) = Some d)
  (Hdatagrams : sender_new c = Ok c) (Hstable : stable_size (C := C)) (Hevs : Forall event_ok evs) :
  exists t0, sender_start c d = Ok t0 /\
    ((sender_run t0 evs).2 = None \/ (sender_run t0 evs).2 = Some (Ok tt)).
Proof.
  destruct (choose_roomy _ _ Hdatagrams Hagreed) as [Hd Hroom].
  unfold sender_start. rewrite Hdatagrams. eexists. split; [reflexivity|].
  destruct (sender_run _ evs) as [t' r] eqn:Hrun.
  assert (shaped d (packetizer_new d)) as Hsh by apply (in_step_shaped d 0), packetizer_new_in_step.
  assert (task_ok d (mkSenderTask c (packetizer_new d) silence_new counters_default [])) as Hok by done.
  destruct (sender_run_ok d _ _ _ _ Hd Hstable Hevs Hok Hrun) as [_ Hr].
  simpl. destruct r as [[[]|e]|]; [by right| |by left]. by destruct (Hr e).
Qed.

(** C14. End to end on the server, over any connection: a gapless run of audible
    blocks is cut into packets that are numbered without holes, carry the agreed
    number of samples and gapless timestamps, and whose payloads are the captured
    samples in little-endian order, up to less than a packet that waits for the
    next block.  The sender hands each of them to the connection exactly once and
    in this order; a datagram the connection refuses is not sent again, and where
    it refuses none they are all sent.  Nothing ends the task but a path whose
    datagram size no longer carries the next packet, which is the error it ends
    with, after the packets before that one were handed over. *)
Theorem audible_stream_leaves_whole (c0 c : C) (d t : Z) (blocks : list PcmBlock) (evs : list sender_event)
  (t0 : SenderTask) (Hagreed : choose_packet_duration_ms (max_payload_len c0) = Some d)
  (Hstart : sender_start c d = Ok t0) (Ht : 0 <= t) (Hcapture : capture t blocks) (Hevs : Forall2 undisturbed blocks evs) :
  exists t1 err packets tail, sender_run t0 evs = (t1, Err <$> err) /\
    handed_on c (st_conn t1) packets err /\
    (err = None -> refused (st_conn t1) = refused c -> sent (st_conn t1) = sent c ++ (encode <$> packets)) /\
    concat (ap_payload <$> packets) ++ payload_of tail = payload_of (concat (pb_samples <$> blocks)) /\
    Z.of_nat (length tail) < samples_per_packet d /\
    forall i p, packets !! i = Some p ->
      ap_sequence p = wrap 32 (Z.of_nat i) /\
      ap_timestamp p = t + Z.of_nat i * (samples_per_packet d / CHANNELS) /\
      Z.of_nat (length (ap_payload p)) = samples_per_packet d * 2.
Proof.
  apply choose_duration_sound in Hagreed as [Hd _].
  unfold sender_start, sender_new in Hstart. destruct (max_datagram_size c); [|done]. injection Hstart as <-.
  pose proof (packetizer_new_in_step d t) as Hstep.
  destruct (packets_all_spec d blocks t _ Hd Hstep Ht Hcapture) as [H1 H2].
  destruct (undisturbed_run d t 0 (packetizer_new d)
    (mkSenderTask c (packetizer_new d) silence_new counters_default []) blocks evs) as (t1 & err & Hrun & Hsent); try done.
  exists t1, err, (datagrams_of 0 (packets_all (packetizer_new d) blocks).1),
         (tail_samples (packets_all (packetizer_new d) blocks).2).
  split_and!; [done|exact Hsent| | | |].
  - intros ->. by apply handed_on_sent.
  - rewrite datagrams_of_payloads. unfold payload_of. rewrite <- bind_app. f_equal. symmetry. exact H1.
  - apply shaped_tail; [done|]. apply packets_all_shaped; [done|by eapply in_step_shaped|by eapply capture_blocks].
  - intros i p Hp. apply datagrams_of_lookup in Hp as (q & Hq & ->). simpl. split; [done|].
    destruct (H2 i q Hq) as [-> Hlen]. unfold open_time. simpl. change (0 / 2) with 0.
    rewrite length_payload, Hlen. clear -Hd. rewrite Z.sub_0_r.
    pattern d. by apply (durations_cases _ d).
Qed.
End properties.

Lemma stream_is_numbered_witness :
  let c := mkRecorder (Some 500) 3 0 [] in
  let t0 := mkSenderTask c (packetizer_new 2) silence_new counters_default [] in
  let evs := [SendBlock (mkPcmBlock 0 (replicate 960 1)) true true (replicate 16 true) true; SendGateClosed true] in
  st_outbound (sender_run t0 evs).1 = [AudioIdle 5] /\
  exists outs last, numbered 0 outs last /\
    sent (st_conn (sender_run t0 evs).1) = sent c ++ (encode <$> omap datagram_of outs) /\
    st_outbound (sender_run t0 evs).1 = omap idle_of outs /\
    pk_sequence (st_packetizer (sender_run t0 evs).1) = wrap 32 last.
Proof.
  split; [vm_compute; reflexivity|].
  apply (stream_is_numbered (mkRecorder (Some 500) 3 0 []) 2). reflexivity.
Defined.

Lemma agreed_duration_always_fits_witness :
  let c := mkRecorder (Some 1200) 3 0 [] in
  let evs := [SendBlock (mkPcmBlock 0 (replicate 960 1)) true true (replicate 16 true) true] in
  exists t0, sender_start c 5 = Ok t0 /\
    ((sender_run t0 evs).2 = None \/ (sender_run t0 evs).2 = Some (Ok tt)).
Proof.
  apply (agreed_duration_always_fits (mkRecorder (Some 1200) 3 0 []) 5
           [SendBlock (mkPcmBlock 0 (replicate 960 1)) true true (replicate 16 true) true]).
  - vm_compute. reflexivity.
  - reflexivity.
  - apply recorder_stable.
  - constructor; [|constructor]. vm_compute. reflexivity.
Defined.

(** Every second datagram is refused; the sender goes on. *)
Definition heard_blocks : list PcmBlock := [mkPcmBlock 480 (replicate 960 7); mkPcmBlock 960 (replicate 960 (-7))].
Definition heard_events : list sender_event := (fun b => SendBlock b true true (replicate 16 true) true) <$> heard_blocks.
Definition refusing : Recorder := mkRecorder (Some 1200) 2 0 [].
Definition refused_task : SenderTask := mkSenderTask refusing (packetizer_new 5) silence_new counters_default [].

Lemma audible_stream_leaves_whole_witness :
  exists t1 packets tail, sender_run refused_task heard_events = (t1, None) /\
    (handed (st_conn t1)).*2 = [true; false; true; false] /\ handed_on refusing (st_conn t1) packets None /\
    concat (ap_payload <$> packets) ++ payload_of tail = payload_of (concat (pb_samples <$> heard_blocks)) /\
    Z.of_nat (length tail) < samples_per_packet 5.
Proof.
  destruct (audible_stream_leaves_whole refusing refusing 5 480 heard_blocks heard_events refused_task)
    as (t1 & err & packets & tail & Hrun & Hhanded & _ & Hpay & Hlen & _).
  - vm_compute. reflexivity.
  - reflexivity.
  - lia.
  - cbn [heard_blocks capture pb_timestamp]. unfold block_ok, pb_samples. rewrite !length_replicate.
    split_and!; (reflexivity || lia || exact I).
  - repeat constructor; try (vm_compute; reflexivity);
      (exists (replicate 16 true), true; split; [split; [by apply Forall_replicate|rewrite length_replicate; lia]|reflexivity]).
  - assert ((sender_run refused_task heard_events).2 = None) as Hnone by (vm_compute; reflexivity).
    assert ((handed (st_conn (sender_run refused_task heard_events).1)).*2 = [true; false; true; false]) as Hanswers
      by (vm_compute; reflexivity).
    rewrite Hrun in Hnone, Hanswers. destruct err; [discriminate Hnone|].
    exists t1, packets, tail. exact (conj Hrun (conj Hanswers (conj Hhanded (conj Hpay Hlen)))).
Defined.

Section handshake_properties.
Context {W R : Type} `{!SendStream W, !SendStreamLaws W}.
Context {Hcodec : ControlCodec} {C : Type} `{!QuicConnection C}.

Definition greeting (d : Z) : list ControlMessage :=
  [Hello PROTOCOL_VERSION; StreamInfoMsg (stream_info d); Start].

(** What the handshake promises. It succeeds only with a peer that opened
    a control stream and greeted with exactly this protocol version over a path
    with datagrams; the duration it returns is the longest that fits and the
    peer has been sent the greeting, the stream description with that duration,
    and the start message, in this order and nothing else. Every failure other
    than a failing write leaves the stream untouched. *)
Theorem handshake_outcome (c : C) (streams : selected (option W)) (hello : selected (result TransportError ControlMessage)) :
  match perform_handshake c streams hello with
  | (Some w', Ok d) =>
      exists w, streams = Ready (Some w) /\ hello = Ready (Ok (Hello PROTOCOL_VERSION)) /\
        sender_new c = Ok c /\ choose_packet_duration_ms (max_payload_len c) = Some d /\
        send_all w (greeting d) = (w', Ok tt)
  | (Some w', Err e) => streams = Ready (Some w') \/ e = HsSend
  | (None, Ok _) => False
  | (None, Err _) => forall w, streams <> Ready (Some w)
  end.
Proof.
  unfold perform_handshake. destruct streams as [[w|]| |]; [|done..].
  destruct hello as [[m|e]| |]; [|by left..]. destruct m; try (by left).
  destruct (Z.eqb_spec protocol_version PROTOCOL_VERSION) as [->|]; simpl; [|by left].
  destruct (sender_new c) as [c'|] eqn:Hnew; [|by left].
  assert (c' = c) as -> by (unfold sender_new in Hnew; destruct (max_datagram_size c); congruence).
  destruct (choose_packet_duration_ms (max_payload_len c)) as [d|] eqn:Hd; [|by left].
  unfold send_or_fail.
  destruct (writer_send w (Hello PROTOCOL_VERSION)) as [w1 [[]|]] eqn:H1; simpl; [|by right].
  destruct (writer_send w1 _) as [w2 [[]|]] eqn:H2; simpl; [|by right].
  destruct (writer_send w2 Start) as [w3 [[]|]] eqn:H3; simpl; [|by right].
  exists w. split_and!; try done. unfold greeting. simpl. by rewrite H1, H2, H3.
Qed.
End handshake_properties.

Lemma handshake_outcome_witness :
  let c := mkSink [] in
  let w := mkPipeEnd [] in
  exists w', perform_handshake c (Ready (Some w)) (Ready (Ok (Hello PROTOCOL_VERSION))) = (Some w', Ok 5) /\
    send_all w (greeting 5) = (w', Ok tt).
Proof.
  pose proof (handshake_outcome (mkSink []) (Ready (Some (mkPipeEnd []))) (Ready (Ok (Hello PROTOCOL_VERSION)))) as H.
  cbv zeta. destruct (perform_handshake _ _ _) as [[w'|] [d|e]] eqn:Hrun; try (exfalso; revert Hrun; vm_compute; discriminate).
  destruct H as (w & Hw & _ & _ & Hd & Hsend). injection Hw as <-. injection Hd as <-. exists w'. split; [reflexivity|exact Hsend].
Defined.

Section control_properties.
Context {W : Type} `{!SendStream W} {Hcodec : ControlCodec}.
Context {Sender : Type} `{!Mpsc Sender ControlMessage}.

(** The registry operations the control loop of a receiver may perform. *)
Definition confined (id : Z) (op : registry_op Sender) : Prop :=
  match op with
  | RegQuery i | RegUpdateDevice i _ | RegUpdateTone i _ _ _ => i = id
  | _ => False
  end.

Lemma control_step_ops (w : W) (s : Registry Sender) id ev :
  exists ops, (control_step w s id ev).1.2 = registry_run s ops /\ Forall (confined id) ops.
Proof.
  assert (exists ops, s = registry_run s ops /\ Forall (confined id) ops) as Hnone by (by exists []).
  destruct ev as [| | |m|[m|e]]; cbn [control_step fst snd]; try exact Hnone.
  - exists [RegQuery id]. split; [done|]. by constructor.
  - destruct (writer_send w m) as [w' [u|e]]; exact Hnone.
  - destruct m; try exact Hnone; cbn [fst snd].
    + exists [RegUpdateDevice id status]. split; [done|]. by constructor.
    + exists [RegUpdateTone id request_id playing failed]. split; [done|]. by constructor.
Qed.

Lemma control_run_ops (w : W) (s : Registry Sender) id evs :
  exists ops, (process_control_messages w s id evs).2 = registry_run s ops /\ Forall (confined id) ops.
Proof.
  revert w s. induction evs as [|ev evs IH]; intros w s; cbn [process_control_messages]; [by exists []|].
  destruct (control_step_ops w s id ev) as (ops & Hops & Hc).
  destruct (control_step w s id ev) as [[w1 s1] []]; cbn [fst snd] in *; [|by exists ops].
  destruct (IH w1 s1) as (ops' & -> & Hc'). exists (ops ++ ops').
  unfold registry_run in *. rewrite foldl_app, <- Hops. split; [done|]. by apply Forall_app.
Qed.

(** What another receiver's record and gate say. *)
Definition bystander (s : Registry Sender) (i : Z) : option (Receiver Sender * bool) :=
  (fun r => (r, gate_load s (r_playback r))) <$> get_receiver s i.

Lemma bystander_modify s id i f : i <> id -> bystander (modify s id f) i = bystander s i.
Proof.
  intros Hne. unfold bystander. rewrite get_receiver_modify. apply Z.eqb_neq in Hne. rewrite Hne.
  destruct (get_receiver s i) as [r|]; [|done]. simpl. by rewrite gate_load_modify.
Qed.

Lemma bystander_confined s op id i :
  registry_wf s -> confined id op -> i <> id -> bystander (registry_step s op) i = bystander s i.
Proof.
  intros Hwf Hop Hne. destruct op; try done; simpl in Hop; subst; cbn [registry_step].
  - unfold request. rewrite send_request_fst.
    destruct (send_cases (fetch_request s).1 id (QueryDevice (fetch_request s).2)) as [H|(r & c & _ & _ & H & _)];
      rewrite H; [done|]. by rewrite bystander_modify.
  - unfold update_tone. case_match; [done|]. by rewrite bystander_modify.
  - unfold update_device. case_match; [done|]. destruct (get_receiver s id) as [r|] eqn:Hr; [|done].
    rewrite bystander_modify by done. case_match; [|done]. unfold bystander.
    destruct (get_receiver s i) as [q|] eqn:Hq; simpl;
      (assert (get_receiver (gate_store (r_playback r) false s) i = get_receiver s i) as -> by done); rewrite Hq; [|done].
    simpl. rewrite gate_load_store. destruct (Z.eqb_spec (r_playback q) (r_playback r)) as [He|]; [|done].
    by destruct Hne; apply (rgw_distinct s Hwf _ _ q r).
Qed.

(** A phone's control loop is confined: whatever its peer sends and
    whatever is queued for it, the loop keeps the registry invariant, changes
    neither the record nor the gate of any other receiver, and opens no gate:
    who plays afterwards played before, in the state that was approved. *)
Theorem control_loop_is_confined (w : W) (s : Registry Sender) (id : Z) (evs : list control_event)
  (Hwf : registry_wf s) :
  let s' := (process_control_messages w s id evs).2 in
  registry_wf s' /\ plays_back s s' /\ forall i, i <> id -> bystander s' i = bystander s i.
Proof.
  destruct (control_run_ops w s id evs) as (ops & -> & Hops). split_and!.
  - by apply registry_run_wf.
  - apply registry_run_plays_back; [done|]. eapply Forall_impl; [exact Hops|]. by intros [].
  - intros i Hne. revert s Hwf. induction Hops as [|op ops Hop _ IH]; intros s Hwf; [done|]. simpl.
    rewrite IH by (by apply registry_step_wf). by eapply bystander_confined.
Qed.
End control_properties.

Lemma control_loop_is_confined_witness :
  let s := approve two_phones [(0, phone [97] 0 3); (1, phone [98] 0 5)] in
  let evs := [CtlTick; CtlReceived (Ok (DeviceStatusMsg (phone [97] 0 4))); CtlReceived (Ok Start);
              CtlReceived (Ok (ToneState 3 true false)); CtlOutbound Start; CtlReceived (Ok Stop)] in
  let s' := (process_control_messages (mkPipeEnd []) s 0 evs).2 in
  rs_playing <$> snapshots s' = [false; true] /\
  (registry_wf s' /\ plays_back s s' /\ forall i, i <> 0 -> bystander s' i = bystander s i).
Proof.
  split; [vm_compute; reflexivity|].
  apply (control_loop_is_confined (mkPipeEnd []) (approve two_phones [(0, phone [97] 0 3); (1, phone [98] 0 5)])).
  apply approve_wf, two_phones_wf.
Defined.
