(* ===== verification/Ring.v ===== *)
(** * Ring: the PCM ring between the network and the audio writer

    [android/app/src/main/rust/src/ring_buffer.rs].  The receiver task is the
    only producer, Kotlin's [AudioTrack] writer the only consumer.  The
    sequential functions come first; a step relation then interleaves the
    atomic queue operations and flag accesses of the two threads.
    [crossbeam_queue::ArrayQueue] is a list with a capacity, as documented. *)

From Stdlib Require Import ZArith Lia.
From S2P Require Import Prelude Wire.

(** ** State *)

Definition MAX_JITTER_BUFFER_MS : Z := 100.
Definition PCM_RING_CAPACITY_SAMPLES : Z := SAMPLE_RATE * CHANNELS * MAX_JITTER_BUFFER_MS / 1000.

Record PcmRing : Type := mkRing {
  rg_capacity : Z;
  rg_queue : list Z;
  rg_underruns : Z;
  rg_playback_target : Z;
  rg_buffering : bool;
}.

Definition ring_new (capacity_samples : Z) : PcmRing := mkRing capacity_samples [] 0 0 false.

Definition rg_len (r : PcmRing) : Z := Z.of_nat (length (rg_queue r)).
Definition with_queue (q : list Z) (r : PcmRing) : PcmRing :=
  mkRing (rg_capacity r) q (rg_underruns r) (rg_playback_target r) (rg_buffering r).
Definition with_buffering (b : bool) (r : PcmRing) : PcmRing :=
  mkRing (rg_capacity r) (rg_queue r) (rg_underruns r) (rg_playback_target r) b.

(** [ArrayQueue::push] and [ArrayQueue::pop]. *)
Definition queue_push (r : PcmRing) (sample : Z) : option PcmRing :=
  if rg_len r <? rg_capacity r then Some (with_queue (rg_queue r ++ [sample]) r) else None.
Definition queue_pop (r : PcmRing) : option (Z * PcmRing) :=
  match rg_queue r with [] => None | x :: q => Some (x, with_queue q r) end.

(** ** Operations *)

Definition push_latest (r : PcmRing) (sample : Z) : PcmRing :=
  match queue_push r sample with
  | Some r => r
  | None =>
      let r := match queue_pop r with Some (_, r) => r | None => r end in
      default r (queue_push r sample)
  end.

(** [pcm.chunks_exact(2)] as little-endian samples; an odd last byte is dropped. *)
Fixpoint samples_of (pcm : bytes) : list Z :=
  match pcm with
  | b0 :: b1 :: rest => i16_from_le_bytes b0 b1 :: samples_of rest
  | _ => []
  end.

Definition write_pcm_le (r : PcmRing) (pcm : bytes) : PcmRing := foldl push_latest r (samples_of pcm).
Definition write_silence (r : PcmRing) (samples : Z) : PcmRing :=
  foldl push_latest r (replicate (Z.to_nat samples) 0).

Definition set_playback_target (r : PcmRing) (samples : Z) : PcmRing :=
  mkRing (rg_capacity r) (rg_queue r) (rg_underruns r) (Z.min samples (rg_capacity r)) (rg_buffering r).
Definition begin_buffering (r : PcmRing) : PcmRing := with_buffering true r.
Definition count_underrun (r : PcmRing) : PcmRing :=
  mkRing (rg_capacity r) (rg_queue r) (wrapping_add 64 (rg_underruns r) 1) (rg_playback_target r) (rg_buffering r).

(** The loop of [read_into]: [n] samples, each popped or silent. *)
Fixpoint pop_into (r : PcmRing) (n : nat) : PcmRing * list Z * Z :=
  match n with
  | O => (r, [], 0)
  | S n' =>
      match queue_pop r with
      | Some (value, r) => let '(r, output, actual) := pop_into r n' in (r, value :: output, 1 + actual)
      | None => let '(r, output, actual) := pop_into r n' in (r, 0 :: output, actual)
      end
  end.

Definition finish_read (n : nat) (r : PcmRing) (actual : Z) : PcmRing :=
  if negb (actual =? Z.of_nat n) then
    let r := count_underrun r in
    if 0 <? rg_playback_target r then begin_buffering r else r
  else r.

(** [read_into] with an [output] of [n] samples: the ring, the samples, and the
    number of them that are audio. *)
Definition read_into (r : PcmRing) (n : nat) : PcmRing * list Z * Z :=
  let required := Z.max (rg_playback_target r) (Z.of_nat n) in
  if rg_buffering r && (rg_len r <? required) then (r, replicate n 0, 0)
  else
    let r := with_buffering false r in
    let '(r, output, actual) := pop_into r n in
    (finish_read n r actual, output, actual).

Definition clear (r : PcmRing) : PcmRing := with_queue [] r.
Definition available_samples (r : PcmRing) : Z := rg_len r.

(** ** The sequential functions *)

Definition ring_wf (r : PcmRing) : Prop := 0 < rg_capacity r /\ rg_len r <= rg_capacity r.

(** The last [n] elements. *)
Definition lastn (n : nat) (l : list Z) : list Z := drop (length l - n) l.

Lemma lastn_all n l : (length l <= n)%nat -> lastn n l = l.
Proof. intros. unfold lastn. by replace (length l - n)%nat with 0%nat by lia. Qed.

Lemma length_lastn n l : length (lastn n l) = Nat.min n (length l).
Proof. unfold lastn. rewrite length_drop. lia. Qed.

Lemma lastn_lastn_app n l x : lastn n (lastn n l ++ x) = lastn n (l ++ x).
Proof.
  unfold lastn. rewrite !length_app, length_drop. destruct (Nat.le_gt_cases (length l) n) as [H|H].
  - replace (length l - n)%nat with 0%nat by lia. rewrite drop_0, Nat.sub_0_r. done.
  - replace (l ++ x) with (take (length l - n) l ++ (drop (length l - n) l ++ x)) by (by rewrite app_assoc, take_drop).
    rewrite (drop_app_ge (take _ _)) by (rewrite length_take; lia). f_equal. rewrite length_take. lia.
Qed.

Lemma push_latest_spec r x :
  ring_wf r -> push_latest r x = with_queue (lastn (Z.to_nat (rg_capacity r)) (rg_queue r ++ [x])) r.
Proof.
  intros [Hc Hl]. unfold push_latest, queue_push, queue_pop, rg_len in *.
  destruct (Z.ltb_spec (Z.of_nat (length (rg_queue r))) (rg_capacity r)) as [H|H].
  - rewrite lastn_all; [done|]. rewrite length_app. simpl. lia.
  - destruct r as [cap q u t b]. simpl in *. destruct q as [|y q]; [simpl in *; lia|]. simpl in *.
    destruct (Z.ltb_spec (Z.of_nat (length q)) cap); [|lia]. simpl. unfold with_queue. simpl. f_equal.
    unfold lastn. rewrite length_cons, length_app. simpl.
    replace (S (length q + 1) - Z.to_nat cap)%nat with 1%nat by lia. done.
Qed.

Lemma with_queue_wf r q :
  ring_wf r -> (length q <= Z.to_nat (rg_capacity r))%nat -> ring_wf (with_queue q r).
Proof. intros [Hc Hl] Hq. split; [done|]. unfold rg_len. simpl. lia. Qed.

Lemma push_all_latest r l :
  ring_wf r -> foldl push_latest r l = with_queue (lastn (Z.to_nat (rg_capacity r)) (rg_queue r ++ l)) r.
Proof.
  revert r. induction l as [|x l IH]; intros r Hwf; simpl.
  - rewrite app_nil_r, lastn_all; [by destruct r|]. destruct Hwf. unfold rg_len in *. lia.
  - rewrite push_latest_spec by done. rewrite IH.
    2: { apply with_queue_wf; [done|]. rewrite length_lastn. lia. }
    unfold with_queue. simpl. f_equal. by rewrite lastn_lastn_app, <- app_assoc.
Qed.

Lemma push_all_wf r l : ring_wf r -> ring_wf (foldl push_latest r l).
Proof.
  intros Hwf. rewrite push_all_latest by done. apply with_queue_wf; [done|]. rewrite length_lastn. lia.
Qed.

Lemma pop_into_spec r n :
  pop_into r n =
    (with_queue (drop n (rg_queue r)) r,
     take n (rg_queue r) ++ replicate (n - length (rg_queue r)) 0,
     Z.of_nat (Nat.min n (length (rg_queue r)))).
Proof.
  revert r. induction n as [|n IH]; intros [cap q u t b]; [by simpl; rewrite drop_0|].
  cbn [pop_into]. unfold queue_pop. cbn [rg_queue]. destruct q as [|x q]; rewrite IH; cbn [rg_queue with_queue rg_capacity rg_underruns rg_playback_target rg_buffering].
  - cbn [length]. by rewrite !take_nil, !drop_nil, !Nat.sub_0_r, !Nat.min_0_r.
  - cbn [take drop length app Nat.sub]. by rewrite <- Nat.succ_min_distr, Nat2Z.inj_succ, <- Z.add_1_l.
Qed.

Lemma samples_of_le samples :
  Forall in_i16 samples -> samples_of (samples ≫= i16_to_le_bytes) = samples.
Proof.
  induction 1 as [|x l Hx _ IH]; [done|]. rewrite bind_cons. cbn [i16_to_le_bytes app samples_of].
  rewrite IH. f_equal. by apply i16_le_bytes_round_trip.
Qed.

(** ** Interleaving the two threads *)

(** Where the producer is inside [push_latest]. *)
Inductive producer_pc : Type :=
| ProdIdle
| ProdEvict (sample : Z)
| ProdRetry (sample : Z).

(** Where the consumer is inside [read_into]; [output] holds what was popped,
    [None] for a sample filled with silence. *)
Inductive consumer_pc : Type :=
| ConsIdle
| ConsTarget (n : nat)
| ConsLen (n : nat) (required : Z)
| ConsOpen (n : nat)
| ConsPop (n : nat) (output : list (option Z))
| ConsRebuffer (n : nat) (output : list (option Z)).

(** A sample that left the queue was heard or was discarded. *)
Inductive fate : Type := Played | Discarded.

Record Threads : Type := mkThreads {
  th_ring : PcmRing;
  th_producer : producer_pc;
  th_consumer : consumer_pc;
  (** samples for which [push_latest] returned, in order *)
  th_offered : list Z;
  (** samples that left the queue, in order *)
  th_left : list (Z * fate);
  (** the completed reads *)
  th_reads : list (list (option Z));
}.

Definition threads_new (capacity : Z) : Threads := mkThreads (ring_new capacity) ProdIdle ConsIdle [] [] [].

Definition popped (output : list (option Z)) : list Z := omap id output.

Inductive thread_step : Threads -> Threads -> Prop :=
(* the producer: [push_latest] *)
| StepPush r c off left reads x r' :
    queue_push r x = Some r' ->
    thread_step (mkThreads r ProdIdle c off left reads) (mkThreads r' ProdIdle c (off ++ [x]) left reads)
| StepFull r c off left reads x :
    queue_push r x = None ->
    thread_step (mkThreads r ProdIdle c off left reads) (mkThreads r (ProdEvict x) c off left reads)
| StepEvict r c off left reads x v r' :
    queue_pop r = Some (v, r') ->
    thread_step (mkThreads r (ProdEvict x) c off left reads)
                (mkThreads r' (ProdRetry x) c off (left ++ [(v, Discarded)]) reads)
| StepEvictNothing r c off left reads x :
    queue_pop r = None ->
    thread_step (mkThreads r (ProdEvict x) c off left reads) (mkThreads r (ProdRetry x) c off left reads)
| StepRetry r c off left reads x :
    thread_step (mkThreads r (ProdRetry x) c off left reads)
                (mkThreads (default r (queue_push r x)) ProdIdle c (off ++ [x]) left reads)
(* the receiver task: [set_playback_target], [begin_buffering] *)
| StepTarget r c off left reads samples :
    thread_step (mkThreads r ProdIdle c off left reads)
                (mkThreads (set_playback_target r samples) ProdIdle c off left reads)
| StepBuffering r c off left reads :
    thread_step (mkThreads r ProdIdle c off left reads)
                (mkThreads (begin_buffering r) ProdIdle c off left reads)
(* one round of [clear], from any thread *)
| StepClear r p c off left reads v r' :
    queue_pop r = Some (v, r') ->
    thread_step (mkThreads r p c off left reads) (mkThreads r' p c off (left ++ [(v, Discarded)]) reads)
(* the consumer: [read_into] *)
| StepRead r p off left reads n :
    thread_step (mkThreads r p ConsIdle off left reads)
                (mkThreads r p (if rg_buffering r then ConsTarget n else ConsPop n []) off left reads)
| StepLoadTarget r p off left reads n :
    thread_step (mkThreads r p (ConsTarget n) off left reads)
                (mkThreads r p (ConsLen n (Z.max (rg_playback_target r) (Z.of_nat n))) off left reads)
| StepTooShort r p off left reads n required :
    rg_len r < required ->
    thread_step (mkThreads r p (ConsLen n required) off left reads)
                (mkThreads r p ConsIdle off left (reads ++ [replicate n None]))
| StepEnough r p off left reads n required :
    required <= rg_len r ->
    thread_step (mkThreads r p (ConsLen n required) off left reads) (mkThreads r p (ConsOpen n) off left reads)
| StepOpen r p off left reads n :
    thread_step (mkThreads r p (ConsOpen n) off left reads)
                (mkThreads (with_buffering false r) p (ConsPop n []) off left reads)
| StepPop r p off left reads n output v r' :
    (length output < n)%nat -> queue_pop r = Some (v, r') ->
    thread_step (mkThreads r p (ConsPop n output) off left reads)
                (mkThreads r' p (ConsPop n (output ++ [Some v])) off (left ++ [(v, Played)]) reads)
| StepStarve r p off left reads n output :
    (length output < n)%nat -> queue_pop r = None ->
    thread_step (mkThreads r p (ConsPop n output) off left reads)
                (mkThreads r p (ConsPop n (output ++ [None])) off left reads)
| StepFilled r p off left reads n output :
    length output = n -> length (popped output) = n ->
    thread_step (mkThreads r p (ConsPop n output) off left reads)
                (mkThreads r p ConsIdle off left (reads ++ [output]))
| StepUnderrun r p off left reads n output :
    length output = n -> length (popped output) <> n ->
    thread_step (mkThreads r p (ConsPop n output) off left reads)
                (mkThreads (count_underrun r) p (ConsRebuffer n output) off left reads)
| StepRebuffer r p off left reads n output :
    thread_step (mkThreads r p (ConsRebuffer n output) off left reads)
                (mkThreads (if 0 <? rg_playback_target r then begin_buffering r else r) p ConsIdle off left
                   (reads ++ [output])).

Abbreviation thread_steps := (rtc thread_step).

(** *** The sequential functions are runs of one thread *)

Lemma push_latest_run r c off left reads x :
  exists left', thread_steps (mkThreads r ProdIdle c off left reads)
                             (mkThreads (push_latest r x) ProdIdle c (off ++ [x]) left' reads).
Proof.
  unfold push_latest. destruct (queue_push r x) as [r'|] eqn:Hpush.
  - exists left. by apply rtc_once, StepPush.
  - destruct (queue_pop r) as [[v r']|] eqn:Hpop.
    + eexists. eapply rtc_l; [by apply StepFull|]. eapply rtc_l; [by apply StepEvict|]. apply rtc_once, StepRetry.
    + eexists. eapply rtc_l; [by apply StepFull|]. eapply rtc_l; [by apply StepEvictNothing|]. apply rtc_once, StepRetry.
Qed.

Definition silence_filled (output : list (option Z)) : list Z := default 0 <$> output.

Lemma pop_into_run p off reads r left n output m :
  (length output + m = n)%nat ->
  exists out' left',
    thread_steps (mkThreads r p (ConsPop n output) off left reads)
                 (mkThreads (pop_into r m).1.1 p (ConsPop n (output ++ out')) off left' reads) /\
    silence_filled out' = (pop_into r m).1.2 /\ Z.of_nat (length (popped out')) = (pop_into r m).2 /\
    length out' = m.
Proof.
  revert r left output. induction m as [|m IH]; intros r left output Hn.
  - exists [], left. rewrite app_nil_r. by split_and!.
  - cbn [pop_into]. destruct (queue_pop r) as [[v r']|] eqn:Hpop.
    + destruct (IH r' (left ++ [(v, Played)]) (output ++ [Some v])) as (out' & left' & Hrun & H1 & H2 & H3).
      { rewrite length_app. simpl. lia. }
      exists (Some v :: out'), left'. destruct (pop_into r' m) as [[r1 o1] a1]. simpl in *. split_and!.
      * eapply rtc_l; [apply StepPop; [lia|done]|]. by rewrite <- app_assoc in Hrun.
      * by rewrite H1.
      * unfold popped in *. simpl. lia.
      * lia.
    + destruct (IH r left (output ++ [None])) as (out' & left' & Hrun & H1 & H2 & H3).
      { rewrite length_app. simpl. lia. }
      exists (None :: out'), left'. destruct (pop_into r m) as [[r1 o1] a1]. simpl in *. split_and!.
      * eapply rtc_l; [apply StepStarve; [lia|done]|]. by rewrite <- app_assoc in Hrun.
      * by rewrite H1.
      * done.
      * lia.
Qed.

Lemma popped_silence n : popped (replicate n None) = [].
Proof. induction n as [|n IH]; [done|exact IH]. Qed.

Lemma read_into_run p off left reads r n :
  exists output left',
    thread_steps (mkThreads r p ConsIdle off left reads)
                 (mkThreads (read_into r n).1.1 p ConsIdle off left' (reads ++ [output])) /\
    silence_filled output = (read_into r n).1.2 /\ Z.of_nat (length (popped output)) = (read_into r n).2.
Proof.
  assert (forall r, exists output left',
    thread_steps (mkThreads r p (ConsPop n []) off left reads)
      (mkThreads (finish_read n (pop_into r n).1.1 (pop_into r n).2) p ConsIdle off left' (reads ++ [output])) /\
    silence_filled output = (pop_into r n).1.2 /\ Z.of_nat (length (popped output)) = (pop_into r n).2) as Hpops.
  { intros r0. destruct (pop_into_run p off reads r0 left n [] n) as (out & left' & Hrun & H1 & H2 & H3); [done|].
    exists out, left'. split_and!; [|done..]. etrans; [exact Hrun|]. cbn [app].
    unfold finish_read. destruct (Z.eqb_spec (pop_into r0 n).2 (Z.of_nat n)) as [He|He]; cbn [negb].
    - apply rtc_once, StepFilled; lia.
    - eapply rtc_l; [apply StepUnderrun; lia|]. apply rtc_once, StepRebuffer. }
  assert (forall r, pop_into r n = ((pop_into r n).1.1, (pop_into r n).1.2, (pop_into r n).2)) as Hp
    by (intros r0; by destruct (pop_into r0 n) as [[] ]).
  unfold read_into. destruct (rg_buffering r) eqn:Hb; cbn [andb].
  - destruct (Z.ltb_spec (rg_len r) (Z.max (rg_playback_target r) (Z.of_nat n))) as [Hl|Hl].
    + exists (replicate n None), left. split_and!.
      * eapply rtc_l; [apply (StepRead r p off left reads n)|]. rewrite Hb.
        eapply rtc_l; [apply StepLoadTarget|]. by apply rtc_once, StepTooShort.
      * unfold silence_filled. by rewrite fmap_replicate.
      * by rewrite popped_silence.
    + destruct (Hpops (with_buffering false r)) as (output & left' & Hrun & H1 & H2). rewrite Hp.
      exists output, left'. split_and!; [|done..]. eapply rtc_l; [apply (StepRead r p off left reads n)|]. rewrite Hb.
      eapply rtc_l; [apply StepLoadTarget|]. eapply rtc_l; [apply StepEnough; lia|]. eapply rtc_l; [apply StepOpen|]. done.
  - assert (with_buffering false r = r) as -> by (destruct r; simpl in *; by subst).
    destruct (Hpops r) as (output & left' & Hrun & H1 & H2). rewrite Hp. exists output, left'. split_and!; [|done..].
    eapply rtc_l; [apply (StepRead r p off left reads n)|]. by rewrite Hb.
Qed.

(** *** Invariant of the interleaving *)

Definition played_of (left : list (Z * fate)) : list Z :=
  omap (fun e => match e.2 with Played => Some e.1 | Discarded => None end) left.

(** What the consumer has popped in the read it is in. *)
Definition current_output (c : consumer_pc) : list (option Z) :=
  match c with ConsPop _ output | ConsRebuffer _ output => output | _ => [] end.

Record threads_inv (capacity : Z) (t : Threads) : Prop := {
  ti_capacity : rg_capacity (th_ring t) = capacity;
  ti_bound : rg_len (th_ring t) <= capacity;
  ti_retry : forall x, th_producer t = ProdRetry x -> rg_len (th_ring t) < capacity;
  ti_fifo : th_offered t = (th_left t).*1 ++ rg_queue (th_ring t);
  ti_heard : popped (concat (th_reads t) ++ current_output (th_consumer t)) = played_of (th_left t);
  ti_target : rg_playback_target (th_ring t) <= capacity;
}.

Lemma popped_app a b : popped (a ++ b) = popped a ++ popped b.
Proof. apply omap_app. Qed.

Lemma queue_push_some r x r' :
  queue_push r x = Some r' -> r' = with_queue (rg_queue r ++ [x]) r /\ rg_len r < rg_capacity r.
Proof. unfold queue_push. destruct (Z.ltb_spec (rg_len r) (rg_capacity r)); [|done]. by intros [= <-]. Qed.

Lemma queue_pop_some r v r' :
  queue_pop r = Some (v, r') -> exists q, rg_queue r = v :: q /\ r' = with_queue q r /\ rg_len r' = rg_len r - 1.
Proof.
  unfold queue_pop. destruct (rg_queue r) as [|x q] eqn:Hq; [done|]. intros [= <- <-]. exists q.
  split_and!; [done..|]. unfold rg_len. rewrite Hq. simpl. lia.
Qed.

Lemma threads_pop capacity r p c off left reads v r' p' c' reads' f :
  threads_inv capacity (mkThreads r p c off left reads) -> queue_pop r = Some (v, r') ->
  popped (concat reads' ++ current_output c') =
    popped (concat reads ++ current_output c) ++ (match f with Played => [v] | Discarded => [] end) ->
  threads_inv capacity (mkThreads r' p' c' off (left ++ [(v, f)]) reads').
Proof.
  intros [H1 H2 H3 H4 H5 H6] Hpop Hheard. simpl in *. apply queue_pop_some in Hpop as (q & Hq & -> & Hl).
  split; simpl; rewrite ?Hl; [done|lia|intros _ _; lia| | |done].
  - rewrite H4, Hq, fmap_app. simpl. by rewrite <- app_assoc.
  - rewrite Hheard, H5. unfold played_of. rewrite omap_app. by destruct f.
Qed.

Lemma threads_same_queue capacity r p c off left reads r' p' c' reads' :
  threads_inv capacity (mkThreads r p c off left reads) ->
  rg_queue r' = rg_queue r -> rg_capacity r' = rg_capacity r -> rg_playback_target r' <= capacity ->
  (forall x, p' = ProdRetry x -> p = ProdRetry x \/ rg_queue r = []) -> 0 < capacity ->
  popped (concat reads' ++ current_output c') = popped (concat reads ++ current_output c) ->
  threads_inv capacity (mkThreads r' p' c' off left reads').
Proof.
  intros [H1 H2 H3 H4 H5 H6] Hq Hc Ht Hp H0 Hheard. simpl in *. unfold rg_len in *.
  split; simpl; unfold rg_len; rewrite ?Hq, ?Hc; [done|done| |done|by rewrite Hheard|done].
  intros x Hx. destruct (Hp x Hx) as [Hx'|Hnil]; [by eapply H3|]. rewrite Hnil. simpl. lia.
Qed.

Lemma threads_step_inv capacity t t' :
  0 < capacity -> thread_step t t' -> threads_inv capacity t -> threads_inv capacity t'.
Proof.
  intros H0 Hstep Hinv. pose proof Hinv as [H1 H2 H3 H4 H5 H6].
  assert (forall x y : Z, rg_len (th_ring t) < capacity -> rg_len (with_queue (rg_queue (th_ring t) ++ [y]) (th_ring t)) <= capacity)
    as Hgrow by (intros _ y Hl; unfold rg_len in *; simpl; rewrite length_app; simpl; lia).
  destruct Hstep; simpl in *;
    try (eapply threads_pop; [exact Hinv|done|];
         rewrite ?app_nil_r, ?popped_app; simpl; rewrite ?popped_app, ?app_assoc, ?app_nil_r; done);
    try (eapply threads_same_queue; [exact Hinv|done|done|try done; simpl; lia|by intros ??; left|done|];
         rewrite ?concat_app, ?popped_app; simpl; rewrite ?popped_app, ?popped_silence, ?app_nil_r; done).
  - apply queue_push_some in H as [-> Hl]. split; simpl; try done.
    + apply (Hgrow x). lia.
    + rewrite H4. by rewrite <- app_assoc.
  - eapply threads_same_queue; [exact Hinv|done|done|done| |done|done]. intros y _. right.
    unfold queue_pop in H. by destruct (rg_queue r).
  - specialize (H3 x eq_refl). unfold queue_push. destruct (Z.ltb_spec (rg_len r) (rg_capacity r)); [|lia].
    split; simpl; try done.
    + by apply (Hgrow x).
    + rewrite H4. by rewrite <- app_assoc.
  - eapply threads_same_queue; [exact Hinv|done|done|done|by intros ??; left|done|]. by destruct (rg_buffering r).
  - case_match; (eapply threads_same_queue; [exact Hinv|done|done|done|by intros ??; left|done|]);
      rewrite ?concat_app, ?popped_app; simpl; rewrite ?popped_app, ?app_nil_r; done.
Qed.

Lemma threads_run_inv capacity t :
  0 < capacity -> thread_steps (threads_new capacity) t -> threads_inv capacity t.
Proof.
  intros H0 Hrun. assert (threads_inv capacity (threads_new capacity)) as Hnew.
  { split; simpl; unfold rg_len; simpl; try done; lia. }
  revert Hnew. induction Hrun as [|t1 t2 t3 Hstep _ IH]; [done|]. intros. by apply IH, (threads_step_inv _ t1).
Qed.

Lemma played_of_sublist left : played_of left `sublist_of` left.*1.
Proof.
  induction left as [|[v f] left IH]; [done|]. unfold played_of in *. simpl.
  destruct f; simpl; by constructor.
Qed.

(** ** Properties *)

(** C34. However the receiver task and the audio writer interleave their queue
    operations and flag accesses: the ring never exceeds its capacity, every
    sample the receiver task offered was enqueued (the retry after an eviction
    cannot fail), samples leave in the order they were offered, and what the
    audio writer has heard, over all its reads and without the silence filled
    in, is a subsequence of the offered samples in their order, none twice. *)
Theorem audio_is_heard_in_order (capacity : Z) (t : Threads)
  (Hcapacity : 0 < capacity) (Hreach : thread_steps (threads_new capacity) t) :
  rg_len (th_ring t) <= capacity /\
  th_offered t = (th_left t).*1 ++ rg_queue (th_ring t) /\
  popped (concat (th_reads t) ++ current_output (th_consumer t)) = played_of (th_left t) /\
  popped (concat (th_reads t) ++ current_output (th_consumer t)) `sublist_of` th_offered t.
Proof.
  destruct (threads_run_inv _ _ Hcapacity Hreach) as [H1 H2 H3 H4 H5 H6]. split_and!; [done..|].
  rewrite H5, H4. apply sublist_inserts_r, played_of_sublist.
Qed.

Lemma audio_is_heard_in_order_witness :
  exists t, thread_steps (threads_new 2) t /\ th_offered t = [5; 6; 7] /\
    (rg_len (th_ring t) <= 2 /\
     th_offered t = (th_left t).*1 ++ rg_queue (th_ring t) /\
     popped (concat (th_reads t) ++ current_output (th_consumer t)) = played_of (th_left t) /\
     popped (concat (th_reads t) ++ current_output (th_consumer t)) `sublist_of` th_offered t).
Proof.
  assert (thread_steps (threads_new 2)
    (mkThreads (mkRing 2 [7] 0 0 false) ProdIdle (ConsPop 3 [Some 6])
       [5; 6; 7] [(5, Discarded); (6, Played)] [])) as Hrun.
  { eapply rtc_l; [by apply (StepPush _ _ _ _ _ 5)|]. eapply rtc_l; [by apply (StepPush _ _ _ _ _ 6)|].
    eapply rtc_l; [by apply (StepFull _ _ _ _ _ 7)|]. eapply rtc_l; [apply (StepRead _ _ _ _ _ 3)|].
    eapply rtc_l; [by apply StepEvict|]. eapply rtc_l; [apply StepRetry|].
    apply rtc_once. apply (StepPop _ _ _ [(5, Discarded)] _ 3 []); [simpl; lia|done]. }
  eexists. split; [exact Hrun|]. split; [reflexivity|]. by apply (audio_is_heard_in_order 2).
Defined.

(** Writing keeps the newest audio: afterwards the ring holds the last
    [capacity] samples of what it held followed by what was written, whatever
    the amount, and nothing else about it changed. *)
Theorem writing_keeps_the_newest (r : PcmRing) (pcm : bytes) (silence : Z) (Hwf : ring_wf r) :
  let n := Z.to_nat (rg_capacity r) in
  write_pcm_le r pcm = with_queue (lastn n (rg_queue r ++ samples_of pcm)) r /\
  write_silence r silence = with_queue (lastn n (rg_queue r ++ replicate (Z.to_nat silence) 0)) r /\
  ring_wf (write_pcm_le r pcm) /\ ring_wf (write_silence r silence).
Proof.
  intros n. unfold write_pcm_le, write_silence. rewrite !push_all_latest by done.
  split_and!; [done..| |]; (apply with_queue_wf; [done|]; rewrite length_lastn; lia).
Qed.

Lemma writing_keeps_the_newest_witness :
  let r := mkRing 3 [1; 2] 0 0 false in
  write_pcm_le r [255; 255; 4; 0] = mkRing 3 [2; -1; 4] 0 0 false /\
  (write_pcm_le r [255; 255; 4; 0] = with_queue (lastn 3 ([1; 2] ++ samples_of [255; 255; 4; 0])) r /\
   write_silence r 5 = with_queue (lastn 3 ([1; 2] ++ replicate 5 0)) r /\
   ring_wf (write_pcm_le r [255; 255; 4; 0]) /\ ring_wf (write_silence r 5)).
Proof.
  split; [reflexivity|]. apply (writing_keeps_the_newest (mkRing 3 [1; 2] 0 0 false) [255; 255; 4; 0] 5).
  split; vm_compute; done.
Defined.

(** One undisturbed read. While the ring is buffering and holds less than
    the playback target and the read, it delivers silence and keeps everything.
    Otherwise it delivers its oldest samples in order, filled up with silence;
    a read that had to be filled up counts one underrun and starts buffering
    again when a playback target is set, any other ends the buffering. *)
Theorem reading_the_ring (r : PcmRing) (n : nat) :
  let '(r', output, actual) := read_into r n in
  length output = n /\
  if rg_buffering r && (rg_len r <? Z.max (rg_playback_target r) (Z.of_nat n))
  then r' = r /\ output = replicate n 0 /\ actual = 0
  else
    output = take n (rg_queue r) ++ replicate (n - length (rg_queue r)) 0 /\
    rg_queue r' = drop n (rg_queue r) /\ actual = Z.min (Z.of_nat n) (rg_len r) /\
    if rg_len r <? Z.of_nat n
    then rg_underruns r' = wrapping_add 64 (rg_underruns r) 1 /\
         rg_buffering r' = (0 <? rg_playback_target r)
    else rg_underruns r' = rg_underruns r /\ rg_buffering r' = false.
Proof.
  unfold read_into. destruct (rg_buffering r && _).
  - by rewrite length_replicate.
  - rewrite pop_into_spec. cbn [rg_queue with_buffering].
    split; [rewrite length_app, length_take, length_replicate; lia|].
    split; [done|]. unfold finish_read, rg_len.
    destruct (Z.ltb_spec (Z.of_nat (length (rg_queue r))) (Z.of_nat n)) as [H|H].
    + destruct (Z.eqb_spec (Z.of_nat (n `min` length (rg_queue r))) (Z.of_nat n)); [lia|]. simpl.
      destruct (0 <? rg_playback_target r); simpl; (split_and!; [done|lia|done|done]).
    + destruct (Z.eqb_spec (Z.of_nat (n `min` length (rg_queue r))) (Z.of_nat n)); [|lia]. simpl.
      split_and!; [done|lia|done|done].
Qed.
