(* ===== verification/Pairing.v ===== *)
(** * Pairing: the endpoint a phone is told to connect to

    [windows-server/src/pairing.rs].  The Windows adapter table is an argument:
    the answers of the successive calls of [GetAdaptersAddresses], as the
    adapter records the code reads.  Addresses are four octets. *)

From Stdlib Require Import ZArith Lia.
From stdpp Require Import sorting.
From S2P Require Import Prelude Wire Text Identity.

(** ** Addresses *)

Definition Ipv4Addr : Type := list Z.
Inductive IpAddr : Type := V4 (host : Ipv4Addr) | V6 (segments : list Z).

Record Socket : Type := mkSocket { sk_ip : IpAddr; sk_port : Z }.

Definition octet (n : nat) (a : Ipv4Addr) : Z := default 0 (a !! n).

(** The classes of [std::net::Ipv4Addr]. *)
Definition is_unspecified (a : Ipv4Addr) : bool := bool_decide (a = [0; 0; 0; 0]).
Definition is_broadcast (a : Ipv4Addr) : bool := bool_decide (a = [255; 255; 255; 255]).
Definition is_loopback (a : Ipv4Addr) : bool := octet 0 a =? 127.
Definition is_multicast (a : Ipv4Addr) : bool := (224 <=? octet 0 a) && (octet 0 a <=? 239).
Definition is_link_local (a : Ipv4Addr) : bool := (octet 0 a =? 169) && (octet 1 a =? 254).
Definition is_private (a : Ipv4Addr) : bool :=
  (octet 0 a =? 10)
  || ((octet 0 a =? 172) && (16 <=? octet 1 a) && (octet 1 a <=? 31))
  || ((octet 0 a =? 192) && (octet 1 a =? 168)).

Definition is_usable_pairing_address (a : Ipv4Addr) : bool :=
  negb (is_unspecified a) && negb (is_loopback a) && negb (is_multicast a)
  && negb (is_broadcast a) && negb (is_link_local a).

Inductive PairingError : Type :=
| Ipv6Bind
| UnusableAddress (address : Ipv4Addr)
| IncompatibleBind (pairing_host bind_host : Ipv4Addr)
| AdapterEnumeration (status : Z)
| NoCandidate
| AmbiguousCandidates (addresses : rstring).

Record PairingInfo : Type := mkPairingInfo { pi_endpoint : SocketAddr; pi_uri : rstring }.

Record AdapterCandidate : Type := mkCandidate { ac_address : Ipv4Addr; ac_rank : Z }.

#[export] Instance AdapterCandidate_eq_dec : EqDecision AdapterCandidate.
Proof. solve_decision. Defined.

Definition validate_pairing_host (a : Ipv4Addr) : result PairingError unit :=
  if is_usable_pairing_address a then Ok tt else Err (UnusableAddress a).

Definition validate_bind_compatibility (requested_bind : Socket) (pairing_host : Ipv4Addr)
  : result PairingError unit :=
  match sk_ip requested_bind with
  | V4 bind_host =>
      if is_unspecified bind_host || bool_decide (bind_host = pairing_host) then Ok tt
      else Err (IncompatibleBind pairing_host bind_host)
  | V6 _ => Err Ipv6Bind
  end.

(** ** The adapter table *)

(** A [SOCKET_ADDRESS]: [None] is the null pointer, else its length, its family
    and the octets at the place of [sin_addr]. *)
Definition SocketAddress : Type := option (Z * Z * Ipv4Addr).

Record Adapter : Type := mkAdapter {
  ad_oper_status : Z;
  ad_if_type : Z;
  ad_tunnel_type : Z;
  ad_has_gateway : bool;
  ad_unicast : list SocketAddress;
}.

Definition IF_OPER_STATUS_UP : Z := 1.
Definition IF_TYPE_SOFTWARE_LOOPBACK : Z := 24.
Definition IF_TYPE_TUNNEL : Z := 131.
Definition TUNNEL_TYPE_NONE : Z := 0.
Definition AF_INET : Z := 2.
Definition SIZE_OF_SOCKADDR_IN : Z := 16.
Definition NO_ERROR : Z := 0.
Definition ERROR_BUFFER_OVERFLOW : Z := 111.

Definition ipv4_from_socket_address (a : SocketAddress) : option Ipv4Addr :=
  match a with
  | None => None
  | Some (len, family, octets) =>
      if (len <? SIZE_OF_SOCKADDR_IN) || negb (family =? AF_INET) then None else Some octets
  end.

Fixpoint adapter_has_private_ipv4 (unicast : list SocketAddress) : bool :=
  match unicast with
  | [] => false
  | u :: unicast' =>
      match ipv4_from_socket_address u with
      | Some a => if is_private a && is_usable_pairing_address a then true
                  else adapter_has_private_ipv4 unicast'
      | None => adapter_has_private_ipv4 unicast'
      end
  end.

Definition is_eligible (a : Adapter) : bool :=
  (ad_oper_status a =? IF_OPER_STATUS_UP) && negb (ad_if_type a =? IF_TYPE_SOFTWARE_LOOPBACK)
  && negb (ad_if_type a =? IF_TYPE_TUNNEL) && (ad_tunnel_type a =? TUNNEL_TYPE_NONE).

Definition adapter_rank (a : Adapter) : Z :=
  match ad_has_gateway a, adapter_has_private_ipv4 (ad_unicast a) with
  | true, true => 0
  | true, false => 1
  | false, true => 2
  | false, false => 3
  end.

Fixpoint unicast_candidates (rank : Z) (unicast : list SocketAddress) : list AdapterCandidate :=
  match unicast with
  | [] => []
  | u :: unicast' =>
      match ipv4_from_socket_address u with
      | Some a => if is_usable_pairing_address a then mkCandidate a rank :: unicast_candidates rank unicast'
                  else unicast_candidates rank unicast'
      | None => unicast_candidates rank unicast'
      end
  end.

Fixpoint collect_adapter_candidates (adapters : list Adapter) : list AdapterCandidate :=
  match adapters with
  | [] => []
  | a :: adapters' =>
      (if is_eligible a then unicast_candidates (adapter_rank a) (ad_unicast a) else [])
      ++ collect_adapter_candidates adapters'
  end.

(** [GetAdaptersAddresses]: from the size of the buffer passed ([None] for no
    buffer) to the status, the size it asks for, and the table it filled in. *)
Definition AdapterApi : Type := option Z -> Z * Z * list Adapter.

Section enumeration.
Variable api : nat -> AdapterApi.

(** The three attempts with a buffer; [call] counts the calls made. *)
Fixpoint enumerate_attempts (attempts call : nat) (buffer_size : Z)
  : result PairingError (list AdapterCandidate) :=
  match attempts with
  | O => Err (AdapterEnumeration ERROR_BUFFER_OVERFLOW)
  | S attempts' =>
      let '(status, returned_size, adapters) := api call (Some buffer_size) in
      if status =? NO_ERROR then Ok (collect_adapter_candidates adapters)
      else if negb (status =? ERROR_BUFFER_OVERFLOW) then Err (AdapterEnumeration status)
      else enumerate_attempts attempts' (S call) returned_size
  end.

Definition enumerate_adapter_candidates : result PairingError (list AdapterCandidate) :=
  let '(status, buffer_size, _) := api 0 None in
  if status =? NO_ERROR then Ok []
  else if negb (status =? ERROR_BUFFER_OVERFLOW) then Err (AdapterEnumeration status)
  else enumerate_attempts 3 1 buffer_size.

(** ** The automatic choice *)

(** The order of [Ipv4Addr], which compares octets from the left, as a number. *)
Definition address_number (a : Ipv4Addr) : Z := foldl (fun n o => n * 256 + o) 0 a.

(** The order of the sort key [(rank, address)]. *)
Definition candidate_le (a b : AdapterCandidate) : Prop :=
  ac_rank a < ac_rank b \/ ac_rank a = ac_rank b /\ address_number (ac_address a) <= address_number (ac_address b).

#[export] Instance candidate_le_dec a b : Decision (candidate_le a b) := _.

(** [dedup_by_key(|c| c.address)]: only neighbours are compared. *)
Fixpoint dedup_after (last : Ipv4Addr) (l : list AdapterCandidate) : list AdapterCandidate :=
  match l with
  | [] => []
  | c :: l' => if decide (ac_address c = last) then dedup_after last l'
               else c :: dedup_after (ac_address c) l'
  end.
Definition dedup (l : list AdapterCandidate) : list AdapterCandidate :=
  match l with [] => [] | c :: l' => c :: dedup_after (ac_address c) l' end.

Fixpoint take_while {A} (f : A -> bool) (l : list A) : list A :=
  match l with
  | [] => []
  | x :: l' => if f x then x :: take_while f l' else []
  end.

Definition COMMA_SPACE : rstring := [44; 32].

Definition choose_candidate (candidates : list AdapterCandidate) : result PairingError Ipv4Addr :=
  let candidates := dedup (merge_sort candidate_le candidates) in
  match candidates with
  | [] => Err NoCandidate
  | best :: _ =>
      let equally_ranked := take_while (fun c => ac_rank c =? ac_rank best) candidates in
      if Nat.eqb (length equally_ranked) 1 then Ok (ac_address best)
      else Err (AmbiguousCandidates (join COMMA_SPACE (format_ipv4 ∘ ac_address <$> equally_ranked)))
  end.

Definition select_automatic_pairing_host : result PairingError Ipv4Addr :=
  candidates ← enumerate_adapter_candidates; choose_candidate candidates.

Definition resolve_pairing_info (requested_bind : Socket) (actual_port : Z)
  (pairing_host : option Ipv4Addr) (fingerprint : bytes) : result PairingError PairingInfo :=
  host ← match pairing_host with
         | Some host =>
             _ ← validate_pairing_host host;
             _ ← validate_bind_compatibility requested_bind host;
             Ok host
         | None =>
             match sk_ip requested_bind with
             | V4 host =>
                 if negb (is_unspecified host) then _ ← validate_pairing_host host; Ok host
                 else select_automatic_pairing_host
             | V6 _ => Err Ipv6Bind
             end
         end;
  Ok (mkPairingInfo (mkSocketAddr host actual_port) (encode_pairing_uri host actual_port fingerprint)).
End enumeration.

(** ** The order of the candidates *)

Definition valid_address (a : Ipv4Addr) : Prop := length a = 4%nat /\ Forall (fun o => 0 <= o < 256) a.

#[export] Instance valid_address_dec a : Decision (valid_address a) := _.

Lemma address_number_inj a b :
  valid_address a -> valid_address b -> address_number a = address_number b -> a = b.
Proof.
  intros [Ha Fa] [Hb Fb]. destruct a as [|a0 [|a1 [|a2 [|a3 [|]]]]]; try done.
  destruct b as [|b0 [|b1 [|b2 [|b3 [|]]]]]; try done.
  rewrite !Forall_cons in Fa, Fb. unfold address_number. simpl. intros H.
  assert (a3 = b3) as -> by lia. assert (a2 = b2) as -> by lia.
  assert (a1 = b1) as -> by lia. assert (a0 = b0) as -> by lia. done.
Qed.

#[export] Instance candidate_le_trans : Transitive candidate_le.
Proof. intros a b c. unfold candidate_le. lia. Qed.

#[export] Instance candidate_le_total : Total candidate_le.
Proof. intros a b. unfold candidate_le. lia. Qed.

Definition candidate_lt (a b : AdapterCandidate) : Prop :=
  ac_rank a < ac_rank b \/ ac_rank a = ac_rank b /\ address_number (ac_address a) < address_number (ac_address b).

Lemma sorted_drop_second (a b : AdapterCandidate) l :
  StronglySorted candidate_le (a :: b :: l) -> StronglySorted candidate_le (a :: l).
Proof.
  intros H. apply StronglySorted_inv in H as [H Ha]. apply StronglySorted_inv in H as [H _].
  apply Forall_cons in Ha as [_ Ha]. by constructor.
Qed.

(** Without neighbours of equal address the order is strict. *)
Lemma dedup_after_strict c l :
  StronglySorted candidate_le (c :: l) -> Forall (valid_address ∘ ac_address) (c :: l) ->
  StronglySorted candidate_lt (c :: dedup_after (ac_address c) l).
Proof.
  revert c. induction l as [|d l IH]; intros c Hs Hv; simpl; [by repeat constructor|].
  rewrite !Forall_cons in Hv. destruct Hv as (Hc & Hd & Hv). simpl in Hc, Hd.
  case_decide as Heq; [apply IH; [by eapply sorted_drop_second|by constructor]|].
  apply StronglySorted_inv in Hs as [Hs Hle]. apply Forall_cons in Hle as [Hle _].
  assert (candidate_lt c d) as Hlt.
  { destruct Hle as [Hle|[Hr Hn]]; [by left|right]. split; [done|].
    destruct (decide (address_number (ac_address c) = address_number (ac_address d))) as [E|E]; [|lia].
    apply address_number_inj in E; [by destruct Heq|done|done]. }
  specialize (IH d Hs ltac:(by constructor)). constructor; [done|].
  apply StronglySorted_inv in IH as [_ IH]. constructor; [done|].
  eapply Forall_impl; [exact IH|]. intros e He. unfold candidate_lt in *. lia.
Qed.

(** Removing neighbours keeps of every address one that comes no later. *)
Lemma dedup_after_covers c l x :
  StronglySorted candidate_le (c :: l) -> x ∈ c :: l ->
  exists y, y ∈ c :: dedup_after (ac_address c) l /\ ac_address y = ac_address x /\ candidate_le y x.
Proof.
  revert c. induction l as [|d l IH]; intros c Hs Hx; simpl.
  - apply list_elem_of_singleton in Hx as ->. exists c. split_and!; [set_solver|done|]. unfold candidate_le. lia.
  - pose proof Hs as Hs'. apply StronglySorted_inv in Hs' as [Hs2 Hle].
    apply elem_of_cons in Hx as [->|Hx].
    { exists c. split_and!; [set_solver|done|]. unfold candidate_le. lia. }
    case_decide as Heq.
    + apply elem_of_cons in Hx as [->|Hx].
      * exists c. split_and!; [set_solver|done|]. by apply Forall_cons in Hle as [Hle _].
      * apply IH; [by eapply sorted_drop_second|set_solver].
    + destruct (IH d Hs2 Hx) as (y & Hy & H). exists y. split; [|done]. set_solver.
Qed.

Lemma dedup_after_elem a l x : x ∈ dedup_after a l -> x ∈ l.
Proof.
  revert a. induction l as [|d l IH]; intros a; simpl; [done|]. case_decide; [set_solver|].
  intros Hx. apply elem_of_cons in Hx as [->|Hx]; set_solver.
Qed.

(** In a sorted list the candidates of the first rank come first. *)
Lemma take_while_rank c l :
  StronglySorted candidate_lt (c :: l) ->
  take_while (fun x => ac_rank x =? ac_rank c) (c :: l) = filter (fun x => ac_rank x = ac_rank c) (c :: l).
Proof.
  intros Hs. simpl. rewrite Z.eqb_refl, filter_cons_True by done. f_equal.
  apply StronglySorted_inv in Hs as [Hs Hc].
  induction l as [|d l IH]; simpl; [done|].
  apply Forall_cons in Hc as [Hcd Hc]. apply StronglySorted_inv in Hs as [Hs Hd].
  destruct (Z.eqb_spec (ac_rank d) (ac_rank c)) as [E|E].
  - rewrite filter_cons_True by done. f_equal. by apply IH.
  - rewrite filter_cons_False by done. symmetry. apply filter_none. intros x Hx.
    rewrite Forall_forall in Hd. specialize (Hd x Hx). unfold candidate_lt in *. lia.
Qed.

Lemma strongly_sorted_filter {A} (R : A -> A -> Prop) (P : A -> Prop) `{!forall x, Decision (P x)} l :
  StronglySorted R l -> StronglySorted R (filter P l).
Proof.
  induction 1 as [|x l Hs IH Hx]; [constructor|].
  destruct (decide (P x)); [|by rewrite filter_cons_False].
  rewrite filter_cons_True by done. constructor; [done|].
  apply Forall_forall. intros y [_ Hy]%list_elem_of_filter. rewrite Forall_forall in Hx. auto.
Qed.

(** The candidates that decide: those of the best rank, each address once, in
    ascending order. *)
Definition best_group (candidates : list AdapterCandidate) : list AdapterCandidate :=
  match dedup (merge_sort candidate_le candidates) with
  | [] => []
  | best :: rest => take_while (fun c => ac_rank c =? ac_rank best) (best :: rest)
  end.

Lemma best_group_spec cs :
  Forall (valid_address ∘ ac_address) cs ->
  match best_group cs with
  | [] => cs = []
  | best :: _ =>
      best ∈ cs /\ (forall c, c ∈ cs -> ac_rank best <= ac_rank c) /\
      StronglySorted candidate_lt (best_group cs) /\
      (forall x, x ∈ best_group cs -> x ∈ cs /\ ac_rank x = ac_rank best) /\
      (forall c, c ∈ cs -> ac_rank c = ac_rank best -> c ∈ best_group cs)
  end.
Proof.
  intros Hv. unfold best_group.
  pose proof (merge_sort_Permutation candidate_le cs) as Hp.
  pose proof (StronglySorted_merge_sort candidate_le cs) as Hs.
  rewrite <- Hp in Hv. destruct (merge_sort candidate_le cs) as [|c l].
  { simpl. symmetry in Hp. by apply Permutation_nil_r in Hp. }
  cbn [dedup]. pose proof (dedup_after_strict c l Hs Hv) as Hstrict.
  rewrite take_while_rank by done. rewrite filter_cons_True by done.
  set (l' := dedup_after (ac_address c) l) in *.
  assert (forall x, x ∈ cs -> candidate_le c x) as Hmin.
  { intros x Hx. rewrite <- Hp in Hx. apply StronglySorted_inv in Hs as [_ Hs].
    apply elem_of_cons in Hx as [->|Hx]; [unfold candidate_le; lia|]. rewrite Forall_forall in Hs. auto. }
  assert (forall x, x ∈ c :: l' -> x ∈ cs) as Hin.
  { intros x Hx. rewrite <- Hp. apply elem_of_cons in Hx as [->|Hx]; [set_solver|].
    apply dedup_after_elem in Hx. set_solver. }
  rewrite <- filter_cons_True with (P := fun x => ac_rank x = ac_rank c) by done.
  split_and!.
  - apply Hin. set_solver.
  - intros x Hx. specialize (Hmin x Hx). unfold candidate_le in Hmin. lia.
  - by apply strongly_sorted_filter.
  - intros x [Hr Hx]%list_elem_of_filter. auto.
  - intros x Hx Hr. pose proof Hx as Hx'. rewrite <- Hp in Hx'.
    destruct (dedup_after_covers c l x Hs Hx') as (y & Hy & Ha & Hle).
    assert (y = x) as <-.
    { specialize (Hmin y (Hin y Hy)). destruct y as [ya yr], x as [xa xr]. unfold candidate_le in *.
      simpl in *. f_equal; [done|lia]. }
    by apply list_elem_of_filter.
Qed.

Lemma strict_addresses l :
  StronglySorted candidate_lt l -> (forall x y, x ∈ l -> y ∈ l -> ac_rank x = ac_rank y) ->
  NoDup (ac_address <$> l).
Proof.
  induction 1 as [|x l Hs IH Hx]; intros Hr; simpl; constructor.
  - intros (y & Hy & Hin)%list_elem_of_fmap. rewrite Forall_forall in Hx. specialize (Hx y Hin).
    specialize (Hr x y ltac:(set_solver) ltac:(set_solver)). unfold candidate_lt in Hx. rewrite Hy in Hx. lia.
  - apply IH. set_solver.
Qed.

(** What the automatic choice is meant to be, by the best rank [r]. *)
Definition offers (cs : list AdapterCandidate) (r : Z) (a : Ipv4Addr) : Prop := mkCandidate a r ∈ cs.
Definition best_rank (cs : list AdapterCandidate) (r : Z) : Prop :=
  (exists a, offers cs r a) /\ forall c, c ∈ cs -> r <= ac_rank c.

Inductive choice (cs : list AdapterCandidate) : result PairingError Ipv4Addr -> Prop :=
| choice_none : cs = [] -> choice cs (Err NoCandidate)
| choice_one r a : best_rank cs r -> (forall a', offers cs r a' <-> a' = a) -> choice cs (Ok a)
| choice_many r addresses : best_rank cs r -> NoDup addresses -> (2 <= length addresses)%nat ->
    (forall a, offers cs r a <-> a ∈ addresses) ->
    choice cs (Err (AmbiguousCandidates (join COMMA_SPACE (format_ipv4 <$> addresses)))).

Lemma candidate_eta c : c = mkCandidate (ac_address c) (ac_rank c).
Proof. by destruct c. Qed.

Lemma choose_candidate_choice cs :
  Forall (valid_address ∘ ac_address) cs -> choice cs (choose_candidate cs).
Proof.
  intros Hv. pose proof (best_group_spec cs Hv) as Hg.
  assert (choose_candidate cs =
    match best_group cs with
    | [] => Err NoCandidate
    | best :: _ => if Nat.eqb (length (best_group cs)) 1 then Ok (ac_address best)
                   else Err (AmbiguousCandidates (join COMMA_SPACE (format_ipv4 ∘ ac_address <$> best_group cs)))
    end) as ->.
  { unfold choose_candidate, best_group. destruct (dedup _) as [|b l]; [done|]. simpl. by rewrite Z.eqb_refl. }
  destruct (best_group cs) as [|best l] eqn:Hl; [by apply choice_none|].
  destruct Hg as (Hb & Hmin & Hs & Hin & Hcov).
  assert (best_rank cs (ac_rank best)) as Hbest.
  { split; [|done]. exists (ac_address best). unfold offers. by rewrite <- candidate_eta. }
  assert (forall a, offers cs (ac_rank best) a <-> a ∈ ac_address <$> (best :: l)) as Hoff.
  { intros a. split.
    - intros Ha. apply list_elem_of_fmap. exists (mkCandidate a (ac_rank best)). split; [done|]. by apply Hcov.
    - intros (c & -> & Hc)%list_elem_of_fmap. destruct (Hin c Hc) as [Hc' Hr].
      unfold offers. rewrite <- Hr, <- candidate_eta. done. }
  destruct (Nat.eqb_spec (length (best :: l)) 1) as [E|E].
  - destruct l; [|done]. eapply choice_one; [exact Hbest|]. intros a'. rewrite Hoff. simpl. set_solver.
  - rewrite list_fmap_compose. eapply choice_many; [exact Hbest| |by rewrite length_fmap; simpl in *; lia|exact Hoff].
    apply strict_addresses; [done|]. intros x y Hx Hy.
    destruct (Hin x Hx) as [_ ->], (Hin y Hy) as [_ ->]. done.
Qed.

(** ** The candidates *)

Lemma unicast_candidates_usable rank unicast c :
  c ∈ unicast_candidates rank unicast -> is_usable_pairing_address (ac_address c) = true.
Proof.
  induction unicast as [|u us IH]; simpl; [set_solver|].
  destruct (ipv4_from_socket_address u) as [a|]; [|done].
  destruct (is_usable_pairing_address a) eqn:E; [|done].
  intros Hc. apply elem_of_cons in Hc as [->|Hc]; [done|auto].
Qed.

Lemma collect_usable adapters c :
  c ∈ collect_adapter_candidates adapters -> is_usable_pairing_address (ac_address c) = true.
Proof.
  induction adapters as [|a ads IH]; simpl; [set_solver|].
  rewrite elem_of_app. intros [Hc|Hc]; [|auto].
  destruct (is_eligible a); [by eapply unicast_candidates_usable|set_solver].
Qed.

Lemma enumerate_attempts_usable api n call size cs c :
  enumerate_attempts api n call size = Ok cs -> c ∈ cs -> is_usable_pairing_address (ac_address c) = true.
Proof.
  revert call size. induction n as [|n IH]; intros call size; simpl; [done|].
  destruct (api call (Some size)) as [[status returned] adapters].
  destruct (status =? NO_ERROR); [intros [= <-]; apply collect_usable|].
  destruct (negb _); [done|]. apply IH.
Qed.

Lemma enumerate_usable api cs c :
  enumerate_adapter_candidates api = Ok cs -> c ∈ cs -> is_usable_pairing_address (ac_address c) = true.
Proof.
  unfold enumerate_adapter_candidates. destruct (api 0%nat None) as [[status size] t].
  destruct (status =? NO_ERROR); [intros [= <-]; set_solver|].
  destruct (negb _); [done|]. apply enumerate_attempts_usable.
Qed.

(** The octets the API fills in are octets. *)
Definition octets_valid (api : nat -> AdapterApi) : Prop :=
  forall cs, enumerate_adapter_candidates api = Ok cs -> Forall (valid_address ∘ ac_address) cs.

Lemma choose_usable api a :
  octets_valid api -> select_automatic_pairing_host api = Ok a -> is_usable_pairing_address a = true.
Proof.
  intros Hv H. unfold select_automatic_pairing_host in H. apply bind_ok in H as (cs & Hcs & H).
  pose proof (choose_candidate_choice cs (Hv _ Hcs)) as Hc. rewrite H in Hc.
  inversion Hc as [|r a' _ Ha|]; subst.
  apply (enumerate_usable api cs (mkCandidate a r)); [done|]. by apply Ha.
Qed.

(** ** The link *)

Lemma separator_unique (c : Z) s1 s2 t1 t2 :
  c ∉ s1 -> c ∉ s2 -> s1 ++ c :: t1 = s2 ++ c :: t2 -> s1 = s2 /\ t1 = t2.
Proof.
  revert s2. induction s1 as [|x s1 IH]; intros [|y s2] H1 H2 E; simpl in *; simplify_eq; [done|set_solver..|].
  destruct (IH s2) as [-> ->]; [set_solver|set_solver|done|done].
Qed.

Lemma decimal_digits_ascii fuel n c : 0 <= n -> c ∈ decimal_digits fuel n -> 48 <= c <= 57.
Proof.
  revert n. induction fuel as [|fuel IH]; intros n Hn; simpl; [set_solver|].
  rewrite elem_of_app, list_elem_of_singleton. intros [Hc| ->].
  - destruct (n <? 10); [set_solver|]. apply (IH (n / 10)); [|done]. by apply Z.div_pos.
  - pose proof (Z.mod_pos_bound n 10). lia.
Qed.

Lemma decimal_digits_inj fuel n m :
  0 <= n < 10 ^ Z.of_nat fuel -> 0 <= m < 10 ^ Z.of_nat fuel ->
  decimal_digits fuel n = decimal_digits fuel m -> n = m.
Proof.
  revert n m. induction fuel as [|fuel IH]; intros n m Hn Hm; [simpl in *; lia|].
  rewrite Nat2Z.inj_succ, Z.pow_succ_r in Hn, Hm by lia. simpl. intros E.
  apply app_inj_tail in E as [E Hmod].
  pose proof (Z.div_mod n 10 ltac:(lia)). pose proof (Z.div_mod m 10 ltac:(lia)).
  assert (forall k, 0 <= k / 10 < 10 ^ Z.of_nat fuel -> 10 <= k -> decimal_digits fuel (k / 10) <> []) as Hnonempty.
  { intros k Hk Hge. destruct fuel as [|fuel]; [simpl in Hk; pose proof (Z.div_le_lower_bound k 10 1 ltac:(lia) ltac:(lia)); lia|].
    simpl. intros H'. apply app_eq_nil in H' as [_ H']. discriminate H'. }
  assert (0 <= n / 10 < 10 ^ Z.of_nat fuel) by (split; [apply Z.div_pos; lia|apply Z.div_lt_upper_bound; lia]).
  assert (0 <= m / 10 < 10 ^ Z.of_nat fuel) by (split; [apply Z.div_pos; lia|apply Z.div_lt_upper_bound; lia]).
  destruct (Z.ltb_spec n 10) as [Ln|Ln], (Z.ltb_spec m 10) as [Lm|Lm].
  - rewrite !Z.mod_small in Hmod by lia. lia.
  - symmetry in E. by apply Hnonempty in E.
  - by apply Hnonempty in E.
  - apply IH in E; [lia|done|done].
Qed.

Lemma decimal_inj n m : n ∈u 32 -> m ∈u 32 -> decimal n = decimal m -> n = m.
Proof. unfold in_uint. intros Hn Hm. apply decimal_digits_inj; simpl Z.of_nat; lia. Qed.

Lemma decimal_plain n c : 0 <= n -> c ∈ decimal n -> 48 <= c <= 57.
Proof. apply decimal_digits_ascii. Qed.

Lemma format_ipv4_four a b c d :
  format_ipv4 [a; b; c; d] = decimal a ++ 46 :: decimal b ++ 46 :: decimal c ++ 46 :: decimal d.
Proof. done. Qed.

Lemma format_ipv4_inj a b : valid_address a -> valid_address b -> format_ipv4 a = format_ipv4 b -> a = b.
Proof.
  intros [Ha Fa] [Hb Fb]. destruct a as [|a0 [|a1 [|a2 [|a3 [|]]]]]; try done.
  destruct b as [|b0 [|b1 [|b2 [|b3 [|]]]]]; try done. rewrite !format_ipv4_four.
  rewrite !Forall_cons in Fa, Fb. intros E.
  assert (forall n, 0 <= n -> 46 ∉ decimal n) as Hdot.
  { intros n Hn Hin. apply decimal_plain in Hin; [lia|done]. }
  apply separator_unique in E as [E0 E]; [|apply Hdot; lia..].
  apply separator_unique in E as [E1 E]; [|apply Hdot; lia..].
  apply separator_unique in E as [E2 E3]; [|apply Hdot; lia..].
  apply decimal_inj in E0, E1, E2, E3; [congruence|unfold in_uint; lia..].
Qed.

Lemma format_ipv4_plain a : valid_address a -> 38 ∉ format_ipv4 a.
Proof.
  intros [Ha Fa]. destruct a as [|a0 [|a1 [|a2 [|a3 [|]]]]]; try done. rewrite format_ipv4_four.
  rewrite !Forall_cons in Fa.
  assert (forall n, 0 <= n -> 38 ∉ decimal n) as Hamp.
  { intros n Hn Hin. apply decimal_plain in Hin; [lia|done]. }
  rewrite !not_elem_of_app, !not_elem_of_cons, !not_elem_of_app, !not_elem_of_cons, !not_elem_of_app, !not_elem_of_cons.
  split_and!; try (apply Hamp; lia); lia.
Qed.

(** ** Properties *)

(** The automatic choice takes the address of the best rank when there is
    exactly one, names them all, each once, when there are several, reports
    that there is none only when the table offers none, and never chooses an
    unusable address. *)
Theorem automatic_choice (api : nat -> AdapterApi) (Hvalid : octets_valid api) :
  match enumerate_adapter_candidates api with
  | Ok candidates => choice candidates (select_automatic_pairing_host api)
  | Err e => select_automatic_pairing_host api = Err e
  end /\
  forall a, select_automatic_pairing_host api = Ok a -> is_usable_pairing_address a = true.
Proof.
  split; [|intros a; by apply choose_usable]. unfold select_automatic_pairing_host.
  destruct (enumerate_adapter_candidates api) as [cs|e] eqn:E; [|done].
  apply choose_candidate_choice. by apply Hvalid.
Qed.

(** A pairing endpoint is only published with a usable IPv4 address that the
    listening socket accepts: the bind address is that address or the IPv4
    wildcard; its port is the port the socket really has. *)
Theorem published_endpoint_is_served (api : nat -> AdapterApi) (requested_bind : Socket) (actual_port : Z)
  (pairing_host : option Ipv4Addr) (fingerprint : bytes) (info : PairingInfo)
  (Hvalid : octets_valid api)
  (Hok : resolve_pairing_info api requested_bind actual_port pairing_host fingerprint = Ok info) :
  exists host bind_host,
    pi_endpoint info = mkSocketAddr host actual_port /\
    pi_uri info = encode_pairing_uri host actual_port fingerprint /\
    is_usable_pairing_address host = true /\
    sk_ip requested_bind = V4 bind_host /\ (bind_host = host \/ bind_host = [0; 0; 0; 0]) /\
    (forall configured, pairing_host = Some configured -> host = configured).
Proof.
  unfold resolve_pairing_info in Hok. apply bind_ok in Hok as (host & Hhost & [= <-]). exists host. simpl.
  destruct pairing_host as [h|].
  - apply bind_ok in Hhost as ([] & Hu & Hhost). apply bind_ok in Hhost as ([] & Hc & [= <-]).
    unfold validate_pairing_host in Hu. destruct (is_usable_pairing_address h) eqn:E; [|done].
    unfold validate_bind_compatibility in Hc. destruct (sk_ip requested_bind) as [b|]; [|done].
    exists b. split_and!; try done; [|congruence].
    unfold is_unspecified in Hc. case_bool_decide; [by right|].
    case_bool_decide; [by left|done].
  - destruct (sk_ip requested_bind) as [b|]; [|done]. exists b.
    unfold is_unspecified in Hhost. case_bool_decide as Hun; simpl in Hhost.
    + apply choose_usable in Hhost as E; [|done]. split_and!; try done. by right.
    + apply bind_ok in Hhost as ([] & Hu & [= <-]). unfold validate_pairing_host in Hu.
      destruct (is_usable_pairing_address b) eqn:E; [|done]. split_and!; try done. by left.
Qed.

(** The pairing link determines the address, the port and the fingerprint:
    two different servers never show the same link. *)
Theorem pairing_link_is_injective (h h' : Ipv4Addr) (p p' : Z) (f f' : bytes)
  (Hh : valid_address h) (Hh' : valid_address h') (Hp : p ∈u 16) (Hp' : p' ∈u 16)
  (Hf : Forall is_byte f) (Hf' : Forall is_byte f')
  (Heq : encode_pairing_uri h p f = encode_pairing_uri h' p' f') :
  h = h' /\ p = p' /\ f = f'.
Proof.
  unfold encode_pairing_uri in Heq. apply app_inv_head in Heq.
  unfold URI_PORT, URI_FP in Heq. simpl in Heq.
  apply separator_unique in Heq as [Eh Heq]; [|by apply format_ipv4_plain..].
  simplify_eq/=. unfold in_uint in *.
  assert (forall n, 0 <= n -> 38 ∉ decimal n) as Hamp.
  { intros n Hn Hin. apply decimal_plain in Hin; [lia|done]. }
  apply separator_unique in Heq as [Ep Heq]; [|apply Hamp; lia..].
  simplify_eq/=. split_and!.
  - by apply format_ipv4_inj.
  - apply decimal_inj; [unfold in_uint; lia..|done].
  - pose proof (parse_pairs_hex f Hf). pose proof (parse_pairs_hex f' Hf'). congruence.
Qed.

(** ** Witnesses *)

Definition inet (octets : Ipv4Addr) : SocketAddress := Some (16, AF_INET, octets).
Definition lan : Adapter := mkAdapter 1 6 0 true [None; inet [169; 254; 3; 4]; inet [192; 168; 1; 42]].
Definition vpn : Adapter := mkAdapter 1 131 0 true [inet [10; 8; 0; 2]].
Definition hostonly : Adapter := mkAdapter 1 6 0 false [inet [192; 168; 56; 1]; inet [192; 168; 1; 42]].

(** A table that first needs a larger buffer. *)
Definition home : nat -> AdapterApi := fun call size =>
  match call with
  | O => (ERROR_BUFFER_OVERFLOW, 400, [])
  | S O => (ERROR_BUFFER_OVERFLOW, 800, [])
  | _ => (NO_ERROR, 800, [vpn; hostonly; lan])
  end.

Lemma home_valid : octets_valid home.
Proof. intros cs H. vm_compute in H. injection H as <-. repeat constructor; simpl; lia. Qed.

Example home_choice : select_automatic_pairing_host home = Ok [192; 168; 1; 42].
Proof. vm_compute. reflexivity. Qed.

Example too_large_table :
  select_automatic_pairing_host (fun _ _ => (ERROR_BUFFER_OVERFLOW, 400, [])) =
  Err (AdapterEnumeration ERROR_BUFFER_OVERFLOW).
Proof. reflexivity. Qed.

Lemma automatic_choice_witness :
  match enumerate_adapter_candidates home with
  | Ok candidates => choice candidates (select_automatic_pairing_host home)
  | Err e => select_automatic_pairing_host home = Err e
  end /\
  forall a, select_automatic_pairing_host home = Ok a -> is_usable_pairing_address a = true.
Proof. apply (automatic_choice home), home_valid. Defined.

Lemma published_endpoint_is_served_witness :
  exists info, resolve_pairing_info home (mkSocket (V4 [0; 0; 0; 0]) 48400) 48400 None (replicate 32 171) = Ok info /\
  exists host bind_host,
    pi_endpoint info = mkSocketAddr host 48400 /\
    pi_uri info = encode_pairing_uri host 48400 (replicate 32 171) /\
    is_usable_pairing_address host = true /\
    V4 [0; 0; 0; 0] = V4 bind_host /\ (bind_host = host \/ bind_host = [0; 0; 0; 0]) /\
    (forall configured, None = Some configured -> host = configured).
Proof.
  eexists. split; [vm_compute; reflexivity|].
  apply (published_endpoint_is_served home (mkSocket (V4 [0; 0; 0; 0]) 48400) 48400 None (replicate 32 171));
    [apply home_valid|vm_compute; reflexivity].
Defined.

Lemma pairing_link_is_injective_witness :
  encode_pairing_uri [192; 168; 1; 42] 48400 (replicate 32 171) =
    encode_pairing_uri [192; 168; 1; 42] (48000 + 400) (replicate 32 (160 + 11)) /\
  48400 = 48000 + 400 /\ replicate 32 171 = replicate 32 (160 + 11).
Proof.
  split; [reflexivity|].
  apply (pairing_link_is_injective [192; 168; 1; 42] [192; 168; 1; 42] 48400 (48000 + 400)
           (replicate 32 171) (replicate 32 (160 + 11))); try reflexivity.
  1, 2: (split; [reflexivity|]; repeat constructor; lia).
  1, 2: (split; lia).
  1, 2: (apply Forall_replicate; unfold is_byte; lia).
Defined.
