(* ===== verification/Address.v ===== *)
(** * Address: parsing of socket addresses

    What the phone uses of the standard library's [SocketAddr]: [FromStr], by
    recursive descent over the text.  A parser returns the value and the rest
    of the text; a failed attempt consumes nothing. *)

From Stdlib Require Import ZArith Lia.
From S2P Require Import Prelude Wire Text Identity.

(** The eight segments of an IPv6 address are 16-bit integers. *)
Inductive SocketAddress : Type :=
| SocketV4 (ip : list Z) (port : Z)
| SocketV6 (segments : list Z) (scope_id port : Z).

#[export] Instance SocketAddress_eq_dec : EqDecision SocketAddress.
Proof. solve_decision. Defined.

Definition Parser (A : Type) : Type := rstring -> option (A * rstring).

(** [char::to_digit]. *)
Definition to_digit (radix c : Z) : option Z :=
  let digit := if (48 <=? c) && (c <=? 57) then c - 48
               else if (97 <=? c) && (c <=? 122) then c - 87
               else if (65 <=? c) && (c <=? 90) then c - 55
               else radix in
  if digit <? radix then Some digit else None.

(** The digits read so far have the value [result]; there are [count]. *)
Fixpoint read_digits (radix bound max_digits : Z) (s : rstring) (result count : Z) : option (Z * Z * rstring) :=
  match s with
  | [] => Some (result, count, [])
  | c :: s' =>
      match to_digit radix c with
      | None => Some (result, count, s)
      | Some digit =>
          let result := result * radix + digit in
          if (bound <? result) || (max_digits <? count + 1) then None
          else read_digits radix bound max_digits s' result (count + 1)
      end
  end.

(** Without a limit on the digits, [max_digits] is the length of the text. *)
Definition read_number (radix bound : Z) (max_digits : option Z) (allow_zero_prefix : bool) : Parser Z := fun s =>
  '(result, count, rest) ← read_digits radix bound (default (Z.of_nat (length s)) max_digits) s 0 0;
  if count =? 0 then None
  else if negb allow_zero_prefix && bool_decide (head s = Some 48) && (1 <? count) then None
  else Some (result, rest).

Definition read_given_char (c : Z) : Parser unit := fun s =>
  match s with c' :: s' => if c' =? c then Some (tt, s') else None | [] => None end.

(** [read_separator(sep, index, inner)]. *)
Definition read_separator {A} (sep : Z) (index : nat) (inner : Parser A) : Parser A := fun s =>
  match index with O => inner s | S _ => '(_, s) ← read_given_char sep s; inner s end.

Definition read_octet : Parser Z := read_number 10 255 (Some 3) false.

Definition read_ipv4_addr : Parser (list Z) := fun s =>
  '(a, s) ← read_separator 46 0 read_octet s;
  '(b, s) ← read_separator 46 1 read_octet s;
  '(c, s) ← read_separator 46 2 read_octet s;
  '(d, s) ← read_separator 46 3 read_octet s;
  Some ([a; b; c; d], s).

(** [read_groups] on a slice of [limit] groups, from group [i] on; the flag
    says that the groups end with an embedded IPv4 address. *)
Fixpoint read_groups (left i : nat) (s : rstring) : list Z * bool * rstring :=
  match left with
  | O => ([], false, s)
  | S left' =>
      let embedded := if (1 <=? left')%nat then read_separator 58 i read_ipv4_addr s else None in
      match embedded with
      | Some ([a; b; c; d], s) => ([a * 256 + b; c * 256 + d], true, s)
      | _ =>
          match read_separator 58 i (read_number 16 65535 (Some 4) true) s with
          | None => ([], false, s)
          | Some (group, s) =>
              let '(groups, v4, s) := read_groups left' (S i) s in (group :: groups, v4, s)
          end
      end
  end.

Definition read_ipv6_addr : Parser (list Z) := fun s =>
  let '(head, head_v4, s) := read_groups 8 0 s in
  if (length head =? 8)%nat then Some (head, s)
  else if head_v4 : bool then None
  else
    '(_, s) ← read_given_char 58 s;
    '(_, s) ← read_given_char 58 s;
    let '(tail, _, s) := read_groups (8 - (length head + 1)) 0 s in
    Some (head ++ replicate (8 - length head - length tail) 0 ++ tail, s).

Definition read_port : Parser Z := fun s =>
  '(_, s) ← read_given_char 58 s; read_number 10 65535 None true s.

Definition read_scope_id : Parser Z := fun s =>
  '(_, s) ← read_given_char 37 s; read_number 10 (uint_max 32) None true s.

Definition read_socket_addr_v4 : Parser SocketAddress := fun s =>
  '(ip, s) ← read_ipv4_addr s;
  '(port, s) ← read_port s;
  Some (SocketV4 ip port, s).

Definition read_socket_addr_v6 : Parser SocketAddress := fun s =>
  '(_, s) ← read_given_char 91 s;
  '(ip, s) ← read_ipv6_addr s;
  let '(scope_id, s) := default (0, s) (read_scope_id s) in
  '(_, s) ← read_given_char 93 s;
  '(port, s) ← read_port s;
  Some (SocketV6 ip scope_id port, s).

(** [str::parse::<SocketAddr>()]: the whole text must be used up. *)
Definition parse_socket_addr (s : rstring) : option SocketAddress :=
  let address := match read_socket_addr_v4 s with Some r => Some r | None => read_socket_addr_v6 s end in
  match address with
  | Some (address, []) => Some address
  | _ => None
  end.

(** ** Lemmas on decimal numbers *)

Section decimals.
Implicit Types n : Z.

(** What does not continue a number. *)
Definition number_ends (s : rstring) : Prop := match s with [] => True | c :: _ => to_digit 10 c = None end.

Lemma to_digit_decimal n : 0 <= n < 10 -> to_digit 10 (48 + n) = Some n.
Proof.
  intros Hn. unfold to_digit.
  replace ((48 <=? 48 + n) && (48 + n <=? 57)) with true by lia.
  replace (48 + n - 48) with n by lia. by replace (n <? 10) with true by lia.
Qed.

Lemma read_digits_ends bound most s result count :
  number_ends s -> read_digits 10 bound most s result count = Some (result, count, s).
Proof. destruct s as [|c s]; simpl; [done|]. by intros ->. Qed.

Lemma read_digits_decimal bound most fuel n rest :
  0 <= n < 10 ^ Z.of_nat fuel -> (0 < fuel)%nat -> n <= bound ->
  Z.of_nat (length (decimal_digits fuel n)) <= most ->
  read_digits 10 bound most (decimal_digits fuel n ++ rest) 0 0
  = read_digits 10 bound most rest n (Z.of_nat (length (decimal_digits fuel n))).
Proof.
  revert n rest. induction fuel as [|fuel IH]; intros n rest Hn Hf Hb Hm; [lia|].
  cbn [decimal_digits] in *. rewrite length_app in *. cbn [length] in *.
  assert (0 <= n mod 10 < 10) as Hd by (apply Z.mod_pos_bound; lia).
  assert (n = 10 * (n / 10) + n mod 10) as Hdiv by (apply Z.div_mod; lia).
  rewrite <- (assoc_L (++)).
  destruct (Z.ltb_spec n 10).
  - cbn [app length] in *. cbn [read_digits].
    rewrite to_digit_decimal by done. rewrite Z.mod_small in * by lia.
    replace ((bound <? 0 * 10 + n) || (most <? 0 + 1)) with false by lia. f_equal; lia.
  - assert (0 <= n / 10 < 10 ^ Z.of_nat fuel).
    { split; [lia|]. rewrite Nat2Z.inj_succ, Z.pow_succ_r in Hn by lia.
      apply Z.div_lt_upper_bound; lia. }
    destruct fuel as [|fuel']; [rewrite Z.pow_0_r in *; lia|]. set (fuel := S fuel') in *.
    rewrite IH by lia. cbn [app read_digits]. rewrite to_digit_decimal by done.
    replace ((bound <? n / 10 * 10 + n mod 10) || _) with false by lia. f_equal; lia.
Qed.

Lemma decimal_digits_length fuel n :
  (0 < fuel)%nat -> 0 <= n < 10 ^ Z.of_nat fuel -> forall k, n < 10 ^ Z.of_nat k -> (0 < k)%nat ->
  (1 <= length (decimal_digits fuel n) <= k)%nat.
Proof.
  revert n. induction fuel as [|fuel IH]; intros n Hf Hn k Hk Hpos; [lia|]. cbn [decimal_digits].
  rewrite length_app. cbn [length]. destruct (Z.ltb_spec n 10); [simpl; lia|].
  assert (fuel <> 0%nat) by (intros ->; change (10 ^ Z.of_nat 1) with 10 in Hn; lia).
  destruct k as [|[|k]]; [lia|change (10 ^ Z.of_nat 1) with 10 in Hk; lia|].
  rewrite Nat2Z.inj_succ, Z.pow_succ_r in Hn by lia. rewrite Nat2Z.inj_succ, Z.pow_succ_r in Hk by lia.
  assert (0 <= n / 10 < 10 ^ Z.of_nat fuel) as Hr by (split; [apply Z.div_pos; lia|apply Z.div_lt_upper_bound; lia]).
  assert (n / 10 < 10 ^ Z.of_nat (S k)) as Hr' by (apply Z.div_lt_upper_bound; lia).
  specialize (IH (n / 10) ltac:(lia) Hr (S k) Hr' ltac:(lia)). lia.
Qed.

(** Only the number zero starts with a zero. *)
Lemma decimal_digits_head fuel n :
  0 <= n < 10 ^ Z.of_nat fuel -> head (decimal_digits fuel n) = Some 48 -> n = 0.
Proof.
  revert n. induction fuel as [|fuel IH]; intros n Hn; [done|]. cbn [decimal_digits].
  destruct (Z.ltb_spec n 10) as [Hlt|Hge].
  - cbn. rewrite Z.mod_small by lia. intros [= H]. lia.
  - intros Hh. assert (0 <= n / 10 < 10 ^ Z.of_nat fuel) as Hr.
    { rewrite Nat2Z.inj_succ, Z.pow_succ_r in Hn by lia. split; [apply Z.div_pos; lia|apply Z.div_lt_upper_bound; lia]. }
    specialize (IH (n / 10) Hr). destruct (decimal_digits fuel (n / 10)) as [|c l] eqn:E.
    + destruct fuel; [change (10 ^ Z.of_nat 0) with 1 in Hr; lia|]. cbn [decimal_digits] in E.
      by apply app_eq_nil in E as [_ ?].
    + cbn in Hh, IH. apply IH in Hh. pose proof (Z.div_mod n 10). pose proof (Z.mod_pos_bound n 10). lia.
Qed.

Lemma read_number_decimal n bound k max_digits zeros rest :
  0 <= n < 2 ^ 32 -> n <= bound -> n < 10 ^ Z.of_nat k -> (0 < k)%nat ->
  (match max_digits with Some m => Z.of_nat k <= m | None => True end) -> number_ends rest ->
  read_number 10 bound max_digits zeros (decimal n ++ rest) = Some (n, rest).
Proof.
  intros Hn Hb Hk Hk0 Hm Hrest. unfold read_number, decimal.
  assert (0 <= n < 10 ^ Z.of_nat 10) as Hn' by (change (10 ^ Z.of_nat 10) with 10000000000; lia).
  pose proof (decimal_digits_length 10 n ltac:(lia) Hn' k Hk Hk0) as Hlen.
  rewrite read_digits_decimal; [|done|lia|done|].
  2: { destruct max_digits as [m|]; cbn [from_option id]; [unfold id; lia|]. rewrite length_app. lia. }
  rewrite read_digits_ends by done. cbn [mbind option_bind].
  replace (Z.of_nat (length (decimal_digits 10 n)) =? 0) with false by lia.
  case_bool_decide as Hzero; [|by rewrite andb_false_r].
  assert (head (decimal_digits 10 n) = Some 48) as Hhead.
  { destruct (decimal_digits 10 n) as [|c l]; [cbn in Hlen; lia|done]. }
  apply decimal_digits_head in Hhead; [|done]. subst n. cbn. by rewrite andb_false_r.
Qed.
End decimals.

#[local] Arguments read_number : simpl never.
#[local] Arguments decimal : simpl never.

(** An IPv4 socket address is read back from its text. *)
Lemma parse_format_v4 host port :
  length host = 4%nat -> Forall (fun o => 0 <= o < 256) host -> 0 <= port < 65536 ->
  parse_socket_addr (format_ipv4 host ++ [58] ++ decimal port) = Some (SocketV4 host port).
Proof.
  intros Hlen Hall Hport. destruct host as [|a [|b [|c [|d [|]]]]]; try done.
  apply Forall_cons in Hall as [Ha Hall]. apply Forall_cons in Hall as [Hb Hall].
  apply Forall_cons in Hall as [Hc Hall]. apply Forall_cons in Hall as [Hd _].
  assert (forall o rest, 0 <= o < 256 -> number_ends rest ->
    read_number 10 255 (Some 3) false (decimal o ++ rest) = Some (o, rest)) as Hoctet.
  { intros o rest Ho Hr. apply (read_number_decimal _ _ 3); [lia|lia| |lia|done|done].
    change (10 ^ Z.of_nat 3) with 1000. lia. }
  assert (read_number 10 65535 None true (decimal port ++ []) = Some (port, [])) as Hp.
  { apply (read_number_decimal _ _ 5); [lia|lia| |lia|done|done]. change (10 ^ Z.of_nat 5) with 100000. lia. }
  rewrite app_nil_r in Hp.
  unfold parse_socket_addr, read_socket_addr_v4, read_ipv4_addr, format_ipv4, read_octet.
  cbn [fmap list_fmap join read_separator]. rewrite <- !(assoc_L (++)). cbn [app].
  rewrite Hoctet by done. cbn. rewrite Hoctet by done. cbn. rewrite Hoctet by done. cbn. rewrite Hoctet by done.
  unfold read_port. cbn. by rewrite Hp.
Qed.

Example parse_loopback :
  parse_socket_addr (91 :: [58; 58; 49] ++ [93; 58; 56; 48]) = Some (SocketV6 [0; 0; 0; 0; 0; 0; 0; 1] 0 80).
Proof. reflexivity. Qed.
