(* ===== verification/DeviceControl.v ===== *)
(** * DeviceControl: commands, reports and the calibration tone of the phone

    [android/app/src/main/rust/src/device_control.rs].  The network task
    queues commands for Kotlin, Kotlin reports the device, the audio worker
    acknowledges the tone.  [Instant::now()] is an argument wherever the source
    reads the clock (milliseconds); the waveform of the tone is an argument of
    [read_tone]; [Waveform] defines it. *)

From Stdlib Require Import ZArith Lia.
From S2P Require Import Prelude Wire.

(** ** State *)

Record PendingCommand : Type := mkCommand {
  cm_value : Z;
  cm_expires : option Z;
}.

Record Tone : Type := mkTone {
  tn_token : Z;
  tn_until : option Z;
  tn_responded : bool;
}.
Definition tone_default : Tone := mkTone 0 None false.

Record DeviceControl : Type := mkDeviceControl {
  dc_commands : list PendingCommand;
  dc_reports : list ControlMessage;
  dc_tone : Tone;
  dc_position : Z;
  dc_speaker : bool;
}.
Definition device_default : DeviceControl := mkDeviceControl [] [] tone_default 0 false.

Definition with_commands (q : list PendingCommand) (d : DeviceControl) : DeviceControl :=
  mkDeviceControl q (dc_reports d) (dc_tone d) (dc_position d) (dc_speaker d).
Definition with_reports (q : list ControlMessage) (d : DeviceControl) : DeviceControl :=
  mkDeviceControl (dc_commands d) q (dc_tone d) (dc_position d) (dc_speaker d).
Definition with_tone (t : Tone) (d : DeviceControl) : DeviceControl :=
  mkDeviceControl (dc_commands d) (dc_reports d) t (dc_position d) (dc_speaker d).
Definition with_position (p : Z) (d : DeviceControl) : DeviceControl :=
  mkDeviceControl (dc_commands d) (dc_reports d) (dc_tone d) p (dc_speaker d).
Definition with_speaker (b : bool) (d : DeviceControl) : DeviceControl :=
  mkDeviceControl (dc_commands d) (dc_reports d) (dc_tone d) (dc_position d) b.

(** ** Commands *)

Definition COMMAND_LIMIT : Z := 32.
Definition REPORT_LIMIT : Z := 32.

Definition enqueue_operation (d : DeviceControl) (now request_id operation value : Z) : DeviceControl * bool :=
  if COMMAND_LIMIT <=? Z.of_nat (length (dc_commands d)) then (d, false)
  else
    let command := mkCommand
      (Z.lor (Z.lor (wrap 64 (Z.shiftl request_id 24)) (Z.shiftl operation 16)) value)
      (if negb (operation =? 4) then Some (now + 2000) else None) in
    (with_commands (dc_commands d ++ [command]) d, true).

Definition enqueue (d : DeviceControl) (now request_id : Z) (index : option Z) : DeviceControl * bool :=
  enqueue_operation d now request_id (match index with Some _ => 2 | None => 1 end) (default 0 index).

Definition take_command_at (d : DeviceControl) (now : Z) : DeviceControl * Z :=
  match dc_commands d with
  | [] => (d, 0)
  | command :: commands =>
      (with_commands commands d,
       if match cm_expires command with Some expires => expires <=? now | None => false end
       then Z.lor (Z.land (cm_value command) (wrap 64 (Z.shiftl (uint_max 64) 24))) (Z.shiftl 8 16)
       else cm_value command)
  end.

(** ** Reports *)

Definition push_report (d : DeviceControl) (report : ControlMessage) : DeviceControl :=
  let reports := if REPORT_LIMIT <=? Z.of_nat (length (dc_reports d))
                 then tail (dc_reports d) else dc_reports d in
  with_reports (reports ++ [report]) d.

Definition push_tone_report (d : DeviceControl) (report : option (Z * bool * bool)) : DeviceControl :=
  match report with
  | Some (request_id, playing, failed) => push_report d (ToneState request_id playing failed)
  | None => d
  end.

Definition take_report (d : DeviceControl) : DeviceControl * option ControlMessage :=
  match dc_reports d with
  | [] => (d, None)
  | report :: reports => (with_reports reports d, Some report)
  end.

(** ** The tone *)

(** [(tone.token >> 1) as u32] and [tone.token &= !1]. *)
Definition token_request (token : Z) : Z := wrap 32 (Z.shiftr token 1).
Definition token_off (token : Z) : Z := Z.land token (uint_max 64 - 1).

(** [request_tone] reads the speaker flag first, and writes the tone under its
    lock afterwards. *)
Definition tone_allowed (d : DeviceControl) (enabled : bool) : bool := negb enabled || dc_speaker d.

Definition start_tone (d : DeviceControl) (now request_id : Z) (enabled allowed : bool) : DeviceControl :=
  let tone := mkTone (Z.lor (wrap 64 (Z.shiftl request_id 1)) (Z.b2z enabled))
                (if enabled && allowed then Some (now + 5000) else None)
                ((request_id =? 0) || negb allowed) in
  let d := with_position 0 (with_tone tone d) in
  if negb allowed && negb (request_id =? 0) then push_report d (ToneState request_id false true) else d.

Definition request_tone (d : DeviceControl) (now request_id : Z) (enabled : bool) : DeviceControl :=
  start_tone d now request_id enabled (tone_allowed d enabled).

(** [set_tone(false)]. *)
Definition stop_tone (d : DeviceControl) : DeviceControl :=
  let tone := dc_tone d in
  let was_active := match tn_until tone with Some _ => true | None => false end in
  let request_id := token_request (tn_token tone) in
  let d := with_tone (mkTone (token_off (tn_token tone)) None (tn_responded tone || was_active)) d in
  let d := push_tone_report d
             (if was_active && negb (request_id =? 0) then Some (request_id, false, true) else None) in
  with_position 0 d.

Definition set_tone (d : DeviceControl) (now : Z) (enabled : bool) : DeviceControl :=
  if enabled then request_tone d now 0 true else stop_tone d.

Definition report (d : DeviceControl) (status : DeviceStatus) : DeviceControl :=
  let d := with_speaker (ds_speaker status && negb (ds_failed status)) d in
  let d := if negb (ds_speaker status) || ds_failed status then stop_tone d else d in
  push_report d (DeviceStatusMsg status).

Definition expire_tone (d : DeviceControl) (now : Z) : DeviceControl :=
  let tone := dc_tone d in
  if match tn_until tone with Some until => until <=? now | None => false end
  then
    let request_id := token_request (tn_token tone) in
    push_tone_report (with_tone (mkTone (token_off (tn_token tone)) None true) d)
      (if negb (request_id =? 0) then Some (request_id, false, true) else None)
  else d.

Definition playback_request (d : DeviceControl) (now : Z) : DeviceControl * Z :=
  let d := expire_tone d now in (d, tn_token (dc_tone d)).

(** The clock is read by [expire_tone], for [active], and for the new deadline. *)
Definition report_playback (d : DeviceControl) (now now_active now_deadline token : Z) (playing : bool)
  : DeviceControl :=
  let d := expire_tone d now in
  if Z.shiftr token 1 =? 0 then d
  else
    let tone := dc_tone d in
    if negb (token =? tn_token tone) then d
    else
      let enabled := negb (Z.land token 1 =? 0) in
      let active := match tn_until tone with Some until => now_active <? until | None => false end in
      let '(tone, answer) :=
        if enabled && playing && active && negb (tn_responded tone)
        then (mkTone (tn_token tone) (Some (now_deadline + 5000)) true, Some (true, false))
        else if negb enabled && negb playing && negb (tn_responded tone)
        then (mkTone (tn_token tone) (tn_until tone) true, Some (false, false))
        else if enabled && negb playing && negb active
        then
          (* [tone.until.take().is_some() || !tone.responded] *)
          if match tn_until tone with Some _ => true | None => false end || negb (tn_responded tone)
          then (mkTone (token_off (tn_token tone)) None true, Some (false, true))
          else (mkTone (tn_token tone) None (tn_responded tone), None)
        else (tone, None) in
      push_tone_report (with_tone tone d)
        ((fun a => (wrap 32 (Z.shiftr token 1), a.1, a.2)) <$> answer).

Definition tone_active (d : DeviceControl) (now now_active : Z) : DeviceControl * bool :=
  let d := expire_tone d now in
  (d, match tn_until (dc_tone d) with Some until => now_active <? until | None => false end).

(** [read_tone] with an [output] of [2 * frames] samples. *)
Definition read_tone (wave : Z -> Z) (d : DeviceControl) (now now_active : Z) (frames : nat)
  : DeviceControl * option (list Z) :=
  let '(d, active) := tone_active d now now_active in
  if negb active then (d, None)
  else
    let start := dc_position d in
    (with_position (wrapping_add 64 start (Z.of_nat frames)) d,
     Some (seq 0 frames ≫= fun offset =>
             let value := wave (wrapping_add 64 start (Z.of_nat offset)) in [value; value])).

Definition reset (d : DeviceControl) : DeviceControl :=
  mkDeviceControl [] [] tone_default 0 false.

(** ** Histories *)

Inductive device_op : Type :=
| DevEnqueue (now request_id operation value : Z)
| DevTakeCommand (now : Z)
| DevReport (status : DeviceStatus)
| DevTakeReport
| DevRequestTone (now request_id : Z) (enabled : bool)
| DevSetTone (now : Z) (enabled : bool)
| DevPlaybackRequest (now : Z)
| DevReportPlayback (now now_active now_deadline token : Z) (playing : bool)
| DevToneActive (now now_active : Z)
| DevReadTone (now now_active : Z) (frames : nat)
| DevReset.

Definition silent_wave (position : Z) : Z := 0.

Definition device_step (d : DeviceControl) (op : device_op) : DeviceControl :=
  match op with
  | DevEnqueue now id o v => (enqueue_operation d now id o v).1
  | DevTakeCommand now => (take_command_at d now).1
  | DevReport status => report d status
  | DevTakeReport => (take_report d).1
  | DevRequestTone now id enabled => request_tone d now id enabled
  | DevSetTone now enabled => set_tone d now enabled
  | DevPlaybackRequest now => (playback_request d now).1
  | DevReportPlayback now a b token playing => report_playback d now a b token playing
  | DevToneActive now a => (tone_active d now a).1
  | DevReadTone now a frames => (read_tone silent_wave d now a frames).1
  | DevReset => reset d
  end.

Definition device_run : DeviceControl -> list device_op -> DeviceControl := foldl device_step.

(** The operation starts a tone, or asks for silence, on behalf of a request. *)
Definition requests_tone (op : device_op) : bool :=
  match op with DevRequestTone _ _ _ | DevSetTone _ true => true | _ => false end.

(** ** Packed words *)

Lemma lor_disjoint a b k : 0 <= k -> 0 <= b < 2 ^ k -> Z.lor (Z.shiftl a k) b = a * 2 ^ k + b.
Proof.
  intros Hk Hb. rewrite <- Z.shiftl_mul_pow2 by done.
  assert (Z.land (Z.shiftl a k) b = 0) as Hland.
  { apply Z.bits_inj'. intros n Hn. rewrite Z.land_spec, Z.bits_0. destruct (Z.lt_ge_cases n k).
    - by rewrite Z.shiftl_spec_low.
    - rewrite <- (Z.mod_small b (2 ^ k)) by done. rewrite Z.mod_pow2_bits_high by lia. apply andb_false_r. }
  by rewrite Z.add_nocarry_lxor, Z.lxor_lor.
Qed.

(** The token of a request. *)
Definition token_of (request_id : Z) (enabled : bool) : Z := request_id * 2 + Z.b2z enabled.

Lemma token_packed id enabled :
  id ∈u 32 -> Z.lor (wrap 64 (Z.shiftl id 1)) (Z.b2z enabled) = token_of id enabled.
Proof.
  intros Hid. unfold in_uint in Hid. rewrite wrap_small.
  - apply lor_disjoint; [lia|]. destruct enabled; simpl; lia.
  - rewrite Z.shiftl_mul_pow2 by lia. unfold in_uint. lia.
Qed.

Lemma token_shift id enabled : Z.shiftr (token_of id enabled) 1 = id.
Proof.
  rewrite Z.shiftr_div_pow2 by lia. unfold token_of. change (2 ^ 1) with 2.
  rewrite Z.add_comm, Z.div_add by lia. destruct enabled; simpl; done.
Qed.

Lemma token_request_of id enabled : id ∈u 32 -> token_request (token_of id enabled) = id.
Proof. intros. unfold token_request. rewrite token_shift. by apply wrap_small. Qed.

Lemma token_off_of id enabled : id ∈u 32 -> token_off (token_of id enabled) = token_of id false.
Proof.
  intros Hid. unfold in_uint in Hid. unfold token_off.
  assert (uint_max 64 - 1 = Z.shiftl (Z.ones 63) 1) as -> by reflexivity.
  apply Z.bits_inj'. intros n Hn. rewrite Z.land_spec. unfold token_of. simpl (Z.b2z false). rewrite Z.add_0_r.
  destruct (Z.eq_dec n 0) as [->|Hn0].
  - rewrite Z.shiftl_spec_low, andb_false_r by lia. rewrite Z.mul_comm. symmetry. apply Z.testbit_even_0.
  - rewrite Z.shiftl_spec_high by lia. replace n with (Z.succ (n - 1)) by lia.
    rewrite (Z.mul_comm id 2), Z.testbit_even_succ by lia.
    assert (Z.testbit (2 * id + Z.b2z enabled) (Z.succ (n - 1)) = Z.testbit id (n - 1)) as ->.
    { destruct enabled; simpl (Z.b2z _); [by rewrite Z.testbit_odd_succ by lia|].
      by rewrite Z.add_0_r, Z.testbit_even_succ by lia. }
    replace (Z.succ (n - 1) - 1) with (n - 1) by lia.
    destruct (Z.lt_ge_cases (n - 1) 63).
    + by rewrite Z.ones_spec_low, andb_true_r by lia.
    + rewrite (Z.bits_above_log2 id); [done|lia|]. destruct (Z.eq_dec id 0) as [->|]; [simpl; lia|].
      apply Z.log2_lt_pow2; [lia|]. eapply Z.lt_le_trans; [apply Hid|]. apply Z.pow_le_mono_r; lia.
Qed.

Lemma token_enabled id enabled : negb (Z.land (token_of id enabled) 1 =? 0) = enabled.
Proof.
  change 1 with (Z.ones 1). rewrite Z.land_ones by lia. unfold token_of. change (2 ^ 1) with 2.
  rewrite Z.add_comm, Z.mod_add by lia. by destruct enabled.
Qed.

Lemma command_packed id operation value :
  id ∈u 32 -> operation ∈u 8 -> value ∈u 16 ->
  Z.lor (Z.lor (wrap 64 (Z.shiftl id 24)) (Z.shiftl operation 16)) value =
    id * 2 ^ 24 + operation * 2 ^ 16 + value.
Proof.
  unfold in_uint. intros Hid Hop Hv. rewrite wrap_small.
  2: { rewrite Z.shiftl_mul_pow2 by lia. unfold in_uint. lia. }
  rewrite lor_disjoint by (rewrite ?Z.shiftl_mul_pow2 by lia; lia). rewrite Z.shiftl_mul_pow2 by lia.
  replace (id * 2 ^ 24 + operation * 2 ^ 16) with ((id * 2 ^ 8 + operation) * 2 ^ 16) by lia.
  rewrite <- (Z.shiftl_mul_pow2 _ 16) by lia. rewrite lor_disjoint by lia. by rewrite Z.shiftl_mul_pow2 by lia.
Qed.

(** ** What an operation does to the tone and to the reports *)

Abbreviation tone_answer := (Z * bool * bool)%type.

Definition tone_answers (reports : list ControlMessage) : list tone_answer :=
  omap (fun m => match m with ToneState id playing failed => Some (id, playing, failed) | _ => None end) reports.

(** The reports of [d'] are the last ones of those of [d] followed by [log]. *)
Definition logged (d d' : DeviceControl) (log : list ControlMessage) : Prop :=
  dc_reports d' `suffix_of` dc_reports d ++ log.

Lemma logged_same d d' : dc_reports d' = dc_reports d -> logged d d' [].
Proof. unfold logged. intros ->. by rewrite app_nil_r. Qed.

Lemma logged_refl d : logged d d [].
Proof. unfold logged. by rewrite app_nil_r. Qed.

Lemma logged_trans d1 d2 d3 l1 l2 : logged d1 d2 l1 -> logged d2 d3 l2 -> logged d1 d3 (l1 ++ l2).
Proof.
  unfold logged. intros H1 H2. etrans; [exact H2|]. rewrite app_assoc. by apply suffix_app.
Qed.

Section tone_moves.
(** How long after [active] was computed the new deadline may be. *)
Variable prompt : Z -> Z -> Prop.

(** The changes of the tone that no request asked for, with their answers. *)
Inductive tone_move : Tone -> Tone -> list tone_answer -> Prop :=
| move_stop token until responded :
    tone_move (mkTone token until responded)
      (mkTone (token_off token) None (responded || bool_decide (is_Some until)))
      (if bool_decide (is_Some until) && negb (token_request token =? 0)
       then [(token_request token, false, true)] else [])
| move_expire token until responded :
    tone_move (mkTone token (Some until) responded) (mkTone (token_off token) None true)
      (if negb (token_request token =? 0) then [(token_request token, false, true)] else [])
| move_confirm token until a deadline :
    a < until -> prompt a deadline -> Z.shiftr token 1 <> 0 -> negb (Z.land token 1 =? 0) = true ->
    tone_move (mkTone token (Some until) false) (mkTone token (Some (deadline + 5000)) true)
      [(token_request token, true, false)]
| move_silenced token until :
    Z.shiftr token 1 <> 0 -> negb (Z.land token 1 =? 0) = false ->
    tone_move (mkTone token until false) (mkTone token until true) [(token_request token, false, false)]
| move_failed token until responded :
    Z.shiftr token 1 <> 0 -> negb (Z.land token 1 =? 0) = true -> is_Some until \/ responded = false ->
    tone_move (mkTone token until responded) (mkTone (token_off token) None true)
      [(token_request token, false, true)]
| move_reset tone : tone_move tone tone_default [].

Inductive tone_moves : Tone -> Tone -> list tone_answer -> Prop :=
| moves_refl t : tone_moves t t []
| moves_step t1 t2 t3 a1 a2 : tone_move t1 t2 a1 -> tone_moves t2 t3 a2 -> tone_moves t1 t3 (a1 ++ a2).

Lemma moves_one t1 t2 a : tone_move t1 t2 a -> tone_moves t1 t2 a.
Proof. intros H. rewrite <- (app_nil_r a). eapply moves_step; [done|constructor]. Qed.

Lemma moves_trans t1 t2 t3 a1 a2 : tone_moves t1 t2 a1 -> tone_moves t2 t3 a2 -> tone_moves t1 t3 (a1 ++ a2).
Proof. induction 1; [done|]. intros. rewrite <- app_assoc. eapply moves_step; eauto. Qed.

(** [d'] follows from [d] without a request. *)
Definition evolves (d d' : DeviceControl) : Prop :=
  exists answers log, tone_moves (dc_tone d) (dc_tone d') answers /\ logged d d' log /\ tone_answers log = answers.

Lemma evolves_refl d : evolves d d.
Proof. exists [], []. split_and!; [constructor|apply logged_refl|done]. Qed.

Lemma evolves_trans d1 d2 d3 : evolves d1 d2 -> evolves d2 d3 -> evolves d1 d3.
Proof.
  intros (a1 & l1 & H1 & L1 & E1) (a2 & l2 & H2 & L2 & E2). exists (a1 ++ a2), (l1 ++ l2).
  split_and!; [by eapply moves_trans|by eapply logged_trans|]. unfold tone_answers in *. rewrite omap_app. congruence.
Qed.

Lemma push_report_logged d m : logged d (push_report d m) [m].
Proof.
  unfold logged, push_report. simpl. apply suffix_app. destruct (REPORT_LIMIT <=? _); [|done].
  destruct (dc_reports d) as [|x l]; [done|]. by apply suffix_cons_r.
Qed.

Lemma evolves_push d d' m answers :
  dc_reports d' = dc_reports (push_report d m) -> tone_moves (dc_tone d) (dc_tone d') answers ->
  tone_answers [m] = answers -> evolves d d'.
Proof.
  intros Hr Hm Ha. exists answers, [m]. split_and!; [done| |done]. unfold logged. rewrite Hr. apply push_report_logged.
Qed.

Lemma evolves_quiet d d' :
  dc_reports d' `suffix_of` dc_reports d -> dc_tone d' = dc_tone d -> evolves d d'.
Proof.
  intros Hr Ht. exists [], []. rewrite Ht. split_and!; [constructor| |done]. unfold logged. by rewrite app_nil_r.
Qed.

(** A change of the tone together with its optional answer. *)
Lemma evolves_move d d' tone answer :
  tone_move (dc_tone d) tone (match answer with Some a => [a] | None => [] end) ->
  dc_tone d' = tone -> dc_reports d' = dc_reports (push_tone_report (with_tone tone d) answer) ->
  evolves d d'.
Proof.
  intros Hm Ht Hr. destruct answer as [[[id playing] failed]|]; simpl in Hr.
  - eapply (evolves_push d d' (ToneState id playing failed)); [exact Hr| |reflexivity].
    rewrite Ht. by apply moves_one.
  - exists [], []. rewrite Ht. split_and!; [by apply moves_one| |done]. unfold logged. by rewrite Hr, app_nil_r.
Qed.

Lemma push_tone_report_tone d a : dc_tone (push_tone_report d a) = dc_tone d.
Proof. by destruct a as [[[]]|]. Qed.

Lemma evolves_stop d : evolves d (stop_tone d).
Proof.
  eapply evolves_move; [|simpl; rewrite push_tone_report_tone; reflexivity|reflexivity].
  destruct (dc_tone d) as [token until responded]. simpl.
  pose proof (move_stop token until responded) as H. destruct until; simpl in *.
  - by destruct (token_request token =? 0).
  - exact H.
Qed.

Lemma evolves_expire d now : evolves d (expire_tone d now).
Proof.
  unfold expire_tone. destruct (dc_tone d) as [token until responded] eqn:Ht. cbn [tn_until tn_token].
  destruct until as [until|]; [|apply evolves_refl]. destruct (until <=? now); [|apply evolves_refl].
  eapply evolves_move; [|rewrite push_tone_report_tone; reflexivity|reflexivity]. rewrite Ht.
  pose proof (move_expire token until responded) as H. by destruct (token_request token =? 0).
Qed.

Lemma evolves_playback d now a deadline token playing :
  prompt a deadline -> evolves d (report_playback d now a deadline token playing).
Proof.
  intros Hp. unfold report_playback. eapply evolves_trans; [apply (evolves_expire d now)|].
  set (e := expire_tone d now). clearbody e. clear d now.
  destruct (Z.eqb_spec (Z.shiftr token 1) 0) as [|H0]; [apply evolves_refl|].
  destruct (dc_tone e) as [tok until responded] eqn:Ht. cbn [tn_token tn_until tn_responded].
  destruct (Z.eqb_spec token tok) as [<-|]; cbn [negb]; [|apply evolves_refl].
  destruct (negb (Z.land token 1 =? 0)) eqn:Hen; cbn [andb negb].
  - destruct playing; cbn [andb negb].
    + destruct until as [until|]; cbn [andb negb].
      2: { apply evolves_quiet; by rewrite ?Ht. }
      destruct (Z.ltb_spec a until) as [Hlt|Hge]; cbn [andb negb].
      2: { apply evolves_quiet; by rewrite ?Ht. }
      destruct responded; cbn [andb negb].
      { apply evolves_quiet; by rewrite ?Ht. }
      eapply evolves_move; [|reflexivity|reflexivity]. rewrite Ht. by apply (move_confirm token until a).
    + destruct until as [until|]; cbn [andb negb orb].
      * destruct (a <? until); cbn [andb negb orb]; [apply evolves_quiet; by rewrite ?Ht|].
        eapply evolves_move; [|reflexivity|reflexivity]. rewrite Ht. apply move_failed; [done..|]. by left.
      * destruct responded; cbn [negb]; [apply evolves_quiet; by rewrite ?Ht|].
        eapply evolves_move; [|reflexivity|reflexivity]. rewrite Ht. apply move_failed; [done..|]. by right.
  - destruct playing; cbn [andb negb]; [apply evolves_quiet; by rewrite ?Ht|].
    destruct responded; cbn [andb negb]; [apply evolves_quiet; by rewrite ?Ht|].
    eapply evolves_move; [|reflexivity|reflexivity]. rewrite Ht. by apply move_silenced.
Qed.

Definition prompt_op (op : device_op) : Prop :=
  match op with DevReportPlayback _ a deadline _ _ => prompt a deadline | _ => True end.

Lemma evolves_step d op : requests_tone op = false -> prompt_op op -> evolves d (device_step d op).
Proof.
  intros Hop Hp. destruct op; simpl in *; try done.
  - unfold enqueue_operation. case_match; by apply evolves_quiet.
  - unfold take_command_at. case_match; by apply evolves_quiet.
  - unfold report. set (d1 := with_speaker _ d).
    assert (evolves d d1) as H1 by by apply evolves_quiet.
    eapply evolves_trans; [exact H1|]. eapply evolves_trans.
    { instantiate (1 := if negb (ds_speaker status) || ds_failed status then stop_tone d1 else d1).
      case_match; [apply evolves_stop|apply evolves_refl]. }
    eapply (evolves_push _ _ (DeviceStatusMsg status) []); [done|constructor|done].
  - unfold take_report. destruct (dc_reports d) eqn:Hr; apply evolves_quiet; try done. simpl. rewrite Hr. by apply suffix_cons_r.
  - destruct enabled; [done|]. apply evolves_stop.
  - apply evolves_expire.
  - by apply evolves_playback.
  - apply evolves_expire.
  - unfold read_tone, tone_active. destruct (negb _); [apply evolves_expire|].
    eapply evolves_trans; [apply (evolves_expire d now)|]. by apply evolves_quiet.
  - exists [], []. split_and!; [apply moves_one, move_reset|apply suffix_nil|done].
Qed.

Lemma evolves_run ops d :
  Forall (fun op => requests_tone op = false /\ prompt_op op) ops -> evolves d (device_run d ops).
Proof.
  intros Hops. revert d. induction Hops as [|op ops [H1 H2] _ IH]; intros d; [apply evolves_refl|].
  simpl. eapply evolves_trans; [by apply evolves_step|apply IH].
Qed.
End tone_moves.

(** *** The answers to one request *)

(** What the phone may answer to request [id]: playing and, perhaps, a failure
    after it, or a failure at once; for silence just the acknowledgement. The
    request 0 is the phone's own and is not answered. *)
Definition answers_to (id : Z) (enabled : bool) : list (list tone_answer) :=
  if id =? 0 then [[]]
  else if enabled
  then [[]; [(id, true, false)]; [(id, false, true)]; [(id, true, false); (id, false, true)]]
  else [[]; [(id, false, false)]].

(** Where the tone of request [id] stands, with the answers given so far. *)
Inductive tone_phase (id : Z) (enabled : bool) : Tone -> list tone_answer -> Prop :=
| phase_waiting until :
    id <> 0 -> enabled = true -> tone_phase id enabled (mkTone (token_of id true) (Some until) false) []
| phase_playing until :
    id <> 0 -> enabled = true ->
    tone_phase id enabled (mkTone (token_of id true) (Some until) true) [(id, true, false)]
| phase_silencing :
    id <> 0 -> enabled = false -> tone_phase id enabled (mkTone (token_of id false) None false) []
| phase_over b answers :
    answers ∈ answers_to id enabled -> tone_phase id enabled (mkTone (token_of id b) None true) answers
| phase_own b until responded : id = 0 -> tone_phase id enabled (mkTone (token_of id b) until responded) []
| phase_reset answers : answers ∈ answers_to id enabled -> tone_phase id enabled tone_default answers.

Lemma tone_phase_answers id enabled tone answers :
  tone_phase id enabled tone answers -> answers ∈ answers_to id enabled.
Proof.
  intros Hphase. destruct Hphase; subst; try done; unfold answers_to;
    try (destruct (Z.eqb_spec id 0); [done|]); try done; set_solver.
Qed.

Lemma tone_phase_move prompt id enabled t1 t2 answers a :
  id ∈u 32 -> tone_phase id enabled t1 answers -> tone_move prompt t1 t2 a ->
  tone_phase id enabled t2 (answers ++ a).
Proof.
  intros Hid Hphase Hmove.
  pose proof (fun b => token_request_of id b Hid) as Hreq. pose proof (fun b => token_off_of id b Hid) as Hoff.
  assert (forall a, id <> 0 -> enabled = true -> a ∈ [[(id, true, false)]; [(id, false, true)];
            [(id, true, false); (id, false, true)]] -> a ∈ answers_to id enabled) as Hin.
  { intros x H0 -> Hx. unfold answers_to. destruct (Z.eqb_spec id 0); [done|]. set_solver. }
  assert (id <> 0 -> enabled = false -> [(id, false, false)] ∈ answers_to id enabled) as Hin'.
  { intros H0 ->. unfold answers_to. destruct (Z.eqb_spec id 0); [done|]. set_solver. }
  pose proof (tone_phase_answers _ _ _ _ Hphase) as Hans.
  destruct Hmove; inversion Hphase; subst; rewrite ?Hreq, ?Hoff, ?token_shift, ?token_enabled, ?app_nil_r in *;
    try done; try (by apply phase_reset);
    try (destruct (Z.eqb_spec id 0); [done|]; cbn [negb andb orb]);
    try (rewrite bool_decide_true by done); try (rewrite bool_decide_false by (by intros [])); simpl;
    rewrite ?app_nil_r;
    try (by apply phase_over); try (by apply phase_own); try (by apply phase_playing);
    try (apply phase_over; apply Hin; [done|done|]; set_solver);
    try (apply phase_over; by apply Hin'); try (by destruct H1 as [[]|]); try (by destruct until0).
  rewrite andb_false_r. by apply phase_own.
Qed.

Lemma tone_phase_moves prompt id enabled t1 t2 answers a :
  id ∈u 32 -> tone_phase id enabled t1 answers -> tone_moves prompt t1 t2 a ->
  tone_phase id enabled t2 (answers ++ a).
Proof.
  intros Hid Hphase Hmoves. revert answers Hphase. induction Hmoves as [t|t1 t2 t3 a1 a2 Hmove _ IH]; intros answers Hphase.
  - by rewrite app_nil_r.
  - rewrite app_assoc. apply IH. by eapply tone_phase_move.
Qed.

(** The tone right after a request, and what was answered on the spot. *)
Lemma start_tone_phase d now id enabled allowed :
  id ∈u 32 -> (allowed = false -> enabled = true) ->
  exists log, logged d (start_tone d now id enabled allowed) log /\
    tone_phase id enabled (dc_tone (start_tone d now id enabled allowed)) (tone_answers log).
Proof.
  intros Hid Hal. unfold start_tone. rewrite token_packed by done.
  destruct (Z.eqb_spec id 0) as [->|H0].
  - exists []. rewrite andb_false_r. split; [by apply logged_same|]. by apply phase_own.
  - destruct allowed; cbn [andb negb orb].
    + exists []. split; [by apply logged_same|]. destruct enabled; simpl; [by apply phase_waiting|by apply phase_silencing].
    + rewrite Hal by done. cbn [andb]. exists [ToneState id false true].
      set (e := with_position 0 _). split; [exact (push_report_logged e (ToneState id false true))|].
      apply phase_over. unfold answers_to. destruct (Z.eqb_spec id 0); [done|]. set_solver.
Qed.

(** *** Deadlines *)

Definition ends_by (t : Z) (tone : Tone) : Prop :=
  forall until, tn_until tone = Some until -> until <= t.

Lemma ends_by_moves limit t1 t2 a :
  tone_moves (fun _ deadline => deadline <= limit) t1 t2 a -> ends_by (limit + 5000) t1 -> ends_by (limit + 5000) t2.
Proof.
  induction 1 as [t|t1 t2 t3 a1 a2 Hmove _ IH]; [done|]. intros Hends. apply IH. revert Hends. unfold ends_by.
  destruct Hmove; simpl; try done. intros _ u [= <-]. lia.
Qed.

(** After the confirmation there is no other one. *)
Lemma ends_by_once delay limit t1 t2 a :
  0 <= delay -> tone_moves (fun a deadline => deadline <= a + delay) t1 t2 a ->
  ends_by (if tn_responded t1 then limit + 5000 + delay else limit) t1 ->
  ends_by (limit + 5000 + delay) t2.
Proof.
  intros Hd Hmoves. induction Hmoves as [t|t1 t2 t3 a1 a2 Hmove _ IH]; intros He.
  - intros u Hu. specialize (He u Hu). destruct (tn_responded t); lia.
  - apply IH. revert He. unfold ends_by. destruct Hmove; simpl; try done.
    + intros He u [= <-]. specialize (He _ eq_refl). lia.
    + intros He u Hu. specialize (He u Hu). lia.
Qed.

(** All clock readings of the operation are at most [limit]. *)
Definition readings_until (limit : Z) (op : device_op) : Prop :=
  match op with
  | DevRequestTone now _ _ | DevSetTone now _ => now <= limit
  | DevReportPlayback _ _ deadline _ _ => deadline <= limit
  | _ => True
  end.

Lemma start_tone_tone d now id enabled allowed :
  dc_tone (start_tone d now id enabled allowed) =
    mkTone (Z.lor (wrap 64 (Z.shiftl id 1)) (Z.b2z enabled))
      (if enabled && allowed then Some (now + 5000) else None) ((id =? 0) || negb allowed).
Proof. unfold start_tone. by case_match. Qed.

Lemma readings_step limit d op :
  readings_until limit op -> ends_by (limit + 5000) (dc_tone d) -> ends_by (limit + 5000) (dc_tone (device_step d op)).
Proof.
  intros Hop Hd.
  assert (forall now id enabled, now <= limit -> ends_by (limit + 5000) (dc_tone (request_tone d now id enabled))) as Hreq.
  { intros now id enabled Hn. unfold request_tone. rewrite start_tone_tone. intros u. simpl.
    destruct (enabled && _); [|done]. intros [= <-]. lia. }
  destruct (requests_tone op) eqn:Hr.
  - destruct op; try done; simpl in *; [by apply Hreq|]. destruct enabled; [|done]. by apply Hreq.
  - destruct (evolves_step (fun _ deadline => deadline <= limit) d op Hr) as (a & log & Hm & _ & _).
    + by destruct op.
    + by eapply ends_by_moves.
Qed.

Lemma readings_run limit ops d :
  Forall (readings_until limit) ops -> ends_by (limit + 5000) (dc_tone d) ->
  ends_by (limit + 5000) (dc_tone (device_run d ops)).
Proof.
  intros Hops. revert d. induction Hops as [|op ops Hop _ IH]; intros d Hd; [done|]. simpl. by apply IH, readings_step.
Qed.

(** *** The tone and the speaker *)

Definition on_speaker (d : DeviceControl) : Prop := is_Some (tn_until (dc_tone d)) -> dc_speaker d = true.

Lemma moves_start_nothing prompt t1 t2 a :
  tone_moves prompt t1 t2 a -> is_Some (tn_until t2) -> is_Some (tn_until t1).
Proof.
  induction 1 as [t|t1 t2 t3 a1 a2 Hmove _ IH]; [done|]. intros H. specialize (IH H). revert IH.
  destruct Hmove; simpl; try done; by intros [].
Qed.

Lemma push_tone_report_speaker d a : dc_speaker (push_tone_report d a) = dc_speaker d.
Proof. by destruct a as [[[]]|]. Qed.

Lemma expire_tone_speaker d now : dc_speaker (expire_tone d now) = dc_speaker d.
Proof. unfold expire_tone. case_match; [|done]. by rewrite push_tone_report_speaker. Qed.

Lemma on_speaker_step d op : on_speaker d -> on_speaker (device_step d op).
Proof.
  intros Hd. assert (forall now id enabled, on_speaker (request_tone d now id enabled)) as Hreq.
  { intros now id enabled. unfold on_speaker, request_tone. rewrite start_tone_tone. simpl.
    unfold start_tone, tone_allowed. destruct enabled; simpl; [|by intros []].
    destruct (dc_speaker d) eqn:Hs; [by case_match|by intros []]. }
  destruct (requests_tone op) eqn:Hr.
  - destruct op; try done; simpl in *; [apply Hreq|]. destruct enabled; [|done]. apply Hreq.
  - destruct (evolves_step (fun _ _ => True) d op Hr) as (a & log & Hm & _ & _); [by destruct op|].
    pose proof (moves_start_nothing _ _ _ _ Hm) as Hsome.
    destruct op; simpl in *; try done; try (by intros H; apply Hd, Hsome).
    + intros H. specialize (Hd (Hsome H)). unfold enqueue_operation. by case_match.
    + intros H. specialize (Hd (Hsome H)). unfold take_command_at. by case_match.
    + intros H. unfold report in *. simpl in *. destruct (negb (ds_speaker status) || ds_failed status) eqn:Hs.
      * simpl in H. rewrite push_tone_report_tone in H. by destruct H.
      * simpl. destruct (ds_speaker status), (ds_failed status); done.
    + intros H. specialize (Hd (Hsome H)). unfold take_report. by case_match.
    + destruct enabled; [done|]. intros H. simpl in H. rewrite push_tone_report_tone in H. by destruct H.
    + intros H. specialize (Hd (Hsome H)). unfold playback_request. simpl. by rewrite expire_tone_speaker.
    + intros H. specialize (Hd (Hsome H)). unfold report_playback.
      repeat case_match; rewrite ?push_tone_report_speaker; simpl; by rewrite expire_tone_speaker.
    + intros H. specialize (Hd (Hsome H)). by rewrite expire_tone_speaker.
    + intros H. specialize (Hd (Hsome H)). unfold read_tone, tone_active. case_match; simpl; by rewrite expire_tone_speaker.
    + by intros [].
Qed.

Lemma on_speaker_run ops d : on_speaker d -> on_speaker (device_run d ops).
Proof. revert d. induction ops as [|op ops IH]; intros d Hd; [done|]. simpl. by apply IH, on_speaker_step. Qed.

(** *** Commands in the queue *)

(** A command as Kotlin unpacks it. *)
Definition unpack (command : Z) : Z * Z * Z :=
  (Z.shiftr command 24, Z.shiftr command 16 mod 256, command mod 65536).

Definition packed (id operation value : Z) : Z := id * 2 ^ 24 + operation * 2 ^ 16 + value.

Lemma unpack_packed id operation value :
  operation ∈u 8 -> value ∈u 16 -> unpack (packed id operation value) = (id, operation, value).
Proof.
  unfold in_uint, unpack, packed. intros Ho Hv. rewrite !Z.shiftr_div_pow2 by lia.
  change (2 ^ 24) with 16777216. change (2 ^ 16) with 65536. change (2 ^ 8) with 256 in Ho.
  change (2 ^ 16) with 65536 in Hv. f_equal; [f_equal|]; Z.to_euclidean_division_equations; lia.
Qed.

(** What the expired command becomes. *)
Lemma command_expired id operation value :
  id ∈u 32 -> operation ∈u 8 -> value ∈u 16 ->
  Z.lor (Z.land (packed id operation value) (wrap 64 (Z.shiftl (uint_max 64) 24))) (Z.shiftl 8 16) = packed id 8 0.
Proof.
  unfold in_uint. intros Hid Ho Hv.
  assert (wrap 64 (Z.shiftl (uint_max 64) 24) = Z.shiftl (Z.ones 40) 24) as -> by reflexivity.
  assert (Z.land (packed id operation value) (Z.shiftl (Z.ones 40) 24) = Z.shiftl id 24) as ->.
  { assert (packed id operation value = Z.lor (Z.shiftl id 24) (operation * 2 ^ 16 + value)) as ->.
    { rewrite lor_disjoint by lia. unfold packed. lia. }
    rewrite Z.land_lor_distr_l.
    assert (Z.land (operation * 2 ^ 16 + value) (Z.shiftl (Z.ones 40) 24) = 0) as ->.
    { apply Z.bits_inj'. intros n Hn. rewrite Z.land_spec, Z.bits_0. destruct (Z.lt_ge_cases n 24).
      - rewrite (Z.shiftl_spec_low (Z.ones 40)) by lia. apply andb_false_r.
      - rewrite <- (Z.mod_small (operation * 2 ^ 16 + value) (2 ^ 24)) by lia.
        rewrite Z.mod_pow2_bits_high by lia. done. }
    rewrite Z.lor_0_r, <- Z.shiftl_land. f_equal. rewrite Z.land_ones by lia. apply Z.mod_small. lia. }
  rewrite lor_disjoint by (change (Z.shiftl 8 16) with 524288; lia). unfold packed. change (Z.shiftl 8 16) with (8 * 2 ^ 16). lia.
Qed.

(** [take_command_at] [n] times. *)
Fixpoint take_commands (d : DeviceControl) (now : Z) (n : nat) : DeviceControl * list Z :=
  match n with
  | O => (d, [])
  | S n' =>
      let '(d, c) := take_command_at d now in
      let '(d, cs) := take_commands d now n' in (d, c :: cs)
  end.

Lemma take_commands_drop d now n : dc_commands (take_commands d now n).1 = drop n (dc_commands d).
Proof.
  revert d. induction n as [|n IH]; intros d; [done|]. cbn [take_commands].
  destruct (take_command_at d now) as [d1 c] eqn:Ht. specialize (IH d1).
  destruct (take_commands d1 now n) as [d2 cs]. simpl in *. rewrite IH. unfold take_command_at in Ht.
  destruct (dc_commands d) as [|x l] eqn:Hc; injection Ht as <- <-; simpl; [by rewrite Hc, !drop_nil|done].
Qed.

(** ** Properties *)

(** A tone that nobody asks for again falls silent. After any history whose
    clock readings end at [t], if no further tone is requested, then no later
    acknowledgement of the audio worker keeps the tone sounding beyond
    [t] + 10 s (plus the [delay] between two clock readings of one call). *)
Theorem tone_falls_silent (t delay now : Z) (before after : list device_op)
  (Hbefore : Forall (readings_until t) before) (Hdelay : 0 <= delay)
  (Hafter : Forall (fun op => requests_tone op = false /\ prompt_op (fun a deadline => deadline <= a + delay) op) after)
  (Hnow : t + 10000 + delay <= now) :
  forall now', (tone_active (device_run (device_run device_default before) after) now' now).2 = false.
Proof.
  intros now'. unfold tone_active. simpl.
  assert (ends_by (t + 5000) (dc_tone (device_run device_default before))) as H1 by (by apply readings_run).
  set (d1 := device_run device_default before) in *.
  destruct (evolves_run (fun a deadline => deadline <= a + delay) after d1 Hafter) as (a1 & l1 & Hm1 & _).
  destruct (evolves_expire (fun a deadline => deadline <= a + delay) (device_run d1 after) now') as (a2 & l2 & Hm2 & _).
  pose proof (moves_trans _ _ _ _ _ _ Hm1 Hm2) as Hm.
  pose proof (ends_by_once delay (t + 5000) _ _ _ Hdelay Hm) as H2.
  destruct (tn_until (dc_tone (expire_tone (device_run d1 after) now'))) as [u|] eqn:Hu; [|done].
  apply Z.ltb_ge. assert (u <= t + 5000 + 5000 + delay); [|lia]. apply H2; [|done].
  intros v Hv. specialize (H1 v Hv). case_match; lia.
Qed.

Lemma tone_falls_silent_witness :
  let before := [DevReport (mkDeviceStatus 1 [97] [98] 3 0 15 false true false); DevRequestTone 1000 7 true] in
  let after := [DevReportPlayback 5000 5000 5001 15 true] in
  (tone_active (device_run (device_run device_default before) after) 10000 10000).2 = true /\
  (tone_active (device_run (device_run device_default before) after) 11001 11001).2 = false.
Proof.
  split; [vm_compute; reflexivity|].
  apply (tone_falls_silent 1000 1 11001
    [DevReport (mkDeviceStatus 1 [97] [98] 3 0 15 false true false); DevRequestTone 1000 7 true]
    [DevReportPlayback 5000 5000 5001 15 true]); [|lia| |lia].
  - repeat constructor; simpl; lia.
  - repeat constructor; simpl; lia.
Defined.

(** With every call taking effect at once, the calibration tone only ever
    sounds on the speaker: in every state a history of calls can reach, an
    active tone implies that the last report named a working speaker. *)
Theorem tone_only_on_the_speaker (ops : list device_op) (now now_active : Z) :
  let '(d, active) := tone_active (device_run device_default ops) now now_active in
  active = true -> dc_speaker d = true.
Proof.
  assert (on_speaker (device_run device_default ops)) as H by (apply on_speaker_run; by intros []).
  pose proof (on_speaker_step _ (DevToneActive now now_active) H) as H1. unfold tone_active. simpl in *.
  intros Ha. apply H1. by destruct (tn_until _).
Qed.

(** The implementation does not make [request_tone] one step: it reads the
    speaker flag before it takes the lock of the tone. A report that the output
    is no longer the speaker can fall in between; the tone then sounds although
    the phone no longer plays on its speaker. *)
Theorem tone_request_races_with_report :
  exists d status now,
    let allowed := tone_allowed d true in
    let d' := start_tone (report d status) now 7 true allowed in
    ds_speaker status = false /\ dc_speaker d' = false /\ (tone_active d' now now).2 = true.
Proof.
  exists (report device_default (mkDeviceStatus 1 [97] [98] 3 0 15 false true false)),
         (mkDeviceStatus 0 [97] [98] 3 0 15 false false false), 1000.
  vm_compute. done.
Qed.

(** A tone request is answered at most once each way. However the audio
    worker's acknowledgements, expiry, forced stops, new reports and resets
    follow, until the next request the phone answers request [id] with a
    subsequence of: playing, then failed (for a tone), or one acknowledgement
    (for silence), all under its identifier; an unanswered request 0 stays
    unanswered. *)
Theorem tone_request_answered_once (d : DeviceControl) (now id : Z) (enabled : bool) (ops : list device_op)
  (Hid : id ∈u 32) (Hops : Forall (fun op => requests_tone op = false) ops) :
  exists log, dc_reports (device_run (request_tone d now id enabled) ops) `suffix_of` dc_reports d ++ log /\
    tone_answers log ∈ answers_to id enabled.
Proof.
  unfold request_tone.
  destruct (start_tone_phase d now id enabled (tone_allowed d enabled) Hid) as (l1 & H1 & Hp1).
  { unfold tone_allowed. by destruct enabled. }
  destruct (evolves_run (fun _ _ => True) ops (start_tone d now id enabled (tone_allowed d enabled)))
    as (a & l2 & Hm & H2 & <-).
  { eapply Forall_impl; [exact Hops|]. intros op Hop. split; [done|]. by destruct op. }
  exists (l1 ++ l2). split; [by eapply logged_trans|].
  unfold tone_answers. rewrite omap_app. eapply tone_phase_answers. by eapply tone_phase_moves.
Qed.

Lemma tone_request_answered_once_witness :
  let d := report device_default (mkDeviceStatus 1 [97] [98] 3 0 15 false true false) in
  let ops := [DevTakeReport; DevReportPlayback 10 10 10 15 true; DevReportPlayback 20 20 20 15 true; DevPlaybackRequest 9000] in
  dc_reports (device_run (request_tone d 0 7 true) ops) = [ToneState 7 true false; ToneState 7 false true] /\
  exists log, dc_reports (device_run (request_tone d 0 7 true) ops) `suffix_of` dc_reports d ++ log /\
    tone_answers log ∈ answers_to 7 true.
Proof.
  split; [vm_compute; reflexivity|].
  apply (tone_request_answered_once _ 0 7 true
    [DevTakeReport; DevReportPlayback 10 10 10 15 true; DevReportPlayback 20 20 20 15 true; DevPlaybackRequest 9000]).
  - vm_compute. done.
  - repeat constructor.
Defined.

(** Commands reach Kotlin in order and intact: a command queued behind [n]
    others is the ([n]+1)st taken; within two seconds it unpacks to exactly the
    request identifier, operation and value that were queued, later its
    operation is replaced by "expired" (8) under the same identifier, except
    for the clean-up operation 4, which never expires. The queue refuses a 33rd
    command. *)
Theorem command_delivery (d : DeviceControl) (now taken id operation value : Z)
  (Hid : id ∈u 32) (Hop : operation ∈u 8) (Hvalue : value ∈u 16) :
  let n := length (dc_commands d) in
  match enqueue_operation d now id operation value with
  | (d', true) =>
      Z.of_nat n < COMMAND_LIMIT /\
      let '(d'', command) := take_command_at (take_commands d' taken n).1 taken in
      dc_commands d'' = [] /\
      unpack command =
        if negb (operation =? 4) && (now + 2000 <=? taken) then (id, 8, 0) else (id, operation, value)
  | (d', false) => d' = d /\ COMMAND_LIMIT <= Z.of_nat n
  end.
Proof.
  intros n. unfold enqueue_operation. destruct (Z.leb_spec COMMAND_LIMIT (Z.of_nat (length (dc_commands d)))); [done|].
  split; [done|]. rewrite command_packed by done. fold (packed id operation value).
  set (c := mkCommand _ _).
  pose proof (take_commands_drop (with_commands (dc_commands d ++ [c]) d) taken n) as Hdrop.
  destruct (take_commands _ taken n) as [d1 cs]. simpl in *.
  unfold n in Hdrop. rewrite drop_app_length in Hdrop. unfold take_command_at. rewrite Hdrop. split; [done|].
  unfold c. cbn [cm_expires cm_value]. destruct (Z.eqb_spec operation 4) as [->|]; cbn [negb andb].
  - by apply unpack_packed.
  - destruct (now + 2000 <=? taken); [|by apply unpack_packed].
    rewrite command_expired by done. by apply unpack_packed.
Qed.

Lemma command_delivery_witness :
  let d := (enqueue device_default 0 41 None).1 in
  match enqueue_operation d 100 42 6 10 with
  | (d', true) =>
      Z.of_nat 1 < COMMAND_LIMIT /\
      let '(d'', command) := take_command_at (take_commands d' 2100 1).1 2100 in
      dc_commands d'' = [] /\ unpack command = (42, 8, 0)
  | (d', false) => d' = d /\ COMMAND_LIMIT <= Z.of_nat 1
  end.
Proof.
  exact (command_delivery (enqueue device_default 0 41 None).1 100 2100 42 6 10
           ltac:(vm_compute; done) ltac:(vm_compute; done) ltac:(vm_compute; done)).
Defined.
