(* ===== verification/ClientState.v ===== *)
(** * ClientState: what the phone's threads share

    [android/app/src/main/rust/src/state.rs]: connection state, counters, the
    revision that observers wait on, and the device control.  Each function is
    one step; [Condvar::wait_timeout_while] is modelled on the list of
    revisions it saw when it woke. *)

From Stdlib Require Import ZArith Lia.
From S2P Require Import Prelude Wire DeviceControl.

Definition MAX_PENDING_VOLUME_STEPS : Z := 100.

Inductive ClientState : Type := Idle | Connecting | Connected | Disconnected | ClientFailed.

#[export] Instance ClientState_eq_dec : EqDecision ClientState.
Proof. solve_decision. Defined.

Definition as_raw (s : ClientState) : Z :=
  match s with Idle => 0 | Connecting => 1 | Connected => 2 | Disconnected => 3 | ClientFailed => 4 end.
Definition from_raw (value : Z) : ClientState :=
  if value =? 1 then Connecting
  else if value =? 2 then Connected
  else if value =? 3 then Disconnected
  else if value =? 4 then ClientFailed
  else Idle.

Record SharedState : Type := mkShared {
  sh_state : Z;
  sh_audio_active : bool;
  sh_revision : Z;
  sh_received_packets : Z;
  sh_lost_packets : Z;
  sh_late_packets : Z;
  sh_rtt_ms : Z;
  sh_jitter_buffer_ms : Z;
  sh_volume_adjustment : Z;
  sh_device : DeviceControl;
  sh_last_error : rstring;
}.

Definition shared_default : SharedState := mkShared (as_raw Idle) false 0 0 0 0 0 0 0 device_default [].

(** ** Fields *)

Definition put_state (v : Z) (s : SharedState) : SharedState :=
  mkShared v (sh_audio_active s) (sh_revision s) (sh_received_packets s) (sh_lost_packets s) (sh_late_packets s)
    (sh_rtt_ms s) (sh_jitter_buffer_ms s) (sh_volume_adjustment s) (sh_device s) (sh_last_error s).
Definition put_audio (v : bool) (s : SharedState) : SharedState :=
  mkShared (sh_state s) v (sh_revision s) (sh_received_packets s) (sh_lost_packets s) (sh_late_packets s)
    (sh_rtt_ms s) (sh_jitter_buffer_ms s) (sh_volume_adjustment s) (sh_device s) (sh_last_error s).
Definition put_counters (received lost late : Z) (s : SharedState) : SharedState :=
  mkShared (sh_state s) (sh_audio_active s) (sh_revision s) received lost late
    (sh_rtt_ms s) (sh_jitter_buffer_ms s) (sh_volume_adjustment s) (sh_device s) (sh_last_error s).
Definition set_rtt_ms (v : Z) (s : SharedState) : SharedState :=
  mkShared (sh_state s) (sh_audio_active s) (sh_revision s) (sh_received_packets s) (sh_lost_packets s)
    (sh_late_packets s) v (sh_jitter_buffer_ms s) (sh_volume_adjustment s) (sh_device s) (sh_last_error s).
Definition set_jitter_buffer_ms (v : Z) (s : SharedState) : SharedState :=
  mkShared (sh_state s) (sh_audio_active s) (sh_revision s) (sh_received_packets s) (sh_lost_packets s)
    (sh_late_packets s) (sh_rtt_ms s) v (sh_volume_adjustment s) (sh_device s) (sh_last_error s).
Definition put_adjustment (v : Z) (s : SharedState) : SharedState :=
  mkShared (sh_state s) (sh_audio_active s) (sh_revision s) (sh_received_packets s) (sh_lost_packets s)
    (sh_late_packets s) (sh_rtt_ms s) (sh_jitter_buffer_ms s) v (sh_device s) (sh_last_error s).
Definition put_device (v : DeviceControl) (s : SharedState) : SharedState :=
  mkShared (sh_state s) (sh_audio_active s) (sh_revision s) (sh_received_packets s) (sh_lost_packets s)
    (sh_late_packets s) (sh_rtt_ms s) (sh_jitter_buffer_ms s) (sh_volume_adjustment s) v (sh_last_error s).
Definition put_error (v : rstring) (s : SharedState) : SharedState :=
  mkShared (sh_state s) (sh_audio_active s) (sh_revision s) (sh_received_packets s) (sh_lost_packets s)
    (sh_late_packets s) (sh_rtt_ms s) (sh_jitter_buffer_ms s) (sh_volume_adjustment s) (sh_device s) v.

(** ** Operations *)

Definition notify_changed (s : SharedState) : SharedState :=
  mkShared (sh_state s) (sh_audio_active s) (wrapping_add 64 (sh_revision s) 1) (sh_received_packets s)
    (sh_lost_packets s) (sh_late_packets s) (sh_rtt_ms s) (sh_jitter_buffer_ms s) (sh_volume_adjustment s)
    (sh_device s) (sh_last_error s).

Definition set_audio_active (active : bool) (s : SharedState) : SharedState :=
  let previous := sh_audio_active s in
  let s := put_audio active s in
  if negb (eqb previous active) then notify_changed s else s.

Definition take_volume_adjustment (s : SharedState) : SharedState * Z :=
  (put_adjustment 0 s, sh_volume_adjustment s).

(** [steps] is an [i8], the sum saturates in an [i32]. *)
Definition add_volume_adjustment (steps : Z) (s : SharedState) : SharedState :=
  let sum := Z.max (- 2 ^ 31) (Z.min (sh_volume_adjustment s + steps) (2 ^ 31 - 1)) in
  notify_changed
    (put_adjustment (Z.max (- MAX_PENDING_VOLUME_STEPS) (Z.min sum MAX_PENDING_VOLUME_STEPS)) s).

Definition set (state : ClientState) (s : SharedState) : SharedState :=
  let s :=
    if negb (bool_decide (state = Connected)) then
      let s := set_audio_active false s in
      let s := (take_volume_adjustment s).1 in
      put_device (reset (sh_device s)) s
    else s in
  let previous := sh_state s in
  let s := put_state (as_raw state) s in
  if negb (previous =? as_raw state) then notify_changed s else s.

Definition state (s : SharedState) : ClientState := from_raw (sh_state s).

Definition begin_connecting (s : SharedState) : SharedState :=
  let s := put_counters 0 0 0 s in
  let s := set_rtt_ms 0 s in
  let s := set_jitter_buffer_ms 0 s in
  let s := (take_volume_adjustment s).1 in
  let s := put_error [] s in
  set Connecting s.

Definition set_error (error : rstring) (s : SharedState) : SharedState := set ClientFailed (put_error error s).

Definition add_received (s : SharedState) : SharedState :=
  put_counters (wrapping_add 64 (sh_received_packets s) 1) (sh_lost_packets s) (sh_late_packets s) s.
Definition add_lost (count : Z) (s : SharedState) : SharedState :=
  put_counters (sh_received_packets s) (wrapping_add 64 (sh_lost_packets s) count) (sh_late_packets s) s.
Definition add_late (count : Z) (s : SharedState) : SharedState :=
  put_counters (sh_received_packets s) (sh_lost_packets s) (wrapping_add 64 (sh_late_packets s) count) s.

(** [wait_for_update]: the revision when it is called, then at each wake-up;
    it ends at the first that differs, or with the last when 30 s are over. *)
Fixpoint wait_for_update (previous revision : Z) (wakeups : list Z) : Z :=
  if negb (revision =? previous) then revision
  else match wakeups with [] => revision | r :: wakeups => wait_for_update previous r wakeups end.

(** ** Histories *)

Inductive state_op : Type :=
| StBeginConnecting
| StSet (state : ClientState)
| StAudio (active : bool)
| StError (error : rstring)
| StReceived
| StLost (count : Z)
| StLate (count : Z)
| StRtt (v : Z)
| StJitter (v : Z)
| StAdjust (steps : Z)
| StTakeAdjust
| StNotify
| StDevice (device : DeviceControl).

Definition state_step (s : SharedState) (op : state_op) : SharedState :=
  match op with
  | StBeginConnecting => begin_connecting s
  | StSet state => set state s
  | StAudio active => set_audio_active active s
  | StError error => set_error error s
  | StReceived => add_received s
  | StLost count => add_lost count s
  | StLate count => add_late count s
  | StRtt v => set_rtt_ms v s
  | StJitter v => set_jitter_buffer_ms v s
  | StAdjust steps => add_volume_adjustment steps s
  | StTakeAdjust => (take_volume_adjustment s).1
  | StNotify => notify_changed s
  | StDevice device => put_device device s
  end.

Definition state_run : SharedState -> list state_op -> SharedState := foldl state_step.

(** What observers look at. *)
Definition observed (s : SharedState) : Z * bool := (sh_state s, sh_audio_active s).

(** [n] notifications lie between the two states, and none only if nothing
    observable changed. *)
Definition signalled (n : Z) (s s' : SharedState) : Prop :=
  0 <= n /\ sh_revision s' = wrap 64 (sh_revision s + n) /\ (n = 0 -> observed s' = observed s).

Lemma signalled_none s s' :
  sh_revision s ∈u 64 -> sh_revision s' = sh_revision s -> observed s' = observed s -> signalled 0 s s'.
Proof. intros Hr H1 H2. split_and!; [lia| |done]. by rewrite H1, Z.add_0_r, wrap_small. Qed.

Lemma signalled_trans a b s1 s2 s3 : signalled a s1 s2 -> signalled b s2 s3 -> signalled (a + b) s1 s3.
Proof.
  intros (A1 & A2 & A3) (B1 & B2 & B3). split_and!; [lia| |].
  - rewrite B2, A2, wrap_add_l. f_equal. lia.
  - intros H. rewrite B3, A3 by lia. done.
Qed.

(** Assigning anything and notifying. *)
Lemma signalled_notify s s' : sh_revision s' = sh_revision s -> signalled 1 s (notify_changed s').
Proof. intros H. split_and!; [lia| |lia]. simpl. unfold wrapping_add. by rewrite H. Qed.

Definition bounded_adjustment (s : SharedState) : Prop :=
  Z.abs (sh_volume_adjustment s) <= MAX_PENDING_VOLUME_STEPS.

Lemma audio_signalled active s :
  sh_revision s ∈u 64 -> exists n, n <= 1 /\ signalled n s (set_audio_active active s).
Proof.
  intros Hr. unfold set_audio_active. destruct (eqb (sh_audio_active s) active) eqn:He; cbn [negb].
  - apply eqb_prop in He. exists 0. split; [lia|]. apply signalled_none; try done. unfold observed. simpl. by rewrite He.
  - exists 1. split; [lia|]. by apply signalled_notify.
Qed.

Lemma signalled_range n s s' : signalled n s s' -> sh_revision s' ∈u 64.
Proof. intros (_ & -> & _). apply wrap_range. lia. Qed.

Lemma set_signalled state s :
  sh_revision s ∈u 64 -> exists n, n <= 2 /\ signalled n s (set state s).
Proof.
  intros Hr. unfold set. set (s1 := if negb _ then _ else s).
  assert (exists n, n <= 1 /\ signalled n s s1) as (n & Hn & H1).
  { unfold s1. destruct (negb _); [|exists 0; split; [lia|by apply signalled_none]].
    destruct (audio_signalled false s Hr) as (n & Hn & Hs). exists n. done. }
  pose proof (signalled_range _ _ _ H1) as Hr1. clearbody s1.
  destruct (Z.eqb_spec (sh_state s1) (as_raw state)) as [He|He]; cbn [negb].
  - exists (n + 0). split; [lia|]. eapply signalled_trans; [exact H1|].
    apply signalled_none; try done. unfold observed. simpl. by rewrite He.
  - exists (n + 1). split; [lia|]. eapply signalled_trans; [exact H1|]. by apply signalled_notify.
Qed.

Lemma step_signalled op s : sh_revision s ∈u 64 -> exists n, n <= 2 /\ signalled n s (state_step s op).
Proof.
  intros Hr.
  assert (forall state s1, sh_revision s1 = sh_revision s -> observed s1 = observed s ->
    exists n, n <= 2 /\ signalled n s (set state s1)) as Hquiet.
  { intros state s1 H1 H2. destruct (set_signalled state s1) as (n & Hn & Hs); [by rewrite H1|].
    exists (0 + n). split; [lia|]. eapply signalled_trans; [|exact Hs]. by apply signalled_none. }
  destruct op; cbn [state_step];
    try (exists 0; split; [lia|]; by apply signalled_none);
    try (exists 1; split; [lia|]; by apply signalled_notify).
  - by apply Hquiet.
  - by apply set_signalled.
  - destruct (audio_signalled active s Hr) as (n & Hn & H). exists n. split; [lia|done].
  - by apply Hquiet.
Qed.

Lemma run_signalled ops s :
  sh_revision s ∈u 64 -> exists n, n <= 2 * Z.of_nat (length ops) /\ signalled n s (state_run s ops).
Proof.
  revert s. induction ops as [|op ops IH]; intros s Hr.
  - exists 0. split; [done|]. by apply signalled_none.
  - destruct (step_signalled op s Hr) as (a & Ha & H1).
    destruct (IH _ (signalled_range _ _ _ H1)) as (b & Hb & H2).
    exists (a + b). split; [simpl length; lia|]. by eapply signalled_trans.
Qed.

Lemma wrapping_step_ne v n : v ∈u 64 -> 0 < n < 2 ^ 64 -> wrap 64 (v + n) <> v.
Proof.
  unfold in_uint, wrap. intros Hv Hn He. destruct (Z.lt_ge_cases (v + n) (2 ^ 64)).
  - rewrite Z.mod_small in He by lia. lia.
  - replace (v + n) with (v + n - 2 ^ 64 + 1 * 2 ^ 64) in He by lia. rewrite Z.mod_add, Z.mod_small in He by lia. lia.
Qed.

Lemma adjustment_step op s : bounded_adjustment s -> bounded_adjustment (state_step s op).
Proof.
  unfold bounded_adjustment, MAX_PENDING_VOLUME_STEPS. intros Hs.
  destruct op; simpl; try done; unfold set_error, begin_connecting, set, set_audio_active;
    repeat (case_match; simpl); try done. unfold MAX_PENDING_VOLUME_STEPS. lia.
Qed.

(** ** Properties *)

(** Observers cannot miss a change. Whatever calls are made (fewer than
    2^62 of them), if the connection state or the audio flag is different
    afterwards, the revision is different too, so that a wait that still holds
    the old revision returns at once with the new one. *)
Theorem changes_are_signalled (s : SharedState) (ops : list state_op) (wakeups : list Z)
  (Hrevision : sh_revision s ∈u 64) (Hops : Z.of_nat (length ops) < 2 ^ 62)
  (Hchanged : observed (state_run s ops) <> observed s) :
  sh_revision (state_run s ops) <> sh_revision s /\
  wait_for_update (sh_revision s) (sh_revision (state_run s ops)) wakeups = sh_revision (state_run s ops).
Proof.
  destruct (run_signalled ops s Hrevision) as (n & Hn & H0 & Hrev & Hsame).
  assert (n <> 0) as Hne by (intros ->; by apply Hchanged, Hsame).
  assert (sh_revision (state_run s ops) <> sh_revision s) as Hdiff.
  { rewrite Hrev. apply wrapping_step_ne; [done|lia]. }
  split; [done|]. apply Z.eqb_neq in Hdiff. destruct wakeups; simpl; by rewrite Hdiff.
Qed.

Lemma changes_are_signalled_witness :
  let ops := [StSet Connected; StAudio true; StLost 3] in
  sh_revision (state_run shared_default ops) <> sh_revision shared_default /\
  wait_for_update 0 (sh_revision (state_run shared_default ops)) [] = 2.
Proof.
  apply (changes_are_signalled shared_default [StSet Connected; StAudio true; StLost 3] []);
    vm_compute; try done.
Defined.

(** Leaving a session forgets it: in every state but "connected" no audio
    is flagged, no volume steps are pending, and the device control is as new:
    no command, report or tone of the old session survives. At any time the
    pending volume steps stay within 100. *)
Theorem leaving_forgets_the_session (s : SharedState) (state : ClientState) (ops : list state_op)
  (Hleft : state <> Connected) (Hbounded : bounded_adjustment s) :
  let s' := set state s in
  sh_audio_active s' = false /\ sh_volume_adjustment s' = 0 /\ sh_device s' = device_default /\
  ClientState.state s' = state /\ bounded_adjustment (state_run s ops).
Proof.
  assert (bounded_adjustment (state_run s ops)) as Hb.
  { clear Hleft. revert s Hbounded. induction ops as [|op ops IH]; intros s Hs; [done|]. simpl. by apply IH, adjustment_step. }
  simpl. unfold set. rewrite bool_decide_eq_false_2 by done. cbn [negb].
  assert (from_raw (as_raw state) = state) as Hraw by (by destruct state).
  unfold set_audio_active. destruct (eqb _ _); cbn [negb]; (destruct (_ =? _); cbn [negb]; by split_and!).
Qed.

Lemma leaving_forgets_the_session_witness :
  let s := state_run shared_default [StSet Connected; StAudio true; StAdjust 3] in
  let s' := set Disconnected s in
  sh_audio_active s' = false /\ sh_volume_adjustment s' = 0 /\ sh_device s' = device_default /\
  ClientState.state s' = Disconnected /\ bounded_adjustment (state_run s [StAdjust 120]).
Proof.
  apply (leaving_forgets_the_session _ Disconnected [StAdjust 120]); [done|]. vm_compute. done.
Defined.
