(* ===== verification/Receiver.v ===== *)
(** * Receiver: from datagrams to the PCM ring

    [android/app/src/main/rust/src/receiver.rs].  The pipeline owns the jitter
    buffer; the ring and the shared state belong to several threads and are
    passed in and out. *)

From Stdlib Require Import ZArith Lia.
From S2P Require Import Prelude Wire BTree Jitter Ring DeviceControl ClientState.

Definition INITIAL_JITTER_BUFFER_MS : Z := 20.
Definition JITTER_BUFFER_STEP_MS : Z := 10.
Definition ADAPTATION_COOLDOWN_MS : Z := 1000.

(** The errors of [error.rs], without their texts. *)
Inductive ClientError : Type :=
| AddressInvalid
| EndpointFailed
| TransportFailed
| UnsupportedStream
| RuntimeFailed.

Record ReceiverPipeline : Type := mkPipeline {
  rp_jitter : JitterBuffer;
  rp_expected_packet_bytes : Z;
  rp_samples_per_packet : Z;
  rp_frame_duration_ms : Z;
  rp_adjustment_packets : Z;
  rp_maximum_target_packets : Z;
  rp_adaptation_cooldown_packets : Z;
  rp_cooldown_after_adjustment_packets : Z;
  rp_last_underruns : Z;
}.

Definition with_jitter (j : JitterBuffer) (p : ReceiverPipeline) : ReceiverPipeline :=
  mkPipeline j (rp_expected_packet_bytes p) (rp_samples_per_packet p) (rp_frame_duration_ms p)
    (rp_adjustment_packets p) (rp_maximum_target_packets p) (rp_adaptation_cooldown_packets p)
    (rp_cooldown_after_adjustment_packets p) (rp_last_underruns p).
Definition with_cooldown (n : Z) (p : ReceiverPipeline) : ReceiverPipeline :=
  mkPipeline (rp_jitter p) (rp_expected_packet_bytes p) (rp_samples_per_packet p) (rp_frame_duration_ms p)
    (rp_adjustment_packets p) (rp_maximum_target_packets p) n
    (rp_cooldown_after_adjustment_packets p) (rp_last_underruns p).
Definition with_last_underruns (n : Z) (p : ReceiverPipeline) : ReceiverPipeline :=
  mkPipeline (rp_jitter p) (rp_expected_packet_bytes p) (rp_samples_per_packet p) (rp_frame_duration_ms p)
    (rp_adjustment_packets p) (rp_maximum_target_packets p) (rp_adaptation_cooldown_packets p)
    (rp_cooldown_after_adjustment_packets p) n.

(** [div_ceil] rounds up. *)
Definition packets_for_duration (duration_ms frame_duration_ms : Z) : result ClientError Z :=
  if frame_duration_ms =? 0 then Err UnsupportedStream
  else Ok (Z.max (div_ceil duration_ms frame_duration_ms) 1).

Definition pipeline_new (stream : StreamInfo) (ring : PcmRing) (shared : SharedState)
  : result ClientError (ReceiverPipeline * PcmRing * SharedState) :=
  let frame := si_frame_duration_ms stream in
  if negb (si_sample_rate stream =? SAMPLE_RATE) || negb (si_channels stream =? CHANNELS)
     || negb (bool_decide (si_sample_format stream = I16Le)) || (frame =? 0)
  then Err UnsupportedStream
  else
    let samples_per_channel := SAMPLE_RATE * frame in
    if uint_max 64 <? samples_per_channel then Err UnsupportedStream
    else if negb (samples_per_channel mod 1000 =? 0) then Err UnsupportedStream
    else
      let samples_per_packet := samples_per_channel / 1000 * CHANNELS in
      let expected_packet_bytes := samples_per_packet * 2 in
      target_packets ← packets_for_duration INITIAL_JITTER_BUFFER_MS frame;
      adjustment_packets ← packets_for_duration JITTER_BUFFER_STEP_MS frame;
      maximum_target_packets ← packets_for_duration MAX_JITTER_BUFFER_MS frame;
      cooldown ← packets_for_duration ADAPTATION_COOLDOWN_MS frame;
      let shared := set_jitter_buffer_ms (frame * target_packets) shared in
      let ring := begin_buffering (set_playback_target ring (target_packets * samples_per_packet)) in
      Ok (mkPipeline (jb_new target_packets) expected_packet_bytes samples_per_packet frame
            adjustment_packets maximum_target_packets cooldown cooldown (rg_underruns ring), ring, shared).

Definition resume (p : ReceiverPipeline) (ring : PcmRing) (next_sequence : Z) : ReceiverPipeline * PcmRing :=
  let p := with_jitter (restart (rp_jitter p) next_sequence) p in
  let ring := begin_buffering (clear ring) in
  (with_cooldown (rp_cooldown_after_adjustment_packets p) (with_last_underruns (rg_underruns ring) p), ring).

(** What one jitter output does to the ring. *)
Definition write_output (samples_per_packet : Z) (ring : PcmRing) (output : JitterOutput) : PcmRing :=
  match output with
  | Audio packet => write_pcm_le ring (ap_payload packet)
  | Silence => write_silence ring samples_per_packet
  end.

Definition adjust_jitter_after_stutter (p : ReceiverPipeline) (ring : PcmRing) (shared : SharedState)
    (stutter_detected : bool) : ReceiverPipeline * PcmRing * SharedState :=
  if 0 <? rp_adaptation_cooldown_packets p
  then (with_cooldown (rp_adaptation_cooldown_packets p - 1) p, ring, shared)
  else if stutter_detected && jb_started (rp_jitter p) then
    let '(j, increased) :=
      increase_target (rp_jitter p) (rp_adjustment_packets p) (rp_maximum_target_packets p) in
    let p := with_jitter j p in
    if increased : bool then
      (with_cooldown (rp_cooldown_after_adjustment_packets p) p,
       set_playback_target ring (jb_target_packets j * rp_samples_per_packet p),
       set_jitter_buffer_ms (rp_frame_duration_ms p * jb_target_packets j) shared)
    else (p, ring, shared)
  else (p, ring, shared).

(** [None]: the loop of the jitter buffer ran out of fuel, which it never does
    ([handle_packet_total]). *)
Definition handle_packet (p : ReceiverPipeline) (ring : PcmRing) (shared : SharedState) (packet : AudioPacket)
  : option (ReceiverPipeline * PcmRing * SharedState * bool) :=
  let shared := add_received shared in
  if negb (Z.of_nat (length (ap_payload packet)) =? rp_expected_packet_bytes p)
  then Some (p, ring, shared, false)
  else
    let underruns := rg_underruns ring in
    let underrun_detected := rp_last_underruns p <? underruns in
    let p := with_last_underruns underruns p in
    let lost_before := jb_lost_packets (rp_jitter p) in
    let late_before := jb_late_packets (rp_jitter p) in
    '(j, outputs) ← push (rp_jitter p) packet;
    let p := with_jitter j p in
    let ring := foldl (write_output (rp_samples_per_packet p)) ring outputs in
    let shared := add_lost (saturating_sub (jb_lost_packets j) lost_before) shared in
    let late_packets := jb_late_packets j in
    let shared := add_late (saturating_sub late_packets late_before) shared in
    let '(p, ring, shared) :=
      adjust_jitter_after_stutter p ring shared (underrun_detected || (late_before <? late_packets)) in
    Some (p, ring, shared, true).

Fixpoint handle_packets (p : ReceiverPipeline) (ring : PcmRing) (shared : SharedState) (arrivals : list AudioPacket)
  : option (ReceiverPipeline * PcmRing * SharedState) :=
  match arrivals with
  | [] => Some (p, ring, shared)
  | packet :: arrivals' =>
      '(p, ring, shared, _) ← handle_packet p ring shared packet;
      handle_packets p ring shared arrivals'
  end.

(** ** The state of a receiving phone *)

Record pipeline_wf (p : ReceiverPipeline) (ring : PcmRing) (shared : SharedState) : Prop := {
  pw_jitter : jb_wf (rp_jitter p);
  pw_bounded : jb_bounded (rp_jitter p);
  pw_ring : ring_wf ring;
  pw_frame : 1 <= rp_frame_duration_ms p <= 255;
  pw_samples : rp_samples_per_packet p = SAMPLE_RATE * rp_frame_duration_ms p / 1000 * CHANNELS;
  pw_bytes : rp_expected_packet_bytes p = rp_samples_per_packet p * 2;
  pw_step : 1 <= rp_adjustment_packets p <= uint_max 64;
  pw_maximum : rp_maximum_target_packets p = Z.max (div_ceil MAX_JITTER_BUFFER_MS (rp_frame_duration_ms p)) 1;
  pw_target : jb_target_packets (rp_jitter p) <= rp_maximum_target_packets p;
  pw_cooldown : 0 <= rp_adaptation_cooldown_packets p <= rp_cooldown_after_adjustment_packets p;
  pw_shown : sh_jitter_buffer_ms shared = rp_frame_duration_ms p * jb_target_packets (rp_jitter p);
  pw_playback : rg_playback_target ring =
    Z.min (jb_target_packets (rp_jitter p) * rp_samples_per_packet p) (rg_capacity ring);
  pw_second : rp_cooldown_after_adjustment_packets p =
    Z.max (div_ceil ADAPTATION_COOLDOWN_MS (rp_frame_duration_ms p)) 1;
  pw_late : jb_late_packets (rp_jitter p) <= uint_max 64;
}.

Lemma div_ceil_bounds n d : 0 < d -> 0 < n -> n <= d * div_ceil n d <= n + d - 1 /\ 1 <= div_ceil n d <= n.
Proof.
  intros Hd Hn. unfold div_ceil. pose proof (Z.div_mod (n + d - 1) d ltac:(lia)) as H.
  pose proof (Z.mod_pos_bound (n + d - 1) d Hd). split; [lia|]. split; [apply Z.div_le_lower_bound; lia|].
  apply Z.div_le_upper_bound; nia.
Qed.

Lemma aligned frame : (SAMPLE_RATE * frame) mod 1000 = 0.
Proof. change SAMPLE_RATE with (48 * 1000). replace (48 * 1000 * frame) with (48 * frame * 1000) by lia. apply Z.mod_mul. lia. Qed.

(** [pipeline_new] on the one format it takes. *)
Lemma pipeline_new_ok frame ring shared :
  1 <= frame <= 255 -> ring_wf ring ->
  exists p ring' shared',
    pipeline_new (mkStreamInfo SAMPLE_RATE CHANNELS I16Le frame) ring shared = Ok (p, ring', shared') /\
    rp_frame_duration_ms p = frame /\ rp_jitter p = jb_new (Z.max (div_ceil INITIAL_JITTER_BUFFER_MS frame) 1) /\
    rg_capacity ring' = rg_capacity ring /\ rg_queue ring' = rg_queue ring /\ rp_last_underruns p = rg_underruns ring' /\
    pipeline_wf p ring' shared'.
Proof.
  intros Hf Hring. unfold pipeline_new. cbn [si_sample_rate si_channels si_sample_format si_frame_duration_ms].
  rewrite !Z.eqb_refl, bool_decide_eq_true_2 by done. cbn [negb orb].
  destruct (Z.eqb_spec frame 0); [lia|]. rewrite aligned.
  assert ((uint_max 64 <? SAMPLE_RATE * frame) = false) as ->.
  { apply Z.ltb_ge. unfold uint_max, SAMPLE_RATE. lia. }
  cbn [Z.eqb negb]. unfold packets_for_duration. assert ((frame =? 0) = false) as -> by (by apply Z.eqb_neq). cbn.
  eexists _, _, _. split; [reflexivity|]. cbn. split_and!; [done..|].
  pose proof (div_ceil_bounds INITIAL_JITTER_BUFFER_MS frame) as H1.
  pose proof (div_ceil_bounds JITTER_BUFFER_STEP_MS frame) as H2.
  pose proof (div_ceil_bounds MAX_JITTER_BUFFER_MS frame) as H3.
  pose proof (div_ceil_bounds ADAPTATION_COOLDOWN_MS frame) as H4.
  unfold INITIAL_JITTER_BUFFER_MS, JITTER_BUFFER_STEP_MS, MAX_JITTER_BUFFER_MS, ADAPTATION_COOLDOWN_MS in *.
  specialize (H1 ltac:(lia) ltac:(lia)). specialize (H2 ltac:(lia) ltac:(lia)).
  specialize (H3 ltac:(lia) ltac:(lia)). specialize (H4 ltac:(lia) ltac:(lia)).
  assert (div_ceil 20 frame <= div_ceil 100 frame) as Hle.
  { unfold div_ceil. apply Z.div_le_mono; lia. }
  destruct (jb_wf_new (Z.max (div_ceil 20 frame) 1)) as [Hjw Hjb]; [unfold uint_max; lia|].
  assert (jb_target_packets (jb_new (Z.max (div_ceil 20 frame) 1)) = Z.max (div_ceil 20 frame) 1) as Ht by (simpl; lia).
  split; cbn; try done; try lia; unfold uint_max; lia.
Qed.

(** *** Writing to the ring *)

Lemma write_output_wf n ring o : ring_wf ring -> ring_wf (write_output n ring o).
Proof. intros Hr. destruct o; [unfold write_output, write_pcm_le|unfold write_output, write_silence]; by apply push_all_wf. Qed.

(** The samples an output stands for. *)
Definition output_samples (samples_per_packet : Z) (o : JitterOutput) : list Z :=
  match o with
  | Audio packet => samples_of (ap_payload packet)
  | Silence => replicate (Z.to_nat samples_per_packet) 0
  end.

Lemma write_outputs n outs ring :
  ring_wf ring ->
  foldl (write_output n) ring outs =
    with_queue (lastn (Z.to_nat (rg_capacity ring)) (rg_queue ring ++ (outs ≫= output_samples n))) ring.
Proof.
  revert ring. induction outs as [|o outs IH]; intros ring Hr; simpl.
  - rewrite app_nil_r, lastn_all; [by destruct ring|]. destruct Hr. unfold rg_len in *. lia.
  - assert (write_output n ring o =
      with_queue (lastn (Z.to_nat (rg_capacity ring)) (rg_queue ring ++ output_samples n o)) ring) as Ho.
    { destruct o; by apply push_all_latest. }
    rewrite IH by (by apply write_output_wf). rewrite Ho. unfold with_queue. simpl. f_equal.
    by rewrite lastn_lastn_app, app_assoc.
Qed.

Lemma write_outputs_wf n outs ring : ring_wf ring -> ring_wf (foldl (write_output n) ring outs).
Proof. intros Hr. rewrite write_outputs by done. apply with_queue_wf; [done|]. rewrite length_lastn. lia. Qed.

(** *** One packet *)

Lemma increase_target_config j a m j' :
  m <= uint_max 64 -> increase_target j a m = (j', true) ->
  jb_target_packets j < jb_target_packets j' <= Z.max m 1.
Proof.
  intros Hm. unfold increase_target. destruct (Z.leb_spec (Z.max m 1) (jb_target_packets j)); [done|].
  intros [= <-]. simpl. unfold saturating_add. assert (1 <= uint_max 64) by done. lia.
Qed.

Lemma push_late j packet j' out :
  jb_wf j -> jb_bounded j -> ap_sequence packet ∈u 32 -> push j packet = Some (j', out) ->
  jb_late_packets j <= uint_max 64 ->
  jb_late_packets j <= jb_late_packets j' <= uint_max 64 /\ jb_wf j' /\ jb_bounded j'.
Proof.
  intros Hwf Hb Hseq Hpush Hlate. destruct (push_spec j packet Hwf Hb Hseq)
    as (j1 & o1 & adv & Hp & Hw & Hb' & _ & _ & _ & _ & _ & _ & Hcase). rewrite Hpush in Hp. injection Hp as <- <-.
  split; [|done]. destruct (bt_contains_key _ _); [destruct Hcase as (_ & _ & ->); lia|].
  destruct (sequence_is_before _ _); [destruct Hcase as (_ & _ & ->)|destruct Hcase as (_ & ->); lia].
  unfold saturating_add. lia.
Qed.

Lemma handle_packet_wf p ring shared packet :
  pipeline_wf p ring shared -> ap_sequence packet ∈u 32 ->
  exists p' ring' shared' handled,
    handle_packet p ring shared packet = Some (p', ring', shared', handled) /\
    pipeline_wf p' ring' shared' /\ rp_frame_duration_ms p' = rp_frame_duration_ms p /\
    rp_cooldown_after_adjustment_packets p' = rp_cooldown_after_adjustment_packets p /\
    jb_target_packets (rp_jitter p) <= jb_target_packets (rp_jitter p') /\
    handled = (Z.of_nat (length (ap_payload packet)) =? rp_expected_packet_bytes p).
Proof.
  intros [H1 H2 H3 H4 H5 H6 H7 H8 H9 H10 H11 H12 H13 H14] Hseq. unfold handle_packet.
  destruct (Z.of_nat (length (ap_payload packet)) =? rp_expected_packet_bytes p); cbn [negb].
  2: { eexists _, _, _, _. split; [reflexivity|]. split_and!; try done. }
  cbn [rp_jitter with_last_underruns].
  destruct (push_spec (rp_jitter p) packet H1 H2 Hseq)
    as (j & out & adv & Hpush & Hwf & Hb & _ & _ & _ & _ & _ & Ht & _).
  destruct (push_late _ _ _ _ H1 H2 Hseq Hpush H14) as ([_ Hlate] & _). rewrite Hpush. cbn -[write_output].
  set (ring1 := foldl _ ring out).
  assert (ring_wf ring1) as Hr1 by by apply write_outputs_wf.
  assert (rg_capacity ring1 = rg_capacity ring /\ rg_playback_target ring1 = rg_playback_target ring) as [Hc1 Hp1]
    by (unfold ring1; by rewrite write_outputs).
  clearbody ring1. unfold adjust_jitter_after_stutter. cbn [rp_adaptation_cooldown_packets with_jitter with_last_underruns rp_jitter rp_adjustment_packets rp_maximum_target_packets rp_samples_per_packet rp_frame_duration_ms rp_cooldown_after_adjustment_packets].
  destruct (Z.ltb_spec 0 (rp_adaptation_cooldown_packets p)) as [Hcd|Hcd].
  - eexists _, _, _, _. split; [reflexivity|]. split_and!; try done; [|cbn; lia].
    split; cbn; try done; try lia; rewrite ?Hp1, ?Hc1, ?Ht; try done; try lia.
  - destruct (_ && jb_started j).
    2: { eexists _, _, _, _. split; [reflexivity|]. split_and!; try done; [|cbn; lia].
         split; cbn; try done; try lia; rewrite ?Hp1, ?Hc1, ?Ht; try done; try lia. }
    pose proof (jb_wf_increase_target j (rp_adjustment_packets p) (rp_maximum_target_packets p) Hwf Hb) as Hinc.
    pose proof (wf_target _ H1) as Htgt.
    assert (rp_maximum_target_packets p <= uint_max 64) as Hmax64.
    { rewrite H8. pose proof (div_ceil_bounds MAX_JITTER_BUFFER_MS (rp_frame_duration_ms p)) as Hd.
      unfold MAX_JITTER_BUFFER_MS in *. specialize (Hd ltac:(lia) ltac:(lia)). unfold uint_max. lia. }
    destruct Hinc as [Hjw Hjb]; [lia|done|].
    destruct (increase_target j _ _) as [j2 inc] eqn:Hi. cbn [fst] in *. destruct inc.
    + assert (jb_late_packets j2 = jb_late_packets j) as Hl2
        by (revert Hi; unfold increase_target; case_match; [done|by intros [= <-]]).
      apply increase_target_config in Hi; [|done].
      eexists _, _, _, _. split; [reflexivity|]. split_and!; try done; [|cbn; lia].
      split; cbn; try done; try lia; rewrite ?Hc1, ?Hl2; done.
    + assert (j2 = j) as ->.
      { revert Hi. unfold increase_target. case_match; [by intros [= <-]|done]. }
      eexists _, _, _, _. split; [reflexivity|]. split_and!; try done; [|cbn; lia].
      split; cbn; try done; try lia; rewrite ?Hp1, ?Hc1, ?Ht; try done; try lia.
Qed.

(** *** A receiving session: packets, resumptions, and the audio writer's reads *)

Inductive receiver_event : Type :=
| RcvPacket (packet : AudioPacket)
| RcvResume (next_sequence : Z)
| RcvRead (n : nat)
| RcvClear.

Definition receiver_step (p : ReceiverPipeline) (ring : PcmRing) (shared : SharedState) (ev : receiver_event)
  : option (ReceiverPipeline * PcmRing * SharedState) :=
  match ev with
  | RcvPacket packet => '(p, ring, shared, _) ← handle_packet p ring shared packet; Some (p, ring, shared)
  | RcvResume next_sequence => let '(p, ring) := resume p ring next_sequence in Some (p, ring, shared)
  | RcvRead n => Some (p, (read_into ring n).1.1, shared)
  | RcvClear => Some (p, clear ring, shared)
  end.

Fixpoint receiver_run (p : ReceiverPipeline) (ring : PcmRing) (shared : SharedState) (evs : list receiver_event)
  : option (ReceiverPipeline * PcmRing * SharedState) :=
  match evs with
  | [] => Some (p, ring, shared)
  | ev :: evs' => '(p, ring, shared) ← receiver_step p ring shared ev; receiver_run p ring shared evs'
  end.

Definition receiver_event_ok (ev : receiver_event) : Prop :=
  match ev with
  | RcvPacket packet => ap_sequence packet ∈u 32
  | RcvResume next_sequence => next_sequence ∈u 32
  | _ => True
  end.

Lemma pipeline_wf_ring p ring ring' shared :
  pipeline_wf p ring shared -> ring_wf ring' -> rg_capacity ring' = rg_capacity ring ->
  rg_playback_target ring' = rg_playback_target ring -> pipeline_wf p ring' shared.
Proof. intros [H1 H2 H3 H4 H5 H6 H7 H8 H9 H10 H11 H12 H13 H14] Hr Hc Hp. split; try done. by rewrite Hp, Hc. Qed.

Lemma read_into_frame ring n :
  ring_wf ring -> ring_wf (read_into ring n).1.1 /\ rg_capacity (read_into ring n).1.1 = rg_capacity ring /\
  rg_playback_target (read_into ring n).1.1 = rg_playback_target ring.
Proof.
  intros Hr. unfold read_into. destruct (rg_buffering ring && _); [done|]. rewrite pop_into_spec.
  destruct Hr as [Hc Hl]. unfold finish_read, ring_wf, rg_len in *.
  destruct (negb _); [destruct (0 <? _)|]; simpl; rewrite length_drop; split_and!; done || lia.
Qed.

Lemma receiver_step_wf p ring shared ev :
  pipeline_wf p ring shared -> receiver_event_ok ev ->
  exists p' ring' shared', receiver_step p ring shared ev = Some (p', ring', shared') /\
    pipeline_wf p' ring' shared' /\ rp_frame_duration_ms p' = rp_frame_duration_ms p /\
    jb_target_packets (rp_jitter p) <= jb_target_packets (rp_jitter p').
Proof.
  intros Hwf Hev. destruct ev as [packet|next| n|]; simpl in *.
  - destruct (handle_packet_wf _ _ _ _ Hwf Hev) as (p' & r' & s' & h & -> & H1 & H2 & _ & H3 & _).
    exists p', r', s'. done.
  - eexists _, _, _. split; [reflexivity|]. split_and!; try done.
    pose proof (jb_wf_restart _ next (pw_jitter _ _ _ Hwf) Hev) as [Hw Hb].
    destruct Hwf as [H1 H2 H3 H4 H5 H6 H7 H8 H9 H10 H11 H12 H13 H14]. split; cbn; try done; try lia.
    destruct H3. split; [done|]. unfold rg_len. simpl. lia.
  - destruct (read_into_frame ring n (pw_ring _ _ _ Hwf)) as (H1 & H2 & H3).
    eexists _, _, _. split; [reflexivity|]. split_and!; [by eapply pipeline_wf_ring|done..].
  - eexists _, _, _. split; [reflexivity|]. split_and!; [|done..]. eapply pipeline_wf_ring; [done| |done..].
    destruct (pw_ring _ _ _ Hwf). split; [done|]. unfold rg_len. simpl. lia.
Qed.

Lemma receiver_run_wf evs p ring shared :
  pipeline_wf p ring shared -> Forall receiver_event_ok evs ->
  exists p' ring' shared', receiver_run p ring shared evs = Some (p', ring', shared') /\
    pipeline_wf p' ring' shared' /\ rp_frame_duration_ms p' = rp_frame_duration_ms p /\
    jb_target_packets (rp_jitter p) <= jb_target_packets (rp_jitter p').
Proof.
  intros Hwf Hevs. revert p ring shared Hwf. induction Hevs as [|ev evs Hev _ IH]; intros p ring shared Hwf.
  - by exists p, ring, shared.
  - destruct (receiver_step_wf _ _ _ _ Hwf Hev) as (p1 & r1 & s1 & Hstep & Hw & Hf & Ht).
    destruct (IH _ _ _ Hw) as (p2 & r2 & s2 & Hrun & Hw2 & Hf2 & Ht2).
    exists p2, r2, s2. cbn [receiver_run]. rewrite Hstep. simpl. split_and!; [done|done|congruence|lia].
Qed.

(** *** A stream that arrives without stutter *)

Lemma push_all_late arrivals j j' out :
  jb_wf j -> jb_bounded j -> Forall (fun a => ap_sequence a ∈u 32) arrivals -> push_all j arrivals = Some (j', out) ->
  jb_late_packets j <= uint_max 64 -> jb_late_packets j <= jb_late_packets j'.
Proof.
  intros Hwf Hb Hseq. revert j Hwf Hb out. induction Hseq as [|a arrivals Ha _ IH]; intros j Hwf Hb out; simpl.
  - intros [= <- <-]. done.
  - destruct (push j a) as [[j1 o1]|] eqn:Hp; [|done]. simpl.
    destruct (push_all j1 arrivals) as [[j2 o2]|] eqn:Hps; [|done]. simpl. intros [= -> <-] Hl.
    destruct (push_late _ _ _ _ Hwf Hb Ha Hp Hl) as ([] & Hw1 & Hb1).
    pose proof (IH _ Hw1 Hb1 _ Hps ltac:(lia)). lia.
Qed.

(** Packets of the right size that make nobody stutter pass through the jitter
    buffer into the ring, and no adaptation happens. *)
Lemma handle_packets_smooth arrivals p ring shared j' outs :
  jb_wf (rp_jitter p) -> jb_bounded (rp_jitter p) -> ring_wf ring -> rp_last_underruns p = rg_underruns ring ->
  jb_late_packets (rp_jitter p) <= uint_max 64 ->
  Forall (fun a => ap_sequence a ∈u 32 /\ Z.of_nat (length (ap_payload a)) = rp_expected_packet_bytes p) arrivals ->
  push_all (rp_jitter p) arrivals = Some (j', outs) -> jb_late_packets j' = jb_late_packets (rp_jitter p) ->
  exists p' shared', handle_packets p ring shared arrivals =
      Some (p', foldl (write_output (rp_samples_per_packet p)) ring outs, shared') /\
    rp_jitter p' = j'.
Proof.
  revert p ring shared outs. induction arrivals as [|a arrivals IH]; intros p ring shared outs Hwf Hb Hr Hu Hl Hall.
  - simpl. intros [= <- <-] _. by exists p, shared.
  - apply Forall_cons in Hall as [[Hseq Hlen] Hall]. cbn [push_all handle_packets].
    destruct (push (rp_jitter p) a) as [[j1 o1]|] eqn:Hp; [|done]. cbn [mbind option_bind].
    destruct (push_all j1 arrivals) as [[j2 o2]|] eqn:Hps; [|done]. cbn [mbind option_bind].
    intros [= -> <-] Hlate. destruct (push_late _ _ _ _ Hwf Hb Hseq Hp Hl) as ([Hl1 Hl1'] & Hw1 & Hb1).
    pose proof (push_all_late arrivals _ _ _ Hw1 Hb1 ltac:(eapply Forall_impl; [exact Hall|by intros ? []]) Hps Hl1') as Hl2.
    unfold handle_packet. rewrite Hlen, Z.eqb_refl. cbn [negb rp_jitter with_last_underruns].
    rewrite Hp. cbn [mbind option_bind]. rewrite Hu, Z.ltb_irrefl.
    assert ((jb_late_packets (rp_jitter p) <? jb_late_packets j1) = false) as -> by (apply Z.ltb_ge; lia).
    cbn [orb rp_samples_per_packet with_jitter with_last_underruns].
    set (ring1 := foldl _ ring o1).
    assert (ring_wf ring1 /\ rg_underruns ring1 = rg_underruns ring) as [Hr1 Hu1].
    { unfold ring1. split; [by apply write_outputs_wf|]. by rewrite write_outputs. }
    unfold adjust_jitter_after_stutter. cbn [rp_adaptation_cooldown_packets with_jitter with_last_underruns andb].
    assert (forall p1 sh, rp_jitter p1 = j1 -> rp_expected_packet_bytes p1 = rp_expected_packet_bytes p ->
      rp_samples_per_packet p1 = rp_samples_per_packet p -> rp_last_underruns p1 = rg_underruns ring ->
      exists p' shared', handle_packets p1 ring1 sh arrivals =
        Some (p', foldl (write_output (rp_samples_per_packet p)) ring (o1 ++ o2), shared') /\ rp_jitter p' = j') as Hgo.
    { intros p1 sh E1 E2 E3 E4. destruct (IH p1 ring1 sh o2) as (p' & sh' & Hrun & Hj); rewrite ?E1, ?E2, ?E3, ?E4; try done; try lia.
      exists p', sh'. split; [|done]. by rewrite Hrun, foldl_app, E3. }
    destruct (0 <? _); cbn [mbind option_bind]; by apply Hgo.
Qed.

(** ** Properties *)

(** The phone accepts exactly the one stream format of the protocol, at any
    frame duration but zero; with the format the server announces, the packet
    size it expects is the size of the server's packets. *)
Theorem accepted_streams (stream : StreamInfo) (ring : PcmRing) (shared : SharedState)
  (Hring : ring_wf ring) (Hframe : si_frame_duration_ms stream ∈u 8) :
  match pipeline_new stream ring shared with
  | Ok (p, ring', shared') =>
      si_sample_rate stream = SAMPLE_RATE /\ si_channels stream = CHANNELS /\ si_frame_duration_ms stream <> 0 /\
      rp_expected_packet_bytes p = SAMPLE_RATE * si_frame_duration_ms stream / 1000 * CHANNELS * 2 /\
      pipeline_wf p ring' shared'
  | Err e => e = UnsupportedStream /\
      (si_sample_rate stream <> SAMPLE_RATE \/ si_channels stream <> CHANNELS \/ si_frame_duration_ms stream = 0)
  end.
Proof.
  destruct stream as [rate channels [] frame]. cbn [si_sample_rate si_channels si_frame_duration_ms] in *.
  destruct (Z.eq_dec rate SAMPLE_RATE) as [->|Hr].
  2: { unfold pipeline_new. cbn [si_sample_rate]. apply Z.eqb_neq in Hr as Hr'. rewrite Hr'. split; [done|by left]. }
  destruct (Z.eq_dec channels CHANNELS) as [->|Hc].
  2: { unfold pipeline_new. cbn [si_channels]. apply Z.eqb_neq in Hc as Hc'. rewrite Hc', orb_true_r. split; [done|by right; left]. }
  destruct (Z.eq_dec frame 0) as [->|Hf]; [by split; [|right; right]|]. unfold in_uint in Hframe.
  destruct (pipeline_new_ok frame ring shared) as (p & r & s & -> & Hfr & _ & _ & _ & _ & Hwf); [lia|done|].
  split_and!; try done. by rewrite (pw_bytes _ _ _ Hwf), (pw_samples _ _ _ Hwf), Hfr.
Qed.

Lemma accepted_streams_witness :
  match pipeline_new (mkStreamInfo 48000 2 I16Le 5) (ring_new 9600) shared_default with
  | Ok (p, ring', shared') =>
      48000 = SAMPLE_RATE /\ 2 = CHANNELS /\ 5 <> 0 /\
      rp_expected_packet_bytes p = SAMPLE_RATE * 5 / 1000 * CHANNELS * 2 /\ pipeline_wf p ring' shared'
  | Err e => e = UnsupportedStream /\ (48000 <> SAMPLE_RATE \/ 2 <> CHANNELS \/ 5 = 0)
  end.
Proof.
  apply (accepted_streams (mkStreamInfo 48000 2 I16Le 5) (ring_new 9600) shared_default).
  - split; vm_compute; done.
  - vm_compute. done.
Defined.

(** Adaptation stays in bounds. From a fresh pipeline of frame duration [d]
    on, over any packets (of any size, lost, late or repeated), resumptions,
    reads and clearings: every packet is handled, the delay the phone aims for
    only grows, from 20 ms (rounded up to whole packets) to at most 100 ms
    (likewise), the value shown to the user is that delay, and the ring waits
    for exactly that many samples, as far as it can hold them. *)
Theorem adaptation_is_bounded (d : Z) (ring : PcmRing) (shared : SharedState) (evs : list receiver_event)
  (p0 : ReceiverPipeline) (ring0 : PcmRing) (shared0 : SharedState)
  (Hd : 1 <= d <= 255) (Hring : ring_wf ring) (Hevs : Forall receiver_event_ok evs)
  (Hnew : pipeline_new (mkStreamInfo SAMPLE_RATE CHANNELS I16Le d) ring shared = Ok (p0, ring0, shared0)) :
  exists p ring' shared', receiver_run p0 ring0 shared0 evs = Some (p, ring', shared') /\
    let target := jb_target_packets (rp_jitter p) in
    20 <= sh_jitter_buffer_ms shared' < 100 + d /\ sh_jitter_buffer_ms shared' = d * target /\
    rg_playback_target ring' = Z.min (target * rp_samples_per_packet p) (rg_capacity ring').
Proof.
  destruct (pipeline_new_ok d ring shared Hd Hring) as (p1 & r1 & s1 & Hnew' & Hf & Hj & _ & _ & _ & Hwf).
  rewrite Hnew in Hnew'. injection Hnew' as <- <- <-.
  destruct (receiver_run_wf evs _ _ _ Hwf Hevs) as (p & r & s & Hrun & Hw & Hf' & Ht).
  exists p, r, s. split; [done|]. cbv zeta. rewrite (pw_shown _ _ _ Hw), Hf', Hf.
  pose proof (pw_target _ _ _ Hw) as Hmax. rewrite (pw_maximum _ _ _ Hw), Hf', Hf in Hmax.
  rewrite Hj in Ht. cbn [jb_target_packets jb_new] in Ht.
  pose proof (div_ceil_bounds MAX_JITTER_BUFFER_MS d) as H1. pose proof (div_ceil_bounds INITIAL_JITTER_BUFFER_MS d) as H2.
  unfold MAX_JITTER_BUFFER_MS, INITIAL_JITTER_BUFFER_MS in *.
  specialize (H1 ltac:(lia) ltac:(lia)). specialize (H2 ltac:(lia) ltac:(lia)).
  split_and!; [nia|nia|done|]. apply Hw.
Qed.

Lemma adaptation_is_bounded_witness :
  let evs := [RcvPacket (mkAudioPacket 0 0 (replicate 960 0)); RcvRead 5; RcvResume 7; RcvPacket (mkAudioPacket 3 0 [])] in
  match pipeline_new (mkStreamInfo SAMPLE_RATE CHANNELS I16Le 5) (ring_new 9600) shared_default with
  | Ok (p0, ring0, shared0) =>
      exists p ring' shared', receiver_run p0 ring0 shared0 evs = Some (p, ring', shared') /\
        let target := jb_target_packets (rp_jitter p) in
        20 <= sh_jitter_buffer_ms shared' < 100 + 5 /\ sh_jitter_buffer_ms shared' = 5 * target /\
        rg_playback_target ring' = Z.min (target * rp_samples_per_packet p) (rg_capacity ring')
  | Err _ => False
  end.
Proof.
  cbv zeta. destruct (pipeline_new _ _ _) as [[[p0 ring0] shared0]|e] eqn:Hnew; [|vm_compute in Hnew; discriminate].
  apply (adaptation_is_bounded 5 (ring_new 9600) shared_default _ p0 ring0 shared0); [lia| | |exact Hnew].
  - split; vm_compute; done.
  - repeat constructor; vm_compute; done.
Defined.

Lemma cooldown_holds arrivals p ring shared :
  pipeline_wf p ring shared -> Forall (fun a => ap_sequence a ∈u 32) arrivals ->
  Z.of_nat (length arrivals) <= rp_adaptation_cooldown_packets p ->
  exists p' ring' shared', handle_packets p ring shared arrivals = Some (p', ring', shared') /\
    jb_target_packets (rp_jitter p') = jb_target_packets (rp_jitter p).
Proof.
  intros Hwf Hseq Hfew. revert p ring shared Hwf Hfew. induction Hseq as [|a arrivals Ha _ IH]; intros p ring shared Hwf Hfew.
  - by exists p, ring, shared.
  - destruct (handle_packet_wf _ _ _ _ Hwf Ha) as (p1 & r1 & s1 & h & Hh & Hw & _). simpl length in Hfew.
    assert (rp_adaptation_cooldown_packets p - 1 <= rp_adaptation_cooldown_packets p1 /\
            jb_target_packets (rp_jitter p1) = jb_target_packets (rp_jitter p)) as [Hc Ht].
    { revert Hh. unfold handle_packet. destruct (negb _); [intros [= <- _ _ _]; split; [lia|done]|].
      cbn [rp_jitter with_last_underruns].
      destruct (push_spec (rp_jitter p) a (pw_jitter _ _ _ Hwf) (pw_bounded _ _ _ Hwf) Ha)
        as (j & o & adv & -> & _ & _ & _ & _ & _ & _ & _ & Ht & _). cbn -[write_output].
      unfold adjust_jitter_after_stutter. cbn [rp_adaptation_cooldown_packets with_jitter with_last_underruns].
      destruct (Z.ltb_spec 0 (rp_adaptation_cooldown_packets p)); [|lia]. intros [= <- _ _ _]. cbn. split; [lia|done]. }
    destruct (IH p1 r1 s1 Hw ltac:(lia)) as (p2 & r2 & s2 & Hrun & Ht2).
    exists p2, r2, s2. cbn [handle_packets]. rewrite Hh. cbn [mbind option_bind]. split; [done|congruence].
Qed.

(** Raising the target starts a cooldown of one second. *)
Lemma raise_starts_cooldown p ring shared packet p' ring' shared' handled :
  pipeline_wf p ring shared -> ap_sequence packet ∈u 32 ->
  handle_packet p ring shared packet = Some (p', ring', shared', handled) ->
  jb_target_packets (rp_jitter p') <> jb_target_packets (rp_jitter p) ->
  rp_adaptation_cooldown_packets p' = rp_cooldown_after_adjustment_packets p.
Proof.
  intros Hwf Hseq. unfold handle_packet. destruct (negb _); [by intros [= <- _ _ _]|].
  cbn [rp_jitter with_last_underruns].
  destruct (push_spec (rp_jitter p) packet (pw_jitter _ _ _ Hwf) (pw_bounded _ _ _ Hwf) Hseq)
    as (j & o & adv & -> & _ & _ & _ & _ & _ & _ & _ & Ht & _). cbn -[write_output].
  unfold adjust_jitter_after_stutter. cbn [rp_adaptation_cooldown_packets with_jitter with_last_underruns rp_jitter].
  destruct (0 <? _); [by intros [= <- _ _ _]|]. destruct (_ && jb_started j); [|by intros [= <- _ _ _]].
  destruct (increase_target j _ _) as [j2 []] eqn:Hi; cbn [mbind option_bind].
  - by intros [= <- _ _ _].
  - intros [= <- _ _ _] Hne. cbn in Hne. revert Hi. unfold increase_target. case_match; [intros [= <-]; congruence|done].
Qed.

(** No nervous adaptation: when a packet made the phone raise its delay,
    the delay stays as it is for at least the next second of packets, however
    much they stutter. *)
Theorem adaptation_has_a_cooldown (p p1 : ReceiverPipeline) (ring ring1 : PcmRing) (shared shared1 : SharedState)
  (packet : AudioPacket) (handled : bool) (arrivals : list AudioPacket)
  (Hwf : pipeline_wf p ring shared) (Hpacket : ap_sequence packet ∈u 32)
  (Hraise : handle_packet p ring shared packet = Some (p1, ring1, shared1, handled))
  (Hraised : jb_target_packets (rp_jitter p1) <> jb_target_packets (rp_jitter p))
  (Hseq : Forall (fun a => ap_sequence a ∈u 32) arrivals)
  (Hsecond : Z.of_nat (length arrivals) * rp_frame_duration_ms p <= ADAPTATION_COOLDOWN_MS) :
  exists p' ring' shared', handle_packets p1 ring1 shared1 arrivals = Some (p', ring', shared') /\
    jb_target_packets (rp_jitter p') = jb_target_packets (rp_jitter p1).
Proof.
  destruct (handle_packet_wf _ _ _ _ Hwf Hpacket) as (p2 & r2 & s2 & h & Hh & Hw & _). rewrite Hraise in Hh.
  injection Hh as <- <- <- <-. apply cooldown_holds; [done|done|].
  rewrite (raise_starts_cooldown _ _ _ _ _ _ _ _ Hwf Hpacket Hraise Hraised), (pw_second _ _ _ Hwf).
  pose proof (pw_frame _ _ _ Hwf) as Hf.
  pose proof (div_ceil_bounds ADAPTATION_COOLDOWN_MS (rp_frame_duration_ms p) ltac:(lia) ltac:(done)) as [Hb _]. nia.
Qed.

(** A phone that is playing, past its cooldown, and has just run dry. *)
Definition quiet_packet (sequence : Z) : AudioPacket := mkAudioPacket sequence (sequence * 480) (replicate 1920 0).

Definition dry_phone : option (ReceiverPipeline * PcmRing * SharedState) :=
  match pipeline_new (mkStreamInfo SAMPLE_RATE CHANNELS I16Le 10) (ring_new PCM_RING_CAPACITY_SAMPLES) shared_default with
  | Ok (p, ring, shared) =>
      receiver_run (with_cooldown 0 p) ring shared
        [RcvPacket (quiet_packet 0); RcvPacket (quiet_packet 1); RcvRead 1920; RcvRead 10]
  | Err _ => None
  end.

Lemma dry_phone_wf p ring shared : dry_phone = Some (p, ring, shared) -> pipeline_wf p ring shared.
Proof.
  unfold dry_phone.
  destruct (pipeline_new_ok 10 (ring_new PCM_RING_CAPACITY_SAMPLES) shared_default)
    as (p0 & r0 & s0 & -> & _ & _ & _ & _ & _ & Hwf); [lia|split; vm_compute; done|]. intros Hrun.
  assert (pipeline_wf (with_cooldown 0 p0) r0 s0) as Hwf0.
  { destruct Hwf as [H1 H2 H3 H4 H5 H6 H7 H8 H9 H10 H11 H12 H13 H14]. split; cbn; try done. lia. }
  destruct (receiver_run_wf [RcvPacket (quiet_packet 0); RcvPacket (quiet_packet 1); RcvRead 1920; RcvRead 10] _ _ _ Hwf0)
    as (p' & r' & s' & Hrun' & Hw & _).
  - repeat constructor; vm_compute; done.
  - rewrite Hrun in Hrun'. by injection Hrun' as <- <- <-.
Qed.

Lemma adaptation_has_a_cooldown_witness :
  match dry_phone with
  | Some (p, ring, shared) =>
      match handle_packet p ring shared (quiet_packet 2) with
      | Some (p1, ring1, shared1, _) =>
          (jb_target_packets (rp_jitter p), jb_target_packets (rp_jitter p1)) = (2, 3) /\
          exists p' ring' shared',
            handle_packets p1 ring1 shared1 [quiet_packet 3; quiet_packet 3; quiet_packet 0] = Some (p', ring', shared') /\
            jb_target_packets (rp_jitter p') = jb_target_packets (rp_jitter p1)
      | None => False
      end
  | None => False
  end.
Proof.
  assert (match dry_phone with
          | Some (p, ring, shared) =>
              Some (jb_target_packets (rp_jitter p), rp_frame_duration_ms p,
                    (fun r => jb_target_packets (rp_jitter r.1.1.1)) <$> handle_packet p ring shared (quiet_packet 2))
          | None => None
          end = Some (2, 10, Some 3)) as Hall by (vm_compute; reflexivity).
  destruct dry_phone as [[[p ring] shared]|] eqn:Hdry; [|discriminate Hall].
  pose proof (dry_phone_wf _ _ _ Hdry) as Hwf. injection Hall as H1 H2 H3.
  destruct (handle_packet p ring shared (quiet_packet 2)) as [[[[p1 ring1] shared1] h]|] eqn:Hh; [|discriminate H3].
  clear Hdry. cbn [fmap option_fmap option_map fst] in H3. injection H3 as H3. split; [by rewrite H1, H3|].
  apply (adaptation_has_a_cooldown p p1 ring ring1 shared shared1 (quiet_packet 2) h
           [quiet_packet 3; quiet_packet 3; quiet_packet 0] Hwf).
  - vm_compute. done.
  - exact Hh.
  - rewrite H1, H3. done.
  - repeat constructor; vm_compute; done.
  - rewrite H2. vm_compute. done.
Defined.
