(* ===== verification/Client.v ===== *)
(** * Client: the phone's session with the server

    [android/app/src/main/rust/src/client.rs]: the handshake, the event loop of
    a connected session (a case per branch of its [select!]), and the
    reconnection loop with its backoff.  The clock and the result of each
    awaited operation are arguments. *)

From Stdlib Require Import ZArith Lia.
From S2P Require Import Prelude BTree Wire Text Transport Jitter Ring DeviceControl ClientState Receiver.

(** ** The handshake *)

Definition sequence_before (sequence reference : Z) : bool :=
  let distance := wrapping_sub 32 sequence reference in
  negb (distance =? 0) && (2 ^ 31 <=? distance).

Section handshake.
Context {W R : Type} `{!SendStream W} `{!RecvStream R} {Hcodec : ControlCodec}.

Definition transport_failed {A} (r : result TransportError A) : result ClientError A :=
  map_err (fun _ => TransportFailed) r.

Definition expect_hello (reader : R) : R * result ClientError unit :=
  match reader_receive reader with
  | (reader, Err _) => (reader, Err TransportFailed)
  | (reader, Ok (Hello protocol_version)) =>
      (reader, if protocol_version =? PROTOCOL_VERSION then Ok tt else Err RuntimeFailed)
  | (reader, Ok _) => (reader, Err RuntimeFailed)
  end.

Definition expect_stream_info (reader : R) : R * result ClientError StreamInfo :=
  match reader_receive reader with
  | (reader, Err _) => (reader, Err TransportFailed)
  | (reader, Ok (StreamInfoMsg stream)) => (reader, Ok stream)
  | (reader, Ok _) => (reader, Err RuntimeFailed)
  end.

Definition expect_start (reader : R) : R * result ClientError unit :=
  match reader_receive reader with
  | (reader, Err _) => (reader, Err TransportFailed)
  | (reader, Ok Start) => (reader, Ok tt)
  | (reader, Ok _) => (reader, Err RuntimeFailed)
  end.

(** ** The loop *)

Record ClientLoop : Type := mkClientLoop {
  cl_writer : W;
  cl_pipeline : ReceiverPipeline;
  cl_ring : PcmRing;
  cl_shared : SharedState;
  cl_newest_sequence : option Z;
  cl_idle_boundary : option Z;
  cl_idle_deadline : option Z;
  cl_tone_was_active : bool;
}.

(** [connected_loop] up to its [loop]; [datagrams] is whether the connection
    supports them ([DatagramReceiver::new]).  An error comes with the ring and
    the shared state it leaves. *)
Definition connected_start (writer : W) (reader : R) (ring : PcmRing) (shared : SharedState) (datagrams : bool)
  : R * result (ClientError * PcmRing * SharedState) ClientLoop :=
  let failed e := (e, ring, shared) in
  let '(writer, sent) := writer_send writer (Hello PROTOCOL_VERSION) in
  match sent with
  | Err _ => (reader, Err (failed TransportFailed))
  | Ok _ =>
      let '(reader, hello) := expect_hello reader in
      match hello with
      | Err e => (reader, Err (failed e))
      | Ok _ =>
          let '(reader, stream) := expect_stream_info reader in
          match stream with
          | Err e => (reader, Err (failed e))
          | Ok stream =>
              let '(reader, start) := expect_start reader in
              match start with
              | Err e => (reader, Err (failed e))
              | Ok _ =>
                  (reader,
                   '(pipeline, ring, shared) ← map_err failed (pipeline_new stream ring shared);
                   if negb datagrams then Err (TransportFailed, ring, shared)
                   else Ok (mkClientLoop writer pipeline ring (ClientState.set Connected shared) None None None false))
              end
          end
      end
  end.

Definition with_shared (s : SharedState) (c : ClientLoop) : ClientLoop :=
  mkClientLoop (cl_writer c) (cl_pipeline c) (cl_ring c) s (cl_newest_sequence c) (cl_idle_boundary c)
    (cl_idle_deadline c) (cl_tone_was_active c).
Definition with_idle (boundary deadline : option Z) (c : ClientLoop) : ClientLoop :=
  mkClientLoop (cl_writer c) (cl_pipeline c) (cl_ring c) (cl_shared c) (cl_newest_sequence c) boundary deadline
    (cl_tone_was_active c).
Definition with_pipeline (p : ReceiverPipeline) (ring : PcmRing) (c : ClientLoop) : ClientLoop :=
  mkClientLoop (cl_writer c) p ring (cl_shared c) (cl_newest_sequence c) (cl_idle_boundary c) (cl_idle_deadline c)
    (cl_tone_was_active c).
Definition with_newest (n : option Z) (c : ClientLoop) : ClientLoop :=
  mkClientLoop (cl_writer c) (cl_pipeline c) (cl_ring c) (cl_shared c) n (cl_idle_boundary c) (cl_idle_deadline c)
    (cl_tone_was_active c).
Definition with_tone_was_active (b : bool) (c : ClientLoop) : ClientLoop :=
  mkClientLoop (cl_writer c) (cl_pipeline c) (cl_ring c) (cl_shared c) (cl_newest_sequence c) (cl_idle_boundary c)
    (cl_idle_deadline c) b.
Definition with_writer (w : W) (c : ClientLoop) : ClientLoop :=
  mkClientLoop w (cl_pipeline c) (cl_ring c) (cl_shared c) (cl_newest_sequence c) (cl_idle_boundary c)
    (cl_idle_deadline c) (cl_tone_was_active c).
Definition on_device (f : DeviceControl -> DeviceControl) (c : ClientLoop) : ClientLoop :=
  with_shared (put_device (f (sh_device (cl_shared c))) (cl_shared c)) c.
Definition notify (c : ClientLoop) : ClientLoop := with_shared (notify_changed (cl_shared c)) c.

(** The branches of the [select!]. [now]s are clock readings. *)
Inductive client_event : Type :=
| CevDeviceTick (now now_active : Z)
| CevReportReady
| CevClosed
| CevIdleDeadline
| CevDatagram (packet : result TransportError AudioPacket) (rtt_ms : Z)
| CevMessage (now : Z) (message : result TransportError ControlMessage).

(** [None] is "go on", [Some r] is the value the loop returns. *)
Abbreviation outcome := (option (result ClientError unit)).

(** [while let Some(report) = take_report() { writer.send(&report).await?; }];
    the fuel is the number of queued reports. *)
Fixpoint send_reports (fuel : nat) (c : ClientLoop) : ClientLoop * outcome :=
  match fuel with
  | O => (c, None)
  | S fuel' =>
      match take_report (sh_device (cl_shared c)) with
      | (_, None) => (c, None)
      | (device, Some report) =>
          let c := with_shared (put_device device (cl_shared c)) c in
          match writer_send (cl_writer c) report with
          | (w, Ok _) => send_reports fuel' (with_writer w c)
          | (w, Err _) => (with_writer w c, Some (Err TransportFailed))
          end
      end
  end.

Definition on_datagram (c : ClientLoop) (packet : AudioPacket) (rtt_ms : Z) : option (ClientLoop * outcome) :=
  let c := match cl_idle_boundary c with
           | Some boundary =>
               if negb (sequence_before (ap_sequence packet) boundary)
               then let '(p, ring) := resume (cl_pipeline c) (cl_ring c) boundary in
                    with_idle None None (with_pipeline p ring c)
               else c
           | None => c
           end in
  let sequence := ap_sequence packet in
  let c := with_shared (set_rtt_ms rtt_ms (cl_shared c)) c in
  '(p, ring, shared, handled) ← handle_packet (cl_pipeline c) (cl_ring c) (cl_shared c) packet;
  let c := with_shared shared (with_pipeline p ring c) in
  if handled : bool then
    let newer := match cl_newest_sequence c with
                 | None => true
                 | Some newest => negb (sequence_before sequence newest)
                 end in
    let c := if newer then with_newest (Some sequence) c else c in
    let c := match cl_idle_boundary c with
             | None => with_shared (set_audio_active true (cl_shared c)) c
             | Some _ => c
             end in
    Some (c, None)
  else Some (c, None).

Definition queue_operation (c : ClientLoop) (now request_id operation value : Z) : ClientLoop * outcome :=
  let '(device, queued) := enqueue_operation (sh_device (cl_shared c)) now request_id operation value in
  let c := with_shared (put_device device (cl_shared c)) c in
  if queued then (notify c, None) else (c, Some (Err RuntimeFailed)).

Definition on_message (c : ClientLoop) (now : Z) (message : ControlMessage) : ClientLoop * outcome :=
  match message with
  | Stop => (c, Some (Ok tt))
  | AudioIdle next_sequence =>
      let current := match cl_newest_sequence c with
                     | None => true
                     | Some newest => sequence_before newest next_sequence
                     end in
      (if current then with_idle (Some next_sequence) (Some (now + 150)) c else c, None)
  | QueryDevice request_id => queue_operation c now request_id 1 0
  | SetVolume request_id index purpose =>
      queue_operation c now request_id
        (match purpose with User => 2 | Calibration => 6 | RestoreSpeaker => 7 end) index
  | CalibrationSession request_id action =>
      let '(operation, value) :=
        match action with Begin => (3, 0) | Cancel => (4, 0) | Commit index => (5, index) end in
      let c := if negb (bool_decide (action = Begin)) then on_device stop_tone c else c in
      queue_operation c now request_id operation value
  | CalibrationTone request_id enabled =>
      let c := with_pipeline (cl_pipeline c) (clear (cl_ring c)) c in
      let c := on_device (fun d => request_tone d now request_id enabled) c in
      (notify c, None)
  | AdjustVolume steps => (with_shared (add_volume_adjustment steps (cl_shared c)) c, None)
  | _ => (c, Some (Err RuntimeFailed))
  end.

(** [None]: out of fuel in the jitter buffer, which does not happen. *)
Definition client_step (c : ClientLoop) (ev : client_event) : option (ClientLoop * outcome) :=
  match ev with
  | CevDeviceTick now now_active =>
      let '(device, active) := tone_active (sh_device (cl_shared c)) now now_active in
      let c := with_shared (put_device device (cl_shared c)) c in
      Some (if negb (eqb active (cl_tone_was_active c)) then notify (with_tone_was_active active c) else c, None)
  | CevReportReady => Some (send_reports (length (dc_reports (sh_device (cl_shared c)))) c)
  | CevClosed => Some (c, Some (Ok tt))
  | CevIdleDeadline =>
      match cl_idle_deadline c with
      | None => Some (c, None)
      | Some _ =>
          Some (with_shared (set_audio_active false (cl_shared c)) (with_idle (cl_idle_boundary c) None c), None)
      end
  | CevDatagram (Err _) _ => Some (c, Some (Err TransportFailed))
  | CevDatagram (Ok packet) rtt_ms => on_datagram c packet rtt_ms
  | CevMessage _ (Err _) => Some (c, Some (Err TransportFailed))
  | CevMessage now (Ok message) => Some (on_message c now message)
  end.

Fixpoint client_run (c : ClientLoop) (evs : list client_event) : option (ClientLoop * outcome) :=
  match evs with
  | [] => Some (c, None)
  | ev :: evs' =>
      '(c, r) ← client_step c ev;
      match r with None => client_run c evs' | Some r => Some (c, Some r) end
  end.
End handshake.

(** ** Reconnection *)

Definition RETRY_INITIAL_DELAY : Z := 1000.
Definition RETRY_MAX_DELAY : Z := 10000.

(** Milliseconds; [checked_mul] cannot overflow a [Duration] here. *)
Definition retry_delay (attempt : Z) : Z :=
  Z.min (RETRY_INITIAL_DELAY * Z.shiftl 1 (Z.min attempt 4)) RETRY_MAX_DELAY.

(** [run_session] after [run_session_inner] returned [result] ([inl] for a
    clean end, [inr] with the error's text), up to the [sleep]. *)
Definition session_ended (ring : PcmRing) (shared : SharedState) (retry_attempt : Z) (result : unit + rstring)
  : PcmRing * SharedState * Z :=
  let ring := clear ring in
  match result with
  | inl _ => (ring, ClientState.set Connecting shared, 0)
  | inr error => (ring, set_error error shared, retry_attempt)
  end.

(** After the [sleep]. *)
Definition session_retried (shared : SharedState) (retry_attempt : Z) : SharedState * Z :=
  (ClientState.set Connecting shared, saturating_add 32 retry_attempt 1).

(** One round: the ring, the shared state, the delay slept, the shared state
    after it, the next attempt. *)
Definition session_round (ring : PcmRing) (shared : SharedState) (retry_attempt : Z) (result : unit + rstring)
  : PcmRing * SharedState * Z * SharedState * Z :=
  let '(ring, waiting, retry_attempt) := session_ended ring shared retry_attempt result in
  let '(after, next_attempt) := session_retried waiting retry_attempt in
  (ring, waiting, retry_delay retry_attempt, after, next_attempt).

(** The delays of a run of session results. *)
Fixpoint retry_delays (retry_attempt : Z) (ring : PcmRing) (shared : SharedState) (results : list (unit + rstring))
  : list Z :=
  match results with
  | [] => []
  | r :: results' =>
      let '(ring, _, delay, shared, retry_attempt) := session_round ring shared retry_attempt r in
      delay :: retry_delays retry_attempt ring shared results'
  end.

(** ** The pipeline does not look at the shared state *)

Lemma adjust_shared p ring s1 s2 stutter :
  let r1 := adjust_jitter_after_stutter p ring s1 stutter in
  let r2 := adjust_jitter_after_stutter p ring s2 stutter in
  r1.1 = r2.1 /\ sh_audio_active r1.2 = sh_audio_active s1.
Proof.
  unfold adjust_jitter_after_stutter. destruct (0 <? _); [done|]. destruct (_ && _); [|done].
  by destruct (increase_target _ _ _) as [j []].
Qed.

Lemma handle_packet_shared p ring s1 s2 packet p' ring' s1' h :
  handle_packet p ring s1 packet = Some (p', ring', s1', h) ->
  exists s2', handle_packet p ring s2 packet = Some (p', ring', s2', h) /\ sh_audio_active s2' = sh_audio_active s2.
Proof.
  unfold handle_packet. destruct (negb _).
  - intros [= <- <- _ <-]. by eexists.
  - destruct (push _ packet) as [[j out]|]; [|done]. cbn [mbind option_bind].
    set (q := with_jitter j _). set (r := foldl _ ring out). set (b := _ || _).
    set (t1 := add_late _ (add_lost _ (add_received s1))). set (t2 := add_late _ (add_lost _ (add_received s2))).
    destruct (adjust_shared q r t1 t2 b) as [H _]. destruct (adjust_shared q r t2 t2 b) as [_ Ha].
    destruct (adjust_jitter_after_stutter q r t1 b) as [[p1 r1] u1].
    destruct (adjust_jitter_after_stutter q r t2 b) as [[p2 r2] u2]. cbn [fst snd] in *.
    injection H as -> ->. cbn [mbind option_bind]. intros [= <- <- _ <-]. eexists. split; [reflexivity|]. by rewrite Ha.
Qed.

Lemma handle_packet_audio p ring s packet p' ring' s' h :
  handle_packet p ring s packet = Some (p', ring', s', h) -> sh_audio_active s' = sh_audio_active s.
Proof.
  intros H. destruct (handle_packet_shared p ring s s packet _ _ _ _ H) as (s2 & H2 & Ha). rewrite H in H2.
  by injection H2 as <-.
Qed.

Section client_facts.
Context {W : Type} `{!SendStream W} {Hcodec : ControlCodec}.
Implicit Types c : @ClientLoop W.

(** ** The invariant of the loop *)

Definition client_wf c : Prop :=
  pipeline_wf (cl_pipeline c) (cl_ring c) (cl_shared c) /\
  (forall n, cl_idle_boundary c = Some n -> n ∈u 32).

Definition client_event_ok (ev : client_event) : Prop :=
  match ev with
  | CevDatagram (Ok packet) _ => ap_sequence packet ∈u 32
  | CevMessage _ (Ok (AudioIdle n)) => n ∈u 32
  | _ => True
  end.

Lemma pipeline_wf_shared p ring s s' :
  pipeline_wf p ring s -> sh_jitter_buffer_ms s' = sh_jitter_buffer_ms s -> pipeline_wf p ring s'.
Proof. intros [H1 H2 H3 H4 H5 H6 H7 H8 H9 H10 H11 H12 H13 H14] Hs. split; try done. by rewrite Hs. Qed.

Lemma client_wf_shared c s :
  client_wf c -> sh_jitter_buffer_ms s = sh_jitter_buffer_ms (cl_shared c) -> client_wf (with_shared s c).
Proof. intros [H1 H2] Hs. split; [|done]. by eapply pipeline_wf_shared. Qed.

Lemma set_audio_jitter b s : sh_jitter_buffer_ms (set_audio_active b s) = sh_jitter_buffer_ms s.
Proof. unfold set_audio_active. by destruct (negb _). Qed.

Lemma set_audio_value b s : sh_audio_active (set_audio_active b s) = b.
Proof. unfold set_audio_active. by destruct (negb _). Qed.

Lemma send_reports_wf fuel c : client_wf c -> client_wf (send_reports fuel c).1.
Proof.
  revert c. induction fuel as [|fuel IH]; intros c Hwf; [done|]. cbn [send_reports].
  destruct (take_report _) as [device [report|]]; [|done].
  destruct (writer_send _ report) as [w [u|e]]; [|by apply client_wf_shared].
  apply IH. by apply (client_wf_shared c).
Qed.

Lemma queue_operation_wf c now id o v : client_wf c -> client_wf (queue_operation c now id o v).1.
Proof.
  intros Hwf. unfold queue_operation. destruct (enqueue_operation _ _ _ _ _) as [d []]; cbn [fst];
    [apply (client_wf_shared (with_shared _ c)); [|done]|]; by apply client_wf_shared.
Qed.

Lemma resume_wf c n :
  client_wf c -> n ∈u 32 -> pipeline_wf (resume (cl_pipeline c) (cl_ring c) n).1 (resume (cl_pipeline c) (cl_ring c) n).2 (cl_shared c).
Proof.
  intros [Hwf _] Hn. destruct (receiver_step_wf _ _ _ (RcvResume n) Hwf Hn) as (p & r & s & Hstep & Hw & _).
  simpl in Hstep. by injection Hstep as <- <- <-.
Qed.

(** The state after the check for the end of an idle period. *)
Definition resumed c (packet : AudioPacket) : ClientLoop :=
  match cl_idle_boundary c with
  | Some boundary =>
      if negb (sequence_before (ap_sequence packet) boundary)
      then let '(p, ring) := resume (cl_pipeline c) (cl_ring c) boundary in
           with_idle None None (with_pipeline p ring c)
      else c
  | None => c
  end.

Lemma resumed_wf c packet : client_wf c -> client_wf (resumed c packet).
Proof.
  intros Hwf. unfold resumed. destruct (cl_idle_boundary c) as [n|] eqn:Hb; [|done].
  destruct (negb _); [|done]. pose proof (resume_wf c n Hwf (proj2 Hwf n Hb)) as Hw. by split.
Qed.

Lemma on_datagram_spec c packet rtt :
  client_wf c -> ap_sequence packet ∈u 32 ->
  exists p' ring' shared' handled c', handle_packet (cl_pipeline (resumed c packet)) (cl_ring (resumed c packet))
      (set_rtt_ms rtt (cl_shared (resumed c packet))) packet = Some (p', ring', shared', handled) /\
    on_datagram c packet rtt = Some (c', None) /\ client_wf c' /\
    cl_pipeline c' = p' /\ cl_ring c' = ring' /\ cl_idle_boundary c' = cl_idle_boundary (resumed c packet) /\
    sh_audio_active (cl_shared c') =
      if handled && bool_decide (cl_idle_boundary (resumed c packet) = None) then true else sh_audio_active (cl_shared c).
Proof.
  intros Hwf Hseq. pose proof (resumed_wf c packet Hwf) as Hres.
  assert (sh_audio_active (cl_shared (resumed c packet)) = sh_audio_active (cl_shared c)) as Ha0.
  { unfold resumed. destruct (cl_idle_boundary c); [|done]. by destruct (negb _). }
  unfold on_datagram. fold (resumed c packet). set (e := resumed c packet) in *. clearbody e.
  assert (pipeline_wf (cl_pipeline e) (cl_ring e) (set_rtt_ms rtt (cl_shared e))) as Hp
    by (eapply pipeline_wf_shared; [apply Hres|done]).
  destruct (handle_packet_wf _ _ _ packet Hp Hseq) as (p' & ring' & shared' & handled & Hh & Hw & _).
  pose proof (handle_packet_audio _ _ _ _ _ _ _ _ Hh) as Ha.
  cbn [cl_pipeline cl_ring cl_shared with_shared]. rewrite Hh. cbn [mbind option_bind].
  destruct Hres as [_ Hidle].
  destruct handled; cbn [andb].
  2: { eexists _, _, _, _, _. split; [reflexivity|]. split; [reflexivity|]. split_and!; try done. cbn. by rewrite Ha, <- Ha0. }
  destruct (match cl_newest_sequence _ with Some _ => _ | None => _ end);
    (destruct (cl_idle_boundary e) as [n|] eqn:Hb;
     (eexists _, _, _, _, _; split; [reflexivity|]; split; [cbn; rewrite Hb; reflexivity|]);
     split_and!; try done; cbn; rewrite ?Hb, ?set_audio_value, ?Ha; try done;
     (split; cbn; [by eapply pipeline_wf_shared; [exact Hw|rewrite ?set_audio_jitter]|by rewrite ?Hb])).
Qed.

Lemma client_step_wf c ev :
  client_wf c -> client_event_ok ev -> exists c' r, client_step c ev = Some (c', r) /\ client_wf c'.
Proof.
  intros Hwf Hev. destruct ev as [now now_active| | | |[packet|e] rtt|now [message|e]]; cbn [client_step];
    try (eexists _, _; split; [reflexivity|]; done).
  - destruct (tone_active _ now now_active) as [device active]. eexists _, _. split; [reflexivity|].
    destruct (negb _); [apply (client_wf_shared (with_tone_was_active _ _)); [|done]|]; by apply (client_wf_shared c).
  - destruct (send_reports _ c) as [c' r] eqn:Hs. exists c', r. split; [done|].
    pose proof (send_reports_wf (length (dc_reports (sh_device (cl_shared c)))) c Hwf) as H. by rewrite Hs in H.
  - destruct (cl_idle_deadline c); [|by exists c, None]. eexists _, _. split; [reflexivity|].
    apply (client_wf_shared (with_idle _ _ c)); [by destruct Hwf|]. apply set_audio_jitter.
  - destruct (on_datagram_spec c packet rtt Hwf Hev) as (p & r & s & h & c' & _ & -> & Hw & _). by exists c', None.
  - destruct (on_message c now message) as [c' r] eqn:Hm. exists c', r. split; [done|].
    assert (c' = (on_message c now message).1) as -> by (by rewrite Hm). clear Hm r.
    destruct message; cbn [on_message fst]; try done.
    + by apply (client_wf_shared c).
    + destruct (match cl_newest_sequence c with Some _ => _ | None => _ end); [|done].
      split; [apply Hwf|]. by intros n [= <-].
    + by apply queue_operation_wf.
    + by apply queue_operation_wf.
    + apply (client_wf_shared (on_device _ _)); [|done]. apply (client_wf_shared (with_pipeline _ _ c)); [|done].
      destruct Hwf as [Hp Hi]. split; [|done]. cbn.
      eapply pipeline_wf_ring; [exact Hp| |done..]. destruct (pw_ring _ _ _ Hp). split; [done|]. unfold rg_len. simpl. lia.
    + destruct action; cbn [bool_decide]; (apply queue_operation_wf; case_match; [by apply (client_wf_shared c)|done]).
Qed.

Lemma client_run_wf evs c :
  client_wf c -> Forall client_event_ok evs -> exists c' r, client_run c evs = Some (c', r) /\ client_wf c'.
Proof.
  intros Hwf Hevs. revert c Hwf. induction Hevs as [|ev evs Hev _ IH]; intros c Hwf; [by exists c, None|].
  destruct (client_step_wf c ev Hwf Hev) as (c1 & r & Hstep & Hw). cbn [client_run]. rewrite Hstep. cbn [mbind option_bind].
  destruct r as [r|]; [by exists c1, (Some r)|]. by apply IH.
Qed.

(** Datagrams after the idle period go through the pipeline. *)
Lemma client_datagrams arrivals rtt c p' ring' shared0 shared' :
  client_wf c -> cl_idle_boundary c = None -> Forall (fun a => ap_sequence a ∈u 32) arrivals ->
  handle_packets (cl_pipeline c) (cl_ring c) shared0 arrivals = Some (p', ring', shared') ->
  exists c', client_run c ((fun a => CevDatagram (Ok a) rtt) <$> arrivals) = Some (c', None) /\
    cl_pipeline c' = p' /\ cl_ring c' = ring' /\ cl_idle_boundary c' = None /\ client_wf c'.
Proof.
  intros Hwf Hb Hseq. revert c shared0 Hwf Hb. induction Hseq as [|a arrivals Ha _ IH]; intros c shared0 Hwf Hb.
  - simpl. intros [= <- <- _]. by exists c.
  - cbn [handle_packets fmap list_fmap client_run client_step].
    destruct (on_datagram_spec c a rtt Hwf Ha) as (p1 & r1 & s1 & h & c1 & Hh & -> & Hw & Hp & Hr & Hib & _).
    assert (resumed c a = c) as Hres by (unfold resumed; by rewrite Hb). rewrite Hres in *.
    destruct (handle_packet_shared _ _ _ shared0 _ _ _ _ _ Hh) as (s2 & -> & _). cbn [mbind option_bind]. intros Hrun.
    apply (IH c1 s2 Hw); [by rewrite Hib|]. by rewrite Hp, Hr.
Qed.
End client_facts.

Section resumption.
Context {W : Type} `{!SendStream W} {Hcodec : ControlCodec}.
Implicit Types c : @ClientLoop W.

Lemma on_datagram_resumed c packet rtt : on_datagram (resumed c packet) packet rtt = on_datagram c packet rtt.
Proof.
  assert (resumed (resumed c packet) packet = resumed c packet) as H.
  { unfold resumed at 2 3. destruct (cl_idle_boundary c) as [n|] eqn:Hb; [|unfold resumed; by rewrite Hb].
    destruct (negb (sequence_before (ap_sequence packet) n)) eqn:Hn; [done|]. unfold resumed. by rewrite Hb, Hn. }
  unfold on_datagram. fold (resumed c packet). fold (resumed (resumed c packet) packet). by rewrite H.
Qed.

Lemma in_order_not_before e ps p :
  e ∈u 32 -> in_order e ps -> Z.of_nat (length ps) < 2 ^ 31 -> p ∈ ps -> sequence_before (ap_sequence p) e = false.
Proof.
  intros He Hord Hlen Hp. pose proof (in_order_dist e ps p He Hord ltac:(lia) Hp) as Hd.
  apply not_true_iff_false. change (sequence_before (ap_sequence p) e) with (sequence_is_before (ap_sequence p) e).
  rewrite sequence_is_before_spec. lia.
Qed.

Lemma audio_samples n l : (Audio <$> l) ≫= output_samples n = l ≫= (samples_of ∘ ap_payload).
Proof. induction l as [|p l IH]; [done|]. rewrite fmap_cons, !bind_cons. by rewrite IH. Qed.

(** A stream that the jitter buffer passes on completely reaches the ring. *)
Lemma smooth_stream c arrivals ps rtt j' :
  client_wf c -> cl_idle_boundary c = None -> rp_last_underruns (cl_pipeline c) = rg_underruns (cl_ring c) ->
  Forall (fun a => ap_sequence a ∈u 32 /\ Z.of_nat (length (ap_payload a)) = rp_expected_packet_bytes (cl_pipeline c)) arrivals ->
  push_all (rp_jitter (cl_pipeline c)) arrivals = Some (j', Audio <$> ps) ->
  jb_late_packets j' = jb_late_packets (rp_jitter (cl_pipeline c)) ->
  exists c', client_run c ((fun a => CevDatagram (Ok a) rtt) <$> arrivals) = Some (c', None) /\
    rg_queue (cl_ring c') =
      lastn (Z.to_nat (rg_capacity (cl_ring c))) (rg_queue (cl_ring c) ++ (ps ≫= (samples_of ∘ ap_payload))) /\
    rp_jitter (cl_pipeline c') = j' /\ cl_idle_boundary c' = None.
Proof.
  intros Hwf Hb Hu Hall Hpush Hlate. pose proof (proj1 Hwf) as Hpw.
  destruct (handle_packets_smooth arrivals (cl_pipeline c) (cl_ring c) (cl_shared c) j' (Audio <$> ps))
    as (p' & s' & Hrun & Hj); try done; [apply Hpw|apply Hpw|apply Hpw|apply Hpw|].
  assert (Forall (fun a => ap_sequence a ∈u 32) arrivals) as Hseq by (eapply Forall_impl; [exact Hall|by intros ? []]).
  edestruct client_datagrams as (c' & Hc & H1 & H2 & H3 & _); [exact Hwf|exact Hb|exact Hseq|exact Hrun|].
  exists c'. split_and!; [done| |by rewrite H1|done].
  rewrite H2, write_outputs by apply Hpw. cbn [rg_queue with_queue]. by rewrite audio_samples.
Qed.

(** After an idle notice for [n], a stream that continues at [n] reaches the
    ring sample by sample. *)
Lemma resume_plays_all c n rtt (first arrivals : list AudioPacket) (ws : list (list AudioPacket * list AudioPacket)) :
  client_wf c -> cl_idle_boundary c = Some n ->
  let target := jb_target_packets (rp_jitter (cl_pipeline c)) in
  Z.of_nat (length first) = target -> arrivals ≡ₚ first -> windows_ok target ws -> target < 2 ^ 31 ->
  in_order n (first ++ concat (ws.*1)) ->
  Forall (fun a => Z.of_nat (length (ap_payload a)) = rp_expected_packet_bytes (cl_pipeline c)) (first ++ concat (ws.*1)) ->
  exists c', client_run c ((fun a => CevDatagram (Ok a) rtt) <$> (arrivals ++ concat (ws.*2))) = Some (c', None) /\
    rg_queue (cl_ring c') =
      lastn (Z.to_nat (rg_capacity (cl_ring c))) ((first ++ concat (ws.*1)) ≫= (samples_of ∘ ap_payload)) /\
    jb_lost_packets (rp_jitter (cl_pipeline c')) = jb_lost_packets (rp_jitter (cl_pipeline c)) /\
    jb_late_packets (rp_jitter (cl_pipeline c')) = jb_late_packets (rp_jitter (cl_pipeline c)) /\
    cl_idle_boundary c' = None.
Proof.
  intros Hwf Hb target Hfirst Hperm Hws Hsmall Hord Hsizes.
  pose proof (proj2 Hwf n Hb) as Hn. pose proof (proj1 Hwf) as Hpw. pose proof (wf_target _ (pw_jitter _ _ _ Hpw)) as Htgt.
  assert (concat (ws.*2) ≡ₚ concat (ws.*1)) as Hwsperm.
  { clear -Hws. induction Hws as [|w ws [Hw _] _ IH]; [done|]. csimpl. by rewrite Hw, IH. }
  destruct arrivals as [|a rest] eqn:Harr.
  { apply Permutation_nil_l in Hperm. subst first. simpl in Hfirst. unfold target in *. lia. }
  rewrite <- Harr in *. assert (a ∈ first) as Ha by (rewrite <- Hperm, Harr; apply list_elem_of_here).
  apply in_order_app in Hord as Hord'; [|done]. destruct Hord' as [Hord1 _].
  assert (sequence_before (ap_sequence a) n = false) as Hnb
    by (eapply in_order_not_before; [done|exact Hord1|lia|done]).
  assert (Forall (fun a => ap_sequence a ∈u 32 /\ Z.of_nat (length (ap_payload a)) = rp_expected_packet_bytes (cl_pipeline c))
            (arrivals ++ concat (ws.*2))) as Hall.
  { rewrite Hperm, Hwsperm. apply Forall_and. split; [|done]. clear -Hord Hn. revert n Hord Hn.
    induction (first ++ concat (ws.*1)) as [|p l IH]; intros n; [constructor|]. intros [Hp Hl] Hn. constructor; [by rewrite Hp|].
    eapply IH; [exact Hl|]. apply wrapping_add_range. lia. }
  destruct (reordering_plays_all (rp_jitter (cl_pipeline c)) n first arrivals ws (pw_jitter _ _ _ Hpw) Hn Hfirst Hperm Hws
              Hsmall Hord) as (j' & Hpush & _ & Hlost & Hlate).
  set (r := resume (cl_pipeline c) (cl_ring c) n).
  assert (resumed c a = with_idle None None (with_pipeline r.1 r.2 c)) as Hres.
  { unfold resumed. by rewrite Hb, Hnb. }
  pose proof (resumed_wf c a Hwf) as Hcw. rewrite Hres in Hcw.
  destruct (smooth_stream _ (arrivals ++ concat (ws.*2)) (first ++ concat (ws.*1)) rtt j' Hcw) as (c' & Hc & H1 & H2 & H3);
    [done|done|exact Hall|exact Hpush|done|].
  exists c'. split.
  - rewrite <- Hc, <- Hres, Harr. cbn [app fmap list_fmap client_run client_step]. by rewrite on_datagram_resumed.
  - split_and!; [exact H1|by rewrite H2|by rewrite H2|done].
Qed.
End resumption.

(** ** Properties *)

Section properties.
Context {W : Type} `{!SendStream W} {Hcodec : ControlCodec}.
Implicit Types c : @ClientLoop W.

Lemma send_reports_outcome fuel c :
  (send_reports fuel c).2 = None \/ (send_reports fuel c).2 = Some (Err TransportFailed).
Proof.
  revert c. induction fuel as [|fuel IH]; intros c; cbn [send_reports]; [by left|].
  destruct (take_report _) as [d [report|]]; [|by left].
  destruct (writer_send _ report) as [w [u|e]]; [apply IH|by right].
Qed.

(** C37. The session loop never gets stuck: on any events, in any order and with
    any result of the network operations (a control message is read as a whole),
    every iteration returns, and the
    receiver invariant (jitter buffer, ring and shown delay agree and stay in
    their bounds) holds afterwards, also when the loop ends. *)
Theorem client_loop_is_total (c : ClientLoop) (evs : list client_event)
  (Hwf : client_wf c) (Hevs : Forall client_event_ok evs) :
  exists c' r, client_run c evs = Some (c', r) /\ client_wf c' /\ r <> Some (Err UnsupportedStream).
Proof.
  destruct (client_run_wf evs c Hwf Hevs) as (c' & r & Hrun & Hw). exists c', r. split_and!; [done|done|].
  clear Hwf Hw Hevs. revert c Hrun. induction evs as [|ev evs IH]; intros c; cbn [client_run]; [by intros [= <- <-]|].
  destruct (client_step c ev) as [[c1 r1]|] eqn:Hstep; [|done]. cbn [mbind option_bind].
  destruct r1 as [r1|]; [|apply IH]. intros [= <- <-]. clear IH.
  destruct ev as [now now_active| | | |[packet|e] rtt|now [message|e]]; cbn [client_step] in Hstep.
  - destruct (tone_active _ now now_active). by destruct (negb _).
  - injection Hstep as Hstep. pose proof (send_reports_outcome (length (dc_reports (sh_device (cl_shared c)))) c) as H.
    rewrite Hstep in H. by destruct H as [|[= ->]].
  - by injection Hstep as _ <-.
  - by destruct (cl_idle_deadline c).
  - revert Hstep. unfold on_datagram.
    destruct (handle_packet _ _ _ packet) as [[[[p ring] s] []]|]; cbn [mbind option_bind]; done.
  - by injection Hstep as _ <-.
  - injection Hstep as Hstep. revert Hstep. unfold on_message, queue_operation.
    destruct message; repeat case_match; intros; simplify_eq; done.
  - by injection Hstep as _ <-.
Qed.

(** C36. No packet is lost when sound resumes. While an idle notice for [n]
    stands, the packets of a stream that continues at [n] may arrive in any
    order within windows of the playout target: afterwards the ring holds
    exactly their samples (the newest [capacity] of them) and nothing older,
    beginning with packet [n], and no packet counts as lost or late. *)
Theorem resumption_loses_nothing (c : ClientLoop) (n rtt : Z) (first arrivals : list AudioPacket)
  (ws : list (list AudioPacket * list AudioPacket))
  (Hwf : client_wf c) (Hidle : cl_idle_boundary c = Some n)
  (Hfirst : Z.of_nat (length first) = jb_target_packets (rp_jitter (cl_pipeline c))) (Hperm : arrivals ≡ₚ first)
  (Hws : windows_ok (jb_target_packets (rp_jitter (cl_pipeline c))) ws)
  (Htarget : jb_target_packets (rp_jitter (cl_pipeline c)) < 2 ^ 31)
  (Horder : in_order n (first ++ concat (ws.*1)))
  (Hsizes : Forall (fun a => Z.of_nat (length (ap_payload a)) = rp_expected_packet_bytes (cl_pipeline c))
              (first ++ concat (ws.*1))) :
  exists c', client_run c ((fun a => CevDatagram (Ok a) rtt) <$> (arrivals ++ concat (ws.*2))) = Some (c', None) /\
    rg_queue (cl_ring c') =
      lastn (Z.to_nat (rg_capacity (cl_ring c))) ((first ++ concat (ws.*1)) ≫= (samples_of ∘ ap_payload)) /\
    jb_lost_packets (rp_jitter (cl_pipeline c')) = jb_lost_packets (rp_jitter (cl_pipeline c)) /\
    jb_late_packets (rp_jitter (cl_pipeline c')) = jb_late_packets (rp_jitter (cl_pipeline c)) /\
    cl_idle_boundary c' = None.
Proof. by apply (resume_plays_all c n). Qed.

(** The events that cannot end an idle period announced for [n]: stragglers
    from before it, and everything but another idle notice. *)
Definition keeps_idle (n : Z) (ev : client_event) : Prop :=
  match ev with
  | CevDatagram (Ok packet) _ => ap_sequence packet ∈u 32 /\ sequence_before (ap_sequence packet) n = true
  | CevMessage _ (Ok (AudioIdle _)) => False
  | _ => True
  end.

Lemma send_reports_idle fuel c :
  cl_idle_boundary (send_reports fuel c).1 = cl_idle_boundary c /\
  sh_audio_active (cl_shared (send_reports fuel c).1) = sh_audio_active (cl_shared c).
Proof.
  revert c. induction fuel as [|fuel IH]; intros c; [done|]. cbn [send_reports].
  destruct (take_report _) as [d [report|]]; [|done].
  destruct (writer_send _ report) as [w [u|e]]; [|done].
  destruct (IH (with_writer w (with_shared (put_device d (cl_shared c)) c))) as [-> ->]. done.
Qed.

Lemma client_step_idle c n ev c' r :
  client_wf c -> cl_idle_boundary c = Some n -> sh_audio_active (cl_shared c) = false -> keeps_idle n ev ->
  client_step c ev = Some (c', r) ->
  client_wf c' /\ cl_idle_boundary c' = Some n /\ sh_audio_active (cl_shared c') = false.
Proof.
  intros Hwf Hb Ha Hev Hstep.
  assert (client_wf c') as Hw.
  { destruct (client_step_wf c ev Hwf) as (c1 & r1 & Hs & Hw); [|rewrite Hstep in Hs; by injection Hs as <- <-].
    destruct ev as [| | | |[]|now [[]|]]; try done. by destruct Hev. }
  split; [done|]. destruct ev as [now now_active| | | |[packet|e] rtt|now [message|e]]; cbn [client_step] in Hstep.
  - destruct (tone_active _ now now_active) as [d active]. destruct (negb _); injection Hstep as <- <-; done.
  - injection Hstep as Hstep. destruct (send_reports_idle (length (dc_reports (sh_device (cl_shared c)))) c) as [H1 H2].
    rewrite Hstep in H1, H2. cbn [fst] in *. by rewrite H1, H2.
  - by injection Hstep as <- <-.
  - destruct (cl_idle_deadline c); injection Hstep as <- <-; [|done]. split; [done|]. apply set_audio_value.
  - destruct Hev as [Hseq Hold]. destruct (on_datagram_spec c packet rtt Hwf Hseq)
      as (p & ring & s & h & c1 & _ & Hd & _ & _ & _ & Hi & Haud). rewrite Hd in Hstep. injection Hstep as <- <-.
    assert (resumed c packet = c) as Hres by (unfold resumed; by rewrite Hb, Hold). rewrite Hres, Hb in *.
    split; [done|]. rewrite Haud, bool_decide_eq_false_2 by done. by rewrite andb_false_r.
  - by injection Hstep as <- <-.
  - injection Hstep as Hstep. revert Hstep. unfold on_message, queue_operation.
    destruct message; try done; try (by intros [= <- <-]);
      repeat (destruct (enqueue_operation _ _ _ _ _) as [d []] || case_match); intros; simplify_eq; done.
  - by injection Hstep as <- <-.
Qed.

(** Silence is silence. Once the deadline after an idle notice for [n] has
    passed, nothing but a packet from [n] on (or a new idle notice) makes the
    phone claim audio again: stragglers from before the notice, reports, ticks
    and commands leave it released, however many there are. *)
Theorem idle_until_the_boundary (c c1 c2 : ClientLoop) (n : Z) (evs : list client_event)
  (r : option (result ClientError unit))
  (Hwf : client_wf c) (Hidle : cl_idle_boundary c = Some n) (Hdeadline : is_Some (cl_idle_deadline c))
  (Htimeout : client_step c CevIdleDeadline = Some (c1, None))
  (Hevs : Forall (keeps_idle n) evs) (Hrun : client_run c1 evs = Some (c2, r)) :
  sh_audio_active (cl_shared c2) = false /\ cl_idle_boundary c2 = Some n.
Proof.
  assert (client_wf c1) as Hw1.
  { destruct (client_step_wf c CevIdleDeadline Hwf I) as (c0 & r0 & H & Hw). rewrite Htimeout in H. by injection H as <- _. }
  assert (sh_audio_active (cl_shared c1) = false /\ cl_idle_boundary c1 = Some n) as [Ha Hb].
  { cbn [client_step] in Htimeout. destruct Hdeadline as [t Ht]. rewrite Ht in Htimeout. injection Htimeout as <-.
    split; [apply set_audio_value|done]. }
  clear Htimeout Hwf Hidle Hdeadline. revert c1 Hw1 Ha Hb Hrun.
  induction Hevs as [|ev evs Hev _ IH]; intros c1 Hw1 Ha Hb; cbn [client_run]; [by intros [= <- _]|].
  destruct (client_step c1 ev) as [[c3 r3]|] eqn:Hstep; [|done]. cbn [mbind option_bind].
  destruct (client_step_idle _ _ _ _ _ Hw1 Hb Ha Hev Hstep) as (Hw3 & Hb3 & Ha3).
  destruct r3; [by intros [= <- _]|]. by apply IH.
Qed.
End properties.

(** Reconnection backs off and recovers: after [k] failures in a row the
    phone waits min(2^k, 10) seconds, and after a session that ended cleanly
    the first wait is one second again, whatever happened before. *)
Theorem reconnection_backs_off (attempt : Z) (ring : PcmRing) (shared : SharedState) (errors : list rstring)
  (Hfew : Z.of_nat (length errors) < 2 ^ 32 - 1) :
  retry_delays 0 ring shared (inr <$> errors) =
    (fun k => Z.min (1000 * 2 ^ Z.of_nat k) 10000) <$> seq 0 (length errors) /\
  retry_delays attempt ring shared (inl tt :: (inr <$> errors)) =
    1000 :: ((fun k => Z.min (1000 * 2 ^ Z.of_nat k) 10000) <$> seq 1 (length errors)).
Proof.
  assert (forall k ring shared, Z.of_nat k + Z.of_nat (length errors) < 2 ^ 32 ->
    retry_delays (Z.of_nat k) ring shared (inr <$> errors) =
      (fun k => Z.min (1000 * 2 ^ Z.of_nat k) 10000) <$> seq k (length errors)) as Hgo.
  { induction errors as [|e errors IH]; intros k r s Hk; [done|]. simpl length in *.
    change (inr <$> e :: errors) with (@inr unit rstring e :: (inr <$> errors)). cbn [retry_delays session_round session_ended session_retried seq fmap list_fmap].
    f_equal.
    - unfold retry_delay, RETRY_INITIAL_DELAY, RETRY_MAX_DELAY. rewrite Z.shiftl_1_l.
      destruct (Z.le_gt_cases (Z.of_nat k) 4) as [H|H]; [by rewrite (Z.min_l (Z.of_nat k)) by lia|].
      rewrite (Z.min_r (Z.of_nat k)) by lia. change (2 ^ 4) with 16.
      assert (16 <= 2 ^ Z.of_nat k) by (change 16 with (2 ^ 4); apply Z.pow_le_mono_r; lia). lia.
    - replace (saturating_add 32 (Z.of_nat k) 1) with (Z.of_nat (S k)).
      + apply IH; lia.
      + unfold saturating_add, uint_max. lia. }
  split; [apply (Hgo 0%nat); lia|]. cbn [retry_delays session_round session_ended session_retried]. f_equal. apply (Hgo 1%nat). lia.
Qed.

(** ** Witnesses *)

Definition sized_packet (sequence : Z) : AudioPacket := mkAudioPacket sequence (sequence * 480) (replicate 1920 1).

(** A connected phone that was just told that the server is idle from 7 on. *)
Lemma idle_phone :
  exists c : @ClientLoop PipeEnd, client_wf c /\ cl_idle_boundary c = Some 7 /\ cl_idle_deadline c = Some 1150 /\
    jb_target_packets (rp_jitter (cl_pipeline c)) = 2 /\ rp_expected_packet_bytes (cl_pipeline c) = 1920 /\
    rg_capacity (cl_ring c) = 9600.
Proof.
  destruct (pipeline_new_ok 10 (ring_new PCM_RING_CAPACITY_SAMPLES) shared_default)
    as (p & r & s & _ & Hf & Hj & Hc & _ & _ & Hwf); [lia|split; vm_compute; done|].
  exists (with_idle (Some 7) (Some 1150) (mkClientLoop (mkPipeEnd []) p r s None None None false)).
  split; [split; [exact Hwf|by intros n [= <-]]|]. cbn. split_and!; try done.
  - by rewrite Hj.
  - by rewrite (pw_bytes _ _ _ Hwf), (pw_samples _ _ _ Hwf), Hf.
Qed.

Lemma client_loop_is_total_witness :
  exists c : @ClientLoop PipeEnd, exists c' r,
    client_run c [CevDatagram (Ok (sized_packet 8)) 3; CevMessage 5 (Ok (QueryDevice 9)); CevReportReady;
                  CevMessage 6 (Ok Start)] = Some (c', r) /\
    client_wf c' /\ r <> Some (Err UnsupportedStream).
Proof.
  destruct idle_phone as (c & Hwf & _). exists c.
  apply (client_loop_is_total c _ Hwf). repeat constructor; vm_compute; done.
Defined.

Lemma resumption_loses_nothing_witness :
  exists c c' : @ClientLoop PipeEnd,
    client_run c ((fun a => CevDatagram (Ok a) 3) <$> ([sized_packet 8; sized_packet 7] ++ concat ([([sized_packet 9], [sized_packet 9])].*2)))
      = Some (c', None) /\
    rg_queue (cl_ring c') =
      lastn (Z.to_nat (rg_capacity (cl_ring c)))
        (([sized_packet 7; sized_packet 8] ++ concat ([([sized_packet 9], [sized_packet 9])].*1)) ≫= (samples_of ∘ ap_payload)) /\
    jb_lost_packets (rp_jitter (cl_pipeline c')) = jb_lost_packets (rp_jitter (cl_pipeline c)) /\
    jb_late_packets (rp_jitter (cl_pipeline c')) = jb_late_packets (rp_jitter (cl_pipeline c)) /\
    cl_idle_boundary c' = None.
Proof.
  destruct idle_phone as (c & Hwf & Hb & _ & Ht & Hbytes & _). exists c.
  apply (resumption_loses_nothing c 7 3 [sized_packet 7; sized_packet 8] [sized_packet 8; sized_packet 7]
           [([sized_packet 9], [sized_packet 9])] Hwf Hb).
  - by rewrite Ht.
  - apply Permutation_swap.
  - rewrite Ht. apply Forall_singleton. split; [done|simpl; lia].
  - rewrite Ht. lia.
  - split_and!; reflexivity || done.
  - rewrite Hbytes. cbn [concat fmap list_fmap app fst].
    repeat constructor; cbn [sized_packet ap_payload]; by rewrite length_replicate.
Defined.

Lemma idle_until_the_boundary_witness :
  exists c c1 c2 : @ClientLoop PipeEnd, exists r,
    client_step c CevIdleDeadline = Some (c1, None) /\
    client_run c1 [CevDatagram (Ok (sized_packet 6)) 3; CevReportReady; CevMessage 6 (Ok (QueryDevice 9))] = Some (c2, r) /\
    (sh_audio_active (cl_shared c2) = false /\ cl_idle_boundary c2 = Some 7).
Proof.
  destruct idle_phone as (c & Hwf & Hb & Hd & _). exists c.
  destruct (client_step_wf c CevIdleDeadline Hwf I) as (c1 & r1 & Hstep & Hw).
  assert (r1 = None) as -> by (cbn [client_step] in Hstep; rewrite Hd in Hstep; by injection Hstep as _ <-).
  destruct (client_run_wf [CevDatagram (Ok (sized_packet 6)) 3; CevReportReady; CevMessage 6 (Ok (QueryDevice 9))] c1 Hw)
    as (c2 & r & Hrun & _); [repeat constructor; vm_compute; done|].
  exists c1, c2, r. split_and!; [done|done|..];
    apply (idle_until_the_boundary c c1 c2 7 [CevDatagram (Ok (sized_packet 6)) 3; CevReportReady; CevMessage 6 (Ok (QueryDevice 9))] r);
    try done; try (by rewrite Hd); repeat constructor; vm_compute; done.
Defined.

Lemma reconnection_backs_off_witness :
  retry_delays 0 (ring_new 2) shared_default (inr <$> [[1]; [2]; [3]; [4]; [5]]) = [1000; 2000; 4000; 8000; 10000] /\
  retry_delays 9 (ring_new 2) shared_default (inl tt :: (inr <$> [[1]; [2]])) = [1000; 2000; 4000].
Proof.
  split; [apply (reconnection_backs_off 9 (ring_new 2) shared_default [[1]; [2]; [3]; [4]; [5]])
         |apply (reconnection_backs_off 9 (ring_new 2) shared_default [[1]; [2]])]; vm_compute; done.
Defined.
