(* ===== verification/EndToEnd.v ===== *)
(** * EndToEnd: server and phone together

    The two programs share the wire format and nothing else.  These theorems
    run the server's functions of [Server] against the phone's of [Client]: the
    handshakes fit each other, and the samples captured on the server are the
    samples in the phone's ring. *)

From Stdlib Require Import ZArith Lia.
From S2P Require Import Prelude BTree Wire Text Transport Silence Packetizer Registry Jitter Ring DeviceControl ClientState Receiver Client Server.

(** ** The handshakes *)

Section handshakes.
Context {W R : Type} `{!SendStream W, !SendStreamLaws W} `{!RecvStream R, !RecvStreamLaws R}.
Context {Hcodec : ControlCodec} {Hlaws : ControlCodecLaws} {C : Type} `{!QuicConnection C}.

Lemma duration_range d : d ∈ PACKET_DURATIONS -> 1 <= d <= 255.
Proof. intros Hd. pattern d. apply durations_cases; [lia..|done]. Qed.

Lemma server_greeting (c : C) (w w' : W) d :
  perform_handshake c (Ready (Some w)) (Ready (Ok (Hello PROTOCOL_VERSION))) = (Some w', Ok d) ->
  send_all w (greeting d) = (w', Ok tt) /\ choose_packet_duration_ms (max_payload_len c) = Some d.
Proof.
  unfold perform_handshake. rewrite Z.eqb_refl. cbn [negb].
  destruct (sender_new c) as [c1|] eqn:Hnew; [|done].
  assert (c1 = c) as -> by (unfold sender_new in Hnew; destruct (max_datagram_size c); congruence).
  destruct (choose_packet_duration_ms (max_payload_len c)) as [d1|]; [|done].
  unfold send_or_fail, greeting. cbn [send_all].
  destruct (writer_send w (Hello PROTOCOL_VERSION)) as [w1 [[]|]]; cbn [map_err]; [|done].
  destruct (writer_send w1 _) as [w2 [[]|]] eqn:H2; cbn [map_err]; [|done].
  destruct (writer_send w2 Start) as [w3 [[]|]] eqn:H3; cbn [map_err]; [|done].
  intros [= <- <-]. by rewrite H2, H3.
Qed.

(** What the phone does with the server's greeting. *)
Lemma phone_accepts (cw cw' : W) (r r' : R) d ring shared :
  1 <= d <= 255 -> ring_wf ring -> writer_send cw (Hello PROTOCOL_VERSION) = (cw', Ok tt) ->
  receive_n r 3 = (r', Ok (greeting d)) ->
  exists loop, connected_start cw r ring shared true = (r', Ok loop) /\ client_wf loop /\
    rp_frame_duration_ms (cl_pipeline loop) = d /\ state (cl_shared loop) = Connected /\
    cl_idle_boundary loop = None /\
    rp_jitter (cl_pipeline loop) = jb_new (Z.max (div_ceil INITIAL_JITTER_BUFFER_MS d) 1) /\
    rp_last_underruns (cl_pipeline loop) = rg_underruns (cl_ring loop) /\
    rg_queue (cl_ring loop) = rg_queue ring /\ rg_capacity (cl_ring loop) = rg_capacity ring.
Proof.
  intros Hd Hring Hsend Hrecv. unfold connected_start. rewrite Hsend.
  unfold greeting in Hrecv. cbn [receive_n] in Hrecv. unfold expect_hello, expect_stream_info, expect_start.
  destruct (reader_receive r) as [r1 [m1|]]; [|done]. destruct (reader_receive r1) as [r2 [m2|]] eqn:H2; [|done].
  destruct (reader_receive r2) as [r3 [m3|]] eqn:H3; [|done]. injection Hrecv as -> -> -> ->.
  rewrite Z.eqb_refl, H2. cbv beta iota zeta. rewrite H3. cbv beta iota zeta. unfold stream_info.
  destruct (pipeline_new_ok d ring shared Hd Hring) as (p & ring' & shared' & -> & Hf & Hj & Hcap & Hq & Hu & Hwf).
  cbn [mbind result_bind negb]. eexists. split; [reflexivity|]. cbn. split_and!; try done.
  - split; [|done]. cbn. eapply pipeline_wf_shared; [exact Hwf|]. unfold ClientState.set. cbn. by case_match.
  - unfold state, ClientState.set. cbn. by case_match.
Qed.

(** The loop of a phone that is connected and expects packets of [d] milliseconds. *)
Definition connected_for (d : Z) (loop : @ClientLoop W) : Prop :=
  client_wf loop /\ state (cl_shared loop) = Connected /\
  rp_expected_packet_bytes (cl_pipeline loop) = Packetizer.samples_per_packet d * 2.

(** C35. The handshakes fit each other. When the server's handshake succeeds
    with duration [d], a phone that sent the hello the server waits for and
    reads what the server wrote enters its connected loop, with the bytes of
    the greeting consumed exactly, the state "connected", and the packet size
    of the server's packets; and its hello is the message the server's reader
    receives. *)
Theorem handshakes_meet (c : C) (w w' cw cw' : W) (r r0 : R) (d : Z) (ring : PcmRing) (shared : SharedState)
  (Hserver : perform_handshake c (Ready (Some w)) (Ready (Ok (Hello PROTOCOL_VERSION))) = (Some w', Ok d))
  (Hfresh : written w = [] /\ written cw = []) (Hphone : writer_send cw (Hello PROTOCOL_VERSION) = (cw', Ok tt))
  (Hwire : pending r = written w') (Hback : pending r0 = written cw') (Hring : ring_wf ring) :
  (exists r0', reader_receive r0 = (r0', Ok (Hello PROTOCOL_VERSION))) /\
  exists r' loop, connected_start cw r ring shared true = (r', Ok loop) /\ pending r' = [] /\ connected_for d loop.
Proof.
  destruct Hfresh as [Hw Hcw]. apply server_greeting in Hserver as [Hsend Hchoose].
  apply choose_duration_sound in Hchoose as [Hd _]. split.
  - destruct (writer_send_ok _ _ _ Hphone) as (b & Hb & Hlen & Hcw'). rewrite Hcw in Hcw'. simpl in Hcw'.
    destruct (reader_receive_frame r0 b [] (Hello PROTOCOL_VERSION)) as (r0' & Hr & _);
      [by rewrite app_nil_r, Hback|done|done|]. by exists r0'.
  - destruct (send_all_written _ _ _ Hsend) as (bs & Hbs & Hw'). rewrite Hw in Hw'. simpl in Hw'.
    destruct (receive_frames _ _ r [] Hbs) as (r' & Hrecv & Hpend); [by rewrite app_nil_r, Hwire|].
    destruct (phone_accepts cw cw' r r' d ring shared (duration_range d Hd) Hring Hphone Hrecv)
      as (loop & Hloop & Hwf & Hf & Hst & _). exists r', loop. unfold connected_for. split_and!; try done.
    by rewrite (pw_bytes _ _ _ (proj1 Hwf)), (pw_samples _ _ _ (proj1 Hwf)), Hf.
Qed.
End handshakes.

Lemma handshakes_meet_witness :
  exists w', perform_handshake (mkSink []) (Ready (Some (mkPipeEnd []))) (Ready (Ok (Hello PROTOCOL_VERSION))) = (Some w', Ok 5) /\
  exists r' loop, connected_start (mkPipeEnd []) w' (ring_new 9600) shared_default true = (r', Ok loop) /\ pending r' = [] /\
    connected_for 5 loop.
Proof.
  destruct (perform_handshake (mkSink []) (Ready (Some (mkPipeEnd []))) (Ready (Ok (Hello PROTOCOL_VERSION)))) as [ow r] eqn:Hs.
  assert (exists w', ow = Some w' /\ r = Ok 5) as (w' & -> & ->).
  { vm_compute in Hs. injection Hs as <- <-. by eexists. }
  exists w'. split; [reflexivity|].
  destruct (writer_send (mkPipeEnd []) (Hello PROTOCOL_VERSION)) as [cw' res] eqn:Hc.
  assert (res = Ok tt) as -> by (vm_compute in Hc; by injection Hc as _ <-).
  apply (handshakes_meet (mkSink []) (mkPipeEnd []) w' (mkPipeEnd []) cw' w' cw' 5 (ring_new 9600) shared_default Hs);
    done.
Defined.

(** ** The audio *)

Section audio.
Context {C : Type} `{!QuicConnection C} {Hquic : QuicConnectionLaws C}.
Context {W : Type} `{!SendStream W} {Hcodec : ControlCodec}.

(** A packet the decoder returns for any bytes. *)
Definition decoded (b : bytes) : AudioPacket :=
  match decode b with Ok p => p | Err _ => mkAudioPacket 0 0 [] end.

Definition datagram_event (rtt : Z) (b : bytes) : client_event := CevDatagram (datagram_receive (Some b)) rtt.

Lemma datagram_events rtt bs :
  Forall (fun b => exists p, decode b = Ok p) bs ->
  datagram_event rtt <$> bs = (fun p => CevDatagram (Ok p) rtt) <$> (decoded <$> bs).
Proof.
  induction 1 as [|b bs [p Hp] _ IH]; [done|]. rewrite !fmap_cons, IH. f_equal.
  unfold datagram_event, datagram_receive, decoded. by rewrite Hp.
Qed.

(** The first packet of a stream fixes where a fresh jitter buffer starts. *)
Lemma push_fresh t p rest :
  push_all (jb_new t) (p :: rest) = push_all (restart (jb_new t) (ap_sequence p)) (p :: rest).
Proof. done. Qed.

Lemma in_order_datagrams pos ps : in_order (wrap 32 pos) (datagrams_of pos ps).
Proof.
  revert pos. induction ps as [|[t x] ps IH]; intros pos; [done|]. simpl. split; [done|].
  rewrite wrap_succ. apply IH.
Qed.

Lemma wrap_0 : wrap 32 0 = 0.
Proof. done. Qed.

(** Every packet carries a 64-bit timestamp. *)
Definition tail_timed (k : Packetizer) : Prop :=
  forall tail, pk_pending_tail k = Some tail -> pt_timestamp tail ∈u 64.

Lemma sample_time_range b off : sample_time b off ∈u 64.
Proof. apply wrapping_add_range. lia. Qed.

Lemma packets_timed k b :
  tail_timed k -> Forall (fun p => p.1 ∈u 64) (packets k b) /\ tail_timed (after k b).
Proof.
  intros Hk. unfold packets, after. destruct (pk_frame_duration_ms k =? 4).
  - split.
    + apply Forall_app. split.
      * unfold tail_packet. destruct (pk_pending_tail k) as [tail|] eqn:Ht; [|constructor].
        destruct (contiguous k b); [|constructor]. constructor; [by apply Hk|constructor].
      * generalize (start_offset k b). induction (length (pb_samples b)) as [|n IH]; intros off; [constructor|].
        cbn [four_ms_list]. destruct (Nat.leb _ _); [|constructor].
        specialize (IH (off + FOUR_MS_PACKET_SAMPLES)%nat). destruct (four_ms_list n b _) as [ps last].
        constructor; [apply sample_time_range|done].
    + destruct (negb _); intros tail; [intros [= <-]; apply sample_time_range|done].
  - split; [|done]. generalize (length (pb_samples b)) as n. generalize 0%nat as idx. generalize (pb_samples b) as rest.
    intros rest idx n. revert rest idx. induction n as [|n IH]; intros rest idx; [constructor|].
    destruct rest as [|x rest]; [constructor|]. cbn [chunk_list]. constructor; [apply sample_time_range|apply IH].
Qed.

Lemma packets_all_timed blocks k : tail_timed k -> Forall (fun p => p.1 ∈u 64) (packets_all k blocks).1.
Proof.
  revert k. induction blocks as [|b blocks IH]; intros k Hk; [constructor|]. cbn [packets_all].
  destruct (packets_timed k b Hk) as [H1 H2]. specialize (IH _ H2). destruct (packets_all (after k b) blocks) as [ps k'].
  by apply Forall_app.
Qed.

(** The packets of a gapless capture, as they leave. *)
Lemma datagrams_wf d t blocks :
  d ∈ PACKET_DURATIONS -> 0 <= t -> capture t blocks ->
  Forall (fun p => packet_wf p /\ Z.of_nat (length (ap_payload p)) = Packetizer.samples_per_packet d * 2)
    (datagrams_of 0 (packets_all (packetizer_new d) blocks).1).
Proof.
  intros Hd Ht Hcap. destruct (packets_all_spec d blocks t _ Hd (packetizer_new_in_step d t) Ht Hcap) as [_ H2].
  assert (tail_timed (packetizer_new d)) as Htimed by done. pose proof (packets_all_timed blocks _ Htimed) as H3.
  apply Forall_lookup. intros i p Hp. apply datagrams_of_lookup in Hp as (q & Hq & ->).
  destruct (H2 i q Hq) as [_ Hlen]. split; [unfold packet_wf; cbn [ap_sequence ap_timestamp ap_payload]; split_and!|].
  - apply wrap_range. lia.
  - by eapply (Forall_lookup_1 _ _ i) in H3.
  - unfold payload_of. clear. induction q.2 as [|x l IH]; [constructor|]. rewrite bind_cons. apply Forall_app.
    split; [apply i16_to_le_bytes_bytes|done].
  - cbn [ap_payload]. rewrite length_payload, Hlen. clear -Hd. pattern d. by apply (durations_cases _ d).
Qed.

Lemma bind_datagrams pos ps :
  Forall in_i16 (concat (ps.*2)) -> datagrams_of pos ps ≫= (samples_of ∘ ap_payload) = concat (ps.*2).
Proof.
  revert pos. induction ps as [|[t x] ps IH]; intros pos; [done|]. rewrite fmap_cons. cbn [concat snd].
  intros [Hx Hps]%Forall_app. cbn [datagrams_of]. rewrite bind_cons, IH by done. f_equal. by apply samples_of_le.
Qed.

Lemma decoded_encode dgs : Forall packet_wf dgs -> decoded <$> (encode <$> dgs) = dgs.
Proof.
  induction 1 as [|p dgs Hp _ IH]; [done|]. rewrite !fmap_cons, IH. f_equal. unfold decoded. by rewrite decode_encode.
Qed.

(** The windows of datagrams, decoded. *)
Definition decode_windows (ws : list (list bytes * list bytes)) : list (list AudioPacket * list AudioPacket) :=
  (fun w : list bytes * list bytes => (fmap (M := list) decoded w.1, fmap (M := list) decoded w.2)) <$> ws.

Lemma decode_windows_concat ws :
  concat ((decode_windows ws).*1) = decoded <$> concat (ws.*1) /\
  concat ((decode_windows ws).*2) = decoded <$> concat (ws.*2).
Proof.
  induction ws as [|w ws [IH1 IH2]]; [done|]. unfold decode_windows in *. csimpl. rewrite IH1, IH2, !fmap_app. done.
Qed.

(** A stream of datagrams, reordered inside windows, through a fresh phone. *)
Lemma fresh_plays_all (loop : @ClientLoop W) rtt dgs first arrivals ws :
  client_wf loop -> cl_idle_boundary loop = None ->
  rp_last_underruns (cl_pipeline loop) = rg_underruns (cl_ring loop) -> rg_queue (cl_ring loop) = [] ->
  (exists target, rp_jitter (cl_pipeline loop) = jb_new target) ->
  Z.of_nat (length first) = jb_target_packets (rp_jitter (cl_pipeline loop)) -> arrivals ≡ₚ first ->
  head arrivals = head first ->
  Forall (fun w => w.2 ≡ₚ w.1 /\ Z.of_nat (length w.1) <= jb_target_packets (rp_jitter (cl_pipeline loop))) ws ->
  jb_target_packets (rp_jitter (cl_pipeline loop)) < 2 ^ 31 ->
  first ++ concat (ws.*1) = encode <$> dgs -> in_order 0 dgs ->
  Forall (fun p => packet_wf p /\ Z.of_nat (length (ap_payload p)) = rp_expected_packet_bytes (cl_pipeline loop)) dgs ->
  exists loop', client_run loop (datagram_event rtt <$> (arrivals ++ concat (ws.*2))) = Some (loop', None) /\
    rg_queue (cl_ring loop') = lastn (Z.to_nat (rg_capacity (cl_ring loop))) (dgs ≫= (samples_of ∘ ap_payload)) /\
    jb_lost_packets (rp_jitter (cl_pipeline loop')) = 0 /\ jb_late_packets (rp_jitter (cl_pipeline loop')) = 0.
Proof.
  intros Hwf Hb Hu Hq [target Hj] Hfirst Hperm Hhead Hws Hsmall Hsent Hord Hdgs.
  apply Forall_and in Hdgs as [Hpw Hsize].
  assert (concat (ws.*2) ≡ₚ concat (ws.*1)) as Hwsperm.
  { clear -Hws. induction Hws as [|w ws [Hw _] _ IH]; [done|]. csimpl. by rewrite Hw, IH. }
  assert (Forall (fun b => exists p, decode b = Ok p) (arrivals ++ concat (ws.*2))) as Hdec.
  { rewrite Hperm, Hwsperm, Hsent. apply Forall_fmap. eapply Forall_impl; [exact Hpw|]. intros p Hp. exists p. by apply decode_encode. }
  destruct (decode_windows_concat ws) as [Hw1 Hw2].
  assert ((decoded <$> first) ++ concat ((decode_windows ws).*1) = dgs) as Hall
    by (by rewrite Hw1, <- fmap_app, Hsent, decoded_encode).
  pose proof (pw_jitter _ _ _ (proj1 Hwf)) as Hjw. pose proof (wf_target _ Hjw) as Htgt. rewrite Hj in *.
  destruct (reordering_plays_all (jb_new target) 0 (decoded <$> first) (decoded <$> arrivals) (decode_windows ws) Hjw)
    as (j' & Hpush & _ & Hlost & Hlate); [done|by rewrite length_fmap|by rewrite Hperm| |done|by rewrite Hall|].
  { unfold windows_ok, decode_windows. apply Forall_fmap. eapply Forall_impl; [exact Hws|]. intros w [H1 H2]. simpl.
    rewrite length_fmap. split; [by rewrite H1|done]. }
  rewrite Hall in Hpush.
  assert (push_all (jb_new target) (decoded <$> (arrivals ++ concat (ws.*2))) = Some (j', Audio <$> dgs)) as Hpush'.
  { rewrite fmap_app, <- Hw2. destruct first as [|b first]; [simpl in Hfirst; lia|].
    destruct arrivals as [|b' arrivals]; [done|]. simpl in Hhead. injection Hhead as ->.
    assert (ap_sequence (decoded b) = 0) as H0 by (rewrite <- Hall in Hord; by destruct Hord).
    rewrite fmap_cons. cbn [app]. rewrite push_fresh, H0. rewrite fmap_cons in Hpush. exact Hpush. }
  destruct (smooth_stream loop (decoded <$> (arrivals ++ concat (ws.*2))) dgs rtt j' Hwf Hb Hu) as (loop' & Hrun & H1 & H2 & _).
  - rewrite fmap_app, Hperm, Hwsperm, <- fmap_app, Hsent, decoded_encode by done.
    apply Forall_and. split; [|done]. eapply Forall_impl; [exact Hpw|]. by intros p (Hs & _).
  - by rewrite Hj.
  - by rewrite Hj.
  - exists loop'. rewrite datagram_events by done. split_and!; [done| | |].
    + by rewrite H1, Hq.
    + by rewrite H2, Hlost.
    + by rewrite H2, Hlate.
Qed.

(** C2. Sound goes through. A server captures gapless, audible blocks and sends
    them; no datagram is refused by the connection on the way and none gets too
    large for it. A freshly connected phone with an empty ring receives the
    datagrams: the very first one first, those up to its playout target in any
    order after it, and the others in any order within windows of the playout
    target. Then the phone decodes all of them, loses none, and its ring holds,
    in order and sample by sample, what was captured (the newest samples, as many
    as the ring has room for), up to the less than a packet that the server still
    keeps for the next block. *)
Theorem captured_audio_is_heard (c0 c : C) (d t rtt : Z) (blocks : list PcmBlock) (evs : list sender_event)
  (loop : @ClientLoop W) (first arrivals : list bytes) (ws : list (list bytes * list bytes)) (t0 t1 : SenderTask)
  (Hagreed : choose_packet_duration_ms (max_payload_len c0) = Some d) (Hstart : sender_start c d = Ok t0)
  (Ht : 0 <= t) (Hcapture : capture t blocks) (Hevs : Forall2 undisturbed blocks evs)
  (Hsamples : Forall in_i16 (concat (pb_samples <$> blocks)))
  (Hrun : sender_run t0 evs = (t1, None)) (Htaken : refused (st_conn t1) = refused c)
  (Hsent : sent (st_conn t1) = sent c ++ first ++ concat (ws.*1))
  (Hloop : client_wf loop) (Hduration : rp_frame_duration_ms (cl_pipeline loop) = d)
  (Hfresh : cl_idle_boundary loop = None /\ rp_last_underruns (cl_pipeline loop) = rg_underruns (cl_ring loop) /\
            rg_queue (cl_ring loop) = [] /\ exists target, rp_jitter (cl_pipeline loop) = jb_new target)
  (Hfirst : Z.of_nat (length first) = jb_target_packets (rp_jitter (cl_pipeline loop)))
  (Hperm : arrivals ≡ₚ first) (Hhead : head arrivals = head first)
  (Hws : Forall (fun w => w.2 ≡ₚ w.1 /\
           Z.of_nat (length w.1) <= jb_target_packets (rp_jitter (cl_pipeline loop))) ws)
  (Htarget : jb_target_packets (rp_jitter (cl_pipeline loop)) < 2 ^ 31) :
  exists loop' heard tail,
    client_run loop (datagram_event rtt <$> (arrivals ++ concat (ws.*2))) = Some (loop', None) /\
    concat (pb_samples <$> blocks) = heard ++ tail /\
    Z.of_nat (length tail) < Packetizer.samples_per_packet d /\
    rg_queue (cl_ring loop') = lastn (Z.to_nat (rg_capacity (cl_ring loop))) heard /\
    jb_lost_packets (rp_jitter (cl_pipeline loop')) = 0 /\ jb_late_packets (rp_jitter (cl_pipeline loop')) = 0.
Proof.
  destruct Hfresh as (Hb & Hu & Hq & Hj).
  apply choose_duration_sound in Hagreed as [Hd _].
  unfold sender_start, sender_new in Hstart. destruct (max_datagram_size c); [|done]. injection Hstart as <-.
  pose proof (packetizer_new_in_step d t) as Hstep.
  destruct (undisturbed_run d t 0 (packetizer_new d)
    (mkSenderTask c (packetizer_new d) silence_new counters_default []) blocks evs) as (t2 & err & Hrun2 & Hout); try done.
  rewrite Hrun in Hrun2. injection Hrun2 as <- Herr. destruct err; [done|].
  rewrite (handed_on_sent _ _ _ Hout Htaken) in Hsent. cbn [st_conn] in Hsent. apply app_inv_head in Hsent.
  destruct (packets_all_spec d blocks t _ Hd Hstep Ht Hcapture) as [Hconcat _].
  pose proof (datagrams_wf d t blocks Hd Ht Hcapture) as Hwfs.
  destruct (fresh_plays_all loop rtt (datagrams_of 0 (packets_all (packetizer_new d) blocks).1) first arrivals ws)
    as (loop' & Hclient & H1 & H2 & H3); try done.
  - apply (in_order_datagrams 0).
  - eapply Forall_impl; [exact Hwfs|]. intros p [Hp Hl]. split; [done|].
    by rewrite Hl, (pw_bytes _ _ _ (proj1 Hloop)), (pw_samples _ _ _ (proj1 Hloop)), Hduration.
  - simpl in Hconcat.
    exists loop', (concat ((packets_all (packetizer_new d) blocks).1.*2)), (tail_samples (packets_all (packetizer_new d) blocks).2).
    split_and!; try done.
    + apply shaped_tail; [done|]. apply packets_all_shaped; [done|by eapply in_step_shaped|by eapply capture_blocks].
    + rewrite H1, bind_datagrams; [done|]. rewrite Hconcat in Hsamples. by apply Forall_app in Hsamples as [].
Qed.
End audio.

(** A phone fresh from the handshake at 5 ms. *)
Lemma fresh_phone :
  exists loop : @ClientLoop PipeEnd, client_wf loop /\ rp_frame_duration_ms (cl_pipeline loop) = 5 /\
    cl_idle_boundary loop = None /\ rp_last_underruns (cl_pipeline loop) = rg_underruns (cl_ring loop) /\
    rg_queue (cl_ring loop) = [] /\ rp_jitter (cl_pipeline loop) = jb_new 4 /\ rg_capacity (cl_ring loop) = 9600.
Proof.
  destruct (pipeline_new_ok 5 (ring_new PCM_RING_CAPACITY_SAMPLES) shared_default)
    as (p & r & s & _ & Hf & Hj & Hc & Hq & Hu & Hwf); [lia|split; vm_compute; done|].
  exists (mkClientLoop (mkPipeEnd []) p r s None None None false). split; [by split|]. by split_and!.
Qed.

Definition two_blocks : list PcmBlock := [mkPcmBlock 0 (replicate 960 7); mkPcmBlock 480 (replicate 960 (-7))].
Definition two_events : list sender_event := (fun b => SendBlock b true true (replicate 16 true) true) <$> two_blocks.
Definition sink_task : @SenderTask Sink :=
  mkSenderTask (mkSink []) (packetizer_new 5) silence_new counters_default [].

Lemma captured_audio_is_heard_witness :
  exists (loop loop' : @ClientLoop PipeEnd) b0 b1 b2 b3 heard tail,
    sent (st_conn (sender_run sink_task two_events).1) = [b0; b1; b2; b3] /\
    client_run loop (datagram_event 3 <$> ([b0; b2; b3; b1] ++ concat (([] : list (list bytes * list bytes)).*2))) = Some (loop', None) /\
    concat (pb_samples <$> two_blocks) = heard ++ tail /\
    Z.of_nat (length tail) < Packetizer.samples_per_packet 5 /\
    rg_queue (cl_ring loop') = lastn (Z.to_nat (rg_capacity (cl_ring loop))) heard /\
    jb_lost_packets (rp_jitter (cl_pipeline loop')) = 0 /\ jb_late_packets (rp_jitter (cl_pipeline loop')) = 0.
Proof.
  destruct fresh_phone as (loop & Hwf & Hd & Hb & Hu & Hq & Hj & Hc).
  assert (length (sent (st_conn (sender_run sink_task two_events).1)) = 4%nat) as Hlen by (vm_compute; reflexivity).
  assert (refused (st_conn (sender_run sink_task two_events).1) = []) as Hnone by (vm_compute; reflexivity).
  assert ((sender_run sink_task two_events).2 = None) as Hgoes by (vm_compute; reflexivity).
  destruct (sender_run sink_task two_events) as [t1 r] eqn:Hrun. cbn [fst snd] in *. subst r.
  destruct (sent (st_conn t1)) as [|b0 [|b1 [|b2 [|b3 [|b4 l]]]]] eqn:Hsent; try discriminate Hlen.
  destruct (captured_audio_is_heard (mkSink []) (mkSink []) 5 0 3 two_blocks two_events loop [b0; b1; b2; b3] [b0; b2; b3; b1] [] sink_task t1)
    as (loop' & heard & tail & H).
  - vm_compute. reflexivity.
  - reflexivity.
  - lia.
  - cbn [two_blocks capture pb_timestamp]. unfold block_ok, pb_samples. rewrite !length_replicate.
    split_and!; (reflexivity || lia || exact I).
  - repeat constructor; try (vm_compute; reflexivity);
      (exists (replicate 16 true), true; split; [split; [by apply Forall_replicate|rewrite length_replicate; lia]|reflexivity]).
  - cbn [two_blocks concat fmap list_fmap pb_samples app].
    repeat (apply Forall_app; split); try (apply Forall_replicate; unfold in_i16; lia); constructor.
  - exact Hrun.
  - exact Hnone.
  - rewrite Hsent. reflexivity.
  - exact Hwf.
  - exact Hd.
  - split_and!; [exact Hb|exact Hu|exact Hq|by exists 4].
  - by rewrite Hj.
  - apply perm_skip. rewrite (Permutation_app_comm [b2; b3] [b1]). reflexivity.
  - reflexivity.
  - constructor.
  - rewrite Hj. vm_compute. reflexivity.
  - exists loop, loop', b0, b1, b2, b3, heard, tail. split; [reflexivity|exact H].
Defined.
