(* ===== verification/Reconnect.v ===== *)
(** * Reconnect: the task that keeps a phone connected

    [run_session] and [run_session_inner] of
    [android/app/src/main/rust/src/client.rs] as one resumable task: a step is
    what happens between two points where the source waits.  The ring and the
    shared state belong to other threads too, so a step gets them and returns
    them.  [Client] has the pieces the steps are made of. *)

From Stdlib Require Import ZArith Lia.
From S2P Require Import Prelude BTree Wire Text Transport Packetizer Address Jitter Ring DeviceControl ClientState Receiver Client Server EndToEnd.

(** ** The task *)

Section run_session.
Context {W R : Type} `{!SendStream W} `{!RecvStream R} {Hcodec : ControlCodec}.

(** The text of an error ([Display] of [ClientError]). *)
Context (describe : ClientError -> rstring).

(** What the calls of one connection attempt return: [Endpoint::client],
    [make_pinned_client_config], [Endpoint::connect], the handshake of the
    connection, [open_bi], and whether the connection takes datagrams. *)
Record Attempt : Type := mkAttempt {
  at_endpoint : bool;
  at_config : bool;
  at_connecting : bool;
  at_connection : bool;
  at_stream : option (W * R);
  at_datagrams : bool;
}.

(** [run_session_inner] up to the loop of [connected_loop]. *)
Definition run_session_inner (a : Attempt) (ring : PcmRing) (shared : SharedState)
  : result (ClientError * PcmRing * SharedState) (@ClientLoop W) :=
  let failed e := Err (e, ring, shared) in
  if negb (at_endpoint a) then failed EndpointFailed
  else if negb (at_config a) then failed TransportFailed
  else if negb (at_connecting a) then failed RuntimeFailed
  else if negb (at_connection a) then failed RuntimeFailed
  else match at_stream a with
       | None => failed RuntimeFailed
       | Some (writer, reader) => (connected_start writer reader ring shared (at_datagrams a)).2
       end.

(** Where the task waits: for the connection, in the loop, in the [sleep]. *)
Inductive Phase : Type :=
| PhAttempt
| PhLoop (c : @ClientLoop W)
| PhSleep.

Record SessionTask : Type := mkSessionTask {
  se_address : SocketAddress;
  se_fingerprint : bytes;
  se_retry_attempt : Z;
  se_phase : Phase;
}.

Definition session_task_new (address : SocketAddress) (fingerprint : bytes) : SessionTask :=
  mkSessionTask address fingerprint 0 PhAttempt.

Definition with_phase (p : Phase) (t : SessionTask) : SessionTask :=
  mkSessionTask (se_address t) (se_fingerprint t) (se_retry_attempt t) p.
Definition with_retry (n : Z) (t : SessionTask) : SessionTask :=
  mkSessionTask (se_address t) (se_fingerprint t) n (se_phase t).

Inductive session_input : Type :=
| SinAttempt (a : Attempt)
| SinEvent (ev : client_event)
| SinTimer.

(** The loop works on the ring and the state as the other threads left them. *)
Definition attach (ring : PcmRing) (shared : SharedState) (c : @ClientLoop W) : @ClientLoop W :=
  with_shared shared (with_pipeline (cl_pipeline c) ring c).

Definition end_session (t : SessionTask) (ring : PcmRing) (shared : SharedState) (result : unit + rstring)
  : SessionTask * PcmRing * SharedState :=
  let '(ring, shared, retry_attempt) := session_ended ring shared (se_retry_attempt t) result in
  (with_phase PhSleep (with_retry retry_attempt t), ring, shared).

(** An input the phase does not wait for changes nothing; neither does the
    [None] of [client_step], which does not occur. *)
Definition session_task_step (t : SessionTask) (input : session_input) (ring : PcmRing) (shared : SharedState)
  : SessionTask * PcmRing * SharedState :=
  match se_phase t, input with
  | PhAttempt, SinAttempt a =>
      match run_session_inner a ring shared with
      | Ok c => (with_phase (PhLoop c) t, cl_ring c, cl_shared c)
      | Err (e, ring, shared) => end_session t ring shared (inr (describe e))
      end
  | PhLoop c, SinEvent ev =>
      match client_step (attach ring shared c) ev with
      | Some (c, None) => (with_phase (PhLoop c) t, cl_ring c, cl_shared c)
      | Some (c, Some (Ok _)) => end_session t (cl_ring c) (cl_shared c) (inl tt)
      | Some (c, Some (Err e)) => end_session t (cl_ring c) (cl_shared c) (inr (describe e))
      | None => (t, ring, shared)
      end
  | PhSleep, SinTimer =>
      let '(shared, retry_attempt) := session_retried shared (se_retry_attempt t) in
      (with_phase PhAttempt (with_retry retry_attempt t), ring, shared)
  | _, _ => (t, ring, shared)
  end.

(** ** The other threads

    What Kotlin and the audio thread do to the same objects: the calls on the
    device, the volume keys and the wake-up, a read of the ring, the error that
    [nativeConnect] records when its checks refuse a connection
    ([record_connect_error]), and what [disconnect] and [shutdown] do after they
    aborted the task - whose last poll can still go on. *)

Inductive other_op : Type :=
| OthDevice (op : device_op)
| OthTakeAdjustment
| OthNotify
| OthRead (n : nat)
| OthConnectRefused (error : rstring)
| OthDisconnect.

Definition other_step (ring : PcmRing) (shared : SharedState) (op : other_op) : PcmRing * SharedState :=
  match op with
  | OthDevice op => (ring, put_device (device_step (sh_device shared) op) shared)
  | OthTakeAdjustment => (ring, (take_volume_adjustment shared).1)
  | OthNotify => (ring, notify_changed shared)
  | OthRead n => ((read_into ring n).1.1, shared)
  | OthConnectRefused error => (ring, set_error error shared)
  | OthDisconnect => (clear ring, ClientState.set Disconnected shared)
  end.

Definition session_step (s : SessionTask * PcmRing * SharedState) (op : session_input + other_op)
  : SessionTask * PcmRing * SharedState :=
  let '(t, ring, shared) := s in
  match op with
  | inl input => session_task_step t input ring shared
  | inr op => let '(ring, shared) := other_step ring shared op in (t, ring, shared)
  end.

Definition session_history : SessionTask * PcmRing * SharedState -> list (session_input + other_op) ->
  SessionTask * PcmRing * SharedState := foldl session_step.
End run_session.

Arguments Attempt : clear implicits.
Arguments SessionTask : clear implicits.
Arguments session_input : clear implicits.

(** ** Lemmas *)

(** The [u8] of a decoded message is one. *)
Class CodecTyped `{!ControlCodec} : Prop := {
  decoded_frame b i : control_decode b = Some (StreamInfoMsg i) -> si_frame_duration_ms i ∈u 8;
}.

Lemma pipeline_new_inv stream ring shared p ring' shared' :
  si_frame_duration_ms stream ∈u 8 -> ring_wf ring ->
  pipeline_new stream ring shared = Ok (p, ring', shared') ->
  pipeline_wf p ring' shared' /\ rg_queue ring' = rg_queue ring /\ rg_capacity ring' = rg_capacity ring.
Proof.
  intros Hframe Hring. destruct stream as [rate channels format frame]. cbn in Hframe.
  destruct (decide (rate = SAMPLE_RATE /\ channels = CHANNELS /\ format = I16Le /\ frame <> 0))
    as [(-> & -> & -> & Hf)|Hn].
  - assert (1 <= frame <= 255) as Hr by (unfold in_uint in Hframe; lia).
    destruct (pipeline_new_ok frame ring shared Hr Hring) as (p1 & r1 & s1 & -> & _ & _ & H1 & H2 & _ & H3).
    by intros [= <- <- <-].
  - unfold pipeline_new. cbn [si_sample_rate si_channels si_sample_format si_frame_duration_ms].
    destruct (Z.eqb_spec rate SAMPLE_RATE); [|done]. destruct (Z.eqb_spec channels CHANNELS); [|done].
    case_bool_decide; [|done]. destruct (Z.eqb_spec frame 0); [done|]. naive_solver.
Qed.

(** *** The connection state is none of the loop's business *)

Lemma set_audio_state b s : sh_state (set_audio_active b s) = sh_state s.
Proof. unfold set_audio_active. by destruct (negb _). Qed.

Lemma handle_packet_state p ring s packet p' ring' s' h :
  handle_packet p ring s packet = Some (p', ring', s', h) -> sh_state s' = sh_state s.
Proof.
  unfold handle_packet. destruct (negb _); [by intros [= _ _ <- _]|].
  destruct (push _ packet) as [[j out]|]; [|done]. cbn [mbind option_bind]. set (shared := add_late _ _).
  unfold adjust_jitter_after_stutter. destruct (0 <? _); [by intros [= _ _ <- _]|].
  destruct (_ && _); [|by intros [= _ _ <- _]].
  by destruct (increase_target _ _ _) as [? []]; intros [= _ _ <- _].
Qed.

Section loop_facts.
Context {W : Type} `{!SendStream W} {Hcodec : ControlCodec}.
Implicit Types c : @ClientLoop W.

Lemma send_reports_state fuel c :
  sh_state (cl_shared (send_reports fuel c).1) = sh_state (cl_shared c) /\
  cl_ring (send_reports fuel c).1 = cl_ring c.
Proof.
  revert c. induction fuel as [|fuel IH]; intros c; [done|]. cbn [send_reports].
  destruct (take_report _) as [device [report|]]; [|done].
  destruct (writer_send _ report) as [w [u|e]]; [|done]. by rewrite !(proj1 (IH _)), !(proj2 (IH _)).
Qed.

Lemma queue_operation_state c now id o v :
  sh_state (cl_shared (queue_operation c now id o v).1) = sh_state (cl_shared c).
Proof. unfold queue_operation. by destruct (enqueue_operation _ _ _ _ _) as [d []]. Qed.

Lemma client_step_state c ev c' r :
  client_step c ev = Some (c', r) -> sh_state (cl_shared c') = sh_state (cl_shared c).
Proof.
  destruct ev as [now na| | | |[packet|e] rtt|now [m|e]]; cbn [client_step].
  - destruct (tone_active _ now na) as [d a]. by destruct (negb _); intros [= <- _].
  - intros [= H]. destruct (send_reports_state (length (dc_reports (sh_device (cl_shared c)))) c) as [Hs _].
    by rewrite H in Hs.
  - by intros [= <- _].
  - destruct (cl_idle_deadline c); intros [= <- _]; [apply set_audio_state|done].
  - unfold on_datagram. set (d := match cl_idle_boundary c with Some _ => _ | None => c end).
    assert (sh_state (cl_shared d) = sh_state (cl_shared c)) as Hd.
    { unfold d. destruct (cl_idle_boundary c); [|done]. destruct (negb _); [|done]. by destruct (resume _ _ _). }
    destruct (handle_packet _ _ _ packet) as [[[[p ring] shared] handled]|] eqn:Hh; [|done]. cbn [mbind option_bind].
    apply handle_packet_state in Hh. cbn in Hh. rewrite Hd in Hh.
    destruct handled; intros [= <- _]; [|done]. repeat case_match; cbn; rewrite ?set_audio_state; done.
  - by intros [= <- _].
  - intros [= H]. assert (c' = (on_message c now m).1) as -> by (by rewrite H). clear H.
    destruct m; cbn [on_message fst]; rewrite ?queue_operation_state; try done; repeat case_match; try done;
      by rewrite queue_operation_state.
  - by intros [= <- _].
Qed.
End loop_facts.

(** ** The invariant *)

Section task_facts.
Context {W R : Type} `{!SendStream W} `{!RecvStream R} {Hcodec : ControlCodec} {Htyped : CodecTyped}.
Context (describe : ClientError -> rstring).
Implicit Types (t : SessionTask W) (ring : PcmRing) (shared : SharedState).

(** Nothing is heard, nothing flagged. *)
Definition quiet (ring : PcmRing) (shared : SharedState) : Prop :=
  rg_queue ring = [] /\ sh_audio_active shared = false.

(** The states other than "connected"; [d]: there was a disconnection. *)
Definition not_connected (d : bool) (shared : SharedState) : Prop :=
  sh_state shared = as_raw Connecting \/ sh_state shared = as_raw ClientFailed \/
  (d = true /\ sh_state shared = as_raw Disconnected).

(** In the loop the state is "connected", unless ([m]) another thread marked it. *)
Definition task_inv (d m : bool) (s : SessionTask W * PcmRing * SharedState) : Prop :=
  let '(t, ring, shared) := s in
  ring_wf ring /\
  match se_phase t with
  | PhLoop c => (sh_state shared = as_raw Connected \/ (m = true /\ not_connected d shared)) /\ client_wf (attach ring shared c)
  | PhAttempt | PhSleep => not_connected d shared /\ quiet ring shared
  end.

(** The operations of other threads that set the state. *)
Definition marks (op : session_input W R + other_op) : bool :=
  match op with inr (OthConnectRefused _) | inr OthDisconnect => true | _ => false end.
Definition disconnects (op : session_input W R + other_op) : bool :=
  match op with inr OthDisconnect => true | _ => false end.

Lemma set_state_value s state : sh_state (ClientState.set state s) = as_raw state.
Proof. unfold ClientState.set. by destruct (negb (_ =? _)). Qed.

Lemma set_audio_off s state : state <> Connected -> sh_audio_active (ClientState.set state s) = false.
Proof.
  intros Hs. unfold ClientState.set. rewrite bool_decide_eq_false_2 by done. cbn [negb].
  destruct (negb (_ =? _)); cbn; apply set_audio_value.
Qed.

Lemma clear_wf ring : ring_wf ring -> ring_wf (clear ring).
Proof. intros [H1 H2]. split; [done|]. unfold rg_len. simpl. lia. Qed.

Lemma end_session_inv d m t ring shared result : ring_wf ring -> task_inv d m (end_session t ring shared result).
Proof.
  intros Hr. unfold end_session, session_ended, quiet. destruct result as [u|error]; cbn; unfold quiet; unfold set_error.
  - split_and!; [by apply clear_wf|left; apply set_state_value|done|by apply set_audio_off].
  - split_and!; [by apply clear_wf|right; left; apply set_state_value|done|by apply set_audio_off].
Qed.

(** A ring like the old one, up to its playback target. *)
Lemma connected_start_inv (writer : W) (reader : R) ring shared datagrams :
  ring_wf ring -> rg_queue ring = [] ->
  match (connected_start writer reader ring shared datagrams).2 with
  | Ok c => ring_wf (cl_ring c) /\ sh_state (cl_shared c) = as_raw Connected /\ client_wf c /\ rg_queue (cl_ring c) = []
  | Err (_, ring', _) => ring_wf ring'
  end.
Proof.
  intros Hr Hq. unfold connected_start. destruct (writer_send writer _) as [w [[]|e]]; [|done].
  unfold expect_hello, expect_stream_info, expect_start.
  destruct (reader_receive reader) as [r1 [[]|]]; cbn; try done. destruct (_ =? PROTOCOL_VERSION); cbn; [|done].
  destruct (reader_receive r1) as [r2 [m|]] eqn:Hm; cbn; [|done]. destruct m as [|stream| | | | | | | | | |]; cbn; try done.
  destruct (reader_receive r2) as [r3 [[]|]]; cbn; try done.
  assert (si_frame_duration_ms stream ∈u 8) as Hframe.
  { unfold reader_receive in Hm. repeat case_match; simplify_eq. by eapply decoded_frame. }
  destruct (pipeline_new stream ring shared) as [[[p ring'] shared']|e] eqn:Hp; cbn; [|done].
  destruct (pipeline_new_inv _ _ _ _ _ _ Hframe Hr Hp) as (Hw & Hq' & _).
  pose proof (pw_ring _ _ _ Hw) as Hr'. destruct datagrams; cbn; [|done].
  split_and!; [done|apply set_state_value| |congruence].
  split; [|done]. cbn. eapply pipeline_wf_shared; [exact Hw|]. unfold ClientState.set. cbn. by case_match.
Qed.

Lemma inner_inv a ring shared :
  ring_wf ring -> rg_queue ring = [] ->
  match run_session_inner (R := R) a ring shared with
  | Ok c => ring_wf (cl_ring c) /\ sh_state (cl_shared c) = as_raw Connected /\ client_wf c /\ rg_queue (cl_ring c) = []
  | Err (_, ring', _) => ring_wf ring'
  end.
Proof.
  intros Hr Hq. unfold run_session_inner. destruct a as [[] [] [] [] [[w r]|] d]; cbn; try done.
  by apply connected_start_inv.
Qed.

(** Inputs as the network and the codec deliver them. *)
Definition session_op_ok (op : session_input W R + other_op) : Prop :=
  match op with inl (SinEvent ev) => client_event_ok ev | _ => True end.

Lemma attach_same (c : @ClientLoop W) : attach (cl_ring c) (cl_shared c) c = c.
Proof. by destruct c. Qed.

Lemma task_step_inv d m t input ring shared :
  task_inv d m (t, ring, shared) -> session_op_ok (inl input) ->
  task_inv d m (session_task_step describe t input ring shared).
Proof.
  intros [Hr Hph] Hok. unfold session_task_step. destruct t as [address fingerprint retry phase]. cbn [se_phase] in *.
  destruct phase as [|c|], input as [a|ev|]; try done.
  - destruct Hph as (_ & Hq & _). pose proof (inner_inv a ring shared Hr Hq) as Hi.
    destruct (run_session_inner a ring shared) as [c|[[e ring'] shared']]; [|by apply end_session_inv].
    destruct Hi as (Hr' & Hs & Hw & _). split; [done|]. cbn. rewrite attach_same. split; [by left|done].
  - destruct Hph as [Hs Hw]. destruct (client_step_wf _ ev Hw Hok) as (c' & r & Hstep & Hw'). rewrite Hstep.
    pose proof (client_step_state _ _ _ _ Hstep) as Hs'. cbn in Hs'.
    assert (ring_wf (cl_ring c')) as Hr' by apply Hw'.
    destruct r as [[u|e]|]; [by apply end_session_inv..|]. split; [done|]. cbn. rewrite attach_same.
    unfold not_connected in *. rewrite Hs'. by split.
  - destruct Hph as (_ & Hq & _). split; [done|]. cbn. split; [left; apply set_state_value|]. split; [done|by apply set_audio_off].
Qed.

Lemma read_into_empty ring n : rg_queue ring = [] -> rg_queue (read_into ring n).1.1 = [].
Proof.
  intros Hq. unfold read_into. destruct (rg_buffering ring && _); [done|]. rewrite pop_into_spec. cbn.
  rewrite Hq, drop_nil. unfold finish_read. destruct (negb _); [|done]. by destruct (0 <? _).
Qed.

(** Another thread sets a state other than "connected". *)
Lemma marked_inv d m t ring shared ring' shared' :
  task_inv d m (t, ring, shared) -> m = true -> not_connected d shared' -> sh_audio_active shared' = false ->
  sh_jitter_buffer_ms shared' = sh_jitter_buffer_ms shared -> ring' = ring \/ ring' = clear ring ->
  task_inv d m (t, ring', shared').
Proof.
  intros [Hr Hph] -> Hs Ha Hj Hring.
  assert (ring_wf ring') as Hr' by (destruct Hring as [->| ->]; [done|by apply clear_wf]).
  split; [done|]. destruct (se_phase t) as [|c|].
  - split; [done|]. destruct Hph as (_ & Hq & _). by destruct Hring as [->| ->].
  - split; [by right|]. destruct Hph as [_ [Hw Hb]]. split; [|done]. cbn in *. eapply pipeline_wf_shared; [|exact Hj].
    destruct Hring as [->| ->]; [done|]. by eapply pipeline_wf_ring.
  - split; [done|]. destruct Hph as (_ & Hq & _). by destruct Hring as [->| ->].
Qed.

Lemma set_jitter state s : sh_jitter_buffer_ms (ClientState.set state s) = sh_jitter_buffer_ms s.
Proof.
  unfold ClientState.set. destruct (negb (bool_decide _)); cbn; [|by destruct (negb _)].
  pose proof (set_audio_jitter false s) as H. by destruct (negb _).
Qed.

Lemma other_step_inv d m t ring shared op :
  (marks (inr op) = true -> m = true) -> (disconnects (inr op) = true -> d = true) -> task_inv d m (t, ring, shared) ->
  task_inv d m (t, (other_step ring shared op).1, (other_step ring shared op).2).
Proof.
  intros Hm Hd H. destruct op as [op| | |n|error|]; cbn [other_step fst snd].
  5: { eapply marked_inv; [exact H|by apply Hm|right; left; apply set_state_value|by apply set_audio_off| |by left].
       unfold set_error. by rewrite set_jitter. }
  5: { eapply marked_inv; [exact H|by apply Hm|right; right; split; [by apply Hd|apply set_state_value]|by apply set_audio_off| |by right].
       apply set_jitter. }
  all: destruct H as [Hr Hph].
  1-3: split; [done|]; cbn in *; destruct (se_phase t); try done;
       destruct Hph as [Hs Hw]; split; [done|]; by apply (client_wf_shared (attach ring shared c)).
  destruct (read_into_frame ring n Hr) as (H1 & H2 & H3). split; [done|]. unfold quiet in *.
  destruct (se_phase t) as [|c|]; cbn in *.
  - destruct Hph as (Hs & Hq & Ha). by rewrite (read_into_empty _ _ Hq).
  - destruct Hph as [Hs [Hw Hb]]. split; [done|]. split; [|done]. cbn in *. by eapply pipeline_wf_ring.
  - destruct Hph as (Hs & Hq & Ha). by rewrite (read_into_empty _ _ Hq).
Qed.

(** Whether other threads mark the state or disconnect in [ops]. *)
Definition within (d m : bool) (ops : list (session_input W R + other_op)) : Prop :=
  (existsb marks ops = true -> m = true) /\ (existsb disconnects ops = true -> d = true).

Lemma history_inv d m ops s :
  task_inv d m s -> Forall session_op_ok ops -> within d m ops -> task_inv d m (session_history describe s ops).
Proof.
  intros Hs Hops. revert s Hs. induction Hops as [|op ops Hop _ IH]; intros s Hs [Hm Hd]; [done|]. cbn in Hm, Hd |- *. apply IH.
  - destruct s as [[t ring] shared], op as [input|op].
    + by apply task_step_inv.
    + unfold session_step. pose proof (other_step_inv d m t ring shared op) as H. destruct (other_step ring shared op). apply H; [|..|done].
      * intros E. apply Hm. unfold marks in *. by rewrite E.
      * intros E. apply Hd. unfold disconnects in *. by rewrite E.
  - split; intros E; [apply Hm|apply Hd]; rewrite E; apply orb_true_r.
Qed.

(** What [connect] starts from. *)
Lemma task_start_inv address fingerprint shared capacity :
  0 < capacity -> task_inv false false (session_task_new address fingerprint, ring_new capacity, begin_connecting shared).
Proof.
  intros Hc. unfold begin_connecting. cbn. unfold quiet.
  split_and!; [split; [done|unfold rg_len; cbn; lia]|left; apply set_state_value|done|by apply set_audio_off].
Qed.

Lemma task_inv_weaken (d m d' m' : bool) s :
  task_inv d m s -> (d = true -> d' = true) -> (m = true -> m' = true) -> task_inv d' m' s.
Proof.
  destruct s as [[t ring] shared]. intros [Hr H] Hd Hm. split; [done|].
  destruct (se_phase t); unfold not_connected in *; naive_solver.
Qed.

(** Out of the loop there is nothing to be marked. *)
Lemma task_inv_out d m s : task_inv d m s -> (~ exists c, se_phase s.1.1 = PhLoop c) -> task_inv d false s.
Proof.
  destruct s as [[t ring] shared]. intros [Hr H] Hout. split; [done|]. cbn in Hout. destruct (se_phase t); try done.
  destruct Hout. by eexists.
Qed.

(** A connection from its start. *)
Lemma reached_inv address fingerprint shared ops :
  Forall session_op_ok ops ->
  task_inv (existsb disconnects ops) (existsb marks ops)
    (session_history describe (session_task_new address fingerprint, ring_new PCM_RING_CAPACITY_SAMPLES, begin_connecting shared) ops).
Proof.
  intros Hops. apply history_inv; [|done|by split].
  eapply task_inv_weaken; [by apply (task_start_inv address fingerprint shared PCM_RING_CAPACITY_SAMPLES)|done|done].
Qed.
End task_facts.

(** ** Properties *)

Section properties.
Context {W R : Type} `{!SendStream W} `{!RecvStream R, !RecvStreamLaws R}.
Context {Hcodec : ControlCodec} {Hlaws : ControlCodecLaws} {Htyped : CodecTyped}.
Context (describe : ClientError -> rstring).

(** C12. The state that is shown is the state of the connection. From the start
    of a connection on, as long as no poll of an earlier session is still under
    way, whatever the network, Kotlin and the audio thread do - refused
    connections and a disconnection during the last poll included - and however
    often the session is lost and begun again:
    - the state reads "connected" only while the task is in the loop of a
      connected session;
    - while it is, the state reads "connected", unless since the task entered the
      loop a refused [nativeConnect] recorded its error, or [disconnect] came;
    - otherwise the state reads "connecting" or "failed" (or "disconnected"
      after a [disconnect]), no audio is flagged, and the ring is empty, so that
      nothing of a lost session is heard. *)
Theorem shown_state_is_true (address : SocketAddress) (fingerprint : bytes) (shared0 : SharedState)
  (before ops : list (session_input W R + other_op)) (Hbefore : Forall session_op_ok before) (Hops : Forall session_op_ok ops) :
  let start := (session_task_new address fingerprint, ring_new PCM_RING_CAPACITY_SAMPLES, begin_connecting shared0) in
  let in_loop (s : SessionTask W * PcmRing * SharedState) := exists c, se_phase s.1.1 = PhLoop c in
  let middle := session_history describe start before in
  let final := session_history describe middle ops in
  let shared := final.2 in
  (state shared = Connected -> in_loop final) /\
  (in_loop final -> ~ in_loop middle -> existsb marks ops = false -> state shared = Connected) /\
  (~ in_loop final ->
   (state shared = Connecting \/ state shared = ClientFailed \/
    (existsb disconnects (before ++ ops) = true /\ state shared = Disconnected)) /\
   rg_queue final.1.2 = [] /\ sh_audio_active shared = false).
Proof.
  intros start in_loop middle final shared_at_end. pose proof (reached_inv describe address fingerprint shared0 before Hbefore) as Hm.
  assert (task_inv (existsb disconnects (before ++ ops)) (existsb marks (before ++ ops)) final) as Hf.
  { unfold final, middle, session_history. rewrite <- foldl_app. apply reached_inv. by apply Forall_app. }
  assert (~ in_loop middle -> existsb marks ops = false -> task_inv (existsb disconnects (before ++ ops)) false final) as Hstrong.
  { intros Hout Hunmarked. apply history_inv; [|done|].
    - apply task_inv_out with (m := existsb marks before); [|done]. eapply task_inv_weaken; [exact Hm| |done].
      rewrite existsb_app. by intros ->.
    - split; [by rewrite Hunmarked|]. rewrite existsb_app. intros ->. apply orb_true_r. }
  subst shared_at_end. clearbody final middle. destruct final as [[t ring] shared]. unfold in_loop in *. cbn [fst snd] in *.
  destruct Hf as [_ Hf]. unfold state, not_connected, quiet in *.
  destruct (se_phase t) as [|c|] eqn:Ht.
  2: { split_and!; [by exists c| |intros []; by exists c]. intros _ Hout Hu. destruct (Hstrong Hout Hu) as [_ H]. rewrite Ht in H.
       destruct H as [[->|[[=] _]] _]. done. }
  all: destruct Hf as (Hs & Hq & Ha); split_and!; [|by intros [? ?]|intros _; split_and!; [|done..]];
    destruct Hs as [->|[->|[Hd ->]]]; auto; done.
Qed.

(** C31. A lost connection is taken up again. Whatever happened since the start
    of the connection, once the task sleeps, the end of the sleep and an attempt
    whose server sends the greeting of a session with packets of [d]
    milliseconds lead into the loop of a new connected session: with an empty
    jitter buffer and ring, the state "connected", and the packet size of the
    server. *)
Theorem lost_connections_come_back (address : SocketAddress) (fingerprint : bytes) (shared0 : SharedState)
  (ops : list (session_input W R + other_op)) (t : SessionTask W) (ring : PcmRing) (shared : SharedState)
  (writer writer' : W) (reader reader' : R) (d : Z)
  (Hops : Forall session_op_ok ops) (Hd : 1 <= d <= 255)
  (Hrun : session_history describe
    (session_task_new address fingerprint, ring_new PCM_RING_CAPACITY_SAMPLES, begin_connecting shared0) ops
    = (t, ring, shared))
  (Hsleep : se_phase t = PhSleep) (Hhello : writer_send writer (Hello PROTOCOL_VERSION) = (writer', Ok tt))
  (Hgreeting : receive_n reader 3 = (reader', Ok (greeting d))) :
  exists t' ring' shared' c,
    session_history describe (t, ring, shared)
      [inl SinTimer; inl (SinAttempt (mkAttempt true true true true (Some (writer, reader)) true))] = (t', ring', shared') /\
    se_phase t' = PhLoop c /\ se_address t' = se_address t /\ state shared' = Connected /\ rg_queue ring' = [] /\
    connected_for d (attach ring' shared' c) /\
    rp_jitter (cl_pipeline c) = jb_new (Z.max (div_ceil INITIAL_JITTER_BUFFER_MS d) 1).
Proof.
  pose proof (reached_inv describe address fingerprint shared0 ops Hops) as H.
  rewrite Hrun in H. destruct H as [Hr H]. rewrite Hsleep in H. destruct H as (_ & Hq & _).
  clear Hrun. destruct t as [ad fp retry phase]. cbn in Hsleep. subst phase.
  destruct (phone_accepts writer writer' reader reader' d ring (ClientState.set Connecting shared) Hd Hr Hhello Hgreeting)
    as (c & Hc & Hw & Hf & Hs & _ & Hj & _ & Hqc & _).
  assert (run_session_inner (mkAttempt true true true true (Some (writer, reader)) true) ring
            (ClientState.set Connecting shared) = Ok c) as Hinner by (unfold run_session_inner; cbn; by rewrite Hc).
  exists (mkSessionTask ad fp (saturating_add 32 retry 1) (PhLoop c)), (cl_ring c), (cl_shared c), c.
  rewrite attach_same. unfold connected_for. split_and!; try done.
  { unfold session_history, session_step, session_task_step.
    cbn -[run_session_inner ClientState.set saturating_add]. by rewrite Hinner. }
  { congruence. }
  by rewrite (pw_bytes _ _ _ (proj1 Hw)), (pw_samples _ _ _ (proj1 Hw)), Hf.
Qed.
End properties.

(** ** Witnesses *)

(** The codec of [Transport], restricted to durations that fit a byte. *)
Definition u8_message (m : ControlMessage) : bool :=
  match m with StreamInfoMsg i => bool_decide (si_frame_duration_ms i ∈u 8) | _ => true end.
Definition u8_codec : ControlCodec := {|
  control_encode m := if u8_message m then @control_encode bit_codec m else None;
  control_decode b := m ← @control_decode bit_codec b; if u8_message m then Some m else None;
|}.

Lemma u8_codec_laws : @ControlCodecLaws u8_codec.
Proof.
  split. intros m b. cbn. destruct (u8_message m) eqn:Hm; [|done]. intros Hb.
  apply (@control_decode_encode bit_codec bit_codec_laws) in Hb. cbn in Hb. rewrite Hb. cbn. by rewrite Hm.
Qed.

Lemma u8_codec_typed : @CodecTyped u8_codec.
Proof.
  split. intros b i. cbn. destruct (countable.decode (of_bits b)) as [m|]; cbn; [|done].
  destruct (u8_message m) eqn:Hm; [|done]. intros [= ->]. by apply bool_decide_eq_true_1 in Hm.
Qed.

Definition describe_error (e : ClientError) : rstring := [].
Definition server_greeting_bytes : PipeEnd := (@send_all _ _ u8_codec (mkPipeEnd []) (greeting 5)).1.
Definition phone_address : SocketAddress := SocketV4 [192; 168; 1; 42] 48400.

(** The server is not there at first, then it is, and then it stops. *)
Definition good_attempt : Attempt PipeEnd PipeEnd :=
  mkAttempt true true true true (Some (mkPipeEnd [], server_greeting_bytes)) true.
Definition restarted_server : list (session_input PipeEnd PipeEnd + other_op) :=
  [inl (SinAttempt (mkAttempt true true true false None true)); inr (OthRead 4); inl SinTimer;
   inl (SinAttempt good_attempt); inl (SinEvent (CevMessage 3 (Ok Stop)))].

Definition restarted_phone : SessionTask PipeEnd * PcmRing * SharedState :=
  @session_history _ _ _ _ u8_codec describe_error
    (session_task_new phone_address [], ring_new PCM_RING_CAPACITY_SAMPLES, begin_connecting shared_default)
    restarted_server.

Lemma restarted_ok : Forall session_op_ok restarted_server.
Proof. repeat constructor. Qed.

(** A session that is running while another connection is refused, lost, and
    taken up again. *)
Definition refused_meanwhile : list (session_input PipeEnd PipeEnd + other_op) :=
  [inl (SinAttempt good_attempt); inr (OthConnectRefused []); inl (SinEvent (CevMessage 3 (Ok Stop)))].
Definition taken_up : list (session_input PipeEnd PipeEnd + other_op) :=
  [inl SinTimer; inl (SinAttempt good_attempt); inr (OthRead 4)].

Lemma refused_meanwhile_ok : Forall session_op_ok refused_meanwhile /\ Forall session_op_ok taken_up.
Proof. split; repeat constructor. Qed.

Lemma shown_state_is_true_witness :
  let history := @session_history _ _ _ _ u8_codec describe_error in
  let start := (session_task_new phone_address [], ring_new PCM_RING_CAPACITY_SAMPLES, begin_connecting shared_default) in
  let middle := history start refused_meanwhile in
  state (history start (take 2 refused_meanwhile)).2 = ClientFailed /\ state middle.2 = Connecting /\
  state (history middle taken_up).2 = Connected.
Proof.
  intros history start middle. split; [vm_compute; reflexivity|]. split; [vm_compute; reflexivity|].
  pose proof (@shown_state_is_true _ _ _ _ u8_codec u8_codec_typed describe_error phone_address [] shared_default
    refused_meanwhile taken_up (proj1 refused_meanwhile_ok) (proj2 refused_meanwhile_ok)) as H.
  destruct H as (_ & H & _). apply H.
  - vm_compute. by eexists.
  - intros [c Hc]. vm_compute in Hc. discriminate.
  - reflexivity.
Defined.

Lemma lost_connections_come_back_witness :
  exists t ring shared t' ring' shared' c,
    restarted_phone = (t, ring, shared) /\
    @session_history _ _ _ _ u8_codec describe_error (t, ring, shared) [inl SinTimer; inl (SinAttempt good_attempt)]
      = (t', ring', shared') /\
    se_phase t' = PhLoop c /\ state shared' = Connected /\ rg_queue ring' = [].
Proof.
  destruct restarted_phone as [[t ring] shared] eqn:E. exists t, ring, shared.
  destruct (@writer_send _ _ u8_codec (mkPipeEnd []) (Hello PROTOCOL_VERSION)) as [w' sent] eqn:Hw.
  assert (sent = Ok tt) as -> by (vm_compute in Hw; by injection Hw as _ <-).
  destruct (@receive_n _ _ u8_codec server_greeting_bytes 3) as [r' got] eqn:Hr.
  assert (got = Ok (greeting 5)) as -> by (vm_compute in Hr; by injection Hr as _ <-).
  destruct (@lost_connections_come_back _ _ _ _ u8_codec u8_codec_typed describe_error phone_address [] shared_default
    restarted_server t ring shared (mkPipeEnd []) w' server_greeting_bytes r' 5 restarted_ok)
    as (t' & ring' & shared' & c & H1 & H2 & _ & H3 & H4 & _);
    [lia|exact E|vm_compute in E; by injection E as <- _ _|exact Hw|exact Hr|].
  exists t', ring', shared', c. done.
Defined.
