(* ===== verification/Engine.v ===== *)
(** * Engine: the native library as Kotlin sees it

    [android/app/src/main/rust/src/jni.rs].  The three globals are fields of a
    [World]; an [Arc] is an index into the heap of states or rings.  A critical
    section of the engine's lock, or a single access without the lock, is one
    step, so that calls from several threads, the audio thread and the session
    tasks interleave in any order.  The session task is an interface here;
    [Reconnect] implements it.  Texts of errors and JNI's own conversions of
    strings are parameters. *)

From Stdlib Require Import ZArith Lia.
From S2P Require Import Prelude Wire Text Identity Address Ring DeviceControl ClientState.

(** ** The session task

    A future that is polled: one poll runs any number of steps, each on the
    ring and the shared state of the session. *)
Class SessionRunner (T I : Type) : Type := {
  runner_new : SocketAddress -> bytes -> T;
  runner_step : T -> I -> PcmRing -> SharedState -> T * PcmRing * SharedState;
}.

(** What [connect] can fail with; the text is the error's [Display]. *)
Inductive ConnectError : Type :=
| LockPoisoned
| RuntimeBuild (error : rstring)
| InvalidAddress
| InvalidFingerprint
| NotInitialized
| PortOutOfRange.

(** ** State *)

Record Task (T : Type) : Type := mkTask {
  tk_future : T;
  tk_ring : nat;
  tk_state : nat;
  tk_aborted : bool;
  tk_polling : bool;
}.
Arguments mkTask {T} tk_future tk_ring tk_state tk_aborted tk_polling.
Arguments tk_future {T} _.
Arguments tk_ring {T} _.
Arguments tk_state {T} _.
Arguments tk_aborted {T} _.
Arguments tk_polling {T} _.

Record Session : Type := mkSession { ss_task : nat; ss_ring : nat }.

(** The runtime is the list of tasks. *)
Record NativeEngine : Type := mkEngine { en_state : nat; en_session : option Session }.

Record World (T : Type) : Type := mkWorld {
  wo_states : list SharedState;
  wo_rings : list PcmRing;
  wo_tasks : list (Task T);
  wo_active_state : option nat;
  wo_active_ring : option nat;
  wo_engine : option NativeEngine;
  wo_poisoned : bool;
}.
Arguments mkWorld {T} wo_states wo_rings wo_tasks wo_active_state wo_active_ring wo_engine wo_poisoned.
Arguments wo_states {T} _.
Arguments wo_rings {T} _.
Arguments wo_tasks {T} _.
Arguments wo_active_state {T} _.
Arguments wo_active_ring {T} _.
Arguments wo_engine {T} _.
Arguments wo_poisoned {T} _.

Section engine.
Context {T I : Type} `{!SessionRunner T I}.
(** [Display] of the errors. *)
Context (connect_text : ConnectError -> rstring).
(** The waveform of the test tone. *)
Context (wave : Z -> Z).
Implicit Types w : World T.

(** When the library is loaded. *)
Definition world_new : World T := mkWorld [] [] [] None None None false.

Definition set_states (l : list SharedState) w : World T :=
  mkWorld l (wo_rings w) (wo_tasks w) (wo_active_state w) (wo_active_ring w) (wo_engine w) (wo_poisoned w).
Definition set_rings (l : list PcmRing) w : World T :=
  mkWorld (wo_states w) l (wo_tasks w) (wo_active_state w) (wo_active_ring w) (wo_engine w) (wo_poisoned w).
Definition set_tasks (l : list (Task T)) w : World T :=
  mkWorld (wo_states w) (wo_rings w) l (wo_active_state w) (wo_active_ring w) (wo_engine w) (wo_poisoned w).
Definition store_state (s : option nat) w : World T :=
  mkWorld (wo_states w) (wo_rings w) (wo_tasks w) s (wo_active_ring w) (wo_engine w) (wo_poisoned w).
Definition store_ring (r : option nat) w : World T :=
  mkWorld (wo_states w) (wo_rings w) (wo_tasks w) (wo_active_state w) r (wo_engine w) (wo_poisoned w).
Definition set_engine (e : option NativeEngine) w : World T :=
  mkWorld (wo_states w) (wo_rings w) (wo_tasks w) (wo_active_state w) (wo_active_ring w) e (wo_poisoned w).
Definition poison w : World T :=
  mkWorld (wo_states w) (wo_rings w) (wo_tasks w) (wo_active_state w) (wo_active_ring w) (wo_engine w) true.

Definition on_state (f : SharedState -> SharedState) (i : nat) w : World T := set_states (alter f i (wo_states w)) w.
Definition on_ring (f : PcmRing -> PcmRing) (i : nat) w : World T := set_rings (alter f i (wo_rings w)) w.
Definition on_task (f : Task T -> Task T) (i : nat) w : World T := set_tasks (alter f i (wo_tasks w)) w.

(** [JoinHandle::abort]: the task runs no further than to the end of a poll
    that is under way. *)
Definition aborted (t : Task T) : Task T :=
  mkTask (tk_future t) (tk_ring t) (tk_state t) true (tk_polling t).
Definition polling (b : bool) (t : Task T) : Task T :=
  mkTask (tk_future t) (tk_ring t) (tk_state t) (tk_aborted t) b.
Definition with_future (f : T) (t : Task T) : Task T :=
  mkTask f (tk_ring t) (tk_state t) (tk_aborted t) (tk_polling t).

(** [task.abort(); ring.clear();] *)
Definition drop_session (s : Session) w : World T :=
  on_ring clear (ss_ring s) (on_task aborted (ss_task s) w).
Definition drop_sessions (e : NativeEngine) w : World T :=
  match en_session e with Some s => drop_session s w | None => w end.

(** ** Connecting *)

(** [built] is what the runtime builder returns. *)
Definition initialize (built : result rstring unit) w : World T * result ConnectError unit :=
  if wo_poisoned w then (w, Err LockPoisoned)
  else match wo_engine w with
       | Some _ => (w, Ok tt)
       | None =>
           match built with
           | Err error => (w, Err (RuntimeBuild error))
           | Ok _ =>
               (set_engine (Some (mkEngine (length (wo_states w)) None))
                  (set_states (wo_states w ++ [shared_default]) w), Ok tt)
           end
       end.

(** The second critical section of [connect]. *)
Definition start_session (address : SocketAddress) (fingerprint : bytes) w : World T * result ConnectError unit :=
  if wo_poisoned w then (w, Err LockPoisoned)
  else match wo_engine w with
       | None => (w, Err NotInitialized)
       | Some engine =>
           let w := drop_sessions engine w in
           let ring := length (wo_rings w) in
           let w := set_rings (wo_rings w ++ [ring_new PCM_RING_CAPACITY_SAMPLES]) w in
           let w := store_state (Some (en_state engine)) (store_ring (Some ring) w) in
           let w := on_state begin_connecting (en_state engine) w in
           let task := length (wo_tasks w) in
           let w := set_tasks (wo_tasks w ++ [mkTask (runner_new address fingerprint) ring (en_state engine) false false]) w in
           (set_engine (Some (mkEngine (en_state engine) (Some (mkSession task ring)))) w, Ok tt)
       end.

Definition record_connect_error (error : ConnectError) w : World T :=
  if wo_poisoned w then w
  else match wo_engine w with
       | Some engine => on_state (set_error (connect_text error)) (en_state engine) w
       | None => w
       end.

Definition disconnect w : World T :=
  if wo_poisoned w then w
  else match wo_engine w with
       | None => w
       | Some engine =>
           let w := set_engine (Some (mkEngine (en_state engine) None)) (drop_sessions engine w) in
           on_state (ClientState.set Disconnected) (en_state engine) (store_ring None w)
       end.

(** The locked part of [shutdown]; [shutdown_timeout] waits for polls that are
    under way, but not longer than half a second. *)
Definition drop_engine w : World T :=
  if wo_poisoned w then w
  else match wo_engine w with
       | None => w
       | Some engine =>
           on_state (ClientState.set Disconnected) (en_state engine) (drop_sessions engine (set_engine None w))
       end.

(** ** Playback *)

(** The tone part of [read_pcm], for an [output] of [2 * frames] samples. *)
Definition read_active_tone (now now_active : Z) (frames : nat) w : World T * option (list Z) :=
  match wo_active_state w with
  | None => (w, None)
  | Some i =>
      match wo_states w !! i with
      | None => (w, None)
      | Some s =>
          let '(device, output) := read_tone wave (sh_device s) now now_active frames in
          (on_state (put_device device) i w, output)
      end
  end.

(** The rest of [read_pcm], with the ring that [load_full] returned. *)
Definition read_ring (ring : option nat) (samples : nat) w : World T * list Z * Z :=
  match ring ≫= fun r => (r,.) <$> wo_rings w !! r with
  | Some (r, ring) =>
      let '(ring, output, actual) := read_into ring samples in
      (on_ring (fun _ => ring) r w, output, actual)
  | None => (w, replicate samples 0, 0)
  end.

(** [read_pcm] without interference: the samples, and the number returned. *)
Definition read_pcm (now now_active : Z) (frames : nat) w : World T * list Z * Z :=
  match read_active_tone now now_active frames w with
  | (w, Some output) => (w, output, Z.of_nat (2 * frames))
  | (w, None) => read_ring (wo_active_ring w) (2 * frames) w
  end.

(** ** What Kotlin asks *)

(** The state of the engine, under its lock. *)
Definition engine_shared w : option SharedState :=
  if wo_poisoned w then None else engine ← wo_engine w; wo_states w !! en_state engine.
Definition with_state (callback : SharedState -> Z) w : Z := default 0 (callback <$> engine_shared w).

Definition native_state w : ClientState := default Idle (ClientState.state <$> engine_shared w).
Definition last_error w : rstring := default [] (sh_last_error <$> engine_shared w).
Definition received_packets w : Z := with_state sh_received_packets w.
Definition lost_packets w : Z := with_state sh_lost_packets w.
Definition late_packets w : Z := with_state sh_late_packets w.

(** The ring and the state without the lock. *)
Definition active_ring w : option PcmRing := r ← wo_active_ring w; wo_rings w !! r.
Definition active_shared w : option SharedState := i ← wo_active_state w; wo_states w !! i.

Definition underruns w : Z := default 0 (rg_underruns <$> active_ring w).
Definition samples_to_ms (samples : Z) : Z := wrap 64 (samples * 1000) / (SAMPLE_RATE * CHANNELS).
Definition buffer_duration_ms w : Z :=
  default 0 ((fun ring => samples_to_ms (available_samples ring)) <$> active_ring w).
(** [between] is the world at the second lock. *)
Definition jitter_buffer_ms w (between : World T) : Z :=
  if bool_decide (native_state w = Connected) then with_state sh_jitter_buffer_ms between else 0.
Definition estimated_latency_ms w (between : World T) : Z :=
  match engine_shared w with
  | Some s =>
      if bool_decide (ClientState.state s = Connected)
      then wrap 64 (wrap 64 (sh_rtt_ms s / 2 + buffer_duration_ms between) + sh_jitter_buffer_ms s)
      else 0
  | None => 0
  end.

(** [i64::try_from(value).unwrap_or(i64::MAX)], and [unwrap_or(0)]. *)
Definition to_jlong (value : Z) : Z := if value <? 2 ^ 63 then value else 2 ^ 63 - 1.
Definition jlong_or_zero (value : Z) : Z := if value <? 2 ^ 63 then value else 0.
(** [u64::try_from(value).unwrap_or(0)] of a [jlong]. *)
Definition u64_or_zero (value : Z) : Z := if 0 <=? value then value else 0.

Definition buffer_capacity_ms : Z := samples_to_ms PCM_RING_CAPACITY_SAMPLES.

(** The numbers of the entry points; the latency is the one that looks twice. *)
Definition native_get_state w : Z := as_raw (native_state w).
Definition native_get_latency_ms w (between : World T) : Z := to_jlong (estimated_latency_ms w between).
Definition native_get_buffer_ms w : Z := to_jlong (buffer_duration_ms w).
Definition native_get_jitter_buffer_ms w (between : World T) : Z := to_jlong (jitter_buffer_ms w between).
Definition native_get_received_packets w : Z := to_jlong (received_packets w).
Definition native_get_lost_packets w : Z := to_jlong (lost_packets w).
Definition native_get_late_packets w : Z := to_jlong (late_packets w).
Definition native_get_underruns w : Z := to_jlong (underruns w).

Definition native_take_volume_adjustment w : World T * Z :=
  match engine_shared w, wo_engine w with
  | Some s, Some engine => (on_state (fun s => (take_volume_adjustment s).1) (en_state engine) w, (take_volume_adjustment s).2)
  | _, _ => (w, 0)
  end.

(** [tone_active] is only asked when no audio is flagged; it ends an expired
    tone. *)
Definition is_audio_active (now now_active : Z) w : World T * bool :=
  match engine_shared w, wo_engine w with
  | Some s, Some engine =>
      if sh_audio_active s then (w, true)
      else let '(device, active) := tone_active (sh_device s) now now_active in
           (on_state (put_device device) (en_state engine) w, active)
  | _, _ => (w, false)
  end.

(** The wait itself happens on the state that was current at the call. *)
Definition native_wait_for_update (previous : Z) (wakeups : list Z) w : Z :=
  match engine_shared w with
  | Some s => to_jlong (wait_for_update (if 0 <=? previous then previous else uint_max 64) (sh_revision s) wakeups)
  | None => previous
  end.

Definition on_active (f : SharedState -> SharedState) w : World T :=
  match wo_active_state w with Some i => on_state f i w | None => w end.

Definition stop_test_tone w : World T :=
  on_active (fun s => notify_changed (put_device (stop_tone (sh_device s)) s)) w.

Definition get_playback_request (now : Z) w : World T * Z :=
  match active_shared w with
  | Some s =>
      let '(device, token) := playback_request (sh_device s) now in
      (on_active (put_device device) w, jlong_or_zero token)
  | None => (w, 0)
  end.

Definition native_report_playback (now now_active now_deadline request : Z) (playing : bool) w : World T :=
  on_active (fun s => put_device (report_playback (sh_device s) now now_active now_deadline (u64_or_zero request) playing) s) w.

Definition take_device_command (now : Z) w : World T * Z :=
  match active_shared w with
  | Some s =>
      let '(device, command) := take_command_at (sh_device s) now in
      (on_active (put_device device) w, jlong_or_zero command)
  | None => (w, 0)
  end.

(** [values]: 16 bits each for volume, minimum and maximum, then three flags. *)
Definition unpack_status (request_id : Z) (device_id name : rstring) (values : Z) : DeviceStatus :=
  let values := u64_or_zero values in
  let field shift := Z.land (Z.shiftr values shift) 65535 in
  let flag bit := negb (Z.land values (Z.shiftl 1 bit) =? 0) in
  mkDeviceStatus (if (0 <=? request_id) && (request_id <? 2 ^ 32) then request_id else 0)
    (take 80 device_id) (take 80 name) (field 0) (field 16) (field 32) (flag 48) (flag 49) (flag 50).

Definition report_device (request_id : Z) (device_id name : rstring) (values : Z) w : World T :=
  match active_shared w with
  | Some s =>
      if bool_decide (ClientState.state s = Connected)
      then on_active (put_device (report (sh_device s) (unpack_status request_id device_id name values))) w
      else w
  | None => w
  end.

(** ** Histories *)

Inductive engine_op : Type :=
| OpInitialize (built : result rstring unit)
| OpStartSession (address : SocketAddress) (fingerprint : bytes)
| OpRecordError (error : ConnectError)
| OpDisconnect
| OpForgetRing
| OpDropEngine
| OpPollStart (task : nat)
| OpTaskStep (task : nat) (input : I)
| OpPollEnd (task : nat)
| OpReadTone (now now_active : Z) (frames : nat)
| OpReadRing (ring : option nat) (samples : nat)
| OpTakeAdjustment
| OpAudioActive (now now_active : Z)
| OpStopTone
| OpPlaybackRequest (now : Z)
| OpReportPlayback (now now_active now_deadline request : Z) (playing : bool)
| OpTakeCommand (now : Z)
| OpReportDevice (request_id : Z) (device_id name : rstring) (values : Z)
| OpPoison.

(** A poll only starts on a task that was not aborted; a step happens in a poll. *)
Definition poll_start (i : nat) w : World T :=
  on_task (fun t => if tk_aborted t then t else polling true t) i w.

Definition task_step (i : nat) (input : I) w : World T :=
  match wo_tasks w !! i with
  | Some t =>
      if tk_polling t then
        match wo_rings w !! tk_ring t, wo_states w !! tk_state t with
        | Some ring, Some shared =>
            let '(future, ring, shared) := runner_step (tk_future t) input ring shared in
            on_task (with_future future) i
              (on_ring (fun _ => ring) (tk_ring t) (on_state (fun _ => shared) (tk_state t) w))
        | _, _ => w
        end
      else w
  | None => w
  end.

Definition engine_step w (op : engine_op) : World T :=
  match op with
  | OpInitialize built => (initialize built w).1
  | OpStartSession address fingerprint => (start_session address fingerprint w).1
  | OpRecordError error => record_connect_error error w
  | OpDisconnect => disconnect w
  | OpForgetRing => store_ring None w
  | OpDropEngine => drop_engine w
  | OpPollStart i => poll_start i w
  | OpTaskStep i input => task_step i input w
  | OpPollEnd i => on_task (polling false) i w
  | OpReadTone now now_active frames => (read_active_tone now now_active frames w).1
  | OpReadRing ring samples => (read_ring ring samples w).1.1
  | OpTakeAdjustment => (native_take_volume_adjustment w).1
  | OpAudioActive now now_active => (is_audio_active now now_active w).1
  | OpStopTone => stop_test_tone w
  | OpPlaybackRequest now => (get_playback_request now w).1
  | OpReportPlayback now a d request playing => native_report_playback now a d request playing w
  | OpTakeCommand now => (take_device_command now w).1
  | OpReportDevice request_id device_id name values => report_device request_id device_id name values w
  | OpPoison => poison w
  end.

Definition engine_run : World T -> list engine_op -> World T := foldl engine_step.

(** ** The calls that take the lock more than once

    [during] is what happens on other threads in between. *)

Definition connect (host : rstring) (port : Z) (fingerprint_text : rstring) (built : result rstring unit)
    (during : list engine_op) w : World T * result ConnectError unit :=
  match initialize built w with
  | (w, Err e) => (w, Err e)
  | (w, Ok _) =>
      match parse_socket_addr (host ++ [58] ++ decimal port) with
      | None => (w, Err InvalidAddress)
      | Some address =>
          match parse_fingerprint fingerprint_text with
          | Err _ => (w, Err InvalidFingerprint)
          | Ok fingerprint => start_session address fingerprint (engine_run w during)
          end
      end
  end.

Definition native_connect (host : rstring) (port : Z) (fingerprint_text : rstring) (built : result rstring unit)
    (during before_record : list engine_op) w : World T * bool :=
  let '(w, result) :=
    if (1 <=? port) && (port <=? 65535) then connect host port fingerprint_text built during w
    else (w, Err PortOutOfRange) in
  match result with
  | Err error => (record_connect_error error (engine_run w before_record), false)
  | Ok _ => (w, true)
  end.

Definition shutdown (during : list engine_op) w : World T :=
  drop_engine (engine_run (store_ring None w) during).
End engine.

Arguments engine_op : clear implicits.
