(* ===== verification/EngineSafety.v ===== *)
(** * EngineSafety: the engine under any interleaving

    Theorems on [Engine]: at most one live session, nothing of a replaced
    session is heard, what a disconnection ends and what it cannot, refused and
    successful connections, and the packed device report. *)

From Stdlib Require Import ZArith Lia.
From S2P Require Import Prelude BTree Wire Text Transport Identity Pairing Server Address Jitter Ring DeviceControl ClientState Receiver Client Reconnect Engine.

(** ** The skeleton of a world

    What the invariant is about; most steps leave it alone. *)

Record Skeleton : Type := mkSkeleton {
  sk_states : nat;
  sk_rings : nat;
  sk_tasks : list (nat * nat * bool);
  sk_active_state : option nat;
  sk_active_ring : option nat;
  sk_engine : option NativeEngine;
}.

Record skeleton_inv (k : Skeleton) : Prop := {
  ki_rings : sk_rings k = length (sk_tasks k);
  ki_tasks i r s b : sk_tasks k !! i = Some (r, s, b) -> r = i /\ (s < sk_states k)%nat;
  ki_active_ring r : sk_active_ring k = Some r -> S r = sk_rings k;
  ki_active_state i : sk_active_state k = Some i -> (i < sk_states k)%nat;
  ki_engine e : sk_engine k = Some e -> (en_state e < sk_states k)%nat /\
    forall s, en_session e = Some s ->
      ss_ring s = ss_task s /\ sk_tasks k !! ss_task s = Some (ss_task s, en_state e, false);
  ki_live i r s : sk_tasks k !! i = Some (r, s, false) ->
    S i = length (sk_tasks k) /\ exists e, sk_engine k = Some e /\ en_session e = Some (mkSession i i);
}.

Section safety.
Context {T I : Type} `{!SessionRunner T I}.
Context (connect_text : ConnectError -> rstring) (wave : Z -> Z).
Implicit Types w : World T.

Notation step := (engine_step connect_text wave).
Notation run := (engine_run connect_text wave).

Definition task_shape (t : Task T) : nat * nat * bool := (tk_ring t, tk_state t, tk_aborted t).
Definition skeleton w : Skeleton :=
  mkSkeleton (length (wo_states w)) (length (wo_rings w)) (task_shape <$> wo_tasks w)
    (wo_active_state w) (wo_active_ring w) (wo_engine w).
Definition engine_inv w : Prop := skeleton_inv (skeleton w).

(** *** Steps that leave the skeleton alone *)

Lemma skeleton_on_state f i w : skeleton (on_state f i w) = skeleton w.
Proof. unfold skeleton. cbn. by rewrite length_alter. Qed.

Lemma skeleton_on_ring f i w : skeleton (on_ring f i w) = skeleton w.
Proof. unfold skeleton. cbn. by rewrite length_alter. Qed.

Lemma skeleton_on_task f i w : (forall t, task_shape (f t) = task_shape t) -> skeleton (on_task f i w) = skeleton w.
Proof.
  intros Hf. unfold skeleton. cbn. f_equal. apply list_eq. intros j. rewrite !list_lookup_fmap.
  destruct (decide (i = j)) as [->|Hne].
  - rewrite list_lookup_alter_eq. destruct (wo_tasks w !! j); cbn; by rewrite ?Hf.
  - by rewrite list_lookup_alter_ne by done.
Qed.

Lemma skeleton_on_active f w : skeleton (on_active f w) = skeleton w.
Proof. unfold on_active. destruct (wo_active_state w); [apply skeleton_on_state|done]. Qed.

(** The operations that create, end or replace something. *)
Definition structural (op : engine_op I) : bool :=
  match op with
  | OpInitialize _ | OpStartSession _ _ | OpDisconnect | OpForgetRing | OpDropEngine => true
  | _ => false
  end.

Lemma skeleton_task_step i input w : skeleton (task_step i input w) = skeleton w.
Proof.
  unfold task_step. destruct (wo_tasks w !! i) as [t|]; [|done]. destruct (tk_polling t); [|done].
  destruct (wo_rings w !! tk_ring t) as [ring|]; [|done]. destruct (wo_states w !! tk_state t) as [shared|]; [|done].
  destruct (runner_step _ _ _ _) as [[f r] s]. by rewrite skeleton_on_task, skeleton_on_ring, skeleton_on_state.
Qed.

Lemma skeleton_step w op : structural op = false -> skeleton (step w op) = skeleton w.
Proof.
  destruct op; cbn [structural engine_step]; try done; intros _.
  - unfold record_connect_error. destruct (wo_poisoned w); [done|]. destruct (wo_engine w); [apply skeleton_on_state|done].
  - apply skeleton_on_task. intros t. by destruct (tk_aborted t) eqn:E; unfold task_shape; cbn; rewrite ?E.
  - apply skeleton_task_step.
  - by apply skeleton_on_task.
  - unfold read_active_tone. destruct (wo_active_state w) as [i|]; [|done]. destruct (wo_states w !! i) as [s|]; [|done].
    destruct (read_tone _ _ _ _ _) as [d o]. apply skeleton_on_state.
  - unfold read_ring. destruct (ring ≫= _) as [[r rg]|]; [|done].
    destruct (read_into rg samples) as [[rg' o] a]. apply skeleton_on_ring.
  - unfold native_take_volume_adjustment. destruct (engine_shared w), (wo_engine w); try done. apply skeleton_on_state.
  - unfold is_audio_active. destruct (engine_shared w), (wo_engine w); try done. destruct (sh_audio_active _); [done|].
    destruct (tone_active _ _ _). apply skeleton_on_state.
  - apply skeleton_on_active.
  - unfold get_playback_request. destruct (active_shared w); [|done]. destruct (playback_request _ _). apply skeleton_on_active.
  - apply skeleton_on_active.
  - unfold take_device_command. destruct (active_shared w); [|done]. destruct (take_command_at _ _). apply skeleton_on_active.
  - unfold report_device. destruct (active_shared w); [|done]. case_bool_decide; [apply skeleton_on_active|done].
Qed.

(** *** The invariant *)

Definition abort_shape (t : nat * nat * bool) : nat * nat * bool := (t.1, true).
Definition dropped (e : NativeEngine) (tasks : list (nat * nat * bool)) : list (nat * nat * bool) :=
  match en_session e with Some s => alter abort_shape (ss_task s) tasks | None => tasks end.

Lemma skeleton_drop_session s w :
  skeleton (drop_session s w) =
    mkSkeleton (length (wo_states w)) (length (wo_rings w)) (alter abort_shape (ss_task s) (task_shape <$> wo_tasks w))
      (wo_active_state w) (wo_active_ring w) (wo_engine w).
Proof.
  unfold drop_session. rewrite skeleton_on_ring. unfold skeleton. cbn. f_equal. apply list_eq. intros j.
  rewrite list_lookup_fmap. destruct (decide (ss_task s = j)) as [->|Hne].
  - rewrite !list_lookup_alter_eq, list_lookup_fmap. by destruct (wo_tasks w !! j).
  - by rewrite !list_lookup_alter_ne, list_lookup_fmap by done.
Qed.

(** Dropping the session, if there is one, and the engine's reference to it. *)
Lemma dropped_inv k (e : NativeEngine) e' :
  skeleton_inv k -> sk_engine k = Some e -> (forall e1, e' = Some e1 -> en_state e1 = en_state e /\ en_session e1 = None) ->
  skeleton_inv (mkSkeleton (sk_states k) (sk_rings k) (dropped e (sk_tasks k)) (sk_active_state k) (sk_active_ring k) e') /\
  length (dropped e (sk_tasks k)) = length (sk_tasks k) /\ Forall (fun t => t.2 = true) (dropped e (sk_tasks k)).
Proof.
  intros [H1 H2 H3 H4 H5 H6] He He'. destruct (H5 e He) as [Hs5 Hss].
  set (tasks := dropped e (sk_tasks k)).
  assert (forall i r s b, tasks !! i = Some (r, s, b) -> r = i /\ (s < sk_states k)%nat /\ b = true) as Htasks.
  { intros i r s b Hi. unfold tasks, dropped in Hi. destruct (en_session e) as [ss|] eqn:Hss'.
    - destruct (Hss ss eq_refl) as [Hr Hl]. destruct (decide (ss_task ss = i)) as [<-|Hne].
      + rewrite list_lookup_alter_eq, Hl in Hi. cbn in Hi. injection Hi as <- <- <-. by split_and!.
      + rewrite list_lookup_alter_ne in Hi by done. destruct (H2 _ _ _ _ Hi) as [-> Hs]. split_and!; [done..|].
        destruct b; [done|]. destruct (H6 _ _ _ Hi) as (_ & e1 & He1 & Hse). rewrite He in He1. injection He1 as <-.
        rewrite Hss' in Hse. injection Hse as ->. by destruct Hne.
    - destruct (H2 _ _ _ _ Hi) as [-> Hs]. split_and!; [done..|].
      destruct b; [done|]. destruct (H6 _ _ _ Hi) as (_ & e1 & He1 & Hse). congruence. }
  assert (length tasks = length (sk_tasks k)) as Hlen by (unfold tasks, dropped; destruct (en_session e); [by rewrite length_alter|done]).
  split_and!; [|done|].
  - split; cbn; try done.
    + by rewrite Hlen.
    + intros i r s b Hi. destruct (Htasks _ _ _ _ Hi) as (? & ? & _). done.
    + intros e1 He1. destruct (He' e1 He1) as [-> ->]. done.
    + intros i r s Hi. by destruct (Htasks _ _ _ _ Hi) as (_ & _ & ?).
  - apply Forall_lookup_2. intros i [[r s] b] Hi. by destruct (Htasks _ _ _ _ Hi) as (_ & _ & ->).
Qed.

Lemma skeleton_drop_sessions e w :
  skeleton (drop_sessions e w) =
    mkSkeleton (length (wo_states w)) (length (wo_rings w)) (dropped e (task_shape <$> wo_tasks w))
      (wo_active_state w) (wo_active_ring w) (wo_engine w).
Proof. unfold drop_sessions, dropped. destruct (en_session e); [apply skeleton_drop_session|done]. Qed.

Lemma drop_sessions_fields e w :
  length (wo_states (drop_sessions e w)) = length (wo_states w) /\
  length (wo_rings (drop_sessions e w)) = length (wo_rings w) /\
  length (wo_tasks (drop_sessions e w)) = length (wo_tasks w).
Proof. unfold drop_sessions. destruct (en_session e); cbn; by rewrite ?length_alter. Qed.

Lemma skeleton_start_session address fingerprint w e :
  wo_poisoned w = false -> wo_engine w = Some e ->
  skeleton (start_session address fingerprint w).1 =
    mkSkeleton (length (wo_states w)) (S (length (wo_rings w)))
      (dropped e (task_shape <$> wo_tasks w) ++ [(length (wo_rings w), en_state e, false)])
      (Some (en_state e)) (Some (length (wo_rings w)))
      (Some (mkEngine (en_state e) (Some (mkSession (length (wo_tasks w)) (length (wo_rings w)))))).
Proof.
  intros Hp He. unfold start_session. rewrite Hp, He. cbn [fst].
  destruct (drop_sessions_fields e w) as (H1 & H2 & H3). pose proof (skeleton_drop_sessions e w) as Hk.
  unfold skeleton in *. injection Hk as _ _ Ht _ _ _. cbn.
  rewrite length_alter, H1, length_app, H2, fmap_app, Ht, H3. cbn. by rewrite Nat.add_1_r.
Qed.

Lemma start_session_inv address fingerprint w e :
  engine_inv w -> wo_engine w = Some e -> wo_poisoned w = false -> engine_inv (start_session address fingerprint w).1.
Proof.
  intros Hw He Hp. unfold engine_inv. rewrite (skeleton_start_session _ _ _ e Hp He).
  destruct (dropped_inv (skeleton w) e None Hw He) as (Hd & Hlen & Hall); [done|]. cbn in Hd, Hlen, Hall.
  rewrite length_fmap in Hlen. pose proof (ki_rings _ Hw) as Hr. cbn in Hr. rewrite length_fmap in Hr.
  destruct Hd as [H1 H2 H3 H4 H5 H6]. destruct (ki_engine _ Hw e He) as [Hs _]. cbn in *.
  set (tasks := dropped e _) in *.
  assert (forall i r s b, (tasks ++ [(length (wo_rings w), en_state e, false)]) !! i = Some (r, s, b) ->
    tasks !! i = Some (r, s, b) \/ (i = length (wo_tasks w) /\ r = i /\ s = en_state e /\ b = false)) as Hsplit.
  { intros i r s b Hi. destruct (decide (i < length tasks)%nat).
    - left. by rewrite lookup_app_l in Hi by done.
    - right. rewrite lookup_app_r in Hi by lia. destruct (i - length tasks)%nat eqn:E; [|done].
      cbn in Hi. injection Hi as <- <- <-. split_and!; [lia|lia|done|done]. }
  split; cbn.
  - rewrite length_app, Hlen, Hr. cbn. lia.
  - intros i r s b Hi. destruct (Hsplit _ _ _ _ Hi) as [Hl|(-> & -> & -> & _)]; [by apply (H2 i r s b)|done].
  - intros r [= <-]. done.
  - intros i [= <-]. done.
  - intros e1 [= <-]. cbn. split; [done|]. intros s [= <-]. cbn. split; [done|].
    rewrite lookup_app_r by lia. rewrite Hlen, Nat.sub_diag, Hr. done.
  - intros i r s Hi. rewrite length_app, Hlen. cbn.
    destruct (Hsplit _ _ _ _ Hi) as [Hl|(-> & -> & -> & _)].
    + pose proof (Forall_lookup_1 _ _ _ _ Hall Hl). done.
    + split; [lia|]. eexists. split; [done|]. cbn. by rewrite Hr.
Qed.

Lemma structural_inv w op : engine_inv w -> structural op = true -> engine_inv (step w op).
Proof.
  intros Hw Hop. destruct op; try done; cbn [engine_step].
  - unfold initialize. destruct (wo_poisoned w); [done|]. destruct (wo_engine w) as [e|] eqn:He; [done|].
    destruct built; [|done]. destruct Hw as [H1 H2 H3 H4 H5 H6]. unfold engine_inv, skeleton in *. cbn in *.
    rewrite length_app. cbn. split; cbn; try done.
    + intros i r s b Hi. destruct (H2 _ _ _ _ Hi). split; [done|lia].
    + intros i Hi. specialize (H4 i Hi). lia.
    + intros e [= <-]. cbn. split; [lia|done].
    + intros i r s Hi. destruct (H6 _ _ _ Hi) as (_ & e & He' & _). congruence.
  - destruct (wo_poisoned w) eqn:Hp; [unfold start_session; by rewrite Hp|].
    destruct (wo_engine w) as [e|] eqn:He; [by apply (start_session_inv _ _ w e)|unfold start_session; by rewrite Hp, He].
  - unfold disconnect. destruct (wo_poisoned w); [done|]. destruct (wo_engine w) as [e|] eqn:He; [|done].
    unfold engine_inv. rewrite skeleton_on_state. pose proof (skeleton_drop_sessions e w) as Hk.
    destruct (dropped_inv (skeleton w) e (Some (mkEngine (en_state e) None)) Hw He) as ([H1 H2 H3 H4 H5 H6] & _).
    { by intros e1 [= <-]. }
    unfold skeleton in *. cbn in *. injection Hk as E1 E2 E3 E4 E5 _. rewrite E1, E2, E3, E4. split; cbn; done.
  - destruct Hw as [H1 H2 H3 H4 H5 H6]. by split.
  - unfold drop_engine. destruct (wo_poisoned w); [done|]. destruct (wo_engine w) as [e|] eqn:He; [|done].
    unfold engine_inv. rewrite skeleton_on_state, skeleton_drop_sessions.
    by destruct (dropped_inv (skeleton w) e None Hw He) as (H & _).
Qed.

Lemma step_inv w op : engine_inv w -> engine_inv (step w op).
Proof.
  intros Hw. destruct (structural op) eqn:Hop; [by apply structural_inv|].
  unfold engine_inv. by rewrite skeleton_step.
Qed.

Lemma new_inv : engine_inv world_new.
Proof. split; cbn; try done. Qed.

Lemma run_inv ops w : engine_inv w -> engine_inv (run w ops).
Proof. revert w. induction ops as [|op ops IH]; intros w Hw; [done|]. cbn. by apply IH, step_inv. Qed.

Lemma reachable_inv ops : engine_inv (run world_new ops).
Proof. apply run_inv, new_inv. Qed.

(** ** Rings of sessions that have not run *)

(** No sample is in a ring from [n] on. *)
Definition silent_from (n : nat) w : Prop :=
  forall r ring, (n <= r)%nat -> wo_rings w !! r = Some ring -> rg_queue ring = [].

(** The operation does not run a task from [n] on. *)
Definition runs_earlier (n : nat) (op : engine_op I) : Prop :=
  match op with OpTaskStep i _ => (i < n)%nat | _ => True end.

Lemma silent_same n w w' : wo_rings w' = wo_rings w -> silent_from n w -> silent_from n w'.
Proof. intros H. unfold silent_from. by rewrite H. Qed.

Lemma silent_on_ring f i n w :
  silent_from n w -> (forall ring, (n <= i)%nat -> rg_queue ring = [] -> rg_queue (f ring) = []) ->
  silent_from n (on_ring f i w).
Proof.
  intros Hw Hf r ring Hr. cbn. destruct (decide (i = r)) as [->|Hne].
  - rewrite list_lookup_alter_eq. destruct (wo_rings w !! r) as [ring0|] eqn:E; cbn; [|done].
    intros [= <-]. apply Hf; [done|]. by apply (Hw r).
  - rewrite list_lookup_alter_ne by done. by apply Hw.
Qed.

Lemma silent_drop n e w : silent_from n w -> silent_from n (drop_sessions e w).
Proof.
  intros Hw. unfold drop_sessions, drop_session. destruct (en_session e); [|done].
  apply silent_on_ring; [|done]. by apply (silent_same n w).
Qed.

Lemma on_active_rings f w : wo_rings (on_active f w) = wo_rings w.
Proof. unfold on_active. by destruct (wo_active_state w). Qed.

Lemma silent_task_step n i input w :
  engine_inv w -> silent_from n w -> (i < n)%nat -> silent_from n (task_step i input w).
Proof.
  intros Hi Hw Hn. unfold task_step. destruct (wo_tasks w !! i) as [t|] eqn:Ht; [|done].
  destruct (tk_polling t); [|done]. destruct (wo_rings w !! tk_ring t) as [ring|]; [|done].
  destruct (wo_states w !! tk_state t) as [shared|]; [|done]. destruct (runner_step _ _ _ _) as [[f r] s].
  apply (silent_same n (on_ring (fun _ => r) (tk_ring t) w)); [done|]. apply silent_on_ring; [done|].
  intros ring' Hge. assert (sk_tasks (skeleton w) !! i = Some (task_shape t)) as Hk.
  { unfold skeleton. cbn. by rewrite list_lookup_fmap, Ht. }
  destruct (ki_tasks _ Hi _ _ _ _ Hk) as [Hr _]. lia.
Qed.

Lemma silent_step n w op : engine_inv w -> silent_from n w -> runs_earlier n op -> silent_from n (step w op).
Proof.
  intros Hi Hw Hop. destruct op; cbn [engine_step runs_earlier] in *.
  - unfold initialize. repeat case_match; cbn; try done; by apply (silent_same n w).
  - unfold start_session. destruct (wo_poisoned w); [done|]. destruct (wo_engine w) as [e|]; [|done]. cbn [fst].
    pose proof (silent_drop n e w Hw) as Hd. intros r ring Hr. cbn. rewrite lookup_app.
    destruct (wo_rings (drop_sessions e w) !! r) as [ring0|] eqn:E; [intros [= <-]; by apply (Hd r)|].
    intros Hl. apply list_lookup_singleton_Some in Hl as [_ <-]. done.
  - unfold record_connect_error. repeat case_match; try done; by apply (silent_same n w).
  - unfold disconnect. destruct (wo_poisoned w); [done|]. destruct (wo_engine w) as [e|]; [|done].
    apply (silent_same n (drop_sessions e w)); [done|by apply silent_drop].
  - by apply (silent_same n w).
  - unfold drop_engine. destruct (wo_poisoned w); [done|]. destruct (wo_engine w) as [e|]; [|done].
    apply (silent_same n (drop_sessions e (set_engine None w))); [done|]. apply silent_drop. by apply (silent_same n w).
  - by apply (silent_same n w).
  - by apply silent_task_step.
  - by apply (silent_same n w).
  - unfold read_active_tone. repeat case_match; try done; by apply (silent_same n w).
  - unfold read_ring. destruct (ring ≫= _) as [[r rg]|] eqn:E; [|done].
    destruct ring as [r0|]; [|done]. cbn in E. destruct (wo_rings w !! r0) as [rg0|] eqn:Hr0; [|done].
    injection E as -> ->. pose proof (read_into_empty rg samples) as He.
    destruct (read_into rg samples) as [[rg' o] a]. cbn in *. apply silent_on_ring; [done|].
    intros _ Hge _. apply He. by apply (Hw r).
  - unfold native_take_volume_adjustment. repeat case_match; try done; by apply (silent_same n w).
  - unfold is_audio_active. repeat case_match; try done; by apply (silent_same n w).
  - apply (silent_same n w); [apply on_active_rings|done].
  - unfold get_playback_request. repeat case_match; try done; apply (silent_same n w); [apply on_active_rings|done].
  - apply (silent_same n w); [apply on_active_rings|done].
  - unfold take_device_command. repeat case_match; try done; apply (silent_same n w); [apply on_active_rings|done].
  - unfold report_device. repeat case_match; try done; apply (silent_same n w); [apply on_active_rings|done].
  - by apply (silent_same n w).
Qed.

Lemma rings_grow w op : (length (wo_rings w) <= length (wo_rings (step w op)))%nat.
Proof.
  destruct (structural op) eqn:Hop.
  - destruct op; try discriminate Hop; cbn [engine_step].
    + unfold initialize. repeat case_match; cbn; lia.
    + unfold start_session. destruct (wo_poisoned w); [done|]. destruct (wo_engine w) as [e|]; [|done]. cbn.
      destruct (drop_sessions_fields e w) as (_ & H & _). rewrite length_app, H. cbn. lia.
    + unfold disconnect. destruct (wo_poisoned w); [done|]. destruct (wo_engine w) as [e|]; [|done]. cbn.
      destruct (drop_sessions_fields e w) as (_ & H & _). lia.
    + cbn. lia.
    + unfold drop_engine. destruct (wo_poisoned w); [done|]. destruct (wo_engine w) as [e|]; [|done]. cbn.
      destruct (drop_sessions_fields e (set_engine None w)) as (_ & H & _). cbn in H. lia.
  - pose proof (f_equal sk_rings (skeleton_step w op Hop)) as H. cbn in H. lia.
Qed.

Lemma silent_run n ops w :
  engine_inv w -> silent_from n w -> (n < length (wo_rings w))%nat -> Forall (runs_earlier n) ops ->
  engine_inv (run w ops) /\ silent_from n (run w ops) /\ (n < length (wo_rings (run w ops)))%nat.
Proof.
  intros Hi Hs Hn Hops. revert w Hi Hs Hn. induction Hops as [|op ops Hop _ IH]; intros w Hi Hs Hn; [done|].
  cbn. apply IH; [by apply step_inv|by apply silent_step|]. pose proof (rings_grow w op). lia.
Qed.

(** A read from an empty ring. *)
Lemma read_into_silence ring n :
  rg_queue ring = [] -> (read_into ring n).1.2 = replicate n 0 /\ (read_into ring n).2 = 0.
Proof.
  intros Hq. unfold read_into. destruct (rg_buffering ring && _); [done|]. rewrite pop_into_spec. cbn.
  rewrite Hq, take_nil. cbn. by rewrite Nat.sub_0_r, Nat.min_0_r.
Qed.

(** ** The test tone

    Only the session task starts it. *)

Definition toneless (d : DeviceControl) : Prop := tn_until (dc_tone d) = None.

Lemma expire_toneless d now : toneless d -> expire_tone d now = d.
Proof. unfold toneless, expire_tone. by intros ->. Qed.

Lemma push_report_tone d m : dc_tone (push_report d m) = dc_tone d.
Proof. done. Qed.

Lemma stop_toneless d : toneless (stop_tone d).
Proof. unfold toneless, stop_tone. cbn. by rewrite push_tone_report_tone. Qed.

Lemma report_toneless d status : toneless d -> toneless (report d status).
Proof.
  intros Hd. unfold report. destruct (_ || _); unfold toneless; rewrite push_report_tone; [apply stop_toneless|exact Hd].
Qed.

Lemma report_playback_toneless d now a b token playing : toneless d -> toneless (report_playback d now a b token playing).
Proof.
  intros Hd. unfold report_playback. rewrite (expire_toneless d now Hd).
  destruct (_ =? 0); [done|]. destruct (negb (_ =? _)); [done|]. unfold toneless in Hd. rewrite Hd, andb_false_r. cbn.
  repeat case_match; simplify_eq; unfold toneless; by rewrite push_tone_report_tone.
Qed.

Lemma read_toneless d now a frames : toneless d -> read_tone wave d now a frames = (d, None).
Proof. intros Hd. unfold read_tone, tone_active. rewrite (expire_toneless d now Hd). unfold toneless in Hd. by rewrite Hd. Qed.

Lemma set_toneless state s : state <> Connected -> toneless (sh_device (ClientState.set state s)).
Proof. intros Hs. unfold ClientState.set. rewrite bool_decide_eq_false_2 by done. cbn [negb]. by destruct (negb _). Qed.

(** The state that is played from has no tone. *)
Definition active_toneless w : Prop :=
  forall i s, wo_active_state w = Some i -> wo_states w !! i = Some s -> toneless (sh_device s).

Definition runs_no_task (op : engine_op I) : Prop := match op with OpTaskStep _ _ => False | _ => True end.

Lemma toneless_on_state f j w :
  active_toneless w -> (forall s, toneless (sh_device s) -> toneless (sh_device (f s))) -> active_toneless (on_state f j w).
Proof.
  intros Hw Hf i s Hi. cbn in *. destruct (decide (j = i)) as [->|Hne].
  - rewrite list_lookup_alter_eq. destruct (wo_states w !! i) as [s0|] eqn:E; cbn; [|done].
    intros [= <-]. apply Hf. by apply (Hw i).
  - rewrite list_lookup_alter_ne by done. by apply Hw.
Qed.

Lemma toneless_on_active f w :
  active_toneless w -> (forall s, toneless (sh_device s) -> toneless (sh_device (f s))) -> active_toneless (on_active f w).
Proof. intros Hw Hf. unfold on_active. destruct (wo_active_state w); [by apply toneless_on_state|done]. Qed.

(** What a call computes from the active state is put back there. *)
Lemma toneless_put_active d s w :
  active_toneless w -> active_shared w = Some s -> (toneless (sh_device s) -> toneless d) ->
  active_toneless (on_active (put_device d) w).
Proof.
  intros Hw Hs Hd. unfold on_active, active_shared in *. destruct (wo_active_state w) as [i|] eqn:Hi; [|done].
  apply toneless_on_state; [done|]. intros s' _. apply Hd. by apply (Hw i).
Qed.

Lemma toneless_same w w' :
  wo_states w' = wo_states w -> wo_active_state w' = wo_active_state w -> active_toneless w -> active_toneless w'.
Proof. unfold active_toneless. by intros -> ->. Qed.

Lemma drop_sessions_states e w :
  wo_states (drop_sessions e w) = wo_states w /\ wo_active_state (drop_sessions e w) = wo_active_state w.
Proof. unfold drop_sessions. by destruct (en_session e). Qed.

Lemma toneless_drop e w : active_toneless w -> active_toneless (drop_sessions e w).
Proof. destruct (drop_sessions_states e w) as [H1 H2]. by apply toneless_same. Qed.

Lemma toneless_started address fingerprint w :
  (start_session address fingerprint w).2 = Ok tt -> active_toneless (start_session address fingerprint w).1.
Proof.
  unfold start_session. destruct (wo_poisoned w); [done|]. destruct (wo_engine w) as [e|]; [|done]. intros _. cbn [fst].
  intros i s. cbn. intros [= <-]. rewrite list_lookup_alter_eq.
  destruct (wo_states _ !! en_state e); cbn; [|done]. intros [= <-]. by apply set_toneless.
Qed.

Lemma toneless_step w op : engine_inv w -> active_toneless w -> runs_no_task op -> active_toneless (step w op).
Proof.
  intros Hi Hw Hop. destruct op; cbn [engine_step runs_no_task] in *; try done.
  - unfold initialize. destruct (wo_poisoned w); [done|]. destruct (wo_engine w); [done|]. destruct built; [|done].
    intros i s. cbn. intros Hai Hs. pose proof (ki_active_state _ Hi i Hai) as Hlt. cbn in Hlt.
    rewrite lookup_app_l in Hs by done. by apply (Hw i).
  - destruct (start_session address fingerprint w) as [w' [[]|e]] eqn:E.
    + change w' with ((w', Ok tt : result ConnectError unit).1). rewrite <- E. apply toneless_started. by rewrite E.
    + unfold start_session in E. destruct (wo_poisoned w); [by injection E as <- _|].
      destruct (wo_engine w); [done|by injection E as <- _].
  - unfold record_connect_error. destruct (wo_poisoned w); [done|]. destruct (wo_engine w); [|done].
    apply toneless_on_state; [done|]. intros s _. by apply set_toneless.
  - unfold disconnect. destruct (wo_poisoned w); [done|]. destruct (wo_engine w) as [e|]; [|done].
    apply toneless_on_state; [|intros s _; by apply set_toneless].
    by apply (toneless_same (drop_sessions e w)); [..|apply toneless_drop].
  - unfold drop_engine. destruct (wo_poisoned w); [done|]. destruct (wo_engine w) as [e|]; [|done].
    apply toneless_on_state; [|intros s _; by apply set_toneless]. by apply toneless_drop.
  - unfold read_active_tone. destruct (wo_active_state w) as [i|] eqn:Hai; [|done].
    destruct (wo_states w !! i) as [s|] eqn:Hs; [|done]. pose proof (Hw i s Hai Hs) as Ht.
    rewrite (read_toneless _ _ _ _ Ht). by apply toneless_on_state.
  - unfold read_ring. destruct (ring ≫= _) as [[r rg]|]; [|done]. by destruct (read_into rg samples) as [[rg' o] a].
  - unfold native_take_volume_adjustment. destruct (engine_shared w), (wo_engine w); try done. by apply toneless_on_state.
  - unfold is_audio_active. destruct (engine_shared w) as [s|] eqn:Hs; [|done]. destruct (wo_engine w) as [e|] eqn:He; [|done].
    destruct (sh_audio_active s); [done|]. unfold tone_active. cbn [fst]. intros i s' Hai. cbn in *.
    destruct (decide (en_state e = i)) as [<-|Hne]; [|rewrite list_lookup_alter_ne by done; by apply Hw].
    rewrite list_lookup_alter_eq. unfold engine_shared in Hs. rewrite He in Hs. destruct (wo_poisoned w); [done|]. cbn in Hs.
    rewrite Hs. cbn. intros [= <-]. cbn. pose proof (Hw _ s Hai Hs) as Ht. by rewrite (expire_toneless _ _ Ht).
  - apply toneless_on_active; [done|]. intros s _. apply stop_toneless.
  - unfold get_playback_request. destruct (active_shared w) as [s|] eqn:Hs; [|done]. cbn.
    apply (toneless_put_active _ s); [done..|]. intros Ht. by rewrite (expire_toneless _ _ Ht).
  - apply toneless_on_active; [done|]. intros s. apply report_playback_toneless.
  - unfold take_device_command. destruct (active_shared w) as [s|] eqn:Hs; [|done].
    destruct (take_command_at _ now) as [d c] eqn:Hd. cbn [fst]. apply (toneless_put_active _ s); [done..|].
    unfold take_command_at in Hd. by destruct (dc_commands _); injection Hd as <- _.
  - unfold report_device. destruct (active_shared w) as [s|] eqn:Hs; [|done]. case_bool_decide; [|done].
    apply (toneless_put_active _ s); [done..|]. apply report_toneless.
Qed.

Lemma toneless_run ops w :
  engine_inv w -> active_toneless w -> Forall runs_no_task ops -> active_toneless (run w ops).
Proof.
  intros Hi Hw Hops. revert w Hi Hw. induction Hops as [|op ops Hop _ IH]; intros w Hi Hw; [done|].
  cbn. apply IH; [by apply step_inv|by apply toneless_step].
Qed.

Lemma read_active_toneless now a frames w :
  active_toneless w -> (read_active_tone wave now a frames w).2 = None.
Proof.
  intros Hw. unfold read_active_tone. destruct (wo_active_state w) as [i|] eqn:Hi; [|done].
  destruct (wo_states w !! i) as [s|] eqn:Hs; [|done]. by rewrite (read_toneless _ _ _ _ (Hw i s Hi Hs)).
Qed.

Lemma read_active_rings now a frames w :
  wo_rings (read_active_tone wave now a frames w).1 = wo_rings w /\
  wo_active_ring (read_active_tone wave now a frames w).1 = wo_active_ring w.
Proof.
  unfold read_active_tone. destruct (wo_active_state w) as [i|]; [|done]. destruct (wo_states w !! i) as [s|]; [|done].
  by destruct (read_tone _ _ _ _ _).
Qed.

(** ** After a disconnection *)

(** Kotlin does not connect. *)
Definition connects_not (op : engine_op I) : Prop :=
  match op with OpStartSession _ _ | OpRecordError _ => False | _ => True end.

(** No task runs, the engine's state shows no session, no ring is active. *)
Definition at_rest w : Prop :=
  Forall (fun t => tk_polling t = false /\ tk_aborted t = true) (wo_tasks w) /\ wo_active_ring w = None /\
  forall e s, wo_engine w = Some e -> wo_states w !! en_state e = Some s ->
    (sh_state s = as_raw Disconnected \/ sh_state s = as_raw Idle) /\ sh_audio_active s = false.

Lemma rest_on_state f i w :
  at_rest w -> (forall s, sh_state (f s) = sh_state s /\ sh_audio_active (f s) = sh_audio_active s) ->
  at_rest (on_state f i w).
Proof.
  intros (H1 & H2 & H3) Hf. split_and!; [done..|]. intros e s He. cbn in *.
  destruct (decide (i = en_state e)) as [->|Hne].
  - rewrite list_lookup_alter_eq. destruct (wo_states w !! en_state e) as [s0|] eqn:E; cbn; [|done].
    intros [= <-]. destruct (Hf s0) as [-> ->]. by apply (H3 e).
  - rewrite list_lookup_alter_ne by done. by apply H3.
Qed.

Lemma rest_on_active f w :
  at_rest w -> (forall s, sh_state (f s) = sh_state s /\ sh_audio_active (f s) = sh_audio_active s) ->
  at_rest (on_active f w).
Proof. intros Hw Hf. unfold on_active. destruct (wo_active_state w); [by apply rest_on_state|done]. Qed.

Lemma rest_drop e w : Forall (fun t => tk_polling t = false) (wo_tasks w) ->
  Forall (fun t => tk_polling t = false) (wo_tasks (drop_sessions e w)).
Proof.
  intros H. unfold drop_sessions. destruct (en_session e) as [s|]; [|done]. cbn.
  apply Forall_lookup. intros j t Hj. destruct (decide (ss_task s = j)) as [<-|Hne].
  - rewrite list_lookup_alter_eq in Hj. destruct (wo_tasks w !! ss_task s) as [t0|] eqn:E; [|done]. injection Hj as <-.
    by apply (Forall_lookup_1 _ _ _ _ H E).
  - rewrite list_lookup_alter_ne in Hj by done. by apply (Forall_lookup_1 _ _ _ _ H Hj).
Qed.

Lemma all_aborted w e :
  engine_inv w -> wo_engine w = Some e -> Forall (fun t => tk_aborted t = true) (wo_tasks (drop_sessions e w)).
Proof.
  intros Hw He. destruct (dropped_inv (skeleton w) e None Hw He) as (_ & _ & Hall); [done|].
  pose proof (f_equal sk_tasks (skeleton_drop_sessions e w)) as Hk. cbn in Hk, Hall. rewrite <- Hk in Hall.
  apply Forall_fmap in Hall. eapply Forall_impl; [exact Hall|]. done.
Qed.

Lemma disconnect_rest w e :
  engine_inv w -> wo_poisoned w = false -> wo_engine w = Some e ->
  Forall (fun t => tk_polling t = false) (wo_tasks w) -> at_rest (disconnect w).
Proof.
  intros Hw Hp He Hpoll. unfold disconnect. rewrite Hp, He. split_and!; [|done|].
  - apply Forall_and. split; [by apply rest_drop|by apply all_aborted].
  - intros e1 s [= <-]. cbn. rewrite list_lookup_alter_eq. destruct (wo_states _ !! en_state e); [|done]. cbn.
    intros [= <-]. split; [left; apply set_state_value|by apply set_audio_off].
Qed.

Lemma rest_step w op : engine_inv w -> at_rest w -> connects_not op -> at_rest (step w op).
Proof.
  intros Hi Hw Hop. destruct op; cbn [engine_step connects_not] in *; try done.
  - unfold initialize. destruct (wo_poisoned w); [done|]. destruct (wo_engine w); [done|]. destruct built; [|done].
    destruct Hw as (H1 & H2 & H3). split_and!; [done..|]. intros e s [= <-]. cbn.
    rewrite lookup_app_r, Nat.sub_diag by lia. intros [= <-]. split; [by right|done].
  - destruct (wo_poisoned w) eqn:Hp; [unfold disconnect; by rewrite Hp|].
    destruct (wo_engine w) as [e|] eqn:He; [|unfold disconnect; by rewrite Hp, He].
    apply (disconnect_rest w e); try done. eapply Forall_impl; [apply Hw|]. by intros t [].
  - destruct Hw as (H1 & H2 & H3). by split_and!.
  - unfold drop_engine. destruct (wo_poisoned w); [done|]. destruct (wo_engine w) as [e|] eqn:He; [|done].
    destruct Hw as (H1 & H2 & H3). assert (Forall (fun t => tk_polling t = false) (wo_tasks w)) as Hpoll.
    { eapply Forall_impl; [exact H1|]. by intros t []. }
    split_and!; [|by unfold drop_sessions; destruct (en_session e)|by unfold drop_sessions; destruct (en_session e)].
    apply Forall_and. split; [by apply (rest_drop e (set_engine None w))|].
    pose proof (all_aborted w e Hi He) as Ha. unfold drop_sessions in *. by destruct (en_session e).
  - destruct Hw as (H1 & H2 & H3). split_and!; [|done..]. cbn. apply Forall_lookup. intros j t Hj.
    destruct (decide (task = j)) as [->|Hne]; [|rewrite list_lookup_alter_ne in Hj by done; by apply (Forall_lookup_1 _ _ _ _ H1 Hj)].
    rewrite list_lookup_alter_eq in Hj. destruct (wo_tasks w !! j) as [t0|] eqn:E; [|done]. injection Hj as <-.
    destruct (Forall_lookup_1 _ _ _ _ H1 E) as [Hp Ha]. by rewrite Ha.
  - unfold task_step. destruct (wo_tasks w !! task) as [t|] eqn:E; [|done].
    destruct Hw as (H1 & H2 & H3). destruct (Forall_lookup_1 _ _ _ _ H1 E) as [-> _]. done.
  - destruct Hw as (H1 & H2 & H3). split_and!; [|done..]. cbn. apply Forall_lookup. intros j t Hj.
    destruct (decide (task = j)) as [->|Hne]; [|rewrite list_lookup_alter_ne in Hj by done; by apply (Forall_lookup_1 _ _ _ _ H1 Hj)].
    rewrite list_lookup_alter_eq in Hj. destruct (wo_tasks w !! j) as [t0|] eqn:E; [|done]. injection Hj as <-.
    by destruct (Forall_lookup_1 _ _ _ _ H1 E) as [Hp Ha].
  - unfold read_active_tone. repeat case_match; try done. by apply rest_on_state.
  - unfold read_ring. repeat case_match; try done.
  - unfold native_take_volume_adjustment. repeat case_match; try done. by apply rest_on_state.
  - unfold is_audio_active. repeat case_match; try done. by apply rest_on_state.
  - by apply rest_on_active.
  - unfold get_playback_request. repeat case_match; try done. by apply rest_on_active.
  - by apply rest_on_active.
  - unfold take_device_command. repeat case_match; try done. by apply rest_on_active.
  - unfold report_device. repeat case_match; try done. by apply rest_on_active.
Qed.

Lemma rest_run ops w :
  engine_inv w -> at_rest w -> Forall connects_not ops -> engine_inv (run w ops) /\ at_rest (run w ops).
Proof.
  intros Hi Hw Hops. revert w Hi Hw. induction Hops as [|op ops Hop _ IH]; intros w Hi Hw; [done|].
  cbn. apply IH; [by apply step_inv|by apply rest_step].
Qed.
End safety.

(** ** The session task of [Reconnect] as the engine's task *)

Definition reconnecting {W R : Type} `{!SendStream W} `{!RecvStream R} {Hcodec : ControlCodec}
    (describe : ClientError -> rstring) : SessionRunner (SessionTask W) (session_input W R) := {|
  runner_new := session_task_new;
  runner_step := session_task_step describe;
|}.

#[local] Instance phone_runner : SessionRunner (SessionTask PipeEnd) (session_input PipeEnd PipeEnd) :=
  @reconnecting _ _ _ _ u8_codec describe_error.
Definition connect_error_text (e : ConnectError) : rstring := match e with PortOutOfRange => [112] | _ => [] end.
Notation phone_run := (engine_run connect_error_text silent_wave).

(** ** Properties *)

Section properties.
Context {T I : Type} `{!SessionRunner T I}.
Context (connect_text : ConnectError -> rstring) (wave : Z -> Z).
Implicit Types w : World T.

(** C11. One session at a time. In every state the library can get into, under
    any interleaving of calls, polls and reads: a task that was not aborted is
    the newest one, it is the session of the engine and works on the state of
    the engine; every task has a ring of its own; and the ring the audio thread
    is given is the newest one. *)
Theorem one_session_at_a_time (ops : list (engine_op I)) :
  let w := engine_run connect_text wave world_new ops in
  (forall i t, wo_tasks w !! i = Some t ->
     tk_ring t = i /\
     (tk_aborted t = false ->
        S i = length (wo_tasks w) /\
        exists e, wo_engine w = Some e /\ en_session e = Some (mkSession i i) /\ tk_state t = en_state e)) /\
  (forall r, wo_active_ring w = Some r -> S r = length (wo_rings w)) /\
  length (wo_rings w) = length (wo_tasks w).
Proof.
  intros w. pose proof (reachable_inv connect_text wave ops) as H. fold w in H.
  pose proof (ki_rings _ H) as Hr. cbn in Hr. rewrite length_fmap in Hr.
  split_and!; [|by apply (ki_active_ring _ H)|done]. intros i t Ht.
  assert (sk_tasks (skeleton w) !! i = Some (task_shape t)) as Hk by (cbn; by rewrite list_lookup_fmap, Ht).
  split; [by destruct (ki_tasks _ H _ _ _ _ Hk)|]. intros Ha. pose proof Hk as Hk'. unfold task_shape in Hk'.
  rewrite Ha in Hk'. destruct (ki_live _ H _ _ _ Hk') as (Hlast & e & He & Hs). cbn in Hlast. rewrite length_fmap in Hlast.
  split; [done|]. exists e. split_and!; [done..|]. destruct (ki_engine _ H e He) as [_ Hss].
  destruct (Hss _ Hs) as [_ Hl]. cbn [ss_task] in Hl. rewrite Hk' in Hl. by injection Hl.
Qed.

(** C29. No audio of an earlier session is heard. When [connect] has started a
    session, then as long as neither its task nor that of a later connection
    has run, whatever the aborted tasks still do in their last polls and
    whatever else is called: a call of [read_pcm] by the audio thread yields
    either the calibration tone or silence, of which no sample counts as audio;
    and it yields silence if no aborted task ran either.  (The last poll of an
    aborted task can still start the tone, [late_poll_starts_tone].) *)
Theorem new_connection_starts_silent (before after : list (engine_op I)) (address : SocketAddress) (fingerprint : bytes)
  (frames : nat) (now now_active : Z) (w : World T) (started : World T) (Hw : w = engine_run connect_text wave world_new before)
  (Hstart : start_session address fingerprint w = (started, Ok tt))
  (Hafter : Forall (runs_earlier (length (wo_tasks w))) after) :
  let w' := engine_run connect_text wave started after in
  let tone := (read_active_tone wave now now_active frames w').2 in
  let '(_, output, count) := read_pcm wave now now_active frames w' in
  match tone with
  | Some wave_form => output = wave_form
  | None => output = replicate (2 * frames) 0 /\ count = 0
  end /\
  (Forall runs_no_task after -> tone = None).
Proof.
  intros w' tone. pose proof (reachable_inv connect_text wave before) as Hi. rewrite <- Hw in Hi.
  assert (started = engine_step connect_text wave w (OpStartSession address fingerprint)) as Hst.
  { cbn. by rewrite Hstart. }
  assert (exists e, wo_engine w = Some e /\ wo_poisoned w = false) as (e & He & Hp).
  { unfold start_session in Hstart. destruct (wo_poisoned w); [done|]. destruct (wo_engine w) as [e|]; [by exists e|done]. }
  pose proof (f_equal sk_rings (skeleton_start_session address fingerprint w e Hp He)) as Hlen. cbn in Hlen.
  rewrite Hstart in Hlen. cbn in Hlen. pose proof (ki_rings _ Hi) as Hrt. cbn in Hrt. rewrite length_fmap in Hrt.
  assert (silent_from (length (wo_tasks w)) w) as Hs.
  { intros r ring Hr Hl. apply lookup_lt_Some in Hl. lia. }
  assert (engine_inv started) as Histarted by (rewrite Hst; by apply step_inv).
  destruct (silent_run connect_text wave (length (wo_tasks w)) after started) as (Hi' & Hs' & Hn'); [done| |lia|done|].
  { rewrite Hst. by apply silent_step. }
  fold w' in Hi', Hs', Hn'.
  assert (Forall runs_no_task after -> tone = None) as Htone.
  { intros Hno. apply read_active_toneless, toneless_run; [done| |done].
    pose proof (toneless_started address fingerprint w) as H. rewrite Hstart in H. by apply H. }
  unfold read_pcm. destruct (read_active_rings wave now now_active frames w') as [Hr1 Hr2]. unfold tone in *.
  destruct (read_active_tone wave now now_active frames w') as [w1 [output|]] eqn:E; cbn in *; [done|].
  assert (forall r ring, wo_active_ring w1 = Some r -> wo_rings w1 !! r = Some ring -> rg_queue ring = []) as Hempty.
  { rewrite Hr1, Hr2. intros r ring Hr. pose proof (ki_active_ring _ Hi' r Hr) as Hnew. cbn in Hnew. apply Hs'. lia. }
  unfold read_ring. destruct (wo_active_ring w1) as [r|]; cbn; [|done].
  destruct (wo_rings w1 !! r) as [ring|] eqn:Hring; cbn; [|done].
  destruct (read_into_silence ring (frames + (frames + 0))) as [H1 H2]; [by apply (Hempty r)|].
  destruct (read_into ring _) as [[ring' o] a]. cbn in H1, H2. by rewrite H1, H2.
Qed.

(** C30. A disconnection is final unless a poll is under way. If no task is being
    polled when [disconnect] gets the lock, then until the next connection, and
    whatever else is called: the state reads "disconnected" (or "idle", when
    the engine was shut down), no audio is flagged, no ring is active, and no
    task is ever polled again. *)
Theorem disconnect_is_final (before after : list (engine_op I)) (w : World T)
  (Hw : w = engine_run connect_text wave world_new before) (Hpoisoned : wo_poisoned w = false)
  (Hengine : is_Some (wo_engine w)) (Hpolls : Forall (fun t => tk_polling t = false) (wo_tasks w))
  (Hafter : Forall connects_not after) :
  let w' := engine_run connect_text wave (disconnect w) after in
  (native_state w' = Disconnected \/ native_state w' = Idle) /\
  (forall s, engine_shared w' = Some s -> sh_audio_active s = false) /\ wo_active_ring w' = None /\
  Forall (fun t => tk_polling t = false /\ tk_aborted t = true) (wo_tasks w').
Proof.
  intros w'. destruct Hengine as [e He]. pose proof (reachable_inv connect_text wave before) as Hi. rewrite <- Hw in Hi.
  destruct (rest_run connect_text wave after (disconnect w)) as [_ (H1 & H2 & H3)]; [..|done|].
  { apply (step_inv connect_text wave w OpDisconnect Hi). }
  { by apply (disconnect_rest w e). }
  fold w' in H1, H2, H3. unfold native_state, engine_shared.
  destruct (wo_poisoned w'); [split_and!; [by right|done..]|].
  destruct (wo_engine w') as [e'|] eqn:He'; cbn; [|split_and!; [by right|done..]].
  destruct (wo_states w' !! en_state e') as [s|] eqn:Hs; cbn; [|split_and!; [by right|done..]].
  destruct (H3 e' s eq_refl Hs) as [Hst Ha]. split_and!; [|by intros s' [= <-]|done..].
  unfold state. destruct Hst as [-> | ->]; [by left|by right].
Qed.
End properties.

(** A poll that is under way when the session is dropped is not waited for:
    the last steps of the aborted task then write to the state that the engine
    goes on to use. Here the greeting of the server arrives during the poll in
    which [disconnect] is called: afterwards the state reads "connected"
    although there is no session, and stays so until the next call. *)
Theorem late_poll_outlives_disconnect :
  let w := phone_run world_new
    [OpInitialize (Ok tt); OpStartSession phone_address []; OpPollStart 0; OpDisconnect;
     OpTaskStep 0 (SinAttempt good_attempt); OpPollEnd 0] in
  native_state w = Connected /\ wo_engine w = Some (mkEngine 0 None) /\
  (tk_aborted <$> wo_tasks w) = [true] /\ (tk_polling <$> wo_tasks w) = [false].
Proof. vm_compute. done. Qed.

(** The same for the test tone: the last poll of a task starts it after the next
    connection was started, and the audio thread plays it. *)
Definition late_tone : list (engine_op (session_input PipeEnd PipeEnd)) :=
  [OpInitialize (Ok tt); OpStartSession phone_address []; OpPollStart 0; OpStartSession phone_address [];
   OpTaskStep 0 (SinAttempt good_attempt); OpReportDevice 0 [] [] (Z.shiftl 1 49);
   OpTaskStep 0 (SinEvent (CevMessage 10 (Ok (CalibrationTone 1 true)))); OpPollEnd 0].

Lemma late_poll_starts_tone :
  (read_active_tone silent_wave 11 11 2 (phone_run world_new late_tone)).2 = Some [0; 0; 0; 0].
Proof. vm_compute. reflexivity. Qed.

(** ** Witnesses *)

Definition reconnect_ops : list (engine_op (session_input PipeEnd PipeEnd)) :=
  [OpInitialize (Ok tt); OpStartSession phone_address []; OpPollStart 0; OpTaskStep 0 (SinAttempt good_attempt)].

Definition last_poll : list (engine_op (session_input PipeEnd PipeEnd)) :=
  [OpTaskStep 0 (SinEvent CevClosed); OpPollEnd 0].

Lemma new_connection_starts_silent_witness :
  exists started, start_session phone_address [1] (phone_run world_new reconnect_ops) = (started, Ok tt) /\
    (read_pcm silent_wave 20 20 2 (phone_run started last_poll)).1.2 = [0; 0; 0; 0].
Proof.
  destruct (start_session phone_address [1] (phone_run world_new reconnect_ops)) as [started r] eqn:Hstart.
  assert (r = Ok tt) as -> by (change r with ((started, r).2); rewrite <- Hstart; vm_compute; reflexivity).
  exists started. split; [reflexivity|].
  pose proof (new_connection_starts_silent connect_error_text silent_wave reconnect_ops last_poll phone_address [1] 2 20 20
    (phone_run world_new reconnect_ops) started eq_refl Hstart ltac:(repeat constructor)) as H.
  assert ((read_active_tone silent_wave 20 20 2 (phone_run started last_poll)).2 = None) as Htone.
  { change started with ((started, Ok tt : result ConnectError unit).1). rewrite <- Hstart. vm_compute. reflexivity. }
  cbv zeta in H. rewrite Htone in H. destruct (read_pcm _ _ _ _ _) as [[w o] a]. apply H.
Defined.

Lemma disconnect_is_final_witness :
  let w := phone_run world_new (reconnect_ops ++ [OpPollEnd 0]) in
  let w' := phone_run (disconnect w) [OpPollStart 0; OpTaskStep 0 (SinEvent CevClosed); OpReadRing (Some 0%nat) 2] in
  native_state w = Connected /\ (native_state w' = Disconnected \/ native_state w' = Idle) /\ wo_active_ring w' = None.
Proof.
  intros w w'. split; [vm_compute; reflexivity|].
  destruct (disconnect_is_final connect_error_text silent_wave (reconnect_ops ++ [OpPollEnd 0])
    [OpPollStart 0; OpTaskStep 0 (SinEvent CevClosed); OpReadRing (Some 0%nat) 2] w eq_refl) as (H1 & _ & H2 & _).
  - vm_compute. reflexivity.
  - vm_compute. by eexists.
  - vm_compute. repeat constructor.
  - repeat constructor.
  - split; [exact H1|exact H2].
Defined.
