(* ===== verification/EngineCalls.v ===== *)
(** * EngineCalls: what single calls of Kotlin do

    Theorems on [Engine], call by call: refused and successful connections and
    the packed device report, together with the functions of
    [DeviceVolumeControl.kt] and [PairingPayload.kt] that produce their
    arguments. *)

From Stdlib Require Import ZArith Lia.
From S2P Require Import Prelude BTree Wire Text Transport Identity Pairing Server Address Jitter Ring DeviceControl ClientState Receiver Client Reconnect Engine EngineSafety.

(** ** Numbers for Kotlin

    The state Kotlin decodes is the engine's; a counter reaches it unchanged, or
    as the greatest [jlong]. *)
Lemma kotlin_reads_the_state {T} (w : World T) : from_raw (native_get_state w) = native_state w.
Proof. unfold native_get_state. by destruct (native_state w). Qed.

Lemma kotlin_reads_counters (v : Z) :
  v ∈u 64 -> 0 <= to_jlong v < 2 ^ 63 /\ (v < 2 ^ 63 -> to_jlong v = v).
Proof. unfold in_uint, to_jlong. intros Hv. destruct (Z.ltb_spec v (2 ^ 63)); lia. Qed.

(** ** The report of a device

    [report] of [DeviceVolumeControl.kt]: the argument [values]. *)
Definition packed_values (volume minimum maximum : Z) (fixed speaker failed : bool) : Z :=
  let values := volume in
  let values := Z.lor values (Z.shiftl minimum 16) in
  let values := Z.lor values (Z.shiftl maximum 32) in
  let values := if fixed then Z.lor values (Z.shiftl 1 48) else values in
  let values := if speaker then Z.lor values (Z.shiftl 1 49) else values in
  if failed then Z.lor values (Z.shiftl 1 50) else values.

(** The same as a sum. *)
Definition values_sum (volume minimum maximum : Z) (fixed speaker failed : bool) : Z :=
  volume + 2 ^ 16 * (minimum + 2 ^ 16 * (maximum + 2 ^ 16 * (Z.b2z fixed + 2 * Z.b2z speaker + 4 * Z.b2z failed))).

Lemma lor_above a b k : 0 <= k -> 0 <= a < 2 ^ k -> Z.lor a (Z.shiftl b k) = a + b * 2 ^ k.
Proof. intros Hk Ha. rewrite Z.lor_comm, lor_disjoint by done. lia. Qed.

Lemma lor_flag (b : bool) a k :
  0 <= k -> 0 <= a < 2 ^ k -> (if b then Z.lor a (Z.shiftl 1 k) else a) = a + Z.b2z b * 2 ^ k.
Proof. intros Hk Ha. destruct b; [by apply lor_above|simpl; lia]. Qed.

Lemma packed_values_sum volume minimum maximum fixed speaker failed :
  volume ∈u 16 -> minimum ∈u 16 -> maximum ∈u 16 ->
  packed_values volume minimum maximum fixed speaker failed = values_sum volume minimum maximum fixed speaker failed.
Proof.
  unfold in_uint. intros Hv Hm HM. unfold packed_values, values_sum. cbv zeta.
  rewrite (lor_above volume minimum 16) by lia. rewrite (lor_above _ maximum 32) by lia.
  rewrite (lor_flag fixed) by lia. rewrite (lor_flag speaker) by (destruct fixed; cbn [Z.b2z]; lia).
  rewrite (lor_flag failed) by (destruct fixed, speaker; cbn [Z.b2z]; lia). lia.
Qed.

Lemma field_spec v shift : 0 <= shift -> Z.land (Z.shiftr v shift) 65535 = (v / 2 ^ shift) mod 2 ^ 16.
Proof. intros Hs. rewrite Z.shiftr_div_pow2 by done. change 65535 with (Z.ones 16). by rewrite Z.land_ones. Qed.

Lemma flag_spec v bit : 0 <= bit -> negb (Z.land v (Z.shiftl 1 bit) =? 0) = ((v / 2 ^ bit) mod 2 =? 1).
Proof.
  intros Hb. rewrite <- Z.testbit_eqb by done. destruct (Z.testbit v bit) eqn:E.
  - destruct (Z.eqb_spec (Z.land v (Z.shiftl 1 bit)) 0) as [H|]; [|done].
    apply (f_equal (fun z => Z.testbit z bit)) in H. rewrite Z.land_spec, E, Z.shiftl_spec, Z.sub_diag, Z.bits_0 in H by done.
    done.
  - assert (Z.land v (Z.shiftl 1 bit) = 0) as ->; [|done]. apply Z.bits_inj'. intros n Hn.
    rewrite Z.land_spec, Z.bits_0. destruct (Z.eq_dec n bit) as [->|Hne]; [by rewrite E|].
    rewrite Z.shiftl_1_l, Z.pow2_bits_false by done. apply andb_false_r.
Qed.

Lemma unpack_packed_values request_id device_id name volume minimum maximum fixed speaker failed :
  request_id ∈u 32 -> volume ∈u 16 -> minimum ∈u 16 -> maximum ∈u 16 ->
  unpack_status request_id device_id name (packed_values volume minimum maximum fixed speaker failed) =
    mkDeviceStatus request_id (take 80 device_id) (take 80 name) volume minimum maximum fixed speaker failed.
Proof.
  intros Hr Hv Hm HM. rewrite packed_values_sum by done. unfold in_uint in *.
  assert (0 <= values_sum volume minimum maximum fixed speaker failed) as H0.
  { unfold values_sum. destruct fixed, speaker, failed; cbn [Z.b2z]; lia. }
  unfold unpack_status, u64_or_zero. apply Z.leb_le in H0 as ->.
  replace ((0 <=? request_id) && (request_id <? 2 ^ 32)) with true by lia.
  rewrite !field_spec, !flag_spec by lia. unfold values_sum.
  change (2 ^ 0) with 1. change (2 ^ 16) with 65536 in *. change (2 ^ 32) with 4294967296.
  change (2 ^ 48) with 281474976710656. change (2 ^ 49) with 562949953421312. change (2 ^ 50) with 1125899906842624.
  f_equal; try (destruct fixed, speaker, failed; cbn [Z.b2z]; Z.to_euclidean_division_equations; lia).
  all: destruct fixed, speaker, failed; cbn [Z.b2z]; (apply Z.eqb_eq || apply Z.eqb_neq); Z.to_euclidean_division_equations; lia.
Qed.

(** ** Connecting *)

Lemma set_last_error st s : sh_last_error (ClientState.set st s) = sh_last_error s.
Proof. unfold ClientState.set, set_audio_active. by repeat case_match. Qed.

Section calls.
Context {T I : Type} `{!SessionRunner T I}.
Context (connect_text : ConnectError -> rstring) (wave : Z -> Z).
Implicit Types w : World T.

(** Why [nativeConnect] refuses, in the order of the checks. *)
Definition refusal (host : rstring) (port : Z) (fingerprint_text : rstring) (built : result rstring unit) w
  : option ConnectError :=
  if negb ((1 <=? port) && (port <=? 65535)) then Some PortOutOfRange
  else if wo_poisoned w then Some LockPoisoned
  else match wo_engine w, built with
       | None, Err error => Some (RuntimeBuild error)
       | _, _ =>
           match parse_socket_addr (host ++ [58] ++ decimal port), parse_fingerprint fingerprint_text with
           | None, _ => Some InvalidAddress
           | _, Err _ => Some InvalidFingerprint
           | Some _, Ok _ => None
           end
       end.

(** The world after [initialize]. *)
Definition initialized w : World T := (initialize (Ok tt) w).1.

Lemma initialize_spec built w :
  wo_poisoned w = false ->
  match wo_engine w, built with
  | None, Err error => initialize built w = (w, Err (RuntimeBuild error))
  | _, _ => initialize built w = (initialized w, Ok tt)
  end.
Proof. intros Hp. unfold initialized, initialize. rewrite Hp. by destruct (wo_engine w), built. Qed.

Lemma initialized_engine w : wo_poisoned w = false ->
  wo_poisoned (initialized w) = false /\
  exists e, wo_engine (initialized w) = Some e /\ (wo_engine w = Some e /\ initialized w = w \/
    wo_engine w = None /\ e = mkEngine (length (wo_states w)) None /\ initialized w =
      set_engine (Some e) (set_states (wo_states w ++ [shared_default]) w)).
Proof.
  intros Hp. unfold initialized, initialize. rewrite Hp. destruct (wo_engine w) as [e|] eqn:He; cbn.
  - rewrite He. split; [done|]. exists e. by split; [|left].
  - split; [done|]. eexists. split; [done|]. by right.
Qed.

(** [nativeConnect] with no one else interfering. *)
Lemma native_connect_spec host port fingerprint_text built w :
  native_connect connect_text wave host port fingerprint_text built [] [] w =
    match refusal host port fingerprint_text built w with
    | Some (LockPoisoned) => (w, false)
    | Some (PortOutOfRange as e) | Some (RuntimeBuild _ as e) => (record_connect_error connect_text e w, false)
    | Some e => (record_connect_error connect_text e (initialized w), false)
    | None =>
        match parse_socket_addr (host ++ [58] ++ decimal port), parse_fingerprint fingerprint_text with
        | Some address, Ok fingerprint => ((start_session address fingerprint (initialized w)).1, true)
        | _, _ => (w, false)
        end
    end.
Proof.
  unfold native_connect, refusal. destruct ((1 <=? port) && (port <=? 65535)); cbn [negb]; [|done].
  unfold connect. destruct (wo_poisoned w) eqn:Hp.
  { unfold initialize. rewrite Hp. unfold record_connect_error. cbn. by rewrite Hp. }
  pose proof (initialize_spec built w Hp) as Hi. destruct (initialized_engine w Hp) as (Hp' & e & He & _).
  destruct (wo_engine w), built; rewrite Hi; cbn [engine_run foldl]; try done;
    (destruct (parse_socket_addr _) as [address|]; [|done]; destruct (parse_fingerprint _) as [fingerprint|]; [|done];
     unfold start_session; by rewrite Hp', He).
Qed.

(** C33. A refused connection is recorded, and touches nothing else. When
    [nativeConnect] returns [false], the reason is the first failed check; no
    session is ended, no task, ring or global is changed (at most the engine
    was initialised); and if there is an engine, its state reads "failed" with
    the text of that reason. *)
Theorem refused_connect (host : rstring) (port : Z) (fingerprint_text : rstring) (built : result rstring unit)
  (w w' : World T) (Hw : engine_inv w)
  (Hcall : native_connect connect_text wave host port fingerprint_text built [] [] w = (w', false)) :
  exists e, refusal host port fingerprint_text built w = Some e /\
    wo_tasks w' = wo_tasks w /\ wo_rings w' = wo_rings w /\ wo_active_ring w' = wo_active_ring w /\
    wo_active_state w' = wo_active_state w /\
    (wo_engine w' = wo_engine w \/
     wo_engine w = None /\ wo_engine w' = Some (mkEngine (length (wo_states w)) None)) /\
    (wo_poisoned w = false -> is_Some (wo_engine w') ->
       native_state w' = ClientFailed /\ last_error w' = connect_text e).
Proof.
  assert (forall e w0, wo_poisoned w0 = false -> engine_inv w0 -> is_Some (wo_engine w0) ->
    native_state (record_connect_error connect_text e w0) = ClientFailed /\
    last_error (record_connect_error connect_text e w0) = connect_text e) as Hrecord.
  { intros e w0 Hp Hi [eng He]. destruct (ki_engine _ Hi eng He) as [Hlt _]. cbn in Hlt.
    apply lookup_lt_is_Some in Hlt as [s Hs].
    unfold native_state, last_error, engine_shared, record_connect_error. rewrite Hp, He. cbn. rewrite Hp, He. cbn.
    rewrite list_lookup_alter_eq, Hs. cbn. unfold state, set_error. rewrite set_state_value. split; [done|].
    apply set_last_error. }
  assert (forall e w0, let w1 := record_connect_error connect_text e w0 in
    wo_tasks w1 = wo_tasks w0 /\ wo_rings w1 = wo_rings w0 /\ wo_active_ring w1 = wo_active_ring w0 /\
    wo_active_state w1 = wo_active_state w0 /\ wo_engine w1 = wo_engine w0) as Hframe.
  { intros e w0. unfold record_connect_error. destruct (wo_poisoned w0); [done|]. destruct (wo_engine w0) eqn:E; [|done]. cbn. by rewrite E. }
  assert (engine_inv (initialized w)) as Hinit by apply (step_inv connect_text wave w (OpInitialize (Ok tt)) Hw).
  rewrite native_connect_spec in Hcall.
  destruct (refusal host port fingerprint_text built w) as [e|] eqn:Href.
  2: { unfold refusal in Href. repeat case_match; congruence. }
  exists e. split; [done|]. unfold refusal in Href.
  destruct (wo_poisoned w) eqn:Hp.
  { assert (w' = w) as ->; [|by split_and!; try done; left].
    unfold record_connect_error in Hcall. rewrite Hp in Hcall. destruct (negb _); injection Href as <-; by injection Hcall. }
  destruct (initialized_engine w Hp) as (Hp' & e0 & He0 & Hcase).
  assert (w' = record_connect_error connect_text e w \/
          w' = record_connect_error connect_text e (initialized w)) as [-> | ->].
  { destruct e; injection Hcall as <-; try (by left); try (by right). repeat case_match; congruence. }
  - destruct (Hframe e w) as (-> & -> & -> & -> & He). split_and!; [done..|by left|].
    intros _ Hs. apply Hrecord; [done..|]. by rewrite <- He.
  - destruct (Hframe e (initialized w)) as (H1 & H2 & H3 & H4 & H5). rewrite H1, H2, H3, H4, H5.
    split_and!; [..|intros _ _; apply Hrecord; [done..|by exists e0]];
      destruct Hcase as [[He ->]|(Hn & -> & ->)]; try done; [by left|by right].
Qed.

(** C15. A phone that scanned the pairing code connects to the server. For an
    IPv4 address, port and fingerprint as the code gives them, [nativeConnect]
    succeeds: the new session is for exactly this address and certificate; its
    ring is new and active; every other task is aborted; and the state reads
    "connecting", with the counters at zero, no error, and nothing left of the
    old session. *)
Theorem paired_phone_connects (host : Ipv4Addr) (port : Z) (fingerprint : bytes) (w : World T)
  (Hw : engine_inv w) (Hp : wo_poisoned w = false) (Hhost : valid_address host) (Hport : 1 <= port <= 65535)
  (Hfp : Forall is_byte fingerprint) (Hlen : length fingerprint = 32%nat) :
  exists w' i e,
    native_connect connect_text wave (format_ipv4 host) port (format_fingerprint fingerprint) (Ok tt) [] [] w = (w', true) /\
    i = length (wo_tasks w) /\ wo_engine w' = Some e /\ en_session e = Some (mkSession i i) /\
    wo_tasks w' !! i = Some (mkTask (runner_new (SocketV4 host port) fingerprint) i (en_state e) false false) /\
    (forall j t, wo_tasks w' !! j = Some t -> j <> i -> tk_aborted t = true) /\
    wo_active_ring w' = Some i /\ wo_rings w' !! i = Some (ring_new PCM_RING_CAPACITY_SAMPLES) /\
    wo_active_state w' = Some (en_state e) /\
    exists s, wo_states w' !! en_state e = Some s /\ state s = Connecting /\ sh_received_packets s = 0 /\
      sh_lost_packets s = 0 /\ sh_late_packets s = 0 /\ sh_last_error s = [] /\ sh_volume_adjustment s = 0 /\
      sh_device s = device_default /\ sh_audio_active s = false.
Proof.
  assert (parse_socket_addr (format_ipv4 host ++ [58] ++ decimal port) = Some (SocketV4 host port)) as Haddr.
  { destruct Hhost. apply parse_format_v4; [done..|lia]. }
  pose proof (parse_format fingerprint Hfp Hlen) as Hparse.
  assert (engine_inv (initialized w)) as Hi by apply (step_inv connect_text wave w (OpInitialize (Ok tt)) Hw).
  destruct (initialized_engine w Hp) as (Hp' & e0 & He0 & Hcase).
  assert (length (wo_tasks (initialized w)) = length (wo_tasks w)) as Htasks by (destruct Hcase as [[_ ->]|(_ & _ & ->)]; done).
  pose proof (ki_rings _ Hi) as Hrings. cbn in Hrings. rewrite length_fmap in Hrings.
  destruct (drop_sessions_fields e0 (initialized w)) as (F1 & F2 & F3).
  pose proof (all_aborted (initialized w) e0 Hi He0) as Habort.
  destruct (ki_engine _ Hi e0 He0) as [Hstate _]. cbn in Hstate. rewrite <- F1 in Hstate.
  apply lookup_lt_is_Some in Hstate as [s Hs].
  exists (start_session (SocketV4 host port) fingerprint (initialized w)).1, (length (wo_tasks w)),
    (mkEngine (en_state e0) (Some (mkSession (length (wo_tasks w)) (length (wo_tasks w))))).
  assert (refusal (format_ipv4 host) port (format_fingerprint fingerprint) (Ok tt) w = None) as Href.
  { unfold refusal. replace ((1 <=? port) && (port <=? 65535)) with true by lia. cbn [negb].
    rewrite Hp, Haddr, Hparse. by destruct (wo_engine w). }
  split; [by rewrite native_connect_spec, Href, Haddr, Hparse|].
  unfold start_session. rewrite Hp', He0. cbn. rewrite F2, F3, Hrings, Htasks.
  split_and!; try done.
  - rewrite lookup_app_r by lia. rewrite F3, Htasks, Nat.sub_diag. done.
  - intros j t Hj Hne. rewrite lookup_app_l in Hj; [by apply (Forall_lookup_1 _ _ _ _ Habort Hj)|].
    apply lookup_lt_Some in Hj. rewrite length_app in Hj. cbn in Hj. lia.
  - rewrite lookup_app_r by lia. rewrite F2, Hrings, Htasks, Nat.sub_diag. done.
  - rewrite list_lookup_alter_eq, Hs. cbn. eexists. split; [done|]. unfold begin_connecting, state.
    rewrite set_state_value, set_audio_off by done. unfold ClientState.set. cbn. unfold set_audio_active. by repeat case_match.
Qed.

(** What Kotlin measured is what the server is told. While the state reads
    "connected", a report packed as [DeviceVolumeControl.kt] packs it, for
    volumes that fit 16 bits, arrives unchanged in the queue of reports (the
    texts cut to 80 characters); in every other state a report changes
    nothing. *)
Theorem device_report_round_trip (request_id : Z) (device_id name : rstring) (volume minimum maximum : Z)
  (fixed speaker failed : bool) (w : World T) (i : nat) (s : SharedState)
  (Hrequest : request_id ∈u 32) (Hvolume : volume ∈u 16) (Hminimum : minimum ∈u 16) (Hmaximum : maximum ∈u 16)
  (Hactive : wo_active_state w = Some i) (Hs : wo_states w !! i = Some s) :
  let w' := report_device request_id device_id name (packed_values volume minimum maximum fixed speaker failed) w in
  let status := mkDeviceStatus request_id (take 80 device_id) (take 80 name) volume minimum maximum fixed speaker failed in
  (state s = Connected -> wo_states w' !! i = Some (put_device (report (sh_device s) status) s) /\
     last (dc_reports (report (sh_device s) status)) = Some (DeviceStatusMsg status)) /\
  (state s <> Connected -> w' = w).
Proof.
  intros w' status. unfold w', report_device, active_shared. rewrite Hactive. cbn. rewrite Hs.
  rewrite unpack_packed_values by done. fold status. split; intros Hst.
  - rewrite bool_decide_eq_true_2 by done. unfold on_active. rewrite Hactive. cbn.
    rewrite list_lookup_alter_eq, Hs. split; [done|]. unfold report, push_report. cbn. apply last_snoc.
  - by rewrite bool_decide_eq_false_2.
Qed.
End calls.

#[local] Existing Instance phone_runner.
Notation phone_connect := (native_connect connect_error_text silent_wave).
Definition connected_phone : World (SessionTask PipeEnd) := engine_run connect_error_text silent_wave world_new reconnect_ops.

(** A refused connection hides the session that is running. [record_connect_error]
    marks the state of the engine as failed, which is the state of the session
    too: the task stays in its loop and is not aborted, but the state reads
    "failed", Kotlin stops the playback, and reports of the device are
    dropped. *)
Theorem refused_connect_hides_running_session :
  let w := (phone_connect [104] 0 [] (Ok tt) [] [] connected_phone).1 in
  native_state connected_phone = Connected /\ native_state w = ClientFailed /\
  (exists t c, wo_tasks w !! 0%nat = Some t /\ tk_aborted t = false /\ se_phase (tk_future t) = PhLoop c) /\
  report_device 7 [49] [65] 5 w = w.
Proof.
  split; [vm_compute; reflexivity|]. split; [vm_compute; reflexivity|]. split; [|vm_compute; reflexivity].
  vm_compute. eexists _, _. split_and!; reflexivity.
Qed.

(** ** Witnesses *)

Lemma connected_phone_inv : engine_inv connected_phone.
Proof. apply reachable_inv. Qed.

Lemma refused_connect_witness :
  exists w', phone_connect [104] 0 [] (Ok tt) [] [] connected_phone = (w', false) /\
    wo_tasks w' = wo_tasks connected_phone /\ native_state w' = ClientFailed /\ last_error w' = [112].
Proof.
  destruct (phone_connect [104] 0 [] (Ok tt) [] [] connected_phone) as [w' b] eqn:H. exists w'.
  assert (b = false) as -> by (change b with ((w', b).2); rewrite <- H; vm_compute; reflexivity).
  split; [reflexivity|].
  destruct (refused_connect connect_error_text silent_wave [104] 0 [] (Ok tt) connected_phone w' connected_phone_inv H)
    as (e & He & Ht & _ & _ & _ & [Hen|[Hen _]] & Hst); [|vm_compute in Hen; discriminate Hen].
  destruct Hst as [H1 H2]; [reflexivity|rewrite Hen; vm_compute; by eexists|].
  split; [exact Ht|]. split; [exact H1|]. rewrite H2. vm_compute in He. by injection He as <-.
Defined.

Lemma paired_phone_connects_witness :
  exists w' i e, phone_connect (format_ipv4 [192; 168; 1; 42]) 48400 (format_fingerprint (replicate 32 171)) (Ok tt) [] []
      connected_phone = (w', true) /\
    i = 1%nat /\ wo_engine w' = Some e /\ en_session e = Some (mkSession i i) /\
    (tk_future <$> wo_tasks w' !! i) = Some (session_task_new (SocketV4 [192; 168; 1; 42] 48400) (replicate 32 171)).
Proof.
  destruct (paired_phone_connects connect_error_text silent_wave [192; 168; 1; 42] 48400 (replicate 32 171) connected_phone
    connected_phone_inv) as (w' & i & e & H1 & H2 & H3 & H4 & H5 & _).
  - reflexivity.
  - apply (bool_decide_eq_true_1 _). vm_compute. reflexivity.
  - lia.
  - apply Forall_replicate. split; [discriminate|reflexivity].
  - reflexivity.
  - exists w', i, e. split; [exact H1|]. split; [rewrite H2; vm_compute; reflexivity|]. split; [exact H3|].
    split; [exact H4|]. by rewrite H5.
Defined.

Definition phone_state : SharedState := default shared_default (wo_states connected_phone !! 0%nat).

Lemma device_report_round_trip_witness :
  state phone_state = Connected /\
  wo_states (report_device 7 [49] [65] (packed_values 5 0 15 false true false) connected_phone) !! 0%nat =
    Some (put_device (report (sh_device phone_state) (mkDeviceStatus 7 [49] [65] 5 0 15 false true false)) phone_state).
Proof.
  assert (state phone_state = Connected) as Hst by (vm_compute; reflexivity). split; [exact Hst|].
  assert (wo_states connected_phone !! 0%nat = Some phone_state) as Hs by (vm_compute; reflexivity).
  apply (device_report_round_trip 7 [49] [65] 5 0 15 false true false connected_phone 0 phone_state).
  1-4: unfold in_uint; lia.
  - vm_compute. reflexivity.
  - exact Hs.
  - exact Hst.
Defined.
