(* ===== verification/RemoteVolume.v ===== *)
(** * RemoteVolume: a volume request, from the server and back

    [DeviceVolumeControl.kt], the part of the phone that sets the system's
    volume, and the way of a request through both programs: [Registry] and
    [Server] send it, [Client] and [DeviceControl] queue it, Kotlin carries it out
    and reports, [Client] sends the report and [Registry] keeps it as the reply. *)

From stdpp Require Import base list.
From Stdlib Require Import ZArith Lia.
From S2P Require Import Prelude BTree Wire Text Transport Registry Jitter Ring DeviceControl ClientState Receiver Server Client Engine EngineCalls.
Open Scope Z_scope.

(** ** Kotlin *)

(** [AudioManager]; [None], or [false] for a setter, is a [RuntimeException]. *)
Class AudioManager (A : Type) : Type := {
  am_volume : A -> option Z;
  am_minimum : A -> option Z;
  am_maximum : A -> option Z;
  am_fixed : A -> option bool;
  am_outputs : A -> option (list Z);
  am_set_volume : A -> Z -> A * bool;
}.

(** The types of [AudioDeviceInfo] that count as the phone's own speaker. *)
Definition TYPE_BUILTIN_EARPIECE : Z := 1.
Definition TYPE_BUILTIN_SPEAKER : Z := 2.
Definition TYPE_TELEPHONY : Z := 18.
Definition TYPE_BUILTIN_SPEAKER_SAFE : Z := 24.

(** [CalibrationOutputPolicy.isSpeakerOnly], and [speakerOnly] on the outputs of
    the system. *)
Definition is_speaker_only (types : list Z) : bool :=
  existsb (fun t => (t =? TYPE_BUILTIN_SPEAKER) || (t =? TYPE_BUILTIN_SPEAKER_SAFE)) types &&
  forallb (fun t => (t =? TYPE_BUILTIN_SPEAKER) || (t =? TYPE_BUILTIN_SPEAKER_SAFE) || (t =? TYPE_BUILTIN_EARPIECE) ||
                    (t =? TYPE_TELEPHONY)) types.

Definition am_speaker_only {A} `{!AudioManager A} (m : A) : option bool := is_speaker_only <$> am_outputs m.

(** The volume lies between its limits, which are small. *)
Class AudioManagerLaws (A : Type) `{!AudioManager A} : Prop := {
  am_range m v a b : am_volume m = Some v -> am_minimum m = Some a -> am_maximum m = Some b -> 0 <= a <= v /\ v <= b <= 512;
}.

Section kotlin.
Context {A : Type} `{HA : !AudioManager A}.
(** the identifier and the name of the phone *)
Variables (device_id name : rstring).

(** The fields of [DeviceVolumeControl] and the native state behind it. *)
Record Phone : Type := mkPhone {
  ph_manager : A;
  ph_original : option Z;
  ph_deadline : Z;
  ph_reported : Z;
  ph_shared : SharedState;
}.

Definition with_manager (m : A) (p : Phone) : Phone :=
  mkPhone m (ph_original p) (ph_deadline p) (ph_reported p) (ph_shared p).
Definition with_original (v : option Z) (p : Phone) : Phone :=
  mkPhone (ph_manager p) v (ph_deadline p) (ph_reported p) (ph_shared p).
Definition with_deadline (t : Z) (p : Phone) : Phone :=
  mkPhone (ph_manager p) (ph_original p) t (ph_reported p) (ph_shared p).
Definition with_reported (v : Z) (p : Phone) : Phone :=
  mkPhone (ph_manager p) (ph_original p) (ph_deadline p) v (ph_shared p).
Definition with_native (s : SharedState) (p : Phone) : Phone :=
  mkPhone (ph_manager p) (ph_original p) (ph_deadline p) (ph_reported p) s.

(** A computation that may throw; what was changed before stays changed. *)
Definition Kt (B : Type) : Type := Phone -> Phone * option B.
#[export] Instance kt_ret : MRet Kt := fun B b p => (p, Some b).
#[export] Instance kt_bind : MBind Kt := fun B B' f m p =>
  match m p with (p, Some b) => f b p | (p, None) => (p, None) end.

Definition get {B} (f : A -> option B) : Kt B := fun p => (p, f (ph_manager p)).
Definition change (f : Phone -> Phone) : Kt unit := fun p => (f p, Some tt).
Definition throw {B} : Kt B := fun p => (p, None).
Definition set_stream_volume (index : Z) : Kt unit := fun p =>
  let '(m, set) := am_set_volume (ph_manager p) index in (with_manager m p, if set then Some tt else None).

(** The native calls on the active state: [nativeStopTestTone] and
    [nativeReportDevice]. *)
Definition native_stop_tone (s : SharedState) : SharedState := notify_changed (put_device (stop_tone (sh_device s)) s).
Definition native_report (request_id values : Z) (s : SharedState) : SharedState :=
  if bool_decide (state s = Connected)
  then put_device (report (sh_device s) (unpack_status request_id device_id name values)) s else s.
Definition report_native (request_id values : Z) (p : Phone) : Phone :=
  with_native (native_report request_id values (ph_shared p)) p.

Definition cancel_calibration (p : Phone) : Phone * bool :=
  let p := with_native (native_stop_tone (ph_shared p)) p in
  match ph_original p with
  | None => (p, true)
  | Some original =>
      let '(p, r) :=
        (speaker ← get am_speaker_only;
         if negb speaker then mret false
         else _ ← set_stream_volume original; volume ← get am_volume; mret (volume =? original)) (with_original None p) in
      (p, default false r)
  end.

(** [minimum], [coerceIn]. *)
Definition coerce_in (value minimum maximum : Z) : Kt Z :=
  if maximum <? minimum then throw else mret (Z.max minimum (Z.min value maximum)).

Definition report_volume (request_id : Z) (failed observe : bool) (command_volume : option Z) (p : Phone) : Phone :=
  let '(p, r) :=
    (volume ← match command_volume with Some v => mret v | None => get am_volume end;
     minimum ← get am_minimum;
     maximum ← get am_maximum;
     fixed ← get am_fixed;
     speaker ← get am_speaker_only;
     let values := packed_values volume minimum maximum fixed speaker failed in
     change (fun p =>
       let p := if observe && negb failed && negb (request_id =? 0) && (0 <=? ph_reported p) && negb (volume =? ph_reported p)
                then report_native 0 values p else p in
       let p := if negb failed || bool_decide (is_Some command_volume) then with_reported volume p else p in
       report_native request_id values p)) p in
  match r with
  | Some _ => p
  | None => report_native request_id (Z.lor (Z.shiftl 1 48) (Z.shiftl 1 50)) p
  end.

(** The condition of the branch for the operations 2, 6 and 7. *)
Definition refuses (operation : Z) (original : option Z) : Kt bool :=
  fixed ← get am_fixed;
  if fixed : bool then mret true
  else
    other ← (if negb (operation =? 2) then speaker ← get am_speaker_only; mret (negb speaker) else mret false);
    if other : bool then mret true
    else if (operation =? 6) && bool_decide (original = None) then mret true
    else if bool_decide (original = None) then mret false
    else speaker ← get am_speaker_only; mret (negb speaker).

(** The [when] of [applyPending]: whether the command failed, and the volume it
    found. *)
Definition operate (elapsed operation value : Z) (failed : bool) : Kt (bool * option Z) := fun p =>
  let original := ph_original p in
  match operation with
  | 1 => (if bool_decide (original = None) then p else with_deadline (elapsed + 6000) p, Some (failed, None))
  | 2 | 6 | 7 =>
      (refused ← refuses operation original;
       if refused : bool then mret (true, None)
       else
         minimum ← get am_minimum;
         maximum ← get am_maximum;
         index ← coerce_in value minimum maximum;
         _ ← set_stream_volume index;
         actual ← get am_volume;
         mret (negb (actual =? index), Some actual)) p
  | 3 =>
      (fixed ← get am_fixed;
       refused ← (if fixed : bool then mret true else speaker ← get am_speaker_only; mret (negb speaker));
       if refused : bool then mret (true, None)
       else
         _ ← match original with
             | Some _ => mret tt
             | None => volume ← get am_volume; change (with_original (Some volume))
             end;
         _ ← change (with_deadline (elapsed + 6000));
         mret (failed, None)) p
  | 4 => let '(p, restored) := cancel_calibration p in (p, Some (negb restored, None))
  | 5 =>
      (if bool_decide (original = None) then mret (true, None)
       else
         speaker ← get am_speaker_only;
         if negb speaker then mret (true, None)
         else
           volume ← get am_volume;
           if negb (volume =? value) then mret (true, None)
           else _ ← change (with_original None); mret (failed, None)) p
  | 8 => (p, Some (true, None))
  | _ => (p, Some (failed, None))
  end.

(** One round of [applyPending] after a command was taken; the clock is read
    before and in the [when]. *)
Definition apply_command (elapsed elapsed' command : Z) (p : Phone) : Phone :=
  let '(request_id, operation, value) := unpack command in
  let expired := bool_decide (is_Some (ph_original p)) && (ph_deadline p <=? elapsed) in
  let '(p, failed) := if expired then let '(p, restored) := cancel_calibration p in (p, negb restored) else (p, false) in
  let '(p, r) := operate elapsed' operation value failed p in
  let '(failed, command_volume) := default (true, None) r in
  report_volume request_id failed ((operation =? 1) && negb expired) command_volume p.

(** [applyPending]; one entry of clock readings for each call of
    [nativeTakeDeviceCommand]. *)
Fixpoint apply_pending (clocks : list (Z * Z * Z)) (p : Phone) : Phone :=
  match clocks with
  | [] => p
  | (now, elapsed, elapsed') :: clocks' =>
      let '(device, command) := take_command_at (sh_device (ph_shared p)) now in
      let command := jlong_or_zero command in
      let p := with_native (put_device device (ph_shared p)) p in
      if command =? 0 then p else apply_pending clocks' (apply_command elapsed elapsed' command p)
  end.
End kotlin.
Arguments Phone : clear implicits.

(** ** What Kotlin reports *)

Definition is_tone_state (m : ControlMessage) : Prop := match m with ToneState _ _ _ => True | _ => False end.

(** [d'] has the commands of [d], and [ms] behind its reports if they fit. *)
Definition said (d d' : DeviceControl) (ms : list ControlMessage) : Prop :=
  dc_commands d' = dc_commands d /\
  (Z.of_nat (length (dc_reports d) + length ms) <= REPORT_LIMIT -> dc_reports d' = dc_reports d ++ ms).

Lemma said_same d d' : dc_commands d' = dc_commands d -> dc_reports d' = dc_reports d -> said d d' [].
Proof. intros H1 H2. split; [done|]. by rewrite app_nil_r. Qed.

Lemma said_trans d1 d2 d3 l1 l2 : said d1 d2 l1 -> said d2 d3 l2 -> said d1 d3 (l1 ++ l2).
Proof.
  intros [H1 H2] [H3 H4]. split; [congruence|]. rewrite length_app. intros Hl.
  rewrite H4; rewrite H2 by lia; [by rewrite app_assoc|]. rewrite length_app. lia.
Qed.

Lemma said_push d m : said d (push_report d m) [m].
Proof.
  split; [done|]. unfold push_report. simpl. intros Hl. destruct (Z.leb_spec REPORT_LIMIT (Z.of_nat (length (dc_reports d)))); [lia|done].
Qed.

Lemma stop_tone_said d : exists tones, Forall is_tone_state tones /\ (length tones <= 1)%nat /\ said d (stop_tone d) tones.
Proof.
  unfold stop_tone, push_tone_report. set (d1 := with_tone _ d).
  destruct (_ && _).
  - exists [ToneState (token_request (tn_token (dc_tone d))) false true]. split; [by repeat constructor|]. split; [done|].
    apply (said_push d1).
  - exists []. split; [constructor|]. split; [simpl; lia|]. by apply said_same.
Qed.

Lemma report_said d status :
  exists tones, Forall is_tone_state tones /\ (length tones <= 1)%nat /\ said d (report d status) (tones ++ [DeviceStatusMsg status]).
Proof.
  unfold report. set (d1 := with_speaker _ d). assert (said d d1 []) as H1 by (by apply said_same).
  destruct (_ || _).
  - destruct (stop_tone_said d1) as (tones & Ht & Hl & Hs). exists tones. split_and!; [done..|].
    eapply (said_trans d d1 _ []); [done|]. eapply said_trans; [exact Hs|apply said_push].
  - exists []. split; [constructor|]. split; [simpl; lia|]. eapply (said_trans d d1 _ []); [done|apply said_push].
Qed.

Section reports.
Context {A : Type} `{HA : !AudioManager A, HL : !AudioManagerLaws A}.
Variables (device_id name : rstring).
Implicit Types (p : Phone A).

Abbreviation device p := (sh_device (ph_shared p)).

(** A step of Kotlin that says [ms] and leaves the connection state. *)
Definition speaks p p' (ms : list ControlMessage) : Prop :=
  state (ph_shared p') = state (ph_shared p) /\ said (device p) (device p') ms.

Lemma speaks_refl p p' : ph_shared p' = ph_shared p -> speaks p p' [].
Proof. intros H. unfold speaks. rewrite H. split; [done|]. by apply said_same. Qed.

Lemma speaks_trans p1 p2 p3 l1 l2 : speaks p1 p2 l1 -> speaks p2 p3 l2 -> speaks p1 p3 (l1 ++ l2).
Proof. intros [H1 H2] [H3 H4]. split; [congruence|]. by eapply said_trans. Qed.

Lemma cancel_speaks p p' ok :
  cancel_calibration p = (p', ok) -> exists tones, Forall is_tone_state tones /\ (length tones <= 1)%nat /\ speaks p p' tones.
Proof.
  intros Hc. destruct (stop_tone_said (device p)) as (tones & Ht & Hl & Hs). exists tones. split_and!; [done..|].
  assert (forall q, ph_shared q = native_stop_tone (ph_shared p) -> speaks p q tones) as Hq by (intros q Hq; unfold speaks; by rewrite Hq).
  unfold cancel_calibration in Hc. cbn [ph_original with_native] in Hc.
  destruct (ph_original p) as [v|]; [|injection Hc as <- _; by apply Hq].
  unfold mbind, kt_bind, get, set_stream_volume, mret, kt_ret in Hc. cbn in Hc.
  destruct (am_speaker_only (ph_manager p)) as [[|]|]; cbn in Hc; [|injection Hc as <- _; by apply Hq..].
  destruct (am_set_volume (ph_manager p) v) as [m [|]]; cbn in Hc; [|injection Hc as <- _; by apply Hq].
  destruct (am_volume m); injection Hc as <- _; by apply Hq.
Qed.

(** The status in a report. *)
Definition status_of (request_id volume minimum maximum : Z) (fixed speaker failed : bool) : DeviceStatus :=
  mkDeviceStatus request_id (take 80 device_id) (take 80 name) volume minimum maximum fixed speaker failed.

Lemma report_native_speaks p request_id values :
  state (ph_shared p) = Connected ->
  exists tones, Forall is_tone_state tones /\ (length tones <= 1)%nat /\
    speaks p (report_native device_id name request_id values p)
      (tones ++ [DeviceStatusMsg (unpack_status request_id device_id name values)]).
Proof.
  intros Hst. unfold report_native, native_report. rewrite bool_decide_eq_true_2 by done.
  destruct (report_said (device p) (unpack_status request_id device_id name values)) as (tones & Ht & Hl & Hs).
  exists tones. split_and!; try done.
Qed.

Lemma exceptional_values request_id :
  request_id ∈u 32 -> unpack_status request_id device_id name (Z.lor (Z.shiftl 1 48) (Z.shiftl 1 50)) =
    status_of request_id 0 0 0 true false true.
Proof.
  intros Hr. change (Z.lor (Z.shiftl 1 48) (Z.shiftl 1 50)) with (packed_values 0 0 0 true false true).
  apply unpack_packed_values; [done|..]; by unfold in_uint.
Qed.

(** A report without the look for outside changes: exactly one status, and a
    valid one. *)
Lemma report_volume_speaks p request_id failed command_volume :
  state (ph_shared p) = Connected -> request_id ∈u 32 ->
  (command_volume = None \/ am_volume (ph_manager p) = command_volume) ->
  let p' := report_volume device_id name request_id failed false command_volume p in
  ph_manager p' = ph_manager p /\
  exists tones st, Forall is_tone_state tones /\ (length tones <= 1)%nat /\ speaks p p' (tones ++ [DeviceStatusMsg st]) /\
    ds_request_id st = request_id /\ status_valid st = true /\ (failed = true -> ds_failed st = true) /\
    (forall v a b f sp, am_volume (ph_manager p) = Some v -> am_minimum (ph_manager p) = Some a ->
       am_maximum (ph_manager p) = Some b -> am_fixed (ph_manager p) = Some f -> am_speaker_only (ph_manager p) = Some sp ->
       st = status_of request_id v a b f sp failed).
Proof.
  intros Hst Hid Hcv p'.
  assert (exists q values st, p' = report_native device_id name request_id values q /\ ph_manager q = ph_manager p /\
      ph_shared q = ph_shared p /\ unpack_status request_id device_id name values = st /\
      ds_request_id st = request_id /\ status_valid st = true /\ (failed = true -> ds_failed st = true) /\
      (forall v a b f sp, am_volume (ph_manager p) = Some v -> am_minimum (ph_manager p) = Some a ->
       am_maximum (ph_manager p) = Some b -> am_fixed (ph_manager p) = Some f -> am_speaker_only (ph_manager p) = Some sp ->
       st = status_of request_id v a b f sp failed)) as (q & values & st & -> & Hm & Hs & Hu & H1 & H2 & H3 & H4).
  { unfold p', report_volume.
    assert ((match command_volume with Some v => mret v | None => get am_volume end : Kt (A := A) Z) p = (p, am_volume (ph_manager p))) as Hget.
    { destruct Hcv as [->|Hcv]; [done|]. rewrite Hcv. destruct command_volume; [done|]. unfold get. by rewrite Hcv. }
    unfold mbind, kt_bind. rewrite Hget. unfold get, change.
    assert (forall q, ph_manager q = ph_manager p -> ph_shared q = ph_shared p -> (am_volume (ph_manager p) = None \/ am_minimum (ph_manager p) = None \/
       am_maximum (ph_manager p) = None \/ am_fixed (ph_manager p) = None \/ am_speaker_only (ph_manager p) = None) ->
       exists q' values st, report_native device_id name request_id (Z.lor (Z.shiftl 1 48) (Z.shiftl 1 50)) q =
         report_native device_id name request_id values q' /\ ph_manager q' = ph_manager p /\
      ph_shared q' = ph_shared p /\ unpack_status request_id device_id name values = st /\
      ds_request_id st = request_id /\ status_valid st = true /\ (failed = true -> ds_failed st = true) /\
      (forall v a b f sp, am_volume (ph_manager p) = Some v -> am_minimum (ph_manager p) = Some a ->
       am_maximum (ph_manager p) = Some b -> am_fixed (ph_manager p) = Some f -> am_speaker_only (ph_manager p) = Some sp ->
       st = status_of request_id v a b f sp failed)) as Hthrow.
    { intros q Hq1 Hq2 Hnone. exists q, (Z.lor (Z.shiftl 1 48) (Z.shiftl 1 50)), (status_of request_id 0 0 0 true false true).
      split_and!; [done|done|done|by apply exceptional_values|done..|]. intros. naive_solver. }
    destruct (am_volume (ph_manager p)) as [v|] eqn:Ev; [|apply Hthrow; tauto].
    destruct (am_minimum (ph_manager p)) as [a|] eqn:Ea; [|apply Hthrow; tauto].
    destruct (am_maximum (ph_manager p)) as [b|] eqn:Eb; [|apply Hthrow; tauto].
    destruct (am_fixed (ph_manager p)) as [f|] eqn:Ef; [|apply Hthrow; tauto].
    destruct (am_speaker_only (ph_manager p)) as [sp|] eqn:Es; [|apply Hthrow; tauto].
    destruct (am_range _ _ _ _ Ev Ea Eb) as [Hr1 Hr2]. cbn [andb].
    eexists _, _, _. split; [reflexivity|]. split; [by repeat case_match|]. split; [by repeat case_match|]. split; [reflexivity|].
    rewrite unpack_packed_values by (unfold in_uint; lia || done). split_and!; [done|unfold status_valid; cbn; lia|done|].
    intros v' a' b' f' sp' ? ? ? ? ?. by simplify_eq. }
  split; [exact Hm|]. destruct (report_native_speaks q request_id values) as (tones & Ht & Hl & Hsp); [by rewrite Hs|].
  rewrite Hu in Hsp. exists tones, st. split_and!; try done. destruct Hsp as [Hsp1 Hsp2]. unfold speaks. by rewrite <- Hs.
Qed.

Definition sets_volume (operation : Z) : Prop := operation = 2 \/ operation = 6 \/ operation = 7.

Lemma operate_volume p p' elapsed operation value failed r :
  sets_volume operation -> operate elapsed operation value failed p = (p', r) ->
  ph_shared p' = ph_shared p /\
  ((default (true, None) r).2 = None \/ am_volume (ph_manager p') = (default (true, None) r).2).
Proof.
  intros Hop Ho. assert (operate elapsed operation value failed p =
    (refused ← refuses operation (ph_original p);
       if refused : bool then mret (true, None)
       else
         minimum ← get am_minimum;
         maximum ← get am_maximum;
         index ← coerce_in value minimum maximum;
         _ ← set_stream_volume index;
         actual ← get am_volume;
         mret (negb (actual =? index), Some actual)) p) as E by (by destruct Hop as [->|[->| ->]]).
  rewrite E in Ho. clear E.
  assert (forall q r, refuses operation (ph_original p) p = (q, r) -> q = p) as Hq.
  { unfold refuses, mbind, kt_bind, get, mret, kt_ret. intros q r0 Hr. by repeat (case_match; simplify_eq/=). }
  unfold coerce_in, throw, set_stream_volume, mbind, kt_bind, get, mret, kt_ret in Ho, Hq |- *.
  destruct (refuses operation (ph_original p) p) as [q [[|]|]] eqn:Er; specialize (Hq _ _ eq_refl); subst q;
    [injection Ho as <- <-; by auto| |injection Ho as <- <-; by auto].
  repeat (case_match; simplify_eq/=; try (by auto)).
Qed.

(** The system does what it is told: from [m], setting [target] leads to [m']. *)
Record obeys (m m' : A) (minimum maximum target : Z) : Prop := {
  ob_fixed : am_fixed m = Some false;
  ob_speaker : am_speaker_only m = Some true;
  ob_minimum : am_minimum m = Some minimum;
  ob_maximum : am_maximum m = Some maximum;
  ob_set : am_set_volume m target = (m', true);
  ob_volume : am_volume m' = Some target;
  ob_after : am_fixed m' = Some false /\ am_speaker_only m' = Some true /\ am_minimum m' = Some minimum /\ am_maximum m' = Some maximum;
}.

Definition clamp_to (minimum maximum value : Z) : Z := Z.max minimum (Z.min value maximum).

(** The calibration session allows the operation, and has not run out. *)
Definition session_allows p (elapsed operation : Z) : Prop :=
  (ph_original p = None /\ operation <> 6) \/ (is_Some (ph_original p) /\ elapsed < ph_deadline p).

Lemma operate_obeys p m' elapsed operation value minimum maximum :
  sets_volume operation -> (ph_original p = None -> operation <> 6) -> minimum <= maximum ->
  obeys (ph_manager p) m' minimum maximum (clamp_to minimum maximum value) ->
  operate elapsed operation value false p = (with_manager m' p, Some (false, Some (clamp_to minimum maximum value))).
Proof.
  intros Hop Hsession Hle [H1 H2 H3 H4 H5 H6 _].
  assert (refuses operation (ph_original p) p = (p, Some false)) as Hr.
  { unfold refuses, mbind, kt_bind, get, mret, kt_ret. rewrite H1. cbn.
    assert (forall q : Kt (A := A) bool, (if (operation =? 6) && bool_decide (ph_original p = None) then q
      else if bool_decide (ph_original p = None) then fun p0 => (p0, Some false)
      else fun p0 => match am_speaker_only (ph_manager p0) with Some b => (p0, Some (negb b)) | None => (p0, None) end) p
      = (p, Some false)) as Hlast.
    { intros q. case_bool_decide as Hn; [|rewrite andb_false_r, H2; done].
      replace (operation =? 6) with false by (symmetry; apply Z.eqb_neq; by apply Hsession). done. }
    destruct (negb (operation =? 2)); rewrite ?H2; cbn; apply Hlast. }
  assert (forall f : Kt (A := A) (bool * option Z), (refused ← refuses operation (ph_original p); if refused : bool then mret (true, None) else f) p = f p) as Hb.
  { intros f. unfold mbind, kt_bind. by rewrite Hr. }
  assert (operate elapsed operation value false p =
    (refused ← refuses operation (ph_original p);
       if refused : bool then mret (true, None)
       else
         minimum ← get am_minimum;
         maximum ← get am_maximum;
         index ← coerce_in value minimum maximum;
         _ ← set_stream_volume index;
         actual ← get am_volume;
         mret (negb (actual =? index), Some actual)) p) as -> by (by destruct Hop as [->|[->| ->]]).
  rewrite Hb. unfold mbind, kt_bind, get, coerce_in. rewrite H3, H4. cbn.
  destruct (Z.ltb_spec maximum minimum); [lia|]. cbn. unfold set_stream_volume. fold (clamp_to minimum maximum value).
  unfold mret, kt_ret. rewrite H5. cbn. rewrite H6. by rewrite Z.eqb_refl.
Qed.

(** What one command of the server comes to: exactly one status behind at most
    two tone states, with the command's request. *)
Lemma apply_command_answers p elapsed elapsed' request_id operation value :
  state (ph_shared p) = Connected -> request_id ∈u 32 -> value ∈u 16 -> sets_volume operation \/ operation = 8 ->
  let p' := apply_command device_id name elapsed elapsed' (packed request_id operation value) p in
  exists tones st, Forall is_tone_state tones /\ (length tones <= 2)%nat /\ speaks p p' (tones ++ [DeviceStatusMsg st]) /\
    ds_request_id st = request_id /\ status_valid st = true /\
    (operation = 8 -> ds_failed st = true /\ (ph_original p = None -> ph_manager p' = ph_manager p)) /\
    (forall m' minimum maximum, sets_volume operation -> session_allows p elapsed operation -> minimum <= maximum ->
       obeys (ph_manager p) m' minimum maximum (clamp_to minimum maximum value) ->
       ph_manager p' = m' /\ st = status_of request_id (clamp_to minimum maximum value) minimum maximum false true false).
Proof.
  intros Hst Hid Hvalue Hop p'.
  assert (operation ∈u 8) as Ho8 by (unfold sets_volume, in_uint in *; lia).
  assert ((operation =? 1) = false) as Ho1 by (unfold sets_volume in Hop; lia).
  unfold p', apply_command. rewrite unpack_packed by done. rewrite Ho1. cbn [andb].
  set (expired := bool_decide (is_Some (ph_original p)) && (ph_deadline p <=? elapsed)).
  destruct (if expired then let '(p, restored) := cancel_calibration p in (p, negb restored) else (p, false)) as [p1 failed] eqn:E1.
  assert (exists tones, Forall is_tone_state tones /\ (length tones <= 1)%nat /\ speaks p p1 tones) as (tones1 & Ht1 & Hl1 & Hs1).
  { destruct expired.
    - destruct (cancel_calibration p) as [q ok] eqn:Ec. injection E1 as <- _. by eapply cancel_speaks.
    - injection E1 as <- _. exists []. split_and!; [constructor|simpl; lia|by apply speaks_refl]. }
  destruct (operate elapsed' operation value failed p1) as [p2 r] eqn:E2.
  assert (ph_shared p2 = ph_shared p1 /\ ((default (true, None) r).2 = None \/ am_volume (ph_manager p2) = (default (true, None) r).2))
    as [Hs2 Hcv].
  { destruct Hop as [Hop| ->]; [by eapply operate_volume|]. injection E2 as <- <-. by auto. }
  destruct (default (true, None) r) as [failed' command_volume] eqn:Er. cbn in Hcv.
  destruct (report_volume_speaks p2 request_id failed' command_volume) as (Hm & tones2 & st & Ht2 & Hl2 & Hs3 & Hrid & Hv & Hf & Hfull);
    [rewrite Hs2; destruct Hs1; congruence|done|done|].
  exists (tones1 ++ tones2), st. split; [by apply Forall_app|]. split; [rewrite length_app; lia|]. split.
  { rewrite <- app_assoc. eapply speaks_trans; [exact Hs1|]. eapply (speaks_trans _ p2 _ []); [by apply speaks_refl|exact Hs3]. }
  split_and!; [done|done| |].
  - intros ->. injection E2 as <- <-. injection Er as <- <-. split; [by apply Hf|]. intros Hnone. rewrite Hm.
    unfold expired in E1. rewrite Hnone in E1. by injection E1 as <- _.
  - intros m' minimum maximum Hset Hallow Hle Hobey.
    assert (expired = false) as Hexp.
    { unfold expired. destruct Hallow as [[-> _]|[_ Hd]]; [done|]. apply andb_false_intro2. lia. }
    rewrite Hexp in E1. injection E1 as <- <-.
    rewrite (operate_obeys _ m' _ _ _ minimum maximum) in E2; [|done| |done|done].
    2: { intros Hn. destruct Hallow as [[_ H]|[[] _]]; [done|congruence]. }
    injection E2 as <- <-. injection Er as <- <-. split; [done|].
    destruct Hobey as [_ _ _ _ _ H6 (H7 & H8 & H9 & H10)]. by apply Hfull.
Qed.
End reports.

(** ** Both programs *)

Section request.
Context {Sender : Type} `{MS : !Mpsc Sender ControlMessage}.
Context {W R : Type} `{!SendStream W, !SendStreamLaws W} `{!RecvStream R, !RecvStreamLaws R}.
Context {Hcodec : ControlCodec} {Hlaws : ControlCodecLaws}.
Context {A : Type} `{HA : !AudioManager A, HL : !AudioManagerLaws A}.
Variables (device_id name : rstring).

Definition operation_of (purpose : VolumePurpose) : Z :=
  match purpose with User => 2 | Calibration => 6 | RestoreSpeaker => 7 end.

Lemma operation_sets purpose : sets_volume (operation_of purpose).
Proof. unfold sets_volume. destruct purpose; auto. Qed.

Lemma volume_request_ok (s s1 : Registry Sender) id index purpose rid :
  reg_next_request s ∈u 32 -> volume_request s id index purpose = (s1, Ok rid) ->
  1 <= rid /\ rid ∈u 32 /\
  exists r q, get_receiver s id = Some r /\ try_send (r_controls r) (SetVolume rid index purpose) = Some q.
Proof.
  unfold volume_request, volume_request_with_barrier, fetch_request, in_uint. intros Hc Hr.
  match type of Hr with context [get_receiver ?s2 id] => change (get_receiver s2 id) with (get_receiver s id) in Hr end.
  destruct (get_receiver s id) as [r|]; [|done].
  destruct (try_send (r_controls r) _) as [q|] eqn:Hq; [|done]. injection Hr as _ <-. split_and!; [lia..|].
  by exists r, q.
Qed.

(** The command waits in the phone's queue. *)
Lemma set_volume_queued (c : @ClientLoop W) now rid index purpose :
  rid ∈u 32 -> index ∈u 16 -> dc_commands (sh_device (cl_shared c)) = [] ->
  let c' := (on_message c now (SetVolume rid index purpose)).1 in
  cl_writer c' = cl_writer c /\ state (cl_shared c') = state (cl_shared c) /\
  sh_device (cl_shared c') =
    with_commands [mkCommand (packed rid (operation_of purpose) index) (Some (now + 2000))] (sh_device (cl_shared c)).
Proof.
  intros Hrid Hindex Hidle. assert (operation_of purpose ∈u 8) as Ho by (by destruct purpose).
  cbn [on_message]. fold (operation_of purpose). unfold queue_operation, enqueue_operation. rewrite Hidle.
  change (COMMAND_LIMIT <=? Z.of_nat (@length PendingCommand [])) with false. cbv iota.
  rewrite command_packed by done. fold (packed rid (operation_of purpose) index).
  replace (operation_of purpose =? 4) with false by (by destruct purpose). done.
Qed.

(** Kotlin takes the one command that waits, or its refusal when it is late. *)
Lemma apply_pending_one (p : Phone A) taken taken' elapsed elapsed' e e' rid operation index expires :
  rid ∈u 32 -> operation ∈u 8 -> 1 <= operation -> index ∈u 16 ->
  dc_commands (sh_device (ph_shared p)) = [mkCommand (packed rid operation index) (Some expires)] ->
  let p1 := with_native (put_device (with_commands [] (sh_device (ph_shared p))) (ph_shared p)) p in
  let command := if expires <=? taken then packed rid 8 0 else packed rid operation index in
  dc_commands (sh_device (ph_shared (apply_command device_id name elapsed elapsed' command p1))) = [] ->
  let p' := apply_pending device_id name [(taken, elapsed, elapsed'); (taken', e, e')] p in
  ph_manager p' = ph_manager (apply_command device_id name elapsed elapsed' command p1) /\
  state (ph_shared p') = state (ph_shared (apply_command device_id name elapsed elapsed' command p1)) /\
  dc_reports (sh_device (ph_shared p')) = dc_reports (sh_device (ph_shared (apply_command device_id name elapsed elapsed' command p1))).
Proof.
  intros Hrid Ho Ho1 Hindex Hq p1 command Hempty p'.
  assert (forall o i, o ∈u 8 -> 1 <= o -> i ∈u 16 -> jlong_or_zero (packed rid o i) = packed rid o i /\ packed rid o i <> 0) as Hj.
  { unfold in_uint, jlong_or_zero, packed in *. intros o i Ho8 Ho0 Hi. split; [|lia].
    destruct (Z.ltb_spec (rid * 2 ^ 24 + o * 2 ^ 16 + i) (2 ^ 63)); lia. }
  assert (take_command_at (sh_device (ph_shared p)) taken = (with_commands [] (sh_device (ph_shared p)), command)) as Ht.
  { unfold take_command_at. rewrite Hq. cbn [cm_expires cm_value]. unfold command.
    by destruct (expires <=? taken); [rewrite command_expired|]. }
  assert (jlong_or_zero command = command /\ command <> 0) as [Hjc Hne].
  { unfold command. destruct (expires <=? taken); apply Hj; done || lia. }
  unfold p'. cbn [apply_pending]. rewrite Ht. fold p1. rewrite Hjc. apply Z.eqb_neq in Hne as ->.
  set (p2 := apply_command _ _ _ _ _ _) in *. unfold take_command_at. rewrite Hempty. done.
Qed.

(** All reports are written, in order. *)
Lemma send_reports_all (c c2 : @ClientLoop W) reports :
  dc_reports (sh_device (cl_shared c)) = reports -> send_reports (length reports) c = (c2, None) ->
  send_all (cl_writer c) reports = (cl_writer c2, Ok tt).
Proof.
  revert c. induction reports as [|m reports IH]; intros c Hr Hs; cbn [length send_reports send_all] in *; [by injection Hs as <-|].
  unfold take_report in Hs. rewrite Hr in Hs.
  change (cl_writer (with_shared (put_device (with_reports reports (sh_device (cl_shared c))) (cl_shared c)) c)) with (cl_writer c) in Hs.
  destruct (writer_send (cl_writer c) m) as [w [[]|e]]; [|done].
  match type of Hs with send_reports _ ?c1 = _ => exact (IH c1 eq_refl Hs) end.
Qed.

(** What the server's control loop does with the messages of the phone. *)
Definition heed (w : W) (id : Z) (s : Registry Sender) (m : ControlMessage) : Registry Sender :=
  (control_step w s id (CtlReceived (Ok m))).1.2.

Lemma heed_tones w id tones (s : Registry Sender) :
  Forall is_tone_state tones -> is_Some (get_receiver s id) -> is_Some (get_receiver (foldl (heed w id) s tones) id).
Proof.
  intros H. revert s. induction H as [|m tones Hm _ IH]; intros s Hs; [done|]. cbn [foldl]. apply IH.
  destruct m; try done. unfold heed. cbn. unfold update_tone. destruct (request_id =? 0); [done|].
  rewrite get_receiver_modify, Z.eqb_refl. by rewrite fmap_is_Some.
Qed.

Lemma heed_status w id (s : Registry Sender) st :
  is_Some (get_receiver s id) -> status_valid st = true -> ds_request_id st <> 0 ->
  (take_reply (heed w id s (DeviceStatusMsg st)) id (ds_request_id st)).2 = Some (sanitize st).
Proof.
  intros [r Hr] Hv Hne. unfold heed. cbn. unfold update_device. rewrite Hv, Hr. cbn [negb]. unfold take_reply.
  assert (forall s1, get_receiver s1 id = Some r -> get_receiver (modify s1 id (absorb (sanitize st))) id = Some (absorb (sanitize st) r)) as Hg.
  { intros s1 Hs1. by rewrite get_receiver_modify, Z.eqb_refl, Hs1. }
  unfold absorb in Hg. rewrite Hg by (by destruct (state_changed _ _)). unfold record_reply. cbn [ds_request_id sanitize].
  destruct (Z.eqb_spec (ds_request_id st) 0); [done|]. simpl. by rewrite bt_get_insert, Z.eqb_refl.
Qed.

(** The phone's side: the message comes in, Kotlin acts, one status goes out. *)
Lemma phone_answers (c : @ClientLoop W) (phone : Phone A) now taken elapsed elapsed' taken' e e' rid index purpose :
  1 <= rid -> rid ∈u 32 -> index ∈u 16 -> state (cl_shared c) = Connected ->
  dc_commands (sh_device (cl_shared c)) = [] -> dc_reports (sh_device (cl_shared c)) = [] ->
  let c1 := (on_message c now (SetVolume rid index purpose)).1 in
  let phone' := apply_pending device_id name [(taken, elapsed, elapsed'); (taken', e, e')] (with_native (cl_shared c1) phone) in
  cl_writer c1 = cl_writer c /\
  exists tones st, dc_reports (sh_device (ph_shared phone')) = tones ++ [DeviceStatusMsg st] /\
    Forall is_tone_state tones /\ ds_request_id st = rid /\ status_valid st = true /\
    (taken < now + 2000 -> session_allows phone elapsed (operation_of purpose) ->
     forall m' minimum maximum, minimum <= maximum ->
       obeys (ph_manager phone) m' minimum maximum (clamp_to minimum maximum index) ->
       am_volume (ph_manager phone') = Some (clamp_to minimum maximum index) /\
       ds_volume st = clamp_to minimum maximum index /\ ds_failed st = false) /\
    (now + 2000 <= taken -> ds_failed st = true /\ (ph_original phone = None -> ph_manager phone' = ph_manager phone)).
Proof.
  intros Hrid1 Hrid Hindex Hconnected Hcommands Hreports c1 phone'.
  destruct (set_volume_queued c now rid index purpose Hrid Hindex Hcommands) as (Hwr & Hst & Hdev). fold c1 in Hwr, Hst, Hdev.
  split; [done|]. set (phone1 := with_native (cl_shared c1) phone). set (op := operation_of purpose) in *.
  assert (op ∈u 8 /\ 1 <= op) as [Hop8 Hop1] by (unfold op; by destruct purpose).
  set (p1 := with_native (put_device (with_commands [] (sh_device (ph_shared phone1))) (ph_shared phone1)) phone1).
  set (operation := if now + 2000 <=? taken then 8 else op). set (value := if now + 2000 <=? taken then 0 else index).
  destruct (apply_command_answers device_id name p1 elapsed elapsed' rid operation value)
    as (tones & st & Htones & Hlen & (_ & Hc2 & Hr2) & Hid & Hvalid & Hlate & Hintime);
    [change (state (cl_shared c1) = Connected); congruence|done|unfold value; by case_match| |].
  { unfold operation. case_match; [by right|left; apply operation_sets]. }
  assert (dc_reports (sh_device (ph_shared p1)) = []) as Hr1 by (cbn; by rewrite Hdev).
  rewrite Hr1 in Hr2. cbn [app length Nat.add] in Hr2. rewrite length_app in Hr2. cbn [length] in Hr2.
  specialize (Hr2 ltac:(unfold REPORT_LIMIT; lia)).
  assert (packed rid operation value = if now + 2000 <=? taken then packed rid 8 0 else packed rid op index) as Hcmd
    by (unfold operation, value; by case_match). rewrite Hcmd in *.
  destruct (apply_pending_one phone1 taken taken' elapsed elapsed' e e' rid op index (now + 2000) Hrid Hop8 Hop1 Hindex)
    as (Hm & _ & Hr); [cbn; by rewrite Hdev|exact Hc2|].
  match type of Hm with _ = ?m => change (ph_manager phone' = m) in Hm end.
  match type of Hr with _ = ?l => change (dc_reports (sh_device (ph_shared phone')) = l) in Hr end. fold p1 in Hm, Hr. rewrite Hr2 in Hr.
  exists tones, st. split_and!; try done; intros Htime; unfold operation, value in Hlate, Hintime.
  - intros Hallow m' minimum maximum Hle Hobey. replace (now + 2000 <=? taken) with false in * by (symmetry; lia).
    destruct (Hintime m' minimum maximum (operation_sets purpose) Hallow Hle Hobey) as [Hm' ->].
    rewrite Hm, Hm'. split; [apply Hobey|done].
  - replace (now + 2000 <=? taken) with true in * by (symmetry; lia).
    destruct (Hlate eq_refl) as [Hf Hnone]. split; [done|]. intros Ho. rewrite Hm. by apply Hnone.
Qed.

(** C3. A volume the server asks for is set, and the answer tells what was set.
    The server hands a request to the queue of a connected phone, its control
    loop writes it, and no other command waits on the phone; Kotlin looks for
    commands at [taken], the phone's session writes the reports, and the server
    reads them into whatever the registry has become, the phone still being
    registered.  Then the phone read exactly this request, and the server finds
    under the request's number exactly one answer, this request's status.  If
    Kotlin looked less than two seconds after the message came, the phone's
    calibration session allows the request and the system does what it is told,
    then the volume is the requested one within the limits of the phone, and the
    answer says so.  If it looked later, the answer is a failure and the request
    changes no volume. *)
Theorem volume_request_comes_back (s s1 s2 : Registry Sender) (id index rid : Z) (purpose : VolumePurpose)
  (w w' : W) (r rs : R) (c c2 : @ClientLoop W) (phone : Phone A) (now taken elapsed elapsed' taken' e e' : Z)
  (Hcounter : reg_next_request s ∈u 32) (Hindex : index ∈u 16)
  (Hrequest : volume_request s id index purpose = (s1, Ok rid))
  (Hdown : control_step w s1 id (CtlOutbound (SetVolume rid index purpose)) = (w', s1, true))
  (Hwire : written w' = written w ++ pending r)
  (Hconnected : state (cl_shared c) = Connected)
  (Hidle : dc_commands (sh_device (cl_shared c)) = [] /\ dc_reports (sh_device (cl_shared c)) = [])
  (Hthere : is_Some (get_receiver s2 id)) :
  let c1 := (on_message c now (SetVolume rid index purpose)).1 in
  let phone1 := with_native (cl_shared c1) phone in
  let phone' := apply_pending device_id name [(taken, elapsed, elapsed'); (taken', e, e')] phone1 in
  let reports := dc_reports (sh_device (ph_shared phone')) in
  forall (Hup : send_reports (length reports) (with_shared (ph_shared phone') c1) = (c2, None))
    (Hback : written (cl_writer c2) = written (cl_writer c) ++ pending rs),
  (exists r', reader_receive r = (r', Ok (SetVolume rid index purpose)) /\ pending r' = []) /\
  exists rs' tones st,
    receive_n rs (length reports) = (rs', Ok (tones ++ [DeviceStatusMsg st])) /\ Forall is_tone_state tones /\ pending rs' = [] /\
    ds_request_id st = rid /\
    (take_reply (foldl (heed w' id) s2 (tones ++ [DeviceStatusMsg st])) id rid).2 = Some (sanitize st) /\
    (taken < now + 2000 -> session_allows phone elapsed (operation_of purpose) ->
     forall m' minimum maximum, minimum <= maximum ->
       obeys (ph_manager phone) m' minimum maximum (clamp_to minimum maximum index) ->
       am_volume (ph_manager phone') = Some (clamp_to minimum maximum index) /\
       ds_volume st = clamp_to minimum maximum index /\ ds_failed st = false) /\
    (now + 2000 <= taken -> ds_failed st = true /\ (ph_original phone = None -> ph_manager phone' = ph_manager phone)).
Proof.
  intros c1 phone1 phone' reports Hup Hback. destruct Hidle as [Hcommands Hreports].
  destruct (volume_request_ok _ _ _ _ _ _ Hcounter Hrequest) as (Hrid1 & Hrid & _).
  destruct (phone_answers c phone now taken elapsed elapsed' taken' e e' rid index purpose)
    as (Hwr & tones & st & Hr & Htones & Hid & Hvalid & Hintime & Hlate); try done.
  fold c1 phone1 phone' reports in Hwr, Hr, Hintime, Hlate. split.
  { unfold control_step in Hdown. destruct (writer_send w _) as [w1 [[]|e0]] eqn:Hw; [|done]. injection Hdown as ->.
    destruct (writer_send_ok _ _ _ Hw) as (b & Hb & Hlen & Hw'). rewrite Hwire in Hw'. apply (app_inv_head (written w)) in Hw'.
    destruct (reader_receive_frame r b [] (SetVolume rid index purpose)) as (r' & Hread & Hp);
      [by rewrite app_nil_r|done|done|]. by exists r'. }
  apply send_reports_all in Hup; [|done]. cbn [cl_writer with_shared] in Hup. rewrite Hwr in Hup.
  destruct (send_all_written _ _ _ Hup) as (bs & Hbs & Hwritten). rewrite Hback in Hwritten. apply app_inv_head in Hwritten.
  destruct (receive_frames _ _ rs [] Hbs) as (rs' & Hrecv & Hpend); [by rewrite app_nil_r|].
  exists rs', tones, st. rewrite Hr in Hrecv |- *. split_and!; try done.
  rewrite foldl_app. cbn [foldl]. rewrite <- Hid. apply heed_status; [by apply heed_tones|done|lia].
Qed.
End request.

(** ** Witness *)

(** A speaker with sixteen steps. *)
Record Speaker : Type := mkSpeaker {
  sp_volume : Z;
  sp_ok : (0 <=? sp_volume) && (sp_volume <=? 15) = true;
}.

Definition speaker_set (m : Speaker) (index : Z) : Speaker * bool :=
  match decide ((0 <=? index) && (index <=? 15) = true) with
  | left H => (mkSpeaker index H, true)
  | right _ => (m, false)
  end.

#[export] Instance speaker_manager : AudioManager Speaker := {
  am_volume m := Some (sp_volume m);
  am_minimum _ := Some 0;
  am_maximum _ := Some 15;
  am_fixed _ := Some false;
  am_outputs _ := Some [TYPE_BUILTIN_EARPIECE; TYPE_BUILTIN_SPEAKER];
  am_set_volume := speaker_set;
}.

#[export] Instance speaker_laws : AudioManagerLaws Speaker.
Proof. split. intros m v a b [= <-] [= <-] [= <-]. pose proof (sp_ok m). lia. Qed.

Definition quiet_speaker : Speaker := mkSpeaker 3 eq_refl.
Definition pocket : Phone Speaker := mkPhone quiet_speaker None 0 (-1) shared_default.

(** A connected phone without work, and a server that knows it. *)
Definition idle_loop : @ClientLoop PipeEnd :=
  mkClientLoop (mkPipeEnd []) (mkPipeline (jb_new 4) 960 480 5 1 20 0 40 0) (ring_new 9600)
    (ClientState.set Connected shared_default) None None None false.
Definition hall : Registry (Channel ControlMessage) := (register registry_default peer_a (mkChannel 16 true [])).1.
Definition asked_hall : Registry (Channel ControlMessage) * result RegistryError Z := volume_request hall 0 20 User.
Definition hall_id : Z := match asked_hall.2 with Ok rid => rid | Err _ => 0 end.

Definition hall_down : PipeEnd := (writer_send (mkPipeEnd []) (SetVolume hall_id 20 User)).1.
Definition pocket_loop : @ClientLoop PipeEnd := (on_message idle_loop 100 (SetVolume hall_id 20 User)).1.
Definition pocket_after : Phone Speaker :=
  apply_pending [49] [65] [(300, 0, 0); (301, 0, 0)] (with_native (cl_shared pocket_loop) pocket).
Definition pocket_sent : @ClientLoop PipeEnd :=
  (send_reports (length (dc_reports (sh_device (ph_shared pocket_after)))) (with_shared (ph_shared pocket_after) pocket_loop)).1.

Lemma volume_request_comes_back_witness :
  am_volume (ph_manager pocket_after) = Some 15 /\
  exists ms st, receive_n (mkPipeEnd (written (cl_writer pocket_sent))) 1 = (mkPipeEnd [], Ok ms) /\
    (take_reply (foldl (heed hall_down 0) asked_hall.1 ms) 0 hall_id).2 = Some (sanitize st) /\
    ds_volume st = 15 /\ ds_failed st = false.
Proof.
  assert (asked_hall = (asked_hall.1, Ok hall_id)) as Hrequest by (vm_compute; reflexivity).
  assert (control_step (mkPipeEnd []) asked_hall.1 0 (CtlOutbound (SetVolume hall_id 20 User)) = (hall_down, asked_hall.1, true))
    as Hdown by (vm_compute; reflexivity).
  assert (pocket_after = apply_pending [49] [65] [(300, 0, 0); (301, 0, 0)]
    (with_native (cl_shared (on_message idle_loop 100 (SetVolume hall_id 20 User)).1) pocket)) as Hafter by reflexivity.
  assert (length (dc_reports (sh_device (ph_shared pocket_after))) = 1%nat) as Hone by (vm_compute; reflexivity).
  assert (is_Some (get_receiver asked_hall.1 0)) as Hthere by (vm_compute; by eexists).
  destruct (volume_request_comes_back [49] [65] hall asked_hall.1 asked_hall.1 0 20 hall_id User (mkPipeEnd []) hall_down
    (mkPipeEnd (written hall_down)) (mkPipeEnd (written (cl_writer pocket_sent))) idle_loop pocket_sent pocket
    100 300 0 0 301 0 0) as (_ & rs' & tones & st & H1 & _ & Hp & _ & H2 & H3 & _).
  - split; vm_compute; [discriminate|reflexivity].
  - split; vm_compute; [discriminate|reflexivity].
  - exact Hrequest.
  - exact Hdown.
  - vm_compute. reflexivity.
  - vm_compute. reflexivity.
  - split; vm_compute; reflexivity.
  - exact Hthere.
  - vm_compute. reflexivity.
  - vm_compute. reflexivity.
  - rewrite <- Hafter in H1, H3. rewrite Hone in H1.
    assert (session_allows pocket 0 (operation_of User)) as Hallow by (left; split; [reflexivity|vm_compute; discriminate]).
    assert (obeys (ph_manager pocket) (mkSpeaker 15 eq_refl) 0 15 (clamp_to 0 15 20)) as Hobeys
      by (split; [vm_compute; reflexivity..|split_and!; vm_compute; reflexivity]).
    clear Hafter Hdown Hrequest Hthere. revert H1 H3. generalize pocket_after pocket_sent. intros after sent H1 H3.
    destruct (H3 eq_refl Hallow (mkSpeaker 15 eq_refl) 0 15 (proj1 (Z.leb_le 0 15) eq_refl) Hobeys) as (Hv & Hst & Hf).
    split; [exact Hv|]. exists (tones ++ [DeviceStatusMsg st]), st. split; [|by split_and!].
    rewrite H1. f_equal. destruct rs' as [b]. cbn in Hp. by rewrite Hp.
Defined.
