(* ===== verification/PhoneSession.v ===== *)
(** * PhoneSession: the phone's volume during a calibration

    The rest of [DeviceVolumeControl.kt]: the watchdog, the change of the audio
    route and [close], with [AudioService.syncStreamingResources] that calls it.
    A calibration borrows the phone's volume: it starts a session, which keeps
    the volume it found, plays with other volumes, and puts the first one back or
    is told to keep the last.  [Volumes] says so in a few lines, with what the
    audio system answers; the Kotlin code, with its exceptions, reports and the
    native state, refines it.  The audio system ([AudioSystem]) has a fixed range
    of volumes, and setting the volume changes nothing else; each of its calls
    may throw, and its outputs may change at any time. *)

From stdpp Require Import base list.
From Stdlib Require Import ZArith Lia.
From S2P Require Import Prelude BTree Wire Text Transport Registry Jitter Ring DeviceControl ClientState Receiver Client Engine EngineCalls RemoteVolume.
Open Scope Z_scope.

(** ** Kotlin *)

Section kotlin.
Context {A : Type} `{HA : !AudioManager A}.
Variables (device_id name : rstring).
Implicit Types (p : Phone A).

Definition is_connected p : bool := bool_decide (state (ph_shared p) = Connected).

(** [watchdog.run], every 200 ms; [elapsed] is the clock it reads. *)
Definition watchdog (elapsed : Z) p : Phone A :=
  let p :=
    if bool_decide (is_Some (ph_original p)) && ((ph_deadline p <=? elapsed) || negb (is_connected p))
    then let '(p, restored) := cancel_calibration p in report_volume device_id name 0 (negb restored) false None p
    else p in
  let changed := match am_volume (ph_manager p) with Some volume => negb (volume =? ph_reported p) | None => false end in
  if is_connected p && changed then report_volume device_id name 0 false false None p else p.

Definition route_changed p : Phone A :=
  let '(p, failed) :=
    match am_speaker_only (ph_manager p) with
    | Some speaker => if negb speaker then let '(p, restored) := cancel_calibration p in (p, negb restored) else (p, false)
    | None => let '(p, _) := cancel_calibration p in (p, true)
    end in
  report_volume device_id name 0 failed false None p.

Definition close_control p : Phone A := (cancel_calibration p).1.

(** [AudioService.syncStreamingResources] up to the volume keys; [s] is the
    state its caller read. *)
Definition sync_streaming_resources (s : ClientState) (reconnect_requested : bool) (clocks : list (Z * Z * Z)) p : Phone A :=
  let p := if bool_decide (s = Connected) then p else (cancel_calibration p).1 in
  if reconnect_requested && bool_decide (s = Connected) then apply_pending device_id name clocks p else p.

(** What happens on the main thread: one command, a tick, a new route, a
    cancellation by the service; and around it: the native state or the audio
    system changes. *)
Inductive KtEvent : Type :=
| EvCommand (elapsed elapsed' command : Z)
| EvWatchdog (elapsed : Z)
| EvRoute
| EvCancel
| EvNative (s : SharedState)
| EvOutside (m : A).

Definition kt_step p (e : KtEvent) : Phone A :=
  match e with
  | EvCommand elapsed elapsed' command => apply_command device_id name elapsed elapsed' command p
  | EvWatchdog elapsed => watchdog elapsed p
  | EvRoute => route_changed p
  | EvCancel => close_control p
  | EvNative s => with_native s p
  | EvOutside m => with_manager m p
  end.

Definition kt_run p (es : list KtEvent) : Phone A := foldl kt_step p es.

(** The events of one call of [applyPending]. *)
Fixpoint pending_events (clocks : list (Z * Z * Z)) p : list KtEvent :=
  match clocks with
  | [] => []
  | (now, elapsed, elapsed') :: clocks' =>
      let '(device, command) := take_command_at (sh_device (ph_shared p)) now in
      let s := put_device device (ph_shared p) in
      let command := jlong_or_zero command in
      EvNative s ::
      if command =? 0 then []
      else EvCommand elapsed elapsed' command ::
           pending_events clocks' (apply_command device_id name elapsed elapsed' command (with_native s p))
  end.

Lemma apply_pending_runs clocks p : apply_pending device_id name clocks p = kt_run p (pending_events clocks p).
Proof.
  revert p. induction clocks as [|[[now elapsed] elapsed'] clocks IH]; intros p; [done|]. cbn [apply_pending pending_events].
  destruct (take_command_at _ now) as [device command]. unfold kt_run. cbn [foldl kt_step].
  destruct (jlong_or_zero command =? 0); [done|]. cbn [foldl kt_step]. apply IH.
Qed.

Lemma sync_streaming_resources_runs s reconnect clocks p :
  exists es, sync_streaming_resources s reconnect clocks p = kt_run p es.
Proof.
  unfold sync_streaming_resources. case_bool_decide as Hs; destruct reconnect; cbn [andb].
  - eexists. apply apply_pending_runs.
  - by exists [].
  - by exists [EvCancel].
  - by exists [EvCancel].
Qed.
End kotlin.

(** ** What a calibration may do to the volume *)

(** What the audio system does when it is told to set a volume. *)
Inductive SetOutcome : Type := Obeyed | Ignored | Thrown.
#[export] Instance SetOutcome_eq_dec : EqDecision SetOutcome.
Proof. solve_decision. Defined.

(** What its calls answer; [None], or [false], is an exception. *)
Record System : Type := mkSystem {
  sy_fixed : option bool;
  sy_speaker : option bool;
  sy_readable : bool;
  sy_limits : bool;
  sy_set : SetOutcome;
}.

(** [own] is the volume of the phone's user, [playing] the one now set; [until]
    the end of the calibration session, if there is one. *)
Record Volumes : Type := mkVolumes { own : Z; playing : Z; until : option Z; linked : bool; system : System }.

Definition system_of {A} `{!AudioManager A} (outcome : SetOutcome) (m : A) : System :=
  mkSystem (am_fixed m) (am_speaker_only m) (bool_decide (is_Some (am_volume m)))
    (bool_decide (is_Some (am_minimum m)) && bool_decide (is_Some (am_maximum m))) outcome.

(** An audio system whose music volume lies in a fixed range.  Each of its calls
    may throw, its outputs may be any, and a new volume may be set, ignored or
    refused with an exception; setting it changes nothing else. *)
Class AudioSystem (A : Type) `{!AudioManager A} (lowest highest : Z) : Type := {
  volume_in : A -> Z;
  set_outcome : A -> SetOutcome;
  volume_in_range m : lowest <= volume_in m <= highest;
  volume_read m v : am_volume m = Some v -> v = volume_in m;
  minimum_read m v : am_minimum m = Some v -> v = lowest;
  maximum_read m v : am_maximum m = Some v -> v = highest;
  volume_set m v : lowest <= v <= highest -> exists m',
    am_set_volume m v = (m', bool_decide (set_outcome m <> Thrown)) /\
    volume_in m' = (if bool_decide (set_outcome m = Obeyed) then v else volume_in m) /\
    system_of (set_outcome m') m' = system_of (set_outcome m) m;
}.

Section specification.
Context {A : Type} `{HA : !AudioManager A} (lowest highest : Z) `{HS : !AudioSystem A lowest highest}.

(** The phone plays through its own speaker alone, as far as it can tell. *)
Definition on_speaker (v : Volumes) : bool := bool_decide (sy_speaker (system v) = Some true).

(** A volume is set, and taken for the user's outside of a session. *)
Definition set_playing (index : Z) (v : Volumes) : Volumes :=
  match sy_set (system v) with
  | Obeyed => mkVolumes (match until v with Some _ => own v | None => index end) index (until v) (linked v) (system v)
  | Ignored | Thrown => v
  end.

(** The session ends and the volume that plays is the user's from now on. *)
Definition conclude (v : Volumes) : Volumes := mkVolumes (playing v) (playing v) None (linked v) (system v).

(** The session ends: back to the user's volume, if the phone is on its speaker. *)
Definition give_back (v : Volumes) : Volumes :=
  match until v with
  | Some _ => conclude (if on_speaker v then set_playing (own v) v else v)
  | None => v
  end.

Definition expire (now : Z) (v : Volumes) : Volumes :=
  match until v with Some t => if t <=? now then give_back v else v | None => v end.

(** A trial needs a session; only the user's volume may be set when the phone is
    not on its speaker, and not during a session. *)
Definition may_set (operation : Z) (v : Volumes) : bool :=
  bool_decide (sy_fixed (system v) = Some false) &&
  (((operation =? 2) && bool_decide (until v = None)) || on_speaker v) &&
  negb ((operation =? 6) && bool_decide (until v = None)) && sy_limits (system v).

Definition keep_up (now : Z) (v : Volumes) : Volumes :=
  mkVolumes (own v) (playing v) (Some (now + 6000)) (linked v) (system v).

(** The operations of [DeviceControl]: keep the session, set the user's, the
    trial's or the speaker's volume, start, end, and keep what was set. *)
Definition carry_out (now operation value : Z) (v : Volumes) : Volumes :=
  match operation with
  | 1 => match until v with Some _ => keep_up now v | None => v end
  | 2 | 6 | 7 => if may_set operation v then set_playing (clamp_to lowest highest value) v else v
  | 3 => if bool_decide (sy_fixed (system v) = Some false) && on_speaker v && (bool_decide (is_Some (until v)) || sy_readable (system v))
         then keep_up now v else v
  | 4 => give_back v
  | 5 => if bool_decide (is_Some (until v)) && on_speaker v && sy_readable (system v) && (playing v =? value) then conclude v else v
  | _ => v
  end.

Definition volumes_step (v : Volumes) (e : KtEvent) : Volumes :=
  match e with
  | EvCommand elapsed elapsed' command =>
      let '(_, operation, value) := unpack command in carry_out elapsed' operation value (expire elapsed v)
  | EvWatchdog elapsed => if linked v then expire elapsed v else give_back v
  | EvRoute => if on_speaker v then v else give_back v
  | EvCancel => give_back v
  | EvNative s => mkVolumes (own v) (playing v) (until v) (bool_decide (state s = Connected)) (system v)
  | EvOutside m =>
      mkVolumes (match until v with Some _ => own v | None => volume_in m end) (volume_in m) (until v) (linked v)
        (system_of (set_outcome m) m)
  end.

Definition volumes_run (v : Volumes) (es : list KtEvent) : Volumes := foldl volumes_step v es.

(** What the phone's state means. *)
Definition volumes_of (p : Phone A) : Volumes :=
  let m := ph_manager p in
  mkVolumes (default (volume_in m) (ph_original p)) (volume_in m) (if ph_original p then Some (ph_deadline p) else None)
    (is_connected p) (system_of (set_outcome m) m).
End specification.

(** ** Refinement *)

Section refinement.
Context {A : Type} `{HA : !AudioManager A} (lowest highest : Z) `{HS : !AudioSystem A lowest highest}.
Variables (device_id name : rstring).
Implicit Types (p q : Phone A).

Abbreviation kt_step := (kt_step device_id name).
Abbreviation kt_run := (kt_run device_id name).
Abbreviation volumes_of := (volumes_of lowest highest).
Abbreviation volumes_step := (volumes_step lowest highest).
Abbreviation volumes_run := (volumes_run lowest highest).

(** The volume to return to is in the range. *)
Definition in_order p : Prop := forall v, ph_original p = Some v -> lowest <= v <= highest.

(** A step from [p] to [p'] that comes to [v]. *)
Definition becomes p' (v : Volumes) : Prop := in_order p' /\ volumes_of p' = v.

Lemma becomes_same p q : in_order p -> ph_manager q = ph_manager p -> ph_original q = ph_original p ->
  ph_deadline q = ph_deadline p -> state (ph_shared q) = state (ph_shared p) -> becomes q (volumes_of p).
Proof. intros Hp H1 H2 H3 H4. unfold becomes, in_order, PhoneSession.volumes_of, is_connected. rewrite H1, H2, H3, H4. done. Qed.

(** Setting a volume of the range does what [set_playing] says. *)
Lemma set_becomes p index : in_order p -> lowest <= index <= highest ->
  exists p' r, set_stream_volume index p = (p', r) /\ becomes p' (set_playing index (volumes_of p)) /\
    (r = None \/ r = Some tt) /\ ph_original p' = ph_original p.
Proof.
  intros Hp Hindex. unfold set_stream_volume. destruct (volume_set (ph_manager p) index Hindex) as (m' & -> & Hv & Hsys).
  do 2 eexists. split; [reflexivity|]. split; [|split; [destruct (bool_decide (set_outcome (ph_manager p) <> Thrown)); auto|done]]. split; [exact Hp|].
  unfold PhoneSession.volumes_of, set_playing. cbn [ph_manager ph_original with_manager system]. rewrite Hv, Hsys. cbn [sy_set system_of].
  destruct (set_outcome (ph_manager p)); cbn; unfold is_connected; cbn; by destruct (ph_original p).
Qed.

Lemma on_speaker_of p : on_speaker (volumes_of p) = bool_decide (am_speaker_only (ph_manager p) = Some true).
Proof. done. Qed.

Lemma cancel_becomes p : in_order p -> exists p' ok, cancel_calibration p = (p', ok) /\ becomes p' (give_back (volumes_of p)).
Proof.
  intros Hp. unfold cancel_calibration. cbn [ph_original with_native].
  destruct (ph_original p) as [v|] eqn:Ev.
  2: { do 2 eexists. split; [reflexivity|]. unfold becomes, in_order, PhoneSession.volumes_of, give_back. cbn. rewrite Ev. by split. }
  set (p1 := with_original None (with_native (native_stop_tone (ph_shared p)) p)).
  assert (becomes p1 (conclude (volumes_of p))) as Hp1 by by split.
  assert (until (volumes_of p) = Some (ph_deadline p) /\ own (volumes_of p) = v) as [Hu Hown].
  { unfold PhoneSession.volumes_of. by rewrite Ev. }
  unfold give_back. rewrite Hu, on_speaker_of, Hown. unfold mbind, kt_bind, get, mret, kt_ret. cbn [ph_manager p1 with_original with_native].
  fold p1. destruct (am_speaker_only (ph_manager p)) as [[]|]; cbn [bool_decide decide negb]; [|by do 2 eexists..].
  destruct (set_becomes p1 v (proj1 Hp1) (Hp v Ev)) as (p' & r & -> & [Hb Hb'] & Hr & _).
  assert (set_playing v (volumes_of p1) = conclude (set_playing v (volumes_of p))) as Hset.
  { rewrite (proj2 Hp1). by destruct (volumes_of p) as [? ? ? ? [? ? ? ? []]]. }
  rewrite Hset in Hb'. rewrite bool_decide_eq_true_2 by done.
  destruct Hr as [->| ->]; [by do 2 eexists|]. by destruct (am_volume (ph_manager p')); do 2 eexists.
Qed.

Lemma report_native_same p request_id values :
  let q := report_native device_id name request_id values p in
  ph_manager q = ph_manager p /\ ph_original q = ph_original p /\ ph_deadline q = ph_deadline p /\
  state (ph_shared q) = state (ph_shared p).
Proof. cbn. unfold native_report. split_and!; [done..|]. by case_bool_decide. Qed.

Lemma report_volume_becomes p request_id failed observe volume :
  in_order p -> becomes (report_volume device_id name request_id failed observe volume p) (volumes_of p).
Proof.
  intros Hp. assert (forall q, (ph_manager q = ph_manager p /\ ph_original q = ph_original p /\ ph_deadline q = ph_deadline p /\
    state (ph_shared q) = state (ph_shared p)) -> forall r values, becomes (report_native device_id name r values q) (volumes_of p)) as Hq.
  { intros q (H1 & H2 & H3 & H4) r values. destruct (report_native_same q r values) as (H5 & H6 & H7 & H8).
    apply becomes_same; [done|congruence..]. }
  unfold report_volume, mbind, kt_bind, get, mret, kt_ret, change.
  repeat first [case_match; simplify_eq/= | apply Hq; by split_and! | apply Hq; apply report_native_same].
Qed.

(** The condition of the branch for the operations 2, 6 and 7. *)
Lemma refuses_spec p operation :
  exists r, refuses operation (ph_original p) p = (p, r) /\
    bool_decide (r = Some false) && sy_limits (system (volumes_of p)) = may_set operation (volumes_of p).
Proof.
  unfold refuses, may_set, on_speaker, PhoneSession.volumes_of, mbind, kt_bind, get, mret, kt_ret. cbn.
  destruct (am_speaker_only (ph_manager p)) as [[]|] eqn:E, (am_fixed (ph_manager p)) as [[]|], (operation =? 2),
    (operation =? 6), (ph_original p); cbn; rewrite ?E; cbn; rewrite ?E; cbn; eexists; (split; [reflexivity|done]).
Qed.

(** The rest of the branch. *)
Lemma set_part_becomes p value :
  in_order p ->
  becomes ((minimum ← get am_minimum;
            maximum ← get am_maximum;
            index ← coerce_in value minimum maximum;
            _ ← set_stream_volume index;
            actual ← get am_volume;
            mret (negb (actual =? index), Some actual)) p).1
    (if sy_limits (system (volumes_of p)) then set_playing (clamp_to lowest highest value) (volumes_of p) else volumes_of p).
Proof.
  intros Hp. assert (becomes p (volumes_of p)) as Hsame by by apply becomes_same.
  pose proof (volume_in_range (ph_manager p)) as Hrange.
  unfold mbind, kt_bind, get, mret, kt_ret, coerce_in. cbn [system sy_limits system_of PhoneSession.volumes_of].
  destruct (am_minimum (ph_manager p)) as [a|] eqn:Ea; [|exact Hsame]. apply minimum_read in Ea as ->.
  destruct (am_maximum (ph_manager p)) as [b|] eqn:Eb; [|exact Hsame]. apply maximum_read in Eb as ->.
  rewrite !bool_decide_eq_true_2 by done. cbn [andb]. destruct (Z.ltb_spec highest lowest); [lia|].
  destruct (set_becomes p (clamp_to lowest highest value) Hp) as (p' & r & Hset & Hb & Hr & _); [unfold clamp_to; lia|].
  unfold clamp_to in Hset, Hb. unfold mret, kt_ret. cbv beta iota zeta. rewrite Hset. destruct Hr as [->| ->]; [exact Hb|].
  by destruct (am_volume (ph_manager p')).
Qed.

Lemma operate_set_becomes p now operation value failed :
  in_order p -> sets_volume operation ->
  becomes (operate now operation value failed p).1 (carry_out lowest highest now operation value (volumes_of p)).
Proof.
  intros Hp Hset. destruct (refuses_spec p operation) as (r & Hr & Hmay).
  pose proof (set_part_becomes p value Hp) as Hpart. assert (becomes p (volumes_of p)) as Hsame by by apply becomes_same.
  assert (carry_out lowest highest now operation value (volumes_of p) =
    if may_set operation (volumes_of p) then set_playing (clamp_to lowest highest value) (volumes_of p) else volumes_of p) as ->.
  { by destruct Hset as [->|[->| ->]]. }
  assert (operate now operation value failed p = (refused ← refuses operation (ph_original p);
       if refused : bool then mret (true, None)
       else
         minimum ← get am_minimum;
         maximum ← get am_maximum;
         index ← coerce_in value minimum maximum;
         _ ← set_stream_volume index;
         actual ← get am_volume;
         mret (negb (actual =? index), Some actual)) p) as -> by (by destruct Hset as [->|[->| ->]]).
  rewrite <- Hmay. unfold mbind at 1, kt_bind at 1. rewrite Hr. destruct r as [[]|]; [exact Hsame|exact Hpart|exact Hsame].
Qed.

Lemma operate_becomes p now operation value failed :
  in_order p -> becomes (operate now operation value failed p).1 (carry_out lowest highest now operation value (volumes_of p)).
Proof.
  intros Hp. pose proof (volume_in_range (ph_manager p)) as Hrange.
  destruct (decide (sets_volume operation)) as [Hset|Hset]; [by apply operate_set_becomes|].
  assert (becomes p (volumes_of p)) as Hsame by by apply becomes_same.
  destruct (decide (operation = 1)) as [->|].
  { cbn [operate carry_out]. unfold keep_up, PhoneSession.volumes_of in *. cbn [until own playing linked system] in *.
    destruct (ph_original p) eqn:E; [|exact Hsame]. split; [exact Hp|]. unfold PhoneSession.volumes_of. cbn. by rewrite E. }
  destruct (decide (operation = 3)) as [->|].
  { cbn [operate carry_out]. unfold mbind, kt_bind, get, mret, kt_ret, change, on_speaker, keep_up, PhoneSession.volumes_of in *.
    cbn [system sy_fixed sy_speaker sy_readable system_of until own playing linked] in *.
    destruct (am_fixed (ph_manager p)) as [[]|] eqn:Ef; [exact Hsame| |exact Hsame].
    destruct (am_speaker_only (ph_manager p)) as [[]|] eqn:Es; [|exact Hsame..].
    destruct (ph_original p) as [v|] eqn:E; cbn.
    - split; [exact Hp|]. unfold PhoneSession.volumes_of, is_connected, system_of. cbn. by rewrite E, Ef, Es.
    - destruct (am_volume (ph_manager p)) as [w|] eqn:Ew; cbn; [|exact Hsame]. apply volume_read in Ew as Hw. subst w.
      split; [by intros ? [= <-]|]. unfold PhoneSession.volumes_of, is_connected, system_of. cbn. by rewrite Ef, Es, Ew. }
  destruct (decide (operation = 4)) as [->|].
  { cbn. destruct (cancel_becomes p Hp) as (p' & ok & -> & Hc). exact Hc. }
  destruct (decide (operation = 5)) as [->|].
  { cbn [operate carry_out]. unfold mbind, kt_bind, get, mret, kt_ret, change, on_speaker, conclude, PhoneSession.volumes_of in *.
    cbn [system sy_fixed sy_speaker sy_readable system_of until own playing linked] in *.
    destruct (ph_original p) as [v|] eqn:E; cbn; [|exact Hsame].
    destruct (am_speaker_only (ph_manager p)) as [[]|] eqn:Es; cbn; [|exact Hsame..].
    destruct (am_volume (ph_manager p)) as [w|] eqn:Ew; cbn; [|exact Hsame]. apply volume_read in Ew as Hw. subst w.
    destruct (Z.eqb_spec (volume_in (ph_manager p)) value); cbn; [|exact Hsame]. split; [done|].
    unfold PhoneSession.volumes_of, is_connected, system_of. cbn. by rewrite Es, Ew. }
  assert ((operate now operation value failed p).1 = p /\ carry_out lowest highest now operation value (volumes_of p) = volumes_of p) as [-> ->];
    [|done]. unfold operate, carry_out. repeat case_match; subst; try done; unfold sets_volume in Hset; lia.
Qed.

Lemma expire_becomes p elapsed :
  in_order p -> let expired := bool_decide (is_Some (ph_original p)) && (ph_deadline p <=? elapsed) in
  exists failed, (if expired then let '(p, restored) := cancel_calibration p in (p, negb restored) else (p, false)) =
    ((if expired then (cancel_calibration p).1 else p), failed) /\
  becomes (if expired then (cancel_calibration p).1 else p) (expire elapsed (volumes_of p)).
Proof.
  intros Hp expired. destruct (cancel_becomes p Hp) as (p' & ok & Hc & Hb).
  assert (expire elapsed (volumes_of p) = if expired then give_back (volumes_of p) else volumes_of p) as ->.
  { unfold expire, expired, PhoneSession.volumes_of. cbn [until]. destruct (ph_original p) eqn:E; [|done]. rewrite bool_decide_eq_true_2 by done.
    done. }
  destruct expired; [rewrite Hc|]; eexists; split; try reflexivity; [exact Hb|by apply becomes_same].
Qed.

Lemma becomes_trans p1 v1 p2 (f : Volumes -> Volumes) :
  becomes p1 v1 -> (in_order p1 -> becomes p2 (f (volumes_of p1))) -> becomes p2 (f v1).
Proof. intros [H1 <-] H2. by apply H2. Qed.

Lemma apply_command_becomes p elapsed elapsed' command :
  in_order p -> becomes (apply_command device_id name elapsed elapsed' command p)
    (volumes_step (volumes_of p) (EvCommand (A := A) elapsed elapsed' command)).
Proof.
  intros Hp. unfold apply_command. cbn [PhoneSession.volumes_step]. destruct (unpack command) as [[request_id operation] value].
  destruct (expire_becomes p elapsed Hp) as (failed & -> & Hb). set (p1 := if bool_decide _ && _ then (cancel_calibration p).1 else p) in *.
  destruct (operate elapsed' operation value failed p1) as [p2 r] eqn:Ho. destruct (default (true, None) r) as [failed' volume].
  eapply (becomes_trans _ _ _ (carry_out lowest highest elapsed' operation value)); [exact Hb|]. intros Hp1.
  pose proof (operate_becomes p1 elapsed' operation value failed Hp1) as [Hp2 <-]. rewrite Ho in Hp2 |- *.
  by apply report_volume_becomes.
Qed.

Lemma cancel_then_report p (f : bool -> bool) :
  in_order p -> becomes (let '(p, restored) := cancel_calibration p in report_volume device_id name 0 (f restored) false None p)
    (give_back (volumes_of p)).
Proof.
  intros Hp. destruct (cancel_becomes p Hp) as (p' & ok & -> & Hp' & <-). by apply report_volume_becomes.
Qed.

Lemma watchdog_becomes p elapsed :
  in_order p -> becomes (watchdog device_id name elapsed p) (volumes_step (volumes_of p) (EvWatchdog (A := A) elapsed)).
Proof.
  intros Hp. unfold watchdog. cbn [PhoneSession.volumes_step]. set (p1 := if bool_decide _ && _ then _ else p).
  assert (becomes p1 (if linked (volumes_of p) then expire elapsed (volumes_of p) else give_back (volumes_of p))) as [Hp1 <-].
  { pose proof (cancel_then_report p negb Hp) as Hc. assert (becomes p (volumes_of p)) as Hs by by apply becomes_same.
    unfold p1, expire, give_back in *. cbn [until linked PhoneSession.volumes_of] in *.
    destruct (ph_original p) as [v|] eqn:E; cbn [default] in *.
    - rewrite bool_decide_eq_true_2 by done. cbn [andb]. destruct (ph_deadline p <=? elapsed), (is_connected p); exact Hc || exact Hs.
    - rewrite bool_decide_eq_false_2 by (intros []; done). cbn [andb]. destruct (is_connected p); exact Hs. }
  destruct (is_connected p1 && _); [by apply report_volume_becomes|by apply becomes_same].
Qed.

Lemma route_becomes p :
  in_order p -> becomes (route_changed device_id name p) (volumes_step (volumes_of p) (EvRoute (A := A))).
Proof.
  intros Hp. unfold route_changed. cbn [PhoneSession.volumes_step]. rewrite on_speaker_of.
  pose proof (cancel_then_report p negb Hp) as H1. pose proof (cancel_then_report p (fun _ => true) Hp) as H2.
  destruct (am_speaker_only (ph_manager p)) as [[]|]; cbn [negb bool_decide decide].
  - by apply report_volume_becomes.
  - by destruct (cancel_calibration p).
  - by destruct (cancel_calibration p).
Qed.

Lemma kt_step_becomes p e : in_order p -> becomes (kt_step p e) (volumes_step (volumes_of p) e).
Proof.
  intros Hp. destruct e as [elapsed elapsed' command|elapsed| | |s|m]; cbn [PhoneSession.kt_step].
  - by apply apply_command_becomes.
  - by apply watchdog_becomes.
  - by apply route_becomes.
  - destruct (cancel_becomes p Hp) as (p' & ok & Hc & Hb). unfold close_control. by rewrite Hc.
  - by split.
  - split; [exact Hp|]. unfold PhoneSession.volumes_of. cbn. by destruct (ph_original p).
Qed.

Lemma kt_run_becomes p es : in_order p -> becomes (kt_run p es) (volumes_run (volumes_of p) es).
Proof.
  revert p. induction es as [|e es IH]; intros p Hp; [by apply becomes_same|].
  unfold PhoneSession.kt_run, PhoneSession.volumes_run. cbn [foldl].
  destruct (kt_step_becomes p e Hp) as [Hp' <-]. by apply IH.
Qed.

(** C7. The phone's handling of a calibration is the simple bookkeeping of
    [Volumes].  In whatever order commands, ticks of the watchdog, route changes
    and cancellations come, and whatever the native side, the user and the audio
    system change in between - the volume, the outputs, a fixed volume, which
    calls throw, and whether a new volume is obeyed, ignored or refused - the
    Kotlin code holds exactly the user's volume, the volume playing, and the end
    of the session that [volumes_run] says.  One call of [applyPending] is the
    run of the commands it takes out of the queue, [pending_events]. *)
Theorem phone_refines_volumes p es clocks :
  in_order p ->
  in_order (kt_run p es) /\ volumes_of (kt_run p es) = volumes_run (volumes_of p) es /\
  volumes_of (apply_pending device_id name clocks (kt_run p es)) =
    volumes_run (volumes_of p) (es ++ pending_events device_id name clocks (kt_run p es)).
Proof.
  intros Hp. destruct (kt_run_becomes p es Hp) as [Hq Hv]. split; [done|]. split; [done|].
  rewrite apply_pending_runs. unfold PhoneSession.volumes_run. rewrite foldl_app. fold (volumes_run (volumes_of p) es).
  rewrite <- Hv. by apply kt_run_becomes.
Qed.

(** ** The user's volume comes back *)

(** Traffic of a calibration: no volume of the user's, no keeping of a volume. *)
Definition calibrates (e : KtEvent (A := A)) : Prop :=
  match e with
  | EvCommand _ _ command => let '(_, operation, _) := unpack command in operation <> 2 /\ operation <> 5 /\ operation <> 7
  | EvOutside _ => False
  | _ => True
  end.

(** No session is started or kept up after [last]. *)
Definition silent_after (last : Z) (e : KtEvent (A := A)) : Prop :=
  match e with
  | EvCommand _ elapsed' command => let '(_, operation, _) := unpack command in operation = 1 \/ operation = 3 -> elapsed' <= last
  | _ => True
  end.

(** The phone plays through its own speaker alone, and obeys. *)
Definition obliging (m : A) : Prop := am_speaker_only m = Some true /\ set_outcome m = Obeyed.
Definition stays_obliging (e : KtEvent (A := A)) : Prop := match e with EvOutside m => obliging m | _ => True end.

Definition restores (v : Volumes) : Prop := sy_speaker (system v) = Some true /\ sy_set (system v) = Obeyed.

Definition runs_out (last : Z) (v : Volumes) : Prop := forall t, until v = Some t -> t <= last + 6000.

Lemma set_playing_frame index v :
  until (set_playing index v) = until v /\ system (set_playing index v) = system v /\
  (until v <> None -> own (set_playing index v) = own v).
Proof. unfold set_playing. destruct (sy_set (system v)), (until v) eqn:E; simpl; rewrite ?E; split_and!; try done. Qed.

Lemma give_back_until v : until (give_back v) = None.
Proof. unfold give_back. by destruct (until v) eqn:E. Qed.

Lemma give_back_system v : system (give_back v) = system v.
Proof.
  unfold give_back. destruct (until v); [|done]. cbn. destruct (on_speaker v); [|done].
  by destruct (set_playing_frame (own v) v) as (_ & -> & _).
Qed.

Lemma give_back_own v : restores v -> own (give_back v) = own v /\ (until v <> None -> playing (give_back v) = own v).
Proof.
  intros [H1 H2]. unfold give_back, on_speaker, conclude, set_playing. rewrite H1, H2.
  destruct (until v) eqn:E; [|done]. by rewrite bool_decide_eq_true_2.
Qed.

Lemma expire_or_not now v : expire now v = v \/ expire now v = give_back v.
Proof. unfold expire. repeat case_match; auto. Qed.

Lemma perform_runs_out now operation value last v :
  (operation = 1 \/ operation = 3 -> now <= last) -> runs_out last v -> runs_out last (carry_out lowest highest now operation value v).
Proof.
  unfold runs_out. intros Hop Hv t. pose proof (give_back_until v) as He.
  pose proof (proj1 (set_playing_frame (clamp_to lowest highest value) v)) as Hs. unfold carry_out, keep_up, conclude.
  repeat case_match; subst; cbn; intros Ht; rewrite ?Hs in Ht; simplify_eq; try congruence; try (by apply Hv); try (by apply Hv; congruence);
    specialize (Hop ltac:(auto)); lia.
Qed.

Lemma volumes_step_runs_out last e v : silent_after last e -> runs_out last v -> runs_out last (volumes_step v e).
Proof.
  intros He Hv. assert (runs_out last (give_back v)) as Hend.
  { intros t. by rewrite give_back_until. }
  assert (forall now, runs_out last (expire now v)) as Hx by (intros now; destruct (expire_or_not now v) as [->| ->]; done).
  destruct e as [elapsed elapsed' command|elapsed| | |s|m]; cbn [PhoneSession.volumes_step] in *; try done.
  - destruct (unpack command) as [[request_id operation] value] eqn:E. unfold silent_after in He. rewrite E in He.
    by apply perform_runs_out.
  - by case_match.
  - by case_match.
Qed.

Lemma perform_system now operation value v : system (carry_out lowest highest now operation value v) = system v.
Proof.
  pose proof (give_back_system v). destruct (set_playing_frame (clamp_to lowest highest value) v) as (_ & Hs & _).
  unfold carry_out. repeat case_match; done.
Qed.

Lemma volumes_step_restores e v : stays_obliging e -> restores v -> restores (volumes_step v e).
Proof.
  intros He [H1 H2]. assert (forall w, system w = system v -> restores w) as Hsame by (intros w Hw; unfold restores; by rewrite Hw).
  assert (forall now, system (expire now v) = system v) as Hx.
  { intros now. destruct (expire_or_not now v) as [->| ->]; [done|apply give_back_system]. }
  destruct e as [elapsed elapsed' command|elapsed| | |s|m]; cbn [PhoneSession.volumes_step] in *;
    [apply Hsame..|exact He].
  - destruct (unpack command) as [[request_id operation] value]. by rewrite perform_system.
  - case_match; [apply Hx|apply give_back_system].
  - case_match; [done|apply give_back_system].
  - apply give_back_system.
  - done.
Qed.

Lemma perform_own now operation value v :
  operation <> 2 -> operation <> 5 -> operation <> 7 -> restores v -> own (carry_out lowest highest now operation value v) = own v.
Proof.
  intros H2 H5 H7 Hr. pose proof (proj1 (give_back_own v Hr)).
  destruct (set_playing_frame (clamp_to lowest highest value) v) as (_ & _ & Hs).
  unfold carry_out. destruct operation as [|[[[]|[]|]|[[]|[]|]|]|]; try done; repeat case_match; try done.
  apply Hs. unfold may_set in H0. destruct (until v); [done|]. by rewrite !andb_false_r in H0.
Qed.

Lemma volumes_step_own e v : calibrates e -> restores v -> own (volumes_step v e) = own v.
Proof.
  intros He Hr. pose proof (proj1 (give_back_own v Hr)) as Hg.
  assert (forall now, own (expire now v) = own v /\ restores (expire now v)) as Hx.
  { intros now. destruct (expire_or_not now v) as [->| ->]; [done|]. unfold restores. by rewrite give_back_system. }
  destruct e as [elapsed elapsed' command|elapsed| | |s|m]; cbn [PhoneSession.volumes_step] in *; try done.
  - unfold calibrates in He. destruct (unpack command) as [[request_id operation] value].
    destruct (Hx elapsed) as [<- Hr']. by rewrite perform_own by tauto.
  - case_match; [apply Hx|done].
  - by case_match.
Qed.

Lemma volumes_run_runs_out last es v : Forall (silent_after last) es -> runs_out last v -> runs_out last (volumes_run v es).
Proof. intros H. revert v. induction H as [|e es He _ IH]; intros v Hv; [done|]. apply IH. by apply volumes_step_runs_out. Qed.

Lemma volumes_run_restores es v : Forall stays_obliging es -> restores v -> restores (volumes_run v es).
Proof. intros H. revert v. induction H as [|e es He _ IH]; intros v Hv; [done|]. apply IH. by apply volumes_step_restores. Qed.

Lemma volumes_run_own es v : Forall calibrates es -> restores v -> own (volumes_run v es) = own v.
Proof.
  intros H. revert v. induction H as [|e es He _ IH]; intros v Hv; [done|]. etransitivity; [apply IH|by apply volumes_step_own].
  apply volumes_step_restores; [by destruct e|done].
Qed.

Lemma run_out_tick last now v : runs_out last v -> last + 6000 <= now -> volumes_step v (EvWatchdog (A := A) now) = give_back v.
Proof.
  unfold runs_out. intros Hr Hnow. cbn. unfold expire, give_back. destruct (until v) as [t|]; [|by case_match].
  specialize (Hr t eq_refl). replace (t <=? now) with true by lia. by case_match.
Qed.

(** A phone whose session was given back. *)
Lemma given_back q v :
  volumes_of q = give_back v -> ph_original q = None /\ (restores v -> until v <> None -> volume_in (ph_manager q) = own v) /\
    (until v = None -> volume_in (ph_manager q) = playing v).
Proof.
  intros Hq. pose proof (give_back_until v) as Hu. rewrite <- Hq in Hu. unfold PhoneSession.volumes_of in Hu. cbn in Hu.
  split; [by destruct (ph_original q)|]. split.
  - intros Hr Hn. rewrite <- (proj2 (give_back_own v Hr) Hn), <- Hq. done.
  - intros Hn. unfold give_back in Hq. rewrite Hn in Hq. by rewrite <- Hq.
Qed.

(** Without a session the user's volume plays. *)
Definition concluded (v : Volumes) : Prop := until v = None -> own v = playing v.

Lemma volumes_of_concluded p : concluded (volumes_of p).
Proof. unfold concluded, PhoneSession.volumes_of. cbn. by destruct (ph_original p). Qed.

Lemma given_back_plays q p :
  volumes_of q = give_back (volumes_of p) -> restores (volumes_of p) ->
  ph_original q = None /\ volume_in (ph_manager q) = own (volumes_of p).
Proof.
  intros Hq Hr. destruct (given_back q _ Hq) as (H1 & H2 & H3). split; [done|].
  destruct (until (volumes_of p)) eqn:Hu; [by apply H2|]. rewrite (volumes_of_concluded p Hu). by apply H3.
Qed.

(** C8. A calibration ends by itself, and then the phone gets its volume back if
    it still plays through its own speaker alone and the audio system obeys.
    After the last command that starts or keeps up a session, whatever else
    happens - route changes and exceptions included - the first tick of the
    watchdog six seconds later leaves no session, and so does the service when it
    finds the connection gone.  If moreover the phone has been on its speaker
    all the time and the system obeyed, the volume playing then is the user's own;
    and if all that came was a calibration's traffic, this is the volume from
    before.  ([session_lost_on_route_change] shows that the condition is needed.) *)
Theorem calibration_leaves_no_trace p es last now reconnect clocks s :
  in_order p -> (is_Some (ph_original p) -> ph_deadline p <= last + 6000) ->
  Forall (silent_after last) es -> last + 6000 <= now -> s <> Connected ->
  let ticked := kt_run p (es ++ [EvWatchdog now]) in
  let unlinked := sync_streaming_resources device_id name s reconnect clocks (kt_run p es) in
  let user := own (volumes_run (volumes_of p) es) in
  (ph_original ticked = None /\ ph_original unlinked = None) /\
  (obliging (ph_manager p) -> Forall stays_obliging es ->
     volume_in (ph_manager ticked) = user /\ volume_in (ph_manager unlinked) = user /\
     (Forall calibrates es -> user = default (volume_in (ph_manager p)) (ph_original p))).
Proof.
  intros Hp Hd Hlast Hnow Hs ticked unlinked user. destruct (kt_run_becomes p es Hp) as [Hq Hv].
  assert (volumes_of ticked = give_back (volumes_of (kt_run p es))) as Ht.
  { unfold ticked, PhoneSession.kt_run. rewrite foldl_app. cbn [foldl]. fold (kt_run p es).
    destruct (kt_step_becomes (kt_run p es) (EvWatchdog now) Hq) as [_ ->]. apply (run_out_tick last); [|done].
    rewrite Hv. apply volumes_run_runs_out; [done|]. intros t. cbn. destruct (ph_original p) eqn:E; [|done]. intros [= <-]. by apply Hd. }
  assert (volumes_of unlinked = give_back (volumes_of (kt_run p es))) as Hu.
  { unfold unlinked, sync_streaming_resources. rewrite bool_decide_eq_false_2, andb_false_r by done.
    by destruct (cancel_becomes _ Hq) as (q' & ok & -> & _ & Hv'). }
  split; [split; [apply (given_back _ _ Ht)|apply (given_back _ _ Hu)]|]. intros Hm Hes.
  assert (restores (volumes_of (kt_run p es))) as Hr by (rewrite Hv; by apply volumes_run_restores).
  destruct (given_back_plays _ _ Ht Hr) as [_ Ht'], (given_back_plays _ _ Hu Hr) as [_ Hu'].
  split_and!; [by rewrite Ht', Hv|by rewrite Hu', Hv|]. intros Hcal. unfold user. by rewrite volumes_run_own.
Qed.

(** A new output during a calibration ends the session with nothing restored: the
    trial volume stays, and is what a later session would keep. *)
Lemma session_lost_on_route_change p :
  in_order p -> is_Some (ph_original p) -> am_speaker_only (ph_manager p) <> Some true ->
  let q := kt_step p EvRoute in
  ph_original q = None /\ volume_in (ph_manager q) = volume_in (ph_manager p) /\
  own (volumes_of q) = volume_in (ph_manager p).
Proof.
  intros Hp [v Ho] Hs q. destruct (kt_step_becomes p EvRoute Hp) as [_ Hv]. fold q in Hv. clearbody q.
  assert (volumes_of q = conclude (volumes_of p)) as Hsettle.
  { rewrite Hv. cbn [PhoneSession.volumes_step]. rewrite on_speaker_of, bool_decide_eq_false_2 by done.
    unfold give_back. rewrite on_speaker_of, bool_decide_eq_false_2 by done. unfold PhoneSession.volumes_of at 1. cbn. by rewrite Ho. }
  unfold PhoneSession.volumes_of, conclude in Hsettle. cbn in Hsettle. injection Hsettle as H1 H2 H3 _ _.
  destruct (ph_original q) eqn:Eq; [done|]. split_and!; [done..|]. unfold PhoneSession.volumes_of. cbn. by rewrite Eq.
Qed.
End refinement.

(** ** Witnesses *)

(** A phone with sixteen steps, with or without headphones, whose calls can
    throw. *)
Record Handset : Type := mkHandset {
  hs_volume : Z;
  hs_headphones : bool;
  hs_dead : bool;
  hs_ok : (0 <=? hs_volume) && (hs_volume <=? 15) = true;
}.

Definition hs_answer {B} (m : Handset) (b : B) : option B := if hs_dead m then None else Some b.

Definition handset_set (m : Handset) (index : Z) : Handset * bool :=
  if hs_dead m then (m, false)
  else match decide ((0 <=? index) && (index <=? 15) = true) with
       | left H => (mkHandset index (hs_headphones m) false H, true)
       | right _ => (m, false)
       end.

#[export] Instance handset_manager : AudioManager Handset := {
  am_volume m := hs_answer m (hs_volume m);
  am_minimum m := hs_answer m 0;
  am_maximum m := hs_answer m 15;
  am_fixed m := hs_answer m false;
  am_outputs m := hs_answer m (if hs_headphones m then [TYPE_BUILTIN_SPEAKER; 4] else [TYPE_BUILTIN_EARPIECE; TYPE_BUILTIN_SPEAKER]);
  am_set_volume := handset_set;
}.

#[export] Instance handset_system : AudioSystem Handset 0 15.
Proof.
  refine {| volume_in := hs_volume; set_outcome m := if hs_dead m then Thrown else Obeyed |}.
  - intros m. pose proof (hs_ok m). lia.
  - intros m v. cbn. unfold hs_answer. by destruct (hs_dead m); intros [= <-].
  - intros m v. cbn. unfold hs_answer. by destruct (hs_dead m); intros [= <-].
  - intros m v. cbn. unfold hs_answer. by destruct (hs_dead m); intros [= <-].
  - intros m v Hv. cbn. unfold handset_set. destruct m as [w h d Hok]. cbn. destruct d; [by eexists|].
    destruct (decide _) as [H|H]; [by eexists|]. exfalso. apply H. lia.
Defined.

Definition handset : Handset := mkHandset 3 false false eq_refl.
Definition jacket : Phone Handset := mkPhone handset None 0 (-1) shared_default.

Lemma jacket_in_order : in_order 0 15 jacket.
Proof. intros v [=]. Qed.

(** A calibration that starts and sets a trial volume; then the server is gone. *)
Definition lost_calibration : list (KtEvent (A := Handset)) :=
  [EvNative (ClientState.set Connected shared_default); EvCommand 1000 1000 (packed 1 3 0); EvWatchdog 1050;
   EvCommand 1100 1100 (packed 2 6 12); EvRoute; EvWatchdog 2000].

(** The same with headphones plugged in after the trial volume, then a system
    whose calls throw. *)
Definition plugged_calibration : list (KtEvent (A := Handset)) :=
  take 4 lost_calibration ++
  [EvOutside (mkHandset 12 true false eq_refl); EvRoute; EvOutside (mkHandset 12 true true eq_refl); EvCommand 1200 1200 (packed 3 2 5)].

Lemma phone_refines_volumes_witness :
  let v := volumes_of 0 15 (kt_run [49] [65] jacket lost_calibration) in
  let v' := volumes_of 0 15 (kt_run [49] [65] jacket plugged_calibration) in
  (own v, playing v, until v) = (3, 12, Some 7000) /\ (own v', playing v', until v') = (12, 12, None).
Proof.
  destruct (phone_refines_volumes 0 15 [49] [65] jacket lost_calibration [] jacket_in_order) as (_ & H & _).
  destruct (phone_refines_volumes 0 15 [49] [65] jacket plugged_calibration [] jacket_in_order) as (_ & H' & _).
  cbv zeta. rewrite H, H'. split; vm_compute; reflexivity.
Defined.

Lemma calibration_leaves_no_trace_witness :
  am_volume (ph_manager (kt_run [49] [65] jacket lost_calibration)) = Some 12 /\
  hs_volume (ph_manager (kt_run [49] [65] jacket (lost_calibration ++ [EvWatchdog 7000]))) = 3.
Proof.
  split; [vm_compute; reflexivity|].
  destruct (calibration_leaves_no_trace 0 15 [49] [65] jacket lost_calibration 1000 7000 true [] Disconnected) as (_ & H).
  - apply jacket_in_order.
  - intros []; discriminate.
  - repeat constructor; vm_compute; try discriminate; intros [H|H]; discriminate H.
  - reflexivity || discriminate.
  - discriminate.
  - destruct H as (H1 & _ & H2); [by split|by repeat constructor|]. etransitivity; [exact H1|].
    apply H2. repeat constructor; vm_compute; discriminate.
Defined.
