(* ===== verification/Capture.v ===== *)
(** * Capture: from device buffers to the bounded block queue

    [windows-server/src/audio/capture.rs]: the assembly of 10 ms blocks, the
    queue that evicts its oldest block, and the loop of the capture thread over
    what the audio device delivers.  The queue (a crossbeam channel) is an
    interface; the fan-out thread that reads its other end takes blocks at any
    point, also between the steps of [enqueue_latest].  The samples of a device
    buffer are those after the conversion to 16 bits, which is not modelled. *)

From Stdlib Require Import ZArith Lia.
From S2P Require Import Prelude Wire Packetizer.

(** ** The queue *)

Inductive send_result : Type := Sent | Full (block : PcmBlock) | SendDisconnected (block : PcmBlock).
Inductive recv_result : Type := Received (block : PcmBlock) | Empty | RecvDisconnected.

Class BoundedChannel (C : Type) : Type := {
  ch_try_send : C -> PcmBlock -> C * send_result;
  ch_try_recv : C -> C * recv_result;
}.

(** The documented behaviour of [bounded(cap)] while both ends are held, which
    is the case here: the capture thread owns a sender and a receiver. *)
Class BoundedChannelLaws (C : Type) `{!BoundedChannel C} (cap : nat) : Type := {
  ch_queue : C -> list PcmBlock;
  ch_held : C -> Prop;
  ch_bound c : ch_held c -> (length (ch_queue c) <= cap)%nat;
  ch_send_room c b : ch_held c -> (length (ch_queue c) < cap)%nat ->
    exists c', ch_try_send c b = (c', Sent) /\ ch_held c' /\ ch_queue c' = ch_queue c ++ [b];
  ch_send_full c b : ch_held c -> length (ch_queue c) = cap -> ch_try_send c b = (c, Full b);
  ch_recv_some c b q : ch_held c -> ch_queue c = b :: q ->
    exists c', ch_try_recv c = (c', Received b) /\ ch_held c' /\ ch_queue c' = q;
  ch_recv_none c : ch_held c -> ch_queue c = [] -> ch_try_recv c = (c, Empty);
}.

Definition FRAME_QUEUE_CAPACITY : nat := 1.
Definition SILENCE_FALLBACK_BLOCKS : nat := 5.

(** ** The assembler *)

Record BlockAssembler : Type := mkBlockAssembler {
  ba_timestamp : Z;
  ba_filled : nat;
  ba_samples : list Z;
}.

Definition assembler_default : BlockAssembler := mkBlockAssembler 0 0 (replicate PCM_BLOCK_SAMPLES 0).

Section capture.
Context {C : Type} `{!BoundedChannel C}.

(** What the capture thread shares: the queue, the drop counter, and the blocks
    the fan-out thread has taken so far, oldest first.  [cs_gaps] says how many
    blocks that thread takes inside each of the next calls of
    [enqueue_latest]: before the eviction, and before the second attempt. *)
Record CaptureSide : Type := mkCaptureSide {
  cs_channel : C;
  cs_dropped : Z;
  cs_taken : list PcmBlock;
  cs_gaps : list (nat * nat);
}.

(** The fan-out thread receives up to [n] blocks. *)
Fixpoint consume (n : nat) (w : CaptureSide) : CaptureSide :=
  match n with
  | O => w
  | S n' =>
      match ch_try_recv (cs_channel w) with
      | (c, Received b) => consume n' (mkCaptureSide c (cs_dropped w) (cs_taken w ++ [b]) (cs_gaps w))
      | (c, _) => mkCaptureSide c (cs_dropped w) (cs_taken w) (cs_gaps w)
      end
  end.

Definition with_channel (c : C) (w : CaptureSide) : CaptureSide :=
  mkCaptureSide c (cs_dropped w) (cs_taken w) (cs_gaps w).
Definition drop_one (w : CaptureSide) : CaptureSide :=
  mkCaptureSide (cs_channel w) (wrapping_add 64 (cs_dropped w) 1) (cs_taken w) (cs_gaps w).
Definition next_gap (w : CaptureSide) : CaptureSide * (nat * nat) :=
  match cs_gaps w with
  | [] => (w, (0, 0)%nat)
  | g :: gaps => (mkCaptureSide (cs_channel w) (cs_dropped w) (cs_taken w) gaps, g)
  end.

Definition enqueue_latest (w : CaptureSide) (block : PcmBlock) : CaptureSide * bool :=
  let '(w, (before_eviction, before_retry)) := next_gap w in
  let '(c, r) := ch_try_send (cs_channel w) block in
  let w := with_channel c w in
  match r with
  | Sent => (w, true)
  | Full block =>
      let w := consume before_eviction w in
      let '(c, r) := ch_try_recv (cs_channel w) in
      let w := with_channel c w in
      match r with
      | RecvDisconnected => (drop_one w, false)
      | Received _ | Empty =>
          let w := match r with Received _ => drop_one w | _ => w end in
          let w := consume before_retry w in
          let '(c, r) := ch_try_send (cs_channel w) block in
          let w := with_channel c w in
          match r with
          | Sent => (w, true)
          | _ => (drop_one w, false)
          end
      end
  | SendDisconnected _ => (drop_one w, false)
  end.

(** [push_one]; [None] is the panic of an index out of range. *)
Definition push_one (a : BlockAssembler) (sample : Z) (w : CaptureSide)
  : option (BlockAssembler * CaptureSide) :=
  if decide (ba_filled a < length (ba_samples a))%nat then
    let samples := <[ba_filled a := sample]> (ba_samples a) in
    let filled := S (ba_filled a) in
    if negb (Nat.eqb filled PCM_BLOCK_SAMPLES)
    then Some (mkBlockAssembler (ba_timestamp a) filled samples, w)
    else
      let block := mkPcmBlock (ba_timestamp a) samples in
      let timestamp := wrapping_add 64 (ba_timestamp a) (Z.of_nat PCM_BLOCK_SAMPLES / CHANNELS) in
      Some (mkBlockAssembler timestamp 0 (replicate PCM_BLOCK_SAMPLES 0), (enqueue_latest w block).1)
  else None.

Fixpoint push_samples (a : BlockAssembler) (samples : list Z) (w : CaptureSide)
  : option (BlockAssembler * CaptureSide) :=
  match samples with
  | [] => Some (a, w)
  | sample :: samples' => '(a, w) ← push_one a sample w; push_samples a samples' w
  end.

Fixpoint push_silence (a : BlockAssembler) (count : nat) (w : CaptureSide)
  : option (BlockAssembler * CaptureSide) :=
  match count with
  | O => Some (a, w)
  | S count' => '(a, w) ← push_one a 0 w; push_silence a count' w
  end.

(** ** The capture loop *)

Inductive device_buffer : Type :=
| SilentBuffer (frames : nat)
| AudioBuffer (samples : list Z).

Inductive wait_result : Type := Signalled | EventTimeout | WaitFailed.

(** What one iteration meets: whether stop was requested at its head, what
    happened at a closed gate ([None]: the gate was open; [Some stop]: the wait
    ended, with or without a stop request), the buffers it read until none was
    left, whether a device call failed after them, and the event wait. *)
Record iteration : Type := mkIteration {
  it_stop : bool;
  it_closed : option bool;
  it_buffers : list device_buffer;
  it_device_failed : bool;
  it_wait : wait_result;
}.

(** How an iteration ends: the loop goes on, or the thread returns. *)
Inductive capture_end : Type := GoOn | Stopped | Failed.

(** [while eviction_receiver.try_recv().is_ok() {}]: the fuel is one more than
    the number of blocks the queue can hold. *)
Fixpoint drain (fuel : nat) (w : CaptureSide) : CaptureSide :=
  match fuel with
  | O => w
  | S fuel' =>
      match ch_try_recv (cs_channel w) with
      | (c, Received _) => drain fuel' (with_channel c w)
      | (c, _) => with_channel c w
      end
  end.

Definition read_buffer (a : BlockAssembler) (b : device_buffer) (w : CaptureSide)
  : option (BlockAssembler * CaptureSide) :=
  match b with
  | SilentBuffer frames => push_silence a (frames * Z.to_nat CHANNELS) w
  | AudioBuffer samples => push_samples a samples w
  end.

Fixpoint read_buffers (a : BlockAssembler) (bs : list device_buffer) (w : CaptureSide)
  : option (BlockAssembler * CaptureSide) :=
  match bs with
  | [] => Some (a, w)
  | b :: bs' => '(a, w) ← read_buffer a b w; read_buffers a bs' w
  end.

Definition capture_iteration (a : BlockAssembler) (w : CaptureSide) (it : iteration)
  : option (BlockAssembler * CaptureSide * capture_end) :=
  if it_stop it then Some (a, w, Stopped)
  else
    let '(a, w) :=
      match it_closed it with
      | Some _ => (mkBlockAssembler (ba_timestamp a) 0 (ba_samples a), drain (S FRAME_QUEUE_CAPACITY) w)
      | None => (a, w)
      end in
    if default false (it_closed it) then Some (a, w, Stopped)
    else
      '(a, w) ← read_buffers a (it_buffers it) w;
      if it_device_failed it then Some (a, w, Failed)
      else
        match it_wait it with
        | Signalled => Some (a, w, GoOn)
        | EventTimeout =>
            '(a, w) ← push_silence a (PCM_BLOCK_SAMPLES * SILENCE_FALLBACK_BLOCKS) w;
            Some (a, w, GoOn)
        | WaitFailed => Some (a, w, Failed)
        end.

(** The loop over the iterations it meets; between two of them the fan-out
    thread takes [n] blocks. *)
Fixpoint capture_loop (a : BlockAssembler) (w : CaptureSide) (its : list (iteration * nat))
  : option (BlockAssembler * CaptureSide * capture_end) :=
  match its with
  | [] => Some (a, w, GoOn)
  | (it, n) :: its' =>
      '(a, w, e) ← capture_iteration a w it;
      match e with
      | GoOn => capture_loop a (consume n w) its'
      | _ => Some (a, w, e)
      end
  end.

Definition capture_start (c : C) (gaps : list (nat * nat)) : BlockAssembler * CaptureSide :=
  (assembler_default, mkCaptureSide c 0 [] gaps).
End capture.

(** ** What the assembler makes of its samples *)

(** Full blocks with consecutive timestamps from [t] on, modulo 2^64. *)
Fixpoint made (t : Z) (blocks : list PcmBlock) : Prop :=
  match blocks with
  | [] => True
  | b :: blocks' => block_ok b /\ pb_timestamp b = t /\ made (wrapping_add 64 t 480) blocks'
  end.

Definition samples_in (blocks : list PcmBlock) : list Z := blocks ≫= pb_samples.

Definition time_after (t : Z) (n : nat) : Z := wrapping_add 64 t (480 * Z.of_nat n).

(** The samples of the unfinished block. *)
Definition unfinished (a : BlockAssembler) : list Z := take (ba_filled a) (ba_samples a).

Definition assembler_ok (a : BlockAssembler) : Prop :=
  length (ba_samples a) = PCM_BLOCK_SAMPLES /\ (ba_filled a < PCM_BLOCK_SAMPLES)%nat /\
  ba_timestamp a ∈u 64.

Lemma time_after_S t n : time_after (wrapping_add 64 t 480) n = time_after t (S n).
Proof. unfold time_after, wrapping_add. rewrite wrap_add_l. f_equal. lia. Qed.

Lemma made_app t blocks blocks' :
  t ∈u 64 -> made t blocks -> made (time_after t (length blocks)) blocks' -> made t (blocks ++ blocks').
Proof.
  revert t. induction blocks as [|b blocks IH]; intros t Ht Hm Hm'; simpl in *.
  - unfold time_after, wrapping_add in Hm'. simpl in Hm'. by rewrite Z.add_0_r, wrap_small in Hm'.
  - destruct Hm as (Hb & Hts & Hm). split_and!; [done..|].
    apply IH; [by apply wrapping_add_range|done|]. by rewrite time_after_S.
Qed.

Lemma made_capture t blocks :
  t + 480 * Z.of_nat (length blocks) < 2 ^ 64 -> 0 <= t -> made t blocks -> capture t blocks.
Proof.
  revert t. induction blocks as [|b blocks IH]; intros t Hlt Ht Hm; simpl in *; [done|].
  destruct Hm as (Hb & Hts & Hm). split_and!; [done|done|lia|].
  apply IH; [lia|lia|]. unfold wrapping_add in Hm; rewrite wrap_small in Hm; [done|]. split; lia.
Qed.

Lemma made_length t blocks : made t blocks -> length (samples_in blocks) = (960 * length blocks)%nat.
Proof.
  revert t. induction blocks as [|b blocks IH]; intros t Hm; [done|]. destruct Hm as (Hb & _ & Hm).
  change (samples_in (b :: blocks)) with (pb_samples b ++ samples_in blocks).
  rewrite length_app, (IH _ Hm), Hb. change PCM_BLOCK_SAMPLES with 960%nat. simpl length. lia.
Qed.

Lemma sublist_eq_same_length {A} (l k : list A) : l `sublist_of` k -> (length k <= length l)%nat -> l = k.
Proof.
  induction 1 as [|x l k _ IH|x l k Hs IH]; simpl; intros Hl; [done|f_equal; apply IH; lia|].
  pose proof (sublist_length _ _ Hs). lia.
Qed.

Lemma samples_in_app bs bs' : samples_in (bs ++ bs') = samples_in bs ++ samples_in bs'.
Proof. apply bind_app. Qed.

Lemma take_insert_here {A} (l : list A) n x :
  (n < length l)%nat -> take (S n) (<[n:=x]> l) = take n l ++ [x].
Proof.
  intros Hn. rewrite (take_S_r _ n x); [|by rewrite list_lookup_insert_eq].
  f_equal. by rewrite take_insert_ge.
Qed.

Section capture_laws.
Context {C : Type} `{!BoundedChannel C, L : !BoundedChannelLaws C cap}.

(** Everything the fan-out thread got or can still get, oldest first. *)
Definition stream (w : CaptureSide (C := C)) : list PcmBlock := cs_taken w ++ ch_queue (cs_channel w).
Definition held (w : CaptureSide (C := C)) : Prop := ch_held (cs_channel w).

Definition enqueue_all (w : CaptureSide (C := C)) (bs : list PcmBlock) : CaptureSide :=
  foldl (fun w b => (enqueue_latest w b).1) w bs.

(** What taking blocks out by the fan-out thread preserves. *)
Definition same_stream (w w' : CaptureSide (C := C)) : Prop :=
  held w' /\ stream w' = stream w /\ cs_dropped w' = cs_dropped w /\
  (length (ch_queue (cs_channel w')) <= length (ch_queue (cs_channel w)))%nat.

Lemma consume_same n w : held w -> same_stream w (consume n w).
Proof.
  revert w. induction n as [|n IH]; intros w Hw; simpl; [done|].
  destruct (ch_queue (cs_channel w)) as [|b q] eqn:Hq.
  - rewrite (ch_recv_none _ Hw Hq). done.
  - destruct (ch_recv_some _ _ _ Hw Hq) as (c' & -> & Hc' & Hq').
    edestruct IH as (H1 & H2 & H3 & H4); [|split_and!; [exact H1|..]].
    + exact Hc'.
    + rewrite H2. unfold stream. simpl. rewrite Hq', Hq, <- app_assoc. done.
    + done.
    + rewrite Hq. simpl in *. rewrite Hq' in H4. lia.
Qed.

(** One call of [enqueue_latest]: the block is always accepted; at most one
    older block is lost, and counted. *)
Definition accepted (w : CaptureSide (C := C)) (b : PcmBlock) (w' : CaptureSide) : Prop :=
  held w' /\
  ((stream w' = stream w ++ [b] /\ cs_dropped w' = cs_dropped w) \/
   (exists kept old kept', stream w = kept ++ old :: kept' /\ stream w' = kept ++ kept' ++ [b] /\
      cs_dropped w' = wrapping_add 64 (cs_dropped w) 1)).

Lemma send_with_room w b :
  held w -> (length (ch_queue (cs_channel w)) < cap)%nat ->
  exists c', ch_try_send (cs_channel w) b = (c', Sent) /\ ch_held c' /\
    stream (with_channel c' w) = stream w ++ [b].
Proof.
  intros Hw Hroom. destruct (ch_send_room _ b Hw Hroom) as (c' & -> & Hc' & Hq').
  exists c'. split_and!; [done|done|]. unfold stream. simpl. by rewrite Hq', app_assoc.
Qed.

Lemma enqueue_accepted w b :
  (1 <= cap)%nat -> held w -> exists w', enqueue_latest w b = (w', true) /\ accepted w b w'.
Proof.
  intros Hcap Hw. unfold enqueue_latest.
  destruct (next_gap w) as [w1 [g1 g2]] eqn:Hgap.
  assert (held w1 /\ stream w1 = stream w /\ cs_dropped w1 = cs_dropped w) as (Hw1 & Hs1 & Hd1).
  { unfold next_gap in Hgap. destruct (cs_gaps w); simplify_eq; done. }
  assert (forall w', accepted w1 b w' -> accepted w b w') as Hback.
  { unfold accepted. intros w'. rewrite Hs1, Hd1. done. }
  destruct (decide (length (ch_queue (cs_channel w1)) < cap)%nat) as [Hroom|Hroom].
  { destruct (send_with_room w1 b Hw1 Hroom) as (c' & -> & Hc' & Hs'). eexists. split; [done|].
    apply Hback. split; [done|]. by left. }
  pose proof (ch_bound _ Hw1) as Hb.
  rewrite (ch_send_full _ b Hw1); [|lia].
  destruct (consume_same g1 (with_channel (cs_channel w1) w1) Hw1) as (Hw2 & Hs2 & Hd2 & _).
  set (w2 := consume g1 _) in *.
  assert (stream w2 = stream w1 /\ cs_dropped w2 = cs_dropped w1) as [Hs2' Hd2'] by done.
  destruct (ch_queue (cs_channel w2)) as [|old q] eqn:Hq2.
  - rewrite (ch_recv_none _ Hw2 Hq2).
    destruct (consume_same g2 (with_channel (cs_channel w2) w2) Hw2) as (Hw3 & Hs3 & Hd3 & Hl3).
    set (w3 := consume g2 _) in *. simpl in Hl3. rewrite Hq2 in Hl3. simpl in Hl3.
    destruct (send_with_room w3 b Hw3) as (c' & -> & Hc' & Hs'); [lia|].
    eexists. split; [done|]. apply Hback. split; [done|]. left.
    split; [|simpl; rewrite Hd3; simpl; congruence]. rewrite Hs', Hs3. unfold stream in *. simpl. by rewrite Hs2'.
  - destruct (ch_recv_some _ _ _ Hw2 Hq2) as (c3 & -> & Hc3 & Hq3).
    destruct (consume_same g2 (drop_one (with_channel c3 w2)) Hc3) as (Hw4 & Hs4 & Hd4 & Hl4).
    set (w4 := consume g2 _) in *. simpl in Hl4. rewrite Hq3 in Hl4.
    pose proof (ch_bound _ Hw2) as Hb2. rewrite Hq2 in Hb2. simpl in Hb2.
    destruct (send_with_room w4 b Hw4) as (c' & -> & Hc' & Hs'); [lia|].
    eexists. split; [done|]. apply Hback. split; [done|]. right.
    exists (cs_taken w2), old, q. split_and!.
    + rewrite <- Hs2'. unfold stream. by rewrite Hq2.
    + rewrite Hs', Hs4. unfold stream. simpl. by rewrite Hq3, app_assoc.
    + simpl. rewrite Hd4. simpl. by rewrite Hd2'.
Qed.

(** From [w] to [w'] the blocks [bs] were offered: nothing is reordered, what is
    missing is counted, and the newest block is still there. *)
Definition thinned (w w' : CaptureSide (C := C)) (bs : list PcmBlock) : Prop :=
  held w' /\ stream w' `sublist_of` stream w ++ bs /\
  cs_dropped w' = wrapping_add 64 (cs_dropped w)
                    (Z.of_nat (length (stream w ++ bs)) - Z.of_nat (length (stream w'))) /\
  last (stream w') = last (stream w ++ bs).

Lemma thinned_same w w' : cs_dropped w ∈u 64 -> same_stream w w' -> thinned w w' [].
Proof.
  intros Hd (H1 & H2 & H3 & _). unfold thinned. rewrite H2, H3, app_nil_r, Z.sub_diag.
  split_and!; [done|done| |done]. unfold wrapping_add. by rewrite Z.add_0_r, wrap_small.
Qed.

Lemma accepted_thinned w b w' : cs_dropped w ∈u 64 -> accepted w b w' -> thinned w w' [b].
Proof.
  intros Hd [Hw' [[Hs Hdr]|(kept & old & kept' & Hs & Hs' & Hdr)]]; unfold thinned.
  - rewrite Hs, Hdr, Z.sub_diag. split_and!; [done|done| |done].
    unfold wrapping_add. by rewrite Z.add_0_r, wrap_small.
  - rewrite Hs, Hs', Hdr. split_and!; [done| | |].
    + rewrite <- app_assoc. simpl. apply sublist_app; [done|]. by apply sublist_cons.
    + f_equal. rewrite !length_app. simpl. lia.
    + rewrite (app_assoc kept), !last_snoc. done.
Qed.

Lemma thinned_trans w w1 w' bs bs' :
  thinned w w1 bs -> thinned w1 w' bs' -> thinned w w' (bs ++ bs').
Proof.
  intros (H1 & H2 & H3 & H4) (G1 & G2 & G3 & G4). unfold thinned. split_and!; [done| | |].
  - etrans; [exact G2|]. rewrite app_assoc. by apply sublist_app.
  - rewrite G3, H3. unfold wrapping_add. rewrite wrap_add_l. f_equal. rewrite !length_app. lia.
  - rewrite G4, app_assoc, last_app, (last_app (stream w ++ bs)), H4. done.
Qed.

Lemma thinned_dropped w w' bs : thinned w w' bs -> cs_dropped w' ∈u 64.
Proof. intros (_ & _ & -> & _). by apply wrapping_add_range. Qed.

Lemma enqueue_all_thinned bs w :
  (1 <= cap)%nat -> held w -> cs_dropped w ∈u 64 -> thinned w (enqueue_all w bs) bs.
Proof.
  intros Hcap. revert w. induction bs as [|b bs IH]; intros w Hw Hd; simpl.
  - by apply thinned_same.
  - destruct (enqueue_accepted w b Hcap Hw) as (w' & -> & Ha). simpl.
    pose proof (accepted_thinned _ _ _ Hd Ha) as Ht.
    change (b :: bs) with ([b] ++ bs). eapply thinned_trans; [exact Ht|].
    apply IH; [apply Ht | by eapply thinned_dropped].
Qed.

End capture_laws.

(** ** The assembler *)

Lemma block_samples_pos : (0 < PCM_BLOCK_SAMPLES)%nat.
Proof. by apply Nat.ltb_lt. Qed.

#[local] Opaque PCM_BLOCK_SAMPLES.

Section assembler.
Context {C : Type} `{!BoundedChannel C}.
Implicit Types w : CaptureSide (C := C).

(** From [a] and [w] the samples [xs] make the blocks [bs], all offered to the
    queue; the rest is in the unfinished block. *)
Definition assembled (a : BlockAssembler) (xs : list Z) (bs : list PcmBlock) (a' : BlockAssembler) : Prop :=
  assembler_ok a' /\ made (ba_timestamp a) bs /\
  samples_in bs ++ unfinished a' = unfinished a ++ xs /\
  ba_timestamp a' = time_after (ba_timestamp a) (length bs).

Lemma assembled_nil a : assembler_ok a -> assembled a [] [] a.
Proof.
  intros Ha. split_and!; [done|done|by rewrite app_nil_r|].
  destruct Ha as (_ & _ & Ht). unfold time_after, wrapping_add. simpl. by rewrite Z.add_0_r, wrap_small.
Qed.

Lemma assembled_trans a a1 a' xs xs' bs bs' :
  assembler_ok a -> assembled a xs bs a1 -> assembled a1 xs' bs' a' -> assembled a (xs ++ xs') (bs ++ bs') a'.
Proof.
  intros (_ & _ & Ht) (H1 & H2 & H3 & H4) (G1 & G2 & G3 & G4). split_and!; [done| | |].
  - apply made_app; [done..|]. by rewrite <- H4.
  - by rewrite samples_in_app, <- app_assoc, G3, app_assoc, H3, app_assoc.
  - rewrite G4, H4, length_app. unfold time_after, wrapping_add. rewrite wrap_add_l. f_equal. lia.
Qed.

Lemma push_one_spec a x w :
  assembler_ok a ->
  exists a' bs, push_one a x w = Some (a', enqueue_all w bs) /\ assembled a [x] bs a'.
Proof.
  intros (Hl & Hf & Ht). unfold push_one. rewrite decide_True by lia.
  assert (take (S (ba_filled a)) (<[ba_filled a:=x]> (ba_samples a)) = unfinished a ++ [x]) as Htake.
  { apply take_insert_here. lia. }
  destruct (Nat.eqb_spec (S (ba_filled a)) PCM_BLOCK_SAMPLES) as [Heq|Hne]; cbv beta iota delta [negb].
  - eexists _, [mkPcmBlock _ _]. split; [done|]. rewrite Heq, take_ge in Htake by (rewrite length_insert; lia).
    split_and!.
    + split_and!; [done|apply block_samples_pos|by apply wrapping_add_range].
    + split_and!; [|done|done]. unfold block_ok. simpl. by rewrite length_insert.
    + unfold unfinished at 1. simpl. by rewrite !app_nil_r.
    + done.
  - eexists _, []. split; [done|]. split_and!.
    + split_and!; simpl; [by rewrite length_insert|lia|done].
    + done.
    + unfold unfinished at 1. simpl. exact Htake.
    + simpl. unfold time_after, wrapping_add. simpl. by rewrite Z.add_0_r, wrap_small.
Qed.

Lemma enqueue_all_app w bs bs' : enqueue_all w (bs ++ bs') = enqueue_all (enqueue_all w bs) bs'.
Proof. apply foldl_app. Qed.

Lemma push_samples_spec a xs w :
  assembler_ok a ->
  exists a' bs, push_samples a xs w = Some (a', enqueue_all w bs) /\ assembled a xs bs a'.
Proof.
  revert a w. induction xs as [|x xs IH]; intros a w Ha; simpl.
  - exists a, []. split; [done|by apply assembled_nil].
  - destruct (push_one_spec a x w Ha) as (a1 & bs & -> & H1). simpl.
    destruct (IH a1 (enqueue_all w bs)) as (a' & bs' & -> & H2); [apply H1|].
    exists a', (bs ++ bs'). split; [by rewrite enqueue_all_app|].
    change (x :: xs) with ([x] ++ xs). by eapply assembled_trans.
Qed.

Lemma push_silence_samples a n w : push_silence a n w = push_samples a (replicate n 0) w.
Proof.
  revert a w. induction n as [|n IH]; intros a w; simpl; [done|].
  destruct (push_one a 0 w) as [[a1 w1]|]; [|done]. simpl. apply IH.
Qed.

(** The samples a buffer stands for. *)
Definition buffer_samples (b : device_buffer) : list Z :=
  match b with
  | SilentBuffer frames => replicate (frames * Z.to_nat CHANNELS) 0
  | AudioBuffer samples => samples
  end.

Lemma read_buffers_spec a bufs w :
  assembler_ok a ->
  exists a' bs, read_buffers a bufs w = Some (a', enqueue_all w bs) /\
    assembled a (bufs ≫= buffer_samples) bs a'.
Proof.
  revert a w. induction bufs as [|b bufs IH]; intros a w Ha; simpl.
  - exists a, []. split; [done|by apply assembled_nil].
  - assert (read_buffer a b w = push_samples a (buffer_samples b) w) as ->.
    { destruct b; [apply push_silence_samples|done]. }
    destruct (push_samples_spec a (buffer_samples b) w Ha) as (a1 & bs & -> & H1). simpl.
    destruct (IH a1 (enqueue_all w bs)) as (a' & bs' & -> & H2); [apply H1|].
    exists a', (bs ++ bs'). split; [by rewrite enqueue_all_app|]. by eapply assembled_trans.
Qed.
End assembler.

(** ** The loop *)

(** Where an iteration leaves the loop, and the samples it assembles. *)
Definition ending (it : iteration) : capture_end :=
  if it_stop it || default false (it_closed it) then Stopped
  else if it_device_failed it then Failed
  else match it_wait it with WaitFailed => Failed | _ => GoOn end.

Definition heard (it : iteration) : list Z :=
  if it_stop it || default false (it_closed it) then []
  else (it_buffers it ≫= buffer_samples) ++
       (if it_device_failed it then []
        else match it_wait it with
             | EventTimeout => replicate (PCM_BLOCK_SAMPLES * SILENCE_FALLBACK_BLOCKS) 0
             | _ => []
             end).

Fixpoint heard_all (its : list (iteration * nat)) : list Z :=
  match its with
  | [] => []
  | (it, _) :: its' => heard it ++ match ending it with GoOn => heard_all its' | _ => [] end
  end.

(** The gate stayed open at every iteration. *)
Definition uninterrupted (its : list (iteration * nat)) : Prop := Forall (fun i => it_closed i.1 = None) its.

Lemma capacity_pos : (1 <= FRAME_QUEUE_CAPACITY)%nat.
Proof. done. Qed.

Section loop.
Context {C : Type} `{!BoundedChannel C, L : !BoundedChannelLaws C FRAME_QUEUE_CAPACITY}.

Definition reopened (a : BlockAssembler) (w : CaptureSide (C := C)) (it : iteration) : BlockAssembler * CaptureSide :=
  match it_closed it with
  | Some _ => (mkBlockAssembler (ba_timestamp a) 0 (ba_samples a), drain (S FRAME_QUEUE_CAPACITY) w)
  | None => (a, w)
  end.

(** The loop body after the gate, for an iteration that is not stopped. *)
Lemma iteration_spec a (w : CaptureSide (C := C)) it :
  assembler_ok a -> it_stop it = false ->
  exists a' bs, capture_iteration a w it = Some (a', enqueue_all (reopened a w it).2 bs, ending it) /\
    assembled (reopened a w it).1 (heard it) bs a'.
Proof.
  intros Ha Hstop. unfold capture_iteration, ending, heard. rewrite Hstop.
  change (match it_closed it with
          | Some _ => (mkBlockAssembler (ba_timestamp a) 0 (ba_samples a), drain (S FRAME_QUEUE_CAPACITY) w)
          | None => (a, w) end) with (reopened a w it).
  assert (assembler_ok (reopened a w it).1) as Ha0.
  { unfold reopened. destruct (it_closed it); [|done]. destruct Ha as (H1 & H2 & H3).
    split_and!; [done|simpl; lia|done]. }
  destruct (reopened a w it) as [a0 w0]. simpl in *. destruct (default false (it_closed it)).
  { exists a0, []. split; [done|]. by apply assembled_nil. }
  destruct (read_buffers_spec a0 (it_buffers it) w0 Ha0) as (a1 & bs & -> & H1). cbn [mbind option_bind].
  destruct (it_device_failed it); [exists a1, bs; rewrite app_nil_r; done|].
  destruct (it_wait it); [exists a1, bs; rewrite app_nil_r; done| |exists a1, bs; rewrite app_nil_r; done].
  rewrite push_silence_samples.
  destruct (push_samples_spec a1 (replicate (PCM_BLOCK_SAMPLES * SILENCE_FALLBACK_BLOCKS) 0) (enqueue_all w0 bs))
    as (a' & bs' & -> & H2); [apply H1|].
  exists a', (bs ++ bs'). split; [by rewrite enqueue_all_app|]. by eapply assembled_trans.
Qed.

(** The loop while the gate stays open. *)
Lemma uninterrupted_run a (w : CaptureSide (C := C)) its :
  assembler_ok a -> held w -> cs_dropped w ∈u 64 -> uninterrupted its ->
  exists a' w' e bs, capture_loop a w its = Some (a', w', e) /\
    assembled a (heard_all its) bs a' /\ thinned w w' bs.
Proof.
  revert a w. induction its as [|[it n] its IH]; intros a w Ha Hw Hd Hopen; simpl.
  - exists a, w, GoOn, []. split_and!; [done|by apply assembled_nil|by apply thinned_same].
  - apply Forall_cons in Hopen as [Hc Hopen]. simpl in Hc.
    destruct (it_stop it) eqn:Hstop.
    { unfold capture_iteration, heard, ending. rewrite Hstop. simpl.
      exists a, w, Stopped, []. split_and!; [done|by apply assembled_nil|by apply thinned_same]. }
    destruct (iteration_spec a w it Ha Hstop) as (a1 & bs & -> & H1).
    unfold reopened in *. rewrite Hc in *. simpl in H1 |- *.
    pose proof (enqueue_all_thinned bs w capacity_pos Hw Hd) as Ht.
    destruct (ending it);
      [|exists a1, (enqueue_all w bs); eexists _, bs; rewrite app_nil_r; by split_and!..].
    pose proof (thinned_dropped _ _ _ Ht) as Hd1.
    pose proof (consume_same n _ (proj1 Ht)) as Hs.
    pose proof (thinned_same _ _ Hd1 Hs) as Ht'.
    destruct (IH a1 (consume n (enqueue_all w bs))) as (a' & w' & e & bs' & -> & H2 & H3);
      [apply H1|apply Ht'|by eapply thinned_dropped|done|].
    exists a', w', e, (bs ++ bs'). split; [done|]. split; [by eapply assembled_trans|].
    eapply thinned_trans; [exact Ht|]. change bs' with ([] ++ bs'). by eapply thinned_trans.
Qed.

Lemma drain_spec fuel (w : CaptureSide (C := C)) :
  held w -> (length (ch_queue (cs_channel w)) < fuel)%nat ->
  held (drain fuel w) /\ stream (drain fuel w) = cs_taken w /\ cs_dropped (drain fuel w) = cs_dropped w.
Proof.
  revert w. induction fuel as [|fuel IH]; intros w Hw Hl; simpl; [lia|].
  destruct (ch_queue (cs_channel w)) as [|b q] eqn:Hq.
  - rewrite (ch_recv_none _ Hw Hq). unfold stream. simpl. rewrite Hq. by rewrite app_nil_r.
  - destruct (ch_recv_some _ _ _ Hw Hq) as (c' & -> & Hc' & Hq').
    apply (IH (with_channel c' w)); [done|]. simpl in *. rewrite Hq'. lia.
Qed.

(** The loop in general: [lost] blocks were thrown away at closed gates. *)
Definition progress (a : BlockAssembler) (w : CaptureSide (C := C)) (bs : list PcmBlock) (lost : nat)
  (a' : BlockAssembler) (w' : CaptureSide) : Prop :=
  assembler_ok a' /\ held w' /\ made (ba_timestamp a) bs /\
  ba_timestamp a' = time_after (ba_timestamp a) (length bs) /\
  stream w' `sublist_of` stream w ++ bs /\
  cs_dropped w' = wrapping_add 64 (cs_dropped w)
    (Z.of_nat (length (stream w ++ bs)) - Z.of_nat (length (stream w')) - Z.of_nat lost).

Lemma progress_of a xs w bs a' w' :
  assembled a xs bs a' -> thinned w w' bs -> progress a w bs 0 a' w'.
Proof.
  intros (H1 & H2 & _ & H4) (G1 & G2 & G3 & _). split_and!; [done..|]. by rewrite Z.sub_0_r.
Qed.

Lemma progress_trans a w bs l a1 w1 bs' l' a' w' :
  assembler_ok a -> progress a w bs l a1 w1 -> progress a1 w1 bs' l' a' w' ->
  progress a w (bs ++ bs') (l + l') a' w'.
Proof.
  intros (_ & _ & Ht) (H1 & H2 & H3 & H4 & H5 & H6) (G1 & G2 & G3 & G4 & G5 & G6). split_and!; [done|done| | | |].
  - apply made_app; [done..|]. by rewrite <- H4.
  - rewrite G4, H4, length_app. unfold time_after, wrapping_add. rewrite wrap_add_l. f_equal. lia.
  - etrans; [exact G5|]. rewrite app_assoc. by apply sublist_app.
  - rewrite G6, H6. unfold wrapping_add. rewrite wrap_add_l. f_equal. rewrite !length_app. lia.
Qed.

Lemma reopened_progress a (w : CaptureSide (C := C)) it :
  assembler_ok a -> held w -> cs_dropped w ∈u 64 ->
  exists lost, progress a w [] lost (reopened a w it).1 (reopened a w it).2.
Proof.
  intros Ha Hw Hd. unfold reopened. destruct (it_closed it) as [b|].
  - pose proof (ch_bound _ Hw) as Hb.
    destruct (drain_spec (S FRAME_QUEUE_CAPACITY) w Hw) as (H1 & H2 & H3); [lia|].
    exists (length (ch_queue (cs_channel w))). cbn [fst snd]. destruct Ha as (Ha1 & Ha2 & Ha3).
    split_and!; [by split_and!; [|simpl; lia|]|done|done| | |].
    + unfold time_after, wrapping_add. simpl. by rewrite Z.add_0_r, wrap_small.
    + rewrite H2. unfold stream. rewrite app_nil_r. by apply sublist_inserts_r.
    + rewrite H2, H3. unfold stream. rewrite app_nil_r, length_app. unfold wrapping_add.
      rewrite wrap_small; [lia|]. by replace (_ + _) with (cs_dropped w) by lia.
  - exists 0%nat. eapply progress_of; [by apply assembled_nil|by apply thinned_same].
Qed.

Lemma interrupted_run a (w : CaptureSide (C := C)) its :
  assembler_ok a -> held w -> cs_dropped w ∈u 64 ->
  exists a' w' e bs lost, capture_loop a w its = Some (a', w', e) /\ progress a w bs lost a' w'.
Proof.
  revert a w. induction its as [|[it n] its IH]; intros a w Ha Hw Hd; simpl.
  - exists a, w, GoOn, [], 0%nat. split; [done|].
    eapply progress_of; [by apply assembled_nil|by apply thinned_same].
  - destruct (it_stop it) eqn:Hstop.
    { unfold capture_iteration. rewrite Hstop. exists a, w, Stopped, [], 0%nat. split; [done|].
      eapply progress_of; [by apply assembled_nil|by apply thinned_same]. }
    destruct (iteration_spec a w it Ha Hstop) as (a1 & bs & -> & H1).
    destruct (reopened_progress a w it Ha Hw Hd) as (lost & Hr).
    destruct (reopened a w it) as [a0 w0]. simpl in *.
    assert (cs_dropped w0 ∈u 64) as Hd0.
    { destruct Hr as (_ & _ & _ & _ & _ & ->). by apply wrapping_add_range. }
    assert (held w0) as Hw0 by apply Hr.
    pose proof (enqueue_all_thinned bs w0 capacity_pos Hw0 Hd0) as Ht.
    pose proof (progress_trans _ _ _ _ _ _ _ _ _ _ Ha Hr (progress_of _ _ _ _ _ _ H1 Ht)) as Hp.
    simpl in Hp. rewrite Nat.add_0_r in Hp.
    destruct (ending it); [|by eexists _, _, _, bs, lost..].
    pose proof (thinned_dropped _ _ _ Ht) as Hd1.
    pose proof (thinned_same _ _ Hd1 (consume_same n _ (proj1 Ht))) as Ht'.
    assert (assembler_ok a1) as Ha1 by apply H1.
    destruct (IH a1 (consume n (enqueue_all w0 bs))) as (a' & w' & e & bs' & lost' & -> & H2);
      [done|apply Ht'|by eapply thinned_dropped|].
    exists a', w', e, (bs ++ bs'), (lost + lost')%nat. split; [done|].
    eapply progress_trans; [done|exact Hp|]. change bs' with ([] ++ bs').
    change lost' with (0 + lost')%nat. eapply progress_trans; [done| |exact H2].
    eapply progress_of; [by apply assembled_nil|exact Ht'].
Qed.
End loop.

(** ** A concrete channel *)

Record Bounded : Type := mkBounded {
  bd_queue : list PcmBlock;
  bd_fits : (length bd_queue <=? FRAME_QUEUE_CAPACITY)%nat = true;
}.

Definition bounded (q : list PcmBlock) : option Bounded :=
  match decide ((length q <=? FRAME_QUEUE_CAPACITY)%nat = true) with
  | left H => Some (mkBounded q H)
  | right _ => None
  end.

#[export] Instance bounded_channel : BoundedChannel Bounded := {
  ch_try_send c b := match bounded (bd_queue c ++ [b]) with Some c' => (c', Sent) | None => (c, Full b) end;
  ch_try_recv c :=
    match bd_queue c with
    | [] => (c, Empty)
    | b :: q => match bounded q with Some c' => (c', Received b) | None => (c, Empty) end
    end;
}.

Lemma bounded_fits q : (length q <= FRAME_QUEUE_CAPACITY)%nat -> exists c, bounded q = Some c /\ bd_queue c = q.
Proof.
  intros Hq. unfold bounded. apply Nat.leb_le in Hq. destruct (decide _) as [H|H]; [|done]. by eexists.
Qed.

#[export] Instance bounded_laws : BoundedChannelLaws Bounded FRAME_QUEUE_CAPACITY.
Proof.
  refine {| ch_queue := bd_queue; ch_held := fun _ => True |}.
  - intros c _. apply Nat.leb_le, bd_fits.
  - intros c b _ Hr. destruct (bounded_fits (bd_queue c ++ [b])) as (c' & Hc & Hq).
    { rewrite length_app. simpl. lia. }
    exists c'. simpl. by rewrite Hc.
  - intros c b _ Hf. simpl. unfold bounded. destruct (decide _) as [H|H]; [|done].
    pose proof (proj1 (Nat.leb_le _ _) H) as H'. rewrite length_app in H'. simpl in H'. lia.
  - intros c b q _ Hq. pose proof (bd_fits c) as H. apply Nat.leb_le in H. rewrite Hq in H. simpl in H.
    destruct (bounded_fits q) as (c' & Hc & Hq'); [lia|]. exists c'. simpl. by rewrite Hq, Hc.
  - intros c _ Hq. simpl. by rewrite Hq.
Defined.

(** ** Properties *)

Section properties.
Context {C : Type} `{!BoundedChannel C, L : !BoundedChannelLaws C FRAME_QUEUE_CAPACITY}.

Lemma assembler_default_ok : assembler_ok assembler_default.
Proof.
  split_and!; [apply length_replicate|apply block_samples_pos|done].
Qed.

Lemma capture_open (c : C) gaps its :
  ch_held c -> ch_queue c = [] -> uninterrupted its ->
  exists a w e bs, capture_loop (capture_start c gaps).1 (capture_start c gaps).2 its = Some (a, w, e) /\
    made 0 bs /\ samples_in bs ++ unfinished a = heard_all its /\ thinned (capture_start c gaps).2 w bs /\
    stream (capture_start c gaps).2 = [].
Proof.
  intros Hc Hq Ho.
  destruct (uninterrupted_run (capture_start c gaps).1 (capture_start c gaps).2 its)
    as (a & w & e & bs & H1 & H2 & H3); [apply assembler_default_ok|done|done|done|].
  destruct H2 as (_ & Hm & Hx & _).
  exists a, w, e, bs. split_and!; [done|done|done|done|]. unfold stream. simpl. by rewrite Hq.
Qed.

(** C38. While transmission is on, the capture thread returns no panic; the
    blocks it makes are 10 ms each, consecutively stamped, and are together
    with the unfinished block exactly the samples it heard: those the device
    delivered, and 50 ms of silence for every wait that times out.  What
    the fan-out thread receives, or finds queued, are those blocks in order
    with some left out: the newest is never left out, at most one is queued,
    and the drop counter counts the missing ones. *)
Theorem capture_keeps_the_newest (c : C) (gaps : list (nat * nat)) (its : list (iteration * nat))
  (Hheld : ch_held c) (Hempty : ch_queue c = []) (Hopen : uninterrupted its) :
  exists a w e blocks,
    capture_loop (capture_start c gaps).1 (capture_start c gaps).2 its = Some (a, w, e) /\
    made 0 blocks /\ samples_in blocks ++ unfinished a = heard_all its /\
    stream w `sublist_of` blocks /\ last (stream w) = last blocks /\
    (length (ch_queue (cs_channel w)) <= FRAME_QUEUE_CAPACITY)%nat /\
    cs_dropped w = wrap 64 (Z.of_nat (length blocks) - Z.of_nat (length (stream w))).
Proof.
  destruct (capture_open c gaps its Hheld Hempty Hopen) as (a & w & e & bs & Hrun & Hm & Hx & Ht & Hs).
  destruct Ht as (Hw & Hsub & Hd & Hlast). rewrite Hs in *.
  exists a, w, e, bs. split_and!; [done|done|done|done|done|by apply ch_bound|done].
Qed.

(** When the fan-out thread kept up, so that nothing was counted as dropped,
    the blocks it receives are the whole capture, gapless from time 0 on: the
    form in which cutting them into packets is lossless. *)
Theorem undropped_capture_is_whole (c : C) (gaps : list (nat * nat)) (its : list (iteration * nat))
  (a : BlockAssembler) (w : CaptureSide) (e : capture_end)
  (Hheld : ch_held c) (Hempty : ch_queue c = []) (Hopen : uninterrupted its)
  (Hshort : Z.of_nat (length (heard_all its)) < 2 ^ 64)
  (Hrun : capture_loop (capture_start c gaps).1 (capture_start c gaps).2 its = Some (a, w, e))
  (Hdropped : cs_dropped w = 0) :
  capture 0 (stream w) /\ samples_in (stream w) ++ unfinished a = heard_all its.
Proof.
  destruct (capture_open c gaps its Hheld Hempty Hopen) as (a' & w' & e' & bs & Hrun' & Hm & Hx & Ht & Hs).
  rewrite Hrun in Hrun'. injection Hrun' as <- <- <-.
  destruct Ht as (Hw & Hsub & Hd & Hlast). rewrite Hs in *.
  assert (length (samples_in bs) = (960 * length bs)%nat) as Hlen by by eapply made_length.
  rewrite <- Hx, length_app, Hlen in Hshort.
  pose proof (sublist_length _ _ Hsub) as Hle. simpl in Hle.
  assert (stream w = bs) as ->.
  { apply sublist_eq_same_length; [done|]. rewrite Hdropped in Hd. unfold wrapping_add in Hd. simpl in Hd.
    rewrite wrap_small in Hd; [lia|]. split; lia. }
  split; [|done]. apply made_capture; [lia|lia|done].
Qed.

(** Over any history, with the transmission switched off and on again, the
    capture thread never panics, what it hands on are blocks with strictly
    consecutive stamps in order, and every block is handed on, counted as
    dropped, or thrown away at a closed gate. *)
Theorem capture_is_total_and_ordered (c : C) (gaps : list (nat * nat)) (its : list (iteration * nat))
  (Hheld : ch_held c) (Hempty : ch_queue c = []) :
  exists a w e blocks discarded,
    capture_loop (capture_start c gaps).1 (capture_start c gaps).2 its = Some (a, w, e) /\
    made 0 blocks /\ stream w `sublist_of` blocks /\
    cs_dropped w = wrap 64 (Z.of_nat (length blocks) - Z.of_nat (length (stream w)) - Z.of_nat discarded).
Proof.
  destruct (interrupted_run (capture_start c gaps).1 (capture_start c gaps).2 its)
    as (a & w & e & bs & lost & Hrun & Hp); [apply assembler_default_ok|done|done|].
  destruct Hp as (_ & _ & Hm & _ & Hsub & Hd).
  assert (stream (capture_start c gaps).2 = []) as Hs by (unfold stream; simpl; by rewrite Hempty).
  rewrite Hs in *. exists a, w, e, bs, lost. split_and!; done.
Qed.
End properties.

(** ** Witnesses *)

Definition empty_queue : Bounded := mkBounded [] eq_refl.

(** An open iteration that reads one buffer of [n] samples. *)
Definition listening (n : nat) (r : wait_result) : iteration :=
  mkIteration false None [AudioBuffer (replicate n 7); SilentBuffer 3] false r.

(** The device times out once; the fan-out thread keeps up or lags. *)
Definition lagging : list (iteration * nat) := [(listening 950 EventTimeout, 1%nat); (listening 960 Signalled, 0%nat)].
Definition prompt : list (iteration * nat) := [(listening 954 Signalled, 1%nat); (listening 960 Signalled, 1%nat)].
Definition switched : list (iteration * nat) :=
  [(listening 970 Signalled, 0%nat); (mkIteration false (Some false) [SilentBuffer 480] false Signalled, 1%nat);
   (mkIteration true None [] false Signalled, 0%nat)].

Lemma capture_keeps_the_newest_witness :
  exists a w e blocks,
    capture_loop (capture_start empty_queue [(1, 0)%nat]).1 (capture_start empty_queue [(1, 0)%nat]).2 lagging = Some (a, w, e) /\
    made 0 blocks /\ samples_in blocks ++ unfinished a = heard_all lagging /\
    stream w `sublist_of` blocks /\ last (stream w) = last blocks /\
    (length (ch_queue (cs_channel w)) <= FRAME_QUEUE_CAPACITY)%nat /\
    cs_dropped w = wrap 64 (Z.of_nat (length blocks) - Z.of_nat (length (stream w))).
Proof.
  apply (capture_keeps_the_newest empty_queue [(1, 0)%nat] lagging); [exact I|reflexivity|].
  repeat constructor.
Defined.

Definition prompt_run : option (BlockAssembler * CaptureSide * capture_end) :=
  capture_loop (capture_start empty_queue []).1 (capture_start empty_queue []).2 prompt.

Lemma prompt_run_undropped :
  match prompt_run with
  | Some (_, w, _) => cs_dropped w = 0 /\ length (stream w) = 2%nat
  | None => False
  end.
Proof. vm_compute. by split. Qed.

Lemma undropped_capture_is_whole_witness :
  exists a w e, prompt_run = Some (a, w, e) /\ length (stream w) = 2%nat /\
    capture 0 (stream w) /\ samples_in (stream w) ++ unfinished a = heard_all prompt.
Proof.
  pose proof prompt_run_undropped as H. destruct prompt_run as [[[a w] e]|] eqn:Hrun; [|destruct H].
  exists a, w, e. split; [reflexivity|]. split; [apply H|].
  apply (undropped_capture_is_whole empty_queue [] prompt a w e); [exact I|reflexivity| | |exact Hrun|apply H].
  - repeat constructor.
  - apply Z.ltb_lt. vm_compute. reflexivity.
Defined.

Lemma capture_is_total_and_ordered_witness :
  exists a w e blocks discarded,
    capture_loop (capture_start empty_queue []).1 (capture_start empty_queue []).2 switched = Some (a, w, e) /\
    made 0 blocks /\ stream w `sublist_of` blocks /\
    cs_dropped w = wrap 64 (Z.of_nat (length blocks) - Z.of_nat (length (stream w)) - Z.of_nat discarded).
Proof. apply (capture_is_total_and_ordered empty_queue [] switched); [exact I|reflexivity]. Defined.

(** The interrupted capture: its first block is queued and thrown away, the
    second, of silence, is handed on with the next stamp. *)
Example switched_run :
  match capture_loop (capture_start empty_queue []).1 (capture_start empty_queue []).2 switched with
  | Some (a, w, e) => map pb_timestamp (stream w) = [480] /\ cs_dropped w = 0 /\ e = Stopped
  | None => False
  end.
Proof. vm_compute. done. Qed.
