(* ===== verification/Hub.v ===== *)
(** * Hub: the shared, reference-counted capture

    [windows-server/src/application/hub.rs].  A capture run is named by a
    number, which stands for its cancellation token, its two threads and its
    broadcast channel.  The machine records which threads live and which tokens
    are cancelled; the lock of the hub makes [subscribe] and the first half of
    [unsubscribe] atomic, the rest of [unsubscribe] and the threads interleave
    with everything. *)

From Stdlib Require Import ZArith Lia.
From S2P Require Import Prelude.

(** ** The machine *)

Record Machine : Type := mkMachine {
  m_next : nat;
  m_cancelled : gset nat;
  m_capturing : gset nat;
  m_publishing : gset nat;
}.

Definition machine_start : Machine := mkMachine 0 ∅ ∅ ∅.

Definition cancel_token (run : nat) (m : Machine) : Machine :=
  mkMachine (m_next m) ({[run]} ∪ m_cancelled m) (m_capturing m) (m_publishing m).
Definition spawn_capture (run : nat) (m : Machine) : Machine :=
  mkMachine (m_next m) (m_cancelled m) ({[run]} ∪ m_capturing m) (m_publishing m).
Definition spawn_publisher (run : nat) (m : Machine) : Machine :=
  mkMachine (m_next m) (m_cancelled m) (m_capturing m) ({[run]} ∪ m_publishing m).
Definition end_capture (run : nat) (m : Machine) : Machine :=
  mkMachine (m_next m) (m_cancelled m) (m_capturing m ∖ {[run]}) (m_publishing m).
Definition end_publisher (run : nat) (m : Machine) : Machine :=
  mkMachine (m_next m) (m_cancelled m) (m_capturing m) (m_publishing m ∖ {[run]}).
Definition fresh_run (m : Machine) : Machine * nat :=
  (mkMachine (S (m_next m)) (m_cancelled m) (m_capturing m) (m_publishing m), m_next m).

(** ** The hub *)

Record CaptureHandle : Type := mkCaptureHandle { h_run : nat }.

Inductive HubError : Type := CaptureThreadNotStarted | PublisherNotStarted.

Record HubState : Type := mkHubState {
  hub_capture : option CaptureHandle;
  hub_subscribers : Z;
}.

(** [hub_released]: captures that an [unsubscribe] has taken out of the state
    and not yet cancelled. *)
Record CaptureHub : Type := mkHub {
  hub_state : HubState;
  hub_released : list CaptureHandle;
  hub_machine : Machine;
}.

Definition hub_new : CaptureHub := mkHub (mkHubState None 0) [] machine_start.

Definition with_machine (m : Machine) (h : CaptureHub) : CaptureHub := mkHub (hub_state h) (hub_released h) m.

(** [start_wasapi_capture]; the arguments say whether each thread could be
    started. *)
Definition start_wasapi_capture (capture_spawns publisher_spawns : bool) (m : Machine)
  : Machine * result HubError CaptureHandle :=
  let '(m, run) := fresh_run m in
  if capture_spawns then
    let m := spawn_capture run m in
    if publisher_spawns then (spawn_publisher run m, Ok (mkCaptureHandle run))
    else (m, Err PublisherNotStarted)
  else (m, Err CaptureThreadNotStarted).

(** [subscribe]; the answer is the run whose blocks the receiver gets. *)
Definition subscribe (capture_spawns publisher_spawns : bool) (h : CaptureHub)
  : CaptureHub * result HubError nat :=
  let '(m, capture) :=
    match hub_capture (hub_state h) with
    | Some capture => (hub_machine h, Ok capture)
    | None => start_wasapi_capture capture_spawns publisher_spawns (hub_machine h)
    end in
  match capture with
  | Err e => (with_machine m h, Err e)
  | Ok capture =>
      let state := mkHubState (Some capture) (wrapping_add 64 (hub_subscribers (hub_state h)) 1) in
      (mkHub state (hub_released h) m, Ok (h_run capture))
  end.

(** [unsubscribe] up to the end of its locked section. *)
Definition unsubscribe (h : CaptureHub) : CaptureHub :=
  let subscribers := saturating_sub (hub_subscribers (hub_state h)) 1 in
  if 0 <? subscribers
  then mkHub (mkHubState (hub_capture (hub_state h)) subscribers) (hub_released h) (hub_machine h)
  else mkHub (mkHubState None subscribers)
         (hub_released h ++ option_list (hub_capture (hub_state h))) (hub_machine h).

(** The rest: [capture.stop.cancel()]; the join ends with the capture thread. *)
Definition cancel_released (h : CaptureHub) : CaptureHub :=
  match hub_released h with
  | [] => h
  | capture :: released => mkHub (hub_state h) released (cancel_token (h_run capture) (hub_machine h))
  end.

(** [Drop]: the last clone is gone, so no call is under way. *)
Definition hub_drop (h : CaptureHub) : CaptureHub :=
  match hub_capture (hub_state h) with
  | Some capture => mkHub (mkHubState None (hub_subscribers (hub_state h))) (hub_released h)
                      (cancel_token (h_run capture) (hub_machine h))
  | None => h
  end.

(** The capture thread returns: when its token is cancelled, or with an error,
    and then it cancels the token itself. *)
Definition capture_thread_ends (run : nat) (failed : bool) (m : Machine) : Machine :=
  if decide (run ∈ m_capturing m) then
    if failed then cancel_token run (end_capture run m)
    else if decide (run ∈ m_cancelled m) then end_capture run m else m
  else m.

(** The fan-out thread returns when it finds its token cancelled. *)
Definition publisher_ends (run : nat) (m : Machine) : Machine :=
  if decide (run ∈ m_cancelled m) then end_publisher run m else m.

(** ** Histories *)

Inductive hub_event : Type :=
| Subscribe (capture_spawns publisher_spawns : bool)
| Unsubscribe
| CancelReleased
| CaptureEnds (run : nat) (failed : bool)
| PublisherEnds (run : nat).

Definition hub_step (h : CaptureHub) (ev : hub_event) : CaptureHub :=
  match ev with
  | Subscribe c p => (subscribe c p h).1
  | Unsubscribe => unsubscribe h
  | CancelReleased => cancel_released h
  | CaptureEnds run failed => with_machine (capture_thread_ends run failed (hub_machine h)) h
  | PublisherEnds run => with_machine (publisher_ends run (hub_machine h)) h
  end.

Definition hub_run (h : CaptureHub) (evs : list hub_event) : CaptureHub := foldl hub_step h evs.

(** ** Specification: a resource with users

    What the hub promises to its sessions: the first user gets a fresh
    resource, later ones share it, and it is given up with the last user. *)

Inductive Shared : Type :=
| Idle
| Used (run : nat) (users : positive).

Definition acquire (fresh : nat) (s : Shared) : Shared :=
  match s with
  | Idle => Used fresh 1
  | Used run users => Used run (Pos.succ users)
  end.

Definition give_back (s : Shared) : Shared :=
  match s with
  | Idle => Idle
  | Used run users => if decide (users = 1%positive) then Idle else Used run (Pos.pred users)
  end.

(** What the hub's state shows of it. *)
Definition shared_of (s : HubState) : option Shared :=
  match hub_capture s, hub_subscribers s with
  | None, 0 => Some Idle
  | Some capture, Zpos users => Some (Used (h_run capture) users)
  | _, _ => None
  end.

(** The specification of each event; [fresh] is the next run's number. *)
Definition shared_step (fresh : nat) (s : Shared) (ev : hub_event) : Shared :=
  match ev with
  | Subscribe capture_spawns publisher_spawns =>
      match s with
      | Idle => if capture_spawns && publisher_spawns then acquire fresh s else s
      | Used _ _ => acquire fresh s
      end
  | Unsubscribe => give_back s
  | _ => s
  end.

Definition users (s : Shared) : Z := match s with Idle => 0 | Used _ users => Zpos users end.

Fixpoint shared_run (fresh : nat) (s : Shared) (evs : list hub_event) : nat * Shared :=
  match evs with
  | [] => (fresh, s)
  | ev :: evs' =>
      let fresh' := match s, ev with Idle, Subscribe _ _ => S fresh | _, _ => fresh end in
      shared_run fresh' (shared_step fresh s ev) evs'
  end.

(** The runs handed out. *)
Fixpoint granted_runs (fresh : nat) (s : Shared) (evs : list hub_event) : list nat :=
  match evs with
  | [] => []
  | ev :: evs' =>
      let fresh' := match s, ev with Idle, Subscribe _ _ => S fresh | _, _ => fresh end in
      (match s, ev with Idle, Subscribe true true => [fresh] | _, _ => [] end) ++
      granted_runs fresh' (shared_step fresh s ev) evs'
  end.

(** The answer of a subscription. *)
Definition shared_answer (fresh : nat) (s : Shared) (capture_spawns publisher_spawns : bool)
  : result HubError nat :=
  match s with
  | Used run _ => Ok run
  | Idle =>
      if capture_spawns then if publisher_spawns then Ok fresh else Err PublisherNotStarted
      else Err CaptureThreadNotStarted
  end.

(** ** Refinement *)

Lemma shared_of_idle s : shared_of s = Some Idle <-> hub_capture s = None /\ hub_subscribers s = 0.
Proof.
  unfold shared_of. destruct s as [[c|] [|n|n]]; simpl; naive_solver.
Qed.

Lemma shared_of_used s run n :
  shared_of s = Some (Used run n) <-> hub_capture s = Some (mkCaptureHandle run) /\ hub_subscribers s = Zpos n.
Proof.
  unfold shared_of. destruct s as [[[c]|] [|k|k]]; simpl; naive_solver.
Qed.

Lemma machine_of_event h ev :
  m_next (hub_machine (hub_step h ev)) =
  match hub_capture (hub_state h), ev with
  | None, Subscribe _ _ => S (m_next (hub_machine h))
  | _, _ => m_next (hub_machine h)
  end.
Proof.
  destruct h as [[capture n] released m], ev as [c p| | |run failed|run]; simpl.
  - unfold subscribe, start_wasapi_capture. simpl. by destruct capture, c, p.
  - unfold unsubscribe. simpl. by destruct (0 <? _), capture.
  - destruct released; by destruct capture.
  - unfold capture_thread_ends. repeat case_decide; destruct failed, capture; done.
  - unfold publisher_ends. case_decide; by destruct capture.
Qed.

Lemma hub_step_refines h s ev :
  shared_of (hub_state h) = Some s -> users s + 1 < 2 ^ 64 ->
  shared_of (hub_state (hub_step h ev)) = Some (shared_step (m_next (hub_machine h)) s ev).
Proof.
  intros Hs Hlt. destruct s as [|run n]; simpl in Hlt.
  - pose proof (proj1 (shared_of_idle _) Hs) as [Hc Hn].
    destruct ev as [c p| | |r f|r]; simpl.
    + unfold subscribe. rewrite Hc, Hn. destruct c, p; simpl; [done|by rewrite Hs..].
    + unfold unsubscribe. by rewrite Hc, Hn.
    + unfold cancel_released. by destruct (hub_released h).
    + done.
    + done.
  - pose proof (proj1 (shared_of_used _ _ _) Hs) as [Hc Hn].
    destruct ev as [c p| | |r f|r]; simpl.
    + unfold subscribe. rewrite Hc, Hn. apply shared_of_used. simpl. split; [done|].
      unfold wrapping_add. rewrite wrap_small by (split; lia). lia.
    + unfold unsubscribe, saturating_sub. rewrite Hc, Hn. case_decide as H1.
      * subst n. done.
      * destruct (Z.ltb_spec 0 (Z.max 0 (Zpos n - 1))) as [Hp|Hp]; [|lia].
        apply shared_of_used. simpl. split; [done|]. lia.
    + unfold cancel_released. by destruct (hub_released h).
    + done.
    + done.
Qed.

Lemma shared_step_users fresh s ev : users (shared_step fresh s ev) <= users s + 1.
Proof.
  destruct s as [|run n], ev as [[] []| | | |]; simpl; try lia; repeat case_decide; simpl; lia.
Qed.

Lemma hub_run_refines evs h s :
  shared_of (hub_state h) = Some s -> users s + Z.of_nat (length evs) < 2 ^ 64 ->
  shared_of (hub_state (hub_run h evs)) = Some (shared_run (m_next (hub_machine h)) s evs).2 /\
  m_next (hub_machine (hub_run h evs)) = (shared_run (m_next (hub_machine h)) s evs).1.
Proof.
  revert h s. induction evs as [|ev evs IH]; intros h s Hs Hlt; [done|].
  simpl in Hlt. pose proof (hub_step_refines h s ev Hs ltac:(lia)) as Hs'.
  pose proof (shared_step_users (m_next (hub_machine h)) s ev).
  destruct (IH _ _ Hs' ltac:(lia)) as [H1 H2]. simpl in *.
  rewrite machine_of_event in H1, H2.
  assert (match hub_capture (hub_state h), ev with
          | None, Subscribe _ _ => S (m_next (hub_machine h)) | _, _ => m_next (hub_machine h) end =
          match s, ev with Idle, Subscribe _ _ => S (m_next (hub_machine h)) | _, _ => m_next (hub_machine h) end) as E.
  { destruct s as [|run n].
    - by apply shared_of_idle in Hs as [-> _].
    - by apply shared_of_used in Hs as [-> _]. }
  rewrite E in H1, H2. done.
Qed.

Lemma subscribe_answer h s c p :
  shared_of (hub_state h) = Some s ->
  (subscribe c p h).2 = shared_answer (m_next (hub_machine h)) s c p.
Proof.
  intros Hs. unfold subscribe. destruct s as [|run n].
  - apply shared_of_idle in Hs as [-> _]. by destruct c, p.
  - apply shared_of_used in Hs as [-> _]. done.
Qed.

(** ** Who owns a capture thread *)

(** Every live capture thread belongs to the hub, or is being stopped; the
    current run has its threads, or has failed. *)
Record hub_wf (h : CaptureHub) : Prop := {
  hw_fresh run : run ∈ m_capturing (hub_machine h) ∪ m_publishing (hub_machine h) ->
    (run < m_next (hub_machine h))%nat;
  hw_current run : hub_capture (hub_state h) = Some (mkCaptureHandle run) ->
    (run < m_next (hub_machine h))%nat /\
    (run ∈ m_cancelled (hub_machine h) \/
     run ∈ m_capturing (hub_machine h) /\ run ∈ m_publishing (hub_machine h));
  hw_owned run : run ∈ m_capturing (hub_machine h) -> run ∉ m_cancelled (hub_machine h) ->
    mkCaptureHandle run ∈ option_list (hub_capture (hub_state h)) ++ hub_released h;
  hw_cancelled run : run ∈ m_cancelled (hub_machine h) -> (run < m_next (hub_machine h))%nat;
  hw_released run : mkCaptureHandle run ∈ hub_released h -> (run < m_next (hub_machine h))%nat;
}.

Lemma hub_new_wf : hub_wf hub_new.
Proof. split; simpl; set_solver. Qed.

(** The fan-out thread could be started whenever the capture thread could. *)
Definition publisher_available (ev : hub_event) : Prop :=
  match ev with Subscribe c p => c = true -> p = true | _ => True end.

Lemma subscribe_wf h c p : (c = true -> p = true) -> hub_wf h -> hub_wf (subscribe c p h).1.
Proof.
  intros Hp Hwf. pose proof Hwf as [H1 H2 H3 H4 H5].
  unfold subscribe. destruct (hub_capture (hub_state h)) as [[run]|] eqn:Hc; simpl.
  - rewrite <- Hc in *. by split.
  - unfold start_wasapi_capture. destruct c; [rewrite (Hp eq_refl)|]; simpl.
    + split; simpl.
      * intros r Hr. assert (r = m_next (hub_machine h) \/ r ∈ m_capturing (hub_machine h) ∪ m_publishing (hub_machine h))
          as [->|Hr'] by set_solver; [lia|]. specialize (H1 r Hr'). lia.
      * intros r [= <-]. split; [lia|]. set_solver.
      * intros r Hr Hnc. destruct (decide (r = m_next (hub_machine h))) as [->|Hne]; [set_solver|].
        assert (r ∈ m_capturing (hub_machine h)) as Hr' by set_solver.
        specialize (H3 r Hr' Hnc). simpl in *. set_solver.
      * intros r Hr. specialize (H4 r Hr). lia.
      * intros r Hr. specialize (H5 r Hr). lia.
    + split; simpl.
      * intros r Hr. specialize (H1 r Hr). lia.
      * by rewrite Hc.
      * by rewrite Hc.
      * intros r Hr. specialize (H4 r Hr). lia.
      * intros r Hr. specialize (H5 r Hr). lia.
Qed.

Lemma unsubscribe_wf h : hub_wf h -> hub_wf (unsubscribe h).
Proof.
  intros [H1 H2 H3 H4 H5]. unfold unsubscribe. destruct (0 <? _); split; simpl; auto; [done| |].
  - intros r Hr Hn. specialize (H3 r Hr Hn). rewrite elem_of_app in H3 |- *. tauto.
  - intros r Hr. apply elem_of_app in Hr as [Hr|Hr]; [auto|].
    destruct (hub_capture (hub_state h)) as [[c]|] eqn:Hc; [|set_solver].
    apply list_elem_of_singleton in Hr as [= ->]. by apply H2.
Qed.

Lemma cancel_released_wf h : hub_wf h -> hub_wf (cancel_released h).
Proof.
  intros Hwf. pose proof Hwf as [H1 H2 H3 H4 H5]. unfold cancel_released.
  destruct (hub_released h) as [|[run] released] eqn:Hrel; [done|].
  assert (run < m_next (hub_machine h))%nat as Hrun by (apply H5; set_solver).
  split; simpl; auto.
  - intros r Hr. destruct (H2 r Hr) as [Hlt Hr']. split; [done|]. set_solver.
  - intros r Hr Hn. specialize (H3 r Hr ltac:(set_solver)). set_solver.
  - intros r Hr. apply elem_of_union in Hr as [->%elem_of_singleton|Hr]; [done|auto].
  - intros r Hr. apply H5. set_solver.
Qed.

Lemma hub_step_wf h ev : publisher_available ev -> hub_wf h -> hub_wf (hub_step h ev).
Proof.
  intros Hp Hwf. destruct ev as [c p| | |run failed|run]; simpl.
  - by apply subscribe_wf.
  - by apply unsubscribe_wf.
  - by apply cancel_released_wf.
  - destruct Hwf as [H1 H2 H3 H4 H5]. unfold capture_thread_ends.
    case_decide as Hin; [|by split].
    assert (run < m_next (hub_machine h))%nat as Hrun by (apply H1; set_solver).
    destruct failed; [|case_decide as Hcan; [|by split]]; split; simpl; auto.
    + intros r Hr. apply H1. set_solver.
    + intros r Hr. destruct (H2 r Hr) as [Hlt Hr']. split; [done|].
      destruct (decide (r = run)); set_solver.
    + intros r Hr Hn. apply H3; set_solver.
    + intros r Hr. apply elem_of_union in Hr as [->%elem_of_singleton|Hr]; [done|auto].
    + intros r Hr. apply H1. set_solver.
    + intros r Hr. destruct (H2 r Hr) as [Hlt Hr']. split; [done|].
      destruct (decide (r = run)); set_solver.
    + intros r Hr Hn. apply H3; set_solver.
  - destruct Hwf as [H1 H2 H3 H4 H5]. unfold publisher_ends. case_decide as Hcan; [|by split].
    split; simpl; auto.
    + intros r Hr. apply H1. set_solver.
    + intros r Hr. destruct (H2 r Hr) as [Hlt Hr']. split; [done|].
      destruct (decide (r = run)); set_solver.
Qed.

Lemma hub_run_wf evs h : Forall publisher_available evs -> hub_wf h -> hub_wf (hub_run h evs).
Proof.
  revert h. induction evs as [|ev evs IH]; intros h Hp Hwf; [done|].
  apply Forall_cons in Hp as [Hev Hp]. apply IH; [done|]. by apply hub_step_wf.
Qed.

(** *** The threads behind the resource

    [failed]: the runs whose capture thread ends with an error; [granted]: the
    runs handed out so far. *)

Definition working (run : nat) (h : CaptureHub) : Prop :=
  run ∈ m_capturing (hub_machine h) /\ run ∈ m_publishing (hub_machine h) /\ run ∉ m_cancelled (hub_machine h).

Record served (failed : nat -> Prop) (granted : nat -> Prop) (h : CaptureHub) : Prop := {
  sv_current run : hub_capture (hub_state h) = Some (mkCaptureHandle run) ->
    (run < m_next (hub_machine h))%nat /\ (working run h /\ mkCaptureHandle run ∉ hub_released h \/ failed run);
  sv_given_up run : granted run ->
    hub_capture (hub_state h) = Some (mkCaptureHandle run) \/ run ∈ m_cancelled (hub_machine h) \/
    mkCaptureHandle run ∈ hub_released h;
  sv_cancelled run : run ∈ m_cancelled (hub_machine h) -> (run < m_next (hub_machine h))%nat;
  sv_released run : mkCaptureHandle run ∈ hub_released h -> (run < m_next (hub_machine h))%nat;
  sv_capturing run : run ∈ m_capturing (hub_machine h) -> (run < m_next (hub_machine h))%nat;
  sv_publishing run : run ∈ m_publishing (hub_machine h) -> granted run;
}.

Lemma hub_new_served failed : served failed (fun _ => False) hub_new.
Proof. split; simpl; set_solver. Qed.

(** The run a subscription starts. *)
Definition grants (h : CaptureHub) (ev : hub_event) (run : nat) : Prop :=
  hub_capture (hub_state h) = None /\ ev = Subscribe true true /\ run = m_next (hub_machine h).

Lemma subscribe_served failed granted h c p :
  served failed granted h -> served failed (fun run => granted run \/ grants h (Subscribe c p) run) (subscribe c p h).1.
Proof.
  intros Hs. pose proof Hs as [H1 H2 H3 H4 H5 H6]. unfold grants.
  unfold subscribe. destruct (hub_capture (hub_state h)) as [[run]|] eqn:Hc; simpl.
  { rewrite <- Hc in *. split; simpl; try done; [|intros r Hr; left; by apply H6].
    intros r [Hr|(Hn & _)]; [by apply H2|congruence]. }
  assert (forall r, r ∈ m_cancelled (hub_machine h) -> r <> m_next (hub_machine h)) as Hfresh by (intros r Hr; specialize (H3 r Hr); lia).
  assert (mkCaptureHandle (m_next (hub_machine h)) ∉ hub_released h) as Hnew by (intros Hr; specialize (H4 _ Hr); lia).
  assert (forall r, r ∈ m_cancelled (hub_machine h) -> (r < S (m_next (hub_machine h)))%nat) as H3' by (intros r Hr; specialize (H3 r Hr); lia).
  assert (forall r, mkCaptureHandle r ∈ hub_released h -> (r < S (m_next (hub_machine h)))%nat) as H4' by (intros r Hr; specialize (H4 r Hr); lia).
  assert (forall r, r ∈ {[m_next (hub_machine h)]} ∪ m_capturing (hub_machine h) -> (r < S (m_next (hub_machine h)))%nat) as H5'.
  { intros r [->%elem_of_singleton|Hr]%elem_of_union; [lia|]. specialize (H5 r Hr). lia. }
  assert (forall r, granted r -> r ∈ m_cancelled (hub_machine h) \/ mkCaptureHandle r ∈ hub_released h) as H2'.
  { intros r Hr. by destruct (H2 r Hr) as [?|Hr']. }
  unfold start_wasapi_capture. destruct c; [destruct p|]; split; simpl; rewrite ?Hc; auto; try done.
  - intros r [= <-]. split; [lia|]. left. unfold working. simpl. split_and!; [set_solver|set_solver| |done].
    intros Hr. by apply (Hfresh _ Hr).
  - intros r [Hr|(_ & _ & ->)]; [right; by apply H2'|by left].
  - intros r [->%elem_of_singleton|Hr]%elem_of_union; [by right|left; auto].
  - intros r [Hr|(_ & [=] & _)]. right. by apply H2'.
  - intros r [Hr|(_ & [=] & _)]. right. by apply H2'.
  - intros r Hr. apply H5'. set_solver.
Qed.

Lemma unsubscribe_served failed granted h : served failed granted h -> served failed granted (unsubscribe h).
Proof.
  intros [H1 H2 H3 H4 H5 H6]. unfold unsubscribe. destruct (0 <? _); split; simpl; auto; [done| |].
  - intros r Hr. right. rewrite elem_of_app. destruct (H2 r Hr) as [->|[Hr'|Hr']]; [right; right; simpl; set_solver|by left|by right; left].
  - intros r Hr. apply elem_of_app in Hr as [Hr|Hr]; [auto|].
    destruct (hub_capture (hub_state h)) as [[c]|] eqn:Hc; [|set_solver].
    apply list_elem_of_singleton in Hr as [= ->]. by apply H1.
Qed.

Lemma cancel_released_served failed granted h : served failed granted h -> served failed granted (cancel_released h).
Proof.
  intros Hs. pose proof Hs as [H1 H2 H3 H4 H5 H6]. unfold cancel_released.
  destruct (hub_released h) as [|[run] released] eqn:Hrel; [done|]. split; simpl; auto.
  - intros r Hr. destruct (H1 r Hr) as [Hlt [[(Ha & Hb & Hc) Hn]|Hf]]; (split; [done|]); [left|by right].
    apply not_elem_of_cons in Hn as [Hne Hn]. split; [|done]. split_and!; simpl; [done..|]. set_solver.
  - intros r Hr. destruct (H2 r Hr) as [?|[?|[[= ->]|?]%elem_of_cons]]; [by left|right; left; set_solver|right; left; set_solver|by right; right].
  - intros r Hr. apply elem_of_union in Hr as [->%elem_of_singleton|Hr]; [|auto]. apply H4. set_solver.
  - intros r Hr. apply H4. set_solver.
Qed.

(** The end of a thread that is not a working current run. *)
Lemma ends_served failed granted h run cancels captures publishes :
  served failed granted h -> (failed run \/ run ∈ m_cancelled (hub_machine h)) ->
  m_cancelled (hub_machine h) ⊆ cancels -> cancels ⊆ {[run]} ∪ m_cancelled (hub_machine h) ->
  (run ∈ cancels -> (run < m_next (hub_machine h))%nat) ->
  captures ⊆ m_capturing (hub_machine h) -> m_capturing (hub_machine h) ⊆ {[run]} ∪ captures ->
  m_publishing (hub_machine h) ⊆ {[run]} ∪ publishes -> publishes ⊆ m_publishing (hub_machine h) ->
  served failed granted (with_machine (mkMachine (m_next (hub_machine h)) cancels captures publishes) h).
Proof.
  intros [H1 H2 H3 H4 H5 H6] Hrun Hc1 Hc2 Hlt Hm1 Hm2 Hp1 Hp2. split; simpl; auto.
  - intros r Hr. destruct (H1 r Hr) as [Hr' [[(Ha & Hb & Hc) Hn]|Hf]]; (split; [done|]); [|by right].
    destruct (decide (r = run)) as [->|Hne]; [destruct Hrun; [by right|done]|]. left. split; [|done].
    unfold working. simpl. set_solver.
  - intros r Hr. destruct (H2 r Hr) as [?|[?|?]]; [by left|right; left; set_solver|by right; right].
  - intros r Hr. destruct (decide (r = run)) as [->|Hne]; [auto|]. apply H3. set_solver.
Qed.

Lemma hub_step_served (failed granted : nat -> Prop) h ev :
  (forall run, ev = CaptureEnds run true -> failed run) -> served failed granted h ->
  served failed (fun run => granted run \/ grants h ev run) (hub_step h ev).
Proof.
  intros Hf Hs. assert (forall h', served failed granted h' -> (forall c p, ev <> Subscribe c p) ->
    served failed (fun run => granted run \/ grants h ev run) h') as Hsame.
  { intros h' [H1 H2 H3 H4 H5 H6] Hne. split; try done; [|intros r Hr; left; by apply H6].
    intros r [Hr|(_ & -> & _)]; [by apply H2|by destruct (Hne true true)]. }
  destruct ev as [c p| | |run fails|run]; simpl.
  - by apply subscribe_served.
  - apply Hsame; [by apply unsubscribe_served|done].
  - apply Hsame; [by apply cancel_released_served|done].
  - apply Hsame; [|done]. unfold capture_thread_ends. case_decide as Hin; [|by destruct h, hub_machine0].
    pose proof (sv_capturing _ _ _ Hs run Hin) as Hlt.
    destruct fails; [|case_decide as Hcan; [|by destruct h, hub_machine0]]; (apply (ends_served failed granted h run);
      [done| |simpl; set_solver|simpl; set_solver|by intros _|simpl; set_solver|simpl|simpl; set_solver|done]).
    + left. by apply Hf.
    + intros r Hr. destruct (decide (r = run)); set_solver.
    + by right.
    + intros r Hr. destruct (decide (r = run)); set_solver.
  - apply Hsame; [|done]. unfold publisher_ends. case_decide as Hcan; [|by destruct h, hub_machine0].
    apply (ends_served failed granted h run); [done|by right|simpl; set_solver|simpl; set_solver| |simpl; set_solver|simpl; set_solver| |simpl; set_solver].
    + intros _. by apply (sv_cancelled _ _ _ Hs).
    + intros r Hr. simpl. destruct (decide (r = run)); set_solver.
Qed.

Lemma served_weaken (failed granted granted' : nat -> Prop) h :
  served failed granted h -> (forall run, granted' run <-> granted run) -> served failed granted' h.
Proof. intros [H1 H2 H3 H4 H5 H6] H. split; try done; intros r Hr; [apply H2|]; by apply H; auto. Qed.

Lemma hub_run_served failed evs : forall (granted : nat -> Prop) h s,
  (forall run, CaptureEnds run true ∈ evs -> failed run) -> served failed granted h ->
  shared_of (hub_state h) = Some s -> users s + Z.of_nat (length evs) < 2 ^ 64 ->
  served failed (fun run => granted run \/ run ∈ granted_runs (m_next (hub_machine h)) s evs) (hub_run h evs).
Proof.
  induction evs as [|ev evs IH]; intros granted h s Hf Hs Href Hlt.
  { simpl. eapply served_weaken; [exact Hs|]. set_solver. }
  simpl in Hlt. pose proof (hub_step_refines h s ev Href ltac:(lia)) as Href'.
  pose proof (shared_step_users (m_next (hub_machine h)) s ev).
  pose proof (hub_step_served failed granted h ev ltac:(intros run ->; apply Hf; set_solver) Hs) as Hs'.
  specialize (IH _ _ _ ltac:(set_solver) Hs' Href' ltac:(lia)). rewrite machine_of_event in IH.
  eapply served_weaken; [exact IH|]. intros run. cbn [granted_runs].
  assert (match hub_capture (hub_state h), ev with
          | None, Subscribe _ _ => S (m_next (hub_machine h)) | _, _ => m_next (hub_machine h) end =
          match s, ev with Idle, Subscribe _ _ => S (m_next (hub_machine h)) | _, _ => m_next (hub_machine h) end) as E.
  { destruct s as [|r n]; [by apply shared_of_idle in Href as [-> _]|by apply shared_of_used in Href as [-> _]]. }
  rewrite E, elem_of_app.
  assert (grants h ev run <-> run ∈ match s, ev with Idle, Subscribe true true => [m_next (hub_machine h)] | _, _ => [] end) as ->; [|tauto].
  unfold grants. destruct s as [|r n].
  - apply shared_of_idle in Href as [-> _]. destruct ev as [[] []| | | |]; rewrite ?list_elem_of_singleton, ?elem_of_nil; naive_solver.
  - apply shared_of_used in Href as [-> _]. rewrite elem_of_nil. naive_solver.
Qed.

(** The calls of [unsubscribe] that are under way go on. *)
Lemma release_all h : forall n, n = length (hub_released h) ->
  let h' := hub_run h (replicate n CancelReleased) in
  hub_released h' = [] /\ hub_state h' = hub_state h /\ m_cancelled (hub_machine h) ⊆ m_cancelled (hub_machine h') /\
  forall run, mkCaptureHandle run ∈ hub_released h -> run ∈ m_cancelled (hub_machine h').
Proof.
  intros n. revert h. induction n as [|n IH]; intros h Hn h'.
  - destruct (hub_released h) eqn:E; [|done]. split_and!; [done..|]. set_solver.
  - destruct (hub_released h) as [|[r] released] eqn:E; [done|]. simpl in Hn. injection Hn as Hn.
    set (h1 := hub_step h CancelReleased).
    assert (hub_released h1 = released /\ hub_state h1 = hub_state h /\ hub_machine h1 = cancel_token r (hub_machine h)) as (E1 & E2 & E3).
    { unfold h1. simpl. unfold cancel_released. by rewrite E. }
    destruct (IH h1 ltac:(by rewrite E1)) as (H1 & H2 & H3 & H4). change h' with (hub_run h1 (replicate n CancelReleased)).
    rewrite E3 in H3. rewrite E1 in H4. split_and!; [done|congruence|simpl in H3; set_solver|].
    intros run [[= ->]|Hr]%elem_of_cons; [simpl in H3; set_solver|by apply H4].
Qed.

Lemma cancelled_capture_ends run m : run ∈ m_cancelled m -> run ∉ m_capturing (capture_thread_ends run false m).
Proof. intros Hr. unfold capture_thread_ends. repeat case_decide; simpl; set_solver. Qed.

(** A thread that nobody owns and whose token nobody holds. *)
Definition orphan (run : nat) (h : CaptureHub) : Prop :=
  run ∈ m_capturing (hub_machine h) /\ run ∉ m_cancelled (hub_machine h) /\
  (run < m_next (hub_machine h))%nat /\
  hub_capture (hub_state h) <> Some (mkCaptureHandle run) /\
  mkCaptureHandle run ∉ hub_released h.

Lemma orphan_step run h ev : ev <> CaptureEnds run true -> orphan run h -> orphan run (hub_step h ev).
Proof.
  intros Hev Ho. pose proof Ho as (H1 & H2 & H3 & H4 & H5).
  destruct ev as [c p| | |r failed|r]; simpl.
  - unfold subscribe. destruct (hub_capture (hub_state h)) as [[r]|] eqn:Hc; [by split_and!|].
    unfold start_wasapi_capture. destruct c, p; split_and!; simpl; try done; try lia; try set_solver;
      try (by rewrite Hc). intros [= E]. lia.
  - unfold unsubscribe. destruct (0 <? _); (split_and!; simpl; [done..|done|]); [done|].
    rewrite not_elem_of_app. split; [done|]. destruct (hub_capture (hub_state h)); set_solver.
  - unfold cancel_released. destruct (hub_released h) as [|[r] released] eqn:Hr; [done|].
    apply not_elem_of_cons in H5 as [Hne H5]. split_and!; simpl; [done| |done|done|done].
    intros Hu. apply elem_of_union in Hu as [Hu|Hu]; [|done]. apply elem_of_singleton in Hu. by subst.
  - unfold capture_thread_ends. case_decide as Hin; [|done].
    destruct failed; [|case_decide as Hcan; [|done]].
    + assert (r <> run) by congruence. split_and!; simpl; [set_solver|set_solver|done..].
    + assert (r <> run) by (intros ->; done). split_and!; simpl; [set_solver|done..].
  - unfold publisher_ends. by case_decide.
Qed.

Lemma orphan_run evs run h :
  Forall (fun ev => ev <> CaptureEnds run true) evs -> orphan run h -> orphan run (hub_run h evs).
Proof.
  revert h. induction evs as [|ev evs IH]; intros h Hevs Ho; [done|].
  apply Forall_cons in Hevs as [Hev Hevs]. apply IH; [done|]. by apply orphan_step.
Qed.

(** The hub still hands out a run whose capture thread is gone. *)
Definition dead (run : nat) (h : CaptureHub) : Prop :=
  hub_capture (hub_state h) = Some (mkCaptureHandle run) /\ run ∉ m_capturing (hub_machine h).

Lemma dead_step run h ev : ev <> Unsubscribe -> dead run h -> dead run (hub_step h ev).
Proof.
  intros Hev [H1 H2]. destruct ev as [c p| | |r failed|r]; simpl; [..|done| | |].
  - unfold subscribe. by rewrite H1.
  - unfold cancel_released. by destruct (hub_released h).
  - unfold capture_thread_ends. split; [done|]. simpl. repeat case_decide; destruct failed; simpl; set_solver.
  - unfold publisher_ends. split; [done|]. simpl. by case_decide.
Qed.

Lemma dead_run evs run h :
  Forall (fun ev => ev <> Unsubscribe) evs -> dead run h -> dead run (hub_run h evs).
Proof.
  revert h. induction evs as [|ev evs IH]; intros h Hevs Hd; [done|].
  apply Forall_cons in Hevs as [Hev Hevs]. apply IH; [done|]. by apply dead_step.
Qed.

(** ** Properties *)

(** C13. Over any history of fewer than 2^64 events the hub is a shared resource
    with users: the first subscriber gets a fresh capture run, overlapping ones
    share it, the last to leave gives it up; and each subscription is answered
    with the run that resource has, or with the error of the thread that could
    not be started.  The run in use has both its threads and an uncancelled
    token, unless its capture thread ended with an error.  Every run that was
    handed out and is no longer in use is cancelled or waits in an [unsubscribe]
    for its cancellation; when these calls have gone on, it is cancelled, the
    resource is as before, and its capture thread ends. *)
Theorem hub_refines_shared_resource (evs : list hub_event) (Hlen : Z.of_nat (length evs) < 2 ^ 64) :
  let h := hub_run hub_new evs in
  let fresh := (shared_run 0 Idle evs).1 in
  let s := (shared_run 0 Idle evs).2 in
  let h' := hub_run h (replicate (length (hub_released h)) CancelReleased) in
  shared_of (hub_state h) = Some s /\
  (forall capture_spawns publisher_spawns,
     (subscribe capture_spawns publisher_spawns h).2 = shared_answer fresh s capture_spawns publisher_spawns) /\
  (forall run users, s = Used run users -> working run h \/ CaptureEnds run true ∈ evs) /\
  (forall run, run ∈ granted_runs 0 Idle evs -> (exists users, s = Used run users) \/
     run ∈ m_cancelled (hub_machine h) \/ mkCaptureHandle run ∈ hub_released h) /\
  shared_of (hub_state h') = Some s /\ hub_released h' = [] /\
  (forall run, run ∈ granted_runs 0 Idle evs -> (exists users, s = Used run users) \/
     run ∈ m_cancelled (hub_machine h') /\ run ∉ m_capturing (hub_machine (hub_step h' (CaptureEnds run false)))).
Proof.
  intros h fresh s h'. destruct (hub_run_refines evs hub_new Idle eq_refl Hlen) as [H1 H2].
  pose proof (hub_run_served (fun run => CaptureEnds run true ∈ evs) evs _ hub_new Idle (fun run H => H) (hub_new_served _) eq_refl Hlen)
    as [Hcur Hgiven _ _ _ _]. fold h in H1, H2, Hcur, Hgiven. simpl in H1, H2, Hgiven. fold s in H1. fold fresh in H2.
  destruct (release_all h _ eq_refl) as (Hr & Hst & Hsub & Hall). fold h' in Hr, Hst, Hsub, Hall.
  assert (forall run, hub_capture (hub_state h) = Some (mkCaptureHandle run) -> exists users, s = Used run users) as Hused.
  { intros run Hc. unfold shared_of in H1. rewrite Hc in H1. destruct (hub_subscribers (hub_state h)); try done. eexists. by injection H1 as <-. }
  split_and!; [done| | | |by rewrite Hst|done|].
  - intros c p. rewrite <- H2. by apply subscribe_answer.
  - intros run n E. rewrite E in H1. apply shared_of_used in H1 as [Hc _]. destruct (Hcur run Hc) as [_ [[Hw _]|Hf]]; [by left|by right].
  - intros run Hg. destruct (Hgiven run (or_intror Hg)) as [Hc|Hg']; [left; by apply Hused|by right].
  - intros run Hg. destruct (Hgiven run (or_intror Hg)) as [Hc|Hg']; [left; by apply Hused|right].
    assert (run ∈ m_cancelled (hub_machine h')) as Hcan by (destruct Hg' as [Hg'|Hg']; [by apply Hsub|by apply Hall]).
    split; [done|]. by apply cancelled_capture_ends.
Qed.

(** As long as the fan-out thread can always be started, no capture thread
    is left behind: each live one is the hub's current run, or waits in an
    [unsubscribe] for its cancellation, or has its token cancelled and so ends;
    the current run has both its threads unless it has failed; and dropping the
    hub leaves no thread uncancelled. *)
Theorem captures_are_owned (evs : list hub_event) (h : CaptureHub)
  (Hpublisher : Forall publisher_available evs) (Hrun : h = hub_run hub_new evs) :
  (forall run, run ∈ m_capturing (hub_machine h) -> run ∉ m_cancelled (hub_machine h) ->
     hub_capture (hub_state h) = Some (mkCaptureHandle run) \/ mkCaptureHandle run ∈ hub_released h) /\
  (forall run, hub_capture (hub_state h) = Some (mkCaptureHandle run) ->
     run ∈ m_cancelled (hub_machine h) \/
     run ∈ m_capturing (hub_machine h) /\ run ∈ m_publishing (hub_machine h)) /\
  (hub_released h = [] -> m_capturing (hub_machine (hub_drop h)) ⊆ m_cancelled (hub_machine (hub_drop h))).
Proof.
  pose proof (hub_run_wf evs hub_new Hpublisher hub_new_wf) as [_ H2 H3 _ _]. rewrite <- Hrun in *.
  split_and!.
  - intros run Hr Hn. destruct (proj1 (elem_of_app _ _ _) (H3 run Hr Hn)) as [H|H]; [left|by right].
    destruct (hub_capture (hub_state h)); [|set_solver]. by apply list_elem_of_singleton in H as <-.
  - intros run Hr. by apply H2.
  - intros Hnil run Hr. rewrite Hnil, app_nil_r in H3. unfold hub_drop in *.
    destruct (hub_capture (hub_state h)) as [[c]|]; simpl in *.
    + destruct (decide (run ∈ m_cancelled (hub_machine h))) as [Hin|Hin]; [set_solver|].
      specialize (H3 run Hr Hin). apply list_elem_of_singleton in H3 as [= ->]. set_solver.
    + destruct (decide (run ∈ m_cancelled (hub_machine h))) as [Hin|Hin]; [done|].
      specialize (H3 run Hr Hin). set_solver.
Qed.

(** If the fan-out thread cannot be started, the subscription fails but its
    capture thread stays: nothing the sessions or the hub do ever cancels it,
    so it runs until it fails by itself. *)
Theorem failed_publisher_leaks_capture (before after : list hub_event) (h : CaptureHub)
  (Hpublisher : Forall publisher_available before) (Hrun : h = hub_run hub_new before)
  (Hidle : hub_capture (hub_state h) = None)
  (Hafter : Forall (fun ev => ev <> CaptureEnds (m_next (hub_machine h)) true) after) :
  (subscribe true false h).2 = Err PublisherNotStarted /\
  m_next (hub_machine h) ∈ m_capturing (hub_machine (hub_run (subscribe true false h).1 after)) /\
  m_next (hub_machine h) ∉ m_cancelled (hub_machine (hub_run (subscribe true false h).1 after)).
Proof.
  pose proof (hub_run_wf before hub_new Hpublisher hub_new_wf) as [_ _ _ H4 H5]. rewrite <- Hrun in *.
  assert (orphan (m_next (hub_machine h)) (subscribe true false h).1) as Ho.
  { unfold subscribe. rewrite Hidle. split_and!; simpl; [set_solver| |lia| |].
    - intros Hc. specialize (H4 _ Hc). lia.
    - by rewrite Hidle.
    - intros Hr. specialize (H5 _ Hr). lia. }
  split; [by unfold subscribe; rewrite Hidle|].
  destruct (orphan_run after _ _ Hafter Ho) as (H6 & H7 & _). done.
Qed.

(** A capture that failed is not replaced while anyone stays subscribed:
    whoever subscribes is given the run whose capture thread is gone. *)
Theorem dead_capture_is_not_replaced (h : CaptureHub) (run : nat) (evs : list hub_event)
  (capture_spawns publisher_spawns : bool)
  (Hcurrent : hub_capture (hub_state h) = Some (mkCaptureHandle run))
  (Hlive : run ∈ m_capturing (hub_machine h))
  (Hstay : Forall (fun ev => ev <> Unsubscribe) evs) :
  (subscribe capture_spawns publisher_spawns (hub_run (hub_step h (CaptureEnds run true)) evs)).2 = Ok run /\
  run ∉ m_capturing (hub_machine (hub_run (hub_step h (CaptureEnds run true)) evs)).
Proof.
  assert (dead run (hub_step h (CaptureEnds run true))) as Hd.
  { split; [done|]. simpl. unfold capture_thread_ends. rewrite decide_True by done. simpl. set_solver. }
  destruct (dead_run evs _ _ Hstay Hd) as [H1 H2]. split; [|done]. unfold subscribe. by rewrite H1.
Qed.

(** ** Witnesses *)

(** Two phones come, the first leaves and returns, both leave. *)
Definition two_visits : list hub_event :=
  [Subscribe true true; Subscribe true true; Unsubscribe; Subscribe true true; Unsubscribe; Unsubscribe;
   CancelReleased; CaptureEnds 0 false; PublisherEnds 0].

Lemma hub_refines_shared_resource_witness :
  shared_of (hub_state (hub_run hub_new (take 4 two_visits))) = Some (Used 0 2) /\
  working 0 (hub_run hub_new (take 4 two_visits)) /\
  0%nat ∈ m_cancelled (hub_machine (hub_run hub_new two_visits)).
Proof.
  destruct (hub_refines_shared_resource (take 4 two_visits)) as (H1 & _ & H2 & _); [apply Z.ltb_lt; reflexivity|].
  destruct (hub_refines_shared_resource two_visits) as (_ & _ & _ & H3 & _); [apply Z.ltb_lt; reflexivity|].
  split; [rewrite H1; reflexivity|]. split.
  - destruct (H2 0%nat 2%positive eq_refl) as [H|H]; [exact H|]. exfalso. unfold two_visits in H. cbn [take] in H. rewrite !elem_of_cons in H.
    destruct H as [E|[E|[E|[E|E]]]]; [discriminate E..|]. apply not_elem_of_nil in E. exact E.
  - destruct (H3 0%nat) as [[n Hn]|[H|H]]; [apply (bool_decide_eq_true_1 _); vm_compute; reflexivity|discriminate|exact H|].
    apply not_elem_of_nil in H. destruct H.
Defined.

Lemma captures_are_owned_witness :
  let h := hub_run hub_new [Subscribe true true; Subscribe true true; Unsubscribe] in
  hub_capture (hub_state h) = Some (mkCaptureHandle 0) /\
  m_capturing (hub_machine (hub_drop h)) ⊆ m_cancelled (hub_machine (hub_drop h)).
Proof.
  split; [reflexivity|].
  destruct (captures_are_owned [Subscribe true true; Subscribe true true; Unsubscribe] _
              ltac:(repeat constructor; done) eq_refl) as (_ & _ & H).
  apply H. reflexivity.
Defined.

Lemma failed_publisher_leaks_capture_witness :
  let h := hub_run hub_new two_visits in
  let h' := hub_run (subscribe true false h).1 two_visits in
  (subscribe true false h).2 = Err PublisherNotStarted /\
  m_next (hub_machine h) ∈ m_capturing (hub_machine h') /\
  m_next (hub_machine h) ∉ m_cancelled (hub_machine h').
Proof.
  apply (failed_publisher_leaks_capture two_visits two_visits); [|reflexivity|reflexivity|].
  - repeat constructor.
  - repeat constructor; discriminate.
Defined.

Lemma dead_capture_is_not_replaced_witness :
  let h := hub_run hub_new [Subscribe true true] in
  let h' := hub_run (hub_step h (CaptureEnds 0 true)) [Subscribe true true; PublisherEnds 0] in
  (subscribe true true h').2 = Ok 0%nat /\ 0%nat ∉ m_capturing (hub_machine h').
Proof.
  apply (dead_capture_is_not_replaced (hub_run hub_new [Subscribe true true]) 0
           [Subscribe true true; PublisherEnds 0]); [reflexivity| |].
  - apply (bool_decide_eq_true_1 _). vm_compute. reflexivity.
  - repeat constructor; discriminate.
Defined.
