(* ===== verification/Loudness.v ===== *)
(** * Loudness: levels in decibel and their comparison

    The part of [windows-server/src/loudness.rs] and of the [Measurement] of
    [audio/microphone.rs] that decides which levels agree.  An [f64] is an IEEE
    binary64 value of the Standard Library's [SpecFloat]: subtraction,
    multiplication, division, absolute value and comparison are exact; the
    precision of [powf] and [log10] is left open by the language, so they are
    arguments. *)

From Stdlib Require Import ZArith Lia.
From Stdlib Require Import SpecFloat.
From S2P Require Import Prelude Wire.

Definition f64 : Type := spec_float.

Definition f64_of_Z (z : Z) : f64 := binary_normalize 53 1024 z 0 false.
Definition f64_sub : f64 -> f64 -> f64 := SFsub 53 1024.
Definition f64_mul : f64 -> f64 -> f64 := SFmul 53 1024.
Definition f64_div : f64 -> f64 -> f64 := SFdiv 53 1024.
Definition f64_abs : f64 -> f64 := SFabs.
Definition f64_le : f64 -> f64 -> bool := SFleb.
Definition f64_lt : f64 -> f64 -> bool := SFltb.

(** The two functions of the platform's mathematics library. *)
Class Libm : Type := { powf : f64 -> f64 -> f64; log10 : f64 -> f64 }.

Inductive LevelError : Type := TooCloseToNoise.

Section levels.
Context `{!Libm}.

Definition signal_level (measured background : f64) : result LevelError f64 :=
  if f64_lt (f64_sub measured background) (f64_of_Z 10) then Err TooCloseToNoise
  else
    let ten := f64_of_Z 10 in
    Ok (f64_mul ten (log10 (f64_sub (powf ten (f64_div measured ten)) (powf ten (f64_div background ten))))).
End levels.

(** A pair of a volume index and its level. *)
Definition closest_step (previous current : Z * f64) (target : f64) : Z * f64 :=
  if f64_le (f64_abs (f64_sub previous.2 target)) (f64_abs (f64_sub current.2 target))
  then previous else current.

(** [points.iter().copied().reduce(|a, b| closest_step(a, b, target))]. *)
Definition best_step (points : list (Z * f64)) (target : f64) : option (Z * f64) :=
  match points with
  | [] => None
  | p :: points' => Some (foldl (fun a b => closest_step a b target) p points')
  end.

(** [(a - b).abs() <= limit]. *)
Definition within (limit : Z) (a b : f64) : bool := f64_le (f64_abs (f64_sub a b)) (f64_of_Z limit).

Record Measurement : Type := mkMeasurement {
  me_level_dbfs : f64;
  me_spread_db : f64;
  me_tone_windows : Z;
  me_windows : Z;
  me_raw : bool;
}.

Definition tone_detected (m : Measurement) : bool :=
  negb (me_windows m =? 0) && (me_windows m * 3 <=? me_tone_windows m * 4).

Lemma best_step_elem points target p : best_step points target = Some p -> p ∈ points.
Proof.
  destruct points as [|q points]; [done|]. simpl. intros [= <-].
  revert q. induction points as [|r points IH]; intros q; simpl; [set_solver|].
  specialize (IH (closest_step q r target)). unfold closest_step in *. destruct (f64_le _ _); set_solver.
Qed.

Example nearest_not_louder :
  closest_step (4, f64_of_Z (-32)) (5, f64_of_Z (-26)) (f64_of_Z (-30)) = (4, f64_of_Z (-32)).
Proof. vm_compute. reflexivity. Qed.
