(* ===== verification/Microphone.v ===== *)
(** * Microphone: the level of what the microphone hears

    [LevelWindow] and [median_level] of [windows-server/src/loudness.rs] and
    [Microphone] of [audio/microphone.rs].  A measurement is a script of what
    the clock, the cancellation token and the capture device answer, call by
    call; [measure] runs over it the way the loop does. *)

From stdpp Require Import base list sorting.
From Stdlib Require Import ZArith Lia SpecFloat.
From S2P Require Import Prelude Wire Float32 Loudness.
Open Scope Z_scope.

(** ** Double precision *)

Definition f64_add : f64 -> f64 -> f64 := SFadd 53 1024.

(** A decimal literal: the nearest double of a quotient of exact integers. *)
Definition f64_lit (numerator denominator : Z) : f64 := f64_div (f64_of_Z numerator) (f64_of_Z denominator).

(** [f64::from] of an [f32]: exact. *)
Definition f64_of_f32 (x : f32) : f64 :=
  match x with
  | S754_finite sign m e => binary_normalize 53 1024 (if sign then Z.neg m else Z.pos m) e sign
  | _ => x
  end.

Definition is_zero (x : f64) : bool := match x with S754_zero _ => true | _ => false end.
Definition is_finite (x : f64) : bool := match x with S754_zero _ | S754_finite _ _ _ => true | _ => false end.

(** [f64::mul_add]: one rounding.  Where the product is not a finite non-zero
    number it is exact or special anyway, and the sum decides. *)
Definition f64_mul_add (x y z : f64) : f64 :=
  match x, y, z with
  | S754_finite sx mx ex, S754_finite sy my ey, S754_zero _ => f64_mul x y
  | S754_finite sx mx ex, S754_finite sy my ey, S754_finite sz mz ez =>
      let e := Z.min (ex + ey) ez in
      let product := (if xorb sx sy then -1 else 1) * Z.pos (mx * my) * 2 ^ (ex + ey - e) in
      let addend := (if sz then -1 else 1) * Z.pos mz * 2 ^ (ez - e) in
      binary_normalize 53 1024 (product + addend) e false
  | S754_finite _ _ _, S754_finite _ _ _, _ => z
  | _, _, _ => f64_add (f64_mul x y) z
  end.

(** [f64::max]: a NaN gives way. *)
Definition f64_max (x y : f64) : f64 :=
  match x, y with S754_nan, _ => y | _, S754_nan => x | _, _ => if f64_lt x y then y else x end.

(** The order of [f64::total_cmp]; a NaN is taken as positive. *)
Definition total_le (x y : f64) : Prop :=
  match x, y with
  | _, S754_nan => True
  | S754_nan, _ => False
  | S754_zero sx, S754_zero sy => (sx || negb sy) = true
  | _, _ => SFleb x y = true
  end.
#[export] Instance total_le_dec : RelDecision total_le.
Proof. intros x y. unfold Decision. destruct x, y; simpl; solve_decision. Defined.

(** [std::f64::consts::TAU]. *)
Definition TAU : f64 := S754_finite false 7074237752028440 (-50).

(** ** The window *)

(** The platform's cosine. *)
Class Cosine : Type := { cosf : f64 -> f64 }.

Section window.
Context `{!Libm, !Cosine}.

Definition coefficient (frequency : Z) : f64 :=
  f64_mul (f64_of_Z 2) (cosf (f64_div (f64_mul TAU (f64_of_Z frequency)) (f64_of_Z 48000))).

Record LevelWindow : Type := mkLevelWindow {
  lw_count : Z;
  lw_sum : f64;
  lw_squares : f64;
  lw_clipped : bool;
  lw_bins : list (f64 * f64 * f64);
}.

Definition zero : f64 := S754_zero false.
Definition window_new : LevelWindow :=
  mkLevelWindow 0 zero zero false ((fun frequency => (coefficient frequency, zero, zero)) <$> CALIBRATION_FREQUENCIES).

(** The resonator of one frequency. *)
Definition bin_step (sample : f64) (bin : f64 * f64 * f64) : f64 * f64 * f64 :=
  let '(coefficient, previous, older) := bin in
  (coefficient, f64_sub (f64_mul_add coefficient previous sample) older, previous).

Definition clips (sample : f64) : bool := negb (is_finite sample) || f64_le (f64_lit 98 100) (f64_abs sample).

Definition push (sample : f64) (w : LevelWindow) : LevelWindow :=
  mkLevelWindow (lw_count w + 1) (f64_add (lw_sum w) sample) (f64_mul_add sample sample (lw_squares w))
    (lw_clipped w || clips sample) (bin_step sample <$> lw_bins w).

Definition mean (w : LevelWindow) : f64 := f64_div (lw_sum w) (f64_of_Z (lw_count w)).
(** The variance, at least [1e-12]. *)
Definition power (w : LevelWindow) : f64 :=
  f64_max (f64_mul_add (mean w) (SFopp (mean w)) (f64_div (lw_squares w) (f64_of_Z (lw_count w)))) (f64_lit 1 1000000000000).

Definition bin_power (count : f64) (bin : f64 * f64 * f64) : f64 :=
  let '(coefficient, previous, older) := bin in
  f64_div (f64_mul (f64_of_Z 2)
             (f64_mul_add (f64_mul coefficient previous) (SFopp older) (f64_mul_add older older (f64_mul previous previous))))
    (f64_mul count count).

Definition tone_present (w : LevelWindow) : bool :=
  if (lw_count w =? 0) || lw_clipped w then false
  else
    let count := f64_of_Z (lw_count w) in
    let total := power w in
    let powers := bin_power count <$> lw_bins w in
    f64_le (f64_mul total (f64_lit 65 100)) (foldl f64_add (S754_zero true) powers) &&
    (3 <=? length (filter (fun p => f64_le (f64_mul total (f64_lit 1 1000)) p = true) powers))%nat.

Inductive MicError : Type :=
| MicDevice
| MicCancelled
| MicInvalidPacket
| MicInterrupted
| MicNoSamples
| MicClipped
| MicTooFew.

Definition finish (w : LevelWindow) : result MicError f64 :=
  if lw_count w =? 0 then Err MicNoSamples
  else if lw_clipped w then Err MicClipped
  else Ok (f64_mul (f64_of_Z 10) (log10 (power w))).

(** [median_level]: the median and the distance of the second greatest from the
    second least. *)
Definition median_level (levels : list f64) : result MicError (f64 * f64) :=
  if (length levels <? 8)%nat then Err MicTooFew
  else
    let sorted := merge_sort total_le levels in
    Ok (nth (length sorted / 2) sorted zero,
        f64_sub (nth (length sorted - 2) sorted zero) (nth 1 sorted zero)).

(** ** A measurement *)

(** The answer of [GetBuffer]: frames, flags, and the bytes unless the pointer is
    null. *)
Record Buffer : Type := mkBuffer {
  bf_frames : Z;
  bf_silent : bool;
  (** [DATA_DISCONTINUITY] or [TIMESTAMP_ERROR] *)
  bf_interrupted : bool;
  bf_data : option (list Z);
}.

(** What one pass of the inner loop meets, in this order: [GetNextPacketSize]
    ([false]: an error), the token, the clock, [GetBuffer] ([None]: an error),
    [ReleaseBuffer] and the clock again. *)
Record Packet : Type := mkPacket {
  pk_size_ok : bool;
  pk_cancelled : bool;
  pk_before : Z;
  pk_buffer : option Buffer;
  pk_released : bool;
  pk_after : Z;
}.

(** One round of the outer loop: the clock, the token, and the packets up to the
    answer that none is left. *)
Record Round : Type := mkRound {
  rd_elapsed : Z;
  rd_cancelled : bool;
  rd_packets : list Packet;
}.

Definition SETTLE_MS : Z := 800.
Definition DURATION_MS : Z := 2000.
Definition WINDOW : Z := 4800.

Definition invalid (b : Buffer) : bool :=
  (48000 <? bf_frames b) ||
  (negb (bf_silent b) && negb (bool_decide (is_Some (bf_data b))) && negb (bf_frames b =? 0)).

(** The samples of a buffer that is not refused. *)
Fixpoint floats (data : list Z) (frames : nat) : list f64 :=
  match frames, data with
  | S frames', b0 :: b1 :: b2 :: b3 :: data' => f64_of_f32 (from_le_bytes b0 b1 b2 b3) :: floats data' frames'
  | _, _ => []
  end.
Definition buffer_samples (b : Buffer) : list f64 :=
  if bf_silent b then replicate (Z.to_nat (bf_frames b)) (f64_of_f32 (S754_zero false))
  else floats (default [] (bf_data b)) (Z.to_nat (bf_frames b)).

(** The state of the loop. *)
Record Listening : Type := mkListening {
  li_window : LevelWindow;
  li_count : Z;
  li_levels : list f64;
  li_tones : Z;
}.
Definition listening_new : Listening := mkListening window_new 0 [] 0.

(** The body of the loop over the frames. *)
Definition hear (sample : f64) (l : Listening) : result MicError Listening :=
  let window := push sample (li_window l) in
  let count := li_count l + 1 in
  if count =? WINDOW then
    level ← finish window;
    Ok (mkListening window_new 0 (li_levels l ++ [level]) (li_tones l + Z.b2z (tone_present window)))
  else Ok (mkListening window count (li_levels l) (li_tones l)).

Fixpoint hear_all (samples : list f64) (l : Listening) : result MicError Listening :=
  match samples with [] => Ok l | x :: samples' => l ← hear x l; hear_all samples' l end.

(** One packet; [inl]: the time is up, the inner loop is left. *)
Definition take_packet (p : Packet) (l : Listening) : result MicError (unit + Listening) :=
  _ ← ensure (pk_size_ok p) MicDevice;
  _ ← ensure (negb (pk_cancelled p)) MicCancelled;
  if DURATION_MS <=? pk_before p then Ok (inl tt)
  else
    b ← ok_or MicDevice (pk_buffer p);
    _ ← ensure (pk_released p) MicDevice;
    _ ← ensure (negb (invalid b)) MicInvalidPacket;
    if pk_after p <? SETTLE_MS then Ok (inr l)
    else
      _ ← ensure (negb (bf_interrupted b)) MicInterrupted;
      inr <$> hear_all (buffer_samples b) l.

Fixpoint take_packets (ps : list Packet) (l : Listening) : result MicError Listening :=
  match ps with
  | [] => Ok l
  | p :: ps' =>
      r ← take_packet p l;
      match r with inl _ => Ok l | inr l => take_packets ps' l end
  end.

(** The loop; [None]: it still runs when the script ends. *)
Fixpoint listen_loop (rounds : list Round) (l : Listening) : option (result MicError Listening) :=
  match rounds with
  | [] => None
  | r :: rounds' =>
      if DURATION_MS <=? rd_elapsed r then Some (Ok l)
      else if rd_cancelled r then Some (Err MicCancelled)
      else
        match take_packets (rd_packets r) l with
        | Err e => Some (Err e)
        | Ok l => listen_loop rounds' l
        end
  end.

(** [Microphone::measure], after [restarted] said whether the device could be
    stopped, reset and started. *)
Definition mic_measure (raw restarted : bool) (rounds : list Round) : option (result MicError Measurement) :=
  if negb restarted then Some (Err MicDevice)
  else
    r ← listen_loop rounds listening_new;
    Some (l ← r;
          '(level, spread) ← median_level (li_levels l);
          Ok (mkMeasurement level spread (li_tones l) (Z.of_nat (length (li_levels l))) raw)).

(** [Microphone::open]: what each system call answers; the raw mode is given up
    when the client cannot be initialised with it. *)
Record OpenCalls : Type := mkOpenCalls {
  oc_com : bool;
  oc_enumerator : bool;
  oc_endpoint : bool;
  oc_activate : bool;
  oc_raw_properties : bool;
  oc_initialize : bool;
  oc_activate_again : bool;
  oc_initialize_plain : bool;
  oc_service : bool;
  oc_start : bool;
}.

Definition mic_open (c : OpenCalls) : result MicError bool :=
  _ ← ensure (oc_com c) MicDevice;
  _ ← ensure (oc_enumerator c) MicDevice;
  _ ← ensure (oc_endpoint c) MicDevice;
  _ ← ensure (oc_activate c) MicDevice;
  '(raw, initialized) ←
    (if oc_raw_properties c && negb (oc_initialize c)
     then _ ← ensure (oc_activate_again c) MicDevice; Ok (false, oc_initialize_plain c)
     else Ok (oc_raw_properties c, oc_initialize c));
  _ ← ensure initialized MicDevice;
  _ ← ensure (oc_service c) MicDevice;
  _ ← ensure (oc_start c) MicDevice;
  Ok raw.
End window.

(** ** Cutting a list into windows *)

Section cutting.
Context {A : Type}.
Variable k : nat.
Hypothesis Hk : (0 < k)%nat.
Implicit Types (xs : list A).

Fixpoint cut_into (n : nat) xs : list (list A) :=
  match n with O => [] | S n' => take k xs :: cut_into n' (drop k xs) end.
Definition whole xs : list (list A) := cut_into (length xs / k) xs.
Definition rest xs : list A := drop (k * (length xs / k)) xs.

Lemma cut_into_snoc n xs : cut_into (S n) xs = cut_into n xs ++ [take k (drop (k * n) xs)].
Proof.
  revert xs. induction n as [|n IH]; intros xs; [by rewrite Nat.mul_0_r, drop_0|].
  change (cut_into (S (S n)) xs) with (take k xs :: cut_into (S n) (drop k xs)). rewrite IH. simpl.
  rewrite drop_drop. by replace (k + k * n)%nat with (k * S n)%nat by lia.
Qed.

Lemma cut_into_app n xs ys : (k * n <= length xs)%nat -> cut_into n (xs ++ ys) = cut_into n xs.
Proof.
  revert xs. induction n as [|n IH]; intros xs Hn; [done|]. simpl. rewrite take_app_le by lia.
  rewrite drop_app_le by lia. rewrite IH; [done|]. rewrite length_drop. lia.
Qed.

Lemma whole_length xs : length (whole xs) = (length xs / k)%nat.
Proof.
  unfold whole. generalize (length xs / k)%nat. intros n. revert xs. induction n as [|n IH]; intros xs; simpl; [done|by rewrite IH].
Qed.

Lemma div_bounds xs : (k * (length xs / k) <= length xs < k * (length xs / k) + k)%nat.
Proof. pose proof (Nat.Div0.mul_div_le (length xs) k). pose proof (Nat.mul_succ_div_gt (length xs) k ltac:(lia)). lia. Qed.

Lemma rest_length xs : (length (rest xs) < k)%nat.
Proof. unfold rest. rewrite length_drop. pose proof (div_bounds xs). lia. Qed.

(** One more element completes a window or not. *)
Lemma whole_snoc xs y :
  (S (length (rest xs)) = k /\ whole (xs ++ [y]) = whole xs ++ [rest xs ++ [y]] /\ rest (xs ++ [y]) = []) \/
  (S (length (rest xs)) < k /\ whole (xs ++ [y]) = whole xs /\ rest (xs ++ [y]) = rest xs ++ [y])%nat.
Proof.
  pose proof (div_bounds xs) as Hb. pose proof (rest_length xs) as Hr.
  assert (length (rest xs) = length xs - k * (length xs / k))%nat as Hl by (unfold rest; by rewrite length_drop).
  unfold whole, rest in *. rewrite length_app. simpl. set (n := (length xs / k)%nat) in *.
  destruct (Nat.eq_dec (S (length (drop (k * n) xs))) k) as [Heq|Hne].
  - left. split; [done|]. assert ((length xs + 1) / k = S n)%nat as ->.
    { symmetry. apply (Nat.div_unique _ _ _ 0); lia. }
    rewrite cut_into_snoc, cut_into_app by lia. split.
    + f_equal. f_equal. rewrite drop_app_le by lia. apply take_ge. rewrite length_app. simpl. lia.
    + apply drop_ge. rewrite length_app. simpl. lia.
  - right. split; [lia|]. assert ((length xs + 1) / k = n)%nat as ->.
    { symmetry. apply (Nat.div_unique _ _ _ (length xs + 1 - k * n)); lia. }
    rewrite cut_into_app by lia. split; [done|]. by rewrite drop_app_le by lia.
Qed.
End cutting.

(** ** The loop against whole windows *)

Section listening.
Context {LM : Libm} {CS : Cosine}.

Definition WIN : nat := Z.to_nat WINDOW.
Lemma WIN_pos : (0 < WIN)%nat.
Proof. unfold WIN, WINDOW. lia. Qed.

Definition window_of (xs : list f64) : LevelWindow := foldl (fun w x => push x w) window_new xs.
Definition level_of_window (w : list f64) : option f64 := match finish (window_of w) with Ok l => Some l | Err _ => None end.
Definition levels_of (xs : list f64) : list f64 := omap level_of_window (whole WIN xs).
Definition tones_of (xs : list f64) : Z := Z.of_nat (length (filter (fun w => tone_present (window_of w) = true) (whole WIN xs))).
Definition unclipped (xs : list f64) : bool := forallb (fun w => is_ok (finish (window_of w))) (whole WIN xs).

(** The state of the loop after the samples [xs]. *)
Definition heard_as (xs : list f64) : Listening :=
  mkListening (window_of (rest WIN xs)) (Z.of_nat (length (rest WIN xs))) (levels_of xs) (tones_of xs).

Lemma window_of_snoc xs y : window_of (xs ++ [y]) = push y (window_of xs).
Proof. unfold window_of. by rewrite foldl_app. Qed.

Lemma window_count xs : lw_count (window_of xs) = Z.of_nat (length xs).
Proof.
  induction xs as [|y xs IH] using rev_ind; [done|]. rewrite window_of_snoc, length_app. simpl. rewrite IH. lia.
Qed.

Lemma window_clipped xs : lw_clipped (window_of xs) = existsb clips xs.
Proof.
  induction xs as [|y xs IH] using rev_ind; [done|]. rewrite window_of_snoc, existsb_app. simpl. by rewrite IH, orb_false_r.
Qed.

Lemma window_finish_spec xs :
  xs <> [] -> finish (window_of xs) = if existsb clips xs then Err MicClipped else Ok (f64_mul (f64_of_Z 10) (log10 (power (window_of xs)))).
Proof.
  intros Hne. unfold finish. rewrite window_count, window_clipped.
  destruct (Z.eqb_spec (Z.of_nat (length xs)) 0) as [Hz|_]; [|done]. destruct xs; [done|]. simpl in Hz. lia.
Qed.

Lemma unclipped_snoc xs y : unclipped (xs ++ [y]) = true -> unclipped xs = true.
Proof.
  unfold unclipped. destruct (whole_snoc WIN WIN_pos xs y) as [(_ & -> & _)|(_ & -> & _)]; [|done].
  rewrite forallb_app. by intros [? _]%andb_true_iff.
Qed.
Lemma unclipped_app xs ys : unclipped (xs ++ ys) = true -> unclipped xs = true.
Proof.
  induction ys as [|y ys IH] using rev_ind; [by rewrite app_nil_r|]. rewrite app_assoc. intros H%unclipped_snoc. auto.
Qed.

Lemma hear_spec y xs :
  hear y (heard_as xs) = if unclipped xs && negb (unclipped (xs ++ [y])) then Err MicClipped else
    if unclipped xs then Ok (heard_as (xs ++ [y])) else hear y (heard_as xs).
Proof.
  destruct (unclipped xs) eqn:Hxs; [|done]. unfold hear, heard_as. cbn [li_window li_count li_levels li_tones].
  rewrite <- window_of_snoc. unfold levels_of, tones_of, unclipped in *.
  destruct (whole_snoc WIN WIN_pos xs y) as [(Hl & Hw & Hr)|(Hl & Hw & Hr)].
  - destruct (Z.eqb_spec (Z.of_nat (length (rest WIN xs)) + 1) WINDOW) as [_|Hne]; [|unfold WIN, WINDOW in *; lia].
    rewrite Hw, Hr, forallb_app, Hxs. simpl. rewrite window_finish_spec by (by destruct (rest WIN xs)).
    destruct (existsb clips (rest WIN xs ++ [y])) eqn:E; [done|]. simpl. rewrite omap_app, filter_app, length_app.
    unfold level_of_window at 3. simpl. rewrite window_finish_spec, E by (by destruct (rest WIN xs)). simpl.
    f_equal. f_equal. rewrite filter_cons, filter_nil. destruct (tone_present _); simpl; lia.
  - destruct (Z.eqb_spec (Z.of_nat (length (rest WIN xs)) + 1) WINDOW) as [He|_]; [unfold WIN, WINDOW in *; lia|].
    rewrite Hw, Hr, Hxs. simpl. rewrite length_app. simpl. do 2 f_equal. lia.
Qed.

Lemma hear_all_spec ys xs :
  unclipped xs = true ->
  hear_all ys (heard_as xs) = if unclipped (xs ++ ys) then Ok (heard_as (xs ++ ys)) else Err MicClipped.
Proof.
  revert xs. induction ys as [|y ys IH]; intros xs Hxs; [by rewrite app_nil_r, Hxs|].
  cbn [hear_all]. rewrite hear_spec, Hxs. simpl. destruct (unclipped (xs ++ [y])) eqn:E; simpl.
  - rewrite IH by done. by rewrite <- app_assoc.
  - destruct (unclipped (xs ++ y :: ys)) eqn:E'; [|done].
    replace (xs ++ y :: ys) with ((xs ++ [y]) ++ ys) in E' by by rewrite <- app_assoc.
    apply unclipped_app in E'. congruence.
Qed.

(** The samples a script gives after the settling time. *)
Fixpoint packets_samples (ps : list Packet) : list f64 :=
  match ps with
  | [] => []
  | p :: ps' =>
      if DURATION_MS <=? pk_before p then []
      else (if pk_after p <? SETTLE_MS then [] else from_option buffer_samples [] (pk_buffer p)) ++ packets_samples ps'
  end.
Fixpoint settled_samples (rounds : list Round) : list f64 :=
  match rounds with
  | [] => []
  | r :: rounds' => if DURATION_MS <=? rd_elapsed r then [] else packets_samples (rd_packets r) ++ settled_samples rounds'
  end.

(** Nothing went wrong before the time was up. *)
Definition packet_fine (p : Packet) : bool :=
  match pk_buffer p with
  | Some b => pk_released p && negb (invalid b) && ((pk_after p <? SETTLE_MS) || negb (bf_interrupted b))
  | None => false
  end.
Fixpoint packets_fine (ps : list Packet) : bool :=
  match ps with
  | [] => true
  | p :: ps' => pk_size_ok p && negb (pk_cancelled p) && ((DURATION_MS <=? pk_before p) || (packet_fine p && packets_fine ps'))
  end.
Fixpoint rounds_fine (rounds : list Round) : bool :=
  match rounds with
  | [] => false
  | r :: rounds' => (DURATION_MS <=? rd_elapsed r) || (negb (rd_cancelled r) && packets_fine (rd_packets r) && rounds_fine rounds')
  end.

Lemma take_packets_spec ps xs l :
  unclipped xs = true ->
  take_packets ps (heard_as xs) = Ok l <->
  packets_fine ps = true /\ unclipped (xs ++ packets_samples ps) = true /\ l = heard_as (xs ++ packets_samples ps).
Proof.
  revert xs. induction ps as [|p ps IH]; intros xs Hxs; cbn [take_packets packets_fine packets_samples].
  { rewrite app_nil_r. split; [by intros [= <-]|by intros (_ & _ & ->)]. }
  unfold take_packet. destruct (pk_size_ok p); cbn; [|by split; [|intros [? _]]].
  destruct (pk_cancelled p); cbn; [by split; [|intros [? _]]|].
  destruct (DURATION_MS <=? pk_before p); cbn.
  { rewrite app_nil_r. split; [by intros [= <-]|by intros (_ & _ & ->)]. }
  unfold packet_fine. destruct (pk_buffer p) as [b|]; cbn; [|by split; [|intros [? _]]].
  destruct (pk_released p); cbn; [|by split; [|intros [? _]]].
  destruct (invalid b); cbn; [by split; [|intros [? _]]|].
  destruct (pk_after p <? SETTLE_MS); cbn; [by apply IH|].
  destruct (bf_interrupted b); cbn; [by split; [|intros [? _]]|].
  rewrite hear_all_spec, app_assoc by done. destruct (unclipped (xs ++ buffer_samples b)) eqn:E; cbn; [by apply IH|].
  split; [done|]. intros (_ & H%unclipped_app & _). congruence.
Qed.

Lemma listen_loop_spec rounds xs l :
  unclipped xs = true ->
  listen_loop rounds (heard_as xs) = Some (Ok l) <->
  rounds_fine rounds = true /\ unclipped (xs ++ settled_samples rounds) = true /\ l = heard_as (xs ++ settled_samples rounds).
Proof.
  revert xs. induction rounds as [|r rounds IH]; intros xs Hxs; cbn [listen_loop rounds_fine settled_samples]; [by split; [|intros [? _]]|].
  destruct (DURATION_MS <=? rd_elapsed r); cbn.
  { rewrite app_nil_r. split; [by intros [= <-]|by intros (_ & _ & ->)]. }
  destruct (rd_cancelled r); cbn; [by split; [|intros [? _]]|].
  destruct (take_packets (rd_packets r) (heard_as xs)) as [l'|e] eqn:E.
  - apply take_packets_spec in E as (H1 & H2 & ->); [|done]. rewrite H1, app_assoc. simpl. by apply IH.
  - split; [done|]. intros (Hf & Hu & ->). apply andb_true_iff in Hf as [Hf _]. rewrite app_assoc in Hu. apply unclipped_app in Hu.
    destruct (take_packets_spec (rd_packets r) xs (heard_as (xs ++ packets_samples (rd_packets r))) Hxs) as [_ H].
    rewrite H in E; [done|done].
Qed.
End listening.

(** ** The order of the levels *)

(** The rank of a double: class, exponent, mantissa. *)
Definition rank (x : f64) : Z * Z * Z :=
  match x with
  | S754_infinity true => (0, 0, 0)
  | S754_finite true m e => (1, - e, Z.neg m)
  | S754_zero true => (2, 0, 0)
  | S754_zero false => (3, 0, 0)
  | S754_finite false m e => (4, e, Z.pos m)
  | S754_infinity false => (5, 0, 0)
  | S754_nan => (6, 0, 0)
  end.
Definition rank_le (a b : Z * Z * Z) : Prop :=
  a.1.1 < b.1.1 \/ (a.1.1 = b.1.1 /\ (a.1.2 < b.1.2 \/ (a.1.2 = b.1.2 /\ a.2 <= b.2))).

Lemma total_le_rank x y : total_le x y <-> rank_le (rank x) (rank y).
Proof.
  destruct x as [[]|[]| |[] m e], y as [[]|[]| |[] m' e']; cbn; unfold rank_le; cbn; try (split; [lia|done]); try (split; [done|lia]).
  all: unfold SFleb; cbn [SFcompare]; destruct (Z.compare_spec e e') as [->|?|?]; try (split; [lia|done]); try (split; [done|lia]).
  all: fold (Pos.compare m m'); destruct (Pos.compare_spec m m') as [->|?|?]; cbn; try (split; [lia|done]); try (split; [done|lia]).
Qed.

#[export] Instance total_le_total : Total total_le.
Proof. intros x y. rewrite !total_le_rank. unfold rank_le. lia. Qed.
#[export] Instance total_le_trans : Transitive total_le.
Proof. intros x y z. rewrite !total_le_rank. unfold rank_le. lia. Qed.

(** ** Properties *)

Section properties.
Context {LM : Libm} {CS : Cosine}.

(** What the level of the samples [xs] is, window by window. *)
Definition reading (raw : bool) (xs : list f64) (m : Measurement) : Prop :=
  let n := length (whole WIN xs) in
  exists sorted, sorted ≡ₚ levels_of xs /\ StronglySorted total_le sorted /\ length sorted = n /\
    m = mkMeasurement (nth (n / 2) sorted zero) (f64_sub (nth (n - 2) sorted zero) (nth 1 sorted zero)) (tones_of xs) (Z.of_nat n) raw.

Lemma levels_length xs : unclipped xs = true -> length (levels_of xs) = length (whole WIN xs).
Proof.
  unfold unclipped, levels_of. induction (whole WIN xs) as [|w ws IH]; simpl; [done|]. rewrite andb_true_iff. intros [Hw Hws].
  unfold level_of_window at 1. destruct (finish (window_of w)); [|done]. simpl. f_equal. by apply IH.
Qed.

Lemma listen_loop_ends rounds l : listen_loop rounds l = None -> Forall (fun r => rd_elapsed r < DURATION_MS) rounds.
Proof.
  revert l. induction rounds as [|r rounds IH]; intros l H; [constructor|]. cbn [listen_loop] in H.
  destruct (Z.leb_spec DURATION_MS (rd_elapsed r)); [done|]. destruct (rd_cancelled r); [done|].
  destruct (take_packets (rd_packets r) l) as [l'|]; [|done]. constructor; [lia|by eapply IH].
Qed.

Lemma listening_new_heard : listening_new = heard_as [].
Proof. reflexivity. Qed.

Lemma median_spec xs level spread :
  unclipped xs = true -> median_level (levels_of xs) = Ok (level, spread) ->
  (8 <= length (whole WIN xs))%nat /\
  forall raw, reading raw xs (mkMeasurement level spread (tones_of xs) (Z.of_nat (length (levels_of xs))) raw).
Proof.
  intros Hu Hm. unfold median_level in Hm. rewrite (levels_length xs Hu) in Hm |- *.
  destruct (Nat.ltb_spec (length (whole WIN xs)) 8); [done|]. injection Hm as <- <-. split; [lia|]. intros raw.
  pose proof (merge_sort_Permutation total_le (levels_of xs)) as Hp.
  assert (length (merge_sort total_le (levels_of xs)) = length (whole WIN xs)) as Hlen by (by rewrite Hp, levels_length).
  exists (merge_sort total_le (levels_of xs)). split_and!; [done|by apply StronglySorted_merge_sort; apply _|done|by rewrite Hlen].
Qed.

(** C26. A measurement always ends, after at most 401 rounds of its loop, because
    each round sleeps five milliseconds; and what it reports is the reading of
    whole windows.  It succeeds exactly when the device answered every call
    until the time was up, nothing was cancelled, no packet was invalid or - once
    the settling time is over - interrupted, no sample of a complete window was
    clipped, and at least eight windows of 4800 samples were heard after the
    settling time; the result is then the median of the windows' levels, the
    distance between the second greatest and the second least, and the number of
    windows with the calibration tone.  An unfinished window at the end counts
    for nothing. *)
Theorem measurement_is_of_whole_windows (raw restarted : bool) (rounds : list Round)
  (Hclock : forall i r, rounds !! i = Some r -> 5 * Z.of_nat i <= rd_elapsed r) (Hlong : (400 < length rounds)%nat) :
  let xs := settled_samples rounds in
  exists outcome, mic_measure raw restarted rounds = Some outcome /\
    ((exists m, outcome = Ok m) <->
     restarted = true /\ rounds_fine rounds = true /\ unclipped xs = true /\ (8 <= length (whole WIN xs))%nat) /\
    forall m, outcome = Ok m -> reading raw xs m.
Proof.
  intros xs. unfold mic_measure. destruct restarted; cbn [negb].
  2:{ eexists. split; [reflexivity|]. split; [split; [by intros [m ?]|by intros [? _]]|done]. }
  destruct (listen_loop rounds listening_new) as [r|] eqn:E.
  2:{ apply listen_loop_ends in E. rewrite Forall_lookup in E. destruct (lookup_lt_is_Some_2 rounds 400 Hlong) as [r Hr].
      specialize (E _ _ Hr). specialize (Hclock _ _ Hr). unfold DURATION_MS in E. lia. }
  cbn [mbind option_bind]. eexists. split; [reflexivity|]. rewrite listening_new_heard in E. destruct r as [l|e].
  - apply listen_loop_spec in E as (Hf & Hu & ->); [|done]. cbn [app] in *. fold xs in Hu |- *.
    cbn [mbind result_bind heard_as li_levels li_tones]. destruct (median_level (levels_of xs)) as [[level spread]|e] eqn:Em; cbn.
    + destruct (median_spec xs level spread Hu Em) as [H8 Hr]. split; [|by intros m [= <-]].
      split; [done|]. intros _. by eexists.
    + split; [|done]. split; [by intros [m ?]|]. intros (_ & _ & _ & H8). exfalso. unfold median_level in Em.
      rewrite (levels_length xs Hu) in Em. destruct (Nat.ltb_spec (length (whole WIN xs)) 8); [lia|done].
  - cbn. split; [|done]. split; [by intros [m ?]|]. intros (_ & Hf & Hu & _). exfalso.
    destruct (listen_loop_spec rounds [] (heard_as xs) eq_refl) as [_ H]. rewrite H in E; [done|]. by split_and!.
Qed.
End properties.

(** ** Witness: a quiet room *)

Definition flat_libm : Libm := {| powf _ _ := f64_of_Z 1; log10 _ := f64_of_Z (-12) |}.
Definition flat_cosine : Cosine := {| cosf _ := f64_of_Z 1 |}.

(** Every five milliseconds 240 silent frames. *)
Definition quiet_round (i : nat) : Round :=
  let t := 5 * Z.of_nat i in mkRound t false [mkPacket true false t (Some (mkBuffer 240 true false None)) true t].
Definition quiet_room : list Round := quiet_round <$> seq 0 401.

Lemma quiet_room_clock i r : quiet_room !! i = Some r -> 5 * Z.of_nat i <= rd_elapsed r.
Proof.
  unfold quiet_room. rewrite list_lookup_fmap_Some. intros (j & -> & Hj%lookup_seq). simpl. destruct Hj as [-> _]. simpl. lia.
Qed.

Lemma measurement_is_of_whole_windows_witness :
  rounds_fine quiet_room = true /\ Z.of_nat (length (settled_samples quiet_room)) = 57600 /\
  exists outcome, mic_measure (H := flat_libm) (H0 := flat_cosine) true true quiet_room = Some outcome /\
    ((exists m, outcome = Ok m) <->
     true = true /\ rounds_fine quiet_room = true /\
     unclipped (LM := flat_libm) (CS := flat_cosine) (settled_samples quiet_room) = true /\
     (8 <= length (whole WIN (settled_samples quiet_room)))%nat) /\
    forall m, outcome = Ok m -> reading (LM := flat_libm) (CS := flat_cosine) true (settled_samples quiet_room) m.
Proof.
  split; [vm_compute; reflexivity|]. split; [vm_compute; reflexivity|].
  apply (measurement_is_of_whole_windows (LM := flat_libm) (CS := flat_cosine) true true quiet_room quiet_room_clock).
  vm_compute. lia.
Defined.
