(* ===== verification/Waveform.v ===== *)
(** * Waveform: the sound of the calibration tone

    The samples of [read_tone] in [android/.../device_control.rs]: six sines, a
    fade at the start, and the cast to 16 bits, on IEEE doubles as in
    [Loudness].  The precision of [sin] is left open by the language: it is an
    argument, of which only its range is used. *)

From Stdlib Require Import ZArith Lia.
From Stdlib Require Import SpecFloat.
From stdpp Require Import base list.
From S2P Require Import Prelude Wire Float32 DeviceControl Loudness Microphone.
Open Scope Z_scope.

(** [x as i16]. *)
Definition f64_as_i16 (x : f64) : Z :=
  match x with
  | S754_zero _ | S754_nan => 0
  | S754_infinity sign => if sign then -32768 else 32767
  | S754_finite sign m e =>
      let magnitude := if 0 <=? e then Z.pos m * 2 ^ e else Z.pos m / 2 ^ (- e) in
      if sign then Z.max (-32768) (- magnitude) else Z.min 32767 magnitude
  end.

(** [Iterator::sum] of floats starts from -0. *)
Definition f64_sum : list f64 -> f64 := foldl f64_add (S754_zero true).

(** The platform's sine: a number in its range, or NaN where it has none. *)
Class Sine : Type := { sin : f64 -> f64 }.

Section wave.
Context `{!Sine}.

Definition tone_value (position : Z) : f64 :=
  let t := f64_div (f64_of_Z (position mod 48000)) (f64_of_Z 48000) in
  f64_sum ((fun f => sin (f64_mul (f64_mul TAU (f64_of_Z f)) t)) <$> CALIBRATION_FREQUENCIES).

Definition tone_fade (position : Z) : f64 := f64_div (f64_of_Z (Z.min position 960)) (f64_of_Z 960).

Definition tone_wave (position : Z) : Z :=
  f64_as_i16 (f64_mul (f64_mul (tone_value position) (tone_fade position)) (f64_of_Z 600)).
End wave.

(** ** Bounds of rounded values *)

(** [m * 2 ^ e <= k]. *)
Definition at_most (m e k : Z) : Prop := m * 2 ^ Z.max 0 e <= k * 2 ^ Z.max 0 (- e).

Lemma at_most_scale s m e k : 0 <= s -> 0 <= e + s -> at_most m e k <-> m * 2 ^ (e + s) <= k * 2 ^ s.
Proof.
  intros Hs He. unfold at_most. destruct (Z.le_gt_cases 0 e) as [Hp|Hn].
  - rewrite Z.max_r, Z.max_l, Z.mul_1_r by lia. rewrite Z.pow_add_r, Z.mul_assoc by lia.
    apply Z.mul_le_mono_pos_r. apply Z.pow_pos_nonneg; lia.
  - rewrite Z.max_l, Z.max_r, Z.mul_1_r by lia. assert (2 ^ s = 2 ^ (- e) * 2 ^ (e + s)) as ->
      by (rewrite <- Z.pow_add_r by lia; f_equal; lia). rewrite Z.mul_assoc. apply Z.mul_le_mono_pos_r. apply Z.pow_pos_nonneg; lia.
Qed.

(** A finite value of at most [k], without its sign. *)
Definition bounded (k : Z) (x : f64) : Prop :=
  match x with
  | S754_zero _ => True
  | S754_finite _ m e => at_most (Z.pos m) e k
  | _ => False
  end.

(** Rounding the mantissa does not pass a whole number below [2 ^ 53]. *)
Lemma first_rounding_at_most (m : positive) (e k : Z) :
  0 <= k < 2 ^ 53 -> at_most (Z.pos m) e k ->
  let '(mrs, e') := shr_fexp 53 1024 (Z.pos m) e loc_Exact in
  let r := round_nearest_even (shr_m mrs) (loc_of_shr_record mrs) in
  0 <= r <= 2 ^ 53 /\ at_most r e' k /\ -1074 <= e' <= 52.
Proof.
  intros Hk Hle. unfold shr_fexp. cbn [shr_record_of_loc Zdigits2]. set (d := Z.pos (digits2_pos m)).
  pose proof (digits2_spec m) as [Hlow Hup]. fold d in Hlow, Hup. set (n := fexp 53 1024 (d + e) - e).
  assert (d + e <= 53) as Hde.
  { apply Z.le_ngt. intros Hgt. apply (at_most_scale (Z.max 0 (- e))) in Hle; [|lia..].
    assert (2 ^ 53 * 2 ^ Z.max 0 (- e) <= Z.pos m * 2 ^ (e + Z.max 0 (- e))); [|nia].
    rewrite <- Z.pow_add_r by lia.
    transitivity (2 ^ (d - 1) * 2 ^ (e + Z.max 0 (- e))); [|apply Z.mul_le_mono_nonneg_r; [apply Z.pow_nonneg; lia|done]].
    rewrite <- Z.pow_add_r by lia. apply Z.pow_le_mono_r; lia. }
  assert (e + Z.max 0 n = Z.max e (Z.max (d + e - 53) (-1074))) as He' by (unfold n, fexp, emin; lia).
  destruct (shr_spec (Z.pos m) e n ltac:(lia)) as (mrs & e' & E & Heq & Hm & Hexact). rewrite E. rewrite He' in Heq.
  destruct (Z.le_gt_cases n 0) as [Hn|Hn].
  { rewrite Hexact by done. cbn [round_nearest_even]. rewrite Hm, Z.max_l, Z.div_1_r by done.
    assert (e' = e) as -> by (unfold n, fexp, emin in Hn; lia). split_and!; [lia| |done|lia|lia].
    transitivity (2 ^ d); [lia|]. apply Z.pow_le_mono_r; [lia|]. unfold n, fexp, emin in Hn. lia. }
  rewrite Z.max_r in Hm, He' by lia. assert (e' = e + n) as He1 by lia. assert (e' <= 0) as He0 by lia.
  assert (0 < 2 ^ n) as H2n by (apply Z.pow_pos_nonneg; lia).
  set (K := k * 2 ^ (- e')). assert (0 <= K) as HK by (apply Z.mul_nonneg_nonneg; [lia|apply Z.pow_nonneg; lia]).
  assert (Z.pos m <= K * 2 ^ n) as Hmk.
  { apply (at_most_scale (- e)) in Hle; [|lia..]. rewrite Z.add_opp_diag_r, Z.mul_1_r in Hle. unfold K.
    rewrite <- Z.mul_assoc, <- Z.pow_add_r by lia. by replace (- e' + n) with (- e) by lia. }
  assert (shr_m mrs < 2 ^ 53) as H53.
  { rewrite Hm. apply Z.div_lt_upper_bound; [done|]. eapply Z.lt_le_trans; [exact Hup|].
    rewrite <- Z.pow_add_r by lia. apply Z.pow_le_mono_r; [lia|]. unfold n, fexp, emin. lia. }
  assert (0 <= shr_m mrs) as H0 by (rewrite Hm; apply Z.div_pos; lia).
  assert (round_nearest_even (shr_m mrs) (loc_of_shr_record mrs) <= K) as HrK.
  { destruct (Z.eq_dec (Z.pos m) (K * 2 ^ n)) as [Hkm|Hkm].
    - rewrite Hkm, shr_exact in E by lia. injection E as <- _. done.
    - assert (shr_m mrs < K) by (rewrite Hm; apply Z.div_lt_upper_bound; lia).
      destruct (round_even_spec (shr_m mrs) (loc_of_shr_record mrs)) as [->|[-> _]]; lia. }
  split_and!; try lia.
  - destruct (round_even_spec (shr_m mrs) (loc_of_shr_record mrs)) as [->|[-> _]]; lia.
  - destruct (round_even_spec (shr_m mrs) (loc_of_shr_record mrs)) as [->|[-> _]]; lia.
  - apply (at_most_scale (- e')); [lia..|]. by rewrite Z.add_opp_diag_r, Z.mul_1_r.
Qed.

Lemma round_bounded sx (m : positive) (e k : Z) :
  0 <= k < 2 ^ 53 -> at_most (Z.pos m) e k -> bounded k (binary_round_aux 53 1024 sx (Z.pos m) e loc_Exact).
Proof.
  intros Hk Hle. pose proof (first_rounding_at_most m e k Hk Hle) as H. unfold binary_round_aux.
  destruct (shr_fexp 53 1024 (Z.pos m) e loc_Exact) as [mrs e1]. set (r := round_nearest_even _ _) in *.
  destruct H as (Hr & Hrk & He1). unfold shr_fexp. cbn [shr_record_of_loc]. set (n := fexp 53 1024 _ - e1).
  destruct (shr_spec r e1 n) as (mrs2 & e2 & -> & He2 & Hm2 & _); [lia|].
  assert (n <= 1) as Hn.
  { pose proof (digits_below r 54 ltac:(lia) ltac:(lia)). unfold n, fexp, emin. lia. }
  assert (0 <= shr_m mrs2) as H0 by (rewrite Hm2; apply Z.div_pos; [lia|apply Z.pow_pos_nonneg; lia]).
  assert (at_most (shr_m mrs2) e2 k) as Hfinal.
  { apply (at_most_scale 1074); [lia..|]. apply (at_most_scale 1074) in Hrk; [|lia..]. etransitivity; [|exact Hrk].
    rewrite Hm2, He2. replace (e1 + Z.max 0 n + 1074) with (Z.max 0 n + (e1 + 1074)) by lia. rewrite Z.pow_add_r, Z.mul_assoc by lia.
    apply Z.mul_le_mono_nonneg_r; [apply Z.pow_nonneg; lia|]. rewrite Z.mul_comm. apply Z.mul_div_le. apply Z.pow_pos_nonneg; lia. }
  destruct (shr_m mrs2) as [|q|q]; [done| |lia]. destruct (Z.leb_spec e2 (1024 - 53)); [done|lia].
Qed.

(** A value of at most [k], or NaN. *)
Definition bounded_or_nan (k : Z) (x : f64) : Prop := x = S754_nan \/ bounded k x.

Lemma mul_bounded a b x y :
  0 <= a -> 0 <= b -> a * b < 2 ^ 53 -> bounded_or_nan a x -> bounded_or_nan b y -> bounded_or_nan (a * b) (f64_mul x y).
Proof.
  intros Ha Hb Hab [->|Hx] [->|Hy]; [by left..|by left; destruct x|]. right.
  destruct x as [sx|sx| |sx m1 e1], y as [sy|sy| |sy m2 e2]; try done. cbn in Hx, Hy.
  unfold f64_mul. cbn [SFmul]. apply round_bounded; [nia|].
  set (s1 := Z.max 0 (- e1)). set (s2 := Z.max 0 (- e2)).
  apply (at_most_scale s1) in Hx; [|lia..]. apply (at_most_scale s2) in Hy; [|lia..]. apply (at_most_scale (s1 + s2)); [lia..|].
  replace (e1 + e2 + (s1 + s2)) with (e1 + s1 + (e2 + s2)) by lia. rewrite (Z.pow_add_r 2 (e1 + s1)), Pos2Z.inj_mul by lia.
  transitivity ((Z.pos m1 * 2 ^ (e1 + s1)) * (Z.pos m2 * 2 ^ (e2 + s2))); [lia|].
  transitivity ((a * 2 ^ s1) * (b * 2 ^ s2)); [|rewrite (Z.pow_add_r 2 s1) by lia; lia].
  apply Z.mul_le_mono_nonneg; [|done| |done]; apply Z.mul_nonneg_nonneg; try lia; apply Z.pow_nonneg; lia.
Qed.

Lemma at_most_align m e e' k : e' <= e -> at_most m e k <-> at_most (m * 2 ^ (e - e')) e' k.
Proof.
  intros H. set (s := Z.max 0 (- e')). rewrite (at_most_scale s m e), (at_most_scale s _ e') by lia.
  rewrite <- Z.mul_assoc, <- Z.pow_add_r by lia. by replace (e - e' + (e' + s)) with (e + s) by lia.
Qed.

Lemma normalize_bounded m e k szero :
  0 <= k < 2 ^ 53 -> at_most (Z.abs m) e k -> bounded k (binary_normalize 53 1024 m e szero).
Proof.
  intros Hk Hm. assert (forall sx p, at_most (Z.pos p) e k -> bounded k (binary_round 53 1024 sx p e)) as Hround.
  { intros sx p Hp. unfold binary_round. set (e' := fexp 53 1024 _). destruct (shl_align p e e') as [mz ez] eqn:E.
    apply round_bounded; [done|]. unfold shl_align in E. destruct (e' - e) as [|d|d] eqn:Ed; [by injection E as <- <-..|].
    assert (e' <= e) as He by lia. pose proof (shl_align_value p e e' He) as Hv. unfold shl_align in Hv. rewrite Ed in Hv.
    injection E as <- <-. cbn [fst] in Hv. rewrite Hv. by apply at_most_align. }
  destruct m as [|p|p]; [done|by apply Hround..].
Qed.

Lemma add_bounded a b x y :
  0 <= a -> 0 <= b -> a + b < 2 ^ 53 -> bounded_or_nan a x -> bounded_or_nan b y -> bounded_or_nan (a + b) (f64_add x y).
Proof.
  intros Ha Hb Hab [->|Hx] [->|Hy]; [by left..|by left; destruct x|]. right.
  assert (forall m e k l, 0 <= l -> at_most m e k -> at_most m e (k + l)) as Hmono.
  { intros m e k l Hl. unfold at_most. pose proof (Z.pow_nonneg 2 (Z.max 0 (- e)) ltac:(lia)). nia. }
  destruct x as [sx|sx| |sx m1 e1], y as [sy|sy| |sy m2 e2]; try done; unfold f64_add; cbn [SFadd].
  - by destruct sx, sy.
  - cbn. rewrite Z.add_comm. by apply Hmono.
  - by apply Hmono.
  - set (e := Z.min e1 e2). apply normalize_bounded; [lia|]. cbn in Hx, Hy.
    apply (at_most_align _ _ e) in Hx; [|lia]. apply (at_most_align _ _ e) in Hy; [|lia].
    rewrite !shl_align_value by lia. unfold at_most in *. unfold cond_Zopp.
    pose proof (Z.pow_nonneg 2 (e1 - e) ltac:(lia)). pose proof (Z.pow_nonneg 2 (e2 - e) ltac:(lia)).
    pose proof (Z.pow_nonneg 2 (Z.max 0 e) ltac:(lia)). destruct sx, sy; nia.
Qed.

Lemma cast_bounded k x : 0 <= k <= 32767 -> bounded_or_nan k x -> - k <= f64_as_i16 x <= k.
Proof.
  intros Hk [->|Hx]; [cbn; lia|]. destruct x as [sx|sx| |sx m e]; cbn in Hx |- *; try lia.
  assert (0 <= (if 0 <=? e then Z.pos m * 2 ^ e else Z.pos m / 2 ^ (- e)) <= k) as Hmag.
  { unfold at_most in Hx. destruct (Z.leb_spec 0 e).
    - rewrite Z.max_r, Z.max_l, Z.mul_1_r in Hx by lia. split; [|done]. apply Z.mul_nonneg_nonneg; [lia|apply Z.pow_nonneg; lia].
    - rewrite Z.max_l, Z.max_r, Z.mul_1_r in Hx by lia. assert (0 < 2 ^ (- e)) by (apply Z.pow_pos_nonneg; lia).
      split; [apply Z.div_pos; lia|]. apply Z.div_le_upper_bound; lia. }
  destruct sx; lia.
Qed.

(** ** The tone *)

Class SineLaws `{!Sine} : Prop := { sin_range x : bounded_or_nan 1 (sin x) }.

Lemma fold_bounded l k acc :
  0 <= k -> k + Z.of_nat (length l) < 2 ^ 53 -> Forall (bounded_or_nan 1) l -> bounded_or_nan k acc ->
  bounded_or_nan (k + Z.of_nat (length l)) (foldl f64_add acc l).
Proof.
  intros Hk Hb H. revert k acc Hk Hb. induction H as [|x l Hx _ IH]; intros k acc Hk Hb Hacc; cbn [foldl length] in *.
  - by rewrite Z.add_0_r.
  - rewrite Nat2Z.inj_succ in *. replace (k + Z.succ (Z.of_nat (length l))) with (k + 1 + Z.of_nat (length l)) by lia.
    apply IH; [lia..|]. apply add_bounded; [done|lia|lia|done|done].
Qed.

Lemma sum_bounded l : Z.of_nat (length l) < 2 ^ 53 -> Forall (bounded_or_nan 1) l -> bounded_or_nan (Z.of_nat (length l)) (f64_sum l).
Proof. intros Hl H. apply (fold_bounded l 0); [done..|]. by right. Qed.

Definition boundedb (k : Z) (x : f64) : bool :=
  match x with S754_zero _ => true | S754_finite _ m e => Z.pos m * 2 ^ Z.max 0 e <=? k * 2 ^ Z.max 0 (- e) | _ => false end.

Lemma boundedb_spec k x : boundedb k x = true -> bounded k x.
Proof. destruct x; cbn; try done. unfold at_most. lia. Qed.

(** The fade grows from nothing to one over 960 frames. *)
Lemma fade_table : forallb (fun n => boundedb 1 (tone_fade (Z.of_nat n))) (seq 0 961) = true.
Proof. vm_compute. reflexivity. Qed.

Lemma fade_bounded position : 0 <= position -> bounded 1 (tone_fade position).
Proof.
  intros H. assert (tone_fade position = tone_fade (Z.of_nat (Z.to_nat (Z.min position 960)))) as ->.
  { unfold tone_fade. rewrite Z2Nat.id by lia. by rewrite <- Z.min_assoc. }
  apply boundedb_spec. pose proof fade_table as Ht. rewrite forallb_forall in Ht. apply Ht. apply in_seq. lia.
Qed.

Section tone.
Context `{HS : !Sine, HL : !SineLaws}.

Lemma tone_wave_bounded position : 0 <= position -> - 3600 <= tone_wave position <= 3600.
Proof.
  intros Hp. unfold tone_wave. apply (cast_bounded 3600); [lia|]. change 3600 with (6 * 1 * 600).
  apply mul_bounded; [lia..| |right; by apply boundedb_spec].
  apply mul_bounded; [lia..| |right; by apply fade_bounded].
  unfold tone_value. match goal with |- bounded_or_nan _ (f64_sum ?l) => change 6 with (Z.of_nat (length l)) end.
  apply sum_bounded; [done|]. apply Forall_fmap, Forall_forall. intros f _. apply sin_range.
Qed.

(** A tone starts from silence. *)
Lemma tone_wave_start : tone_wave 0 = 0.
Proof.
  unfold tone_wave. change (tone_fade 0) with (S754_zero false : f64).
  assert (forall x : f64, f64_mul x (S754_zero false) = S754_nan \/ exists s, f64_mul x (S754_zero false) = S754_zero s) as Hz.
  { intros [s|s| |s m e]; cbn; eauto. }
  destruct (Hz (tone_value 0)) as [->|[s ->]]; [done|]. by destruct s.
Qed.

(** After the fade it repeats every second. *)
Lemma tone_wave_periodic position : 960 <= position -> tone_wave (position + 48000) = tone_wave position.
Proof.
  intros H. unfold tone_wave, tone_value, tone_fade. rewrite !Z.min_r by lia.
  replace (position + 48000) with (position + 1 * 48000) by lia. by rewrite Z.mod_add.
Qed.

Definition stereo (f : Z -> Z) (start : Z) (frames : nat) : list Z :=
  seq 0 frames ≫= fun offset => let value := f (wrapping_add 64 start (Z.of_nat offset)) in [value; value].

Lemma stereo_length f start frames : length (stereo f start frames) = (2 * frames)%nat.
Proof.
  unfold stereo. generalize 0%nat at 1. induction frames as [|frames IH]; intros k; [done|].
  cbn [seq]. rewrite bind_cons, length_app, IH. cbn [length]. lia.
Qed.

Lemma stereo_app f start n m :
  stereo f start (n + m) = stereo f start n ++ stereo f (wrapping_add 64 start (Z.of_nat n)) m.
Proof.
  unfold stereo. rewrite seq_app, bind_app. f_equal.
  replace (seq (0 + n) m) with (Nat.add n <$> seq 0 m) by (rewrite fmap_add_seq; f_equal; lia). rewrite list_fmap_bind.
  apply list_bind_ext; [|done]. intros i. cbn. unfold wrapping_add. rewrite wrap_add_l.
  by replace (start + Z.of_nat (n + i)) with (start + Z.of_nat n + Z.of_nat i) by lia.
Qed.

Lemma stereo_forall (P : Z -> Prop) f start frames : (forall i, P (f (wrapping_add 64 start i))) -> Forall P (stereo f start frames).
Proof.
  intros H. unfold stereo. apply Forall_bind, Forall_forall. intros i _. repeat constructor; apply H.
Qed.

Lemma stereo_channels f start frames i : stereo f start frames !! (2 * i)%nat = stereo f start frames !! (2 * i + 1)%nat.
Proof.
  unfold stereo. set (pair := fun offset => _).
  assert (forall first i, (seq first frames ≫= pair) !! (2 * i)%nat = (seq first frames ≫= pair) !! (2 * i + 1)%nat) as H; [|apply H].
  clear i.
  induction frames as [|frames IH]; intros first i; [done|]. cbn [seq]. rewrite bind_cons. destruct i as [|i]; [reflexivity|].
  replace (2 * S i)%nat with (S (S (2 * i))) by lia. replace (S (S (2 * i)) + 1)%nat with (S (S (2 * i + 1))) by lia. apply IH.
Qed.

(** A tone that is heard has not expired. *)
Lemma read_tone_stereo w d d1 now now_active frames out :
  read_tone w d now now_active frames = (d1, Some out) ->
  tone_active d now now_active = (d, true) /\ out = stereo w (dc_position d) frames /\
  d1 = with_position (wrapping_add 64 (dc_position d) (Z.of_nat frames)) d.
Proof.
  unfold read_tone. assert ((tone_active d now now_active).2 = true -> tone_active d now now_active = (d, true)) as Hp.
  { unfold tone_active, expire_tone. destruct (tn_until (dc_tone d)) as [until|] eqn:E; cbn [fst snd]; [|by rewrite E].
    destruct (until <=? now); [by destruct (negb _)|]. rewrite E. cbn. by intros ->. }
  destruct (tone_active d now now_active) as [d0 [|]]; [|done]. specialize (Hp eq_refl). injection Hp as ->.
  cbn [negb]. by intros [= <- <-].
Qed.

(** C27. The calibration tone never clips and has no seams.  Every sample is within
    3600, so the cast to 16 bits loses only the fraction; both channels get the
    same; a tone at position 0, where [request_tone] puts a new one, starts from silence; and what two calls of the
    audio callback read one after the other, while the tone lasts, is what one
    call for all the frames would have read. *)
Theorem tone_never_clips (d d1 : DeviceControl) now now_active frames out :
  read_tone tone_wave d now now_active frames = (d1, Some out) ->
  length out = (2 * frames)%nat /\ Forall (fun x => - 3600 <= x <= 3600) out /\
  (forall i, out !! (2 * i)%nat = out !! (2 * i + 1)%nat) /\
  (dc_position d = 0 -> (0 < frames)%nat -> take 2 out = [0; 0]) /\
  (forall d2 now' now_active' frames' out', read_tone tone_wave d1 now' now_active' frames' = (d2, Some out') ->
     exists d3, read_tone tone_wave d now now_active (frames + frames') = (d3, Some (out ++ out')) /\
       dc_position d3 = dc_position d2).
Proof.
  intros Hread. destruct (read_tone_stereo _ _ _ _ _ _ _ Hread) as (Hactive & -> & Hpos). split_and!.
  - apply stereo_length.
  - apply stereo_forall. intros i. apply tone_wave_bounded, wrapping_add_range. lia.
  - apply stereo_channels.
  - intros -> Hframes. destruct frames as [|frames]; [lia|].
    unfold stereo. cbn [seq]. rewrite bind_cons. change (wrapping_add 64 0 (Z.of_nat 0)) with 0. by rewrite tone_wave_start.
  - intros d2 now' now_active' frames' out' Hread'. destruct (read_tone_stereo _ _ _ _ _ _ _ Hread') as (_ & -> & Hpos').
    subst d1. cbn [dc_position with_position] in *. rewrite <- stereo_app. eexists. unfold read_tone. rewrite Hactive. cbn [negb].
    split; [reflexivity|]. rewrite Hpos'. cbn. unfold wrapping_add. rewrite wrap_add_l. f_equal. lia.
Qed.
End tone.

(** ** Witness *)

(** A sine that is always one: the loudest there can be. *)
#[local] Instance loudest : Sine := {| sin _ := f64_of_Z 1 |}.
#[local] Instance loudest_laws : SineLaws.
Proof. split. intros x. right. by apply boundedb_spec. Qed.

Definition sounding (position : Z) : DeviceControl := mkDeviceControl [] [] (mkTone 3 (Some 5000) false) position true.
Definition heard (position now : Z) (frames : nat) : list Z := default [] (read_tone tone_wave (sounding position) now now frames).2.

Lemma tone_never_clips_witness :
  heard 0 0 3 = [0; 0; 3; 3; 7; 7] /\ heard 960 0 2 = [3600; 3600; 3600; 3600] /\
  heard 0 0 5 = heard 0 0 3 ++ heard 3 100 2 /\ Forall (fun x => - 3600 <= x <= 3600) (heard 960 0 2).
Proof.
  split_and!; [vm_compute; reflexivity..|].
  refine (proj1 (proj2 (tone_never_clips (sounding 960) (with_position 962 (sounding 960)) 0 0 2 _ _))).
  vm_compute. reflexivity.
Defined.
