(* ===== verification/Calibration.v ===== *)
(** * Calibration: measuring which volumes of two phones sound alike

    [windows-server/src/application/calibration.rs].  The calibration thread is
    a sequence of calls on the shared registry, interleaved with everything the
    other threads do to it, with waiting loops that sleep and watch the clock
    and the cancellation, and with microphone measurements.  It is written in a
    state and error monad over a [World] that holds the registry, the clock, the
    schedule of the other threads, what the microphone will hear, the local
    variable [begun], and a log of the calls and answers. *)

From Stdlib Require Import ZArith Lia.
From S2P Require Import Prelude BTree Wire Text Storage Registry Profiles Loudness.

(** ** Errors and texts *)

Inductive CalError : Type :=
| CalProfile (e : ProfileError)
| CalRegistry (e : RegistryError)
| CalMissing (name : rstring)
| CalChanged (name : rstring)
| CalMasterGone
| CalBeginChanged
| CalNoFollowers
| CalMicrophone
| CalNoisy
| CalStepRejected
| CalNoMasterCurve
| CalMasterUnmeasurable
| CalNoFollowerCurve
| CalDrift
| CalNoMapping
| CalNoRange (name : rstring)
| CalFixed (name : rstring)
| CalNotSpeaker (name : rstring)
| CalNoIdentifier
| CalCancelled
| CalToneRefused (enabled : bool)
| CalToneTimeout (enabled : bool)
| CalDisconnected
| CalInterrupted
| CalVolumeChanged
| CalStillTone
| CalBackground
| CalNoTone
| CalUnstable
| CalLevel (e : LevelError)
| CalRejected (name : rstring)
| CalTimeout
| CalRestoreUnconfirmed
| CalPanicked
| CalOutOfFuel
(** "not committed", with the cause if any and what to restore by hand: name,
    volume and maximum of each phone *)
| CalNotCommitted (by_hand : list (rstring * Z * Z))
| CalNotCommittedFor (cause : CalError) (by_hand : list (rstring * Z * Z)).

Inductive CalMessage : Type :=
| SayNothing
| SayPreparing
| SayAmbient
| SayMeasuring (name : rstring) (index maximum : Z)
| SayVerifying (name : rstring) (master_index index : Z)
| SayRestoring
| SayCancelled
| SayDone
| SayError (e : CalError).

(** ** Pure checks *)

Definition commit_confirmed (actual original : DeviceStatus) (index : Z) : bool :=
  negb (ds_failed actual) && negb (ds_fixed actual) && ds_speaker actual
  && bool_decide (ds_device_id actual = ds_device_id original)
  && (ds_minimum actual =? ds_minimum original)
  && (ds_maximum actual =? ds_maximum original)
  && (ds_volume actual =? index).

Definition validate_device (d : DeviceStatus) : result CalError unit :=
  _ ← ensure (ds_minimum d <? ds_maximum d) (CalNoRange (ds_name d));
  _ ← ensure (negb (ds_failed d) && negb (ds_fixed d)) (CalFixed (ds_name d));
  _ ← ensure (ds_speaker d) (CalNotSpeaker (ds_name d));
  ensure (negb (bool_decide (ds_device_id d = []))) CalNoIdentifier.

(** ** The world of the thread *)

(** What the thread asked for and what it was told; the answer of a request is
    its number, [None] if it could not be queued.  The log is not part of the
    code: [CalibrationSafety.performs] says which call on the registry, with
    which answer, each entry stands for, and [chains_run] proves that the log of
    a run is the calls it made.  A measurement is of whatever sounds at that
    point of the log. *)
Inductive log_entry : Type :=
| LogQuery (id : Z) (request : option Z)
| LogVolume (id index : Z) (request : option Z)
| LogSession (id : Z) (action : CalibrationAction) (request : option Z)
| LogTone (id : Z) (enabled : bool) (request : option Z)
| LogAllTonesOff
| LogReply (id request : Z) (status : DeviceStatus)
| LogToneReply (id request : Z) (playing failed : bool)
| LogMeasured (heard : option Measurement).

Section world.
Context {Sender : Type}.

(** What the other threads do before a call of this one: operations on the
    registry, a cancellation, and the time (in milliseconds) they take. *)
Record Moment : Type := mkMoment {
  mo_ops : list (registry_op Sender);
  mo_cancel : bool;
  mo_elapsed : nat;
}.

Record World : Type := mkWorld {
  w_reg : Registry Sender;
  w_now : Z;
  w_cancelled : bool;
  w_schedule : nat -> Moment;
  w_turn : nat;
  w_microphone : nat -> option Measurement;
  w_measured : nat;
  w_begun : list (Z * DeviceStatus);
  w_message : CalMessage;
  w_log : list log_entry;
}.
End world.
Arguments Moment : clear implicits.
Arguments World : clear implicits.

(** The monad: state and errors. *)
Definition Calib (Sender A : Type) : Type := World Sender -> World Sender * result CalError A.

#[export] Instance calib_ret {Sender} : MRet (Calib Sender) := fun A a w => (w, Ok a).
#[export] Instance calib_bind {Sender} : MBind (Calib Sender) := fun A B f m w =>
  match m w with
  | (w', Ok a) => f a w'
  | (w', Err e) => (w', Err e)
  end.

Section calibration.
Context {Sender : Type} `{MS : !Mpsc Sender ControlMessage} `{LM : !Libm}.
Abbreviation World := (World Sender).
Abbreviation Calib := (Calib Sender).

Definition fail {A} (e : CalError) : Calib A := fun w => (w, Err e).
Definition lift {A} (r : result CalError A) : Calib A := fun w => (w, r).
Definition require (c : bool) (e : CalError) : Calib unit := lift (ensure c e).
(** [let outcome = (|| { ... })()]: the error becomes a value. *)
Definition attempt {A} (m : Calib A) : Calib (result CalError A) := fun w =>
  let '(w, r) := m w in (w, Ok r).

Definition with_reg (r : Registry Sender) (w : World) : World :=
  mkWorld r (w_now w) (w_cancelled w) (w_schedule w) (w_turn w) (w_microphone w) (w_measured w)
    (w_begun w) (w_message w) (w_log w).
Definition pass (ms : Z) (w : World) : World :=
  mkWorld (w_reg w) (w_now w + ms) (w_cancelled w) (w_schedule w) (w_turn w) (w_microphone w) (w_measured w)
    (w_begun w) (w_message w) (w_log w).
Definition with_begun (b : list (Z * DeviceStatus)) (w : World) : World :=
  mkWorld (w_reg w) (w_now w) (w_cancelled w) (w_schedule w) (w_turn w) (w_microphone w) (w_measured w)
    b (w_message w) (w_log w).
Definition with_message (m : CalMessage) (w : World) : World :=
  mkWorld (w_reg w) (w_now w) (w_cancelled w) (w_schedule w) (w_turn w) (w_microphone w) (w_measured w)
    (w_begun w) m (w_log w).
Definition record (e : log_entry) (w : World) : World :=
  mkWorld (w_reg w) (w_now w) (w_cancelled w) (w_schedule w) (w_turn w) (w_microphone w) (w_measured w)
    (w_begun w) (w_message w) (w_log w ++ [e]).
Definition with_measured (n : nat) (w : World) : World :=
  mkWorld (w_reg w) (w_now w) (w_cancelled w) (w_schedule w) (w_turn w) (w_microphone w) n
    (w_begun w) (w_message w) (w_log w).

(** The other threads run. *)
Definition others (w : World) : World :=
  let m := w_schedule w (w_turn w) in
  mkWorld (registry_run (w_reg w) (mo_ops m)) (w_now w + Z.of_nat (mo_elapsed m))
    (w_cancelled w || mo_cancel m) (w_schedule w) (S (w_turn w)) (w_microphone w) (w_measured w)
    (w_begun w) (w_message w) (w_log w).

(** ** Primitive calls *)

Definition say (m : CalMessage) : Calib unit := fun w => (with_message m w, Ok tt).
Definition clock : Calib Z := fun w => (w, Ok (w_now w)).
(** [thread::sleep(20 ms)]: at least that long. *)
Definition sleep : Calib unit := fun w => (pass 20 (others w), Ok tt).
(** A token is the calibration's ([true]) or a fresh one nobody cancels. *)
Definition check_cancel (token : bool) : Calib unit := fun w =>
  (w, ensure (negb (token && w_cancelled w)) CalCancelled).
Definition new_begun : Calib unit := fun w => (with_begun [] w, Ok tt).
Definition push_begun (id : Z) (original : DeviceStatus) : Calib unit := fun w =>
  (with_begun (w_begun w ++ [(id, original)]) w, Ok tt).
Definition read_begun : Calib (list (Z * DeviceStatus)) := fun w => (w, Ok (w_begun w)).

Definition read_snapshots : Calib (list ReceiverSnapshot) := fun w =>
  let w := others w in (w, Ok (snapshots (w_reg w))).

(** A request to one phone, logged with its number. *)
Definition ask (call : Registry Sender -> Registry Sender * result RegistryError Z)
  (entry : option Z -> log_entry) : Calib Z := fun w =>
  let w := others w in
  let '(reg, r) := call (w_reg w) in
  let answer := match r with Ok request_id => Some request_id | Err _ => None end in
  (record (entry answer) (with_reg reg w), map_err CalRegistry r).

Definition ask_volume (id index : Z) : Calib Z :=
  ask (fun s => calibration_volume_request s id index) (LogVolume id index).
Definition ask_status (id : Z) : Calib Z := ask (fun s => request s id None) (LogQuery id).
Definition ask_session (id : Z) (action : CalibrationAction) : Calib Z :=
  ask (fun s => calibration_request s id action) (LogSession id action).
Definition ask_tone (id : Z) (enabled : bool) : Calib Z :=
  ask (fun s => tone_request s id enabled) (LogTone id enabled).

Definition poll_reply (id request_id : Z) : Calib (option DeviceStatus) := fun w =>
  let w := others w in
  let '(reg, r) := take_reply (w_reg w) id request_id in
  let w := with_reg reg w in
  (match r with Some status => record (LogReply id request_id status) w | None => w end, Ok r).

Definition poll_tone (id request_id : Z) : Calib (option (bool * bool)) := fun w =>
  let w := others w in
  let '(reg, r) := take_tone_reply (w_reg w) id request_id in
  let w := with_reg reg w in
  (match r with Some (playing, failed) => record (LogToneReply id request_id playing failed) w | None => w end, Ok r).

Definition all_tones_off : Calib unit := fun w =>
  let w := others w in
  (record LogAllTonesOff (with_reg (broadcast (w_reg w) (CalibrationTone 0 false)) w), Ok tt).

(** [Microphone::open] and [Microphone::measure]: the next thing the microphone
    yields; a measurement takes two seconds, and checks the cancellation. *)
Definition listen : Calib Measurement := fun w =>
  let heard := w_microphone w (w_measured w) in
  let w := with_measured (S (w_measured w)) (record (LogMeasured heard) w) in
  (pass 2000 (others w), ok_or CalMicrophone heard).
Definition microphone_open : Calib unit := fun w =>
  (with_measured (S (w_measured w)) w, (fun _ => tt) <$> ok_or CalMicrophone (w_microphone w (w_measured w))).
Definition microphone_measure (token : bool) : Calib Measurement :=
  m ← listen; _ ← check_cancel token; mret m.

(** ** Waiting *)

Definition REPLY_DEADLINE : Z := 3000.
(** The loops look at most 151 times: each round sleeps 20 ms or more. *)
Definition WAIT_FUEL : nat := 151.

Definition connected (id : Z) (ss : list ReceiverSnapshot) : bool := existsb (fun s => rs_id s =? id) ss.

(** The waiting loop of [await_reply] and of [switch_tone]: [poll] looks for the
    answer, [accept] judges it. *)
Fixpoint wait_loop {A B} (poll : Calib (option A)) (accept : A -> result CalError B) (timeout : CalError)
    (id : Z) (token : bool) (fuel : nat) (deadline : Z) : Calib B :=
  match fuel with
  | O => fail CalOutOfFuel
  | S fuel' =>
      _ ← check_cancel token;
      reply ← poll;
      match reply with
      | Some answer => lift (accept answer)
      | None =>
          now ← clock;
          _ ← require (now <? deadline) timeout;
          ss ← read_snapshots;
          _ ← require (connected id ss) CalDisconnected;
          _ ← sleep;
          wait_loop poll accept timeout id token fuel' deadline
      end
  end.

Definition wait_for {A B} (poll : Calib (option A)) (accept : A -> result CalError B) (timeout : CalError)
    (id : Z) (token : bool) : Calib B :=
  now ← clock; wait_loop poll accept timeout id token WAIT_FUEL (now + REPLY_DEADLINE).

Definition accept_status (status : DeviceStatus) : result CalError DeviceStatus :=
  _ ← ensure (negb (ds_failed status)) (CalRejected (ds_name status)); Ok status.

Definition await_reply (id request_id : Z) (token : bool) : Calib DeviceStatus :=
  wait_for (poll_reply id request_id) accept_status CalTimeout id token.

Definition exchange (id : Z) (index : option Z) (token : bool) : Calib DeviceStatus :=
  request_id ← match index with Some index => ask_volume id index | None => ask_status id end;
  await_reply id request_id token.

Definition exchange_session (id : Z) (action : CalibrationAction) (token : bool) : Calib DeviceStatus :=
  request_id ← ask_session id action;
  await_reply id request_id token.

Definition accept_tone (request_id : Z) (enabled : bool) (answer : bool * bool) : result CalError Z :=
  _ ← ensure (negb answer.2 && eqb answer.1 enabled) (CalToneRefused enabled); Ok request_id.

Definition switch_tone (id : Z) (enabled token : bool) : Calib Z :=
  request_id ← ask_tone id enabled;
  wait_for (poll_tone id request_id) (accept_tone request_id enabled) (CalToneTimeout enabled) id token.

(** ** Measuring *)

Record ToneMeasurement : Type := mkToneMeasurement { tm_signal : Measurement; tm_background : f64 }.

Definition measure_raw (id : Z) (background : f64) (token : bool) : Calib ToneMeasurement :=
  status ← exchange id None token;
  _ ← lift (validate_device status);
  started ← switch_tone id true token;
  result ← attempt (microphone_measure token);
  late ← poll_tone id started;
  let interrupted := match late with Some (playing, failed) => negb playing || failed | None => false end in
  stopped ← attempt (switch_tone id false false);
  signal ← lift result;
  _ ← lift stopped;
  _ ← require (negb interrupted) CalInterrupted;
  after ← exchange id None token;
  _ ← lift (validate_device after);
  _ ← require (ds_volume after =? ds_volume status) CalVolumeChanged;
  ambient ← microphone_measure token;
  _ ← require (negb (tone_detected ambient)) CalStillTone;
  _ ← require (f64_le (me_spread_db ambient) (f64_of_Z 3) && within 3 (me_level_dbfs ambient) background)
        CalBackground;
  mret (mkToneMeasurement signal (me_level_dbfs ambient)).

Definition level_of (m : ToneMeasurement) : result CalError f64 :=
  map_err CalLevel (signal_level (me_level_dbfs (tm_signal m)) (tm_background m)).

Definition measure (id : Z) (background : f64) (token : bool) : Calib f64 :=
  measurement ← measure_raw id background token;
  _ ← require (tone_detected (tm_signal measurement)) CalNoTone;
  _ ← require (f64_le (me_spread_db (tm_signal measurement)) (f64_of_Z 3)) CalUnstable;
  lift (level_of measurement).

(** ** The steps of [run] *)

Record CalibrationRequest : Type := mkCalibrationRequest {
  cr_reference : Z;
  cr_profile : Profile;
}.

Definition profile_devices (p : Profile) : list DeviceRange := pr_master p :: (fo_device <$> pr_followers p).

Definition is_device (id : rstring) (r : ReceiverSnapshot) : bool :=
  match rs_device r with Some d => bool_decide (ds_device_id d = id) | None => false end.

(** One device of the profile: the receiver that is it, and its state. *)
Definition identify (ss : list ReceiverSnapshot) (expected : DeviceRange) (token : bool)
  : Calib (Z * DeviceStatus) :=
  match filter (fun r => is_device (dr_id expected) r = true) ss with
  | [receiver] =>
      status ← exchange (rs_id receiver) None token;
      _ ← lift (validate_device status);
      _ ← require (matches expected status) (CalChanged (dr_name expected));
      mret (rs_id receiver, status)
  | _ => fail (CalMissing (dr_name expected))
  end.

(** A [for] loop that collects. *)
Fixpoint for_each {A B} (f : A -> Calib B) (l : list A) : Calib (list B) :=
  match l with
  | [] => mret []
  | x :: l' => y ← f x; ys ← for_each f l'; mret (y :: ys)
  end.

Definition begin_one (token : bool) (o : Z * DeviceStatus) : Calib unit :=
  request_id ← ask_session o.1 Begin;
  _ ← push_begun o.1 o.2;
  actual ← await_reply o.1 request_id token;
  require (commit_confirmed actual o.2 (ds_volume o.2)) CalBeginChanged.

(** [minimum.max(1)..=maximum]. *)
Definition measured_indices (d : DeviceStatus) : list Z :=
  let first := Z.max (ds_minimum d) 1 in seqZ first (ds_maximum d - first + 1).

(** One step of a device: a point if it can be trusted. *)
Definition measure_point (ambient : f64) (token : bool) (o : Z * DeviceStatus) (index : Z)
  : Calib (option (Z * f64)) :=
  _ ← say (SayMeasuring (ds_name o.2) index (ds_maximum o.2));
  actual ← exchange o.1 (Some index) token;
  _ ← require (commit_confirmed actual o.2 index) CalStepRejected;
  measured ← measure_raw o.1 ambient token;
  mret (if tone_detected (tm_signal measured) && f64_le (me_spread_db (tm_signal measured)) (f64_of_Z 3)
        then match level_of measured with Ok level => Some (index, level) | Err _ => None end
        else None).

Definition measure_curve (ambient : f64) (token : bool) (o : Z * DeviceStatus)
  : Calib (rstring * list (Z * f64)) :=
  points ← for_each (measure_point ambient token o) (measured_indices o.2);
  mret (ds_device_id o.2, omap id points).

Definition curve_of (curves : list (rstring * list (Z * f64))) (id : rstring) : option (list (Z * f64)) :=
  snd <$> find (fun c => bool_decide (c.1 = id)) curves.

(** One master step for one follower: the verified index, if any. *)
Definition match_step (reference id : Z) (name : rstring) (points : list (Z * f64)) (ambient : f64)
  (token : bool) (target : Z * f64) : Calib (option (Z * Z)) :=
  match best_step points target.2 with
  | None => mret None
  | Some (index, level) =>
      if negb (within 2 level target.2) then mret None
      else
        _ ← say (SayVerifying name target.1 index);
        _ ← exchange reference (Some target.1) token;
        repeated ← measure reference ambient token;
        _ ← require (within 2 repeated target.2) CalDrift;
        _ ← exchange id (Some index) token;
        verified ← measure id ambient token;
        mret (if within 2 verified repeated then Some (target.1, index) else None)
  end.

Definition insert_all (entries : list (Z * Z)) (m : btree Z) : btree Z :=
  foldl (fun m kv => bt_insert kv.1 kv.2 m) m entries.

Definition calibrate_follower (reference : Z) (originals : list (Z * DeviceStatus))
  (curves : list (rstring * list (Z * f64))) (targets : list (Z * f64)) (ambient : f64) (token : bool)
  (master : DeviceRange) (f : Follower) : Calib Follower :=
  let zero := if (dr_minimum master =? 0) && (dr_minimum (fo_device f) =? 0) then bt_insert 0 0 [] else [] in
  points ← lift (ok_or CalNoFollowerCurve (curve_of curves (dr_id (fo_device f))));
  original ← lift (ok_or CalPanicked
    (find (fun o => bool_decide (ds_device_id o.2 = dr_id (fo_device f))) originals));
  entries ← for_each (match_step reference original.1 (dr_name (fo_device f)) points ambient token) targets;
  mret (mkFollower (fo_device f) (insert_all (omap id entries) zero)).

Definition maps_above_minimum (p : Profile) : bool :=
  existsb (fun f => existsb (fun index => dr_minimum (pr_master p) <? index) (bt_keys (fo_mapping f)))
    (pr_followers p).

(** The closure whose result is [outcome]. *)
Definition calibrate (request : CalibrationRequest) (originals : list (Z * DeviceStatus)) (token : bool)
  : Calib Profile :=
  let profile := cr_profile request in
  _ ← for_each (begin_one token) originals;
  _ ← require (negb (bool_decide (pr_followers profile = []))) CalNoFollowers;
  _ ← microphone_open;
  _ ← say SayAmbient;
  ambient ← microphone_measure token;
  _ ← require (f64_le (me_spread_db ambient) (f64_of_Z 3) && negb (tone_detected ambient)) CalNoisy;
  curves ← for_each (measure_curve (me_level_dbfs ambient) token) originals;
  targets ← lift (ok_or CalNoMasterCurve (curve_of curves (dr_id (pr_master profile))));
  _ ← require (negb (bool_decide (targets = []))) CalMasterUnmeasurable;
  followers ← for_each (calibrate_follower (cr_reference request) originals curves targets
                          (me_level_dbfs ambient) token (pr_master profile)) (pr_followers profile);
  let profile := with_pr_followers followers profile in
  _ ← lift (map_err CalProfile (validate profile));
  _ ← require (maps_above_minimum profile) CalNoMapping;
  mret profile.

(** ** Restoring *)

Definition restore_one (o : Z * DeviceStatus) : Calib unit :=
  stopped ← attempt (switch_tone o.1 false false);
  actual ← exchange_session o.1 Cancel false;
  _ ← lift stopped;
  require (commit_confirmed actual o.2 (ds_volume o.2)) CalRestoreUnconfirmed.

(** The phones to restore by hand. *)
Definition restore (begun : list (Z * DeviceStatus)) : Calib (list (rstring * Z * Z)) :=
  _ ← all_tones_off;
  failures ← for_each (fun o => restored ← attempt (restore_one o);
    mret (match restored with
          | Ok _ => None
          | Err _ => Some (ds_name o.2, ds_volume o.2, ds_maximum o.2)
          end)) begun;
  mret (omap id failures).

Definition run (request : CalibrationRequest) (token : bool) : Calib Profile :=
  let profile := cr_profile request in
  _ ← lift (map_err CalProfile (validate profile));
  ss ← read_snapshots;
  originals ← for_each (fun expected => identify ss expected token) (profile_devices profile);
  _ ← require (existsb (fun o => (o.1 =? cr_reference request)
                                 && bool_decide (ds_device_id o.2 = dr_id (pr_master profile))) originals)
        CalMasterGone;
  _ ← new_begun;
  outcome ← attempt (calibrate request originals token);
  _ ← say SayRestoring;
  begun ← read_begun;
  by_hand ← restore begun;
  match by_hand with
  | [] => lift outcome
  | _ => fail (match outcome with Ok _ => CalNotCommitted by_hand | Err e => CalNotCommittedFor e by_hand end)
  end.
End calibration.
