(* ===== verification/CalibrationSafety.v ===== *)
(** * CalibrationSafety: what a calibration leaves behind

    Theorems on [Calibration]: every run ends, restores what it touched, and
    returns only what it measured.  The computations are described by two
    judgements: [runs], over the log entries a computation adds, the phones it
    begins and its result, and [chains], which says that these entries are the
    calls made on the registry, with their answers, between the turns of the
    other threads ([between]).  The theorems combine the two: stretches of the
    log say what was done in which order, and the registry at a point of the log
    says what reached the queue of a phone. *)

From Stdlib Require Import ZArith Lia.
From S2P Require Import Prelude BTree Wire Text Storage Registry Profiles Loudness Calibration.

(** No result of the model's own: the waiting loops have fuel enough, and no
    [unwrap] fails. *)
Fixpoint proper_error (e : CalError) : Prop :=
  match e with
  | CalOutOfFuel | CalPanicked => False
  | CalNotCommittedFor cause _ => proper_error cause
  | _ => True
  end.
#[local] Hint Extern 0 (proper_error _) => exact I : core.
Definition good {A} (r : result CalError A) : Prop := forall e, r = Err e -> proper_error e.

Lemma wait_fuel : WAIT_FUEL = 151%nat.
Proof. done. Qed.

#[local] Opaque WAIT_FUEL.

(** ** Parts of a log: uninterrupted stretches of it *)

Definition part_of {A} (s d : list A) : Prop := exists a b, d = a ++ s ++ b.

Lemma part_of_refl {A} (d : list A) : part_of d d.
Proof. exists [], []. by rewrite app_nil_r. Qed.
Lemma part_of_app_l {A} (s a d : list A) : part_of s d -> part_of s (a ++ d).
Proof. intros (x & y & ->). exists (a ++ x), y. by rewrite <- !app_assoc. Qed.
Lemma part_of_app_r {A} (s d b : list A) : part_of s d -> part_of s (d ++ b).
Proof. intros (x & y & ->). exists x, (y ++ b). by rewrite <- !app_assoc. Qed.
Lemma part_of_cons {A} (x : A) s d : part_of s d -> part_of s (x :: d).
Proof. intros H. apply (part_of_app_l _ [x] _ H). Qed.
Lemma part_of_trans {A} (s d e : list A) : part_of s d -> part_of d e -> part_of s e.
Proof. intros (x & y & ->) (x' & y' & ->). apply part_of_app_l, part_of_app_r. by exists x, y. Qed.
Lemma part_of_elem {A} (s d : list A) x : part_of s d -> x ∈ s -> x ∈ d.
Proof. intros (a & b & ->) Hx. set_solver. Qed.

Create HintDb parts.
#[export] Hint Resolve part_of_refl part_of_app_l part_of_app_r part_of_cons : parts.

Lemma good_ok {A} (a : A) : good (Ok a).
Proof. intros e [=]. Qed.
Lemma good_err {A} e : proper_error e -> good (Err e : result CalError A).
Proof. intros He e' [= <-]. done. Qed.

Section judgement.
Context {Sender : Type} `{MS : !Mpsc Sender ControlMessage} `{LM : !Libm}.
Abbreviation World := (World Sender).
Abbreviation Calib := (Calib Sender).

(** What a computation may do: the entries added, the phones begun, the result. *)
Definition outcome (A : Type) : Type := list log_entry -> list (Z * DeviceStatus) -> result CalError A -> Prop.

Definition does {A} (w w' : World) (r : result CalError A) (Q : outcome A) : Prop :=
  exists d b, w_log w' = w_log w ++ d /\ w_begun w' = w_begun w ++ b /\ w_now w <= w_now w' /\ Q d b r.

Definition runs {A} (m : Calib A) (Q : outcome A) : Prop := forall w, does w (m w).1 (m w).2 Q.

Lemma does_weaken {A} (w w' : World) r (Q Q' : outcome A) :
  does w w' r Q -> (forall d b, Q d b r -> Q' d b r) -> does w w' r Q'.
Proof. intros (d & b & H1 & H2 & H3 & H4) H. exists d, b. auto. Qed.

Lemma runs_weaken {A} (m : Calib A) (Q Q' : outcome A) :
  runs m Q -> (forall d b r, Q d b r -> Q' d b r) -> runs m Q'.
Proof. intros Hm H w. eapply does_weaken; [apply Hm|auto]. Qed.

(** A computation that leaves log and phones alone. *)
Definition quiet {A} (Q : result CalError A -> Prop) : outcome A := fun d b r => d = [] /\ b = [] /\ Q r.

Lemma does_quiet {A} (w w' : World) r (Q : result CalError A -> Prop) :
  w_log w' = w_log w -> w_begun w' = w_begun w -> w_now w <= w_now w' -> Q r -> does w w' r (quiet Q).
Proof. intros H1 H2 H3 H4. exists [], []. rewrite H1, H2, !app_nil_r. by split_and!. Qed.

Lemma does_trans {A B} (w w1 w' : World) (r1 : result CalError A) (r : result CalError B) Q1 Q2 Q :
  does w w1 r1 Q1 -> does w1 w' r Q2 ->
  (forall d1 b1 d2 b2, Q1 d1 b1 r1 -> Q2 d2 b2 r -> Q (d1 ++ d2) (b1 ++ b2) r) -> does w w' r Q.
Proof.
  intros (d1 & b1 & H1 & H2 & H3 & H4) (d2 & b2 & G1 & G2 & G3 & G4) H.
  exists (d1 ++ d2), (b1 ++ b2). rewrite G1, G2, H1, H2, !app_assoc. split_and!; [done|done|lia|auto].
Qed.

Lemma bind_run {A B} (m : Calib A) (f : A -> Calib B) w :
  (m ≫= f) w = match m w with (w', Ok a) => f a w' | (w', Err e) => (w', Err e) end.
Proof. done. Qed.

(** Sequencing. *)
Lemma runs_bind {A B} (m : Calib A) (f : A -> Calib B) (Q1 : outcome A) (Q : outcome B) :
  runs m Q1 -> (forall d b e, Q1 d b (Err e) -> Q d b (Err e)) ->
  (forall a d1 b1, Q1 d1 b1 (Ok a) -> runs (f a) (fun d b r => Q (d1 ++ d) (b1 ++ b) r)) ->
  runs (m ≫= f) Q.
Proof.
  intros Hm He Hf w. unfold mbind, calib_bind. specialize (Hm w).
  destruct (m w) as [w1 [a|e]]; simpl in *.
  - destruct Hm as (d1 & b1 & H1 & H2 & H3 & H4).
    destruct (Hf a d1 b1 H4 w1) as (d & b & G1 & G2 & G3 & G4).
    exists (d1 ++ d), (b1 ++ b). rewrite G1, G2, H1, H2, !app_assoc. split_and!; [done|done|lia|done].
  - destruct Hm as (d & b & H1 & H2 & H3 & H4). exists d, b. auto.
Qed.

Lemma runs_ret {A} (a : A) : runs (mret a : Calib A) (quiet (fun r => r = Ok a)).
Proof. intros w. apply does_quiet; simpl; done || lia. Qed.

Lemma runs_lift {A} (r : result CalError A) : runs (lift r) (quiet (fun r' => r' = r)).
Proof. intros w. apply does_quiet; simpl; done || lia. Qed.

Lemma runs_fail {A} e : runs (fail e : Calib A) (quiet (fun r => r = Err e)).
Proof. intros w. apply does_quiet; simpl; done || lia. Qed.

Lemma runs_require c e : runs (require c e) (quiet (fun r => r = ensure c e)).
Proof. apply runs_lift. Qed.

Lemma runs_say m : runs (say m) (quiet (fun r => r = Ok tt)).
Proof. intros w. apply does_quiet; simpl; done || lia. Qed.

Lemma runs_attempt {A} (m : Calib A) Q :
  runs m Q -> runs (attempt m) (fun d b r => exists r0, r = Ok r0 /\ Q d b r0).
Proof.
  intros Hm w. unfold attempt. specialize (Hm w). destruct (m w) as [w1 r]. simpl in *.
  destruct Hm as (d & b & H1 & H2 & H3 & H4). exists d, b. split_and!; [done..|]. by exists r.
Qed.

Lemma others_frame (w : World) :
  w_log (others w) = w_log w /\ w_begun (others w) = w_begun w /\ w_now w <= w_now (others w).
Proof. unfold others. simpl. split_and!; [done|done|lia]. Qed.

Lemma runs_snapshots : runs read_snapshots (quiet (fun r => is_ok r = true)).
Proof.
  intros w. destruct (others_frame w) as (H1 & H2 & H3). by apply does_quiet.
Qed.

Lemma runs_check_cancel token : runs (check_cancel token) (quiet (@good _)).
Proof.
  intros w. apply does_quiet; simpl; [done|done|lia|]. unfold ensure. destruct (negb _); intros e [= <-]. done.
Qed.

(** ** Asking *)

Definition answered (entry : option Z -> log_entry) : outcome Z := fun d b r =>
  b = [] /\ good r /\ ((exists q, r = Ok q /\ d = [entry (Some q)]) \/ (exists e, r = Err e) /\ d = [entry None]).

Lemma runs_ask call entry : runs (ask call entry) (answered entry).
Proof.
  intros w. unfold ask. destruct (others_frame w) as (H1 & H2 & H3).
  destruct (call (w_reg (others w))) as [reg r]. simpl.
  exists [entry match r with Ok q => Some q | Err _ => None end], []. rewrite app_nil_r.
  split_and!; [done|done|done|]. split; [done|].
  destruct r as [q|e]; (split; [intros e' [= <-]; done|]); [left|right]; eauto.
Qed.

(** ** Waiting *)

(** A poll yields nothing, or one answer with its entry. *)
Definition polled {A} (entry : A -> log_entry) : outcome (option A) := fun d b r =>
  b = [] /\ ((r = Ok None /\ d = []) \/ exists x, r = Ok (Some x) /\ d = [entry x]).

Lemma runs_poll_reply id q : runs (poll_reply id q) (polled (LogReply id q)).
Proof.
  intros w. unfold poll_reply. destruct (others_frame w) as (H1 & H2 & H3).
  destruct (take_reply (w_reg (others w)) id q) as [reg [status|]]; simpl.
  - exists [LogReply id q status], []. rewrite app_nil_r. split_and!; simpl; [done|done|done|].
    split; [done|right; eauto].
  - exists [], []. rewrite !app_nil_r. split_and!; [done..|]. split; [done|by left].
Qed.

Lemma runs_poll_tone id q : runs (poll_tone id q) (polled (fun x => LogToneReply id q x.1 x.2)).
Proof.
  intros w. unfold poll_tone. destruct (others_frame w) as (H1 & H2 & H3).
  destruct (take_tone_reply (w_reg (others w)) id q) as [reg [[p f]|]]; simpl.
  - exists [LogToneReply id q p f], []. rewrite app_nil_r. split_and!; simpl; [done|done|done|].
    split; [done|right; by exists (p, f)].
  - exists [], []. rewrite !app_nil_r. split_and!; [done..|]. split; [done|by left].
Qed.

Definition awaited {A B} (entry : A -> log_entry) (accept : A -> result CalError B) : outcome B := fun d b r =>
  b = [] /\ good r /\ ((d = [] /\ is_err r = true) \/ exists x, d = [entry x] /\ r = accept x).

(** The waiting loop never runs out of fuel: each round takes 20 ms. *)
Lemma wait_loop_spec {A B} (poll : Calib (option A)) (accept : A -> result CalError B) timeout id token entry
  fuel deadline (w : World) :
  runs poll (polled entry) -> (forall x, good (accept x)) -> proper_error timeout ->
  (1 <= fuel)%nat -> deadline - w_now w <= 20 * (Z.of_nat fuel - 1) ->
  does w (wait_loop poll accept timeout id token fuel deadline w).1
         (wait_loop poll accept timeout id token fuel deadline w).2 (awaited entry accept).
Proof.
  intros Hpoll Hacc Htime. revert w. induction fuel as [|fuel IH]; intros w Hf Hd; [lia|].
  cbn [wait_loop]. rewrite !bind_run. simpl.
  destruct (negb (token && w_cancelled w)); simpl.
  2: { exists [], []. rewrite !app_nil_r. split_and!; [done|done|lia|]. split; [done|].
       split; [by apply good_err|by left]. }
  rewrite !bind_run. pose proof (Hpoll w) as Hp.
  destruct (poll w) as [w1 r]. simpl in Hp.
  destruct Hp as (d & b & H1 & H2 & H3 & -> & [[-> ->]|(x & -> & ->)]); rewrite app_nil_r in H2.
  2: { simpl. exists [entry x], []. rewrite app_nil_r. split_and!; [done|done|done|].
       split; [done|]. split; [apply Hacc|right; eauto]. }
  rewrite app_nil_r in H1. simpl.
  assert (forall w2 e, w_log w2 = w_log w1 -> w_begun w2 = w_begun w1 -> w_now w1 <= w_now w2 -> proper_error e ->
    does w w2 (Err e : result CalError B) (awaited entry accept)) as Hend.
  { intros w2 e G1 G2 G3 G4. exists [], []. rewrite !app_nil_r, G1, G2. split_and!; [done|done|lia|].
    split; [done|]. split; [by apply good_err|by left]. }
  rewrite !bind_run. simpl. destruct (Z.ltb_spec (w_now w1) deadline) as [Hlt|Hge]; simpl; rewrite ?bind_run; simpl.
  2: { apply Hend; done || lia. }
  rewrite ?bind_run. simpl. destruct (connected id _); simpl; rewrite ?bind_run; simpl; [|apply Hend; simpl; try done; lia].
  set (w2 := pass 20 (others (others w1))).
  assert (w_log w2 = w_log w1 /\ w_begun w2 = w_begun w1 /\ w_now w1 + 20 <= w_now w2) as (G1 & G2 & G3).
  { unfold w2. simpl. split_and!; [done|done|lia]. }
  destruct (IH w2) as (d & b & K1 & K2 & K3 & K4); [|lia|].
  { destruct fuel; [simpl in Hd; lia|lia]. }
  change ((sleep ≫= (fun _ => wait_loop poll accept timeout id token fuel deadline)) (others w1))
    with (wait_loop poll accept timeout id token fuel deadline w2).
  exists d, b. rewrite K1, K2, G1, G2, H1, H2. split_and!; [done|done|lia|done].
Qed.

Lemma runs_wait_for {A B} (poll : Calib (option A)) (accept : A -> result CalError B) timeout id token entry :
  runs poll (polled entry) -> (forall x, good (accept x)) -> proper_error timeout ->
  runs (wait_for poll accept timeout id token) (awaited entry accept).
Proof.
  intros H1 H2 H3 w. unfold wait_for, mbind, calib_bind. simpl. apply wait_loop_spec; try done.
  - rewrite wait_fuel. lia.
  - rewrite wait_fuel. unfold REPLY_DEADLINE. lia.
Qed.

Lemma runs_await_reply id q token : runs (await_reply id q token) (awaited (LogReply id q) accept_status).
Proof.
  apply runs_wait_for; [apply runs_poll_reply| |done].
  intros x e. unfold accept_status, ensure. destruct (negb _); simpl; intros [= <-]. done.
Qed.

Lemma runs_switch_tone id enabled token :
  runs (switch_tone id enabled token) (fun d b r =>
    b = [] /\ good r /\ exists answer rest, d = LogTone id enabled answer :: rest /\
      ((is_err r = true /\ (rest = [] \/ exists q p f, rest = [LogToneReply id q p f])) \/
       exists q, r = Ok q /\ answer = Some q /\ rest = [LogToneReply id q enabled false])).
Proof.
  unfold switch_tone. eapply runs_bind; [apply runs_ask| |].
  - intros d b e (-> & Hg & [(q & [=] & _)|[_ ->]]). split_and!; [done|done|]. exists None, [].
    split; [done|]. left. split; [done|by left].
  - intros q d1 b1 (-> & _ & [(q' & [= <-] & ->)|[[e [=]] _]]). eapply runs_weaken.
    + apply runs_wait_for; [apply runs_poll_tone| |done].
      intros x e. unfold accept_tone, ensure. destruct (_ && _); simpl; intros [= <-]. done.
    + intros d b r (-> & Hg & Hd). split_and!; [done|done|]. exists (Some q), d. split; [done|].
      destruct Hd as [[-> Hr]|([p f] & -> & ->)]; [left; split; [done|by left]|].
      unfold accept_tone, ensure. simpl. destruct (negb f && eqb p enabled) eqn:E; simpl.
      * right. apply andb_true_iff in E as [Ef Ep]. apply eqb_prop in Ep as ->.
        apply negb_true_iff in Ef as ->. by exists q.
      * left. split; [done|]. right. by exists q, p, f.
Qed.

(** ** Computations that stay within a set of entries *)

Definition only {A} (E : log_entry -> Prop) (P : list log_entry -> A -> Prop) : outcome A := fun d b r =>
  Forall E d /\ b = [] /\ good r /\ forall a, r = Ok a -> P d a.

Lemma only_bind {A B} (m : Calib A) (f : A -> Calib B) E P1 P2 :
  runs m (only E P1) ->
  (forall a d1, P1 d1 a -> runs (f a) (only E (fun d2 c => P2 (d1 ++ d2) c))) ->
  runs (m ≫= f) (only E P2).
Proof.
  intros Hm Hf. eapply runs_bind; [exact Hm| |].
  - intros d b e (H1 & H2 & H3 & _). split_and!; [done|done| |done]. intros e' [= <-]. by apply H3.
  - intros a d1 b1 (H1 & -> & _ & H4). eapply runs_weaken; [by apply Hf, H4|].
    intros d b r (G1 & -> & G3 & G4). split_and!; [by apply Forall_app|done|done|done].
Qed.

Lemma only_quiet {A} (m : Calib A) (Q : result CalError A -> Prop) E (P : list log_entry -> A -> Prop) :
  runs m (quiet Q) -> (forall r, Q r -> good r) -> (forall a, Q (Ok a) -> P [] a) -> runs m (only E P).
Proof.
  intros Hm Hg HP. eapply runs_weaken; [exact Hm|]. intros d b r (-> & -> & HQ).
  split_and!; [constructor|done|by apply Hg|]. intros a ->. by apply HP.
Qed.

Lemma only_ret {A} E (P : list log_entry -> A -> Prop) a : P [] a -> runs (mret a : Calib A) (only E P).
Proof.
  intros H. eapply only_quiet; [apply runs_ret|intros r ->; apply good_ok|]. by intros a' [= ->].
Qed.

Lemma only_lift {A} E (P : list log_entry -> A -> Prop) r :
  good r -> (forall a, r = Ok a -> P [] a) -> runs (lift r : Calib A) (only E P).
Proof. intros Hg H. eapply only_quiet; [apply runs_lift|by intros r' ->|]. intros a E'. by apply H. Qed.

Lemma good_ensure c e : proper_error e -> good (ensure c e).
Proof. intros He. unfold ensure. destruct c; [apply good_ok|by apply good_err]. Qed.

Lemma only_require E (P : list log_entry -> unit -> Prop) c e :
  proper_error e -> (c = true -> P [] tt) -> runs (require c e) (only E P).
Proof.
  intros He H. apply only_lift; [by apply good_ensure|]. intros [] Hc. apply H. by apply ensure_ok in Hc.
Qed.

Lemma only_say E (P : list log_entry -> unit -> Prop) m : P [] tt -> runs (say m) (only E P).
Proof. intros H. eapply only_quiet; [apply runs_say|intros r ->; apply good_ok|]. by intros [] _. Qed.

Lemma only_check_cancel E (P : list log_entry -> unit -> Prop) token :
  P [] tt -> runs (check_cancel token) (only E P).
Proof. intros H. eapply only_quiet; [apply runs_check_cancel|done|]. by intros [] _. Qed.

Lemma only_attempt {A} (m : Calib A) E (P : list log_entry -> A -> Prop) :
  runs m (only E P) -> runs (attempt m) (only E (fun d r => good r /\ forall a, r = Ok a -> P d a)).
Proof.
  intros Hm. eapply runs_weaken; [by apply runs_attempt|]. intros d b r' (r & -> & H1 & H2 & H3 & H4).
  split_and!; [done|done|apply good_ok|]. by intros r0 [= <-].
Qed.

Lemma only_weaken {A} (m : Calib A) (E E' : log_entry -> Prop) (P P' : list log_entry -> A -> Prop) :
  runs m (only E P) -> (forall e, E e -> E' e) -> (forall d a, P d a -> P' d a) -> runs m (only E' P').
Proof.
  intros Hm HE HP. eapply runs_weaken; [exact Hm|]. intros d b r (H1 & H2 & H3 & H4).
  split_and!; [by eapply Forall_impl|done|done|auto].
Qed.

(** A collecting loop: what holds of each result when it is computed and is not
    lost by a longer log holds of all at the end. *)
Lemma only_for_each {A B} (f : A -> Calib B) (l : list A) E (P : A -> list log_entry -> B -> Prop) :
  (forall x y d1 d2 d3, P x d2 y -> P x (d1 ++ d2 ++ d3) y) ->
  (forall x, x ∈ l -> runs (f x) (only E (P x))) ->
  runs (for_each f l) (only E (fun d ys => Forall2 (fun x y => P x d y) l ys)).
Proof.
  intros Hmono. induction l as [|x l IH]; intros Hf; simpl.
  - apply only_ret. constructor.
  - eapply only_bind; [apply Hf; set_solver|]. intros y d1 Hy. simpl.
    eapply only_bind; [apply IH; set_solver|]. intros ys d2 Hys. simpl.
    apply only_ret. rewrite app_nil_r. constructor.
    + apply (Hmono x y [] d1 d2 Hy).
    + eapply Forall2_impl; [exact Hys|]. intros x' y' H'. specialize (Hmono x' y' d1 d2 [] H').
      by rewrite app_nil_r in Hmono.
Qed.

(** ** Measurements *)

(** The entries of a measurement of the phones [ids]. *)
Definition measuring (ids : list Z) (e : log_entry) : Prop :=
  match e with
  | LogQuery id _ | LogVolume id _ _ | LogTone id _ _ | LogReply id _ _ | LogToneReply id _ _ _ => id ∈ ids
  | LogMeasured _ => True
  | LogSession _ _ _ | LogAllTonesOff => False
  end.

Lemma only_ask call entry E :
  (forall q, E (entry q)) -> runs (ask call entry) (only E (fun d q => d = [entry (Some q)])).
Proof.
  intros HE. eapply runs_weaken; [apply runs_ask|]. intros d b r (-> & Hg & Hr).
  split_and!; [|done|done|].
  - destruct Hr as [(q & _ & ->)|[_ ->]]; by repeat constructor.
  - intros a ->. destruct Hr as [(q & [= ->] & ->)|[[e [=]] _]]. done.
Qed.

Lemma only_await id q token E :
  (forall s, E (LogReply id q s)) ->
  runs (await_reply id q token)
    (only E (fun d status => d = [LogReply id q status] /\ ds_failed status = false)).
Proof.
  intros HE. eapply runs_weaken; [apply runs_await_reply|]. intros d b r (-> & Hg & Hr).
  split_and!; [|done|done|].
  - destruct Hr as [[-> _]|(x & -> & _)]; by repeat constructor.
  - intros a ->. destruct Hr as [[_ [=]]|(x & -> & Ha)]. unfold accept_status, ensure in Ha.
    destruct (ds_failed x) eqn:E0; [done|]. simpl in Ha. injection Ha as ->. done.
Qed.

Lemma only_exchange ids id index token :
  id ∈ ids ->
  runs (exchange id index token) (only (measuring ids) (fun d status =>
    ds_failed status = false /\
    exists q, d = [match index with Some i => LogVolume id i (Some q) | None => LogQuery id (Some q) end;
                   LogReply id q status])).
Proof.
  intros Hid. unfold exchange.
  eapply (only_bind _ _ _ (fun d q =>
    d = [match index with Some i => LogVolume id i (Some q) | None => LogQuery id (Some q) end])).
  - destruct index as [i|]; (apply only_ask; intros q; exact Hid).
  - intros q d1 Hd1. eapply (only_weaken _ (measuring ids)); [apply only_await; intros s; exact Hid|done|].
    intros d2 status [-> Hs]. split; [done|]. exists q. by rewrite Hd1.
Qed.

Lemma only_switch_tone ids id enabled token :
  id ∈ ids -> runs (switch_tone id enabled token) (only (measuring ids) (fun d q =>
    d = [LogTone id enabled (Some q); LogToneReply id q enabled false])).
Proof.
  intros Hid. eapply runs_weaken; [apply runs_switch_tone|].
  intros d b r (-> & Hg & answer & rest & -> & Hr). split_and!; [|done|done|].
  - constructor; [done|]. destruct Hr as [[_ [->|(q & p & f & ->)]]|(q & _ & _ & ->)]; by repeat constructor.
  - intros q ->. destruct Hr as [[[=] _]|(q' & [= <-] & -> & ->)]. done.
Qed.

Lemma only_poll_tone ids id q :
  id ∈ ids -> runs (poll_tone id q) (only (measuring ids) (fun d late =>
    d = match late with Some (playing, failed) => [LogToneReply id q playing failed] | None => [] end)).
Proof.
  intros Hid. eapply runs_weaken; [apply runs_poll_tone|].
  intros d b r (-> & [[-> ->]|([playing failed] & -> & ->)]); split_and!; try done; try apply good_ok;
    try (by repeat constructor); by intros a [= <-].
Qed.

Lemma only_microphone ids token :
  runs (microphone_measure token) (only (measuring ids) (fun d m => d = [LogMeasured (Some m)])).
Proof.
  unfold microphone_measure. eapply (only_bind _ _ _ (fun d m => d = [LogMeasured (Some m)])).
  - intros w. unfold listen. simpl. destruct (w_microphone w (w_measured w)) as [m|] eqn:Hm.
    + exists [LogMeasured (Some m)], []. rewrite app_nil_r. split_and!; [done|done|simpl; lia|].
      split_and!; [by repeat constructor|done|apply good_ok|]. by intros a [= <-].
    + exists [LogMeasured None], []. rewrite app_nil_r. split_and!; [done|done|simpl; lia|].
      split_and!; [by repeat constructor|done|by apply good_err|done].
  - intros m d1 ->. eapply only_bind; [by apply (only_check_cancel _ (fun d _ => d = []))|].
    intros [] d2 ->. by apply only_ret.
Qed.

Lemma good_validate_device d : good (validate_device d).
Proof.
  unfold validate_device, ensure.
  destruct (_ <? _); [|by apply good_err]. simpl. destruct (negb _ && _); [|by apply good_err]. simpl.
  destruct (ds_speaker d); [|by apply good_err]. simpl. destruct (negb _); [apply good_ok|by apply good_err].
Qed.

Lemma validate_device_playable d : validate_device d = Ok tt -> playable d = true.
Proof.
  unfold validate_device, ensure, playable. destruct (_ <? _); [|done]. simpl.
  destruct (ds_failed d), (ds_fixed d); try done. simpl. by destruct (ds_speaker d).
Qed.

Lemma only_validate_device E d : runs (lift (validate_device d)) (only E (fun e _ => e = [] /\ playable d = true)).
Proof.
  apply only_lift; [apply good_validate_device|]. intros [] H. split; [done|by apply validate_device_playable].
Qed.

(** The stretch of the log in which phone [id] alone plays the test tone and the
    microphone hears [m]; afterwards the tone is confirmed to be off, the phone
    is still the same working speaker at the same volume, and the microphone
    hears [back]. *)
Definition played (id : Z) (m back : Measurement) (seg : list log_entry) : Prop :=
  exists q1 st1 q2 late q3 q4 st2,
    seg = [LogQuery id (Some q1); LogReply id q1 st1; LogTone id true (Some q2); LogToneReply id q2 true false;
           LogMeasured (Some m)] ++ late ++
          [LogTone id false (Some q3); LogToneReply id q3 false false; LogQuery id (Some q4); LogReply id q4 st2;
           LogMeasured (Some back)] /\
    (late = [] \/ late = [LogToneReply id q2 true false]) /\
    playable st1 = true /\ playable st2 = true /\ ds_volume st2 = ds_volume st1.

Definition tone_heard (id : Z) (d : list log_entry) (t : ToneMeasurement) : Prop :=
  exists back, played id (tm_signal t) back d /\ tm_background t = me_level_dbfs back /\ tone_detected back = false.

Lemma only_measure_raw ids id background token :
  id ∈ ids -> runs (measure_raw id background token) (only (measuring ids) (tone_heard id)).
Proof.
  intros Hid. unfold measure_raw.
  eapply only_bind; [by apply (only_exchange ids id None)|]. intros st1 d0 (_ & q1 & ->). simpl.
  eapply only_bind; [apply only_validate_device|]. intros _ d1 [-> Hst1].
  eapply only_bind; [by apply only_switch_tone|]. intros q2 d2 ->.
  eapply only_bind; [apply only_attempt, only_microphone|]. intros result d3 [Hg Hres].
  eapply only_bind; [by apply only_poll_tone|]. intros late d4 ->.
  eapply only_bind; [by apply only_attempt, (only_switch_tone ids)|]. intros stopped d5 [Hg' Hstop].
  eapply (only_bind _ _ _ (fun d signal => d = [] /\ d3 = [LogMeasured (Some signal)])).
  { apply only_lift; [done|]. intros signal ->. by rewrite (Hres signal eq_refl). }
  intros signal d6 [-> ->].
  eapply (only_bind _ _ _ (fun d q3 => d = [] /\ d5 = [LogTone id false (Some q3); LogToneReply id q3 false false])).
  { apply only_lift; [done|]. intros q3 ->. by rewrite (Hstop q3 eq_refl). }
  intros q3 d7 [-> ->].
  eapply (only_bind _ _ _ (fun d _ => d = [] /\ (late = None \/ late = Some (true, false)))).
  { apply only_require; [done|]. intros Hc. split; [done|]. destruct late as [[[] []]|]; try done; [by right|by left]. }
  intros _ d8 [-> Hlate].
  eapply only_bind; [by apply (only_exchange ids id None)|]. intros st2 d9 (_ & q4 & ->).
  eapply only_bind; [apply only_validate_device|]. intros _ d10 [-> Hst2].
  eapply (only_bind _ _ _ (fun d _ => d = [] /\ ds_volume st2 = ds_volume st1)).
  { apply only_require; [done|]. by intros ->%Z.eqb_eq. }
  intros _ d11 [-> Hvol].
  eapply only_bind; [apply only_microphone|]. intros back d12 ->.
  eapply (only_bind _ _ _ (fun d _ => d = [] /\ tone_detected back = false)).
  { apply only_require; [done|]. by intros ->%negb_true_iff. }
  intros _ d13 [-> Htone].
  eapply (only_bind _ _ _ (fun d _ => d = [])); [by apply only_require|]. intros _ d14 ->.
  apply only_ret. exists back. split; [|done].
  exists q1, st1, q2, (match late with Some (p, f) => [LogToneReply id q2 p f] | None => [] end), q3, q4, st2.
  split_and!; [done| |done..]. destruct Hlate as [->| ->]; [by left|by right].
Qed.

(** The two measurements of a tone give [level]: it was detected and steady, the
    background had no tone, and it stood out of the background. *)
Definition heard_as (m back : Measurement) (level : f64) : Prop :=
  tone_detected m = true /\ f64_le (me_spread_db m) (f64_of_Z 3) = true /\ tone_detected back = false /\
  signal_level (me_level_dbfs m) (me_level_dbfs back) = Ok level.

(** The stretch of the log in which phone [id] is set to [index], accepts it,
    plays the tone and is heard at [level]. *)
Definition tone_segment (id index : Z) (level : f64) (seg : list log_entry) : Prop :=
  exists v st m back rest,
    seg = LogVolume id index (Some v) :: LogReply id v st :: rest /\ ds_failed st = false /\
    played id m back rest /\ heard_as m back level.

(** Phone [id] was set to [index], played the test tone and was heard at [level]. *)
Definition sounded (d : list log_entry) (id index : Z) (level : f64) : Prop :=
  exists seg, part_of seg d /\ tone_segment id index level seg.

Lemma sounded_mono d d' id index level : part_of d d' -> sounded d id index level -> sounded d' id index level.
Proof. intros H (seg & H1 & H2). exists seg. split; [by eapply part_of_trans|done]. Qed.

Lemma tone_level id index v st d t level :
  ds_failed st = false -> tone_heard id d t -> tone_detected (tm_signal t) = true ->
  f64_le (me_spread_db (tm_signal t)) (f64_of_Z 3) = true -> level_of t = Ok level ->
  tone_segment id index level (LogVolume id index (Some v) :: LogReply id v st :: d).
Proof.
  intros Hst (back & H1 & H2 & H3) H4 H5 H6. exists v, st, (tm_signal t), back, d. split_and!; try done.
  unfold level_of in H6. rewrite H2 in H6. split_and!; [done..|].
  by destruct (signal_level _ _); simplify_eq/=.
Qed.

Lemma good_level t : good (level_of t).
Proof. unfold level_of. destruct (signal_level _ _) as [|[]]; simpl; [apply good_ok|by apply good_err]. Qed.

Lemma only_measure ids id background token :
  id ∈ ids -> runs (measure id background token) (only (measuring ids) (fun d level =>
    exists t, tone_heard id d t /\ tone_detected (tm_signal t) = true /\
      f64_le (me_spread_db (tm_signal t)) (f64_of_Z 3) = true /\ level_of t = Ok level)).
Proof.
  intros Hid. unfold measure. eapply only_bind; [by apply only_measure_raw|]. intros t d1 Ht.
  eapply (only_bind _ _ _ (fun d _ => d = [] /\ tone_detected (tm_signal t) = true)); [by apply only_require|].
  intros _ d2 [-> H1].
  eapply (only_bind _ _ _ (fun d _ => d = [] /\ f64_le (me_spread_db (tm_signal t)) (f64_of_Z 3) = true)); [by apply only_require|].
  intros _ d3 [-> H2]. apply only_lift; [apply good_level|]. intros level Hl. exists t.
  by rewrite !app_nil_r.
Qed.

Lemma only_measure_at ids id index background token :
  id ∈ ids ->
  runs (_ ← exchange id (Some index) token; measure id background token)
    (only (measuring ids) (fun d level => tone_segment id index level d)).
Proof.
  intros Hid. eapply only_bind; [by apply only_exchange|]. intros status d1 (Hst & q & ->).
  eapply only_weaken; [by apply (only_measure ids)|done|].
  intros d level (t & H1 & H2 & H3 & H4). by apply (tone_level _ _ _ _ _ t).
Qed.

Lemma only_measure_point ids o index ambient token :
  o.1 ∈ ids ->
  runs (measure_point ambient token o index) (only (measuring ids) (fun d point =>
    forall p, point = Some p -> p.1 = index /\ sounded d o.1 p.1 p.2)).
Proof.
  intros Hid. unfold measure_point.
  eapply (only_bind _ _ _ (fun d _ => d = [])); [by apply only_say|]. intros _ d0 ->.
  eapply only_bind; [by apply (only_exchange ids)|]. intros actual d1 (Hst & q & ->).
  eapply (only_bind _ _ _ (fun d _ => d = [])); [by apply only_require|]. intros _ d2 ->.
  eapply only_bind; [by apply only_measure_raw|]. intros t d3 Ht.
  apply only_ret. intros p. destruct (_ && _) eqn:E; [|done]. apply andb_true_iff in E as [E1 E2].
  destruct (level_of t) as [level|] eqn:Hl; [|done]. intros [= <-]. split; [done|]. simpl.
  rewrite app_nil_r. eexists. split; [apply part_of_refl|]. by apply (tone_level _ _ _ _ _ t).
Qed.

Definition curve_heard (d : list log_entry) (o : Z * DeviceStatus) (points : list (Z * f64)) : Prop :=
  forall p, p ∈ points -> p.1 ∈ measured_indices o.2 /\ sounded d o.1 p.1 p.2.

Lemma only_measure_curve ids o ambient token :
  o.1 ∈ ids ->
  runs (measure_curve ambient token o) (only (measuring ids) (fun d curve =>
    curve.1 = ds_device_id o.2 /\ curve_heard d o curve.2)).
Proof.
  intros Hid. unfold measure_curve. eapply only_bind.
  - apply (only_for_each _ _ _ (fun index d point => forall p, point = Some p -> p.1 = index /\ sounded d o.1 p.1 p.2)).
    + intros x y d1 d2 d3 H p Hp. destruct (H p Hp) as [H1 H2]. split; [done|].
      eapply sounded_mono; [|exact H2]. auto with parts.
    + intros index _. by apply only_measure_point.
  - intros points d Hp. apply only_ret. split; [done|]. simpl. rewrite app_nil_r. intros p Hin.
    apply list_elem_of_omap in Hin as (x & Hx & Hpx). unfold Datatypes.id in Hpx. subst x.
    apply list_elem_of_lookup in Hx as [i Hi].
    destruct (Forall2_lookup_r _ _ _ _ _ Hp Hi) as (index & Hindex & H).
    destruct (H p eq_refl) as [H1 H2]. split; [|done]. rewrite H1. by eapply list_elem_of_lookup_2.
Qed.

(** ** Matching *)

(** What stands behind one entry of the result: right after each other the two
    phones were measured at these indices; the master sounded as in its first
    measurement and the follower as the master. *)
Definition verified_pair (d : list log_entry) (reference id : Z) (target : Z * f64) (index : Z) : Prop :=
  exists repeated verified seg1 seg2,
    part_of (seg1 ++ seg2) d /\
    tone_segment reference target.1 repeated seg1 /\ tone_segment id index verified seg2 /\
    within 2 repeated target.2 = true /\ within 2 verified repeated = true.

Lemma verified_pair_mono d d' reference id target index :
  part_of d d' -> verified_pair d reference id target index -> verified_pair d' reference id target index.
Proof.
  intros H (r & v & s1 & s2 & H1 & H2). exists r, v, s1, s2. split; [by eapply part_of_trans|done].
Qed.

Definition step_matched (reference id : Z) (points : list (Z * f64)) (target : Z * f64) (d : list log_entry)
  (entry : option (Z * Z)) : Prop :=
  forall e, entry = Some e -> e.1 = target.1 /\
    (exists level, (e.2, level) ∈ points /\ within 2 level target.2 = true) /\
    verified_pair d reference id target e.2.

Lemma bind_assoc {A B C} (m : Calib A) (f : A -> Calib B) (g : B -> Calib C) w :
  ((m ≫= f) ≫= g) w = (m ≫= (fun a => f a ≫= g)) w.
Proof. unfold mbind, calib_bind. destruct (m w) as [w1 [a|e]]; done. Qed.

Lemma runs_ext {A} (m m' : Calib A) Q : (forall w, m w = m' w) -> runs m Q -> runs m' Q.
Proof. intros H Hm w. rewrite <- H. apply Hm. Qed.

Lemma only_match_step ids reference id name points ambient token target :
  reference ∈ ids -> id ∈ ids ->
  runs (match_step reference id name points ambient token target)
    (only (measuring ids) (step_matched reference id points target)).
Proof.
  intros Href Hid. unfold match_step.
  destruct (best_step points target.2) as [[index level]|] eqn:Hbest; [|apply only_ret; intros e [=]].
  apply best_step_elem in Hbest.
  destruct (within 2 level target.2) eqn:Hlevel; simpl; [|apply only_ret; intros e [=]].
  eapply (only_bind _ _ _ (fun d _ => d = [])); [by apply only_say|]. intros _ d0 ->.
  eapply runs_ext; [intros w; apply bind_assoc|].
  eapply only_bind; [by apply (only_measure_at ids)|]. intros repeated d1 Hrep.
  eapply (only_bind _ _ _ (fun d _ => d = [] /\ within 2 repeated target.2 = true)); [by apply only_require|].
  intros _ d2 [-> Hdrift].
  eapply runs_ext; [intros w; apply bind_assoc|].
  eapply only_bind; [by apply (only_measure_at ids)|]. intros verified d3 Hver.
  apply only_ret. intros e. destruct (within 2 verified repeated) eqn:Hclose; [|done]. intros [= <-].
  simpl. rewrite app_nil_r. split; [done|]. split; [by exists level|].
  exists repeated, verified, d1, d3. split_and!; [apply part_of_refl|done..].
Qed.

Lemma insert_all_get entries m k v :
  bt_get k (insert_all entries m) = Some v -> (k, v) ∈ entries \/ bt_get k m = Some v.
Proof.
  revert m. induction entries as [|[k' v'] entries IH]; intros m; simpl; [by right|].
  intros H. apply IH in H as [H|H]; [set_solver|]. rewrite bt_get_insert in H.
  destruct (Z.eqb_spec k k') as [->|Hne]; [|by right]. left. simplify_eq. set_solver.
Qed.

(** The original of a device and its curve. *)
Definition curves_of (d : list log_entry) (originals : list (Z * DeviceStatus))
  (curves : list (rstring * list (Z * f64))) : Prop :=
  Forall2 (fun o c => c.1 = ds_device_id o.2 /\ curve_heard d o c.2) originals curves.

Lemma curve_of_heard d originals curves id points :
  curves_of d originals curves -> curve_of curves id = Some points ->
  exists o, o ∈ originals /\ ds_device_id o.2 = id /\ curve_heard d o points.
Proof.
  intros Hc Hp. unfold curve_of in Hp. apply fmap_Some in Hp as (c & Hf & ->).
  apply find_Some in Hf as [Hin Hid]. apply bool_decide_eq_true in Hid.
  apply list_elem_of_lookup in Hin as [i Hi].
  destruct (Forall2_lookup_r _ _ _ _ _ Hc Hi) as (o & Ho & H1 & H2).
  exists o. split_and!; [by eapply list_elem_of_lookup_2|congruence|done].
Qed.

(** A calibrated follower: each entry of its mapping is the silent pair (0, 0)
    or rests on measurements. *)
Definition follower_measured (d : list log_entry) (reference : Z) (originals : list (Z * DeviceStatus))
  (targets : list (Z * f64)) (curves : list (rstring * list (Z * f64))) (master : DeviceRange) (f f' : Follower) : Prop :=
  fo_device f' = fo_device f /\
  forall m i, bt_get m (fo_mapping f') = Some i ->
    (m = 0 /\ i = 0 /\ dr_minimum master = 0 /\ dr_minimum (fo_device f) = 0) \/
    exists target o points level,
      (m, target) ∈ targets /\ o ∈ originals /\ ds_device_id o.2 = dr_id (fo_device f) /\
      curve_of curves (dr_id (fo_device f)) = Some points /\ (i, level) ∈ points /\
      within 2 level target = true /\ verified_pair d reference o.1 (m, target) i.

Lemma only_calibrate_follower ids reference originals curves targets ambient token master f :
  reference ∈ ids -> (forall o, o ∈ originals -> o.1 ∈ ids) ->
  (exists o, o ∈ originals /\ ds_device_id o.2 = dr_id (fo_device f)) ->
  runs (calibrate_follower reference originals curves targets ambient token master f)
    (only (measuring ids) (fun d f' => follower_measured d reference originals targets curves master f f')).
Proof.
  intros Href Hids (o0 & Ho0 & Hid0). unfold calibrate_follower.
  eapply (only_bind _ _ _ (fun _ points => curve_of curves (dr_id (fo_device f)) = Some points)).
  { apply only_lift; [destruct (curve_of _ _); [apply good_ok|by apply good_err]|].
    intros points Hp. by apply ok_or_ok in Hp. }
  intros points d0 Hpoints.
  eapply (only_bind _ _ _ (fun _ o => o ∈ originals /\ ds_device_id o.2 = dr_id (fo_device f))).
  { apply only_lift.
    - destruct (find _ originals) as [o|] eqn:Hf; [apply good_ok|].
      rewrite find_None in Hf. specialize (Hf o0 Ho0). by rewrite bool_decide_eq_false in Hf.
    - intros o Ho. apply ok_or_ok, find_Some in Ho as [Ho Hid]. by apply bool_decide_eq_true in Hid. }
  intros o d1 [Ho Hid].
  eapply only_bind.
  { apply (only_for_each _ _ _ (step_matched reference o.1 points)).
    - intros x y d2 d3 d4 H e He. destruct (H e He) as (H1 & H2 & H3). split_and!; [done|done|].
      eapply verified_pair_mono; [|exact H3]. auto with parts.
    - intros target _. apply only_match_step; [done|auto]. }
  intros entries d2 Hentries. apply only_ret. split; [done|]. intros m i Hget. simpl in Hget.
  apply insert_all_get in Hget as [Hin|Hzero].
  - right. apply list_elem_of_omap in Hin as (x & Hx & Hxe). unfold Datatypes.id in Hxe. subst x.
    apply list_elem_of_lookup in Hx as [k Hk].
    destruct (Forall2_lookup_r _ _ _ _ _ Hentries Hk) as ([m' target] & Ht & H).
    destruct (H _ eq_refl) as (H1 & (level & H2 & H2') & H3). simpl in H1, H2, H2', H3. subst m'.
    exists target, o, points, level. split_and!; try done; [by eapply list_elem_of_lookup_2|].
    eapply verified_pair_mono; [|exact H3]. auto with parts.
  - left. destruct (dr_minimum master =? 0) eqn:E1, (dr_minimum (fo_device f) =? 0) eqn:E2; simpl in Hzero; try done.
    apply Z.eqb_eq in E1, E2. destruct (m =? 0) eqn:E; [|done]. apply Z.eqb_eq in E as ->. by simplify_eq.
Qed.

(** ** Beginning *)

Definition beginning (e : log_entry) : Prop :=
  match e with LogSession _ Begin _ | LogReply _ _ _ => True | _ => False end.

(** A phone whose session may have begun is remembered. *)
Definition remembered (d : list log_entry) (b : list (Z * DeviceStatus)) : Prop :=
  forall id q, LogSession id Begin (Some q) ∈ d -> id ∈ b.*1.

Definition began (l : list (Z * DeviceStatus)) {A} : outcome A := fun d b r =>
  Forall beginning d /\ good r /\ (forall x, x ∈ b -> x ∈ l) /\ remembered d b /\ (is_ok r = true -> b = l).

Lemma runs_push_begun id original :
  runs (push_begun id original) (fun d b r => d = [] /\ b = [(id, original)] /\ r = Ok tt).
Proof. intros w. exists [], [(id, original)]. simpl. rewrite app_nil_r. split_and!; try done; lia. Qed.

Definition replying (e : log_entry) : Prop := match e with LogReply _ _ _ => True | _ => False end.

Lemma replying_beginning d : Forall replying d -> Forall beginning d /\ remembered d [].
Proof.
  intros Hd. split; [eapply Forall_impl; [exact Hd|]; by intros []|].
  intros id q Hin. rewrite Forall_forall in Hd. by apply Hd in Hin.
Qed.

Lemma remembered_app d1 d2 b1 b2 : remembered d1 b1 -> remembered d2 b2 -> remembered (d1 ++ d2) (b1 ++ b2).
Proof.
  intros H1 H2 id q. rewrite elem_of_app, fmap_app, elem_of_app. intros [H|H]; [left|right]; eauto.
Qed.

Lemma runs_begin_one token o : runs (begin_one token o) (began [o]).
Proof.
  unfold begin_one. eapply runs_bind; [apply runs_ask| |].
  - intros d b e (-> & Hg & [(q & [=] & _)|[_ ->]]). split_and!.
    + constructor; [exact I|constructor].
    + intros e' [= <-]. by apply Hg.
    + set_solver.
    + intros id q Hin. by apply list_elem_of_singleton in Hin.
    + done.
  - intros q d1 b1 (-> & _ & [(q' & [= <-] & ->)|[[e [=]] _]]).
    eapply runs_bind; [apply runs_push_begun|by intros d b e (_ & _ & [=])|].
    intros [] d2 b2 (-> & -> & _). eapply runs_weaken.
    + eapply (only_bind _ _ replying _ (fun _ _ => True)); [apply only_await; intros s; exact I|].
      intros actual d3 _. by apply only_require.
    + intros d b r (Hd & -> & Hg & _). destruct (replying_beginning d Hd) as [Hb Hr].
      simpl. split_and!; [by constructor|done| | |].
      * intros x Hx%list_elem_of_singleton. destruct o. set_solver.
      * intros id q' Hin. apply elem_of_cons in Hin as [[= -> _]|Hin]; [set_solver|]. apply Hr in Hin. set_solver.
      * intros _. by destruct o.
Qed.

Lemma runs_begin_all token l : runs (for_each (begin_one token) l) (began l).
Proof.
  induction l as [|o l IH]; simpl.
  - eapply runs_weaken; [apply runs_ret|]. intros d b r (-> & -> & ->).
    split_and!; [constructor|apply good_ok|done| |done]. intros id q Hin. set_solver.
  - eapply runs_bind; [apply runs_begin_one| |].
    + intros d b e (H1 & H2 & H3 & H4 & _). split_and!; [done| |set_solver|done|done].
      intros e' [= <-]. by apply H2.
    + intros [] d1 b1 (H1 & _ & _ & H4 & H5). specialize (H5 eq_refl) as ->.
      eapply runs_bind; [apply IH| |].
      * intros d b e (G1 & G2 & G3 & G4 & _). split_and!; [by apply Forall_app| |set_solver|by apply remembered_app|done].
        intros e' [= <-]. by apply G2.
      * intros ys d2 b2 (G1 & _ & G3 & G4 & G5). specialize (G5 eq_refl) as ->.
        eapply runs_weaken; [apply runs_ret|]. intros d b r (-> & -> & ->). rewrite !app_nil_r.
        split_and!; [by apply Forall_app|apply good_ok|set_solver|by apply remembered_app|done].
Qed.

(** ** The whole measurement *)

(** What a calibration has done to the phones when its outcome is known. *)
Definition touched (originals : list (Z * DeviceStatus)) (d : list log_entry) (b : list (Z * DeviceStatus)) : Prop :=
  (forall x, x ∈ b -> x ∈ originals) /\ remembered d b /\
  (forall id enabled q, LogTone id enabled q ∈ d -> id ∈ b.*1) /\
  (forall id action q, LogSession id action q ∈ d -> action = Begin) /\ LogAllTonesOff ∉ d.

(** The result rests on measurements in the log. *)
Definition measured_profile (request : CalibrationRequest) (originals : list (Z * DeviceStatus))
  (d : list log_entry) (p : Profile) : Prop :=
  profile_ok p /\ maps_above_minimum p = true /\
  exists followers curves targets,
    p = with_pr_followers followers (cr_profile request) /\
    curves_of d originals curves /\ curve_of curves (dr_id (pr_master p)) = Some targets /\
    Forall2 (follower_measured d (cr_reference request) originals targets curves (pr_master p))
      (pr_followers (cr_profile request)) followers.

Lemma follower_measured_mono reference originals targets curves master f f' d1 d2 d3 :
  follower_measured d2 reference originals targets curves master f f' ->
  follower_measured (d1 ++ d2 ++ d3) reference originals targets curves master f f'.
Proof.
  intros [Hdev H]. split; [done|]. intros m i Hmi.
  destruct (H m i Hmi) as [Hz|(target & o & points & level & H1 & H2 & H3 & H4 & H5 & H6 & H7)]; [by left|right].
  exists target, o, points, level. split_and!; try done. eapply verified_pair_mono; [|exact H7]. auto with parts.
Qed.

Lemma curves_of_mono d d' originals curves :
  part_of d d' -> curves_of d originals curves -> curves_of d' originals curves.
Proof.
  intros Hd Hc. eapply Forall2_impl; [exact Hc|]. intros o c [H1 H2]. split; [done|].
  intros p Hp. destruct (H2 p Hp) as [H3 H4]. split; [done|]. by eapply sounded_mono.
Qed.

(** The part of [calibrate] after all sessions have begun. *)
Definition calibrate_rest (request : CalibrationRequest) (originals : list (Z * DeviceStatus)) (token : bool)
  : Calib Profile :=
  let profile := cr_profile request in
  _ ← require (negb (bool_decide (pr_followers profile = []))) CalNoFollowers;
  _ ← microphone_open;
  _ ← say SayAmbient;
  ambient ← microphone_measure token;
  _ ← require (f64_le (me_spread_db ambient) (f64_of_Z 3) && negb (tone_detected ambient)) CalNoisy;
  curves ← for_each (measure_curve (me_level_dbfs ambient) token) originals;
  targets ← lift (ok_or CalNoMasterCurve (curve_of curves (dr_id (pr_master profile))));
  _ ← require (negb (bool_decide (targets = []))) CalMasterUnmeasurable;
  followers ← for_each (calibrate_follower (cr_reference request) originals curves targets
                          (me_level_dbfs ambient) token (pr_master profile)) (pr_followers profile);
  let profile := with_pr_followers followers profile in
  _ ← lift (map_err CalProfile (validate profile));
  _ ← require (maps_above_minimum profile) CalNoMapping;
  mret profile.

Lemma runs_microphone_open E : runs microphone_open (only E (fun d _ => d = [])).
Proof.
  eapply (only_quiet _ (@good unit)); [|done|done].
  intros w. apply does_quiet; simpl; [done|done|lia|].
  destruct (w_microphone w (w_measured w)); [apply good_ok|by apply good_err].
Qed.

Lemma only_calibrate_rest request originals token :
  cr_reference request ∈ originals.*1 ->
  (forall f, f ∈ pr_followers (cr_profile request) ->
     exists o, o ∈ originals /\ ds_device_id o.2 = dr_id (fo_device f)) ->
  runs (calibrate_rest request originals token)
    (only (measuring originals.*1) (measured_profile request originals)).
Proof.
  intros Href Hfollow. unfold calibrate_rest.
  eapply (only_bind _ _ _ (fun _ _ => True)); [by apply only_require|]. intros _ d0 _.
  eapply only_bind; [apply runs_microphone_open|]. intros _ d1 _.
  eapply (only_bind _ _ _ (fun _ _ => True)); [by apply only_say|]. intros _ d2 _.
  eapply only_bind; [apply only_microphone|]. intros ambient d3 _.
  eapply (only_bind _ _ _ (fun _ _ => True)); [by apply only_require|]. intros _ d4 _.
  eapply only_bind.
  { apply (only_for_each _ _ _ (fun o d (c : rstring * list (Z * f64)) => c.1 = ds_device_id o.2 /\ curve_heard d o c.2)).
    - intros o c e1 e2 e3 [H1 H2]. split; [done|]. intros p Hp. destruct (H2 p Hp) as [H3 H4]. split; [done|].
      eapply sounded_mono; [|exact H4]. auto with parts.
    - intros o Ho. apply only_measure_curve. apply list_elem_of_fmap. eauto. }
  intros curves d5 Hcurves.
  eapply (only_bind _ _ _ (fun _ targets => curve_of curves (dr_id (pr_master (cr_profile request))) = Some targets)).
  { apply only_lift; [destruct (curve_of _ _); [apply good_ok|by apply good_err]|].
    intros targets Ht. by apply ok_or_ok in Ht. }
  intros targets d6 Htargets.
  eapply (only_bind _ _ _ (fun _ _ => True)); [by apply only_require|]. intros _ d7 _.
  eapply only_bind.
  { apply (only_for_each _ _ _ (fun f d f' => follower_measured d (cr_reference request) originals targets curves
             (pr_master (cr_profile request)) f f')).
    - intros f f' e1 e2 e3. apply follower_measured_mono.
    - intros f Hf. apply only_calibrate_follower; [done| |by apply Hfollow].
      intros o Ho. apply list_elem_of_fmap. eauto. }
  intros followers d8 Hfollowers.
  eapply (only_bind _ _ _ (fun _ _ => profile_ok (with_pr_followers followers (cr_profile request)))).
  { apply only_lift; [destruct (validate _); [apply good_ok|by apply good_err]|].
    intros [] Hv. apply validate_profile_ok. by destruct (validate _) as [[]|]. }
  intros _ d9 Hok.
  eapply (only_bind _ _ _ (fun _ _ => maps_above_minimum (with_pr_followers followers (cr_profile request)) = true));
    [by apply only_require|]. intros _ d10 Hmaps.
  apply only_ret. split_and!; [done|done|]. exists followers, curves, targets. split_and!; [done| |done|].
  - eapply curves_of_mono; [|exact Hcurves]. auto 10 with parts.
  - eapply Forall2_impl; [exact Hfollowers|]. intros f f' H.
    apply (follower_measured_mono _ _ _ _ _ _ _ (d0 ++ d1 ++ d2 ++ d3 ++ d4 ++ d5 ++ d6 ++ d7) d8 (d9 ++ d10 ++ [])) in H.
    by rewrite <- !app_assoc in H.
Qed.

Lemma runs_calibrate request originals token :
  cr_reference request ∈ originals.*1 ->
  (forall f, f ∈ pr_followers (cr_profile request) ->
     exists o, o ∈ originals /\ ds_device_id o.2 = dr_id (fo_device f)) ->
  runs (calibrate request originals token) (fun d b r =>
    good r /\ touched originals d b /\
    forall p, r = Ok p -> b = originals /\ measured_profile request originals d p).
Proof.
  intros Href Hfollow.
  change (calibrate request originals token) with
    (_ ← for_each (begin_one token) originals; calibrate_rest request originals token).
  assert (forall d b, Forall beginning d -> remembered d b -> (forall x, x ∈ b -> x ∈ originals) ->
            touched originals d b) as Hbegin.
  { intros d b Hd Hr Hb. rewrite Forall_forall in Hd. split_and!; [done|done| | |].
    - intros id e q Hin. by apply Hd in Hin.
    - intros id action q Hin. apply Hd in Hin. by destruct action.
    - intros Hin. by apply Hd in Hin. }
  eapply runs_bind; [apply runs_begin_all| |].
  - intros d b e (H1 & H2 & H3 & H4 & _). split_and!; [|by apply Hbegin|done].
    intros e' [= <-]. by apply H2.
  - intros ys d1 b1 (H1 & _ & _ & H4 & H5). specialize (H5 eq_refl) as ->.
    eapply runs_weaken; [by apply only_calibrate_rest|]. intros d b r (G1 & -> & G3 & G4).
    rewrite app_nil_r. split_and!; [done| |].
    + destruct (Hbegin d1 originals H1 H4 ltac:(done)) as (K1 & K2 & K3 & K4 & K5).
      rewrite Forall_forall in G1. split_and!; [done| | | |].
      * intros id q [Hin|Hin]%elem_of_app; [by eapply K2|by apply G1 in Hin].
      * intros id e q [Hin|Hin]%elem_of_app; [by eapply K3|by apply G1 in Hin].
      * intros id a q [Hin|Hin]%elem_of_app; [by eapply K4|by apply G1 in Hin].
      * intros [Hin|Hin]%elem_of_app; [done|by apply G1 in Hin].
    + intros p ->. split; [done|]. destruct (G4 p eq_refl) as (P1 & P2 & fs & cs & ts & P3 & P4 & P5 & P6).
      split_and!; [done|done|]. exists fs, cs, ts. split_and!; [done| |done|].
      * eapply curves_of_mono; [|exact P4]. auto with parts.
      * eapply Forall2_impl; [exact P6|]. intros f f' H.
        apply (follower_measured_mono _ _ _ _ _ _ _ d1 d []) in H. by rewrite app_nil_r in H.
Qed.

(** ** Restoring *)

(** The entries of a clean-up: nothing is started. *)
Definition cleaning (e : log_entry) : Prop :=
  match e with
  | LogTone _ false _ | LogSession _ Cancel _ | LogReply _ _ _ | LogToneReply _ _ _ _ => True
  | _ => False
  end.

Definition attempted (d : list log_entry) (id : Z) : Prop :=
  (exists q, LogTone id false q ∈ d) /\ (exists q, LogSession id Cancel q ∈ d).

(** [actual] is the working speaker of [original], at the volume [index] of the same range. *)
Definition stands_at (original actual : DeviceStatus) (index : Z) : Prop :=
  ds_failed actual = false /\ ds_fixed actual = false /\ ds_speaker actual = true /\
  ds_device_id actual = ds_device_id original /\ ds_minimum actual = ds_minimum original /\
  ds_maximum actual = ds_maximum original /\ ds_volume actual = index.

Lemma commit_confirmed_stands actual original index :
  commit_confirmed actual original index = true <-> stands_at original actual index.
Proof.
  unfold commit_confirmed, stands_at.
  rewrite !andb_true_iff, !negb_true_iff, bool_decide_eq_true, !Z.eqb_eq. tauto.
Qed.

(** The phone answered that its tone is off, and then, when told to go back to
    its own volume, that it stands at it. *)
Definition confirmed (d : list log_entry) (o : Z * DeviceStatus) : Prop :=
  exists q1 q2 status,
    part_of [LogTone o.1 false (Some q1); LogToneReply o.1 q1 false false;
             LogSession o.1 Cancel (Some q2); LogReply o.1 q2 status] d /\
    stands_at o.2 status (ds_volume o.2).

Lemma attempted_mono d d' id : (forall e, e ∈ d -> e ∈ d') -> attempted d id -> attempted d' id.
Proof. intros H [[q1 H1] [q2 H2]]. split; eauto. Qed.

Lemma confirmed_mono d d' o : part_of d d' -> confirmed d o -> confirmed d' o.
Proof. intros H (q1 & q2 & s & H1 & H2). exists q1, q2, s. split; [by eapply part_of_trans|done]. Qed.

Lemma runs_restore_one o :
  runs (restore_one o) (fun d b r =>
    Forall cleaning d /\ b = [] /\ attempted d o.1 /\ (r = Ok tt -> confirmed d o)).
Proof.
  unfold restore_one. eapply runs_bind; [apply runs_attempt, runs_switch_tone|by intros d b e (r & [=] & _)|].
  intros stopped d1 b1 (r & [= <-] & -> & Hg & answer & rest & -> & Hstop).
  assert (Forall cleaning (LogTone o.1 false answer :: rest)) as Hclean.
  { constructor; [exact I|]. destruct Hstop as [[_ [->|(q & p & f & ->)]]|(q & _ & _ & ->)]; repeat constructor. }
  eapply runs_bind.
  { unfold exchange_session. eapply (runs_bind _ _ _ (fun d b (r : result CalError DeviceStatus) =>
      Forall cleaning d /\ b = [] /\ (exists q, LogSession o.1 Cancel q ∈ d) /\
      forall s, r = Ok s -> exists q, d = [LogSession o.1 Cancel (Some q); LogReply o.1 q s])).
    - apply runs_ask.
    - intros d b e (-> & _ & [(q & [=] & _)|[_ ->]]). split_and!; [by repeat constructor|done| |done].
      exists None. set_solver.
    - intros q d2 b2 (-> & _ & [(q' & [= <-] & ->)|[[e [=]] _]]).
      eapply runs_weaken; [apply runs_await_reply|]. intros d b r (-> & _ & Hd).
      split_and!; [|done|exists (Some q); set_solver|].
      + constructor; [exact I|]. destruct Hd as [[-> _]|(x & -> & _)]; repeat constructor.
      + intros s ->. exists q. destruct Hd as [[_ [=]]|(x & -> & Hx)].
        unfold accept_status, ensure in Hx. by destruct (negb _); simplify_eq/=. }
  - intros d b e (H1 & -> & (q & H2) & _). split_and!; [by apply Forall_app|done| |done].
    split; [exists answer; set_solver|exists q; set_solver].
  - intros s d2 b2 (H1 & -> & (q0 & H2) & H3). destruct (H3 s eq_refl) as (q2 & H4).
    assert (attempted (LogTone o.1 false answer :: rest ++ d2) o.1) as Hatt.
    { split; [exists answer; set_solver|exists q0; set_solver]. }
    eapply runs_bind; [apply runs_lift| |].
    + intros d b e (-> & -> & _). rewrite !app_nil_r. split_and!; [by apply Forall_app|done|exact Hatt|done].
    + intros q d3 b3 (-> & -> & Hq). eapply runs_weaken; [apply runs_require|].
      intros d b r (-> & -> & ->). rewrite !app_nil_r. simpl.
      split_and!; [by apply (Forall_app _ (_ :: _))|done|exact Hatt|].
      intros Hc. apply ensure_ok, commit_confirmed_stands in Hc.
      destruct Hstop as [[Herr _]|(q1 & Hr & -> & ->)]; [by rewrite <- Hq in Herr|].
      exists q1, q2, s. split; [|exact Hc]. rewrite H4. apply part_of_refl.
Qed.

Lemma runs_restore begun :
  runs (restore begun) (fun d b r => exists cleanup by_hand,
    d = LogAllTonesOff :: cleanup /\ b = [] /\ r = Ok by_hand /\ Forall cleaning cleanup /\
    (forall o, o ∈ begun -> attempted cleanup o.1) /\
    (forall o, o ∈ begun -> confirmed cleanup o \/ (ds_name o.2, ds_volume o.2, ds_maximum o.2) ∈ by_hand)).
Proof.
  unfold restore. eapply (runs_bind _ _ (fun d b r => d = [LogAllTonesOff] /\ b = [] /\ r = Ok tt)).
  { intros w. exists [LogAllTonesOff], []. rewrite app_nil_r. split_and!; try done. simpl. lia. }
  { by intros d b e (_ & _ & [=]). }
  intros [] d1 b1 (-> & -> & _).
  set (one := fun o => restored ← attempt (restore_one o); mret _).
  assert (forall o, runs (one o) (fun d b r => Forall cleaning d /\ b = [] /\ attempted d o.1 /\
            exists y, r = Ok y /\ (confirmed d o \/ y = Some (ds_name o.2, ds_volume o.2, ds_maximum o.2)))) as Hone.
  { intros o. unfold one. eapply runs_bind; [apply runs_attempt, runs_restore_one|by intros d b e (r & [=] & _)|].
    intros restored d2 b2 (r & [= <-] & H1 & -> & H2 & H3). eapply runs_weaken; [apply runs_ret|].
    intros d b r (-> & -> & ->). rewrite app_nil_r. split_and!; [done|done|done|]. eexists. split; [done|].
    destruct restored as [[]|e]; [left; auto|by right]. }
  assert (runs (for_each one begun) (fun d b r => Forall cleaning d /\ b = [] /\ exists ys, r = Ok ys /\
    (forall o, o ∈ begun -> attempted d o.1) /\
    (forall o, o ∈ begun -> confirmed d o \/ Some (ds_name o.2, ds_volume o.2, ds_maximum o.2) ∈ ys))) as Hall.
  { clear -Hone. induction begun as [|o begun IH]; simpl.
    - eapply runs_weaken; [apply runs_ret|]. intros d b r (-> & -> & ->).
      split_and!; [constructor|done|]. exists []. split_and!; [done|set_solver|set_solver].
    - eapply runs_bind; [apply Hone|by intros d b e (_ & _ & _ & y & [=] & _)|].
      intros y d1 b1 (H1 & -> & H2 & y' & [= <-] & H3).
      eapply runs_bind; [apply IH|by intros d b e (_ & _ & y' & [=] & _)|].
      intros ys d2 b2 (G1 & -> & ys' & [= <-] & G2 & G3).
      eapply runs_weaken; [apply runs_ret|]. intros d b r (-> & -> & ->). rewrite !app_nil_r.
      split_and!; [by apply Forall_app|done|]. exists (y :: ys). split_and!; [done| |].
      + intros o' [->|Ho]%elem_of_cons; [eapply attempted_mono; [|exact H2]|eapply attempted_mono; [|by apply G2]]; set_solver.
      + intros o' [->|Ho]%elem_of_cons.
        * destruct H3 as [H3| ->]; [left; eapply confirmed_mono; [|exact H3]; auto with parts|right; set_solver].
        * destruct (G3 o' Ho) as [H|H]; [left; eapply confirmed_mono; [|exact H]; auto with parts|right; set_solver]. }
  eapply runs_bind; [exact Hall|by intros d b e (_ & _ & ys & [=] & _)|].
  intros ys d2 b2 (H1 & -> & ys' & [= <-] & H2 & H3).
  eapply runs_weaken; [apply runs_ret|]. intros d b r (-> & -> & ->).
  exists d2, (omap Datatypes.id ys). rewrite !app_nil_r. split_and!; try done.
  intros o Ho. destruct (H3 o Ho) as [H|H]; [by left|right]. apply list_elem_of_omap. by eexists.
Qed.

(** ** The run *)

Definition querying (e : log_entry) : Prop :=
  match e with LogQuery _ _ | LogReply _ _ _ => True | _ => False end.

Definition identified (d : list log_entry) (expected : DeviceRange) (o : Z * DeviceStatus) : Prop :=
  matches expected o.2 = true /\ exists q, part_of [LogQuery o.1 (Some q); LogReply o.1 q o.2] d.

Lemma only_identify ss expected token : runs (identify ss expected token) (only querying (fun d o => identified d expected o)).
Proof.
  unfold identify.
  destruct (filter _ ss) as [|receiver [|]]; [|
    |(eapply only_quiet; [apply runs_fail|intros r0 ->; by apply good_err|done])].
  { eapply only_quiet; [apply runs_fail|intros r ->; by apply good_err|done]. }
  eapply (only_bind _ _ _ (fun d status =>
    exists q, d = [LogQuery (rs_id receiver) (Some q); LogReply (rs_id receiver) q status])).
  { unfold exchange. eapply only_bind; [apply only_ask; intros q; exact I|].
    intros q d1 ->. eapply (only_weaken _ querying); [apply only_await; intros s; exact I|done|].
    intros d2 status [-> _]. by exists q. }
  intros status d1 [q ->].
  eapply (only_bind _ _ _ (fun _ _ => True)); [apply only_lift; [apply good_validate_device|done]|]. intros [] d2 _.
  eapply (only_bind _ _ _ (fun _ _ => matches expected status = true)); [by apply only_require|]. intros _ d3 Hm.
  apply only_ret. split; [done|]. exists q. apply part_of_app_r, part_of_refl.
Qed.

Lemma identified_mono x o d1 d2 d3 : identified d2 x o -> identified (d1 ++ d2 ++ d3) x o.
Proof. intros [H1 [q H2]]. split; [done|]. exists q. auto with parts. Qed.

Lemma run_new_begun (w : World) : new_begun w = (with_begun [] w, Ok tt).
Proof. done. Qed.

(** The end of [run]: the commitment. *)
Definition conclude (outcome : result CalError Profile) (by_hand : list (rstring * Z * Z)) : result CalError Profile :=
  match by_hand with
  | [] => outcome
  | _ => Err (match outcome with Ok _ => CalNotCommitted by_hand | Err e => CalNotCommittedFor e by_hand end)
  end.

(** The reference is the phone of the master. *)
Definition reference_is_master (request : CalibrationRequest) (originals : list (Z * DeviceStatus)) : Prop :=
  exists o, o ∈ originals /\ o.1 = cr_reference request /\ ds_device_id o.2 = dr_id (pr_master (cr_profile request)).

(** All that a run does, by its log. *)
Inductive run_done (request : CalibrationRequest) (d : list log_entry) (r : result CalError Profile) : Prop :=
| run_refused : Forall querying d -> good r -> is_err r = true -> run_done request d r
| run_finished setup before cleanup originals begun outcome by_hand :
    profile_ok (cr_profile request) -> reference_is_master request originals ->
    d = setup ++ before ++ LogAllTonesOff :: cleanup ->
    Forall querying setup -> Forall cleaning cleanup ->
    Forall2 (identified setup) (profile_devices (cr_profile request)) originals ->
    touched originals before begun ->
    (forall o, o ∈ begun -> attempted cleanup o.1) ->
    (forall o, o ∈ begun -> confirmed cleanup o \/ (ds_name o.2, ds_volume o.2, ds_maximum o.2) ∈ by_hand) ->
    good outcome ->
    (forall p, outcome = Ok p -> begun = originals /\ measured_profile request originals before p) ->
    r = conclude outcome by_hand ->
    run_done request d r.

Definition run_from (request : CalibrationRequest) (originals : list (Z * DeviceStatus)) (token : bool) : Calib Profile :=
  _ ← new_begun;
  outcome ← attempt (calibrate request originals token);
  _ ← say SayRestoring;
  begun ← read_begun;
  by_hand ← restore begun;
  match by_hand with
  | [] => lift outcome
  | _ => fail (match outcome with Ok _ => CalNotCommitted by_hand | Err e => CalNotCommittedFor e by_hand end)
  end.

Lemma run_from_done request originals token setup (w : World) :
  profile_ok (cr_profile request) ->
  reference_is_master request originals -> Forall querying setup ->
  Forall2 (identified setup) (profile_devices (cr_profile request)) originals ->
  exists d, w_log (run_from request originals token w).1 = w_log w ++ d /\
    run_done request (setup ++ d) (run_from request originals token w).2.
Proof.
  intros Hok Hmaster Hsetup Hid. unfold run_from. rewrite bind_run, run_new_begun, bind_run.
  set (w0 := with_begun [] w).
  assert (forall f, f ∈ pr_followers (cr_profile request) ->
            exists o, o ∈ originals /\ ds_device_id o.2 = dr_id (fo_device f)) as Hfollow.
  { intros f Hf. assert (fo_device f ∈ profile_devices (cr_profile request)) as Hin.
    { apply elem_of_cons. right. apply list_elem_of_fmap. eauto. }
    apply list_elem_of_lookup in Hin as [i Hi].
    destruct (Forall2_lookup_l _ _ _ _ _ Hid Hi) as (o & Ho & Hm & _). exists o.
    split; [by eapply list_elem_of_lookup_2|]. unfold matches in Hm.
    rewrite !andb_true_iff, bool_decide_eq_true in Hm. by destruct Hm as (((((-> & _) & _) & _) & _) & _). }
  assert (cr_reference request ∈ originals.*1) as Href.
  { destruct Hmaster as (o & Ho & <- & _). apply list_elem_of_fmap. eauto. }
  pose proof (runs_calibrate request originals token Href Hfollow w0) as Hcal.
  unfold attempt. destruct (calibrate request originals token w0) as [w1 outcome]. simpl in Hcal.
  destruct Hcal as (before & begun & Hlog & Hbegun & _ & Hgood & Htouched & Hmeasured). simpl in Hlog, Hbegun.
  rewrite bind_run. unfold say. rewrite bind_run. unfold read_begun.
  replace (w_begun (with_message SayRestoring w1)) with begun by (by rewrite <- Hbegun).
  rewrite bind_run. pose proof (runs_restore begun (with_message SayRestoring w1)) as Hres.
  destruct (restore begun (with_message SayRestoring w1)) as [w2 r2]. simpl in Hres.
  destruct Hres as (d2 & b2 & Hlog2 & _ & _ & cleanup & by_hand & -> & -> & -> & Hclean & Hatt & Hconf).
  change (w_log (with_message SayRestoring w1)) with (w_log w1) in Hlog2. rewrite Hlog in Hlog2. exists (before ++ LogAllTonesOff :: cleanup).
  assert (forall r, (match by_hand with
                     | [] => lift outcome
                     | _ => fail (match outcome with Ok _ => CalNotCommitted by_hand | Err e => CalNotCommittedFor e by_hand end)
                     end w2) = r -> r = (w2, conclude outcome by_hand)) as Hend.
  { intros r <-. by destruct by_hand. }
  rewrite (Hend _ eq_refl). simpl. split; [by rewrite Hlog2, app_assoc|].
  by eapply (run_finished _ _ _ setup before cleanup originals begun outcome by_hand).
Qed.

Lemma run_is_done request token (w : World) :
  exists d, w_log (run request token w).1 = w_log w ++ d /\ run_done request d (run request token w).2.
Proof.
  set (prefix := _ ← lift (map_err CalProfile (validate (cr_profile request)));
                 ss ← read_snapshots;
                 originals ← for_each (fun expected => identify ss expected token) (profile_devices (cr_profile request));
                 _ ← require (existsb (fun o => (o.1 =? cr_reference request)
                        && bool_decide (ds_device_id o.2 = dr_id (pr_master (cr_profile request)))) originals) CalMasterGone;
                 (mret originals : Calib _)).
  assert (runs prefix (only querying (fun d originals =>
            profile_ok (cr_profile request) /\ reference_is_master request originals /\
            Forall2 (identified d) (profile_devices (cr_profile request)) originals))) as Hprefix.
  { unfold prefix.
    eapply (only_bind _ _ _ (fun _ _ => profile_ok (cr_profile request))).
    { apply only_lift; [destruct (validate _); [apply good_ok|by apply good_err]|].
      intros [] Hv. apply validate_profile_ok. by destruct (validate _) as [[]|]. }
    intros _ d0 Hok. eapply (only_bind _ _ _ (fun _ _ => True)).
    { eapply only_quiet; [apply runs_snapshots| |done]. intros r Hr. by destruct r. }
    intros ss d1 _. eapply only_bind.
    { apply (only_for_each _ _ _ (fun x d o => identified d x o)); [intros x y e1 e2 e3; apply identified_mono|].
      intros x _. apply only_identify. }
    intros originals d2 Hid.
    eapply (only_bind _ _ _ (fun _ _ => reference_is_master request originals)).
    { apply only_require; [done|]. intros (o & Ho & H)%existsb_true. apply andb_true_iff in H as [H Hd].
      apply Z.eqb_eq in H. apply bool_decide_eq_true in Hd. by exists o. }
    intros _ d3 Href. apply only_ret. split_and!; [done..|]. eapply Forall2_impl; [exact Hid|].
    intros x o. rewrite app_nil_r. intros H. rewrite app_assoc. apply (identified_mono x o _ _ _ H). }
  assert (forall w', run request token w' = (prefix ≫= (fun originals => run_from request originals token)) w') as Hrun.
  { intros w'. unfold run, prefix. rewrite !bind_run. destruct (lift _ w') as [w1 [[]|]]; [|done].
    rewrite !bind_run. destruct (read_snapshots w1) as [w2 [ss|]]; [|done].
    rewrite !bind_run. destruct (for_each _ _ w2) as [w3 [originals|]]; [|done].
    rewrite !bind_run. by destruct (require _ _ w3) as [w4 [[]|]]. }
  rewrite Hrun, bind_run. specialize (Hprefix w).
  destruct (prefix w) as [w1 [originals|e]]; simpl in Hprefix.
  - destruct Hprefix as (setup & b & Hlog & _ & _ & Hq & _ & _ & HP).
    destruct (HP originals eq_refl) as (Hok & Href & Hid).
    destruct (run_from_done request originals token setup w1 Hok Href Hq Hid) as (d & Hd & Hdone).
    exists (setup ++ d). split; [by rewrite Hd, Hlog, app_assoc|done].
  - destruct Hprefix as (d & b & Hlog & _ & _ & Hq & _ & Hg & _). exists d. split; [done|].
    apply run_refused; [done| |done]. intros e' [= <-]. by apply Hg.
Qed.
(** ** The log and the registry

    A log happened between two states of the registry when each entry is the
    call it names with the answer it names, in this order, with the turns of the
    other threads in between and with polls that find no answer. *)

Definition answers (call : Registry Sender * result RegistryError Z) (q : option Z) (s' : Registry Sender) : Prop :=
  s' = call.1 /\ q = match call.2 with Ok number => Some number | Err _ => None end.

Definition performs (s : Registry Sender) (e : log_entry) (s' : Registry Sender) : Prop :=
  match e with
  | LogQuery id q => answers (request s id None) q s'
  | LogVolume id index q => answers (calibration_volume_request s id index) q s'
  | LogSession id action q => answers (calibration_request s id action) q s'
  | LogTone id enabled q => answers (tone_request s id enabled) q s'
  | LogAllTonesOff => s' = broadcast s (CalibrationTone 0 false)
  | LogReply id q status => take_reply s id q = (s', Some status)
  | LogToneReply id q playing failed => take_tone_reply s id q = (s', Some (playing, failed))
  | LogMeasured _ => s' = s
  end.

Inductive happened (schedule : nat -> Moment Sender)
  : nat -> Registry Sender -> list log_entry -> nat -> Registry Sender -> Prop :=
| happened_end n s : happened schedule n s [] n s
| happened_others n s d n' s' :
    happened schedule (S n) (registry_run s (mo_ops (schedule n))) d n' s' -> happened schedule n s d n' s'
| happened_no_reply n s id q d n' s' :
    (take_reply s id q).2 = None -> happened schedule n (take_reply s id q).1 d n' s' -> happened schedule n s d n' s'
| happened_no_tone_reply n s id q d n' s' :
    (take_tone_reply s id q).2 = None ->
    happened schedule n (take_tone_reply s id q).1 d n' s' -> happened schedule n s d n' s'
| happened_call n s e s1 d n' s' :
    performs s e s1 -> happened schedule n s1 d n' s' -> happened schedule n s (e :: d) n' s'.

Lemma happened_app schedule n s d1 n1 s1 d2 n2 s2 :
  happened schedule n s d1 n1 s1 -> happened schedule n1 s1 d2 n2 s2 -> happened schedule n s (d1 ++ d2) n2 s2.
Proof. induction 1; intros H2; simpl; eauto using happened. Qed.

Lemma happened_split schedule n s d1 e d2 n' s' :
  happened schedule n s (d1 ++ e :: d2) n' s' ->
  exists n1 s1 s2, happened schedule n s d1 n1 s1 /\ performs s1 e s2 /\ happened schedule n1 s2 d2 n' s'.
Proof.
  remember (d1 ++ e :: d2) as d eqn:Hd. intros H. revert d1 Hd.
  induction H as [n s|n s d n' s' _ IH|n s i q d n' s' Hn _ IH|n s i q d n' s' Hn _ IH|n s e' s1 d n' s' He Hd IH];
    intros d1 E.
  - by destruct d1.
  - destruct (IH d1 E) as (n1 & s1 & s2 & H1 & H2 & H3). exists n1, s1, s2. eauto using happened.
  - destruct (IH d1 E) as (n1 & s1 & s2 & H1 & H2 & H3). exists n1, s1, s2. eauto using happened.
  - destruct (IH d1 E) as (n1 & s1 & s2 & H1 & H2 & H3). exists n1, s1, s2. eauto using happened.
  - destruct d1 as [|x d1]; simplify_eq/=.
    + exists n, s, s1. eauto using happened.
    + destruct (IH d1 eq_refl) as (n1 & s2 & s3 & H1 & H2 & H3). exists n1, s2, s3. eauto using happened.
Qed.

(** The entries [d] happened from one world to another. *)
Definition between (w : World) (d : list log_entry) (w' : World) : Prop :=
  w_schedule w' = w_schedule w /\ happened (w_schedule w) (w_turn w) (w_reg w) d (w_turn w') (w_reg w').

Definition logs (w : World) (d : list log_entry) (w' : World) : Prop := w_log w' = w_log w ++ d /\ between w d w'.

Definition chains {A} (m : Calib A) : Prop := forall w, exists d, logs w d (m w).1.

Lemma logs_refl w : logs w [] w.
Proof. split; [by rewrite app_nil_r|]. split; [done|constructor]. Qed.

Lemma logs_trans w d1 w1 d2 w2 : logs w d1 w1 -> logs w1 d2 w2 -> logs w (d1 ++ d2) w2.
Proof.
  intros (H1 & H2 & H3) (G1 & G2 & G3). split; [by rewrite G1, H1, app_assoc|]. split; [congruence|].
  rewrite H2 in G3. by eapply happened_app.
Qed.

Lemma logs_others w : logs w [] (others w).
Proof. split; [by rewrite app_nil_r|]. split; [done|]. apply happened_others. constructor. Qed.

Lemma logs_call w e w' :
  w_log w' = w_log w ++ [e] -> w_schedule w' = w_schedule w -> w_turn w' = w_turn w ->
  performs (w_reg w) e (w_reg w') -> logs w [e] w'.
Proof. intros H1 H2 H3 H4. split; [done|]. split; [done|]. rewrite H3. eapply happened_call; [done|constructor]. Qed.

(** Nothing of the registry or the log. *)
Lemma chains_still {A} (m : Calib A) :
  (forall w, w_log (m w).1 = w_log w /\ w_schedule (m w).1 = w_schedule w /\ w_turn (m w).1 = w_turn w /\
     w_reg (m w).1 = w_reg w) -> chains m.
Proof.
  intros H w. exists []. destruct (H w) as (H1 & H2 & H3 & H4). split; [by rewrite app_nil_r|].
  split; [done|]. rewrite H3, H4. constructor.
Qed.

Lemma chains_bind {A B} (m : Calib A) (f : A -> Calib B) : chains m -> (forall a, chains (f a)) -> chains (m ≫= f).
Proof.
  intros Hm Hf w. rewrite bind_run. destruct (Hm w) as [d1 H1]. destruct (m w) as [w1 [a|e]]; simpl in *; [|by exists d1].
  destruct (Hf a w1) as [d2 H2]. exists (d1 ++ d2). by eapply logs_trans.
Qed.

Lemma chains_attempt {A} (m : Calib A) : chains m -> chains (attempt m).
Proof. intros Hm w. unfold attempt. specialize (Hm w). by destruct (m w) as [w1 r]. Qed.

Lemma chains_ret {A} (a : A) : chains (mret a : Calib A).
Proof. by apply chains_still. Qed.
Lemma chains_lift {A} (r : result CalError A) : chains (lift r).
Proof. by apply chains_still. Qed.
Lemma chains_fail {A} e : chains (fail e : Calib A).
Proof. by apply chains_still. Qed.
Lemma chains_require c e : chains (require c e).
Proof. by apply chains_still. Qed.
Lemma chains_say m : chains (say m).
Proof. by apply chains_still. Qed.
Lemma chains_clock : chains clock.
Proof. by apply chains_still. Qed.
Lemma chains_check_cancel token : chains (check_cancel token).
Proof. by apply chains_still. Qed.
Lemma chains_new_begun : chains new_begun.
Proof. by apply chains_still. Qed.
Lemma chains_push_begun id o : chains (push_begun id o).
Proof. by apply chains_still. Qed.
Lemma chains_read_begun : chains read_begun.
Proof. by apply chains_still. Qed.
Lemma chains_microphone_open : chains microphone_open.
Proof. by apply chains_still. Qed.
Lemma chains_sleep : chains sleep.
Proof. intros w. exists []. apply logs_others. Qed.
Lemma chains_snapshots : chains read_snapshots.
Proof. intros w. exists []. apply logs_others. Qed.

Lemma chains_ask call entry :
  (forall s q s', answers (call s) q s' -> performs s (entry q) s') -> chains (ask call entry).
Proof.
  intros H w. unfold ask. specialize (H (w_reg (others w))). destruct (call (w_reg (others w))) as [s r].
  eexists. eapply (logs_trans _ [] _ [_]); [apply logs_others|]. apply logs_call; [done..|]. by apply H.
Qed.

Lemma chains_poll_reply id q : chains (poll_reply id q).
Proof.
  intros w. unfold poll_reply. destruct (take_reply (w_reg (others w)) id q) as [s [status|]] eqn:E.
  - eexists. eapply (logs_trans _ [] _ [_]); [apply logs_others|]. by apply (logs_call _ (LogReply id q status)).
  - eexists. eapply (logs_trans _ [] _ []); [apply logs_others|]. split; [simpl; by rewrite app_nil_r|]. split; [done|].
    apply (happened_no_reply _ _ _ id q); rewrite E; [done|constructor].
Qed.

Lemma chains_poll_tone id q : chains (poll_tone id q).
Proof.
  intros w. unfold poll_tone. destruct (take_tone_reply (w_reg (others w)) id q) as [s [[p f]|]] eqn:E.
  - eexists. eapply (logs_trans _ [] _ [_]); [apply logs_others|]. by apply (logs_call _ (LogToneReply id q p f)).
  - eexists. eapply (logs_trans _ [] _ []); [apply logs_others|]. split; [simpl; by rewrite app_nil_r|]. split; [done|].
    apply (happened_no_tone_reply _ _ _ id q); rewrite E; [done|constructor].
Qed.

Lemma chains_all_tones_off : chains all_tones_off.
Proof.
  intros w. eexists. eapply (logs_trans _ [] _ [_]); [apply logs_others|]. by apply (logs_call _ LogAllTonesOff).
Qed.

Lemma chains_listen : chains listen.
Proof.
  intros w. unfold listen. simpl. eexists. eapply (logs_trans _ [_] _ []).
  - apply (logs_call _ (LogMeasured (w_microphone w (w_measured w))) (with_measured (S (w_measured w))
      (record (LogMeasured (w_microphone w (w_measured w))) w))); done.
  - destruct (logs_others (with_measured (S (w_measured w))
      (record (LogMeasured (w_microphone w (w_measured w))) w))) as [H1 H2]. by split.
Qed.

Lemma chains_ask_volume id index : chains (ask_volume id index).
Proof. by apply chains_ask. Qed.
Lemma chains_ask_status id : chains (ask_status id).
Proof. by apply chains_ask. Qed.
Lemma chains_ask_session id action : chains (ask_session id action).
Proof. by apply chains_ask. Qed.
Lemma chains_ask_tone id enabled : chains (ask_tone id enabled).
Proof. by apply chains_ask. Qed.

Create HintDb chains.
#[local] Hint Resolve chains_bind chains_attempt chains_ret chains_lift chains_fail chains_require chains_say
  chains_clock chains_check_cancel chains_new_begun chains_push_begun chains_read_begun chains_microphone_open
  chains_sleep chains_snapshots chains_poll_reply chains_poll_tone chains_all_tones_off chains_listen
  chains_ask_volume chains_ask_status chains_ask_session chains_ask_tone : chains.

Ltac chain :=
  repeat (intros; first [solve [auto 2 with chains] | apply chains_bind | apply chains_attempt
    | match goal with |- chains (match ?x with _ => _ end) => destruct x end
    | match goal with |- chains (if ?x then _ else _) => destruct x end]).

Lemma chains_wait_loop {A B} (poll : Calib (option A)) (accept : A -> result CalError B) timeout id token fuel deadline :
  chains poll -> chains (wait_loop poll accept timeout id token fuel deadline).
Proof. intros Hp. induction fuel as [|fuel IH]; cbn [wait_loop]; chain. Qed.

Lemma chains_wait_for {A B} (poll : Calib (option A)) (accept : A -> result CalError B) timeout id token :
  chains poll -> chains (wait_for poll accept timeout id token).
Proof. intros Hp. unfold wait_for. apply chains_bind; [chain|]. intros now. by apply chains_wait_loop. Qed.

Lemma chains_for_each {A B} (f : A -> Calib B) l : (forall x, chains (f x)) -> chains (for_each f l).
Proof. intros Hf. induction l as [|x l IH]; simpl; chain. Qed.
#[local] Hint Resolve chains_wait_for chains_for_each : chains.

Lemma chains_await_reply id q token : chains (await_reply id q token).
Proof. unfold await_reply. chain. Qed.
#[local] Hint Resolve chains_await_reply : chains.
Lemma chains_exchange id index token : chains (exchange id index token).
Proof. unfold exchange. chain. Qed.
Lemma chains_exchange_session id action token : chains (exchange_session id action token).
Proof. unfold exchange_session. chain. Qed.
Lemma chains_switch_tone id enabled token : chains (switch_tone id enabled token).
Proof. unfold switch_tone. chain. Qed.
Lemma chains_microphone_measure token : chains (microphone_measure token).
Proof. unfold microphone_measure. chain. Qed.
#[local] Hint Resolve chains_exchange chains_exchange_session chains_switch_tone chains_microphone_measure : chains.
Lemma chains_measure_raw id background token : chains (measure_raw id background token).
Proof. unfold measure_raw. chain. Qed.
#[local] Hint Resolve chains_measure_raw : chains.
Lemma chains_measure id background token : chains (measure id background token).
Proof. unfold measure. chain. Qed.
#[local] Hint Resolve chains_measure : chains.
Lemma chains_identify ss expected token : chains (identify ss expected token).
Proof. unfold identify. chain. Qed.
Lemma chains_begin_one token o : chains (begin_one token o).
Proof. unfold begin_one. chain. Qed.
Lemma chains_measure_point ambient token o index : chains (measure_point ambient token o index).
Proof. unfold measure_point. chain. Qed.
#[local] Hint Resolve chains_identify chains_begin_one chains_measure_point : chains.
Lemma chains_measure_curve ambient token o : chains (measure_curve ambient token o).
Proof. unfold measure_curve. chain. Qed.
Lemma chains_match_step reference id name points ambient token target :
  chains (match_step reference id name points ambient token target).
Proof. unfold match_step. chain. Qed.
#[local] Hint Resolve chains_measure_curve chains_match_step : chains.
Lemma chains_calibrate_follower reference originals curves targets ambient token master f :
  chains (calibrate_follower reference originals curves targets ambient token master f).
Proof. unfold calibrate_follower. chain. Qed.
#[local] Hint Resolve chains_calibrate_follower : chains.
Lemma chains_calibrate request originals token : chains (calibrate request originals token).
Proof. unfold calibrate. chain. Qed.
Lemma chains_restore_one o : chains (restore_one o).
Proof. unfold restore_one. chain. Qed.
#[local] Hint Resolve chains_calibrate chains_restore_one : chains.
Lemma chains_restore begun : chains (restore begun).
Proof. unfold restore. chain. apply chains_for_each. chain. Qed.
#[local] Hint Resolve chains_restore : chains.
Lemma chains_run request token : chains (run request token).
Proof. unfold run. chain. Qed.

(** The run and its log, with the registry. *)
Lemma run_logged request token (w : World) :
  exists d, w_log (run request token w).1 = w_log w ++ d /\ between w d (run request token w).1 /\
    run_done request d (run request token w).2.
Proof.
  destruct (run_is_done request token w) as (d & Hd & Hdone). exists d. split_and!; [done| |done].
  destruct (chains_run request token w) as (d' & Hd' & Hb).
  rewrite Hd in Hd'. by apply app_inv_head in Hd' as ->.
Qed.

(** *** What a phone is told *)

(** The message is put into the queue of phone [id] under the number [q]; there
    is no number only if the phone has left or its queue refuses the message. *)
Definition delivers (s : Registry Sender) (id : Z) (message : Z -> ControlMessage) (q : option Z)
    (s' : Registry Sender) : Prop :=
  match get_receiver s id with
  | None => q = None
  | Some r =>
      let number := Z.max (reg_next_request s) 1 in
      match try_send (r_controls r) (message number) with
      | None => q = None
      | Some controls => q = Some number /\ get_receiver s' id = Some (with_controls controls r)
      end
  end.

(** The same for a message to all phones. *)
Definition delivers_all (s : Registry Sender) (message : ControlMessage) (s' : Registry Sender) : Prop :=
  forall id r controls, get_receiver s id = Some r -> try_send (r_controls r) message = Some controls ->
    get_receiver s' id = Some (with_controls controls r).

(** At the point of a run from [w] to [w'] between the entries [d1] and [d2], the
    registry went through such a step. *)
Definition at_point (w : World) (d1 : list log_entry) (step : Registry Sender -> Registry Sender -> Prop)
    (d2 : list log_entry) (w' : World) : Prop :=
  exists n s s', happened (w_schedule w) (w_turn w) (w_reg w) d1 n s /\ step s s' /\
    happened (w_schedule w) n s' d2 (w_turn w') (w_reg w').

Lemma send_request_delivers s id message q s' :
  answers (send_request s id message) q s' -> delivers s id message q s'.
Proof.
  unfold send_request, fetch_request, delivers, send. intros [-> ->].
  change (get_receiver (mkRegistry _ _ _ _ _ _) id) with (get_receiver s id).
  destruct (get_receiver s id) as [r|] eqn:Hr; [|done]. simpl.
  destruct (try_send (r_controls r) _) as [c|]; [|done]. simpl. split; [done|].
  rewrite get_receiver_modify, Z.eqb_refl.
  change (get_receiver (mkRegistry _ _ _ _ _ _) id) with (get_receiver s id). by rewrite Hr.
Qed.

Lemma broadcast_delivers s message : delivers_all s message (broadcast s message).
Proof. intros id r c Hr Hc. rewrite get_receiver_broadcast, Hr. simpl. unfold offer. by rewrite Hc. Qed.

(** The entry after [d1] in the log of a run happened there. *)
Lemma entry_happened w d1 e d2 w' :
  between w (d1 ++ e :: d2) w' -> at_point w d1 (fun s s' => performs s e s') d2 w'.
Proof. intros [_ H]. by apply happened_split. Qed.

Lemma at_point_weaken w d1 (P Q : Registry Sender -> Registry Sender -> Prop) d2 w' :
  at_point w d1 P d2 w' -> (forall s s', P s s' -> Q s s') -> at_point w d1 Q d2 w'.
Proof. intros (n & s & s' & H1 & H2 & H3) H. exists n, s, s'. auto. Qed.
End judgement.

(** ** Reading the log *)

Lemma split_before {A} (e : A) l1 l2 p s :
  l1 ++ e :: l2 = p ++ s -> e ∉ s -> exists k, l2 = k ++ s.
Proof.
  revert p. induction l1 as [|x l1 IH]; intros [|y p] E He; simpl in E.
  - rewrite <- E in He. set_solver.
  - injection E as _ ->. by exists p.
  - rewrite <- E in He. set_solver.
  - injection E as _ E. by apply (IH p).
Qed.

Section properties.
Context {Sender : Type} `{MS : !Mpsc Sender ControlMessage} `{LM : !Libm}.
Abbreviation World := (World Sender).

Lemma cleanup_follows d setup before cleanup e d1 d2 :
  d = setup ++ before ++ LogAllTonesOff :: cleanup -> d = d1 ++ e :: d2 ->
  e <> LogAllTonesOff -> e ∉ cleanup -> exists k, d2 = k ++ LogAllTonesOff :: cleanup.
Proof.
  intros -> E Hne He. rewrite app_assoc in E. symmetry in E.
  by apply split_before in E; [|apply not_elem_of_cons].
Qed.

(** An entry that starts something is an entry of the measurement. *)
Lemma starts_before d setup before cleanup e :
  d = setup ++ before ++ LogAllTonesOff :: cleanup -> Forall querying setup -> Forall cleaning cleanup ->
  e ∈ d -> ~ querying e -> ~ cleaning e -> e <> LogAllTonesOff -> e ∈ before.
Proof.
  rewrite !Forall_forall. intros -> Hs Hc He H1 H2 H3.
  apply elem_of_app in He as [He|He]; [by apply Hs in He|]. apply elem_of_app in He as [He|He]; [done|].
  apply elem_of_cons in He as [He|He]; [done|by apply Hc in He].
Qed.

(** Later in the log [d1 ++ d2] of a run from [w] to [w'], after [d1], there is
    the entry of a message to phone [id], and there the message was delivered. *)
Definition later_told (w : World) (d1 d2 : list log_entry) (w' : World) (id : Z)
    (entry : option Z -> log_entry) (message : Z -> ControlMessage) : Prop :=
  exists d3 q d4, d2 = d3 ++ entry q :: d4 /\
    at_point w (d1 ++ d3) (fun s s' => delivers s id message q s') d4 w'.

Definition later_told_all (w : World) (d1 d2 : list log_entry) (w' : World) (message : ControlMessage) : Prop :=
  exists d3 d4, d2 = d3 ++ LogAllTonesOff :: d4 /\
    at_point w (d1 ++ d3) (fun s s' => delivers_all s message s') d4 w'.

Lemma later_told_intro w d1 d2 w' id entry message :
  between w (d1 ++ d2) w' -> (exists q, entry q ∈ d2) ->
  (forall s q s', performs s (entry q) s' -> delivers s id message q s') ->
  later_told w d1 d2 w' id entry message.
Proof.
  intros Hb [q Hq] H. apply list_elem_of_split in Hq as (d3 & d4 & ->). exists d3, q, d4. split; [done|].
  rewrite app_assoc in Hb. eapply at_point_weaken; [by apply entry_happened|]. intros s s'. apply H.
Qed.

Lemma later_told_all_intro w d1 d2 w' :
  between w (d1 ++ d2) w' -> LogAllTonesOff ∈ d2 -> later_told_all w d1 d2 w' (CalibrationTone 0 false).
Proof.
  intros Hb Hq. apply list_elem_of_split in Hq as (d3 & d4 & ->). exists d3, d4. split; [done|].
  rewrite app_assoc in Hb. eapply at_point_weaken; [by apply entry_happened|].
  intros s s' ->. apply broadcast_delivers.
Qed.

(** All that is told to a phone at the end. *)
Definition cleaned_up (w : World) (d1 d2 : list log_entry) (w' : World) (id : Z) : Prop :=
  later_told_all w d1 d2 w' (CalibrationTone 0 false) /\
  later_told w d1 d2 w' id (LogTone id false) (fun number => CalibrationTone number false) /\
  later_told w d1 d2 w' id (LogSession id Cancel) (fun number => CalibrationSession number Cancel).

Lemma cleaned_up_intro w d setup before cleanup e d1 d2 w' id :
  between w d w' -> d = setup ++ before ++ LogAllTonesOff :: cleanup -> d = d1 ++ e :: d2 ->
  Forall cleaning cleanup -> ~ cleaning e -> e <> LogAllTonesOff -> attempted cleanup id ->
  cleaned_up w (d1 ++ [e]) d2 w' id.
Proof.
  intros Hb Hsplit E Hc Hnc Hne [[q1 H1] [q2 H2]].
  assert (between w ((d1 ++ [e]) ++ d2) w') as Hb' by (rewrite <- app_assoc; simpl; by rewrite <- E).
  destruct (cleanup_follows d setup before cleanup e d1 d2) as [k ->]; [done..| |].
  { intros Hin. rewrite Forall_forall in Hc. by apply Hc in Hin. }
  split_and!.
  - apply later_told_all_intro; [done|]. set_solver.
  - apply later_told_intro; [done|exists q1; set_solver|]. intros s q s'. apply send_request_delivers.
  - apply later_told_intro; [done|exists q2; set_solver|]. intros s q s'. apply send_request_delivers.
Qed.

(** C6. Whatever happens during a calibration - errors, cancellation, phones
    that leave or refuse, anything the other threads do - for every phone that
    was told to play the test tone, and for every phone whose calibration session
    was begun, there is a later point of the run at which all phones are told to
    be silent, one at which it is told to stop its tone, and one at which it is
    told to end its session and go back to its own volume.  Told means that the
    message, with the number of the request, goes into its queue, unless the
    phone has left by then or its queue refuses the message. *)
Theorem every_run_cleans_up (request : CalibrationRequest) (token : bool) (w : World) :
  exists d, let w' := (run request token w).1 in
    w_log w' = w_log w ++ d /\ between w d w' /\
    (forall d1 d2 id q, d = d1 ++ LogTone id true (Some q) :: d2 ->
       cleaned_up w (d1 ++ [LogTone id true (Some q)]) d2 w' id) /\
    (forall d1 d2 id q, d = d1 ++ LogSession id Begin (Some q) :: d2 ->
       cleaned_up w (d1 ++ [LogSession id Begin (Some q)]) d2 w' id).
Proof.
  destruct (run_logged request token w) as (d & Hd & Hb & Hdone). exists d. split_and!; [done|done| |].
  all: destruct Hdone as [Hq _ _|setup before cleanup originals begun outcome by_hand _ _ Hsplit Hs Hc _ Ht Hatt _ _ _ _].
  1,3: rewrite Forall_forall in Hq; intros d1 d2 id q E;
    match type of E with _ = _ ++ ?e :: _ => specialize (Hq e) end; rewrite E in Hq;
    by specialize (Hq ltac:(set_solver)).
  all: destruct Ht as (_ & Hrem & Htone & _ & _); intros d1 d2 id q E;
    assert (id ∈ begun.*1 -> attempted cleanup id) as Hbegun
      by (intros (o & -> & Ho)%list_elem_of_fmap; by apply Hatt);
    match type of E with _ = _ ++ ?e :: _ =>
      assert (e ∈ before) as Hin by (eapply (starts_before d setup before cleanup); [done|done|done|rewrite E; set_solver|by intros []|by intros []|done]) end;
    eapply (cleaned_up_intro w d setup before cleanup); [done..|by intros []|done|]; apply Hbegun; eauto.
Qed.

(** C22. A calibration returns a profile only if every phone whose session was
    begun was asked for its state before anything was done to it, and at the
    end - after which nothing is started any more - confirmed that its tone is
    off and then, in reply to the end of its session, that it is back at the
    volume, range and output it had reported at the start. *)
Theorem a_result_means_restored (request : CalibrationRequest) (token : bool) (w w' : World) (p : Profile)
  (Hrun : run request token w = (w', Ok p)) :
  exists setup before cleanup,
    let d := setup ++ before ++ LogAllTonesOff :: cleanup in
    w_log w' = w_log w ++ d /\ between w d w' /\ Forall querying setup /\ Forall cleaning cleanup /\
    forall id q, LogSession id Begin (Some q) ∈ d ->
      exists original q0, part_of [LogQuery id (Some q0); LogReply id q0 original] setup /\
        confirmed cleanup (id, original).
Proof.
  destruct (run_logged request token w) as (d & Hd & Hb & Hdone). rewrite Hrun in Hd, Hb, Hdone. simpl in Hd, Hb, Hdone.
  destruct Hdone as [_ _ [=]|setup before cleanup originals begun outcome by_hand _ _ Hsplit Hs Hc Hid Ht _ Hconf _ _ Hend].
  destruct by_hand; simpl in Hend; [|by destruct outcome].
  exists setup, before, cleanup. rewrite <- Hsplit. split_and!; [done..|].
  destruct Ht as (Hsub & Hrem & _). intros id q Hin.
  assert (LogSession id Begin (Some q) ∈ before) as Hbefore.
  { eapply (starts_before d setup before cleanup); [done..|by intros []|by intros []|done]. }
  apply Hrem, list_elem_of_fmap in Hbefore as ([i original] & -> & Ho). exists original.
  apply Hsub in Ho as Ho'. apply list_elem_of_lookup in Ho' as [k Hk].
  destruct (Forall2_lookup_r _ _ _ _ _ Hid Hk) as (x & _ & _ & q0 & Hq0). exists q0.
  split; [done|]. destruct (Hconf _ Ho) as [H|H]; [done|by apply not_elem_of_nil in H].
Qed.

(** The devices of a profile are distinct, so a device is one phone. *)
Lemma identified_unique d request originals o o' :
  profile_ok (cr_profile request) -> Forall2 (identified d) (profile_devices (cr_profile request)) originals ->
  o ∈ originals -> o' ∈ originals -> ds_device_id o.2 = ds_device_id o'.2 -> o = o'.
Proof.
  intros Hok Hid Ho Ho' E. apply po_distinct in Hok.
  apply list_elem_of_lookup in Ho as [i Hi], Ho' as [j Hj].
  destruct (Forall2_lookup_r _ _ _ _ _ Hid Hi) as (x & Hx & Hm & _).
  destruct (Forall2_lookup_r _ _ _ _ _ Hid Hj) as (y & Hy & Hn & _).
  unfold matches in Hm, Hn. rewrite !andb_true_iff, bool_decide_eq_true in Hm, Hn.
  destruct Hm as (((((Hm & _) & _) & _) & _) & _), Hn as (((((Hn & _) & _) & _) & _) & _).
  assert (i = j) as ->; [|congruence].
  apply (NoDup_lookup (dr_id <$> profile_devices (cr_profile request)) i j (ds_device_id o.2) Hok);
    rewrite list_lookup_fmap, ?Hx, ?Hy; simpl; congruence.
Qed.

(** The phone that reported to be the device [device] before the measurement. *)
Definition reported_as (d : list log_entry) (id : Z) (device : DeviceRange) : Prop :=
  exists q status, part_of [LogQuery id (Some q); LogReply id q status] d /\ matches device status = true.

Lemma reported_original d setup profile originals o x :
  part_of setup d -> profile_ok profile -> Forall2 (identified setup) (profile_devices profile) originals ->
  o ∈ originals -> x ∈ profile_devices profile -> ds_device_id o.2 = dr_id x -> reported_as d o.1 x.
Proof.
  intros Hpart Hok Hid Ho Hx E. apply list_elem_of_lookup in Hx as [i Hi].
  destruct (Forall2_lookup_l _ _ _ _ _ Hid Hi) as (o' & Ho' & Hm & q & Hq).
  assert (o = o') as <-.
  { eapply (identified_unique setup (mkCalibrationRequest 0 profile) originals); [done..|by eapply list_elem_of_lookup_2|].
    rewrite E. unfold matches in Hm. rewrite !andb_true_iff, bool_decide_eq_true in Hm.
    by destruct Hm as (((((Hm & _) & _) & _) & _) & _). }
  exists q, o.2. split; [by eapply part_of_trans|done].
Qed.


(** C39. Every calibration ends: no waiting loop runs longer than its three
    seconds of 20 ms rounds, whatever the phones, the clock and the other
    threads do, and no [unwrap] fails. *)
Theorem every_run_ends (request : CalibrationRequest) (token : bool) (w : World) :
  match (run request token w).2 with Ok _ => True | Err e => proper_error e end.
Proof.
  destruct (run_is_done request token w) as (d & _ & Hdone).
  destruct Hdone as [_ Hg He|setup before cleanup originals begun outcome by_hand _ _ _ _ _ _ _ _ _ Hg _ Hend].
  - destruct (run request token w).2 as [p|e]; [done|]. by apply Hg.
  - rewrite Hend. destruct by_hand, outcome as [p0|e]; simpl; try done; by apply Hg.
Qed.
End properties.

(** ** A calibration of two phones

    A master and a follower with the volumes 0 and 1, whose answers are posted
    by the other threads; the microphone hears both at the same level. *)

#[local] Instance plain_libm : Libm := { powf _ e := e; log10 x := x }.

Definition PHONE_A : Z := 0.
Definition PHONE_B : Z := 1.
Definition status_of (id request volume : Z) : DeviceStatus :=
  mkDeviceStatus request [97 + id] [65 + id] volume 0 1 false true false.
Definition range_of (id : Z) : DeviceRange := from_status (status_of id 0 0).

Definition demo_request : CalibrationRequest :=
  mkCalibrationRequest PHONE_A (mkProfile 0 [82] (range_of PHONE_A) [mkFollower (range_of PHONE_B) []] 0).

(** The answers to the requests 1 to 28 of the run. *)
Definition demo_replies : list (registry_op (Channel ControlMessage)) :=
  ((fun k => RegUpdateDevice PHONE_A (status_of PHONE_A k 0)) <$> [1; 3; 26]) ++
  ((fun k => RegUpdateDevice PHONE_A (status_of PHONE_A k 1)) <$> [5; 6; 9; 15; 16; 19]) ++
  ((fun k => RegUpdateDevice PHONE_B (status_of PHONE_B k 0)) <$> [2; 4; 28]) ++
  ((fun k => RegUpdateDevice PHONE_B (status_of PHONE_B k 1)) <$> [10; 11; 14; 20; 21; 24]) ++
  ((fun k => RegUpdateTone PHONE_A k true false) <$> [7; 17]) ++
  ((fun k => RegUpdateTone PHONE_A k false false) <$> [8; 18; 25]) ++
  ((fun k => RegUpdateTone PHONE_B k true false) <$> [12; 22]) ++
  ((fun k => RegUpdateTone PHONE_B k false false) <$> [13; 23; 27]).

Definition roomy_queue : Channel ControlMessage := mkChannel 100 true [].
Definition demo_registry : Registry (Channel ControlMessage) :=
  registry_run registry_default
    [RegRegister (mkSocketAddr [192; 168; 1; 20] 40000) roomy_queue;
     RegRegister (mkSocketAddr [192; 168; 1; 21] 40000) roomy_queue;
     RegUpdateDevice PHONE_A (status_of PHONE_A 0 0); RegUpdateDevice PHONE_B (status_of PHONE_B 0 0)].

(** Silence before and after each tone. *)
Definition demo_microphone (n : nat) : option Measurement :=
  if (Nat.even n && negb (Nat.eqb n 0))
  then Some (mkMeasurement (f64_of_Z (-30)) (f64_of_Z 1) 12 12 true)
  else Some (mkMeasurement (f64_of_Z (-60)) (f64_of_Z 1) 0 12 true).

Definition demo_world : World (Channel ControlMessage) :=
  mkWorld demo_registry 0 false (fun _ => mkMoment demo_replies false 1) 0 demo_microphone 0 [] SayNothing [].

Definition demo_run : World (Channel ControlMessage) * result CalError Profile := run demo_request true demo_world.

(** The run succeeds after 71 turns of the other threads. *)
Lemma demo_result :
  match demo_run with
  | (w, Ok p) => fo_mapping <$> pr_followers p = [[(0, 0); (1, 1)]] /\ w_turn w = 71%nat
  | _ => False
  end.
Proof. vm_compute. by split. Qed.

Lemma demo_run_eq : run demo_request true demo_world = demo_run.
Proof. unfold demo_run. reflexivity. Qed.

#[local] Opaque demo_run.

Lemma a_result_means_restored_witness :
  exists w' p, demo_run = (w', Ok p) /\ fo_mapping <$> pr_followers p = [[(0, 0); (1, 1)]] /\
  exists setup before cleanup,
    let d := setup ++ before ++ LogAllTonesOff :: cleanup in
    w_log w' = w_log demo_world ++ d /\ between demo_world d w' /\ Forall querying setup /\ Forall cleaning cleanup /\
    forall id q, LogSession id Begin (Some q) ∈ d ->
      exists original q0, part_of [LogQuery id (Some q0); LogReply id q0 original] setup /\
        confirmed cleanup (id, original).
Proof.
  pose proof demo_result as Hd. destruct demo_run as [w' [p|e]] eqn:Hrun; [|destruct Hd].
  exists w', p. split; [reflexivity|]. split; [apply Hd|].
  exact (a_result_means_restored demo_request true demo_world w' p (eq_trans demo_run_eq Hrun)).
Defined.

