(* ===== verification/CalibrationControl.v ===== *)
(** * CalibrationControl: starting, watching and cancelling a calibration

    The [CalibrationController] of [windows-server/src/application/calibration.rs]:
    the state shared by the window and the calibration thread.  The thread
    itself is [Calibration.run]; here it appears by the messages it sets and by
    the result with which it ends. *)

From Stdlib Require Import ZArith Lia.
From S2P Require Import Prelude BTree Wire Text Storage Registry Profiles Loudness Calibration.

(** A cancellation token is a number; [ct_shutdown] is the server's token, of
    which the tokens of the runs are children. *)
Record Tokens : Type := mkTokens {
  ct_next : nat;
  ct_cancelled : gset nat;
  ct_shutdown : bool;
}.

Definition is_cancelled (ts : Tokens) (token : nat) : bool := ct_shutdown ts || bool_decide (token ∈ ct_cancelled ts).
Definition cancel_one (token : nat) (ts : Tokens) : Tokens :=
  mkTokens (ct_next ts) ({[token]} ∪ ct_cancelled ts) (ct_shutdown ts).
Definition cancel_shutdown (ts : Tokens) : Tokens := mkTokens (ct_next ts) (ct_cancelled ts) true.
Definition child_token (ts : Tokens) : Tokens * nat :=
  (mkTokens (S (ct_next ts)) (ct_cancelled ts) (ct_shutdown ts), ct_next ts).

Record CalState : Type := mkCalState {
  cs_running : bool;
  cs_message : CalMessage;
  cs_cancel : nat;
  cs_result : option Profile;
}.

(** The controller with its tokens and the token of the thread, if it runs. *)
Record Controller : Type := mkController {
  cc_state : CalState;
  cc_tokens : Tokens;
  cc_thread : option nat;
}.

Definition cc_start : Controller :=
  mkController (mkCalState false SayNothing 0 None) (mkTokens 1 ∅ false) None.

Definition status (c : Controller) : bool * CalMessage := (cs_running (cc_state c), cs_message (cc_state c)).

Definition cancel (c : Controller) : Controller :=
  let s := cc_state c in
  let message := match cs_result s with Some _ => SayCancelled | None => cs_message s end in
  mkController (mkCalState (cs_running s) message (cs_cancel s) None)
    (cancel_one (cs_cancel s) (cc_tokens c)) (cc_thread c).

Definition clear_message (c : Controller) : Controller :=
  let s := cc_state c in
  mkController (mkCalState (cs_running s) SayNothing (cs_cancel s) (cs_result s)) (cc_tokens c) (cc_thread c).

Definition take_result (c : Controller) : Controller * option Profile :=
  let s := cc_state c in
  (mkController (mkCalState (cs_running s) (cs_message s) (cs_cancel s) None) (cc_tokens c) (cc_thread c),
   cs_result s).

Definition set_message (m : CalMessage) (c : Controller) : Controller :=
  let s := cc_state c in
  mkController (mkCalState (cs_running s) m (cs_cancel s) (cs_result s)) (cc_tokens c) (cc_thread c).

Inductive StartError : Type := AlreadyRunning | ThreadNotSpawned.

(** [start]; the argument says whether the thread could be created. *)
Definition start (spawns : bool) (c : Controller) : Controller * result StartError unit :=
  let s := cc_state c in
  if cs_running s then (c, Err AlreadyRunning)
  else
    let '(tokens, token) := child_token (cc_tokens c) in
    if spawns
    then (mkController (mkCalState true SayPreparing token None) tokens (Some token), Ok tt)
    else (mkController (mkCalState false SayPreparing token None) tokens (cc_thread c), Err ThreadNotSpawned).

(** The end of the thread, with the result of [run]. *)
Definition finish (outcome : result CalError Profile) (c : Controller) : Controller :=
  match cc_thread c with
  | None => c
  | Some token =>
      let s := cc_state c in
      let '(message, result) :=
        match outcome with
        | Ok profile =>
            if is_cancelled (cc_tokens c) token then (SayCancelled, cs_result s) else (SayDone, Some profile)
        | Err e => (SayError e, cs_result s)
        end in
      mkController (mkCalState false message (cs_cancel s) result) (cc_tokens c) None
  end.

Inductive controller_event : Type :=
| EvStart (spawns : bool)
| EvCancel
| EvShutdown
| EvClearMessage
| EvTakeResult
| EvSay (m : CalMessage)
| EvFinish (outcome : result CalError Profile).

Definition controller_step (c : Controller) (ev : controller_event) : Controller :=
  match ev with
  | EvStart spawns => (start spawns c).1
  | EvCancel => cancel c
  | EvShutdown => mkController (cc_state c) (cancel_shutdown (cc_tokens c)) (cc_thread c)
  | EvClearMessage => clear_message c
  | EvTakeResult => (take_result c).1
  | EvSay m => match cc_thread c with Some _ => set_message m c | None => c end
  | EvFinish outcome => finish outcome c
  end.

Definition controller_run (c : Controller) (evs : list controller_event) : Controller := foldl controller_step c evs.

(** ** Invariant *)

(** The flag says whether the thread exists, the state holds the thread's own
    token, and a result belongs to a run that is over and was not cancelled. *)
Record controller_wf (c : Controller) : Prop := {
  kw_thread : cc_thread c = if cs_running (cc_state c) then Some (cs_cancel (cc_state c)) else None;
  kw_tokens token : token ∈ ct_cancelled (cc_tokens c) -> (token < ct_next (cc_tokens c))%nat;
  kw_cancel : (cs_cancel (cc_state c) < ct_next (cc_tokens c))%nat;
  kw_result : is_Some (cs_result (cc_state c)) ->
    cs_running (cc_state c) = false /\ cs_cancel (cc_state c) ∉ ct_cancelled (cc_tokens c);
}.

Lemma cc_start_wf : controller_wf cc_start.
Proof. split; simpl; [done|set_solver|lia|by intros []]. Qed.

Lemma controller_step_wf c ev : controller_wf c -> controller_wf (controller_step c ev).
Proof.
  intros Hwf. pose proof Hwf as [H1 H2 H3 H4]. destruct ev as [spawns| | | | |m|outcome]; simpl.
  - unfold start. destruct (cs_running (cc_state c)) eqn:Hr; [exact Hwf|].
    destruct spawns; (split; simpl; [done| |lia|by intros []]); intros t Ht; specialize (H2 t Ht); lia.
  - split; simpl; [done| |done|by intros []].
    intros t [->%elem_of_singleton|Ht]%elem_of_union; [done|auto].
  - by split.
  - by split.
  - split; simpl; [done|done|done|by intros []].
  - rewrite H1. destruct (cs_running (cc_state c)) eqn:Hr; [|exact Hwf].
    split; simpl; [by rewrite Hr|done|done|]. intros Hs. by destruct (H4 Hs).
  - unfold finish. rewrite H1. destruct (cs_running (cc_state c)) eqn:Hr; [|exact Hwf].
    destruct outcome as [p|e].
    + unfold is_cancelled. destruct (ct_shutdown (cc_tokens c)); simpl.
      { split; simpl; [done|done|done|]. intros Hs. by destruct (H4 Hs). }
      case_bool_decide as Hc; split; simpl; try done. intros Hs. by destruct (H4 Hs).
    + split; simpl; [done|done|done|]. intros Hs. by destruct (H4 Hs).
Qed.

Lemma controller_run_wf evs c : controller_wf c -> controller_wf (controller_run c evs).
Proof.
  revert c. induction evs as [|ev evs IH]; intros c Hc; [done|]. by apply IH, controller_step_wf.
Qed.

(** The current run was cancelled, so it has no result. *)
Definition called_off (c : Controller) : Prop :=
  cs_result (cc_state c) = None /\ cs_cancel (cc_state c) ∈ ct_cancelled (cc_tokens c).

Definition starts (c : Controller) (ev : controller_event) : bool :=
  match ev with EvStart _ => negb (cs_running (cc_state c)) | _ => false end.

Lemma called_off_step c ev :
  controller_wf c -> called_off c -> starts c ev = false -> called_off (controller_step c ev).
Proof.
  intros [H1 _ _ _] [Hn Hc] Hs. destruct ev as [spawns| | | | |m|outcome]; simpl in *.
  - apply negb_false_iff in Hs. unfold start. by rewrite Hs.
  - split; simpl; [done|set_solver].
  - done.
  - done.
  - done.
  - by destruct (cc_thread c).
  - unfold finish. rewrite H1. destruct (cs_running (cc_state c)); [|done].
    destruct outcome as [p|e]; [|done].
    unfold is_cancelled. rewrite bool_decide_true by done. by rewrite orb_true_r.
Qed.

(** No start succeeds along the events. *)
Fixpoint no_start (c : Controller) (evs : list controller_event) : Prop :=
  match evs with
  | [] => True
  | ev :: evs' => starts c ev = false /\ no_start (controller_step c ev) evs'
  end.

Lemma called_off_run evs c :
  controller_wf c -> called_off c -> no_start c evs -> called_off (controller_run c evs).
Proof.
  revert c. induction evs as [|ev evs IH]; intros c Hwf Hc Hn; [done|].
  destruct Hn as [Hs Hn]. apply IH; [by apply controller_step_wf|by apply called_off_step|done].
Qed.

(** ** Properties *)

(** In every reachable state of the calibration controller: a thread runs
    exactly when the state says so, a second start is refused while it runs and
    changes nothing, and a result on offer belongs to a run that has ended and
    was not cancelled. *)
Theorem one_calibration_at_a_time (evs : list controller_event) :
  let c := controller_run cc_start evs in
  (cs_running (cc_state c) = true <-> is_Some (cc_thread c)) /\
  (forall spawns, is_Some (cc_thread c) -> start spawns c = (c, Err AlreadyRunning)) /\
  (is_Some (cs_result (cc_state c)) ->
     cc_thread c = None /\ cs_cancel (cc_state c) ∉ ct_cancelled (cc_tokens c)).
Proof.
  intros c. pose proof (controller_run_wf evs cc_start cc_start_wf) as [H1 _ _ H4]. fold c in H1, H4.
  rewrite H1. split_and!.
  - destruct (cs_running (cc_state c)); split; try done; by intros [].
  - intros spawns Hs. unfold start. destruct (cs_running (cc_state c)); [done|]. by destruct Hs.
  - intros Hs. destruct (H4 Hs) as [-> H]. done.
Qed.

(** A cancelled calibration never hands out a profile: after [cancel],
    whether the thread was still measuring, had just finished, or finishes
    later with a profile, no result can be taken until a new run is started. *)
Theorem cancelled_run_has_no_result (before after : list controller_event) (c : Controller)
  (Hc : c = cancel (controller_run cc_start before)) (Hafter : no_start c after) :
  (take_result (controller_run c after)).2 = None.
Proof.
  assert (controller_wf (controller_run cc_start before)) as Hwf by (apply controller_run_wf, cc_start_wf).
  assert (called_off (controller_run c after)) as [Hn _].
  { apply called_off_run; [|rewrite Hc; split; simpl; [done|set_solver]|done].
    rewrite Hc. by apply (controller_step_wf _ EvCancel). }
  done.
Qed.

(** ** Witness *)

Definition some_profile : Profile := mkProfile 0 [82] (mkDeviceRange [97] [65] 0 1) [] 0.

Lemma cancelled_run_has_no_result_witness :
  let c := cancel (controller_run cc_start [EvStart true; EvSay SayAmbient]) in
  cs_running (cc_state c) = true /\
  (take_result (controller_run c [EvStart true; EvFinish (Ok some_profile); EvClearMessage])).2 = None.
Proof.
  split; [reflexivity|].
  apply (cancelled_run_has_no_result [EvStart true; EvSay SayAmbient]
           [EvStart true; EvFinish (Ok some_profile); EvClearMessage] _ eq_refl).
  repeat split.
Defined.
