(* ===== verification/Session.v ===== *)
(** * Session: phones that come and go

    [windows-server/src/application/session.rs] with the accept loop of
    [application/streamer.rs]: each connection is a task that shakes hands,
    subscribes to the shared capture, registers, streams, and takes everything
    back when it ends.  The tasks interleave with each other, with the threads of
    the capture and with the other users of the registry.  A task the server
    aborts at shutdown is dropped where it stands. *)

From Stdlib Require Import ZArith Lia.
From S2P Require Import Prelude BTree Wire Text Registry Hub.

(** Where a session task is. *)
Inductive Phase : Type :=
| Handshaking
| Streaming (id : Z)
| Closing (id : Z)
| Leaving
| Unsubscribing
| Ended.

#[export] Instance Phase_eq_dec : EqDecision Phase.
Proof. solve_decision. Defined.

Section session.
Context {Sender : Type} `{MS : !Mpsc Sender ControlMessage}.

Record Streamer : Type := mkStreamer {
  sy_hub : CaptureHub;
  sy_registry : Registry Sender;
  sy_sessions : list Phase;
}.

Definition streamer_start : Streamer := mkStreamer hub_new registry_default [].

Inductive session_event : Type :=
(** the accept loop spawns a session task *)
| Accept
(** the handshake of task [i] ends; on success the task goes on without a
    pause to its stream: the capture threads start or not *)
| HandshakeEnds (i : nat) (ok capture_spawns publisher_spawns : bool) (peer : SocketAddr) (controls : Sender)
(** the control loop of task [i] returns *)
| ControlEnds (i : nat)
(** the sender task of [i] has ended: the guard is dropped *)
| NetworkEnds (i : nat)
(** the locked section of [unsubscribe], and its end *)
| Release (i : nat)
| Joined (i : nat)
(** the server drops the task *)
| Aborted (i : nat)
(** the threads of the capture, and the other users of the registry *)
| HubThread (ev : hub_event)
| RegistryUser (op : registry_op Sender).

Definition phase (s : Streamer) (i : nat) : option Phase := sy_sessions s !! i.
Definition with_phase (i : nat) (p : Phase) (s : Streamer) : Streamer :=
  mkStreamer (sy_hub s) (sy_registry s) (<[i := p]> (sy_sessions s)).

(** [session::run] after the handshake: subscribe, register, look up the gate;
    a failed subscription ends the session. *)
Definition begin_stream (capture_spawns publisher_spawns : bool) (peer : SocketAddr) (controls : Sender)
  (i : nat) (s : Streamer) : Streamer :=
  match subscribe capture_spawns publisher_spawns (sy_hub s) with
  | (hub, Err _) => mkStreamer hub (sy_registry s) (<[i := Ended]> (sy_sessions s))
  | (hub, Ok _) =>
      let '(registry, id) := register (sy_registry s) peer controls in
      let '(registry, _) := playback_gate registry id in
      mkStreamer hub registry (<[i := Streaming id]> (sy_sessions s))
  end.

(** The drop of the registration guard. *)
Definition drop_guard (id : Z) (s : Streamer) : Streamer :=
  mkStreamer (sy_hub s) (remove (sy_registry s) id) (sy_sessions s).

Definition session_step (s : Streamer) (ev : session_event) : Streamer :=
  match ev with
  | Accept => mkStreamer (sy_hub s) (sy_registry s) (sy_sessions s ++ [Handshaking])
  | HandshakeEnds i ok capture_spawns publisher_spawns peer controls =>
      match phase s i with
      | Some Handshaking =>
          if ok then begin_stream capture_spawns publisher_spawns peer controls i s else with_phase i Ended s
      | _ => s
      end
  | ControlEnds i =>
      match phase s i with Some (Streaming id) => with_phase i (Closing id) s | _ => s end
  | NetworkEnds i =>
      match phase s i with Some (Closing id) => with_phase i Leaving (drop_guard id s) | _ => s end
  | Release i =>
      match phase s i with
      | Some Leaving => with_phase i Unsubscribing (mkStreamer (unsubscribe (sy_hub s)) (sy_registry s) (sy_sessions s))
      | _ => s
      end
  | Joined i =>
      match phase s i with Some Unsubscribing => with_phase i Ended s | _ => s end
  | Aborted i =>
      match phase s i with
      | Some (Streaming id) | Some (Closing id) => with_phase i Ended (drop_guard id s)
      | Some _ => with_phase i Ended s
      | None => s
      end
  | HubThread ev =>
      match ev with
      | Subscribe _ _ | Unsubscribe => s
      | _ => mkStreamer (hub_step (sy_hub s) ev) (sy_registry s) (sy_sessions s)
      end
  | RegistryUser op =>
      match op with
      | RegRegister _ _ | RegRemove _ => s
      | _ => mkStreamer (sy_hub s) (registry_step (sy_registry s) op) (sy_sessions s)
      end
  end.

Definition session_run (s : Streamer) (evs : list session_event) : Streamer := foldl session_step s evs.

(** ** What the sessions hold *)

(** The registration of a session, and whether it holds a subscription. *)
Definition registration (p : Phase) : option Z :=
  match p with Streaming id | Closing id => Some id | _ => None end.
Definition subscribed (p : Phase) : bool :=
  match p with Streaming _ | Closing _ | Leaving => true | _ => false end.

Definition registrations (s : Streamer) : list Z := omap registration (sy_sessions s).
Definition subscriptions (s : Streamer) : Z :=
  Z.of_nat (length (filter (fun p => subscribed p = true) (sy_sessions s))).

Definition registered (r : Registry Sender) (id : Z) : Prop := is_Some (get_receiver r id).

(** The receivers are those of the sessions that stream or close, each its own. *)
Record accounted (s : Streamer) : Prop := {
  acc_distinct : NoDup (registrations s);
  acc_fresh id : id ∈ registrations s -> 0 <= id < reg_next_id (sy_registry s);
  acc_registered id : registered (sy_registry s) id <-> id ∈ registrations s;
}.

(** The capture has as many users as there are subscriptions. *)
Definition users_match (s : Streamer) : Prop :=
  exists shared, shared_of (hub_state (sy_hub s)) = Some shared /\ users shared = subscriptions s.

(** The accounts balance. *)
Definition balanced (s : Streamer) : Prop := accounted s /\ users_match s.

(** ** The registry's receivers *)

Implicit Types (r : Registry Sender) (op : registry_op Sender) (s : Streamer).

Definition keeps_receivers (op : registry_op Sender) : Prop :=
  match op with RegRegister _ _ | RegRemove _ => False | _ => True end.

Lemma registered_proj r id : registered r id <-> get_receiver r id ≫= (fun _ => Some tt) = Some tt.
Proof.
  unfold registered. destruct (get_receiver r id); simpl; (split; [done|]); [by eexists|done].
Qed.

Lemma registered_step r op id : keeps_receivers op -> registered (registry_step r op) id <-> registered r id.
Proof.
  intros Hop. destruct op; try done;
    try (rewrite !registered_proj, registry_step_proj; [done|by intros..|try done; try (by right); by intros]).
  cbn [registry_step]. destruct (update_device_cases r id0 status) as [->|(r1 & Hr & -> & _)]; [done|].
  unfold registered. rewrite get_receiver_modify.
  assert (forall k, get_receiver r1 k = get_receiver r k) as Hr1 by (intros k; unfold get_receiver; by rewrite Hr).
  destruct (Z.eqb_spec id id0) as [->|]; rewrite Hr1; [|done]. by rewrite fmap_is_Some.
Qed.

Lemma next_id_send r id m : reg_next_id (send r id m).1 = reg_next_id r.
Proof. by destruct (send_cases r id m) as [->|(q & c & _ & _ & -> & _)]. Qed.

Lemma next_id_step r op : keeps_receivers op -> reg_next_id (registry_step r op) = reg_next_id r.
Proof.
  intros Hop. destruct op; try done; cbn [registry_step].
  - unfold playback_gate. by destruct (get_receiver r id).
  - apply store_each_frame.
  - apply store_each_frame.
  - apply next_id_send.
  - unfold request. by rewrite send_request_fst, next_id_send.
  - by destruct (volume_request_cases r id index purpose barrier) as [->|(q & c & _ & ->)].
  - unfold calibration_request. by rewrite send_request_fst, next_id_send.
  - unfold tone_request. by rewrite send_request_fst, next_id_send.
  - unfold update_tone. by case_match.
  - unfold take_tone_reply. by destruct (get_receiver r id).
  - unfold take_reply. by destruct (get_receiver r id).
  - unfold take_unsolicited_volume. by destruct (get_receiver r id).
  - unfold update_device. destruct (negb _); [done|]. destruct (get_receiver r id) as [q|]; [|done]. by case_match.
Qed.

Lemma registered_register r peer controls id :
  registered (register r peer controls).1 id <-> id = reg_next_id r \/ registered r id.
Proof.
  unfold registered.
  assert (get_receiver (register r peer controls).1 id = get_receiver (admitted r peer controls) id) as ->.
  { by destruct (register_cases r peer controls) as [_ [-> | ->]]. }
  rewrite get_receiver_admitted. destruct (Z.eqb_spec id (reg_next_id r)) as [->|Hne].
  - split; [by left|]. intros _. by eexists.
  - split; [by right|]. by intros [|].
Qed.

Lemma next_id_register r peer controls :
  reg_next_id (register r peer controls).1 = wrapping_add 64 (reg_next_id r) 1.
Proof. by destruct (register_cases r peer controls) as [_ [-> | ->]]. Qed.

Lemma registered_remove r id id' : registered (remove r id) id' <-> id' <> id /\ registered r id'.
Proof.
  unfold registered. assert (get_receiver (remove r id) id' = get_receiver (without r id) id') as ->.
  { destruct (remove_cases r id) as [-> | ->]; destruct (get_receiver r id); try done.
    - by rewrite get_receiver_store_each.
    - change (get_receiver (store_each (fun _ => false) (without r id)) id' = get_receiver (without r id) id').
      by rewrite get_receiver_store_each. }
  rewrite get_receiver_without. destruct (Z.eqb_spec id' id) as [->|Hne]; split; try done; by intros [].
Qed.

Lemma next_id_remove r id : reg_next_id (remove r id) = reg_next_id r.
Proof.
  assert (reg_next_id (store_each (fun _ => false) (without r id)) = reg_next_id (without r id)) as H
    by apply store_each_frame.
  destruct (remove_cases r id) as [-> | ->]; by destruct (get_receiver r id).
Qed.

Lemma registered_playback_gate r id id' : registered (playback_gate r id).1 id' <-> registered r id'.
Proof. unfold playback_gate. by destruct (get_receiver r id). Qed.

Lemma next_id_playback_gate r id : reg_next_id (playback_gate r id).1 = reg_next_id r.
Proof. unfold playback_gate. by destruct (get_receiver r id). Qed.

(** ** One session moves *)

Lemma phase_split s i p p' :
  phase s i = Some p ->
  exists l1 l2, sy_sessions s = l1 ++ p :: l2 /\ <[i := p']> (sy_sessions s) = l1 ++ p' :: l2.
Proof.
  intros Hp. exists (take i (sy_sessions s)), (drop (S i) (sy_sessions s)). split.
  - symmetry. by apply take_drop_middle.
  - apply insert_take_drop. by eapply lookup_lt_Some.
Qed.

Definition holding (l : list Phase) : Z := Z.of_nat (length (filter (fun p => subscribed p = true) l)).

Lemma holding_app l1 l2 : holding (l1 ++ l2) = holding l1 + holding l2.
Proof. unfold holding. rewrite filter_app, length_app. lia. Qed.

Lemma holding_cons p l : holding (p :: l) = (if subscribed p then 1 else 0) + holding l.
Proof.
  unfold holding. destruct (subscribed p) eqn:E.
  - rewrite filter_cons_True by done. simpl. lia.
  - rewrite filter_cons_False by (by rewrite E). lia.
Qed.

Lemma holding_nonneg l : 0 <= holding l.
Proof. unfold holding. lia. Qed.

(** The change of one phase, seen by the accounts. *)
Lemma phase_change s i p p' (hub : CaptureHub) (registry : Registry Sender) :
  phase s i = Some p ->
  exists l1 l2,
    registrations s = l1 ++ option_list (registration p) ++ l2 /\
    registrations (mkStreamer hub registry (<[i := p']> (sy_sessions s))) = l1 ++ option_list (registration p') ++ l2 /\
    subscriptions (mkStreamer hub registry (<[i := p']> (sy_sessions s))) =
      subscriptions s - (if subscribed p then 1 else 0) + (if subscribed p' then 1 else 0).
Proof.
  intros Hp. destruct (phase_split s i p p' Hp) as (l1 & l2 & H1 & H2).
  exists (omap registration l1), (omap registration l2). unfold registrations, subscriptions. cbn [sy_sessions].
  rewrite H2, H1, !omap_app. fold (holding (l1 ++ p' :: l2)) (holding (l1 ++ p :: l2)).
  rewrite !holding_app, !holding_cons. simpl. split_and!; [by destruct (registration p)|by destruct (registration p')|lia].
Qed.

(** Steps that do not touch the accounts. *)
Lemma accounted_frame s s' :
  accounted s -> registrations s' = registrations s -> reg_next_id (sy_registry s') = reg_next_id (sy_registry s) ->
  (forall id, registered (sy_registry s') id <-> registered (sy_registry s) id) -> accounted s'.
Proof.
  intros [H1 H2 H3] E1 E2 E3. split; [by rewrite E1|intros id; rewrite E1, E2; apply H2|intros id; by rewrite E3, H3, E1].
Qed.

Lemma users_frame s s' :
  users_match s -> subscriptions s' = subscriptions s ->
  shared_of (hub_state (sy_hub s')) = shared_of (hub_state (sy_hub s)) -> users_match s'.
Proof. intros (shared & H1 & H2) E1 E2. exists shared. by rewrite E1, E2. Qed.

(** A session that is not registered moves. *)
Lemma accounted_move s i p p' hub :
  phase s i = Some p -> registration p = registration p' -> accounted s ->
  accounted (mkStreamer hub (sy_registry s) (<[i := p']> (sy_sessions s))).
Proof.
  intros Hp Hr Hs. destruct (phase_change s i p p' hub (sy_registry s) Hp) as (l1 & l2 & E1 & E2 & _).
  apply (accounted_frame s); try done. by rewrite E1, E2, Hr.
Qed.

Lemma users_move s i p p' registry :
  phase s i = Some p -> subscribed p = subscribed p' -> users_match s ->
  users_match (mkStreamer (sy_hub s) registry (<[i := p']> (sy_sessions s))).
Proof.
  intros Hp Hr Hs. destruct (phase_change s i p p' (sy_hub s) registry Hp) as (l1 & l2 & _ & _ & E3).
  apply (users_frame s); try done. rewrite E3, Hr. lia.
Qed.

(** A session that holds a registration gives it back. *)
Lemma accounted_deregister s i p id p' :
  phase s i = Some p -> registration p = Some id -> registration p' = None ->
  accounted s -> accounted (with_phase i p' (drop_guard id s)).
Proof.
  intros Hp Hid Hp' [H1 H2 H3].
  destruct (phase_change s i p p' (sy_hub s) (remove (sy_registry s) id) Hp) as (l1 & l2 & E1 & E2 & _).
  rewrite Hid in E1. rewrite Hp' in E2. simpl in E1, E2. rewrite E1 in H1.
  assert (id ∉ l1 ++ l2) as Hnotin.
  { apply NoDup_app in H1 as (_ & Hd & Hn). apply NoDup_cons in Hn as [Hn _].
    intros [Hin|Hin]%elem_of_app; [|done]. specialize (Hd id Hin). set_solver. }
  unfold with_phase, drop_guard. cbn [sy_hub sy_registry sy_sessions]. split.
  - rewrite E2. apply (sublist_NoDup _ _ H1). apply sublist_app; [done|]. by apply sublist_cons.
  - intros id'. rewrite E2. cbn [sy_registry]. rewrite next_id_remove. intros Hin. apply H2. rewrite E1. set_solver.
  - intros id'. cbn [sy_registry]. rewrite registered_remove, H3, E1, E2.
    rewrite not_elem_of_app in Hnotin. rewrite !elem_of_app, elem_of_cons. split; [tauto|].
    intros Hin. split; [|tauto]. intros ->. tauto.
Qed.

(** A new session takes the next identifier. *)
Lemma accounted_begin c p peer controls i s :
  phase s i = Some Handshaking -> 0 <= reg_next_id (sy_registry s) -> reg_next_id (sy_registry s) + 1 < 2 ^ 64 ->
  accounted s -> accounted (begin_stream c p peer controls i s).
Proof.
  intros Hp Hid0 Hid Hs. unfold begin_stream.
  destruct (subscribe c p (sy_hub s)) as [hub [run|e]]; [|by eapply accounted_move].
  destruct Hs as [H1 H2 H3]. destruct (register (sy_registry s) peer controls) as [registry id] eqn:Hreg.
  pose proof (registered_register (sy_registry s) peer controls) as Hr.
  pose proof (next_id_register (sy_registry s) peer controls) as Hn.
  pose proof (register_cases (sy_registry s) peer controls) as [Hi _]. rewrite Hreg in Hi, Hr, Hn. simpl in Hi, Hr, Hn. subst id.
  pose proof (registered_playback_gate registry (reg_next_id (sy_registry s))) as Hr'.
  pose proof (next_id_playback_gate registry (reg_next_id (sy_registry s))) as Hn'.
  destruct (playback_gate registry (reg_next_id (sy_registry s))) as [registry' gate]. simpl in Hr', Hn'.
  unfold wrapping_add in Hn. rewrite wrap_small in Hn by (split; lia).
  destruct (phase_change s i Handshaking (Streaming (reg_next_id (sy_registry s))) hub registry' Hp)
    as (l1 & l2 & E1 & E2 & _). simpl in E1, E2.
  assert (forall x, x ∈ l1 ++ reg_next_id (sy_registry s) :: l2 <-> x = reg_next_id (sy_registry s) \/ x ∈ registrations s) as Hin.
  { intros x. rewrite E1. set_solver. }
  split.
  - rewrite E2. apply NoDup_Permutation_proper with (reg_next_id (sy_registry s) :: l1 ++ l2);
      [symmetry; apply Permutation_middle|].
    rewrite <- E1. constructor; [|done]. intros Hx. specialize (H2 _ Hx). lia.
  - intros x. rewrite E2, Hin. cbn [sy_registry]. rewrite Hn', Hn. intros [->|Hx]; [lia|].
    specialize (H2 x Hx). lia.
  - intros x. cbn [sy_registry]. by rewrite Hr', Hr, H3, E2, Hin.
Qed.

Lemma users_begin c p peer controls i s :
  phase s i = Some Handshaking -> subscriptions s + 1 < 2 ^ 64 -> users_match s ->
  users_match (begin_stream c p peer controls i s).
Proof.
  intros Hp Hsub (shared & H4 & H5). unfold begin_stream.
  pose proof (hub_step_refines (sy_hub s) shared (Subscribe c p) H4 ltac:(lia)) as Href. simpl in Href.
  pose proof (subscribe_answer (sy_hub s) shared c p H4) as Hans.
  destruct (subscribe c p (sy_hub s)) as [hub [run|e]]; simpl in Href, Hans.
  - destruct (register (sy_registry s) peer controls) as [registry id].
    destruct (playback_gate registry id) as [registry' gate].
    destruct (phase_change s i Handshaking (Streaming id) hub registry' Hp) as (l1 & l2 & _ & _ & E3). simpl in E3.
    exists (acquire (m_next (hub_machine (sy_hub s))) shared). cbn [sy_hub]. split.
    + rewrite Href. destruct shared as [|r n]; [|done]. simpl in Hans. by destruct c, p.
    + rewrite E3. simpl in H5. destruct shared as [|r n]; simpl in *; lia.
  - destruct (phase_change s i Handshaking Ended hub (sy_registry s) Hp) as (l1 & l2 & _ & _ & E3). simpl in E3.
    exists shared. rewrite E3. cbn [sy_hub]. split; [|lia]. rewrite Href.
    destruct shared as [|r n]; simpl in Hans; [by destruct c, p|done].
Qed.

Lemma users_give_back shared : users (give_back shared) = Z.max 0 (users shared - 1).
Proof.
  destruct shared as [|run n]; simpl; [done|]. case_decide as E; [by subst|]. simpl. lia.
Qed.

Lemma holding_elem i p l : l !! i = Some p -> subscribed p = true -> 1 <= holding l.
Proof.
  intros Hi Hs. rewrite <- (take_drop_middle l i p Hi), holding_app, holding_cons, Hs.
  pose proof (holding_nonneg (take i l)). pose proof (holding_nonneg (drop (S i) l)). lia.
Qed.

Lemma users_release s i :
  phase s i = Some Leaving -> subscriptions s + 1 < 2 ^ 64 -> users_match s ->
  users_match (mkStreamer (unsubscribe (sy_hub s)) (sy_registry s) (<[i := Unsubscribing]> (sy_sessions s))).
Proof.
  intros Hp Hlt (shared & H4 & H5).
  destruct (phase_change s i Leaving Unsubscribing (unsubscribe (sy_hub s)) (sy_registry s) Hp) as (l1 & l2 & _ & _ & E3).
  pose proof (hub_step_refines (sy_hub s) shared Unsubscribe H4 ltac:(lia)) as Href. simpl in E3, Href.
  exists (give_back shared). split; [done|]. rewrite users_give_back, E3, H5.
  pose proof (holding_elem i Leaving (sy_sessions s) Hp eq_refl) as Hone.
  unfold subscriptions. fold (holding (sy_sessions s)). lia.
Qed.

Lemma shared_hub_thread h ev :
  match ev with Subscribe _ _ | Unsubscribe => False | _ => True end ->
  shared_of (hub_state (hub_step h ev)) = shared_of (hub_state h).
Proof. destruct ev; try done. intros _. simpl. unfold cancel_released. by destruct (hub_released h). Qed.

(** Every step keeps the registry's account, the shutdown included. *)
Lemma session_step_accounted s ev :
  0 <= reg_next_id (sy_registry s) -> reg_next_id (sy_registry s) + 1 < 2 ^ 64 -> accounted s -> accounted (session_step s ev).
Proof.
  intros Hid0 Hid Hs. destruct ev as [|i ok c p peer controls|i|i|i|i|i|ev|op]; cbn [session_step].
  - apply (accounted_frame s); try done. unfold registrations. cbn [sy_sessions]. by rewrite omap_app, app_nil_r.
  - destruct (phase s i) as [[| | | | |]|] eqn:Hp; try done.
    destruct ok; [by apply accounted_begin|by eapply (accounted_move s)].
  - destruct (phase s i) as [[| | | | |]|] eqn:Hp; try done. by eapply (accounted_move s).
  - destruct (phase s i) as [[| | | | |]|] eqn:Hp; try done. by eapply (accounted_deregister s).
  - destruct (phase s i) as [[| | | | |]|] eqn:Hp; try done. by eapply (accounted_move s).
  - destruct (phase s i) as [[| | | | |]|] eqn:Hp; try done. by eapply (accounted_move s).
  - destruct (phase s i) as [[| | | | |]|] eqn:Hp; try done;
      first [by eapply (accounted_deregister s)|by eapply (accounted_move s)].
  - destruct ev; try done; by apply (accounted_frame s).
  - destruct op; try done; apply (accounted_frame s); try done;
      cbn [sy_registry]; try (by apply next_id_step); intros id'; by apply registered_step.
Qed.

(** The events of a server that is not shutting down. *)
Definition undisturbed (ev : session_event) : Prop := match ev with Aborted _ => False | _ => True end.

Lemma session_step_users s ev :
  undisturbed ev -> subscriptions s + 1 < 2 ^ 64 -> users_match s -> users_match (session_step s ev).
Proof.
  intros Hev Hsub Hs. destruct ev as [|i ok c p peer controls|i|i|i|i|i|ev|op]; cbn [session_step].
  - apply (users_frame s); try done. unfold subscriptions. cbn [sy_sessions].
    fold (holding (sy_sessions s ++ [Handshaking])) (holding (sy_sessions s)). rewrite holding_app.
    change (holding [Handshaking]) with 0. lia.
  - destruct (phase s i) as [[| | | | |]|] eqn:Hp; try done. destruct ok; [by apply users_begin|by eapply (users_move s)].
  - destruct (phase s i) as [[| | | | |]|] eqn:Hp; try done. by eapply (users_move s).
  - destruct (phase s i) as [[| | | | |]|] eqn:Hp; try done. by eapply (users_move s).
  - destruct (phase s i) as [[| | | | |]|] eqn:Hp; try done. by apply (users_release s).
  - destruct (phase s i) as [[| | | | |]|] eqn:Hp; try done. by eapply (users_move s).
  - done.
  - destruct ev; try done; apply (users_frame s); try done; by apply shared_hub_thread.
  - destruct op; try done; by apply (users_frame s).
Qed.

Lemma session_step_balanced s ev :
  undisturbed ev -> 0 <= reg_next_id (sy_registry s) -> reg_next_id (sy_registry s) + 1 < 2 ^ 64 ->
  subscriptions s + 1 < 2 ^ 64 -> balanced s -> balanced (session_step s ev).
Proof. intros Hev H0 H1 Hsub [Ha Hu]. split; [by apply session_step_accounted|by apply session_step_users]. Qed.

(** Each event adds at most one registration and one subscription. *)
Lemma session_step_growth s ev :
  0 <= reg_next_id (sy_registry s) -> reg_next_id (sy_registry s) + 1 < 2 ^ 64 ->
  reg_next_id (sy_registry s) <= reg_next_id (sy_registry (session_step s ev)) <= reg_next_id (sy_registry s) + 1 /\
  Z.of_nat (length (sy_sessions (session_step s ev))) <= Z.of_nat (length (sy_sessions s)) + 1.
Proof.
  intros H0 H1. destruct ev as [|i ok c p peer controls|i|i|i|i|i|ev|op]; cbn [session_step].
  - simpl. rewrite length_app. simpl. lia.
  - destruct (phase s i) as [[| | | | |]|]; try (simpl; lia).
    destruct ok; [|simpl; rewrite length_insert; lia]. unfold begin_stream.
    destruct (subscribe c p (sy_hub s)) as [hub [run|e]]; [|cbn [sy_registry sy_sessions]; rewrite length_insert; lia].
    pose proof (next_id_register (sy_registry s) peer controls) as Hn.
    destruct (register (sy_registry s) peer controls) as [registry id]. simpl in Hn.
    pose proof (next_id_playback_gate registry id) as Hn'.
    destruct (playback_gate registry id) as [registry' gate]. simpl in Hn'.
    cbn [sy_registry sy_sessions]. rewrite length_insert, Hn', Hn. unfold wrapping_add.
    rewrite wrap_small by (split; lia). lia.
  - destruct (phase s i) as [[| | | | |]|]; simpl; rewrite ?length_insert; lia.
  - destruct (phase s i) as [[| | | | |]|]; simpl; rewrite ?length_insert, ?next_id_remove; lia.
  - destruct (phase s i) as [[| | | | |]|]; simpl; rewrite ?length_insert; lia.
  - destruct (phase s i) as [[| | | | |]|]; simpl; rewrite ?length_insert; lia.
  - destruct (phase s i) as [[| | | | |]|]; simpl; rewrite ?length_insert, ?next_id_remove; lia.
  - destruct ev; simpl; lia.
  - destruct op; cbn [sy_registry sy_sessions]; try rewrite next_id_step by done; lia.
Qed.

Lemma subscriptions_bound s : 0 <= subscriptions s <= Z.of_nat (length (sy_sessions s)).
Proof. unfold subscriptions. pose proof (length_filter (fun p => subscribed p = true) (sy_sessions s)). lia. Qed.

Lemma session_run_balanced evs s :
  Forall undisturbed evs -> 0 <= reg_next_id (sy_registry s) ->
  reg_next_id (sy_registry s) + Z.of_nat (length evs) < 2 ^ 64 ->
  Z.of_nat (length (sy_sessions s)) + Z.of_nat (length evs) < 2 ^ 64 ->
  balanced s -> balanced (session_run s evs).
Proof.
  revert s. induction evs as [|ev evs IH]; intros s Hevs H0 H1 H2 Hb; [done|].
  apply Forall_cons in Hevs as [Hev Hevs]. simpl in H1, H2.
  destruct (session_step_growth s ev H0 ltac:(lia)) as [G1 G2].
  pose proof (subscriptions_bound s).
  apply IH; [done|lia|lia|lia|]. apply session_step_balanced; try done; lia.
Qed.

Lemma streamer_start_balanced : balanced streamer_start.
Proof.
  split; [|by exists Idle]. split; [constructor|set_solver|].
  intros id. unfold registered. simpl. split; [by intros []|set_solver].
Qed.

(** ** Properties *)

(** While the server runs, the accounts balance in every reachable state,
    whatever the interleaving of the sessions with each other, with the capture
    threads and with the other users of the registry: the registered receivers
    are exactly those of the sessions that stream or are closing, each its own,
    and the shared capture has exactly as many users as there are sessions that
    subscribed and did not yet unsubscribe.  So once every session has ended,
    no receiver is registered and the capture is given up. *)
Theorem sessions_balance (evs : list session_event) (s : Streamer)
  (Hrun : s = session_run streamer_start evs)
  (Hevs : Forall undisturbed evs) (Hlen : Z.of_nat (length evs) < 2 ^ 64) :
  balanced s /\
  (Forall (fun p => p = Ended) (sy_sessions s) ->
     (forall id, ~ registered (sy_registry s) id) /\ shared_of (hub_state (sy_hub s)) = Some Idle).
Proof.
  assert (balanced s) as Hb.
  { rewrite Hrun. apply session_run_balanced; [done|simpl; lia..|apply streamer_start_balanced]. }
  split; [done|]. intros Hend. destruct Hb as [[_ _ H3] (shared & H4 & H5)].
  assert (registrations s = [] /\ subscriptions s = 0) as [E1 E2].
  { unfold registrations, subscriptions. clear -Hend. induction Hend as [|p l -> _ [IH1 IH2]]; [done|].
    simpl. rewrite filter_cons_False by done. done. }
  split.
  - intros id Hr. apply H3 in Hr. rewrite E1 in Hr. by apply not_elem_of_nil in Hr.
  - rewrite H4. destruct shared as [|run n]; [done|]. simpl in H5. lia.
Qed.

(** A session the server aborts at shutdown is deregistered by its guard but
    never gives its subscription back: the capture keeps the session as a user,
    so it goes on until the hub itself is dropped. *)
Theorem aborted_session_keeps_capture (s : Streamer) (i : nat) (id : Z)
  (Hphase : phase s i = Some (Streaming id)) :
  phase (session_step s (Aborted i)) i = Some Ended /\
  ~ registered (sy_registry (session_step s (Aborted i))) id /\
  sy_hub (session_step s (Aborted i)) = sy_hub s.
Proof.
  cbn [session_step]. rewrite Hphase. split_and!; [| |done].
  - unfold phase, with_phase. cbn [sy_sessions drop_guard]. apply list_lookup_insert_eq.
    by eapply lookup_lt_Some.
  - cbn [with_phase drop_guard sy_registry]. rewrite registered_remove. by intros [? _].
Qed.
End session.

(** ** Witnesses *)

Definition visitor : SocketAddr := mkSocketAddr [192; 168; 1; 20] 40000.
Definition queue : Channel ControlMessage := mkChannel 16 true [].

(** Two phones come and go; a third fails its handshake. *)
Definition evening : list (session_event (Sender := Channel ControlMessage)) :=
  [Accept; Accept; HandshakeEnds 0 true true true visitor queue; Accept;
   HandshakeEnds 1 true true true visitor queue; HandshakeEnds 2 false true true visitor queue;
   RegistryUser (RegQuery 0); ControlEnds 0; NetworkEnds 0; ControlEnds 1; Release 0; NetworkEnds 1; Release 1;
   HubThread CancelReleased; HubThread (CaptureEnds 0 false); Joined 0; Joined 1].

Lemma sessions_balance_witness :
  let s := session_run streamer_start evening in
  sy_sessions s = [Ended; Ended; Ended] /\ balanced s /\
  (forall id, ~ registered (sy_registry s) id) /\ shared_of (hub_state (sy_hub s)) = Some Idle.
Proof.
  split; [reflexivity|].
  destruct (sessions_balance evening _ eq_refl ltac:(repeat constructor) ltac:(apply Z.ltb_lt; reflexivity)) as [H1 H2].
  split; [exact H1|]. apply H2. repeat constructor.
Defined.

Lemma aborted_session_keeps_capture_witness :
  let s := session_run streamer_start (take 3 evening) in
  phase (session_step s (Aborted 0)) 0 = Some Ended /\
  ~ registered (sy_registry (session_step s (Aborted 0))) 0 /\
  sy_hub (session_step s (Aborted 0)) = sy_hub s.
Proof. apply (aborted_session_keeps_capture _ 0 0). reflexivity. Defined.
