(* ===== verification/Panel.v ===== *)
(** * Panel: what the user's clicks do

    [windows-server/src/ui/model.rs]: the controller behind the windows.  It
    keeps the last snapshot of the receivers, the volume changes the user made
    in the calibration window and the requests sent for them, and turns every
    command into calls of the registry, the volume controller, the calibration
    controller and the transmission switch.  The other threads of the server
    run between any two of these calls. *)

From Stdlib Require Import ZArith Lia.
From S2P Require Import Prelude BTree Wire Text Storage Registry Profiles Gate VolumeControl Loudness Calibration CalibrationControl.

Inductive Page : Type := Receivers | Information | Settings.

Inductive Command : Type :=
| CmdShow (page : Page)
| CmdToggle
| CmdAdjustAll (steps : Z)
| CmdOpenCalibration
| CmdCloseCalibration
| CmdSetMaster (id : Z)
| CmdDeviceVolume (id index : Z)
| CmdMasterPoint (index : Z)
| CmdMasterPosition (position : Z)
| CmdRecord (id : Z)
| CmdRemovePoint (id : Z)
| CmdPreviewDevice (id : Z)
| CmdPreviewPair (id : Z)
| CmdStopTone
| CmdCalibrate
| CmdCancel
| CmdProfile (id : Z)
| CmdNewProfile
| CmdSaveProfile (name : rstring) (copy : bool)
| CmdDeleteProfile
| CmdExit
| CmdCopyPairing
| CmdCopyFingerprint.

Inductive PanelError : Type :=
| PanMeasuring
| PanWindowOpen
| PanUnsettled
| PanNotReady
| PanUnadjustable
| PanNoProfile
| PanOnlyMaster
| PanNotCalibrated
| PanNoMaster
| PanMasterGone
| PanDeviceGone
| PanPointMismatch
| PanPairUnavailable
| PanVolume (e : VolumeError)
| PanRegistry (e : RegistryError)
| PanStart (e : StartError).

(** The line of text under the controls. *)
Inductive Notice : Type :=
| NoNotice
| NoticeError (e : PanelError)
| NoticeRefused (name : rstring)
| NoticeNoConfirmation
| NoticeRecorded (point : Z) (name : rstring) (volume : Z)
| NoticeSaved
(** of the windows: a measurement is being cancelled, a window did not open *)
| NoticeCancelling
| NoticeNoWindow.

Record ManualRequest : Type := mkManualRequest {
  mr_request : Z;
  mr_index : Z;
  mr_at : Z;
  mr_beginning : bool;
}.

(** The fields of [Controller] besides the server. *)
Record Panel : Type := mkPanel {
  pa_receivers : list ReceiverSnapshot;
  pa_page : Page;
  pa_point : Z;
  pa_notice : Notice;
  pa_pending : btree (Z * Z);
  pa_replies : btree ManualRequest;
  pa_sessions : bset;
}.

Definition panel_new : Panel := mkPanel [] Receivers 0 NoNotice [] [] [].

Definition set_receivers x p := mkPanel x (pa_page p) (pa_point p) (pa_notice p) (pa_pending p) (pa_replies p) (pa_sessions p).
Definition set_page x p := mkPanel (pa_receivers p) x (pa_point p) (pa_notice p) (pa_pending p) (pa_replies p) (pa_sessions p).
Definition set_point x p := mkPanel (pa_receivers p) (pa_page p) x (pa_notice p) (pa_pending p) (pa_replies p) (pa_sessions p).
Definition set_notice x p := mkPanel (pa_receivers p) (pa_page p) (pa_point p) x (pa_pending p) (pa_replies p) (pa_sessions p).
Definition set_requested x p := mkPanel (pa_receivers p) (pa_page p) (pa_point p) (pa_notice p) x (pa_replies p) (pa_sessions p).
Definition set_replies x p := mkPanel (pa_receivers p) (pa_page p) (pa_point p) (pa_notice p) (pa_pending p) x (pa_sessions p).
Definition set_sessions x p := mkPanel (pa_receivers p) (pa_page p) (pa_point p) (pa_notice p) (pa_pending p) (pa_replies p) x.

(** What the panel did to the phones' calibration sessions, for the statements. *)
Inductive panel_call : Type :=
| PcBegin (id : Z) (request : option Z)
| PcVolume (id index : Z) (request : option Z)
| PcReply (id request : Z) (status : DeviceStatus)
(** every session is cancelled *)
| PcEnd.

Section desk.
Context {Sender : Type} `{MS : !Mpsc Sender ControlMessage}.
Context {FS : Type} `{HFS : !FileSystem FS} {Hcodec : LibraryCodec}.
Variable path : Path.

(** What the other threads do before a call of the panel: operations on the
    server, messages and the end of a calibration, the time they take, and
    whether a thread could be started now. *)
Record Turn : Type := mkTurn {
  tn_server : list (system_op (Sender := Sender));
  tn_calibration : list controller_event;
  tn_elapsed : nat;
  tn_spawns : bool;
}.

Record Desk : Type := mkDesk {
  dk_system : System (Sender := Sender) (FS := FS);
  dk_calibration : Controller;
  dk_panel : Panel;
  dk_now : Z;
  dk_schedule : nat -> Turn;
  dk_turn : nat;
  dk_log : list panel_call;
}.

Definition with_system (y : System) (w : Desk) : Desk :=
  mkDesk y (dk_calibration w) (dk_panel w) (dk_now w) (dk_schedule w) (dk_turn w) (dk_log w).
Definition with_calibration (c : Controller) (w : Desk) : Desk :=
  mkDesk (dk_system w) c (dk_panel w) (dk_now w) (dk_schedule w) (dk_turn w) (dk_log w).
Definition with_panel (p : Panel) (w : Desk) : Desk :=
  mkDesk (dk_system w) (dk_calibration w) p (dk_now w) (dk_schedule w) (dk_turn w) (dk_log w).
Definition with_call (c : panel_call) (w : Desk) : Desk :=
  mkDesk (dk_system w) (dk_calibration w) (dk_panel w) (dk_now w) (dk_schedule w) (dk_turn w) (dk_log w ++ [c]).

(** The monad: state, errors and, as [None], a panic. *)
Definition Pan (A : Type) : Type := Desk -> option (Desk * result PanelError A).

#[export] Instance pan_ret : MRet Pan := fun A a w => Some (w, Ok a).
#[export] Instance pan_bind : MBind Pan := fun A B f m w =>
  match m w with
  | Some (w', Ok a) => f a w'
  | Some (w', Err e) => Some (w', Err e)
  | None => None
  end.

Definition lift {A} (r : result PanelError A) : Pan A := fun w => Some (w, r).
Definition require (c : bool) (e : PanelError) : Pan unit := lift (ensure c e).
Definition attempt {A} (m : Pan A) : Pan (result PanelError A) := fun w =>
  '(w, r) ← m w; Some (w, Ok r).
Definition unwrap {A} (o : option A) : Pan A := fun w => a ← o; Some (w, Ok a).

Fixpoint for_each {A} (f : A -> Pan unit) (l : list A) : Pan unit :=
  match l with [] => mret tt | x :: l' => _ ← f x; for_each f l' end.

(** ** Primitive calls *)

Definition others (w : Desk) : option Desk :=
  let t := dk_schedule w (dk_turn w) in
  y ← system_run path (dk_system w) (tn_server t);
  Some (mkDesk y (controller_run (dk_calibration w) (tn_calibration t)) (dk_panel w)
          (dk_now w + Z.of_nat (tn_elapsed t)) (dk_schedule w) (S (dk_turn w)) (dk_log w)).

(** One operation on the server, and its answer. *)
Definition act {A} (op : Z -> system_op (Sender := Sender)) (answer : Z -> System -> A) : Pan A := fun w =>
  w ← others w;
  y ← system_step path (dk_system w) (op (dk_now w));
  Some (with_system y w, Ok (answer (dk_now w) (dk_system w))).

Definition look {A} (f : System -> A) : Pan A := fun w =>
  w ← others w; Some (w, Ok (f (dk_system w))).
(** One operation on the calibration controller. *)
Definition steer {A} (f : bool -> Controller -> Controller * A) : Pan A := fun w =>
  w ← others w;
  let '(c, a) := f (tn_spawns (dk_schedule w (dk_turn w))) (dk_calibration w) in
  Some (with_calibration c w, Ok a).
Definition clock : Pan Z := fun w => w ← others w; Some (w, Ok (dk_now w)).

Definition panel : Pan Panel := fun w => Some (w, Ok (dk_panel w)).
Definition update (f : Panel -> Panel) : Pan unit := fun w => Some (with_panel (f (dk_panel w)) w, Ok tt).
Definition jot (c : panel_call) : Pan unit := fun w => Some (with_call c w, Ok tt).
Definition notify (n : Notice) : Pan unit := update (set_notice n).

Definition volume_call (op : Z -> system_op (Sender := Sender)) (answer : Z -> System -> result VolumeError unit) : Pan unit :=
  r ← act op answer; lift (map_err PanVolume r).

Definition done {E A} (r : result E A) : result E unit := (fun _ => tt) <$> r.
Definition granted {E A} (r : result E A) : option A := match r with Ok a => Some a | Err _ => None end.

Definition look_view : Pan VolumeView := look (fun y => view (sy_state y)).
Definition calibrating : Pan bool := steer (fun _ c => (c, (status c).1)).

Definition ask_begin (id : Z) : Pan (result RegistryError Z) :=
  r ← act (fun _ => SysRegistry (RegCalibration id Begin)) (fun _ y => (calibration_request (sy_registry y) id Begin).2);
  _ ← jot (PcBegin id (granted r)); mret r.
Definition ask_volume (id index : Z) : Pan (result RegistryError Z) :=
  r ← act (fun _ => SysRegistry (RegVolume id index Wire.Calibration false))
        (fun _ y => (calibration_volume_request (sy_registry y) id index).2);
  _ ← jot (PcVolume id index (granted r)); mret r.
Definition poll_reply (id request : Z) : Pan (option DeviceStatus) :=
  r ← act (fun _ => SysRegistry (RegTakeReply id request)) (fun _ y => (take_reply (sy_registry y) id request).2);
  _ ← match r with Some status => jot (PcReply id request status) | None => mret tt end; mret r.
Definition ask_status (id : Z) : Pan (result RegistryError Z) :=
  act (fun _ => SysRegistry (RegQuery id)) (fun _ y => (request (sy_registry y) id None).2).
Definition ask_tone (id : Z) : Pan (result RegistryError Z) :=
  act (fun _ => SysRegistry (RegTone id true)) (fun _ y => (tone_request (sy_registry y) id true).2).
Definition tones_off : Pan unit :=
  act (fun _ => SysRegistry (RegBroadcast (CalibrationTone 0 false))) (fun _ _ => tt).
Definition sessions_off : Pan unit :=
  act (fun _ => SysRegistry (RegBroadcast (CalibrationSession 0 Cancel))) (fun _ _ => tt).
(** [self.sessions.clear()], after the sessions were cancelled. *)
Definition forget_sessions : Pan unit := _ ← jot PcEnd; update (set_sessions []).

(** ** Looking things up *)

Definition MANUAL_TIMEOUT_MS : Z := 4000.
Definition SETTLE_MS : Z := 120.

Definition present (id : Z) (receivers : list ReceiverSnapshot) : bool := existsb (fun r => rs_id r =? id) receivers.
Definition device_of (id : Z) (receivers : list ReceiverSnapshot) : option DeviceStatus :=
  find (fun r => rs_id r =? id) receivers ≫= rs_device.
Definition is_on (range : DeviceRange) (r : ReceiverSnapshot) : bool :=
  match rs_device r with Some d => matches range d | None => false end.

Definition settled (p : Panel) : bool := bool_decide (pa_pending p = []) && bool_decide (pa_replies p = []).

(** The volume shown for a receiver. *)
Definition volume (p : Panel) (r : ReceiverSnapshot) : Z :=
  match bt_get (rs_id r) (pa_pending p) with
  | Some (index, _) => index
  | None =>
      match bt_get (rs_id r) (pa_replies p) with
      | Some m => if mr_beginning m then from_option ds_volume 0 (rs_device r) else mr_index m
      | None => from_option ds_volume 0 (rs_device r)
      end
  end.

(** [index.clamp(lo, hi)] panics on an empty range. *)
Definition clamp (index lo hi : Z) : option Z := if hi <? lo then None else Some (Z.min (Z.max index lo) hi).

(** ** [refresh] *)

Definition confirms (status : DeviceStatus) (index : Z) : bool :=
  negb (ds_failed status) && (ds_volume status =? index) && ds_speaker status && negb (ds_fixed status).

Definition drop_reply (id : Z) : Pan unit := update (fun p => set_replies (bt_remove id (pa_replies p)) p).

Definition abandon (id : Z) (m : ManualRequest) : Pan unit :=
  _ ← update (fun p => set_requested (bt_remove id (pa_pending p)) p);
  _ ← update (fun p => if mr_beginning m then set_sessions (bs_remove id (pa_sessions p)) p else p);
  drop_reply id.

(** The closure of [replies.retain]. *)
Definition settle_one (request : Z * ManualRequest) : Pan unit :=
  let '(id, m) := request in
  reply ← poll_reply id (mr_request m);
  match reply with
  | Some status =>
      if confirms status (mr_index m) then drop_reply id
      else _ ← notify (NoticeRefused (ds_name status)); abandon id m
  | None =>
      now ← clock;
      p ← panel;
      if (MANUAL_TIMEOUT_MS <=? elapsed now (mr_at m)) || negb (present id (pa_receivers p))
      then _ ← notify NoticeNoConfirmation; abandon id m
      else mret tt
  end.

(** The changes that waited long enough and have no request under way. *)
Fixpoint ready_changes (pending : btree (Z * Z)) : Pan (list (Z * Z)) :=
  match pending with
  | [] => mret []
  | (id, (index, at_)) :: pending' =>
      now ← clock;
      p ← panel;
      ready ← ready_changes pending';
      mret (if (SETTLE_MS <=? elapsed now at_) && negb (bt_contains_key id (pa_replies p))
            then (id, index) :: ready else ready)
  end.

Definition send_change (change : Z * Z) : Pan unit :=
  let '(id, index) := change in
  p ← panel;
  let beginning := negb (bs_contains id (pa_sessions p)) in
  result ← (if beginning then ask_begin id
            else _ ← update (fun p => set_requested (bt_remove id (pa_pending p)) p); ask_volume id index);
  match result with
  | Ok request =>
      expected ← (if beginning
                  then _ ← update (fun p => set_sessions (bs_insert id (pa_sessions p)) p);
                       mret (from_option ds_volume index (device_of id (pa_receivers p)))
                  else mret index);
      now ← clock;
      update (fun p => set_replies (bt_insert id (mkManualRequest request expected now beginning) (pa_replies p)) p)
  | Err e =>
      _ ← update (fun p => set_requested (bt_remove id (pa_pending p)) p);
      notify (NoticeError (PanRegistry e))
  end.

(** A finished measurement becomes the draft. *)
Definition adopt_result (profile : Profile) : Pan (result VolumeError unit) :=
  act (fun _ => SysSetDraft profile) (fun _ y => done (set_draft (sy_state y) profile)).

Definition refresh : Pan unit :=
  receivers ← look (fun y => snapshots (sy_registry y));
  _ ← update (set_receivers receivers);
  result ← steer (fun _ c => take_result c);
  _ ← match result with
      | Some profile =>
          r ← adopt_result profile;
          match r with Ok _ => mret tt | Err e => notify (NoticeError (PanVolume e)) end
      | None => mret tt
      end;
  _ ← update (fun p => set_sessions (bt_retain (fun id _ => present id (pa_receivers p)) (pa_sessions p)) p);
  p ← panel;
  _ ← for_each settle_one (pa_replies p);
  running ← calibrating;
  if running : bool then mret tt
  else
    p ← panel;
    ready ← ready_changes (pa_pending p);
    for_each send_change ready.

(** ** [execute] *)

(** What every command but [Cancel] and [Exit] does first. *)
Definition preamble : Pan unit :=
  running ← calibrating;
  _ ← require (negb running) PanMeasuring;
  result ← steer (fun _ c => take_result c);
  _ ← match result with
      | Some profile => r ← adopt_result profile; lift (map_err PanVolume r)
      | None => mret tt
      end;
  steer (fun _ c => (clear_message c, tt)).

Definition require_settled (e : PanelError) : Pan unit := p ← panel; require (settled p) e.
Definition draft_volume (v : VolumeView) : Z := from_option pr_volume 0 (vv_draft v).
Definition draft_or (e : PanelError) : Pan Profile := v ← look_view; lift (ok_or e (vv_draft v)).
Definition my_device (id : Z) (e : PanelError) : Pan DeviceStatus :=
  p ← panel; lift (ok_or e (device_of id (pa_receivers p))).
Definition my_receiver (range : DeviceRange) : Pan ReceiverSnapshot :=
  p ← panel; lift (ok_or PanMasterGone (find (is_on range) (pa_receivers p))).

Definition request_volume (index : Z) : Pan unit :=
  volume_call (fun now => SysSetVolume index now)
    (fun now y => (set_volume (sy_state y) (sy_registry y) index now).2).

Definition toggle : Pan unit :=
  v ← look_view;
  _ ← require (negb (vv_editing v)) PanWindowOpen;
  enabled ← look (fun y => is_enabled (sy_gate y));
  act (fun _ => SysSetEnabled (negb enabled)) (fun _ _ => tt).

Definition open_calibration : Pan unit :=
  _ ← volume_call (fun _ => SysOpen) (fun _ y => done (open (sy_state y) (sy_registry y) (sy_gate y)));
  v ← look_view;
  _ ← update (set_point (draft_volume v));
  notify NoNotice.

Definition close_calibration : Pan unit :=
  _ ← require_settled PanUnsettled;
  _ ← act SysClose (fun _ _ => tt);
  _ ← forget_sessions;
  notify NoNotice.

Definition choose_master (id : Z) : Pan unit :=
  _ ← require_settled PanUnsettled;
  device ← my_device id PanNotReady;
  _ ← volume_call (fun _ => SysSetMaster device) (fun _ y => done (set_master (sy_state y) device (sy_registry y)));
  update (set_point (ds_volume device)).

Definition device_volume (id index : Z) : Pan unit :=
  v ← look_view;
  _ ← (if vv_editing v then
         device ← my_device id PanNotReady;
         _ ← require (ds_speaker device && negb (ds_fixed device) && negb (ds_failed device)) PanUnadjustable;
         _ ← act (fun _ => SysRemember id device) (fun _ _ => tt);
         index ← unwrap (clamp index (ds_minimum device) (ds_maximum device));
         _ ← (if match vv_draft v with Some d => bool_decide (dr_id (pr_master d) = ds_device_id device) | None => false end
              then update (set_point index) else mret tt);
         now ← clock;
         update (fun p => set_requested (bt_insert id (index, now) (pa_pending p)) p)
       else
         profile ← lift (ok_or PanNoProfile (current (vv_library v)));
         p ← panel;
         _ ← require (existsb (fun r => (rs_id r =? id) && is_on (pr_master profile) r) (pa_receivers p)) PanOnlyMaster;
         request_volume index);
  notify NoNotice.

Definition master_position (position : Z) : Pan unit :=
  v ← look_view;
  profile ← lift (ok_or PanNoProfile (current (vv_library v)));
  p ← panel;
  let parts := participating profile (devices_of (pa_receivers p)) in
  index ← lift (ok_or PanNotCalibrated (available profile parts !! Z.to_nat position));
  _ ← request_volume index;
  notify NoNotice.

(** [execute] calls itself: the preamble runs again. *)
Definition master_point (index : Z) : Pan unit :=
  draft ← draft_or PanNoMaster;
  receiver ← my_receiver (pr_master draft);
  _ ← preamble;
  device_volume (rs_id receiver) index.

Definition edit_call (change : Profile -> Profile * result VolumeError unit) : Pan unit :=
  volume_call (fun _ => SysEdit change) (fun _ y => (edit (sy_state y) change).2).

Definition with_mapping (f : btree Z -> btree Z) (fo : Follower) : Follower := mkFollower (fo_device fo) (f (fo_mapping fo)).

(** The closures given to [edit]. *)
Definition record_point (point : Z) (device : DeviceStatus) (profile : Profile) : Profile * result VolumeError unit :=
  match update_first (fun f => matches (fo_device f) device) (with_mapping (bt_insert point (ds_volume device)))
          (pr_followers profile) with
  | Some followers => (with_pr_volume point (with_pr_followers followers profile), Ok tt)
  | None => (profile, Err EditFailed)
  end.
Definition remove_point (point : Z) (device : DeviceStatus) (profile : Profile) : Profile * result VolumeError unit :=
  match update_first (fun f => bool_decide (dr_id (fo_device f) = ds_device_id device)) (with_mapping (bt_remove point))
          (pr_followers profile) with
  | Some followers => (with_pr_followers followers profile, Ok tt)
  | None => (profile, Err EditFailed)
  end.

Definition record_command (id : Z) : Pan unit :=
  v ← look_view;
  p ← panel;
  _ ← require (vv_editing v && settled p) PanUnsettled;
  device ← my_device id PanDeviceGone;
  draft ← draft_or PanNoMaster;
  _ ← require (existsb (fun r => match rs_device r with
                                | Some d => matches (pr_master draft) d && (ds_volume d =? pa_point p)
                                | None => false
                                end) (pa_receivers p)) PanPointMismatch;
  _ ← edit_call (record_point (pa_point p) device);
  notify (NoticeRecorded (pa_point p) (ds_name device) (ds_volume device)).

Definition remove_command (id : Z) : Pan unit :=
  device ← my_device id PanDeviceGone;
  p ← panel;
  edit_call (remove_point (pa_point p) device).

(** The loop that starts the tones: the first failure silences all. *)
Definition start_tone (id : Z) : Pan unit :=
  r ← ask_tone id;
  match r with
  | Ok _ => mret tt
  | Err e => _ ← tones_off; lift (Err (PanRegistry e))
  end.

Definition preview (id : Z) (pair : bool) : Pan unit :=
  v ← look_view;
  p ← panel;
  _ ← require (vv_editing v && settled p) PanUnsettled;
  targets ← (if pair then
               profile ← lift (ok_or PanNoMaster (vv_draft v));
               follower ← my_device id PanDeviceGone;
               _ ← require (existsb (fun f => matches (fo_device f) follower) (pr_followers profile)) PanPairUnavailable;
               master ← my_receiver (pr_master profile);
               mret [id; rs_id master]
             else mret [id]);
  _ ← tones_off;
  for_each start_tone targets.

Definition calibrate_command : Pan unit :=
  v ← look_view;
  p ← panel;
  _ ← require (vv_editing v && settled p) PanUnsettled;
  profile ← draft_or PanNoMaster;
  _ ← my_receiver (pr_master profile);
  _ ← tones_off;
  _ ← sessions_off;
  _ ← forget_sessions;
  r ← steer start;
  _ ← lift (map_err PanStart r);
  notify NoNotice.

Definition choose_profile (id : Z) : Pan unit :=
  _ ← require_settled PanUnsettled;
  _ ← volume_call (fun _ => SysSelect id)
        (fun _ y => (select (sy_state y) (sy_registry y) (sy_disk y) path id).2);
  p ← panel;
  _ ← for_each (fun r => _ ← ask_status (rs_id r); mret tt) (pa_receivers p);
  v ← look_view;
  _ ← update (set_point (draft_volume v));
  notify NoNotice.

Definition new_profile : Pan unit :=
  _ ← volume_call (fun _ => SysNewDraft) (fun _ y => done (new_draft (sy_state y)));
  update (set_point 0).

Definition save_profile (name : rstring) (copy : bool) : Pan unit :=
  _ ← require_settled PanUnsettled;
  p ← panel;
  _ ← edit_call (fun profile => (with_pr_volume (pa_point p) profile, Ok tt));
  _ ← volume_call (fun _ => SysSaveDraft name copy)
        (fun _ y => (save_draft (sy_state y) (sy_disk y) path name copy).2);
  notify NoticeSaved.

Definition delete_profile : Pan unit :=
  v ← look_view;
  match vv_draft v with
  | Some draft =>
      volume_call (fun _ => SysDelete (pr_id draft))
        (fun _ y => (delete (sy_state y) (sy_disk y) path (pr_id draft)).2)
  | None => mret tt
  end.

Definition neighbour (available : list Z) (volume steps : Z) : option Z :=
  if 0 <? steps then find (fun index => volume <? index) available
  else find (fun index => index <? volume) (rev available).

Definition adjust_all (steps : Z) : Pan unit :=
  v ← look_view;
  profile ← lift (ok_or PanNoProfile (current (vv_library v)));
  snaps ← look (fun y => snapshots (sy_registry y));
  let parts := participating profile (devices_of snaps) in
  match neighbour (available profile parts) (pr_volume profile) steps with
  | Some index => request_volume index
  | None => mret tt
  end.

(** The match on the command after the preamble. *)
Definition perform (c : Command) : Pan unit :=
  match c with
  | CmdShow page => update (set_page page)
  | CmdToggle => toggle
  | CmdOpenCalibration => open_calibration
  | CmdCloseCalibration => close_calibration
  | CmdSetMaster id => choose_master id
  | CmdDeviceVolume id index => device_volume id index
  | CmdMasterPosition position => master_position position
  | CmdMasterPoint index => master_point index
  | CmdRecord id => record_command id
  | CmdRemovePoint id => remove_command id
  | CmdPreviewDevice id => preview id false
  | CmdPreviewPair id => preview id true
  | CmdStopTone => tones_off
  | CmdCalibrate => calibrate_command
  | CmdProfile id => choose_profile id
  | CmdNewProfile => new_profile
  | CmdSaveProfile name copy => save_profile name copy
  | CmdDeleteProfile => delete_profile
  | CmdAdjustAll steps => adjust_all steps
  | CmdCancel | CmdExit | CmdCopyPairing | CmdCopyFingerprint => mret tt
  end.

Definition execute (c : Command) : Pan unit :=
  match c with
  | CmdCancel => steer (fun _ c => (cancel c, tt))
  | CmdExit => steer (fun _ c => (controller_step c EvShutdown, tt))
  | _ => _ ← preamble; perform c
  end.

Definition command (c : Command) : Pan unit :=
  r ← attempt (execute c);
  match r with Ok _ => mret tt | Err e => notify (NoticeError e) end.

(** ** A session at the panel *)

Inductive panel_event : Type :=
| PanRefresh
| PanCommand (c : Command).

Definition panel_step (ev : panel_event) : Pan unit :=
  match ev with PanRefresh => refresh | PanCommand c => command c end.

(** [Controller::new] refreshes once. *)
Definition panel_run (evs : list panel_event) : Pan unit := _ ← refresh; for_each panel_step evs.

Definition desk_start (d : FS) (now : Z) (schedule : nat -> Turn) : Desk :=
  mkDesk (system_start d path now) cc_start panel_new now schedule 0 [].

End desk.

(** ** An example: a visit to the calibration window *)

Definition room_turn (ops : list (registry_op (Channel ControlMessage))) : Turn :=
  mkTurn (SysRegistry <$> ops) [] 100 true.

(** Two phones join at once; the master answers the first request when the panel
    has asked it. *)
Definition visit (n : nat) : Turn :=
  match n with
  | 0%nat => room_turn joining
  | 15%nat => room_turn [RegUpdateDevice 0 (speaker [109] 15 1 3)]
  | _ => room_turn []
  end.

(** The user opens the window and moves the slider of the master to 5. *)
Definition clicks : list panel_event :=
  [PanRefresh; PanCommand CmdOpenCalibration; PanCommand (CmdDeviceVolume 0 5); PanRefresh; PanRefresh;
   PanCommand CmdCloseCalibration].

Definition visit_desk : Desk := desk_start room_path room_disk 0 visit.
Definition visit_run := panel_run room_path clicks visit_desk.

(** The same room at rest. *)
Definition room_desk : Desk :=
  mkDesk (mkSystem room_state room_registry room_disk gate_enabled) cc_start panel_new 0 (fun _ => room_turn []) 0 [].
