(* ===== verification/PanelSafety.v ===== *)
(** * PanelSafety: no click breaks the server's promises

    Theorems on [Panel].  A triple says what a piece of the panel's code makes
    of a desk, whatever the other threads do in between: it returns, and a
    condition holds afterwards.  The first part shows that the promise of the
    volume controller survives every command; the second one follows the manual
    volume changes through the requests the panel sends. *)

From Stdlib Require Import ZArith Lia.
From S2P Require Import Prelude BTree Wire Text Storage Registry Profiles Gate VolumeControl Loudness Calibration CalibrationControl Panel.

Section safety.
Context {Sender : Type} `{MS : !Mpsc Sender ControlMessage}.
Context {FS : Type} `{HFS : !FileSystem FS} {Hcodec : LibraryCodec}.
Variable path : Path.

Abbreviation Desk := (Desk (Sender := Sender) (FS := FS)).
Abbreviation Pan := (Pan (Sender := Sender) (FS := FS)).
Abbreviation system_op := (system_op (Sender := Sender)).
Implicit Types (w : Desk) (op : system_op) (s : State) (reg : Registry Sender) (d : FS).

(** ** What the other threads may do *)

Definition background_op (op : system_op) : Prop :=
  match op with
  | SysRegistry op => approves op = false
  | SysTick _ | SysFinish | SysWorkerExit => True
  | _ => False
  end.
Definition background_event (ev : controller_event) : Prop :=
  match ev with EvSay _ | EvFinish _ | EvShutdown => True | _ => False end.
Definition background (t : Turn (Sender := Sender)) : Prop :=
  Forall background_op (tn_server t) /\ Forall background_event (tn_calibration t).

Definition editing w : bool := vs_editing (sy_state (dk_system w)).
Definition measuring w : bool := cs_running (cc_state (dk_calibration w)).

(** ** Triples *)

Definition triple {A} (P : Desk -> Prop) (m : Pan A) (Q : result PanelError A -> Desk -> Prop) : Prop :=
  forall w, P w -> exists w' r, m w = Some (w', r) /\ Q r w'.

Definition keeps (P : Desk -> Prop) {A} (m : Pan A) : Prop := triple P m (fun _ => P).

Lemma triple_weaken {A} (P P' : Desk -> Prop) (Q Q' : result PanelError A -> Desk -> Prop) (m : Pan A) :
  triple P m Q -> (forall w, P' w -> P w) -> (forall r w, Q r w -> Q' r w) -> triple P' m Q'.
Proof. intros H H1 H2 w Hw. destruct (H w (H1 w Hw)) as (w' & r & Hm & Hq). eauto. Qed.

Lemma triple_bind {A B} (P : Desk -> Prop) (m : Pan A) (f : A -> Pan B) Q R :
  triple P m Q -> (forall a, triple (Q (Ok a)) (f a) R) -> (forall e w, Q (Err e) w -> R (Err e) w) ->
  triple P (m ≫= f) R.
Proof.
  intros Hm Hf He w Hw. destruct (Hm w Hw) as (w1 & [a|e] & Hr & Hq).
  - destruct (Hf a w1 Hq) as (w2 & r & Hr2 & Hq2). exists w2, r. split; [|done].
    unfold mbind, pan_bind. by rewrite Hr.
  - exists w1, (Err e). split; [|auto]. unfold mbind, pan_bind. by rewrite Hr.
Qed.

Lemma triple_pure {A} P (r : result PanelError A) (m : Pan A) :
  (forall w, m w = Some (w, r)) -> triple P m (fun r' w => r' = r /\ P w).
Proof. intros Hm w Hw. exists w, r. by rewrite Hm. Qed.

Lemma keeps_bind P {A B} (m : Pan A) (f : A -> Pan B) : keeps P m -> (forall a, keeps P (f a)) -> keeps P (m ≫= f).
Proof. intros Hm Hf. by eapply triple_bind. Qed.
Lemma keeps_ret P {A} (a : A) : keeps P (mret a).
Proof. intros w Hw. by exists w, (Ok a). Qed.
Lemma keeps_lift P {A} (r : result PanelError A) : keeps P (lift r).
Proof. intros w Hw. by exists w, r. Qed.
Lemma keeps_require P c e : keeps P (require c e).
Proof. apply keeps_lift. Qed.
Lemma keeps_panel P : keeps P panel.
Proof. intros w Hw. by exists w, (Ok (dk_panel w)). Qed.
Lemma keeps_attempt P {A} (m : Pan A) : keeps P m -> keeps P (attempt m).
Proof.
  intros Hm w Hw. destruct (Hm w Hw) as (w' & r & Hr & Hq). exists w', (Ok r). split; [|done].
  unfold attempt. by rewrite Hr.
Qed.
Lemma keeps_for_each P {A} (f : A -> Pan unit) l : (forall x, x ∈ l -> keeps P (f x)) -> keeps P (for_each f l).
Proof.
  induction l as [|x l IH]; intros Hf; [apply keeps_ret|]. simpl.
  apply keeps_bind; [apply Hf; set_solver|]. intros _. apply IH. set_solver.
Qed.

(** ** The promise *)

Definition no_event_starts (ev : controller_event) : Prop := match ev with EvStart _ => False | _ => True end.

(** The devices the panel remembers have a range. *)
Definition devices_valid (receivers : list ReceiverSnapshot) : Prop :=
  forall r (device : DeviceStatus), r ∈ receivers -> rs_device r = Some device -> status_valid device = true.

Record desk_ok w : Prop := {
  do_schedule n : background (dk_schedule w n);
  do_system : system_ok (dk_system w);
  do_calibration : controller_wf (dk_calibration w);
  do_devices : devices_valid (pa_receivers (dk_panel w));
  do_measuring : measuring w = true -> editing w = true;
}.

(** What is known besides: nothing, that no measurement runs, or that none runs
    and the calibration window is open. *)
Inductive mode : Type := Any | Idle | Editing.
Definition knows (m : mode) w : Prop :=
  desk_ok w /\
  match m with Any => True | Idle => measuring w = false | Editing => measuring w = false /\ editing w = true end.

(** Operations that neither open nor close the calibration window. *)
Definition keeps_window (op : system_op) : Prop := match op with SysOpen | SysClose _ => False | _ => True end.

Lemma select_editing s reg d id : vs_editing (select s reg d path id).1.1.1 = vs_editing s.
Proof.
  unfold select. destruct (negb _); [done|]. destruct (negb _); [done|].
  destruct (vs_editing s) eqn:E; [done|]. destruct (ensure_writable s); [|done].
  by destruct (save _ _ _) as [d' [|]].
Qed.

Lemma set_volume_editing s reg requested now : vs_editing (set_volume s reg requested now).1.1 = vs_editing s.
Proof.
  unfold set_volume. destruct (vs_editing s) eqn:E; [done|]. destruct (current _); [|done].
  destruct (matching _ _) as [|master [|]]; [done| |done]. destruct (nearest _ _ _); [|done].
  by destruct (panel_volume_request _ _ _) as [reg' [|]].
Qed.

Lemma finish_editing s d : vs_editing (VolumeControl.finish s d path).1.1 = vs_editing s.
Proof.
  unfold VolumeControl.finish. destruct (vs_dirty s); [|done]. destruct (ensure_writable s); [|done].
  by destruct (save _ _ _) as [d' [|]].
Qed.

Lemma system_step_editing y y' op :
  system_ok y -> keeps_window op -> system_step path y op = Some y' -> vs_editing (sy_state y') = vs_editing (sy_state y).
Proof.
  intros [Hwf _ Hq] Hop Hstep. destruct y as [s reg d gate]. cbn [sy_state sy_registry] in *.
  destruct op as [op|now| |now|master|id device| |change|draft|name copy|id|id|requested now| | |enabled];
    cbn [system_step] in Hstep; try done; unfold or_unchanged, with_state in Hstep; cbn in Hstep.
  - by simplify_eq.
  - destruct (tick_spec now s reg d path Hwf Hq) as (s' & reg' & d' & Ht & _ & _ & He & _).
    rewrite Ht in Hstep. simpl in Hstep. by simplify_eq.
  - destruct (set_master s master reg) as [s'|e] eqn:Hm; simplify_eq; [|done].
    unfold set_master in Hm. rewrite !ensure_bind in Hm. by destruct Hm as (_ & _ & [= <-]).
  - simplify_eq. unfold remember. simpl. by case_match.
  - destruct (new_draft s) as [s'|e] eqn:Hm; simplify_eq; [|done].
    unfold new_draft in Hm. rewrite ensure_bind in Hm. by destruct Hm as (_ & [= <-]).
  - simplify_eq. unfold edit. simpl. destruct (vs_editing s) eqn:He; [|done].
    destruct (vs_draft s); [|done]. by destruct (change _).
  - destruct (set_draft s draft) as [s'|e] eqn:Hm; simplify_eq; [|done].
    unfold set_draft in Hm. rewrite bind_unit_ok, ensure_bind in Hm. by destruct Hm as (_ & _ & [= <-]).
  - destruct (save_draft s d path name copy) as [[s' d'] r] eqn:Hs.
    destruct (save_draft_spec _ _ _ _ _ _ _ _ Hs) as (_ & He & _). by simplify_eq.
  - pose proof (select_editing s reg d id) as He.
    destruct (select s reg d path id) as [[[s' reg'] d'] r]. injection Hstep as <-. exact He.
  - destruct (delete s d path id) as [[s' d'] r] eqn:Hs.
    destruct (delete_spec _ _ _ _ _ _ _ Hs) as (_ & _ & [->|[E1 E2]]); simplify_eq; [done|]. simpl. congruence.
  - pose proof (set_volume_editing s reg requested now) as He.
    destruct (set_volume s reg requested now) as [[s' reg'] r]. injection Hstep as <-. exact He.
  - pose proof (finish_editing s d) as He.
    destruct (VolumeControl.finish s d path) as [[s' d'] r]. injection Hstep as <-. exact He.
  - by simplify_eq.
  - by simplify_eq.
Qed.

Lemma background_allowed op : background_op op -> op_allowed op /\ keeps_window op.
Proof. by destruct op. Qed.

Lemma system_run_editing ops y y' :
  system_ok y -> Forall background_op ops -> system_run path y ops = Some y' ->
  vs_editing (sy_state y') = vs_editing (sy_state y).
Proof.
  revert y. induction ops as [|op ops IH]; intros y Hok Hops Hrun; simpl in Hrun; [by simplify_eq|].
  apply Forall_cons in Hops as [Hop Hops]. destruct (background_allowed _ Hop) as [Ha Hw].
  destruct (system_step_spec path y op Hok Ha) as (y1 & Hs & Hok1 & _). rewrite Hs in Hrun. simpl in Hrun.
  rewrite (IH y1 Hok1 Hops Hrun). by eapply system_step_editing.
Qed.

Lemma background_run evs c :
  Forall background_event evs -> cs_running (cc_state (controller_run c evs)) = true -> cs_running (cc_state c) = true.
Proof.
  revert c. induction evs as [|ev evs IH]; intros c Hevs; [done|].
  apply Forall_cons in Hevs as [Hev Hevs]. intros Hr. apply (IH (controller_step c ev)) in Hr; [|done].
  destruct ev; try done; simpl in Hr.
  - by destruct (cc_thread c).
  - unfold finish in Hr. destruct (cc_thread c); [|done]. by destruct outcome; [destruct (is_cancelled _ _)|].
Qed.

(** The other threads keep what is known, and the panel to itself. *)
Lemma others_spec m w :
  knows m w ->
  exists w', others path w = Some w' /\ knows m w' /\ dk_panel w' = dk_panel w /\ dk_log w' = dk_log w /\
    dk_schedule w' = dk_schedule w.
Proof.
  intros [[H1 H2 H3 H4 H5] Hm]. unfold others. destruct (H1 (dk_turn w)) as [Hops Hevs].
  destruct (system_run_spec path (tn_server (dk_schedule w (dk_turn w))) (dk_system w) H2) as (y & Hy & Hok & _).
  { eapply Forall_impl; [exact Hops|]. intros op Hop. by apply background_allowed. }
  pose proof (system_run_editing _ _ _ H2 Hops Hy) as He.
  rewrite Hy. simpl. eexists. split; [reflexivity|]. split; [|done].
  pose proof (background_run _ (dk_calibration w) Hevs) as Hrun.
  unfold knows, measuring, editing. cbn [dk_calibration dk_system]. rewrite He. split.
  - split; cbn [dk_schedule dk_system dk_calibration dk_panel]; try done; [by apply controller_run_wf|].
    unfold measuring, editing. cbn [dk_calibration dk_system]. rewrite He. auto.
  - destruct m; [done| |]; unfold measuring, editing in Hm;
      destruct (cs_running (cc_state (controller_run _ _))); intuition congruence.
Qed.

(** ** The primitive calls *)

Lemma others_then {A} (P P' : Desk -> Prop) (f : Desk -> option (Desk * result PanelError A)) Q :
  (forall w, P w -> exists w', others path w = Some w' /\ P' w') ->
  triple P' f Q -> triple P (fun w => w ← others path w; f w) Q.
Proof. intros Ho Hf w Hw. destruct (Ho w Hw) as (w' & H' & Hw'). rewrite H'. simpl. by apply Hf. Qed.

Lemma knows_others m w : knows m w -> exists w', others path w = Some w' /\ knows m w'.
Proof. intros Hw. destruct (others_spec m w Hw) as (w' & H1 & H2 & _). by exists w'. Qed.

Lemma triple_look {A} m (f : System -> A) :
  triple (knows m) (look path f) (fun r w => r = Ok (f (dk_system w)) /\ knows m w).
Proof. apply (others_then _ (knows m)); [apply knows_others|]. intros w Hw. by exists w, (Ok (f (dk_system w))). Qed.

Lemma keeps_look {A} m (f : System -> A) : keeps (knows m) (look path f).
Proof. eapply triple_weaken; [apply triple_look|done|by intros r w []]. Qed.

Lemma keeps_clock m : keeps (knows m) (clock path).
Proof. apply (others_then _ (knows m)); [apply knows_others|]. intros w Hw. by exists w, (Ok (dk_now w)). Qed.

Lemma knows_system m w y :
  knows m w -> system_ok y -> vs_editing (sy_state y) = editing w -> knows m (with_system y w).
Proof.
  intros [[H1 H2 H3 H4 H5] Hm] Hok He. split; [split; try done|].
  - unfold measuring, editing. cbn. rewrite He. exact H5.
  - unfold measuring, editing in *. cbn. by rewrite He.
Qed.

Lemma keeps_act {A} m (op : Z -> system_op) (answer : Z -> System -> A) :
  (forall now, op_allowed (op now) /\ keeps_window (op now)) -> keeps (knows m) (act path op answer).
Proof.
  intros Hop. apply (others_then _ (knows m)); [apply knows_others|]. intros w Hw.
  destruct (Hop (dk_now w)) as [Ha Hk]. pose proof (proj1 Hw) as [_ Hok _ _ _].
  destruct (system_step_spec path _ _ Hok Ha) as (y & Hy & Hok' & _). rewrite Hy. simpl.
  eexists _, _. split; [reflexivity|]. apply knows_system; [done|done|]. by eapply system_step_editing.
Qed.

(** Opening and closing the window while no measurement runs. *)
Lemma keeps_window_act {A} (op : Z -> system_op) (answer : Z -> System -> A) :
  (forall now, op_allowed (op now)) -> keeps (knows Idle) (act path op answer).
Proof.
  intros Hop. apply (others_then _ (knows Idle)); [apply knows_others|]. intros w [[H1 H2 H3 H4 H5] Hm].
  destruct (system_step_spec path _ _ H2 (Hop (dk_now w))) as (y & Hy & Hok' & _). rewrite Hy. simpl.
  eexists _, _. split; [reflexivity|]. split; [split; try done|exact Hm].
  unfold measuring in *. cbn. by rewrite Hm.
Qed.

Lemma keeps_steer {A} m (f : bool -> Controller -> Controller * A) :
  (forall b c, controller_wf c -> controller_wf (f b c).1 /\
     (cs_running (cc_state (f b c).1) = true -> cs_running (cc_state c) = true)) ->
  keeps (knows m) (steer path f).
Proof.
  intros Hf. apply (others_then _ (knows m)); [apply knows_others|]. intros w [[H1 H2 H3 H4 H5] Hm].
  destruct (Hf (tn_spawns (dk_schedule w (dk_turn w))) (dk_calibration w) H3) as [Hwf Hr].
  destruct (f _ (dk_calibration w)) as [c a]. simpl in Hwf, Hr. eexists _, _. split; [reflexivity|].
  split; [split; try done|].
  - unfold measuring, editing in *. cbn. auto.
  - destruct m; [done| |]; unfold measuring, editing in *; cbn; destruct (cs_running (cc_state c)); intuition congruence.
Qed.

Lemma keeps_update m (f : Panel -> Panel) :
  (forall p, devices_valid (pa_receivers p) -> devices_valid (pa_receivers (f p))) -> keeps (knows m) (update f).
Proof.
  intros Hf w [[H1 H2 H3 H4 H5] Hm]. eexists _, _. split; [reflexivity|]. split; [split; try done|done]. by apply Hf.
Qed.

Lemma keeps_jot m c : keeps (knows m) (jot c).
Proof. intros w [[H1 H2 H3 H4 H5] Hm]. eexists _, _. split; [reflexivity|]. by split; [split|]. Qed.

Lemma keeps_notify m n : keeps (knows m) (notify n).
Proof. by apply keeps_update. Qed.

(** ** Every command keeps the promise *)

Create HintDb panel.
#[local] Hint Resolve keeps_ret keeps_lift keeps_require keeps_panel keeps_look keeps_clock keeps_jot keeps_notify : panel.

Ltac panel_step :=
  match goal with
  | |- keeps _ (act _ _ _) => apply keeps_act; by intros
  | |- keeps _ (update _) => apply keeps_update; by intros
  | |- keeps _ (_ ≫= _) => apply keeps_bind; [|intros ?]
  | |- keeps _ (for_each _ _) => apply keeps_for_each; intros ? _
  | |- keeps _ (match ?x with _ => _ end) => destruct x
  | |- keeps _ (if ?x then _ else _) => destruct x
  | |- keeps _ _ => solve [auto with panel nocore]
  end.
Ltac panel_steps := repeat panel_step.

Lemma keeps_volume_call m (op : Z -> system_op) answer :
  (forall now, op_allowed (op now) /\ keeps_window (op now)) -> keeps (knows m) (volume_call path op answer).
Proof. intros Hop. unfold volume_call. apply keeps_bind; [by apply keeps_act|]. intros r. panel_steps. Qed.

Lemma keeps_calibrating m : keeps (knows m) (calibrating path).
Proof. by apply keeps_steer. Qed.
Lemma keeps_take_result m : keeps (knows m) (steer path (fun _ c => take_result c)).
Proof. apply keeps_steer. intros b c Hc. split; [by apply (controller_step_wf c EvTakeResult)|done]. Qed.
Lemma keeps_clear_message m : keeps (knows m) (steer path (fun _ c => (clear_message c, tt))).
Proof. apply keeps_steer. intros b c Hc. split; [by apply (controller_step_wf c EvClearMessage)|done]. Qed.

Lemma keeps_ask_begin m id : keeps (knows m) (ask_begin path id).
Proof. unfold ask_begin. panel_steps. Qed.
Lemma keeps_ask_volume m id index : keeps (knows m) (ask_volume path id index).
Proof. unfold ask_volume. panel_steps. Qed.
Lemma keeps_poll_reply m id request : keeps (knows m) (poll_reply path id request).
Proof. unfold poll_reply. panel_steps. Qed.
Lemma keeps_ask_status m id : keeps (knows m) (ask_status path id).
Proof. unfold ask_status. panel_steps. Qed.
Lemma keeps_tones_off m : keeps (knows m) (tones_off path).
Proof. unfold tones_off. panel_steps. Qed.
Lemma keeps_sessions_off m : keeps (knows m) (sessions_off path).
Proof. unfold sessions_off. panel_steps. Qed.
Lemma keeps_forget_sessions m : keeps (knows m) (forget_sessions).
Proof. unfold forget_sessions. panel_steps. Qed.
Lemma keeps_adopt_result m profile : keeps (knows m) (adopt_result path profile).
Proof. unfold adopt_result. panel_steps. Qed.
Lemma keeps_look_view m : keeps (knows m) (look_view path).
Proof. apply keeps_look. Qed.
Lemma keeps_start_tone m id : keeps (knows m) (start_tone path id).
Proof. unfold start_tone, ask_tone, tones_off. panel_steps. Qed.
Lemma keeps_request_volume m index : keeps (knows m) (request_volume path index).
Proof. by apply keeps_volume_call. Qed.
Lemma keeps_edit_call m change : keeps (knows m) (edit_call path change).
Proof. by apply keeps_volume_call. Qed.
#[local] Hint Resolve keeps_calibrating keeps_take_result keeps_clear_message keeps_ask_begin keeps_ask_volume
  keeps_poll_reply keeps_ask_status keeps_tones_off keeps_sessions_off keeps_forget_sessions keeps_adopt_result keeps_look_view
  keeps_start_tone keeps_request_volume keeps_edit_call : panel.

Lemma keeps_settle_one m x : keeps (knows m) (settle_one path x).
Proof.
  unfold settle_one, abandon, drop_reply. panel_steps. all: apply keeps_update; intros p Hp; by case_match.
Qed.

Lemma keeps_ready_changes m pending : keeps (knows m) (ready_changes path pending).
Proof. induction pending as [|[id [index at_]] pending IH]; simpl; panel_steps. Qed.

Lemma keeps_send_change m x : keeps (knows m) (send_change path x).
Proof. unfold send_change. panel_steps. Qed.
#[local] Hint Resolve keeps_settle_one keeps_ready_changes keeps_send_change : panel.

(** A fresh snapshot holds valid devices. *)
Lemma snapshots_valid reg : registry_wf reg -> devices_valid (snapshots reg).
Proof.
  intros Hwf r device Hr Hd. destruct (snapshot_receiver reg r Hwf Hr) as (q & Hq & Heq).
  eapply (rw_device _ _ (rgw_each _ Hwf _ _ Hq)). by rewrite Heq.
Qed.

Lemma keeps_new_snapshot m (f : list ReceiverSnapshot -> Pan unit) :
  (forall l, keeps (knows m) (f l)) ->
  keeps (knows m) (receivers ← look path (fun y => snapshots (sy_registry y));
                   _ ← update (set_receivers receivers); f receivers).
Proof.
  intros Hf. eapply triple_bind; [apply triple_look| |by intros e w []].
  intros l. eapply (triple_bind _ _ _ (fun _ => knows m)); [|intros _; apply Hf|done].
  intros w [[= ->] [[H1 H2 H3 H4 H5] Hm]]. eexists _, _. split; [reflexivity|]. split; [split; try done|done].
  cbn. apply snapshots_valid, H2.
Qed.

Lemma keeps_refresh m : keeps (knows m) (refresh path).
Proof. unfold refresh. apply keeps_new_snapshot. intros l. panel_steps. Qed.

(** After the preamble no measurement runs. *)
Lemma triple_calibrating m :
  triple (knows m) (calibrating path) (fun r w => knows m w /\ r = Ok (measuring w)).
Proof.
  apply (others_then _ (knows m)); [apply knows_others|]. intros w Hw.
  eexists _, _. split; [reflexivity|]. split; [|done]. by destruct Hw as [[H1 H2 H3 H4 H5] Hm]; split; [split|].
Qed.

Lemma knows_idle m w : knows m w -> measuring w = false -> knows Idle w.
Proof. by intros [H _]. Qed.
Lemma knows_any m w : knows m w -> knows Any w.
Proof. by intros [H _]. Qed.

Lemma triple_preamble m :
  triple (knows m) (preamble path) (fun r w => knows Any w /\ (r = Ok tt -> knows Idle w)).
Proof.
  unfold preamble. eapply triple_bind; [apply triple_calibrating| |by intros e w [Hw%knows_any [=]]].
  intros running. eapply (triple_bind _ _ _ (fun r w => knows Any w /\ (r = Ok tt -> knows Idle w))).
  - intros w [Hw [= ->]]. destruct (measuring w) eqn:Hr.
    + exists w, (Err PanMeasuring). split_and!; [done|by eapply knows_any|done].
    + exists w, (Ok tt). split_and!; [done|by eapply knows_any|]. intros _. by eapply knows_idle.
  - intros []. eapply (triple_weaken (knows Idle) _ (fun _ => knows Idle)); [|by intros w [_ H]; auto|].
    + refine (_ : keeps (knows Idle) _). panel_steps.
    + intros r w Hw. by split; [eapply knows_any|].
  - intros e w [Hw _]. by split.
Qed.

Lemma keeps_preamble m : keeps (knows m) (preamble path).
Proof. unfold preamble. panel_steps. Qed.

Lemma keeps_my_receiver m range : keeps (knows m) (my_receiver range).
Proof. unfold my_receiver. panel_steps. Qed.
Lemma keeps_draft_or m e : keeps (knows m) (draft_or path e).
Proof. unfold draft_or. panel_steps. Qed.
Lemma keeps_my_device m id e : keeps (knows m) (my_device id e).
Proof. unfold my_device. panel_steps. Qed.
Lemma keeps_require_settled m e : keeps (knows m) (require_settled e).
Proof. unfold require_settled. panel_steps. Qed.
#[local] Hint Resolve keeps_preamble keeps_my_receiver keeps_draft_or keeps_my_device keeps_require_settled : panel.

(** A device the panel remembers has a range, so [clamp] does not panic. *)
Lemma keeps_with_device m {A} id e (f : DeviceStatus -> Pan A) :
  (forall device, status_valid device = true -> keeps (knows m) (f device)) ->
  keeps (knows m) (device ← my_device id e; f device).
Proof.
  intros Hf. eapply (triple_bind _ _ _ (fun r w => knows m w /\ forall device, r = Ok device -> status_valid device = true)).
  - intros w Hw. eexists w, _. split; [reflexivity|]. split; [done|]. intros device Hd.
    unfold device_of in Hd. destruct (find _ _) as [r|] eqn:Hr; [|done]. simpl in Hd.
    destruct (rs_device r) as [device'|] eqn:Hdev; [|done]. simpl in Hd. injection Hd as ->.
    apply find_Some in Hr as [Hr _]. by eapply (do_devices w (proj1 Hw)).
  - intros device w [Hw Hv]. by apply (Hf device (Hv device eq_refl)).
  - by intros e' w [Hw _].
Qed.

Lemma keeps_clamp m index device :
  status_valid device = true -> keeps (knows m) (unwrap (clamp index (ds_minimum device) (ds_maximum device))).
Proof.
  intros Hv w Hw. unfold status_valid in Hv. apply negb_true_iff, orb_false_iff in Hv as [Hv _].
  apply orb_false_iff in Hv as [Hv _]. apply orb_false_iff in Hv as [Hv _]. unfold unwrap, clamp. rewrite Hv. by eexists _, _.
Qed.

Lemma keeps_device_volume m id index : keeps (knows m) (device_volume path id index).
Proof.
  unfold device_volume. apply keeps_bind; [apply keeps_look_view|]. intros v.
  apply keeps_bind; [|intros _; apply keeps_notify]. destruct (vv_editing v); [|panel_steps].
  apply keeps_with_device. intros device Hv. panel_steps. by apply keeps_clamp.
Qed.
#[local] Hint Resolve keeps_device_volume : panel.

Lemma keeps_open_call (answer : Z -> System -> result VolumeError unit) :
  keeps (knows Idle) (volume_call path (fun _ => SysOpen) answer).
Proof. unfold volume_call. apply keeps_bind; [by apply keeps_window_act|]. intros r. panel_steps. Qed.

(** The commands that start no measurement keep the desk idle. *)
Lemma keeps_perform c : c <> CmdCalibrate -> keeps (knows Idle) (perform path c).
Proof.
  intros Hc. destruct c; try done; cbn [perform];
    unfold toggle, open_calibration, close_calibration, choose_master, master_position, master_point, record_command,
      remove_command, preview, choose_profile, new_profile, save_profile, delete_profile, adjust_all;
    cbv zeta; panel_steps.
  all: first [by apply keeps_open_call | by apply keeps_volume_call | by apply keeps_window_act].
Qed.

(** A measurement starts only while the window is open. *)
Lemma triple_start : triple (knows Editing) (steer path start) (fun _ => knows Any).
Proof.
  apply (others_then _ (knows Editing)); [apply knows_others|]. intros w [[H1 H2 H3 H4 H5] [_ He]].
  pose proof (controller_step_wf _ (EvStart (tn_spawns (dk_schedule w (dk_turn w)))) H3) as Hwf. simpl in Hwf.
  destruct (start _ (dk_calibration w)) as [c r]. eexists _, _. split; [reflexivity|]. by split; [split|].
Qed.

Lemma triple_calibrate_command : triple (knows Idle) (calibrate_command path) (fun _ => knows Any).
Proof.
  unfold calibrate_command. eapply triple_bind; [apply triple_look| |by intros e w []].
  intros v. eapply (triple_bind _ _ _ (fun r w => (vv_editing v = true -> knows Editing w) /\ knows Idle w)).
  { intros w [[= ->] [H Hm]]. eexists w, _. split; [reflexivity|]. split; [|by split]. intros He. by split. }
  2: { intros e w [_ Hw]. by eapply knows_any. }
  intros p. eapply (triple_bind _ _ _ (fun r w => knows Any w /\ (r = Ok tt -> knows Editing w))).
  { intros w [Hw1 Hw2]. destruct (vv_editing v && settled p) eqn:Hc.
    - apply andb_true_iff in Hc as [Hc _]. exists w, (Ok tt). split_and!; [done|by eapply knows_any|auto].
    - exists w, (Err PanUnsettled). split_and!; [done|by eapply knows_any|done]. }
  2: { by intros e w [Hw _]. }
  intros []. eapply (triple_weaken (knows Editing) _ (fun _ => knows Any)); [|by intros w [_ H]; auto|done].
  do 5 (eapply (triple_bind _ _ _ (fun _ => knows Editing));
    [refine (_ : keeps (knows Editing) _); panel_steps|intros ?|intros e w; apply knows_any]).
  eapply triple_bind; [apply triple_start| |done]. intros r. refine (_ : keeps (knows Any) _). panel_steps.
Qed.

Lemma keeps_execute c : keeps (knows Any) (execute path c).
Proof.
  assert (keeps (knows Any) (_ ← preamble path; perform path c)) as Hmost.
  { eapply triple_bind; [apply triple_preamble| |by intros e w []]. intros [].
    eapply (triple_weaken (knows Idle) _ (fun _ => knows Any)); [|by intros w [_ H]; auto|done].
    assert (c <> CmdCalibrate -> triple (knows Idle) (perform path c) (fun _ => knows Any)) as Hother.
    { intros Hc. eapply triple_weaken; [by apply keeps_perform|done|by intros r w; apply knows_any]. }
    destruct c; try (by apply Hother). apply triple_calibrate_command. }
  destruct c; try exact Hmost; apply keeps_steer; intros b k Hk.
  - split; [by apply (controller_step_wf k EvCancel)|done].
  - split; [by apply (controller_step_wf k EvShutdown)|done].
Qed.

Lemma keeps_panel_step ev : keeps (knows Any) (panel_step path ev).
Proof.
  destruct ev as [|c]; [apply keeps_refresh|]. cbn [panel_step]. unfold command.
  apply keeps_bind; [apply keeps_attempt, keeps_execute|]. intros r. panel_steps.
Qed.

Lemma keeps_panel_run evs : keeps (knows Any) (panel_run path evs).
Proof.
  unfold panel_run. apply keeps_bind; [apply keeps_refresh|]. intros _. apply keeps_for_each. intros ev _. apply keeps_panel_step.
Qed.

Lemma desk_start_ok d now schedule : (forall n, background (schedule n)) -> knows Any (desk_start path d now schedule).
Proof.
  intros Hs. split; [|done]. split; cbn; [done|apply system_start_ok|apply cc_start_wf| |done]. intros r device Hr. by apply not_elem_of_nil in Hr.
Qed.

(** ** The panel's own loop never fails *)

Definition succeeds {A} (m : Pan A) : Prop := forall w w' r, m w = Some (w', r) -> exists a, r = Ok a.

Lemma succeeds_bind {A B} (m : Pan A) (f : A -> Pan B) : succeeds m -> (forall a, succeeds (f a)) -> succeeds (m ≫= f).
Proof.
  intros Hm Hf w w' r Hr. unfold mbind, pan_bind in Hr. destruct (m w) as [[w1 [a|e]]|] eqn:E; try done.
  - by eapply Hf.
  - destruct (Hm _ _ _ E) as [a [=]].
Qed.
Lemma succeeds_ret {A} (a : A) : succeeds (mret a).
Proof. intros w w' r [= _ <-]. eauto. Qed.
Lemma succeeds_update f : succeeds (update f).
Proof. intros w w' r [= _ <-]. eauto. Qed.
Lemma succeeds_jot c : succeeds (jot c).
Proof. intros w w' r [= _ <-]. eauto. Qed.
Lemma succeeds_panel : succeeds panel.
Proof. intros w w' r [= _ <-]. eauto. Qed.
Lemma succeeds_attempt {A} (m : Pan A) : succeeds (attempt m).
Proof. intros w w' r Hr. unfold attempt in Hr. destruct (m w) as [[w1 r1]|]; simplify_eq/=. eauto. Qed.
Lemma succeeds_others {A} (f : Desk -> option (Desk * result PanelError A)) :
  succeeds f -> succeeds (fun w => w ← others path w; f w).
Proof. intros Hf w w' r Hr. destruct (others path w) as [w1|]; [|done]. by eapply Hf. Qed.
Lemma succeeds_act {A} (op : Z -> system_op) (answer : Z -> System -> A) : succeeds (act path op answer).
Proof.
  apply succeeds_others. intros w w' r Hr. destruct (system_step _ _ _); simplify_eq/=. eauto.
Qed.
Lemma succeeds_look {A} (f : System -> A) : succeeds (look path f).
Proof. apply succeeds_others. intros w w' r [= _ <-]. eauto. Qed.
Lemma succeeds_steer {A} (f : bool -> Controller -> Controller * A) : succeeds (steer path f).
Proof. apply succeeds_others. intros w w' r Hr. destruct (f _ _). simplify_eq. eauto. Qed.
Lemma succeeds_clock : succeeds (clock path).
Proof. apply succeeds_others. intros w w' r [= _ <-]. eauto. Qed.
Lemma succeeds_for_each {A} (f : A -> Pan unit) l : (forall x, succeeds (f x)) -> succeeds (for_each f l).
Proof. intros Hf. induction l; [apply succeeds_ret|]. by apply succeeds_bind. Qed.

Ltac succeeds_step :=
  match goal with
  | |- succeeds (_ ≫= _) => apply succeeds_bind; [|intros ?]
  | |- succeeds (for_each _ _) => apply succeeds_for_each; intros ?
  | |- succeeds (match ?x with _ => _ end) => destruct x
  | |- succeeds (if ?x then _ else _) => destruct x
  | |- succeeds _ => first [apply succeeds_ret | apply succeeds_update | apply succeeds_jot | apply succeeds_panel
      | apply succeeds_attempt | apply succeeds_act | apply succeeds_look | apply succeeds_steer | apply succeeds_clock]
  end.

Lemma succeeds_ready_changes pending : succeeds (ready_changes path pending).
Proof. induction pending as [|[id [index at_]] pending IH]; simpl; repeat succeeds_step. exact IH. Qed.

Lemma succeeds_refresh : succeeds (refresh path).
Proof.
  unfold refresh, adopt_result, settle_one, poll_reply, abandon, drop_reply, send_change, ask_begin, ask_volume,
    notify, calibrating.
  repeat succeeds_step. apply succeeds_ready_changes.
Qed.

Lemma succeeds_panel_run evs : succeeds (panel_run path evs).
Proof.
  unfold panel_run. apply succeeds_bind; [apply succeeds_refresh|]. intros _. apply succeeds_for_each.
  intros [|c]; [apply succeeds_refresh|]. cbn [panel_step]. unfold command, notify. repeat succeeds_step.
Qed.

(** ** Properties *)

(** C9. Whatever the user clicks, in any order and between any steps of the
    sessions, of the volume worker and of a running measurement: no panel
    command panics, every phone whose gate is open stands exactly where the
    active profile puts it, and no phone plays while the calibration window is
    open or a measurement runs. *)
Theorem clicks_keep_phones_in_place (d : FS) (now : Z) (schedule : nat -> Turn) (evs : list panel_event)
  (Hschedule : forall n, background (schedule n)) :
  exists w, panel_run path evs (desk_start path d now schedule) = Some (w, Ok tt) /\
    registry_wf (sy_registry (dk_system w)) /\
    volume_consistent (vs_library (sy_state (dk_system w))) (sy_registry (dk_system w)) /\
    (editing w = true \/ measuring w = true -> quiet (sy_registry (dk_system w))).
Proof.
  destruct (keeps_panel_run evs _ (desk_start_ok d now schedule Hschedule)) as (w & r & Hrun & [H1 [H2 H3 H4] _ _ H5] & _).
  destruct (succeeds_panel_run evs _ _ _ Hrun) as [[] ->]. exists w. split_and!; [done..|].
  intros [He|Hm]; apply H4; [exact He|]. by apply H5.
Qed.
End safety.

(** ** Witness *)

Lemma visit_background n : background (visit n).
Proof. do 16 (destruct n as [|n]; [repeat constructor|]). repeat constructor. Qed.

Lemma clicks_keep_phones_in_place_witness :
  exists w, panel_run room_path clicks (desk_start room_path room_disk 0 visit) = Some (w, Ok tt) /\
    registry_wf (sy_registry (dk_system w)) /\
    volume_consistent (vs_library (sy_state (dk_system w))) (sy_registry (dk_system w)) /\
    (editing w = true \/ measuring w = true -> quiet (sy_registry (dk_system w))).
Proof. apply (clicks_keep_phones_in_place room_path room_disk 0 visit clicks visit_background). Defined.
