(* ===== verification/PanelSessions.v ===== *)
(** * PanelSessions: manual volumes stay inside calibration sessions

    The volumes a user tries out in the calibration window.  The panel may only
    send them to a phone that has confirmed the beginning of its calibration
    session, because such a phone goes back to its own volume when the session
    is cancelled.  The log of [Panel] shows that it does. *)

From Stdlib Require Import ZArith Lia.
From S2P Require Import Prelude BTree Wire Text Storage Registry Profiles Gate VolumeControl Loudness Calibration CalibrationControl Panel.

(** ** Sessions in the log *)

(** The session of [id] began with request [q] and was not cancelled since. *)
Definition begun (log : list panel_call) (id q : Z) : Prop :=
  exists l1 l2, log = l1 ++ [PcBegin id (Some q)] ++ l2 /\ PcEnd ∉ l2.

(** It was answered by the phone's working speaker. *)
Definition session_open (log : list panel_call) (id : Z) : Prop :=
  exists l1 l2 l3 q status, log = l1 ++ [PcBegin id (Some q)] ++ l2 ++ [PcReply id q status] ++ l3 /\
    (PcEnd ∉ l2) /\ (PcEnd ∉ l3) /\
    ds_failed status = false /\ ds_speaker status = true /\ ds_fixed status = false.

Definition volumes_in_sessions (log : list panel_call) : Prop :=
  forall l1 l2 id index q, log = l1 ++ [PcVolume id index q] ++ l2 -> session_open l1 id.

Lemma begun_snoc log id q c : c <> PcEnd -> begun log id q -> begun (log ++ [c]) id q.
Proof.
  intros Hc (l1 & l2 & -> & H). exists l1, (l2 ++ [c]). split; [by rewrite <- !app_assoc|]. set_solver.
Qed.

Lemma begun_new log id q : begun (log ++ [PcBegin id (Some q)]) id q.
Proof. exists log, []. split; [done|set_solver]. Qed.

Lemma session_open_snoc log id c : c <> PcEnd -> session_open log id -> session_open (log ++ [c]) id.
Proof.
  intros Hc (l1 & l2 & l3 & q & s & -> & H1 & H2 & H3). exists l1, l2, (l3 ++ [c]), q, s. split_and!; try apply H3; [|done|set_solver].
  by rewrite <- !app_assoc.
Qed.

Lemma session_open_reply log id q status index :
  begun log id q -> confirms status index = true -> session_open (log ++ [PcReply id q status]) id.
Proof.
  intros (l1 & l2 & -> & H) Hc. unfold confirms in Hc. rewrite !andb_true_iff, !negb_true_iff in Hc.
  exists l1, l2, [], q, status. split_and!; try apply Hc; [by rewrite <- !app_assoc|done|set_solver].
Qed.

Lemma volumes_snoc log c :
  volumes_in_sessions log -> match c with PcVolume id _ _ => session_open log id | _ => True end ->
  volumes_in_sessions (log ++ [c]).
Proof.
  intros Hv Hc l1 l2 id index q Heq. destruct l2 as [|x l2 _] using rev_ind.
  - apply app_inj_tail in Heq as [-> ->]. exact Hc.
  - rewrite !app_assoc in Heq. apply app_inj_tail in Heq as [-> _]. eapply (Hv l1 l2). by rewrite app_assoc.
Qed.

Section sessions.
Context {Sender : Type} `{MS : !Mpsc Sender ControlMessage}.
Context {FS : Type} `{HFS : !FileSystem FS} {Hcodec : LibraryCodec}.
Variable path : Path.

Abbreviation Desk := (Desk (Sender := Sender) (FS := FS)).
Abbreviation Pan := (Pan (Sender := Sender) (FS := FS)).
Abbreviation system_op := (system_op (Sender := Sender)).

(** ** Triples on the panel and its log

    Only the panel's own code changes these two, so every call of another
    component keeps any condition on them. *)

Definition cond : Type := Panel -> list panel_call -> Prop.
Definition hoare {A} (P : cond) (m : Pan A) (Q : result PanelError A -> cond) : Prop :=
  forall w w' r, P (dk_panel w) (dk_log w) -> m w = Some (w', r) -> Q r (dk_panel w') (dk_log w').
Definition stable {A} (m : Pan A) : Prop :=
  forall w w' r, m w = Some (w', r) -> dk_panel w' = dk_panel w /\ dk_log w' = dk_log w.
Definition holds (P : cond) {A} (m : Pan A) : Prop := hoare P m (fun _ => P).

Lemma hoare_weaken {A} (P P' : cond) (Q Q' : result PanelError A -> cond) (m : Pan A) :
  hoare P m Q -> (forall p l, P' p l -> P p l) -> (forall r p l, Q r p l -> Q' r p l) -> hoare P' m Q'.
Proof. intros H H1 H2 w w' r Hw Hr. eauto. Qed.

Lemma hoare_bind {A B} (P : cond) (m : Pan A) (f : A -> Pan B) Q R :
  hoare P m Q -> (forall a, hoare (Q (Ok a)) (f a) R) -> (forall e p l, Q (Err e) p l -> R (Err e) p l) ->
  hoare P (m ≫= f) R.
Proof.
  intros Hm Hf He w w' r Hw Hr. unfold mbind, pan_bind in Hr. destruct (m w) as [[w1 [a|e]]|] eqn:E; [| |done].
  - eapply (Hf a); [|exact Hr]. by eapply Hm.
  - injection Hr as <- <-. apply He. by eapply Hm.
Qed.

Lemma holds_bind P {A B} (m : Pan A) (f : A -> Pan B) : holds P m -> (forall a, holds P (f a)) -> holds P (m ≫= f).
Proof. intros Hm Hf. by eapply hoare_bind. Qed.
Lemma holds_stable P {A} (m : Pan A) : stable m -> holds P m.
Proof. intros Hs w w' r Hw Hr. by destruct (Hs _ _ _ Hr) as [-> ->]. Qed.
Lemma holds_attempt P {A} (m : Pan A) : holds P m -> holds P (attempt m).
Proof.
  intros Hm w w' r Hw Hr. unfold attempt in Hr. destruct (m w) as [[w1 r1]|] eqn:E; simplify_eq/=. by eapply Hm.
Qed.
Lemma holds_update (P : cond) f : (forall p l, P p l -> P (f p) l) -> holds P (update f).
Proof. intros Hf w w' r Hw [= <- <-]. by apply Hf. Qed.
Lemma hoare_panel P : hoare P panel (fun r p l => r = Ok p /\ P p l).
Proof. intros w w' r Hw [= <- <-]. done. Qed.
(** A reading of the panel is true while nothing changes the panel. *)
Lemma hoare_read {B} (P : cond) (f : Panel -> Pan B) R :
  (forall p, hoare (fun p' l => p' = p /\ P p l) (f p) R) -> hoare P (p ← panel; f p) R.
Proof.
  intros Hf. eapply hoare_bind; [apply hoare_panel| |by intros e p l []].
  intros p. eapply hoare_weaken; [apply (Hf p)| |done]. by intros p' l [[= ->] H].
Qed.

Lemma stable_bind {A B} (m : Pan A) (f : A -> Pan B) : stable m -> (forall a, stable (f a)) -> stable (m ≫= f).
Proof.
  intros Hm Hf w w' r Hr. unfold mbind, pan_bind in Hr. destruct (m w) as [[w1 [a|e]]|] eqn:E; [| |done].
  - apply Hf in Hr as [-> ->]. by eapply Hm.
  - injection Hr as <- <-. by eapply Hm.
Qed.
Lemma stable_ret {A} (a : A) : stable (mret a).
Proof. by intros w w' r [= <- _]. Qed.
Lemma stable_lift {A} (r : result PanelError A) : stable (lift r).
Proof. by intros w w' r' [= <- _]. Qed.
Lemma stable_panel : stable panel.
Proof. by intros w w' r [= <- _]. Qed.
Lemma stable_unwrap {A} (o : option A) : stable (unwrap o).
Proof. intros w w' r Hr. unfold unwrap in Hr. by destruct o; simplify_eq/=. Qed.
Lemma stable_for_each {A} (f : A -> Pan unit) l : (forall x, stable (f x)) -> stable (for_each f l).
Proof. intros Hf. induction l; [apply stable_ret|]. by apply stable_bind. Qed.

Lemma others_same w w' : others path w = Some w' -> dk_panel w' = dk_panel w /\ dk_log w' = dk_log w.
Proof. unfold others. by destruct (system_run _ _ _); intros; simplify_eq/=. Qed.
Lemma stable_others {A} (f : Desk -> option (Desk * result PanelError A)) :
  stable f -> stable (fun w => w ← others path w; f w).
Proof.
  intros Hf w w' r Hr. destruct (others path w) as [w1|] eqn:E; [|done]. apply Hf in Hr as [-> ->]. by apply others_same.
Qed.
Lemma stable_act {A} (op : Z -> system_op) (answer : Z -> System -> A) : stable (act path op answer).
Proof. apply stable_others. intros w w' r Hr. by destruct (system_step _ _ _); simplify_eq/=. Qed.
Lemma stable_look {A} (f : System -> A) : stable (look path f).
Proof. apply stable_others. by intros w w' r [= <- _]. Qed.
Lemma stable_steer {A} (f : bool -> Controller -> Controller * A) : stable (steer path f).
Proof. apply stable_others. intros w w' r Hr. destruct (f _ _). by simplify_eq. Qed.
Lemma stable_clock : stable (clock path).
Proof. apply stable_others. by intros w w' r [= <- _]. Qed.

Ltac stable_step :=
  match goal with
  | |- stable (_ ≫= _) => apply stable_bind; [|intros ?]
  | |- stable (for_each _ _) => apply stable_for_each; intros ?
  | |- stable (match ?x with _ => _ end) => destruct x
  | |- stable (if ?x then _ else _) => destruct x
  | |- stable _ => first [apply stable_ret | apply stable_lift | apply stable_panel | apply stable_unwrap
      | apply stable_act | apply stable_look | apply stable_steer | apply stable_clock]
  end.
Ltac stable_steps := repeat stable_step.

Lemma stable_preamble : stable (preamble path).
Proof. unfold preamble, calibrating, require, adopt_result. stable_steps. Qed.
Lemma stable_ready_changes pending : stable (ready_changes path pending).
Proof. induction pending as [|[id [index at_]] pending IH]; simpl; stable_steps. exact IH. Qed.

(** ** The invariant *)

Record sessions_ok (p : Panel) (log : list panel_call) : Prop := {
  so_pending : bt_wf (pa_pending p);
  so_replies : bt_wf (pa_replies p);
  so_volumes : volumes_in_sessions log;
  so_begun id m : bt_get id (pa_replies p) = Some m -> mr_beginning m = true -> begun log id (mr_request m);
  so_sessions id : bs_contains id (pa_sessions p) = true ->
    session_open log id \/ exists m, bt_get id (pa_replies p) = Some m /\ mr_beginning m = true;
}.

(** Changes of other fields. *)
Lemma sessions_ok_frame p p' log :
  pa_replies p' = pa_replies p -> pa_sessions p' = pa_sessions p -> bt_wf (pa_pending p') ->
  sessions_ok p log -> sessions_ok p' log.
Proof. intros Hr Hs Hp [H1 H2 H3 H4 H5]. split; rewrite ?Hr, ?Hs; done. Qed.

Lemma sessions_ok_log p log c :
  c <> PcEnd -> match c with PcVolume id _ _ => session_open log id | _ => True end ->
  sessions_ok p log -> sessions_ok p (log ++ [c]).
Proof.
  intros Hc Hv [H1 H2 H3 H4 H5]. split; try done.
  - by apply volumes_snoc.
  - intros id m Hg Hb. apply begun_snoc; [done|]. by eapply H4.
  - intros id Hs. destruct (H5 id Hs) as [H|H]; [left; by apply session_open_snoc|by right].
Qed.

Lemma sessions_ok_retain p log f :
  sessions_ok p log -> sessions_ok (set_sessions (bt_retain f (pa_sessions p)) p) log.
Proof.
  intros [H1 H2 H3 H4 H5]. split; try done. intros id Hs. apply H5.
  unfold bs_contains, bt_contains_key in *. cbn in Hs.
  destruct (bt_get id (bt_retain f (pa_sessions p))) as [[]|] eqn:E; [|done].
  apply bt_get_In in E. unfold bt_retain in E. apply list_elem_of_filter in E as [_ E].
  destruct (bt_get id (pa_sessions p)) eqn:E2; [done|]. apply bt_get_None in E2. destruct E2.
  unfold bt_keys. apply list_elem_of_fmap. by exists (id, tt).
Qed.

(** Sessions of other phones keep what they have when [id]'s entries change. *)
Lemma bt_get_other {V} (id id' : Z) (v : V) (m : btree V) : id' <> id -> bt_get id' (bt_insert id v m) = bt_get id' m.
Proof. intros Hne. rewrite bt_get_insert. by destruct (Z.eqb_spec id' id). Qed.

(** A reply that is no longer awaited: the session is open, or gone. *)
Lemma sessions_ok_drop p log id :
  sessions_ok p log ->
  (bs_contains id (pa_sessions p) = true -> session_open log id) ->
  sessions_ok (set_replies (bt_remove id (pa_replies p)) p) log.
Proof.
  intros [H1 H2 H3 H4 H5] Hid. split; cbn; [done|by apply bt_wf_remove|done| |].
  - intros id' m. rewrite bt_get_remove. destruct (Z.eqb_spec id' id); [done|]. apply H4.
  - intros id' Hs. destruct (Z.eqb_spec id' id) as [->|Hne]; [left; auto|].
    destruct (H5 id' Hs) as [H|(m & Hm & Hb)]; [by left|right]. exists m. rewrite bt_get_remove.
    by destruct (Z.eqb_spec id' id).
Qed.

Lemma open_or_beginning p log id m :
  sessions_ok p log -> bt_get id (pa_replies p) = Some m -> bs_contains id (pa_sessions p) = true ->
  mr_beginning m = false -> session_open log id.
Proof. intros [_ _ _ _ H5] Hm Hs Hb. destruct (H5 id Hs) as [H|(m' & Hm' & Hb')]; [done|]. congruence. Qed.

(** ** [refresh] *)

(** While the replies are settled: what is still to be looked at is awaited. *)
Definition awaited (rest : btree ManualRequest) (p : Panel) (log : list panel_call) : Prop :=
  sessions_ok p log /\ forall id m, (id, m) ∈ rest -> bt_get id (pa_replies p) = Some m.

Lemma awaited_rest id m rest p log : awaited ((id, m) :: rest) p log -> awaited rest p log.
Proof. intros [Hok Hall]. split; [done|]. intros id' m' Hin. apply Hall. set_solver. Qed.

Lemma awaited_frame rest p p' log :
  pa_replies p' = pa_replies p -> pa_sessions p' = pa_sessions p -> pa_pending p' = pa_pending p ->
  awaited rest p log -> awaited rest p' log.
Proof.
  intros Hr Hs Hp [Hok Hall]. split; [|by rewrite Hr].
  apply (sessions_ok_frame p); [done|done|rewrite Hp; apply Hok|done].
Qed.

(** The entry of [id] is dealt with. *)
Lemma awaited_dropped id m rest p p' log log' :
  NoDup (bt_keys ((id, m) :: rest)) -> awaited ((id, m) :: rest) p log ->
  sessions_ok p' log' -> pa_replies p' = bt_remove id (pa_replies p) -> awaited rest p' log'.
Proof.
  intros Hnd [_ Hall] Hok Heq. simpl in Hnd. apply NoDup_cons in Hnd as [Hid _]. split; [done|].
  intros id' m' Hin. rewrite Heq, bt_get_remove. destruct (Z.eqb_spec id' id) as [->|]; [|apply Hall; set_solver].
  destruct Hid. unfold bt_keys. apply list_elem_of_fmap. by exists (id, m').
Qed.

Lemma hoare_abandon id m rest :
  NoDup (bt_keys ((id, m) :: rest)) ->
  hoare (awaited ((id, m) :: rest)) (abandon id m) (fun _ => awaited rest).
Proof.
  intros Hnd w w' r Hw [= <- <-]. pose proof Hw as [Hok Hall]. cbn.
  eapply (awaited_dropped _ _ _ (dk_panel w)); [done|done| |by destruct (mr_beginning m)].
  assert (bt_get id (pa_replies (dk_panel w)) = Some m) as Hm by (apply Hall; set_solver).
  set (p1 := set_requested (bt_remove id (pa_pending (dk_panel w))) (dk_panel w)).
  assert (sessions_ok p1 (dk_log w)) as H1.
  { apply (sessions_ok_frame (dk_panel w)); [done|done|apply bt_wf_remove, Hok|done]. }
  destruct (mr_beginning m) eqn:Hb.
  - apply sessions_ok_drop.
    + destruct H1 as [G1 G2 G3 G4 G5]. split; cbn; try done. intros id' Hs. rewrite bs_contains_remove in Hs.
      apply andb_true_iff in Hs as [_ Hs]. by apply G5.
    + cbn. rewrite bs_contains_remove, Z.eqb_refl. done.
  - apply sessions_ok_drop; [done|]. intros Hs. by eapply (open_or_beginning p1).
Qed.

Lemma hoare_notify_abandon id m rest n :
  NoDup (bt_keys ((id, m) :: rest)) ->
  hoare (awaited ((id, m) :: rest)) (_ ← notify n; abandon id m) (fun _ => awaited rest).
Proof.
  intros Hnd. eapply (hoare_bind _ _ _ (fun _ => awaited ((id, m) :: rest)));
    [|intros a; by apply hoare_abandon|intros e p l; apply awaited_rest].
  apply holds_update. intros p l. by apply awaited_frame.
Qed.

Lemma hoare_poll_reply id request (P : cond) :
  hoare P (poll_reply path id request)
    (fun r p l => match r with
                  | Ok (Some status) => exists l0, l = l0 ++ [PcReply id request status] /\ P p l0
                  | _ => P p l
                  end).
Proof.
  unfold poll_reply. eapply hoare_bind; [apply (holds_stable P), stable_act| |done].
  intros [status|] w w' r Hw [= <- <-]; [|done]. by exists (dk_log w).
Qed.

Lemma hoare_settle_one id m rest :
  NoDup (bt_keys ((id, m) :: rest)) ->
  hoare (awaited ((id, m) :: rest)) (settle_one path (id, m)) (fun _ => awaited rest).
Proof.
  intros Hnd. cbn [settle_one]. eapply hoare_bind; [apply hoare_poll_reply| |intros e p l; apply awaited_rest].
  intros [status|].
  - destruct (confirms status (mr_index m)) eqn:Hc.
    + intros w w' r (l0 & Hl & Hw) [= <- <-]. cbn. rewrite Hl. pose proof Hw as [Hok Hall].
      assert (bt_get id (pa_replies (dk_panel w)) = Some m) as Hm by (apply Hall; set_solver).
      eapply (awaited_dropped _ _ _ (dk_panel w)); [done|done| |done].
      apply sessions_ok_drop; [by apply sessions_ok_log|]. intros Hs. destruct (mr_beginning m) eqn:Hb.
      * eapply session_open_reply; [|exact Hc]. by eapply (so_begun _ _ Hok).
      * apply session_open_snoc; [done|]. by eapply open_or_beginning.
    + eapply hoare_weaken; [by apply (hoare_notify_abandon id m rest)| |done].
      intros p l (l0 & -> & Hok & Hall). split; [by apply sessions_ok_log|done].
  - eapply hoare_bind; [apply holds_stable, stable_clock| |intros e p l; apply awaited_rest].
    intros now. apply hoare_read. intros p. destruct (_ || _).
    + eapply hoare_weaken; [by apply (hoare_notify_abandon id m rest)|by intros p' l [-> H]|done].
    + intros w w' r [<- Hw] [= <- <-]. by eapply awaited_rest.
Qed.

Lemma hoare_settle_all replies :
  NoDup (bt_keys replies) -> hoare (awaited replies) (for_each (settle_one path) replies) (fun _ => sessions_ok).
Proof.
  induction replies as [|[id m] rest IH]; intros Hnd; [by intros w w' r [Hok _] [= <- <-]|].
  simpl. eapply hoare_bind; [by apply hoare_settle_one| |by intros e p l []].
  intros a. apply IH. simpl in Hnd. by apply NoDup_cons in Hnd as [_ Hnd].
Qed.

(** The changes that are sent: one for each phone, none of them awaited. *)
Definition unawaited (changes : list (Z * Z)) (p : Panel) (log : list panel_call) : Prop :=
  sessions_ok p log /\ NoDup changes.*1 /\ forall id, id ∈ changes.*1 -> bt_get id (pa_replies p) = None.

Lemma ready_changes_result pending w w' changes :
  ready_changes path pending w = Some (w', Ok changes) ->
  changes.*1 `sublist_of` bt_keys pending /\ forall id, id ∈ changes.*1 -> bt_get id (pa_replies (dk_panel w)) = None.
Proof.
  revert w w' changes. induction pending as [|[id [index at_]] pending IH]; intros w w' changes Hr.
  { injection Hr as <- <-. split; [done|]. intros id Hid. by apply not_elem_of_nil in Hid. }
  cbn [ready_changes] in Hr. unfold mbind, pan_bind in Hr.
  destruct (clock path w) as [[w1 [now|]]|] eqn:Hc; try done. destruct (stable_clock _ _ _ Hc) as [Hp _].
  cbn [panel] in Hr. destruct (ready_changes path pending w1) as [[w2 [ready|]]|] eqn:E; try done.
  destruct (IH _ _ _ E) as [H1 H2]. rewrite Hp in H2. cbn [mret pan_ret] in Hr. injection Hr as _ <-.
  destruct (_ && _) eqn:Hb; simpl.
  - apply andb_true_iff in Hb as [_ Hb]. apply negb_true_iff, bt_contains_key_false in Hb. rewrite Hp in Hb.
    split; [by apply sublist_skip|]. intros id' [->|Hid]%elem_of_cons; [done|auto].
  - split; [by apply sublist_cons|done].
Qed.

Lemma unawaited_rest x rest p log : unawaited (x :: rest) p log -> unawaited rest p log.
Proof.
  intros (H1 & H2 & H3). split_and!; [done| |].
  - simpl in H2. by apply NoDup_cons in H2 as [_ H2].
  - intros id Hid. apply H3. simpl. set_solver.
Qed.

Lemma unawaited_frame changes p p' log log' :
  unawaited changes p log -> sessions_ok p' log' -> pa_replies p' = pa_replies p -> unawaited changes p' log'.
Proof. intros (_ & H2 & H3) Hok Heq. split_and!; [done|done|]. by rewrite Heq. Qed.

(** Forgetting a change before its volume is sent, or after a failure. *)
Lemma sessions_ok_unrequest p log id :
  sessions_ok p log -> sessions_ok (set_requested (bt_remove id (pa_pending p)) p) log.
Proof. intros Hok. apply (sessions_ok_frame p); [done|done|apply bt_wf_remove, Hok|done]. Qed.

(** The entry of a sent request: a beginning whose session is in the log, or a
    volume inside an open session. *)
Lemma sessions_ok_sent p log id m :
  sessions_ok p log -> (if mr_beginning m then begun log id (mr_request m) else session_open log id) ->
  sessions_ok (set_replies (bt_insert id m (pa_replies p)) p) log.
Proof.
  intros [H1 H2 H3 H4 H5] Hm. split; cbn; [done|by apply bt_wf_insert|done| |].
  - intros id' m'. rewrite bt_get_insert. destruct (Z.eqb_spec id' id) as [->|]; [|apply H4].
    intros [= <-] Hb. by rewrite Hb in Hm.
  - intros id' Hs. destruct (Z.eqb_spec id' id) as [->|Hne].
    + destruct (mr_beginning m) eqn:Hb; [right|by left]. exists m. by rewrite bt_get_insert, Z.eqb_refl.
    + destruct (H5 id' Hs) as [H|(m' & Hm' & Hb')]; [by left|right]. exists m'. by rewrite bt_get_other.
Qed.

(** A session may be entered as soon as its beginning is awaited. *)
Lemma sessions_ok_begin p p' log id m :
  sessions_ok p log -> mr_beginning m = true -> begun log id (mr_request m) ->
  pa_replies p' = bt_insert id m (pa_replies p) -> pa_sessions p' = bs_insert id (pa_sessions p) ->
  pa_pending p' = pa_pending p -> sessions_ok p' log.
Proof.
  intros [H1 H2 H3 H4 H5] Hb Hm Er Es Ep. split; rewrite ?Er, ?Es, ?Ep; [done|by apply bt_wf_insert|done| |].
  - intros id' m'. rewrite bt_get_insert. destruct (Z.eqb_spec id' id) as [->|]; [|apply H4]. by intros [= <-].
  - intros id'. rewrite bs_contains_insert. destruct (Z.eqb_spec id' id) as [->|Hne]; simpl; intros Hs.
    + right. exists m. by rewrite bt_get_insert, Z.eqb_refl.
    + destruct (H5 id' Hs) as [H|(m' & Hm' & Hb')]; [by left|right]. exists m'. by rewrite bt_get_other.
Qed.

Lemma hoare_ask_begin id (P : cond) :
  hoare P (ask_begin path id)
    (fun r p l => exists a l0, r = Ok a /\ l = l0 ++ [PcBegin id (granted a)] /\ P p l0).
Proof.
  intros w w' r Hw Hr. unfold ask_begin, mbind, pan_bind in Hr.
  destruct (act _ _ _ w) as [[w1 [a|e]]|] eqn:E; [| |done].
  - destruct (stable_act _ _ _ _ _ E) as [Hp Hl]. injection Hr as <- <-. cbn.
    exists a, (dk_log w). rewrite Hl, Hp. done.
  - unfold act, mbind, option_bind in E. destruct (others path w); [|done]. by destruct (system_step _ _ _).
Qed.

Lemma hoare_ask_volume id index (P : cond) :
  hoare P (ask_volume path id index)
    (fun r p l => exists a l0, r = Ok a /\ l = l0 ++ [PcVolume id index (granted a)] /\ P p l0).
Proof.
  intros w w' r Hw Hr. unfold ask_volume, mbind, pan_bind in Hr.
  destruct (act _ _ _ w) as [[w1 [a|e]]|] eqn:E; [| |done].
  - destruct (stable_act _ _ _ _ _ E) as [Hp Hl]. injection Hr as <- <-. cbn.
    exists a, (dk_log w). rewrite Hl, Hp. done.
  - unfold act, mbind, option_bind in E. destruct (others path w); [|done]. by destruct (system_step _ _ _).
Qed.

Lemma hoare_failed_change changes id e :
  hoare (unawaited changes)
    (_ ← update (fun p => set_requested (bt_remove id (pa_pending p)) p); notify (NoticeError (PanRegistry e)))
    (fun _ => unawaited changes).
Proof.
  intros w w' r Hw [= <- <-]. eapply unawaited_frame; [exact Hw| |done].
  apply (sessions_ok_frame (set_requested (bt_remove id (pa_pending (dk_panel w))) (dk_panel w))); try done.
  - apply bt_wf_remove, Hw.
  - apply sessions_ok_unrequest, Hw.
Qed.

Lemma unawaited_get id index rest p log : unawaited ((id, index) :: rest) p log -> bt_get id (pa_replies p) = None.
Proof. intros (_ & _ & H). apply H. simpl. set_solver. Qed.

(** The answer to the request is entered, and the change is done with. *)
Lemma unawaited_sent id index rest p p' log log' m :
  unawaited ((id, index) :: rest) p log -> sessions_ok p' log' -> pa_replies p' = bt_insert id m (pa_replies p) ->
  unawaited rest p' log'.
Proof.
  intros (_ & H2 & H3) Hok Heq. simpl in H2. apply NoDup_cons in H2 as [Hid H2]. split_and!; [done|done|].
  intros id' Hid'. rewrite Heq, bt_get_insert. destruct (Z.eqb_spec id' id) as [->|]; [done|]. apply H3. simpl. set_solver.
Qed.

Lemma hoare_send_begin id index rest p :
  hoare (fun p' l => p' = p /\ unawaited ((id, index) :: rest) p l)
    (result ← ask_begin path id;
     match result with
     | Ok request =>
         expected ← (_ ← update (fun p => set_sessions (bs_insert id (pa_sessions p)) p);
                     mret (from_option ds_volume index (device_of id (pa_receivers p))));
         now ← clock path;
         update (fun p => set_replies (bt_insert id (mkManualRequest request expected now true) (pa_replies p)) p)
     | Err e =>
         _ ← update (fun p => set_requested (bt_remove id (pa_pending p)) p); notify (NoticeError (PanRegistry e))
     end) (fun _ => unawaited rest).
Proof.
  eapply hoare_bind; [apply hoare_ask_begin| |by intros e p' l (a & l0 & [=] & _)].
  intros [request|e].
  - intros w w' r (a & l0 & [= <-] & Hl & Hp & Hw) Hr. simpl in Hl. unfold mbind, pan_bind in Hr. cbn in Hr.
    destruct (clock path _) as [[w1 [now|e]]|] eqn:E; [|unfold clock, mbind, option_bind in E; by destruct (others path _)|done].
    destruct (stable_clock _ _ _ E) as [Hp1 Hl1]. injection Hr as <- <-. cbn in Hp1, Hl1 |- *. rewrite Hp1, Hl1, Hl, Hp.
    eapply unawaited_sent; [exact Hw| |done].
    eapply (sessions_ok_begin p); [| | |reflexivity|reflexivity|reflexivity].
    + apply sessions_ok_log; [done|done|apply Hw].
    + done.
    + apply begun_new.
  - eapply hoare_weaken; [apply (hoare_failed_change rest)| |done].
    intros p' l (a & l0 & _ & -> & -> & Hw). eapply unawaited_frame; [by eapply unawaited_rest| |done].
    apply sessions_ok_log; [done|done|apply Hw].
Qed.

Lemma hoare_send_volume id index rest p :
  bs_contains id (pa_sessions p) = true ->
  hoare (fun p' l => p' = p /\ unawaited ((id, index) :: rest) p l)
    (result ← (_ ← update (fun p => set_requested (bt_remove id (pa_pending p)) p); ask_volume path id index);
     match result with
     | Ok request =>
         expected ← mret index;
         now ← clock path;
         update (fun p => set_replies (bt_insert id (mkManualRequest request expected now false) (pa_replies p)) p)
     | Err e =>
         _ ← update (fun p => set_requested (bt_remove id (pa_pending p)) p); notify (NoticeError (PanRegistry e))
     end) (fun _ => unawaited rest).
Proof.
  intros Hs. set (p1 := set_requested (bt_remove id (pa_pending p)) p).
  assert (forall l, unawaited ((id, index) :: rest) p l -> unawaited ((id, index) :: rest) p1 l /\ session_open l id) as Hp1.
  { intros l Hw. split; [eapply unawaited_frame; [exact Hw|apply sessions_ok_unrequest, Hw|done]|].
    destruct (so_sessions _ _ (proj1 Hw) id Hs) as [H|(m & Hm & _)]; [done|].
    by rewrite (unawaited_get _ _ _ _ _ Hw) in Hm. }
  eapply (hoare_bind _ _ _ (fun r p' l => exists a l0, r = Ok a /\ l = l0 ++ [PcVolume id index (granted a)] /\
    p' = p1 /\ unawaited ((id, index) :: rest) p1 l0 /\ session_open l0 id)).
  { eapply (hoare_bind _ _ _ (fun r p' l => r = Ok tt /\ p' = p1 /\ unawaited ((id, index) :: rest) p1 l /\ session_open l id)).
    - intros w w' r [Hp Hw] [= <- <-]. cbn. rewrite Hp. split_and!; [done|done|..]; by apply Hp1.
    - intros []. eapply hoare_weaken; [apply (hoare_ask_volume id index
        (fun p' l => p' = p1 /\ unawaited ((id, index) :: rest) p1 l /\ session_open l id))| |by intros r p' l H].
      by intros p' l [_ H].
    - by intros e p' l [[=] _]. }
  2: { by intros e p' l (a & l0 & [=] & _). }
  intros [request|e].
  - intros w w' r (a & l0 & [= <-] & Hl & Hp & Hw & Ho) Hr. simpl in Hl. unfold mbind, pan_bind in Hr. cbn in Hr.
    destruct (clock path _) as [[w1 [now|e]]|] eqn:E; [|unfold clock, mbind, option_bind in E; by destruct (others path _)|done].
    destruct (stable_clock _ _ _ E) as [Hq1 Hl1]. injection Hr as <- <-. cbn. rewrite Hq1, Hl1, Hl, Hp.
    eapply unawaited_sent; [exact Hw| |done].
    apply sessions_ok_sent; [apply sessions_ok_log; [done|exact Ho|apply Hw]|]. by apply session_open_snoc.
  - eapply hoare_weaken; [apply (hoare_failed_change rest)| |done].
    intros p' l (a & l0 & _ & -> & -> & Hw & Ho). eapply unawaited_frame; [by eapply unawaited_rest| |done].
    apply sessions_ok_log; [done|exact Ho|apply Hw].
Qed.

Lemma hoare_send_change x rest :
  hoare (unawaited (x :: rest)) (send_change path x) (fun _ => unawaited rest).
Proof.
  destruct x as [id index]. unfold send_change. apply hoare_read. intros p. cbv zeta.
  destruct (bs_contains id (pa_sessions p)) eqn:Hs; simpl; [by apply hoare_send_volume|apply hoare_send_begin].
Qed.

Lemma hoare_send_changes changes :
  hoare (unawaited changes) (for_each (send_change path) changes) (fun _ => sessions_ok).
Proof.
  induction changes as [|x rest IH]; [by intros w w' r [Hok _] [= <- <-]|].
  simpl. eapply hoare_bind; [apply hoare_send_change| |by intros e p l []]. intros a. apply IH.
Qed.

Lemma hoare_pure {A} (phi : Prop) (P : cond) (m : Pan A) Q :
  (forall p l, P p l -> phi) -> (phi -> hoare P m Q) -> hoare P m Q.
Proof. intros Hphi Hm w w' r Hw Hr. eapply Hm; [by eapply Hphi|exact Hw|exact Hr]. Qed.

Lemma hoare_settle_replies p :
  hoare (fun p' l => p' = p /\ sessions_ok p l) (for_each (settle_one path) (pa_replies p)) (fun _ => sessions_ok).
Proof.
  apply (hoare_pure (NoDup (bt_keys (pa_replies p)))).
  - intros p' l [_ Hok]. apply bt_wf_NoDup, Hok.
  - intros Hnd. eapply hoare_weaken; [by apply hoare_settle_all| |done].
    intros p' l [-> Hok]. split; [done|]. intros id m Hin. apply bt_In_get; [apply Hok|done].
Qed.

Lemma hoare_send_ready :
  hoare sessions_ok (p ← panel; ready ← ready_changes path (pa_pending p); for_each (send_change path) ready)
    (fun _ => sessions_ok).
Proof.
  apply hoare_read. intros p.
  eapply (hoare_bind _ _ _ (fun r p' l => sessions_ok p' l /\ forall changes, r = Ok changes -> unawaited changes p' l)).
  - intros w w' r [Hp Hok] Hr. destruct (stable_ready_changes _ _ _ _ Hr) as [Hp' Hl']. rewrite Hp', Hl', Hp.
    split; [done|]. intros changes ->. destruct (ready_changes_result _ _ _ _ Hr) as [H1 H2]. rewrite Hp in H2.
    split_and!; [done| |done]. exact (sublist_NoDup _ _ (bt_wf_NoDup _ (so_pending _ _ Hok)) H1).
  - intros changes. eapply hoare_weaken; [apply hoare_send_changes| |done]. intros p' l [_ H]. by apply H.
  - by intros e p' l [Hok _].
Qed.

(** Code that touches the other fields, or nothing. *)
Definition plain (f : Panel -> Panel) : Prop :=
  forall p, pa_replies (f p) = pa_replies p /\ pa_sessions (f p) = pa_sessions p /\
    (bt_wf (pa_pending p) -> bt_wf (pa_pending (f p))).

Lemma holds_plain f : plain f -> holds sessions_ok (update f).
Proof.
  intros Hf. apply holds_update. intros p l Hok. destruct (Hf p) as (H1 & H2 & H3).
  apply (sessions_ok_frame p); [done|done|apply H3, Hok|done].
Qed.
Lemma holds_notify n : holds sessions_ok (notify n).
Proof. by apply holds_plain. Qed.

Ltac holds_step :=
  match goal with
  | |- holds _ (_ ≫= _) => apply holds_bind; [|intros ?]
  | |- holds _ (match ?x with _ => _ end) => destruct x
  | |- holds _ (if ?x then _ else _) => destruct x
  | |- holds _ (update _) => by apply holds_plain
  | |- holds _ (notify _) => apply holds_notify
  | |- holds _ (preamble _) => apply holds_stable, stable_preamble
  | |- holds _ _ => solve [apply holds_stable; stable_steps]
  end.

Lemma holds_refresh : holds sessions_ok (refresh path).
Proof.
  unfold refresh. do 3 (apply holds_bind; [holds_step|intros ?]).
  apply holds_bind; [unfold adopt_result; repeat holds_step|intros ?].
  apply holds_bind; [apply holds_update; intros p l; apply sessions_ok_retain|intros ?].
  apply hoare_read. intros p. eapply hoare_bind; [apply hoare_settle_replies|intros ?|done].
  refine (_ : holds sessions_ok _). apply holds_bind; [apply holds_stable, stable_steer|]. intros [|].
  - holds_step.
  - apply hoare_send_ready.
Qed.

Lemma holds_preamble : holds sessions_ok (preamble path).
Proof. apply holds_stable, stable_preamble. Qed.

(** Cancelling every session: nothing is awaited, and no session is left. *)
Lemma hoare_forget :
  hoare (fun p l => sessions_ok p l /\ settled p = true) forget_sessions (fun _ => sessions_ok).
Proof.
  intros w w' r [[H1 H2 H3 H4 H5] Hs] [= <- <-]. unfold settled in Hs. apply andb_true_iff in Hs as [_ Hs].
  apply bool_decide_eq_true in Hs. split; cbn; rewrite ?Hs; [exact H1|apply bt_wf_nil|by apply volumes_snoc|done|done].
Qed.

Lemma hoare_require_settled {B} e (f : unit -> Pan B) :
  hoare (fun p l => sessions_ok p l /\ settled p = true) (f tt) (fun _ => sessions_ok) ->
  holds sessions_ok (x ← require_settled e; f x).
Proof.
  intros Hf. eapply (hoare_bind _ _ _ (fun r p l => sessions_ok p l /\ (r = Ok tt -> settled p = true))).
  - intros w w' r Hok [= <- <-]. split; [done|]. by destruct (settled (dk_panel w)).
  - intros []. eapply hoare_weaken; [exact Hf| |done]. intros p l [H1 H2]. split; [done|by apply H2].
  - by intros e' p l [Hok _].
Qed.

Lemma holds_close : holds sessions_ok (close_calibration path).
Proof.
  unfold close_calibration. apply hoare_require_settled.
  eapply hoare_bind; [apply (holds_stable (fun p l => sessions_ok p l /\ settled p = true)), stable_act| |by intros e p l []].
  intros a. eapply hoare_bind; [apply hoare_forget|intros ?; apply holds_notify|done].
Qed.

Lemma holds_calibrate : holds sessions_ok (calibrate_command path).
Proof.
  unfold calibrate_command. apply holds_bind; [holds_step|]. intros v. apply hoare_read. intros p.
  eapply (hoare_bind _ _ _ (fun r p' l => sessions_ok p' l /\ (r = Ok tt -> settled p' = true))).
  { intros w w' r [Hp Hok] [= <- <-]. rewrite Hp. split; [done|].
    destruct (vv_editing v && settled p) eqn:E; [|done]. by apply andb_true_iff in E as [_ ->]. }
  2: { by intros e p' l [Hok _]. }
  intros []. eapply (hoare_weaken (fun p l => sessions_ok p l /\ settled p = true) _ (fun _ => sessions_ok)); [|intros p' l [H1 H2]; split; [done|by apply H2]|done].
  do 4 (eapply (hoare_bind _ _ _ (fun _ p l => sessions_ok p l /\ settled p = true));
    [refine (holds_stable _ _ _);
     unfold draft_or, my_receiver, tones_off, sessions_off, look_view; stable_steps|intros ?|by intros e' p' l []]).
  eapply hoare_bind; [apply hoare_forget|intros ?|done]. refine (_ : holds sessions_ok _). repeat holds_step.
Qed.

Lemma holds_device_volume id index : holds sessions_ok (device_volume path id index).
Proof.
  unfold device_volume, my_device, request_volume, volume_call, require, look_view. repeat holds_step. apply holds_plain. intros p'. split_and!; [done|done|]. by apply bt_wf_insert.
Qed.

Lemma holds_perform c : holds sessions_ok (perform path c).
Proof.
  destruct c; cbn [perform]; try apply holds_close; try apply holds_calibrate; try apply holds_device_volume;
    unfold toggle, open_calibration, master_point, choose_master, master_position, record_command, remove_command, preview,
      choose_profile, new_profile, save_profile, delete_profile, adjust_all; cbv zeta;
    unfold start_tone, ask_tone, tones_off, ask_status, draft_or, my_receiver, my_device, require_settled, request_volume, edit_call, volume_call, look_view, require;
    repeat (holds_step || apply holds_device_volume).
Qed.

Lemma holds_panel_step ev : holds sessions_ok (panel_step path ev).
Proof.
  destruct ev as [|c]; [apply holds_refresh|]. cbn [panel_step]. unfold command. apply holds_bind; [|intros ?; repeat holds_step].
  apply holds_attempt. destruct c; cbn [execute]; try apply (holds_stable _ _ (stable_steer _));
    (apply holds_bind; [apply holds_preamble|intros ?; apply holds_perform]).
Qed.

Lemma holds_panel_run evs : holds sessions_ok (panel_run path evs).
Proof.
  unfold panel_run. apply holds_bind; [apply holds_refresh|]. intros _.
  induction evs as [|ev evs IH]; [by intros w w' r Hok [= <- <-]|].
  simpl. apply holds_bind; [apply holds_panel_step|]. intros a. apply IH.
Qed.

(** ** Properties *)

(** C23. Whatever the user does and however the phones answer: the panel sends a
    trial volume only to a phone whose calibration session it began, whose
    working speaker answered that beginning, and whose session has not been
    cancelled since; only such a phone knows the volume it has to go back to. *)
Theorem trial_volumes_stay_in_sessions (d : FS) (now : Z) (schedule : nat -> Turn) (evs : list panel_event)
  (w : Desk) (r : result PanelError unit)
  (Hrun : panel_run path evs (desk_start path d now schedule) = Some (w, r)) : volumes_in_sessions (dk_log w).
Proof.
  assert (sessions_ok (dk_panel w) (dk_log w)) as Hok; [|apply Hok].
  eapply (holds_panel_run evs); [|exact Hrun]. cbn. split; cbn; [apply bt_wf_nil|apply bt_wf_nil| |done|done].
  intros l1 l2 id index q Heq. by destruct l1.
Qed.
End sessions.

(** ** Witness *)

Lemma visit_log :
  (fun x => dk_log x.1) <$> visit_run =
    Some [PcBegin 0 (Some 1); PcReply 0 1 (speaker [109] 15 1 3); PcVolume 0 5 (Some 2)].
Proof. vm_compute. reflexivity. Qed.

Lemma visit_run_eq : visit_run = panel_run room_path clicks (desk_start room_path room_disk 0 visit).
Proof. reflexivity. Qed.

#[local] Opaque visit_run.

Lemma trial_volumes_stay_in_sessions_witness :
  exists w r, panel_run room_path clicks (desk_start room_path room_disk 0 visit) = Some (w, r) /\
    PcVolume 0 5 (Some 2) ∈ dk_log w /\ volumes_in_sessions (dk_log w).
Proof.
  destruct (proj1 (fmap_Some _ _ _) visit_log) as ([w r] & Hrun & Hlog). simpl in Hlog.
  pose proof (eq_trans (eq_sym visit_run_eq) Hrun) as Heq. clear Hrun. exists w, r. split; [exact Heq|]. split.
  - rewrite <- Hlog, !elem_of_cons. right. right. left. reflexivity.
  - exact (trial_volumes_stay_in_sessions room_path room_disk 0 visit clicks w r Heq).
Defined.
