(* ===== verification/PanelTray.v ===== *)
(** * PanelTray: one notch up or down

    The tray commands move the master by one calibrated index.  The theorem
    follows such a command through the panel, the volume controller and the
    registry, at a moment when no other thread interferes. *)

From Stdlib Require Import ZArith Lia Sorted.
From S2P Require Import Prelude BTree Wire Text Storage Registry Profiles Gate VolumeControl Loudness Calibration CalibrationControl Panel.

(** ** Searching a sorted list *)

Lemma find_split {A} (f : A -> bool) l x :
  find f l = Some x -> exists l1 l2, l = l1 ++ [x] ++ l2 /\ f x = true /\ Forall (fun y => f y = false) l1.
Proof.
  induction l as [|y l IH]; simpl; [done|]. destruct (f y) eqn:E.
  - intros [= ->]. by exists [], l.
  - intros Hx. destruct (IH Hx) as (l1 & l2 & -> & Hf & Hl). exists (y :: l1), l2. split_and!; [done|done|]. by constructor.
Qed.

Lemma sorted_around (l1 l2 : list Z) x y :
  StronglySorted Z.lt (l1 ++ [x] ++ l2) -> (y ∈ l1 -> y < x) /\ (y ∈ l2 -> x < y).
Proof.
  induction l1 as [|z l1 IH]; simpl; intros Hs.
  - apply StronglySorted_inv in Hs as [_ Hs]. rewrite Forall_forall in Hs. split; [set_solver|]. by apply Hs.
  - apply StronglySorted_inv in Hs as [Hs Hz]. rewrite Forall_forall in Hz. destruct (IH Hs) as [H1 H2]. split; [|done].
    intros [->|Hy]%elem_of_cons; [apply Hz; set_solver|auto].
Qed.

(** [index] is the next of [available] above or below [volume]. *)
Definition beyond (steps volume index : Z) : Prop := if 0 <? steps then volume < index else index < volume.
Definition next_index (available : list Z) (volume steps index : Z) : Prop :=
  index ∈ available /\ beyond steps volume index /\
  forall i, i ∈ available -> beyond steps volume i -> if 0 <? steps then index <= i else i <= index.

Lemma neighbour_spec available volume steps :
  StronglySorted Z.lt available ->
  match neighbour available volume steps with
  | Some index => next_index available volume steps index
  | None => forall i, i ∈ available -> ~ beyond steps volume i
  end.
Proof.
  intros Hs. unfold neighbour, next_index, beyond. destruct (0 <? steps).
  - destruct (find _ available) as [x|] eqn:E.
    + destruct (find_split _ _ _ E) as (l1 & l2 & -> & Hx & Hl). rewrite Forall_forall in Hl. split_and!; [set_solver|lia|].
      intros i Hi Hb. destruct (sorted_around l1 l2 x i Hs) as [_ H2].
      apply elem_of_app in Hi as [Hi|[Hi|Hi]%elem_of_app]; [|set_solver by lia|specialize (H2 Hi); lia].
      specialize (Hl i Hi). simpl in Hl. lia.
    + rewrite find_None in E. intros i Hi. specialize (E i Hi). simpl in E. lia.
  - destruct (find _ (rev available)) as [x|] eqn:E.
    + destruct (find_split _ _ _ E) as (l1 & l2 & Hl & Hx & Hf). rewrite Forall_forall in Hf.
      assert (available = rev l2 ++ [x] ++ rev l1) as Ha.
      { rewrite <- (rev_involutive available), Hl, !rev_app_distr. simpl. by rewrite <- app_assoc. }
      rewrite Ha in Hs |- *. split_and!; [set_solver|lia|]. intros i Hi Hb.
      destruct (sorted_around (rev l2) (rev l1) x i Hs) as [H1 _].
      apply elem_of_app in Hi as [Hi|[Hi|Hi]%elem_of_app]; [specialize (H1 Hi); lia|set_solver by lia|].
      assert (i ∈ l1) as Hi1 by (apply list_elem_of_In, in_rev; by apply list_elem_of_In).
      specialize (Hf i Hi1). simpl in Hf. lia.
    + rewrite find_None in E. intros i Hi. specialize (E i). simpl in E.
      assert (i ∈ rev available) as Hr by (apply list_elem_of_In; rewrite <- in_rev; by apply list_elem_of_In).
      specialize (E Hr). lia.
Qed.

Lemma available_sorted p parts : StronglySorted Z.lt (available p parts).
Proof. apply StronglySorted_filter, seqZ_sorted. Qed.

(** [nearest] of a calibrated index is that index. *)
Lemma nearest_available p parts index : index ∈ available p parts -> nearest p index parts = Some index.
Proof.
  intros Hi. destruct (nearest p index parts) as [j|] eqn:E.
  - apply nearest_some in E as [_ E]. destruct (E index Hi) as [H|[H _]]; unfold abs_diff in H; f_equal; lia.
  - apply nearest_none in E. rewrite E in Hi. by apply not_elem_of_nil in Hi.
Qed.

Section tray.
Context {Sender : Type} `{MS : !Mpsc Sender ControlMessage}.
Context {FS : Type} `{HFS : !FileSystem FS} {Hcodec : LibraryCodec}.
Variable path : Path.

Abbreviation Desk := (Desk (Sender := Sender) (FS := FS)).

(** No other thread runs. *)
Definition undisturbed (w : Desk) : Prop :=
  forall n, tn_server (dk_schedule w n) = [] /\ tn_calibration (dk_schedule w n) = [].

(** Only the clock and the number of the turn move. *)
Definition later (w w' : Desk) : Prop :=
  dk_system w' = dk_system w /\ dk_calibration w' = dk_calibration w /\ dk_panel w' = dk_panel w /\
  dk_schedule w' = dk_schedule w /\ dk_log w' = dk_log w.

Lemma others_undisturbed (w : Desk) : undisturbed w -> exists w', others path w = Some w' /\ later w w'.
Proof.
  intros Hu. unfold others. destruct (Hu (dk_turn w)) as [-> ->]. simpl. eexists. split; [reflexivity|]. done.
Qed.

Lemma undisturbed_later w w' : undisturbed w -> later w w' -> undisturbed w'.
Proof. intros Hu (_ & _ & _ & Hs & _) n. rewrite Hs. apply Hu. Qed.

Lemma later_trans w1 w2 w3 : later w1 w2 -> later w2 w3 -> later w1 w3.
Proof. unfold later. intuition congruence. Qed.

Lemma look_undisturbed {A} w (f : System -> A) :
  undisturbed w -> exists w', look path f w = Some (w', Ok (f (dk_system w))) /\ later w w'.
Proof.
  intros Hu. destruct (others_undisturbed w Hu) as (w1 & Ho & Hl). exists w1. unfold look. rewrite Ho. simpl.
  by rewrite (proj1 Hl).
Qed.

Lemma steer_undisturbed {A} w (f : bool -> Controller -> Controller * A) c (a : A) :
  undisturbed w -> (forall b, f b (dk_calibration w) = (c, a)) ->
  exists w', steer path f w = Some (with_calibration c w', Ok a) /\ later w w'.
Proof.
  intros Hu Hf. destruct (others_undisturbed w Hu) as (w1 & Ho & Hl). exists w1. unfold steer. rewrite Ho. simpl.
  by rewrite (proj1 (proj2 Hl)), Hf.
Qed.

(** Without a measurement or its result, the preamble only clears its message. *)
Lemma preamble_undisturbed w :
  undisturbed w -> cs_running (cc_state (dk_calibration w)) = false -> cs_result (cc_state (dk_calibration w)) = None ->
  exists w', preamble path w = Some (w', Ok tt) /\ undisturbed w' /\ dk_system w' = dk_system w.
Proof.
  intros Hu Hr Hn. unfold preamble, mbind, pan_bind.
  destruct (steer_undisturbed w (fun _ c => (c, (status c).1)) (dk_calibration w) false Hu) as (w1 & E1 & L1).
  { intros b. unfold status. simpl. by rewrite Hr. }
  unfold calibrating. rewrite E1. cbn [negb require lift ensure].
  pose proof (undisturbed_later _ _ Hu L1) as Hu1.
  destruct (steer_undisturbed (with_calibration (dk_calibration w) w1) (fun _ c => take_result c)
    (take_result (dk_calibration w)).1 None Hu1) as (w2 & E2 & L2).
  { intros b. cbn. unfold take_result. by rewrite Hn. }
  rewrite E2. cbn [mret pan_ret].
  assert (undisturbed (with_calibration (take_result (dk_calibration w)).1 w2)) as Hu2.
  { exact (undisturbed_later (with_calibration (dk_calibration w) w1) w2 Hu1 L2). }
  destruct (steer_undisturbed (with_calibration (take_result (dk_calibration w)).1 w2) (fun _ c => (clear_message c, tt)) _ tt Hu2
    (fun b => eq_refl)) as (w3 & E3 & L3).
  rewrite E3. eexists. split; [reflexivity|]. split.
  - exact (undisturbed_later _ w3 Hu2 L3).
  - destruct L1 as (S1 & _), L2 as (S2 & _), L3 as (S3 & _). cbn in *. congruence.
Qed.

(** The volume request of the panel at such a moment. *)
Lemma request_volume_undisturbed w p m index :
  undisturbed w -> registry_wf (sy_registry (dk_system w)) -> vs_editing (sy_state (dk_system w)) = false ->
  current (vs_library (sy_state (dk_system w))) = Some p ->
  matching (snapshots (sy_registry (dk_system w))) (pr_master p) = [m] ->
  index ∈ available p (participating p (devices_of (snapshots (sy_registry (dk_system w))))) ->
  exists w' r, request_volume path index w = Some (w', r) /\
    ((r = Ok tt /\ current (vs_library (sy_state (dk_system w'))) = Some (with_pr_volume index p) /\
      quiet (sy_registry (dk_system w')) /\
      exists q, bt_get (rs_id m) (vs_pending (sy_state (dk_system w'))) = Some (mkPending q index (dk_now w'))) \/
     (exists e, r = Err (PanVolume (RegistryErr e)) /\ sy_state (dk_system w') = sy_state (dk_system w))).
Proof.
  intros Hu Hwf He Hp Hm Hi. unfold request_volume, volume_call, mbind, pan_bind, act.
  destruct (others_undisturbed w Hu) as (w1 & Ho & Hs & _). rewrite Ho. simpl. rewrite Hs.
  destruct (dk_system w) as [s reg d gate]. cbn [sy_state sy_registry system_step] in *.
  pose proof (calm_panel reg (rs_id m) index Hwf) as [Hwf' _].
  unfold set_volume. rewrite He, Hp, Hm, (nearest_available _ _ _ Hi).
  destruct (panel_volume_request reg (rs_id m) index) as [reg' [q|e]]; simpl in *.
  - eexists _, _. split; [reflexivity|]. left. cbn. split_and!; [done|by apply current_with_volume|by apply quiet_deny|].
    exists q. by rewrite bt_get_insert, Z.eqb_refl.
  - eexists _, _. split; [reflexivity|]. right. by exists e.
Qed.

(** ** Properties *)

(** One notch of the tray: at a moment when no other thread interferes and
    the master is connected once, the command asks the master for the next
    index that is calibrated for every participating follower, in the direction
    of the notch; the profile takes that volume and every phone falls silent
    until it stands there.  When there is no such index nothing changes, and
    when the request cannot be queued the error is shown and the volume stays. *)
Theorem tray_moves_one_notch (w : Desk) (steps : Z) (p : Profile) (m : ReceiverSnapshot)
  (Hu : undisturbed w)
  (Hidle : cs_running (cc_state (dk_calibration w)) = false /\ cs_result (cc_state (dk_calibration w)) = None)
  (Hwf : registry_wf (sy_registry (dk_system w))) (He : vs_editing (sy_state (dk_system w)) = false)
  (Hp : current (vs_library (sy_state (dk_system w))) = Some p)
  (Hm : matching (snapshots (sy_registry (dk_system w))) (pr_master p) = [m]) :
  let indices := available p (participating p (devices_of (snapshots (sy_registry (dk_system w))))) in
  exists w' r, execute path (CmdAdjustAll steps) w = Some (w', r) /\
    ((forall i, i ∈ indices -> ~ beyond steps (pr_volume p) i) /\ r = Ok tt /\ dk_system w' = dk_system w \/
     exists index, next_index indices (pr_volume p) steps index /\
       ((r = Ok tt /\ current (vs_library (sy_state (dk_system w'))) = Some (with_pr_volume index p) /\
         quiet (sy_registry (dk_system w')) /\
         exists q, bt_get (rs_id m) (vs_pending (sy_state (dk_system w'))) = Some (mkPending q index (dk_now w'))) \/
        (exists e, r = Err (PanVolume (RegistryErr e)) /\ sy_state (dk_system w') = sy_state (dk_system w)))).
Proof.
  intros indices. destruct Hidle as [Hr Hn].
  destruct (preamble_undisturbed w Hu Hr Hn) as (w1 & E1 & Hu1 & Hs1).
  cbn [execute perform]. unfold mbind at 1, pan_bind at 1. rewrite E1. unfold adjust_all, look_view, mbind, pan_bind.
  destruct (look_undisturbed w1 (fun y => view (sy_state y)) Hu1) as (w2 & E2 & L2).
  pose proof (undisturbed_later _ _ Hu1 L2) as Hu2. rewrite E2, Hs1. cbn [vv_library view]. rewrite Hp. cbn [ok_or lift].
  destruct (look_undisturbed w2 (fun y => snapshots (sy_registry y)) Hu2) as (w3 & E3 & L3).
  pose proof (undisturbed_later _ _ Hu2 L3) as Hu3. rewrite E3.
  assert (dk_system w2 = dk_system w) as Hs2 by (destruct L2 as [-> _]; done).
  assert (dk_system w3 = dk_system w) as Hs3 by (destruct L3 as [-> _]; done).
  rewrite Hs2. fold indices. pose proof (neighbour_spec indices (pr_volume p) steps (available_sorted _ _)) as Hnb.
  destruct (neighbour indices (pr_volume p) steps) as [index|].
  - destruct (request_volume_undisturbed w3 p m index Hu3) as (w' & r & Er & Hres); try (by rewrite Hs3).
    { rewrite Hs3. apply Hnb. }
    rewrite Er. exists w', r. split; [done|]. right. exists index. split; [done|]. by rewrite Hs3 in Hres.
  - exists w3, (Ok tt). split; [done|]. left. by split_and!.
Qed.
End tray.

(** ** Witness: the room's master goes from 3 to the next calibrated index *)

Lemma tray_moves_one_notch_witness :
  available the_room (participating the_room (devices_of (snapshots room_registry))) = [3; 7] /\
  exists w' r, execute room_path (CmdAdjustAll 1) room_desk = Some (w', r) /\
    ((forall i, i ∈ [3; 7] -> ~ beyond 1 3 i) /\ r = Ok tt /\ dk_system w' = dk_system room_desk \/
     exists index, next_index [3; 7] 3 1 index /\
       ((r = Ok tt /\ current (vs_library (sy_state (dk_system w'))) = Some (with_pr_volume index the_room) /\
         quiet (sy_registry (dk_system w')) /\
         exists q, bt_get 0 (vs_pending (sy_state (dk_system w'))) = Some (mkPending q index (dk_now w'))) \/
        (exists e, r = Err (PanVolume (RegistryErr e)) /\ sy_state (dk_system w') = room_state))).
Proof.
  split; [vm_compute; reflexivity|].
  apply (tray_moves_one_notch room_path room_desk 1 the_room room_snapshot).
  - by intros n.
  - by split.
  - apply room_registry_wf.
  - reflexivity.
  - vm_compute. reflexivity.
  - vm_compute. reflexivity.
Defined.
