(* ===== verification/Slider.v ===== *)
(** * Slider: the volume sliders ([ui/controls.rs])

    A slider shows one index of a range and sends the index under the pointer
    or the next one for a key.  The position under the pointer is computed with
    [f32] arithmetic. *)

From stdpp Require Import base list.
From Stdlib Require Import ZArith Lia SpecFloat.
From S2P Require Import Prelude Wire Text Float32 Panel.
Open Scope Z_scope.

Inductive SliderKind : Type :=
| SliderDevice (id : Z)
| SliderMasterPosition
| SliderMasterPoint.

#[export] Instance SliderKind_eq_dec : EqDecision SliderKind.
Proof. solve_decision. Defined.

(** [SliderKind::command]. *)
Definition slider_command (kind : SliderKind) (value : Z) : Command :=
  match kind with
  | SliderDevice id => CmdDeviceVolume id value
  | SliderMasterPosition => CmdMasterPosition value
  | SliderMasterPoint => CmdMasterPoint value
  end.

Record Slider : Type := mkSlider {
  sl_kind : SliderKind;
  sl_value : Z;
  sl_minimum : Z;
  sl_maximum : Z;
  sl_enabled : bool;
}.

(** [slider]: [clamp] panics on an empty range. *)
Definition slider (kind : SliderKind) (value : Z) (range : Z * Z) (enabled : bool) : option Slider :=
  let '(minimum, maximum) := range in
  value ← clamp value minimum maximum;
  Some (mkSlider kind value minimum maximum enabled).

Definition f32_max (x y : f32) : f32 :=
  match x, y with
  | S754_nan, _ => y
  | _, S754_nan => x
  | _, _ => if SFltb x y then y else x
  end.

(** How far along the track a position is. *)
Definition slider_fraction (position left width : f32) : f32 :=
  f32_clamp (SFdiv 24 128 (SFsub 24 128 position left) (f32_max width (f32_of_Z 1))) (S754_zero false) (f32_of_Z 1).

(** [map_position]: [None] is an overflow of [u16]. *)
Definition map_position (s : Slider) (position left width : f32) : option Z :=
  if sl_maximum s <? sl_minimum s then None
  else
    let steps := round_as 0 65535 (f32_mul (slider_fraction position left width) (f32_of_Z (sl_maximum s - sl_minimum s))) in
    if sl_minimum s + steps <=? 65535 then Some (sl_minimum s + steps) else None.

Inductive SliderKey : Type := KeyLeft | KeyDown | KeyRight | KeyUp | KeyHome | KeyEnd | KeyOther.

(** The value a key asks for; [None]: the key is not for the slider. *)
Definition slider_key (s : Slider) (key : SliderKey) : option Z :=
  match key with
  | KeyLeft | KeyDown => Some (Z.max (Z.max 0 (sl_value s - 1)) (sl_minimum s))
  | KeyRight | KeyUp => Some (Z.min (Z.min 65535 (sl_value s + 1)) (sl_maximum s))
  | KeyHome => Some (sl_minimum s)
  | KeyEnd => Some (sl_maximum s)
  | KeyOther => None
  end.

(** ** A fraction times a range *)

Definition whole_steps (fraction : f32) (full : Z) : Z := round_as 0 65535 (f32_mul fraction (f32_of_Z full)).

(** The format of [f32::from] of a [u16]. *)
Definition u16_form (z : Z) : bool :=
  match f32_of_Z z with
  | S754_finite false n k => (Z.pos n =? z * 2 ^ (- k)) && (-23 <=? k) && (k <=? -8) && (Z.pos (digits2_pos n) =? 24)
      && (whole_steps (f32_of_Z 1) z =? z)
  | _ => false
  end.

Fixpoint all_up_to (n : nat) (z : Z) : bool := match n with O => true | S n' => u16_form z && all_up_to n' (z + 1) end.

Lemma all_up_to_spec n z x : all_up_to n z = true -> z <= x < z + Z.of_nat n -> u16_form x = true.
Proof.
  revert z. induction n as [|n IH]; intros z H Hx; [lia|]. cbn [all_up_to] in H. apply andb_true_iff in H as [H1 H2].
  destruct (Z.eq_dec x z) as [->|]; [done|]. apply (IH (z + 1)); [done|lia].
Qed.

Lemma u16_forms z : 1 <= z <= 65535 -> u16_form z = true.
Proof. intros H. apply (all_up_to_spec (Z.to_nat 65535) 1); [by vm_compute|lia]. Qed.

Lemma from_u16 z :
  1 <= z <= 65535 -> exists n k, f32_of_Z z = S754_finite false n k /\
    Z.pos n = z * 2 ^ (- k) /\ -23 <= k <= -8 /\ Z.pos (digits2_pos n) = 24 /\ whole_steps (f32_of_Z 1) z = z.
Proof.
  intros Hz. pose proof (u16_forms z Hz) as H. unfold u16_form in H. destruct (f32_of_Z z) as [| | |[] n k]; try done.
  exists n, k. rewrite !andb_true_iff in H. destruct H as [[[[H1 H2] H3] H4] H5].
  apply Z.eqb_eq in H1, H4, H5. apply Z.leb_le in H2, H3. split_and!; try done; lia.
Qed.

(** [n] of [full] steps for a magnitude below one ([128 * u] is one). *)
Lemma steps_within full q v u :
  0 < u -> 0 <= full <= 65535 -> 0 <= q -> 0 <= v < 128 * u -> 2 * Z.abs (q * (128 * u) - full * v) <= 128 * u + u ->
  q <= full.
Proof.
  intros Hu Hf Hq Hv Herr. assert (full * v <= full * (128 * u)) by (apply Z.mul_le_mono_nonneg_l; lia).
  destruct (Z.le_gt_cases q full); [done|]. assert ((full + 1) * (128 * u) <= q * (128 * u)) by nia. lia.
Qed.

Lemma finite_steps m e full :
  Z.pos (digits2_pos m) + e <= 0 -> -149 <= e -> scaled (Z.pos m) e < 2 ^ SCALE -> 1 <= full <= 65535 ->
  0 <= whole_steps (S754_finite false m e) full <= full.
Proof.
  intros Hd He Hv Hf. unfold whole_steps. destruct (from_u16 full Hf) as (n & k & -> & Hn & Hk & Hdn & _).
  destruct (mul_near false m e n k) as (x & Hx & ->); [lia|unfold SCALE; lia|].
  destruct (round_as_near 0 65535 (Z.pos m * Z.pos n) (e + k) false x) as (q & Hq & Herr & ->); [lia..|exact Hx|].
  rewrite (scaled_times m e n k full) in Herr by (unfold SCALE; lia).
  pose proof (scaled_nonneg m e) as Hpos. destruct scale_split as [H2 H2']. rewrite H2 in *.
  pose proof (steps_within full q (scaled (Z.pos m) e) (2 ^ (SCALE - 7))). lia.
Qed.

(** A fraction after [clamp(0., 1.)]. *)
Inductive unit_fraction : f32 -> Prop :=
| UfNan : unit_fraction S754_nan
| UfZero s : unit_fraction (S754_zero s)
| UfOne : unit_fraction (f32_of_Z 1)
| UfFinite m e : Z.pos (digits2_pos m) + e <= 0 -> -149 <= e -> scaled (Z.pos m) e < 2 ^ SCALE ->
    unit_fraction (S754_finite false m e).

Lemma clamp_unit x : canonical x -> unit_fraction (f32_clamp x (S754_zero false) (f32_of_Z 1)).
Proof.
  intros Hx. destruct x as [s|[]| |[] m e]; try constructor.
  change (f32_clamp (S754_finite false m e) (S754_zero false) (f32_of_Z 1))
    with (f32_clamp (S754_finite false m e) (f32_of_Z (-1)) (f32_of_Z 1)).
  destruct (clamp_finite false m e Hx) as [(Hlt & Hd & _ & ->)|(_ & ->)]; [|constructor].
  constructor; [lia|apply Hx|lia].
Qed.

Lemma one_steps full : 0 <= full <= 65535 -> whole_steps (f32_of_Z 1) full = full.
Proof.
  intros Hf. destruct (Z.eq_dec full 0) as [->|]; [by vm_compute|].
  by destruct (from_u16 full) as (? & ? & ? & ? & ? & ? & ?); [lia|].
Qed.

Lemma zero_steps s full : 0 <= full <= 65535 -> whole_steps (S754_zero s) full = 0.
Proof.
  intros Hf. unfold whole_steps. destruct (Z.eq_dec full 0) as [->|]; [by destruct s|].
  by destruct (from_u16 full) as (? & ? & -> & _); [lia|].
Qed.

Lemma unit_steps x full : unit_fraction x -> 0 <= full <= 65535 -> 0 <= whole_steps x full <= full.
Proof.
  intros Hx Hf. destruct Hx as [|s| |m e Hd He Hv].
  - replace (whole_steps S754_nan full) with 0; [lia|]. unfold whole_steps. by destruct (f32_of_Z full) as [| | |[]].
  - rewrite zero_steps by done. lia.
  - rewrite one_steps by done. lia.
  - destruct (Z.eq_dec full 0) as [->|]; [by vm_compute|]. apply finite_steps; try done; lia.
Qed.

(** ** The slider *)

(** A slider on screen. *)
Definition slider_wf (s : Slider) : Prop :=
  0 <= sl_minimum s <= sl_value s /\ sl_value s <= sl_maximum s <= 65535.

Lemma slider_spec kind value minimum maximum enabled :
  0 <= minimum <= maximum -> maximum <= 65535 ->
  exists s, slider kind value (minimum, maximum) enabled = Some s /\ slider_wf s /\
    sl_kind s = kind /\ sl_enabled s = enabled /\ sl_minimum s = minimum /\ sl_maximum s = maximum /\
    sl_value s = Z.min (Z.max value minimum) maximum.
Proof.
  intros Hm H16. unfold slider, clamp. destruct (Z.ltb_spec maximum minimum); [lia|]. simpl.
  eexists. split; [reflexivity|]. unfold slider_wf. simpl. split_and!; try done; lia.
Qed.

(** The least and the greatest position reach the ends. *)
Definition at_start (position left width : f32) : bool :=
  SFltb (SFdiv 24 128 (SFsub 24 128 position left) (f32_max width (f32_of_Z 1))) (S754_zero false).
Definition at_end (position left width : f32) : bool :=
  SFltb (f32_of_Z 1) (SFdiv 24 128 (SFsub 24 128 position left) (f32_max width (f32_of_Z 1))).

Lemma start_end_exclusive x : SFltb x (S754_zero false) = true -> SFltb (f32_of_Z 1) x = false.
Proof. by destruct x as [[]|[]| |[] m e]. Qed.

Lemma map_position_spec s position left width :
  slider_wf s ->
  exists index, map_position s position left width = Some index /\ sl_minimum s <= index <= sl_maximum s /\
    (at_start position left width = true -> index = sl_minimum s) /\
    (at_end position left width = true -> index = sl_maximum s).
Proof.
  intros [H1 H2]. unfold map_position. destruct (Z.ltb_spec (sl_maximum s) (sl_minimum s)); [lia|].
  fold (whole_steps (slider_fraction position left width) (sl_maximum s - sl_minimum s)).
  assert (0 <= sl_maximum s - sl_minimum s <= 65535) as Hf by lia.
  unfold slider_fraction, at_start, at_end. set (x := SFdiv _ _ _ _).
  pose proof (unit_steps _ _ (clamp_unit x (div_canonical _ _)) Hf) as Hs.
  destruct (Z.leb_spec (sl_minimum s + whole_steps (f32_clamp x (S754_zero false) (f32_of_Z 1)) (sl_maximum s - sl_minimum s)) 65535); [|lia].
  eexists. split; [reflexivity|]. split; [lia|]. unfold f32_clamp. split; intros Hx.
  - rewrite Hx, zero_steps by done. lia.
  - destruct (SFltb x (S754_zero false)) eqn:E; [apply start_end_exclusive in E; congruence|].
    rewrite Hx, one_steps by done. lia.
Qed.

Lemma slider_key_spec s key index :
  slider_wf s -> slider_key s key = Some index -> sl_minimum s <= index <= sl_maximum s.
Proof. intros [H1 H2] Hk. destruct key; simpl in Hk; simplify_eq; lia. Qed.
