(* ===== verification/Qr.v ===== *)
(** * Qr: the pairing code on the screen

    [ui/qr.rs]: the squares that are painted for a QR code, with the arithmetic
    of [f32].  Positions are multiples of half a pixel; the sums are exact. *)

From stdpp Require Import base list.
From Stdlib Require Import ZArith Lia SpecFloat.
From S2P Require Import Prelude Wire Text Float32 Panel Slider.
Open Scope Z_scope.

(** [f32::floor] and [Pixels::min]. *)
Definition f32_floor (x : f32) : f32 :=
  match x with
  | S754_finite s m e =>
      if 0 <=? e then x else binary_normalize 24 128 (cond_Zopp s (Z.pos m) / 2 ^ (- e)) 0 s
  | _ => x
  end.
Definition f32_min (x y : f32) : f32 := if SFltb y x then y else x.

(** An area of the window, and what is painted: [true] is black. *)
Record Area : Type := mkArea { ar_left : f32; ar_top : f32; ar_width : f32; ar_height : f32 }.
Definition Quad : Type := Area * bool.

Section qr.
(** [Bounds::center] of GPUI along one axis: from the origin and the extent. *)
Variable center : f32 -> f32 -> f32.

(** The size of a module. *)
Definition qr_scale (bounds : Area) (size : Z) : f32 :=
  f32_max (f32_floor (SFdiv 24 128 (f32_min (ar_width bounds) (ar_height bounds)) (f32_of_Z (size + 8)))) (f32_of_Z 1).

(** [px(modules as f32 * scale / 2.)]. *)
Definition qr_margin (size : Z) (scale : f32) : f32 := SFdiv 24 128 (f32_mul (f32_of_Z (size + 8)) scale) (f32_of_Z 2).

(** [px((x + 4) as f32 * scale)]. *)
Definition qr_offset (x : Z) (scale : f32) : f32 := f32_mul (f32_of_Z (x + 4)) scale.

(** [render] for a code of [size] modules. *)
Definition qr_render (size : nat) (get_module : nat -> nat -> bool) (bounds : Area) : list Quad :=
  let scale := qr_scale bounds (Z.of_nat size) in
  let margin := qr_margin (Z.of_nat size) scale in
  let origin_x := SFsub 24 128 (center (ar_left bounds) (ar_width bounds)) margin in
  let origin_y := SFsub 24 128 (center (ar_top bounds) (ar_height bounds)) margin in
  (bounds, false) ::
  y ← seq 0 size;
  x ← seq 0 size;
  if get_module x y
  then [(mkArea (SFadd 24 128 origin_x (qr_offset (Z.of_nat x) scale)) (SFadd 24 128 origin_y (qr_offset (Z.of_nat y) scale))
           scale scale, true)]
  else [].
End qr.

(** ** Half pixels *)

(** [x] is [n / 2]. *)
Definition is_half (x : f32) (n : Z) : Prop :=
  match x with
  | S754_zero _ => n = 0
  | S754_finite s m e => -149 <= e <= -1 /\ cond_Zopp s (Z.pos m) = n * 2 ^ (-1 - e)
  | _ => False
  end.

Lemma is_half_unique x a b : is_half x a -> is_half x b -> a = b.
Proof.
  destruct x as [s|s| |s m e]; cbn; [congruence|done..|]. intros [He H1] [_ H2]. rewrite H1 in H2.
  apply Z.mul_cancel_r in H2; [done|]. pose proof (Z.pow_pos_nonneg 2 (-1 - e)). lia.
Qed.

Lemma digits2_shift p q k : 0 <= k -> Z.pos q = Z.pos p * 2 ^ k -> Z.pos (digits2_pos q) = Z.pos (digits2_pos p) + k.
Proof.
  intros Hk Hq. pose proof (digits2_spec p) as [P1 P2]. pose proof (digits2_spec q) as [Q1 Q2]. rewrite Hq in Q1, Q2.
  pose proof (Z.pow_pos_nonneg 2 k ltac:(lia) Hk) as Hpk.
  apply (Z.mul_lt_mono_pos_r (2 ^ k)) in P2; [|done]. apply (Z.mul_le_mono_nonneg_r _ _ (2 ^ k)) in P1; [|lia].
  rewrite <- Z.pow_add_r in P1, P2 by lia.
  assert (2 ^ (Z.pos (digits2_pos p) - 1 + k) < 2 ^ Z.pos (digits2_pos q)) as H1%Z.pow_lt_mono_r_iff by lia; [|lia..].
  assert (2 ^ (Z.pos (digits2_pos q) - 1) < 2 ^ (Z.pos (digits2_pos p) + k)) as H2%Z.pow_lt_mono_r_iff by lia; lia.
Qed.

(** A mantissa of 24 bits stays. *)
Lemma round_full s m f :
  -149 <= f <= 104 -> Z.pos (digits2_pos m) = 24 -> binary_round_aux 24 128 s (Z.pos m) f loc_Exact = S754_finite s m f.
Proof.
  intros Hf Hd. unfold binary_round_aux, shr_fexp. cbn [shr_record_of_loc Zdigits2]. rewrite Hd.
  assert (fexp 24 128 (24 + f) - f = 0) as -> by (unfold fexp, emin; lia).
  cbn [shr shr_m loc_of_shr_record round_nearest_even shr_record_of_loc]. cbn [Zdigits2]. rewrite Hd.
  assert (fexp 24 128 (24 + f) - f = 0) as -> by (unfold fexp, emin; lia). cbn [shr shr_m].
  by destruct (Z.leb_spec f (128 - 24)); [|lia].
Qed.

(** Nothing is rounded when the result is a half of [24] bits. *)
Lemma normalize_half m e n szero :
  -149 <= e <= -1 -> m = n * 2 ^ (-1 - e) -> Z.abs n < 2 ^ 24 -> is_half (binary_normalize 24 128 m e szero) n.
Proof.
  intros He Hm Hn.
  assert (forall s p q, Z.pos p = Z.pos q * 2 ^ (-1 - e) -> Z.pos q < 2 ^ 24 ->
    is_half (binary_round 24 128 s p e) (cond_Zopp s (Z.pos q))) as Hpos.
  { intros s p q Hp Hq. apply (digits2_le q 24) in Hq; [|lia]. pose proof (digits2_shift q p (-1 - e) ltac:(lia) Hp) as Hd.
    set (f := Z.pos (digits2_pos q) - 25). assert (-24 <= f <= -1) as Hf by (unfold f; lia).
    assert (fexp 24 128 (Z.pos (digits2_pos p) + e) = f) as Hfexp by (unfold fexp, emin, f; lia).
    assert (0 < Z.pos q * 2 ^ (-1 - f)) as HM by (apply Z.mul_pos_pos; [lia|apply Z.pow_pos_nonneg; lia]).
    destruct (Z.pos q * 2 ^ (-1 - f)) as [|M|M] eqn:EM; [lia| |lia].
    pose proof (digits2_shift q M (-1 - f) ltac:(lia) (eq_sym EM)) as HdM.
    assert (is_half (S754_finite s M f) (cond_Zopp s (Z.pos q))) as Hgoal.
    { split; [lia|]. rewrite <- EM. by destruct s; cbn; rewrite ?Z.mul_opp_l. }
    unfold binary_round. rewrite Hfexp. destruct (Z.le_gt_cases f e) as [Hle|Hgt].
    - pose proof (shl_align_value p e f Hle) as Hv. destruct (shl_align p e f) as [mz ez] eqn:E.
      assert (ez = f) as -> by (unfold shl_align in E; destruct (f - e) eqn:Ed; injection E as <- <-; lia).
      assert (mz = M) as ->.
      { cbn in Hv. rewrite Hp, <- Z.mul_assoc, <- Z.pow_add_r in Hv by lia.
        replace (-1 - e + (e - f)) with (-1 - f) in Hv by lia. congruence. }
      rewrite round_full; [done|lia|]. lia.
    - unfold shl_align. destruct (f - e) as [|d|d] eqn:Ed; [lia| |lia].
      assert (Z.pos p = Z.pos M * 2 ^ (f - e)) as HpM.
      { rewrite Hp, <- EM, <- Z.mul_assoc, <- Z.pow_add_r by lia. f_equal. f_equal. lia. }
      pose proof (round_full s M f ltac:(lia) ltac:(lia)) as Hfull. unfold binary_round_aux in *.
      replace (shr_fexp 24 128 (Z.pos p) e loc_Exact) with (shr_fexp 24 128 (Z.pos M) f loc_Exact); [by rewrite Hfull|].
      unfold shr_fexp. cbn [shr_record_of_loc Zdigits2]. rewrite Hfexp.
      assert (fexp 24 128 (Z.pos (digits2_pos M) + f) - f = 0) as -> by (unfold fexp, emin; lia).
      rewrite HpM, shr_exact by lia. cbn. f_equal. lia. }
  assert (0 < 2 ^ (-1 - e)) as H2 by (apply Z.pow_pos_nonneg; lia).
  destruct n as [|q|q].
  - by rewrite Hm.
  - destruct m as [|p|p]; try lia. apply (Hpos false p q); lia.
  - destruct m as [|p|p]; try lia. apply (Hpos true p q); lia.
Qed.

Lemma aligned_half s m e e' n :
  is_half (S754_finite s m e) n -> -149 <= e' <= e ->
  cond_Zopp s (Z.pos (fst (shl_align m e e'))) = n * 2 ^ (-1 - e').
Proof.
  intros [He H] He'. rewrite shl_align_value by lia. replace (-1 - e') with (-1 - e + (e - e')) by lia.
  rewrite Z.pow_add_r, Z.mul_assoc, <- H by lia. by destruct s; cbn; rewrite ?Z.mul_opp_l.
Qed.

Lemma add_half x y a b : is_half x a -> is_half y b -> Z.abs (a + b) < 2 ^ 24 -> is_half (SFadd 24 128 x y) (a + b).
Proof.
  intros Hx Hy Hab. destruct x as [sx|sx| |sx mx ex], y as [sy|sy| |sy my ey]; try done; cbn [SFadd].
  - cbn in Hx, Hy. subst. by destruct sx, sy.
  - cbn in Hx. by subst.
  - cbn in Hy. subst. by rewrite Z.add_0_r.
  - assert (-149 <= Z.min ex ey <= -1) by (destruct Hx, Hy; lia). apply normalize_half; [done| |done].
    rewrite (aligned_half _ _ _ _ _ Hx), (aligned_half _ _ _ _ _ Hy) by lia. lia.
Qed.

Lemma sub_half x y a b : is_half x a -> is_half y b -> Z.abs (a - b) < 2 ^ 24 -> is_half (SFsub 24 128 x y) (a - b).
Proof.
  intros Hx Hy Hab. destruct x as [sx|sx| |sx mx ex], y as [sy|sy| |sy my ey]; try done; cbn [SFsub].
  - cbn in Hx, Hy. subst. by destruct sx, sy.
  - cbn in Hx. subst. destruct Hy as [He Hy]. split; [done|]. rewrite Z.sub_0_l, Z.mul_opp_l, <- Hy. by destruct sy.
  - cbn in Hy. subst. by rewrite Z.sub_0_r.
  - assert (-149 <= Z.min ex ey <= -1) by (destruct Hx, Hy; lia). apply normalize_half; [done| |done].
    rewrite (aligned_half _ _ _ _ _ Hx), (aligned_half _ _ _ _ _ Hy) by lia. lia.
Qed.

(** ** The sizes *)

(** The canvas is [px(300.)] wide and high; a QR code has [17 + 4 * version]
    modules. *)
Definition CANVAS : Z := 300.
Definition qr_size (version : nat) : nat := 17 + 4 * version.

Definition is_halfb (x : f32) (n : Z) : bool :=
  match x with
  | S754_zero _ => n =? 0
  | S754_finite s m e => (-149 <=? e) && (e <=? -1) && (cond_Zopp s (Z.pos m) =? n * 2 ^ (-1 - e))
  | _ => false
  end.

Lemma is_halfb_spec x n : is_halfb x n = true -> is_half x n.
Proof.
  destruct x as [s|s| |s m e]; cbn; try done; [by intros ->%Z.eqb_eq|].
  rewrite !andb_true_iff, !Z.leb_le, Z.eqb_eq. tauto.
Qed.

(** A module's size in pixels. *)
Definition module_px (version : nat) : Z := CANVAS / Z.of_nat (qr_size version + 8).

(** The products of every version are exact. *)
Definition version_exact (version : nat) : bool :=
  let size := Z.of_nat (qr_size version) in
  let scale := qr_scale (mkArea (S754_zero false) (S754_zero false) (f32_of_Z CANVAS) (f32_of_Z CANVAS)) size in
  is_halfb scale (2 * module_px version) && is_halfb (qr_margin size scale) ((size + 8) * module_px version)
  && forallb (fun x => is_halfb (qr_offset (Z.of_nat x) scale) (2 * ((Z.of_nat x + 4) * module_px version))) (seq 0 (qr_size version)).

Lemma versions_exact : forallb version_exact (seq 1 40) = true.
Proof. vm_compute. reflexivity. Qed.

Lemma version_products version bounds :
  (1 <= version <= 40)%nat -> ar_width bounds = f32_of_Z CANVAS -> ar_height bounds = f32_of_Z CANVAS ->
  let size := Z.of_nat (qr_size version) in
  let scale := qr_scale bounds size in
  is_half scale (2 * module_px version) /\ is_half (qr_margin size scale) ((size + 8) * module_px version) /\
  forall x, (x < qr_size version)%nat -> is_half (qr_offset (Z.of_nat x) scale) (2 * ((Z.of_nat x + 4) * module_px version)).
Proof.
  intros Hv Hw Hh size scale. pose proof versions_exact as H. rewrite forallb_forall in H.
  specialize (H version ltac:(apply in_seq; lia)). unfold version_exact in H. fold size in H.
  assert (qr_scale (mkArea (S754_zero false) (S754_zero false) (f32_of_Z CANVAS) (f32_of_Z CANVAS)) size = scale) as Es.
  { unfold scale, qr_scale. by rewrite Hw, Hh. }
  rewrite Es, !andb_true_iff, forallb_forall in H. destruct H as [[H1 H2] H3].
  split_and!; [by apply is_halfb_spec..|]. intros x Hx. apply is_halfb_spec, H3, in_seq. lia.
Qed.

(** ** Property *)

(** The half pixels of an area. *)
Definition covers (area : Area) (p q : Z) : Prop :=
  exists left top width height,
    is_half (ar_left area) left /\ is_half (ar_top area) top /\ is_half (ar_width area) width /\ is_half (ar_height area) height /\
    left <= p < left + width /\ top <= q < top + height.

(** A half pixel is black when a black square covers it. *)
Definition black (quads : list Quad) (p q : Z) : Prop := exists area, (area, true) ∈ quads /\ covers area p q.

(** The symbol's first half pixel along an axis. *)
Definition symbol_start (version : nat) (origin : Z) : Z := origin + CANVAS - Z.of_nat (qr_size version) * module_px version.

Lemma qr_quads center size get_module bounds area :
  (area, true) ∈ qr_render center size get_module bounds <->
  exists x y, (x < size)%nat /\ (y < size)%nat /\ get_module x y = true /\
    let scale := qr_scale bounds (Z.of_nat size) in
    let margin := qr_margin (Z.of_nat size) scale in
    area = mkArea (SFadd 24 128 (SFsub 24 128 (center (ar_left bounds) (ar_width bounds)) margin) (qr_offset (Z.of_nat x) scale))
             (SFadd 24 128 (SFsub 24 128 (center (ar_top bounds) (ar_height bounds)) margin) (qr_offset (Z.of_nat y) scale)) scale scale.
Proof.
  unfold qr_render. rewrite elem_of_cons. split.
  - intros [Hf|Hin]; [done|]. apply list_elem_of_bind in Hin as (y & Hin & Hy). apply list_elem_of_bind in Hin as (x & Hin & Hx).
    apply elem_of_seq in Hy, Hx. destruct (get_module x y) eqn:E; [|by apply not_elem_of_nil in Hin].
    apply list_elem_of_singleton in Hin. injection Hin as ->. exists x, y. split_and!; [lia|lia|done|done].
  - intros (x & y & Hx & Hy & E & ->). right. apply list_elem_of_bind. exists y. split; [|apply elem_of_seq; lia].
    apply list_elem_of_bind. exists x. split; [|apply elem_of_seq; lia]. rewrite E. by apply list_elem_of_singleton.
Qed.

Section picture.
Context (center : f32 -> f32 -> f32).
(** The middle of an interval of 300 pixels that starts at a half pixel. *)
Hypothesis center_middle : forall x n, is_half x n -> Z.abs n < 2 ^ 23 -> is_half (center x (f32_of_Z CANVAS)) (n + CANVAS).

(** Where the square of a module is. *)
Lemma square_half version x bound origin margin scale :
  is_half bound origin -> Z.abs origin < 2 ^ 22 -> (x < qr_size version)%nat -> (1 <= version <= 40)%nat ->
  is_half margin (Z.of_nat (qr_size version + 8) * module_px version) ->
  is_half (qr_offset (Z.of_nat x) scale) (2 * ((Z.of_nat x + 4) * module_px version)) ->
  is_half (SFadd 24 128 (SFsub 24 128 (center bound (f32_of_Z CANVAS)) margin) (qr_offset (Z.of_nat x) scale))
    (symbol_start version origin + 2 * (Z.of_nat x * module_px version)).
Proof.
  intros Hb Ho Hx Hv Hm Hs. apply center_middle in Hb; [|lia].
  assert (0 <= Z.of_nat (qr_size version + 8) * module_px version <= CANVAS) as Hfit.
  { unfold module_px, qr_size in *. split; [apply Z.mul_nonneg_nonneg; [lia|apply Z.div_pos; [done|lia]]|].
    apply Z.mul_div_le. lia. }
  assert (0 <= (Z.of_nat x + 4) * module_px version <= CANVAS) as Hfit2.
  { assert (0 <= module_px version) by (apply Z.div_pos; [done|unfold qr_size; lia]). nia. }
  unfold CANVAS in *.
  pose proof (sub_half _ _ _ _ Hb Hm ltac:(lia)) as H1. pose proof (add_half _ _ _ _ H1 Hs ltac:(lia)) as H2.
  replace (symbol_start version origin + 2 * (Z.of_nat x * module_px version)) with
    (origin + 300 - Z.of_nat (qr_size version + 8) * module_px version + 2 * ((Z.of_nat x + 4) * module_px version)); [done|].
  unfold symbol_start, CANVAS. rewrite Nat2Z.inj_add. lia.
Qed.

(** The size of a module, and the room the symbol takes. *)
Lemma module_fits version :
  (1 <= version <= 40)%nat -> 1 <= module_px version /\ Z.of_nat (qr_size version + 8) * module_px version <= CANVAS.
Proof.
  intros Hv. split; [|apply Z.mul_div_le; unfold qr_size; lia].
  unfold module_px, CANVAS. apply Z.div_le_lower_bound; unfold qr_size; lia.
Qed.

(** The half pixels of a module. *)
Definition in_module (version : nat) (origin : Z) (x : nat) (p : Z) : Prop :=
  symbol_start version origin + 2 * (Z.of_nat x * module_px version) <= p
    < symbol_start version origin + 2 * ((Z.of_nat x + 1) * module_px version).

Lemma black_modules version get_module bounds l t p q :
  (1 <= version <= 40)%nat -> ar_width bounds = f32_of_Z CANVAS -> ar_height bounds = f32_of_Z CANVAS ->
  is_half (ar_left bounds) l -> is_half (ar_top bounds) t -> Z.abs l < 2 ^ 22 -> Z.abs t < 2 ^ 22 ->
  black (qr_render center (qr_size version) get_module bounds) p q <->
  exists x y, (x < qr_size version)%nat /\ (y < qr_size version)%nat /\ get_module x y = true /\
    in_module version l x p /\ in_module version t y q.
Proof.
  intros Hv Hw Hh Hleft Htop Hl Ht. destruct (version_products version bounds Hv Hw Hh) as (Hscale & Hmargin & Hoffset).
  unfold black. setoid_rewrite qr_quads. rewrite Hw, Hh. cbv zeta in *.
  set (scale := qr_scale bounds _) in *. set (margin := qr_margin _ scale) in *.
  replace (Z.of_nat (qr_size version) + 8) with (Z.of_nat (qr_size version + 8)) in Hmargin by lia.
  assert (forall x bound origin, is_half bound origin -> Z.abs origin < 2 ^ 22 -> (x < qr_size version)%nat -> is_half
    (SFadd 24 128 (SFsub 24 128 (center bound (f32_of_Z CANVAS)) margin) (qr_offset (Z.of_nat x) scale))
    (symbol_start version origin + 2 * (Z.of_nat x * module_px version))) as Hsq.
  { intros x bound origin Hb Ho Hx. exact (square_half _ x bound origin margin scale Hb Ho Hx Hv Hmargin (Hoffset x Hx)). }
  clearbody margin scale. unfold in_module. split.
  - intros (area & (x & y & Hx & Hy & E & ->) & (l' & t' & w' & h' & H1 & H2 & H3 & H4 & Hp & Hq)).
    cbn [ar_left ar_top ar_width ar_height] in *.
    pose proof (is_half_unique _ _ _ H1 (Hsq x _ _ Hleft Hl Hx)) as ->. pose proof (is_half_unique _ _ _ H2 (Hsq y _ _ Htop Ht Hy)) as ->.
    pose proof (is_half_unique _ _ _ H3 Hscale) as ->. pose proof (is_half_unique _ _ _ H4 Hscale) as ->.
    exists x, y. split_and!; try done; lia.
  - intros (x & y & Hx & Hy & E & Hp & Hq). eexists. split; [exists x, y; split_and!; try done|].
    exists (symbol_start version l + 2 * (Z.of_nat x * module_px version)), (symbol_start version t + 2 * (Z.of_nat y * module_px version)).
    exists (2 * module_px version), (2 * module_px version). cbn [ar_left ar_top ar_width ar_height].
    split_and!; try done; try (by apply Hsq); lia.
Qed.

(** A half pixel lies in one module only. *)
Lemma in_module_unique version origin x y p :
  1 <= module_px version -> in_module version origin x p -> in_module version origin y p -> x = y.
Proof. unfold in_module. intros Hk Hx Hy. nia. Qed.

(** The pairing code can be scanned.  For every version of a QR code and
    every position of its canvas on the grid of half pixels, the rounding of
    [f32] leaves no gap and no overlap: the modules are squares of a whole
    number of pixels, at least one; the symbol with its quiet zone of four
    modules on each side lies within the canvas; each half pixel of a module is
    black exactly when the module is dark, and outside the symbol none is. *)
Theorem pairing_code_is_sharp (version : nat) (get_module : nat -> nat -> bool) (bounds : Area) (l t : Z)
  (Hversion : (1 <= version <= 40)%nat)
  (Hwidth : ar_width bounds = f32_of_Z CANVAS) (Hheight : ar_height bounds = f32_of_Z CANVAS)
  (Hleft : is_half (ar_left bounds) l) (Htop : is_half (ar_top bounds) t) (Hl : Z.abs l < 2 ^ 22) (Ht : Z.abs t < 2 ^ 22) :
  let k := module_px version in
  let n := qr_size version in
  let quads := qr_render center n get_module bounds in
  1 <= k /\
  (forall origin, origin <= symbol_start version origin - 8 * k /\
     symbol_start version origin + 2 * (Z.of_nat n * k) + 8 * k <= origin + 2 * CANVAS) /\
  (forall x y p q, (x < n)%nat -> (y < n)%nat -> in_module version l x p -> in_module version t y q ->
     black quads p q <-> get_module x y = true) /\
  (forall p q, black quads p q -> exists x y, (x < n)%nat /\ (y < n)%nat /\ in_module version l x p /\ in_module version t y q).
Proof.
  intros k n quads. destruct (module_fits version Hversion) as [Hk Hfit].
  assert (forall p q, black quads p q <-> exists x y, (x < n)%nat /\ (y < n)%nat /\ get_module x y = true /\
    in_module version l x p /\ in_module version t y q) as Hblack by (intros p q; by apply black_modules).
  clearbody quads. split_and!; [done| | |].
  - intros origin. unfold symbol_start, k, n, CANVAS in *. lia.
  - intros x y p q Hx Hy Hp Hq. rewrite Hblack. split; [|intros E; by exists x, y].
    intros (x' & y' & _ & _ & E & Hp' & Hq'). by rewrite (in_module_unique _ _ _ _ _ Hk Hp Hp'), (in_module_unique _ _ _ _ _ Hk Hq Hq').
  - intros p q (x & y & Hx & Hy & _ & Hp & Hq)%Hblack. by exists x, y.
Qed.
End picture.

(** ** Witness *)

Definition middle (origin extent : f32) : f32 := SFadd 24 128 origin (SFdiv 24 128 extent (f32_of_Z 2)).

Lemma middle_half x n : is_half x n -> Z.abs n < 2 ^ 23 -> is_half (middle x (f32_of_Z CANVAS)) (n + CANVAS).
Proof. intros Hx Hn. apply add_half; [done|by apply is_halfb_spec|unfold CANVAS; lia]. Qed.

(** The corner of a code of version 6 at 24.5 and 300 pixels. *)
Definition corner (x y : nat) : bool := (x <=? 6)%nat && (y <=? 6)%nat.
Definition canvas : Area := mkArea (binary_normalize 24 128 49 (-1) false) (f32_of_Z 300) (f32_of_Z 300) (f32_of_Z 300).

Lemma pairing_code_is_sharp_witness :
  module_px 6 = 6 /\ symbol_start 6 49 = 103 /\ length (qr_render middle 41 corner canvas) = 50%nat /\
  (black (qr_render middle 41 corner canvas) 104 660 <-> corner 0 0 = true).
Proof.
  split; [reflexivity|]. split; [reflexivity|]. split; [vm_compute; reflexivity|].
  assert (is_half (ar_left canvas) 49 /\ is_half (ar_top canvas) 600) as [Hl Ht] by (split; by apply is_halfb_spec).
  destruct (pairing_code_is_sharp middle middle_half 6 corner canvas 49 600 ltac:(lia) eq_refl eq_refl Hl Ht ltac:(lia) ltac:(lia))
    as (_ & _ & H & _).
  apply (H 0%nat 0%nat 104 660); [by apply Nat.ltb_lt|by apply Nat.ltb_lt|unfold in_module|unfold in_module].
  - split; [discriminate|reflexivity].
  - split; [discriminate|reflexivity].
Defined.
