(* ===== verification/View.v ===== *)
(** * View: what the windows offer

    [ui/dashboard.rs] ([receivers], [render], [pairing], [information]) and
    [ui/calibration_window.rs] ([calibration_content]): the buttons, sliders and
    lines a window shows for the panel's state and the volume controller's
    view.  Layout, colours and fixed texts are left out. *)

From stdpp Require Import base list.
From Stdlib Require Import ZArith Lia SpecFloat.
From S2P Require Import Prelude BTree Wire Text Storage Registry Profiles Gate VolumeControl Calibration CalibrationControl Panel Slider.
Open Scope Z_scope.

#[export] Instance Page_eq_dec : EqDecision Page.
Proof. solve_decision. Defined.

Inductive Role : Type := RoleMaster | RoleFollower | RoleFollowerUnavailable | RoleUncalibrated.

Inductive Status : Type := StMeasuring | StPaused | StWaiting | StPlaying (receivers : nat).

(** The texts that depend on the state. *)
Inductive Line : Type :=
| LineStatus (s : Status)
| LineToggle (enabled : bool)
| LineAwaitingDevice (peer : SocketAddr)
| LineDevice (name : rstring) (role : Role) (volume maximum : Z)
| LineNoProfile
| LineNoReceiver
| LineMasterMissing (name : rstring)
| LineNoPosition
| LinePositions (available : list Z)
| LineNotice (n : Notice)
| LineMessage (m : Message)
| LineProgress (m : CalMessage)
| LinePoint (point : Z) (index : option Z)
| LinePoints (mapping : btree Z)
| LineDraft (name : rstring) (point : Z)
| LineChooseMaster
| LinePairing (endpoint : SocketAddr)
| LineNoPairing.

(** A button with its command, whether it reacts and whether it is marked;
    saving takes the name from the input field. *)
Inductive Element : Type :=
| Button (command : Command) (enabled marked : bool)
| SaveButton (copy enabled : bool)
| Track (s : Slider)
| Say (l : Line).

(** ** The main window *)

Definition positions (profile : option Profile) (p : Panel) : list Z :=
  match profile with Some pr => available pr (participating pr (devices_of (pa_receivers p))) | None => [] end.

Definition follower_of (profile : option Profile) (device : DeviceStatus) : option Follower :=
  pr ← profile; find (fun f => bool_decide (dr_id (fo_device f) = ds_device_id device)) (pr_followers pr).

Definition is_master (profile : option Profile) (device : DeviceStatus) : bool :=
  match profile with Some pr => bool_decide (dr_id (pr_master pr) = ds_device_id device) | None => false end.

Definition role_of (profile : option Profile) (device : DeviceStatus) : Role :=
  if is_master profile device then RoleMaster
  else
    match follower_of profile device with
    | Some f => if negb (bool_decide (fo_mapping f = [])) && matches (fo_device f) device then RoleFollower
                else RoleFollowerUnavailable
    | None => RoleUncalibrated
    end.

Definition position (available : list Z) (value : Z) : Z :=
  match list_find (fun index => index = value) available with Some (n, _) => Z.of_nat n | None => 0 end.

(** One receiver; [None] is a panic of the slider. *)
Definition receiver_row (profile : option Profile) (available : list Z) (busy : bool) (r : ReceiverSnapshot)
  : option (list Element) :=
  match rs_device r with
  | None => Some [Say (LineAwaitingDevice (rs_peer r))]
  | Some device =>
      let master := is_master profile device in
      let master_ready := match profile with Some pr => matches (pr_master pr) device | None => false end in
      let value := if master then from_option pr_volume (ds_volume device) profile else ds_volume device in
      s ← slider (if master then SliderMasterPosition else SliderDevice (rs_id r))
            (if master then wrap 16 (position available value) else value)
            (if master then (0, wrap 16 (Z.of_nat (pred (length available)))) else (ds_minimum device, ds_maximum device))
            (master_ready && negb busy && negb (bool_decide (available = [])));
      Some [Say (LineDevice (ds_name device) (role_of profile device) (ds_volume device) (ds_maximum device)); Track s]
  end.

(** [Dashboard::receivers]. *)
Definition receivers_content (p : Panel) (view : VolumeView) (measuring : bool) : option (list Element) :=
  let profile := current (vv_library view) in
  let available := positions profile p in
  let busy := vv_editing view || measuring in
  rows ← mapM (receiver_row profile available busy) (pa_receivers p);
  Some ([Button CmdOpenCalibration true false]
        ++ ((fun saved => Button (CmdProfile (pr_id saved)) (negb busy) (bool_decide (li_active (vv_library view) = Some (pr_id saved))))
              <$> li_profiles (vv_library view))
        ++ (match profile with None => [Say LineNoProfile] | Some _ => [] end)
        ++ concat rows
        ++ (if bool_decide (pa_receivers p = []) then [Say LineNoReceiver] else [])
        ++ (match profile with
            | Some pr =>
                (if existsb (is_on (pr_master pr)) (pa_receivers p) then []
                 else [Say (LineMasterMissing (dr_name (pr_master pr)))])
                ++ [Say (if bool_decide (available = []) then LineNoPosition else LinePositions available)]
            | None => []
            end)
        ++ [Say (match vv_message view with MsgNone => LineNotice (pa_notice p) | m => LineMessage m end)]).

(** [Dashboard::pairing]: the address, when there is one. *)
Definition pairing_content (pairing : option SocketAddr) : list Element :=
  match pairing with Some endpoint => [Say (LinePairing endpoint); Button CmdCopyPairing true false] | None => [] end.

Definition information_content : list Element := [Button CmdCopyFingerprint true false].
Definition settings_content (pairing : option SocketAddr) : list Element :=
  [Say (match pairing with Some endpoint => LinePairing endpoint | None => LineNoPairing end)].

Definition status_line (p : Panel) (enabled measuring : bool) : Status :=
  if measuring then StMeasuring
  else if negb enabled then StPaused
  else if bool_decide (pa_receivers p = []) then StWaiting
  else StPlaying (length (filter (fun r => rs_playing r = true) (pa_receivers p))).

(** [Dashboard::render]. *)
Definition dashboard_content (p : Panel) (view : VolumeView) (enabled measuring : bool) (pairing : option SocketAddr)
  : option (list Element) :=
  page ← match pa_page p with
         | Receivers => receivers_content p view measuring
         | Information => Some information_content
         | Settings => Some (settings_content pairing)
         end;
  Some ([Say (LineStatus (status_line p enabled measuring)); Say (LineToggle enabled);
         Button CmdToggle (negb measuring) false; Button CmdExit true false]
        ++ ((fun page => Button (CmdShow page) true (bool_decide (pa_page p = page))) <$> [Receivers; Information; Settings])
        ++ pairing_content pairing ++ page).

(** ** The calibration window *)

(** The row of a device in the calibration window. *)
Definition editor_row (p : Panel) (draft : option Profile) (ready busy : bool) (r : ReceiverSnapshot)
  : option (list Element) :=
  match rs_device r with
  | None => Some []
  | Some device =>
      let master := is_master draft device in
      let usable := ds_speaker device && negb (ds_fixed device) in
      s ← slider (SliderDevice (rs_id r)) (volume p r) (ds_minimum device, ds_maximum device)
            (negb busy && usable && negb (ds_failed device));
      Some ([Say (LineDevice (ds_name device) (if master then RoleMaster else RoleFollower) (volume p r) (ds_maximum device));
             Button (CmdSetMaster (rs_id r)) (ready && usable) false;
             Track s;
             Button (CmdPreviewDevice (rs_id r)) (ready && usable) false]
            ++ match follower_of draft device with
               | None => []
               | Some f =>
                   [Button (CmdPreviewPair (rs_id r))
                      (ready && matches (fo_device f) device &&
                       match draft with Some pr => existsb (is_on (pr_master pr)) (pa_receivers p) | None => false end) false;
                    Say (LinePoint (pa_point p) (bt_get (pa_point p) (fo_mapping f)));
                    Button (CmdRecord (rs_id r)) (ready && matches (fo_device f) device) false;
                    Button (CmdRemovePoint (rs_id r)) (ready && bt_contains_key (pa_point p) (fo_mapping f)) false;
                    Say (LinePoints (fo_mapping f))]
               end)
  end.

Definition has_saved_id (draft : option Profile) : bool :=
  match draft with Some pr => negb (pr_id pr =? 0) | None => false end.

(** The buttons below the devices, and the line under them. *)
Definition editor_actions (p : Panel) (view : VolumeView) (ready busy : bool) (progress : CalMessage) : list Element :=
  let draft := vv_draft view in
  let some_draft := bool_decide (is_Some draft) in
  [Button CmdCalibrate (ready && some_draft) false;
   SaveButton false (ready && some_draft);
   SaveButton true (ready && some_draft);
   Button CmdDeleteProfile (ready && has_saved_id draft) false;
   Button CmdCloseCalibration ready false;
   Say (if busy then LineProgress progress
        else match pa_notice p, progress with
             | NoNotice, SayNothing => LineMessage (vv_message view)
             | NoNotice, _ => LineProgress progress
             | n, _ => LineNotice n
             end)].

(** [Dashboard::calibration_content]. *)
Definition calibration_content (p : Panel) (view : VolumeView) (busy : bool) (progress : CalMessage)
  : option (list Element) :=
  let ready := negb busy && settled p in
  let draft := vv_draft view in
  rows ← mapM (editor_row p draft ready busy) (pa_receivers p);
  point ← match draft with
          | Some pr =>
              s ← slider SliderMasterPoint (pa_point p) (dr_minimum (pr_master pr), dr_maximum (pr_master pr)) (negb busy);
              Some [Say (LineDraft (dr_name (pr_master pr)) (pa_point p)); Track s]
          | None => Some [Say LineChooseMaster]
          end;
  Some (((fun saved => Button (CmdProfile (pr_id saved)) ready
                         (match draft with Some pr => pr_id pr =? pr_id saved | None => false end))
           <$> li_profiles (vv_library view))
        ++ [Button CmdNewProfile ready false; Button CmdStopTone (negb busy) false; Button CmdCancel busy false]
        ++ point
        ++ concat rows
        ++ editor_actions p view ready busy progress).

(** ** What a click or a key sends *)

(** The commands an element can send; a slider's position under the pointer is
    any point of the screen. *)
Inductive sends : Element -> Command -> Prop :=
| SendsButton c marked : sends (Button c true marked) c
| SendsSave copy name : sends (SaveButton copy true) (CmdSaveProfile name copy)
| SendsDrag s position left width index :
    sl_enabled s = true -> map_position s position left width = Some index -> sends (Track s) (slider_command (sl_kind s) index)
| SendsKey s key index :
    sl_enabled s = true -> slider_key s key = Some index -> sends (Track s) (slider_command (sl_kind s) index).

Lemma track_sends s c :
  slider_wf s -> sends (Track s) c ->
  sl_enabled s = true /\ exists index, c = slider_command (sl_kind s) index /\ sl_minimum s <= index <= sl_maximum s.
Proof.
  intros Hwf Hs. inversion Hs as [| |? position left width index He Hm|? key index He Hk]; subst.
  - split; [done|]. exists index. split; [done|].
    destruct (map_position_spec s position left width Hwf) as (i & Hi & Hr & _). by simplify_eq.
  - split; [done|]. exists index. split; [done|]. by eapply slider_key_spec.
Qed.

(** The devices on screen have a range of [u16] values. *)
Definition screen_ok (p : Panel) (draft : option Profile) : Prop :=
  (forall r device, r ∈ pa_receivers p -> rs_device r = Some device ->
     0 <= ds_minimum device /\ status_valid device = true) /\
  match draft with Some pr => 0 <= dr_minimum (pr_master pr) <= dr_maximum (pr_master pr) /\ dr_maximum (pr_master pr) <= 65535
  | None => True end.

Lemma valid_range device : status_valid device = true -> ds_minimum device <= ds_maximum device <= 512.
Proof. unfold status_valid. rewrite negb_true_iff, !orb_false_iff, !Z.ltb_ge. lia. Qed.

(** ** The main window *)

Lemma position_spec available value :
  0 <= position available value /\ (available <> [] -> position available value < Z.of_nat (length available)) /\
  (value ∈ available -> available !! Z.to_nat (position available value) = Some value).
Proof.
  unfold position. destruct (list_find _ available) as [[n x]|] eqn:E.
  - apply list_find_Some in E as (Hl & -> & _). pose proof (lookup_lt_Some _ _ _ Hl). split_and!; [lia|lia|].
    intros _. by rewrite Nat2Z.id.
  - split_and!; [done| |].
    + destruct available; simpl; [done|lia].
    + intros Hin. apply list_find_None in E. rewrite Forall_forall in E. by apply E in Hin.
Qed.

Lemma available_length p parts :
  Z.of_nat (length (available p parts)) <= Z.max 0 (dr_maximum (pr_master p) - dr_minimum (pr_master p) + 1).
Proof.
  unfold available. etransitivity; [apply inj_le, length_filter|]. rewrite length_seqZ. lia.
Qed.

Lemma u16_small z : 0 <= z <= 65535 -> wrap 16 z = z.
Proof. intros H. unfold wrap. apply Z.mod_small. lia. Qed.

(** The profile in use has a [u16] range. *)
Definition master_u16 (profile : option Profile) : Prop :=
  match profile with Some pr => 0 <= dr_minimum (pr_master pr) /\ dr_maximum (pr_master pr) <= 65535 | None => True end.

Lemma positions_length profile p : master_u16 profile -> Z.of_nat (length (positions profile p)) <= 65536.
Proof.
  destruct profile as [pr|]; [|done]. intros [H1 H2]. simpl.
  pose proof (available_length pr (participating pr (devices_of (pa_receivers p)))). lia.
Qed.

(** What an enabled slider of the main window is. *)
Definition master_slider (profile : option Profile) (available : list Z) (r : ReceiverSnapshot) (s : Slider) : Prop :=
  slider_wf s /\
  (sl_enabled s = true ->
   exists pr device, profile = Some pr /\ rs_device r = Some device /\ matches (pr_master pr) device = true /\
     sl_kind s = SliderMasterPosition /\ sl_minimum s = 0 /\ sl_maximum s = Z.of_nat (length available) - 1 /\
     (pr_volume pr ∈ available -> available !! Z.to_nat (sl_value s) = Some (pr_volume pr))).

Lemma matches_is_master pr device : matches (pr_master pr) device = true -> is_master (Some pr) device = true.
Proof. unfold matches. rewrite !andb_true_iff. by intros [[[[[H _] _] _] _] _]. Qed.

Lemma receiver_row_spec profile available busy r :
  (forall device, rs_device r = Some device -> 0 <= ds_minimum device /\ status_valid device = true) ->
  Z.of_nat (length available) <= 65536 ->
  exists row, receiver_row profile available busy r = Some row /\
    forall e, e ∈ row -> match e with
      | Track s => master_slider profile available r s /\ (sl_enabled s = true -> busy = false)
      | Say _ => True
      | _ => False
      end.
Proof.
  intros Hd Hl. unfold receiver_row. destruct (rs_device r) as [device|] eqn:Er; [|by eexists; split; [done|]; intros e ->%list_elem_of_singleton].
  destruct (Hd device eq_refl) as [H0 Hv%valid_range].
  set (ready := match profile with Some pr => matches (pr_master pr) device | None => false end).
  set (value := if is_master profile device then from_option pr_volume (ds_volume device) profile else ds_volume device).
  destruct (position_spec available value) as (Hp0 & Hp1 & Hp2).
  set (range := if is_master profile device then _ else (ds_minimum device, ds_maximum device)).
  assert (0 <= range.1 <= range.2 /\ range.2 <= 65535) as [Hr1 Hr2].
  { unfold range. destruct (is_master profile device); simpl; [|lia]. rewrite u16_small; lia. }
  destruct range as [lo hi] eqn:Erange. simpl in Hr1, Hr2.
  edestruct (slider_spec (if is_master profile device then SliderMasterPosition else SliderDevice (rs_id r))
    (if is_master profile device then wrap 16 (position available value) else value) lo hi) as (s & Hs & Hwf & Hk & He & Hmin & Hmax & Hvalue); [done|done|].
  rewrite Hs. simpl. eexists. split; [reflexivity|]. intros e He'. apply elem_of_cons in He' as [->|He']; [done|].
  apply list_elem_of_singleton in He' as ->. split; [split; [done|]|].
  - rewrite He, !andb_true_iff, !negb_true_iff, bool_decide_eq_false. intros [[Hready _] Hne].
    unfold ready in Hready. destruct profile as [pr|]; [|done]. exists pr, device.
    pose proof (matches_is_master pr device Hready) as Hm.
    unfold value in *. unfold range in Erange. rewrite Hm in *. injection Erange as <- <-.
    assert (Z.of_nat (length available) = Z.of_nat (pred (length available)) + 1) as Hlen by (destruct available; simpl; [done|lia]).
    simpl in Hp0, Hp1, Hp2, Hvalue. specialize (Hp1 Hne). rewrite u16_small in Hmax by lia.
    rewrite !u16_small in Hvalue by lia. split_and!; try done; [lia|]. intros Hin.
    rewrite Hvalue, Z.max_l, Z.min_l by lia. by apply Hp2.
  - rewrite He, !andb_true_iff, !negb_true_iff. by intros [[_ ?] _].
Qed.

Lemma rows_spec {A B} (f : A -> option (list B)) (P : A -> B -> Prop) l :
  (forall x, x ∈ l -> exists row, f x = Some row /\ forall e, e ∈ row -> P x e) ->
  exists rows, mapM f l = Some rows /\ forall e, e ∈ concat rows -> exists x, x ∈ l /\ P x e.
Proof.
  induction l as [|x l IH]; intros Hf.
  - exists []. split; [done|]. intros e He. by apply not_elem_of_nil in He.
  - destruct (Hf x) as (row & Hrow & HP); [set_solver|]. destruct IH as (rows & Hrows & HQ); [set_solver|].
    exists (row :: rows). simpl. rewrite Hrow. simpl. rewrite Hrows. split; [done|]. simpl.
    intros e [He|He]%elem_of_app; [exists x; set_solver|]. destruct (HQ e He) as (y & Hy & ?). exists y. set_solver.
Qed.

(** The main window can be drawn, whatever the phones report and the library
    holds.  Outside the calibration window it lets the user move the volume of
    the group only through the master: every slider that reacts belongs to the
    master of the profile in use, present and usable, at a moment without
    calibration; whatever the user does with it, the command it sends names a
    position of the list of calibrated indices, and it shows the position of the
    profile's volume when that is calibrated. *)
Theorem main_window_moves_the_master (p : Panel) (view : VolumeView) (measuring : bool)
  (Hp : screen_ok p None) (Hu : master_u16 (current (vv_library view))) :
  let available := positions (current (vv_library view)) p in
  exists elements, receivers_content p view measuring = Some elements /\
  forall s c, Track s ∈ elements -> sends (Track s) c ->
    vv_editing view = false /\ measuring = false /\
    exists pr r device index,
      current (vv_library view) = Some pr /\ r ∈ pa_receivers p /\ rs_device r = Some device /\
      matches (pr_master pr) device = true /\
      c = CmdMasterPosition index /\ is_Some (available !! Z.to_nat index) /\
      (pr_volume pr ∈ available -> available !! Z.to_nat (sl_value s) = Some (pr_volume pr)).
Proof.
  intros available. set (profile := current (vv_library view)) in *.
  assert (Z.of_nat (length available) <= 65536) as Hl by by apply positions_length.
  destruct (rows_spec (receiver_row profile available (vv_editing view || measuring))
    (fun r e => match e with
                | Track s => master_slider profile available r s /\ (sl_enabled s = true -> vv_editing view || measuring = false)
                | Say _ => True | _ => False end) (pa_receivers p)) as (rows & Hrows & Hspec).
  { intros r Hr. apply receiver_row_spec; [|done]. intros device. by apply Hp. }
  unfold receivers_content. fold profile. fold available. rewrite Hrows. simpl. eexists. split; [reflexivity|].
  intros s c Hin Hsends.
  assert (Track s ∈ concat rows) as Hin'.
  { repeat (apply elem_of_cons in Hin as [Hin|Hin] || apply elem_of_app in Hin as [Hin|Hin]); try done.
    all: first [by apply elem_of_list_fmap in Hin as (? & ? & ?) | by destruct profile; set_solver | idtac].
    - destruct (bool_decide _); set_solver.
    - destruct profile; [|set_solver]. destruct (existsb _ _); set_solver. }
  destruct (Hspec _ Hin') as (r & Hr & [[Hwf Hms] Hbusy]).
  destruct (track_sends s c Hwf Hsends) as (He & index & -> & Hi).
  destruct (orb_false_elim _ _ (Hbusy He)) as [-> ->]. split_and!; [done|done|].
  destruct (Hms He) as (pr & device & Hpr & Hdev & Hm & Hk & H0 & H1 & Hv).
  exists pr, r, device, index. split_and!; try done; [by rewrite Hk|]. apply lookup_lt_is_Some. lia.
Qed.
