(* ===== verification/NameField.v ===== *)
(** * NameField: the name of the profile in the calibration window

    [ui/calibration_window.rs] ([CalibrationWindow], its [render]): the text field
    of [NameInput] is filled from the draft whenever the draft's identity, master
    or name changes, and the save buttons send what it holds. *)

From stdpp Require Import base list.
From Stdlib Require Import ZArith Lia.
From S2P Require Import Prelude BTree Wire Text NameInput Storage Registry Profiles VolumeControl Panel Slider View.
Open Scope Z_scope.

(** What the text was loaded for. *)
Definition draft_key (draft : Profile) : Z * rstring * rstring := (pr_id draft, dr_id (pr_master draft), pr_name draft).

Record NameField : Type := mkNameField {
  nf_name : NameInput;
  nf_loaded : option (Z * rstring * rstring);
}.

Definition name_field_new : NameField := mkNameField input_new None.

(** [render], before the rest of the window. *)
Definition load_name (draft : option Profile) (f : NameField) : NameField :=
  let key := draft_key <$> draft in
  if bool_decide (key = nf_loaded f) then f
  else mkNameField (set_text (default [] (pr_name <$> draft)) (nf_name f)) key.

(** The command of the two save buttons. *)
Definition save_command (copy : bool) (f : NameField) : Command := CmdSaveProfile (ni_text (nf_name f)) copy.

Inductive field_event : Type :=
| FieldRender (draft : option Profile)
| FieldInput (op : input_op).

Definition field_step (f : NameField) (ev : field_event) : option NameField :=
  match ev with
  | FieldRender draft => Some (load_name draft f)
  | FieldInput op => i ← input_step (nf_name f) op; Some (mkNameField i (nf_loaded f))
  end.

Fixpoint field_run (f : NameField) (evs : list field_event) : option NameField :=
  match evs with [] => Some f | ev :: evs' => f ← field_step f ev; field_run f evs' end.

Definition inputs (evs : list field_event) : list input_op :=
  omap (fun ev => match ev with FieldInput op => Some op | FieldRender _ => None end) evs.

(** Redraws for the same draft, its name unchanged. *)
Definition same_draft (key : option (Z * rstring * rstring)) (ev : field_event) : Prop :=
  match ev with FieldRender draft => draft_key <$> draft = key | FieldInput _ => True end.

Lemma load_name_loaded draft f : nf_loaded (load_name draft f) = draft_key <$> draft.
Proof. unfold load_name. case_bool_decide as H; [by rewrite H|done]. Qed.

Lemma load_name_same draft f : draft_key <$> draft = nf_loaded f -> load_name draft f = f.
Proof. intros H. unfold load_name. by rewrite bool_decide_eq_true_2. Qed.

Lemma field_run_same evs f :
  Forall (same_draft (nf_loaded f)) evs ->
  field_run f evs = (fun i => mkNameField i (nf_loaded f)) <$> input_run (nf_name f) (inputs evs).
Proof.
  revert f. induction evs as [|[draft|op] evs IH]; intros f Hevs; [by destruct f|..];
    apply Forall_cons in Hevs as [Hev Hevs]; cbn [field_run field_step inputs omap list_omap input_run].
  - cbn. rewrite load_name_same by done. by apply IH.
  - destruct (input_step (nf_name f) op) as [i|]; [|done]. simpl. by apply (IH (mkNameField i (nf_loaded f))).
Qed.

(** What a typed name meets. When the window is drawn for another draft, the
    field shows that draft's name with the cursor at its end; from then on, and
    as long as the draft keeps its identity, its master and its stored name,
    redrawing changes nothing in the field, the field does not panic, and the
    save buttons send exactly what the user's input left there. *)
Theorem typed_name_is_saved (f : NameField) (draft : Profile) (evs : list field_event)
  (Hnew : nf_loaded f <> Some (draft_key draft)) (Hname : profile_ok draft)
  (Hevs : Forall (same_draft (Some (draft_key draft))) evs) :
  let shown := load_name (Some draft) f in
  ni_text (nf_name shown) = pr_name draft /\
  ni_selection (nf_name shown) = (utf8_len (pr_name draft), utf8_len (pr_name draft)) /\
  (calls_ok (nf_name shown) (inputs evs) -> input_wf False (nf_name f) ->
   exists i, input_run (nf_name shown) (inputs evs) = Some i /\
     field_run shown evs = Some (mkNameField i (Some (draft_key draft))) /\
     forall copy, save_command copy (mkNameField i (Some (draft_key draft))) = CmdSaveProfile (ni_text i) copy).
Proof.
  intros shown. assert (nf_loaded shown = Some (draft_key draft)) as Hl by apply load_name_loaded.
  assert (nf_name shown = set_text (pr_name draft) (nf_name f)) as Hs.
  { unfold shown, load_name. simpl. rewrite bool_decide_eq_false_2; [done|]. congruence. }
  split; [by rewrite Hs|]. split; [by rewrite Hs|]. intros Hok Hw.
  assert (input_wf False (nf_name shown)) as Hwf.
  { destruct (input_step_wf (nf_name f) (InSet (pr_name draft)) Hw) as (i & [= <-] & Hi); [|done|by rewrite Hs].
    cbn [stray]. destruct (po_name draft Hname). lia. }
  destruct (input_run_wf _ _ Hwf Hok) as (i & Hrun & _); [done|]. exists i. split; [done|]. split; [|done].
  rewrite field_run_same by (by rewrite Hl). by rewrite Hrun, Hl.
Qed.
