(* ===== verification/Editor.v ===== *)
(** * Editor: what the calibration window offers is granted

    The buttons and sliders [View.calibration_content] draws as active, against
    what [Panel.execute] refuses. *)

From Stdlib Require Import ZArith Lia.
From S2P Require Import Prelude BTree Wire Text Storage Registry Profiles Gate VolumeControl Loudness Calibration CalibrationControl Panel PanelSafety PanelSessions PanelTray Slider View.

(** ** The offers *)

(** A usable device on screen, shown for receiver [id]. *)
Definition on_screen (p : Panel) (id : Z) (device : DeviceStatus) : Prop :=
  exists r, r ∈ pa_receivers p /\ rs_id r = id /\ rs_device r = Some device.

Definition usable (device : DeviceStatus) : bool := ds_speaker device && negb (ds_fixed device).

(** What is true of the window when it offers a command. *)
Definition offered (p : Panel) (v : VolumeView) (busy : bool) (c : Command) : Prop :=
  match c with
  | CmdCancel => busy = true
  | CmdStopTone => busy = false
  | CmdNewProfile | CmdCloseCalibration => busy = false /\ settled p = true
  | CmdProfile id => busy = false /\ settled p = true /\ existsb (profile_with_id id) (li_profiles (vv_library v)) = true
  | CmdSaveProfile _ _ | CmdCalibrate | CmdDeleteProfile => busy = false /\ settled p = true /\ is_Some (vv_draft v)
  | CmdMasterPoint _ => busy = false /\ is_Some (vv_draft v)
  | CmdDeviceVolume id _ =>
      busy = false /\ exists device, on_screen p id device /\ usable device && negb (ds_failed device) = true
  | CmdSetMaster id | CmdPreviewDevice id =>
      busy = false /\ settled p = true /\ exists device, on_screen p id device /\ usable device = true
  | CmdPreviewPair id =>
      busy = false /\ settled p = true /\ exists device pr f, on_screen p id device /\ vv_draft v = Some pr /\
        f ∈ pr_followers pr /\ matches (fo_device f) device = true /\ existsb (is_on (pr_master pr)) (pa_receivers p) = true
  | CmdRecord id =>
      busy = false /\ settled p = true /\ exists device pr f, on_screen p id device /\ vv_draft v = Some pr /\
        f ∈ pr_followers pr /\ matches (fo_device f) device = true
  | CmdRemovePoint id =>
      busy = false /\ settled p = true /\ exists device pr f, on_screen p id device /\ vv_draft v = Some pr /\
        f ∈ pr_followers pr /\ dr_id (fo_device f) = ds_device_id device
  | _ => False
  end.

Lemma sends_button c enabled marked c' : sends (Button c enabled marked) c' -> enabled = true /\ c' = c.
Proof. intros H. by inversion H. Qed.
Lemma sends_save copy enabled c : sends (SaveButton copy enabled) c -> enabled = true /\ exists name, c = CmdSaveProfile name copy.
Proof. intros H. inversion H. split; [done|]. by eexists. Qed.
Lemma sends_track s c : sends (Track s) c -> sl_enabled s = true /\ exists index, c = slider_command (sl_kind s) index.
Proof. intros H. inversion H; (split; [done|]; by eexists). Qed.
Lemma sends_say l c : ~ sends (Say l) c.
Proof. intros H. inversion H. Qed.

Lemma slider_some kind value range enabled s :
  slider kind value range enabled = Some s -> sl_kind s = kind /\ sl_enabled s = enabled.
Proof.
  unfold slider. destruct range as [lo hi]. destruct (clamp value lo hi); simpl; [|done]. by intros [= <-].
Qed.

Lemma follower_some draft device f :
  follower_of draft device = Some f ->
  exists pr, draft = Some pr /\ f ∈ pr_followers pr /\ dr_id (fo_device f) = ds_device_id device.
Proof.
  unfold follower_of. destruct draft as [pr|]; simpl; [|done]. intros Hf. exists pr. split; [done|].
  apply find_Some in Hf as [Hf He]. by apply bool_decide_eq_true in He.
Qed.

Ltac split_enabled :=
  repeat match goal with
  | H : _ && _ = true |- _ => apply andb_true_iff in H as [? H]
  | H : negb _ = true |- _ => apply negb_true_iff in H
  | H : bool_decide _ = true |- _ => apply bool_decide_eq_true in H
  end.

Lemma editor_row_offers p v busy r row e c :
  r ∈ pa_receivers p -> editor_row p (vv_draft v) (negb busy && settled p) busy r = Some row -> e ∈ row -> sends e c ->
  offered p v busy c.
Proof.
  intros Hr Hrow He Hs. unfold editor_row in Hrow. destruct (rs_device r) as [device|] eqn:Ed.
  2:{ injection Hrow as <-. by apply not_elem_of_nil in He. }
  assert (on_screen p (rs_id r) device) as Hon by by exists r.
  apply bind_Some in Hrow as (s & Hs' & [= <-]). apply slider_some in Hs' as [Hk He'].
  assert (forall b, b && usable device = true -> usable device = true) as Husable by (by intros [] ?).
  simpl in He. repeat (apply elem_of_cons in He as [->|He]).
  - by apply sends_say in Hs.
  - apply sends_button in Hs as [Hs ->]. pose proof (Husable _ Hs). split_enabled. simpl. eauto.
  - apply sends_track in Hs as [Hs [index ->]]. rewrite Hk. simpl. rewrite He' in Hs. split_enabled. split; [done|].
    exists device. split; [done|]. unfold usable. by rewrite !andb_true_iff, !negb_true_iff.
  - apply sends_button in Hs as [Hs ->]. pose proof (Husable _ Hs). split_enabled. simpl. eauto.
  - destruct (follower_of (vv_draft v) device) as [f|] eqn:Ef; [|by apply not_elem_of_nil in He].
    apply follower_some in Ef as (pr & Hpr & Hf & Hid). rewrite Hpr in He.
    repeat (apply elem_of_cons in He as [->|He]); [..|by apply not_elem_of_nil in He].
    + apply sends_button in Hs as [Hs ->]. split_enabled. simpl. split_and!; try done. by exists device, pr, f.
    + by apply sends_say in Hs.
    + apply sends_button in Hs as [Hs ->]. split_enabled. simpl. split_and!; try done. by exists device, pr, f.
    + apply sends_button in Hs as [Hs ->]. split_enabled. simpl. split_and!; try done. by exists device, pr, f.
    + by apply sends_say in Hs.
Qed.

Lemma rows_of {A B} (f : A -> option (list B)) l rows e :
  mapM f l = Some rows -> e ∈ concat rows -> exists x row, x ∈ l /\ f x = Some row /\ e ∈ row.
Proof.
  revert rows. induction l as [|x l IH]; intros rows Hm He; simpl in Hm.
  - injection Hm as <-. by apply not_elem_of_nil in He.
  - apply bind_Some in Hm as (row & Hrow & Hm). apply bind_Some in Hm as (rows' & Hm & [= <-]).
    simpl in He. apply elem_of_app in He as [He|He]; [exists x, row; set_solver|].
    destruct (IH rows' Hm He) as (y & row' & Hy & ?). exists y, row'. split; [set_solver|done].
Qed.

Lemma calibration_offers p view busy progress elements e c :
  calibration_content p view busy progress = Some elements -> e ∈ elements -> sends e c ->
  offered p view busy c.
Proof.
  unfold calibration_content. intros Hc He Hs. apply bind_Some in Hc as (rows & Hrows & Hc).
  apply bind_Some in Hc as (point & Hpoint & [= <-]).
  apply elem_of_app in He as [He|He].
  { apply list_elem_of_fmap in He as (saved & -> & Hin). apply sends_button in Hs as [Hs ->]. split_enabled.
    split_and!; [done..|]. apply existsb_exists. exists saved. split; [by apply list_elem_of_In|apply Z.eqb_refl]. }
  simpl in He. repeat (apply elem_of_cons in He as [->|He]).
  1-3: apply sends_button in Hs as [Hs ->]; split_enabled; done.
  apply elem_of_app in He as [He|He].
  { destruct (vv_draft view) as [pr|] eqn:Ev.
    - apply bind_Some in Hpoint as (s & Hs' & [= <-]). apply slider_some in Hs' as [Hk He'].
      apply elem_of_cons in He as [->|He]; [by apply sends_say in Hs|]. apply list_elem_of_singleton in He as ->.
      apply sends_track in Hs as [Hs [index ->]]. rewrite Hk. rewrite He' in Hs. split_enabled. simpl. rewrite Ev. eauto.
    - injection Hpoint as <-. apply list_elem_of_singleton in He as ->. by apply sends_say in Hs. }
  apply elem_of_app in He as [He|He].
  { destruct (rows_of _ _ _ _ Hrows He) as (r & row & Hr & Hrow & He'). by eapply editor_row_offers. }
  repeat (apply elem_of_cons in He as [->|He]); [..|by apply not_elem_of_nil in He].
  - apply sends_button in Hs as [Hs ->]. split_enabled. done.
  - apply sends_save in Hs as [Hs [name ->]]. split_enabled. done.
  - apply sends_save in Hs as [Hs [name ->]]. split_enabled. done.
  - apply sends_button in Hs as [Hs ->]. split_enabled. simpl. split_and!; try done.
    unfold has_saved_id in Hs. by destruct (vv_draft view).
  - apply sends_button in Hs as [Hs ->]. split_enabled. done.
  - by apply sends_say in Hs.
Qed.

(** ** Refusals *)

Section editor.
Context {Sender : Type} `{MS : !Mpsc Sender ControlMessage}.
Context {FS : Type} `{HFS : !FileSystem FS} {Hcodec : LibraryCodec}.
Variable path : Path.

Abbreviation Desk := (Desk (Sender := Sender) (FS := FS)).
Abbreviation Pan := (Pan (Sender := Sender) (FS := FS)).
Abbreviation system_op := (system_op (Sender := Sender)).
Implicit Types (w : Desk).

(** *** Why the volume controller refuses, while the window is open *)

Lemma set_master_errors st device (reg : Registry Sender) e :
  vs_editing st = true -> usable device = true -> done (set_master st device reg) = Err e ->
  e = UnusableMaster /\
  ds_failed device || bool_decide (ds_device_id device = []) || (ds_maximum device <=? ds_minimum device) = true.
Proof.
  unfold usable, set_master, done. intros He [Hsp Hfx]%andb_true_iff. rewrite Hsp, He, Hfx, Z.leb_antisym.
  destruct (ds_failed device), (bool_decide _), (ds_minimum device <? ds_maximum device); cbn; intros [= <-]; done.
Qed.

Lemma select_errors st (reg : Registry Sender) (d : FS) id e :
  vs_editing st = true -> existsb (profile_with_id id) (li_profiles (vs_library st)) = true ->
  (select st reg d path id).2 = Err e -> e = PendingRequests /\ vs_pending st <> [].
Proof.
  intros He Hid. unfold select. rewrite He, Hid. case_bool_decide as Hp; cbn; [done|]. by intros [= <-].
Qed.

Definition save_refusal st (pr : Profile) (e : VolumeError) : Prop :=
  match e with
  | NotWritable => is_Some (vs_load_error st)
  | NoMapping => existsb calibrated (pr_followers pr) = false
  | NoCommonIndex | ProfileErr _ => True
  | _ => False
  end.
Lemma save_draft_errors st (d : FS) name copy draft e :
  vs_editing st = true -> vs_draft st = Some draft -> (save_draft st d path name copy).2 = Err e -> save_refusal st draft e.
Proof.
  intros He Hd. unfold save_draft, prepare_draft, ensure_writable. rewrite He, Hd. cbn.
  destruct (vs_load_error st) eqn:El; cbn; [intros [= <-]; simpl; by rewrite El|].
  assert (pr_followers (if copy then with_pr_id 0 (with_pr_name (trim name) draft) else with_pr_name (trim name) draft)
          = pr_followers draft) as -> by (by destruct copy).
  destruct (existsb calibrated (pr_followers draft)) eqn:Ec; cbn; [|by intros [= <-]].
  destruct (nearest _ _ _); cbn; [|by intros [= <-]].
  destruct (put _ _) as [[library id]|pe]; cbn; [|by intros [= <-]].
  by destruct (save d library path) as [d' [u|pe]]; cbn; [|intros [= <-]].
Qed.

Lemma delete_errors st (d : FS) id e :
  vs_editing st = true -> (delete st d path id).2 = Err e ->
  (e = NotWritable /\ is_Some (vs_load_error st)) \/ exists pe, e = ProfileErr pe.
Proof.
  intros He. unfold delete, ensure_writable. rewrite He. cbn.
  destruct (vs_load_error st); [intros [= <-]; by left|].
  destruct (save d _ path) as [d' [u|pe]]; cbn; [done|]. intros [= <-]. right. by exists pe.
Qed.

(** The closures of the two point buttons find their follower. *)
Lemma find_first {A} (f : A -> bool) (g : A -> A) l x : x ∈ l -> f x = true -> exists l', update_first f g l = Some l'.
Proof.
  intros Hx Hf. pose proof (update_first_spec f g l) as H. destruct (update_first f g l) as [l'|]; [by eexists|].
  rewrite Forall_forall in H. by rewrite H in Hf.
Qed.
Lemma record_point_ok point device pr f :
  f ∈ pr_followers pr -> matches (fo_device f) device = true -> (record_point point device pr).2 = Ok tt.
Proof.
  intros Hf Hm. unfold record_point.
  by destruct (find_first (fun f => matches (fo_device f) device) (with_mapping (bt_insert point (ds_volume device))) _ f Hf Hm)
    as [l ->].
Qed.
Lemma remove_point_ok point device pr f :
  f ∈ pr_followers pr -> dr_id (fo_device f) = ds_device_id device -> (remove_point point device pr).2 = Ok tt.
Proof.
  intros Hf Hm. unfold remove_point.
  by destruct (find_first (fun f => bool_decide (dr_id (fo_device f) = ds_device_id device)) (with_mapping (bt_remove point)) _ f Hf
    (bool_decide_eq_true_2 _ Hm)) as [l ->].
Qed.

Section command.
Variables (w0 : Desk) (c : Command).

(** The receiver a measurement or the slider of the master point is for. *)
Definition master_on_screen (p : Panel) (st : State) : bool :=
  match vs_draft st with Some pr => existsb (is_on (pr_master pr)) (pa_receivers p) | None => false end.

(** The draft's master stands at the point to record. *)
Definition at_the_point (p : Panel) (st : State) : bool :=
  match vs_draft st with
  | Some pr => existsb (fun r => match rs_device r with
                                 | Some d => matches (pr_master pr) d && (ds_volume d =? pa_point p)
                                 | None => false
                                 end) (pa_receivers p)
  | None => false
  end.

(** What may still refuse an offered command, and when: what its button does not
    look at.  Commands that are not listed are never refused. *)
Definition remaining (p : Panel) (st : State) (e : PanelError) : Prop :=
  match c, e with
  | CmdSetMaster id, PanVolume UnusableMaster =>
      exists device, on_screen p id device /\
        ds_failed device || bool_decide (ds_device_id device = []) || (ds_maximum device <=? ds_minimum device) = true
  | CmdProfile _, PanVolume PendingRequests => vs_pending st <> []
  | CmdSaveProfile _ _, PanVolume NotWritable | CmdDeleteProfile, PanVolume NotWritable => is_Some (vs_load_error st)
  | CmdSaveProfile _ _, PanVolume NoMapping =>
      exists pr, vs_draft st = Some pr /\ existsb calibrated (pr_followers pr) = false
  | CmdSaveProfile _ _, PanVolume (NoCommonIndex | ProfileErr _) | CmdDeleteProfile, PanVolume (ProfileErr _) => True
  | CmdPreviewDevice _, PanRegistry _ | CmdPreviewPair _, PanRegistry _ => True
  | CmdRecord _, PanPointMismatch => at_the_point p st = false
  | CmdMasterPoint _, PanMasterGone | CmdCalibrate, PanMasterGone => master_on_screen p st = false
  | CmdCalibrate, PanStart ThreadNotSpawned => True
  | _, _ => False
  end.
Abbreviation refusal := (remaining (dk_panel w0) (sy_state (dk_system w0))).

(** The code refuses only with these errors, and otherwise makes [Q] true. *)
Definition grants {A} (P : Desk -> Prop) (m : Pan A) (Q : A -> Desk -> Prop) : Prop :=
  forall w w' r, P w -> m w = Some (w', r) -> match r with Ok a => Q a w' | Err e => refusal e end.

(** Code that refuses with these errors from any desk. *)
Definition easy {A} (m : Pan A) : Prop := grants (fun _ => True) m (fun _ _ => True).

Lemma grants_bind {A B} P (m : Pan A) (f : A -> Pan B) Q R :
  grants P m Q -> (forall a, grants (Q a) (f a) R) -> grants P (m ≫= f) R.
Proof.
  intros Hm Hf w w' r Hw Hr. unfold mbind, pan_bind in Hr. destruct (m w) as [[w1 [a|e]]|] eqn:E; [| |done].
  - eapply Hf; [|exact Hr]. by apply (Hm _ _ _ Hw E).
  - injection Hr as <- <-. by apply (Hm _ _ _ Hw E).
Qed.
Lemma grants_easy {A} P (m : Pan A) : easy m -> grants P m (fun _ _ => True).
Proof. intros Hm w w' r _ Hr. by apply (Hm w w' r). Qed.
Lemma easy_bind {A B} (m : Pan A) (f : A -> Pan B) : easy m -> (forall a, easy (f a)) -> easy (m ≫= f).
Proof. intros Hm Hf. eapply grants_bind; [exact Hm|]. exact Hf. Qed.

Lemma easy_total {A} (m : Pan A) : succeeds m -> easy m.
Proof. intros Hm w w' r _ Hr. by destruct (Hm _ _ _ Hr) as [a ->]. Qed.
Lemma easy_lift {A} (r : result PanelError A) : (forall e, r = Err e -> refusal e) -> easy (lift r).
Proof. intros Hr w w' r' _ [= <- <-]. destruct r; auto. Qed.
Lemma easy_unwrap {A} (o : option A) : easy (unwrap o).
Proof. intros w w' r _ Hr. unfold unwrap in Hr. by destruct o; simplify_eq/=. Qed.
Lemma easy_for_each {A} (f : A -> Pan unit) l : (forall x, easy (f x)) -> easy (for_each f l).
Proof. intros Hf. induction l; [by apply easy_total, succeeds_ret|]. by apply easy_bind. Qed.
Lemma easy_start_tone id : (forall e, refusal (PanRegistry e)) -> easy (start_tone path id).
Proof.
  intros He. unfold start_tone. apply easy_bind; [apply easy_total, succeeds_act|]. intros [q|e]; [apply easy_total, succeeds_ret|].
  apply easy_bind; [apply easy_total, succeeds_act|]. intros _. apply easy_lift. by intros e' [= <-].
Qed.
Lemma grants_weaken {A} (P P' : Desk -> Prop) (m : Pan A) Q : (forall w, P w -> P' w) -> grants P' m Q -> grants P m Q.
Proof. intros HP Hm w w' r Hw. by apply Hm, HP. Qed.
Lemma grants_any {A} P (m : Pan A) Q : grants P m Q -> grants P m (fun _ _ => True).
Proof. intros Hm w w' r Hw Hr. pose proof (Hm _ _ _ Hw Hr). by destruct r. Qed.

(** ** The moment of the click *)

Definition idle (k : Controller) : Prop := cs_running (cc_state k) = false /\ cs_result (cc_state k) = None.
Definition same w : Prop :=
  undisturbed w /\ dk_system w = dk_system w0 /\ dk_panel w = dk_panel w0 /\ idle (dk_calibration w).

Lemma grants_look {A} (f : System -> A) : grants same (look path f) (fun a w => a = f (dk_system w0) /\ same w).
Proof.
  intros w w' r (Hu & Hs & Hp & Hi) Hr. destruct (look_undisturbed path w f Hu) as (w1 & E & L). rewrite E in Hr.
  injection Hr as <- <-. rewrite Hs. split; [done|]. split_and!; [by eapply undisturbed_later|..];
    destruct L as (L1 & L2 & L3 & _); congruence.
Qed.
Lemma grants_panel : grants same panel (fun a w => a = dk_panel w0 /\ same w).
Proof. intros w w' r Hw [= <- <-]. by split; [apply Hw|]. Qed.

Lemma grants_read {B} (f : Panel -> Pan B) R : grants same (f (dk_panel w0)) R -> grants same (p ← panel; f p) R.
Proof.
  intros Hf. eapply grants_bind; [apply grants_panel|]. intros a w w' r [-> Hw] Hr. by eapply Hf.
Qed.
Lemma grants_view {B} (f : VolumeView -> Pan B) R :
  grants same (f (view (sy_state (dk_system w0)))) R -> grants same (v ← look_view path; f v) R.
Proof.
  intros Hf. unfold look_view. eapply grants_bind; [apply grants_look|]. intros a w w' r [-> Hw] Hr. by eapply Hf.
Qed.
Lemma grants_lift {A B} (a : result PanelError A) (f : A -> Pan B) R :
  match a with Ok x => grants same (f x) R | Err e => refusal e end -> grants same (x ← lift a; f x) R.
Proof.
  intros Ha w w' r Hw Hr. unfold mbind, pan_bind, lift in Hr. destruct a as [x|e]; [by eapply Ha|]. by injection Hr as <- <-.
Qed.
Lemma grants_require {B} b e (f : unit -> Pan B) R :
  b = true \/ refusal e -> grants same (f tt) R -> grants same (x ← require b e; f x) R.
Proof. intros Hb Hf. apply grants_lift. destruct b; [done|]. by destruct Hb. Qed.
Lemma grants_after {A B} (m : Pan A) (f : A -> Pan B) : easy m -> (forall a, easy (f a)) -> grants same (m ≫= f) (fun _ _ => True).
Proof. intros Hm Hf. eapply grants_bind; [by apply grants_easy|]. intros a. apply Hf. Qed.

Lemma grants_steer {A B} (f : bool -> Controller -> Controller * A) (x : A) (g : A -> Pan B) R :
  (forall b k, idle k -> idle (f b k).1 /\ (f b k).2 = x) -> grants same (g x) R -> grants same (a ← steer path f; g a) R.
Proof.
  intros Hf Hg. eapply (grants_bind _ _ _ (fun a w => a = x /\ same w)); [|by intros a w w' r [-> Hw]; apply Hg].
  intros w w' r (Hu & Hs & Hp & Hi) Hr. destruct (others_undisturbed path w Hu) as (w1 & Ho & L).
  unfold steer in Hr. rewrite Ho in Hr. simpl in Hr. pose proof L as (L1 & L2 & L3 & L4 & _). rewrite L2 in Hr.
  destruct (Hf (tn_spawns (dk_schedule w1 (dk_turn w1))) (dk_calibration w) Hi) as [Hi' <-].
  destruct (f _ (dk_calibration w)) as [k a]. simpl in *. injection Hr as <- <-. split; [done|]. split_and!; cbn.
  - intros n. cbn. rewrite L4. apply Hu.
  - congruence.
  - congruence.
  - done.
Qed.

Lemma grants_preamble {B} (f : unit -> Pan B) R : grants same (f tt) R -> grants same (x ← preamble path; f x) R.
Proof.
  intros Hf. unfold preamble, calibrating. intros w w' r Hw Hr.
  assert (grants same (running ← steer path (fun _ k => (k, (status k).1));
    _ ← require (negb running) PanMeasuring;
    result ← steer path (fun _ k => take_result k);
    _ ← match result with
        | Some profile => r ← adopt_result path profile; lift (map_err PanVolume r)
        | None => mret tt
        end;
    x ← steer path (fun _ k => (clear_message k, tt)); f x) R) as H.
  { apply (grants_steer _ false); [intros b k Hk; split; apply Hk|]. apply grants_require; [by left|].
    apply (grants_steer _ None); [intros b k [H1 H2]; split; [by split|done]|]. apply (grants_lift (Ok tt)).
    apply (grants_steer _ tt); [intros b k [H1 H2]; split; [by split|done]|]. done. }
  apply (H w w' r Hw). revert Hr. unfold mbind, pan_bind. clear.
  repeat case_match; intros; simplify_eq; done.
Qed.

Lemma grants_device {B} id e device (f : DeviceStatus -> Pan B) R :
  NoDup (rs_id <$> pa_receivers (dk_panel w0)) -> on_screen (dk_panel w0) id device ->
  grants same (f device) R -> grants same (d ← my_device id e; f d) R.
Proof.
  intros Hnd (r & Hr & <- & Hd) Hf. eapply (grants_bind _ _ _ (fun a w => a = device /\ same w)).
  - unfold my_device. apply grants_read. intros w w' r' Hw Hr'. unfold lift in Hr'. injection Hr' as <- <-.
    pose proof (find_snapshot_in _ _ Hnd Hr) as Hfind. unfold find_snapshot in Hfind.
    unfold device_of. rewrite Hfind. simpl. rewrite Hd. by split.
  - intros a w w' r' [-> Hw]. by apply Hf.
Qed.

Lemma grants_draft {B} e pr (f : Profile -> Pan B) R :
  vs_draft (sy_state (dk_system w0)) = Some pr -> grants same (f pr) R -> grants same (d ← draft_or path e; f d) R.
Proof.
  intros Hd Hf. eapply (grants_bind _ _ _ (fun a w => a = pr /\ same w)).
  - unfold draft_or. apply grants_view. intros w w' r' Hw Hr'. unfold lift in Hr'. injection Hr' as <- <-.
    cbn [view vv_draft]. rewrite Hd. by split.
  - intros a w w' r' [-> Hw]. by apply Hf.
Qed.

(** The master on screen, or a refusal because it is gone. *)
Lemma grants_master {B} range (f : ReceiverSnapshot -> Pan B) R :
  (existsb (is_on range) (pa_receivers (dk_panel w0)) = false -> refusal PanMasterGone) ->
  (forall r, r ∈ pa_receivers (dk_panel w0) -> is_on range r = true -> grants same (f r) R) ->
  grants same (r ← my_receiver range; f r) R.
Proof.
  intros He Hf. eapply (grants_bind _ _ _ (fun r w => (r ∈ pa_receivers (dk_panel w0) /\ is_on range r = true) /\ same w)).
  - unfold my_receiver. apply grants_read. intros w w' r' Hw Hr'. unfold lift in Hr'. injection Hr' as <- <-.
    destruct (find (is_on range) (pa_receivers (dk_panel w0))) as [r|] eqn:E; simpl.
    + apply find_Some in E. by split.
    + apply He. rewrite <- not_true_iff_false, existsb_exists. intros (r & Hr & Hon).
      apply list_elem_of_In in Hr. rewrite find_None in E. by rewrite E in Hon.
  - intros r w w' r' [[Hr Hon] Hw]. by apply Hf.
Qed.
(** A desk nobody else works at, with the server in a state of [S]. *)
Definition holds (S : System -> Prop) w : Prop := undisturbed w /\ S (dk_system w) /\ idle (dk_calibration w).
Lemma same_holds w : same w -> holds (eq (dk_system w0)) w.
Proof. by intros (Hu & <- & _ & Hi). Qed.

Lemma grants_act {A} (S : System -> Prop) (op : Z -> system_op) (answer : Z -> System -> A) :
  grants (holds S) (act path op answer) (fun a w => exists now y, S y /\ a = answer now y /\
    holds (fun y' => system_step path y (op now) = Some y') w).
Proof.
  intros w w' r (Hu & HS & Hi) Hr. destruct (others_undisturbed path w Hu) as (w1 & Ho & L). unfold act in Hr. rewrite Ho in Hr.
  simpl in Hr. destruct L as (L1 & L2 & L3 & L4 & _).
  destruct (system_step path (dk_system w1) (op (dk_now w1))) as [y|] eqn:E; [|done]. injection Hr as <- <-.
  rewrite L1 in *. exists (dk_now w1), (dk_system w). split_and!; [done..|]. split_and!; cbn.
  - intros n. cbn. rewrite L4. apply Hu.
  - done.
  - by rewrite L2.
Qed.

(** A call of the volume controller. *)
Lemma grants_volume (S S' : System -> Prop) (op : Z -> system_op) answer :
  (forall now y, S y -> match answer now y with
     | Ok _ => forall y', system_step path y (op now) = Some y' -> S' y'
     | Err e => refusal (PanVolume e)
     end) ->
  grants (holds S) (volume_call path op answer) (fun _ => holds S').
Proof.
  intros Ha. unfold volume_call. eapply grants_bind; [apply grants_act|].
  intros a w w' r (now & y & HS & -> & Hu & Hy & Hi) Hr. specialize (Ha now y HS). unfold lift in Hr. injection Hr as <- <-.
  destruct (answer now y) as [u|e]; simpl; [|done]. split_and!; auto.
Qed.

Lemma grants_call (S : System -> Prop) (op : Z -> system_op) answer :
  (forall now y e, S y -> answer now y = Err e -> refusal (PanVolume e)) ->
  grants (holds S) (volume_call path op answer) (fun _ _ => True).
Proof.
  intros Ha. eapply grants_any. apply (grants_volume _ (fun _ => True)). intros now y HS. specialize (Ha now y).
  destruct (answer now y); auto.
Qed.
(** Such a call at the moment of the click. *)
Lemma grants_call_now (op : Z -> system_op) answer :
  (forall now e, answer now (dk_system w0) = Err e -> refusal (PanVolume e)) ->
  grants same (volume_call path op answer) (fun _ _ => True).
Proof.
  intros Ha. eapply grants_weaken; [apply same_holds|]. apply grants_call. intros now y e <-. apply Ha.
Qed.
Lemma grants_then {A B} P (m : Pan A) (f : A -> Pan B) :
  grants P m (fun _ _ => True) -> (forall a, easy (f a)) -> grants P (a ← m; f a) (fun _ _ => True).
Proof. intros Hm Hf. eapply grants_bind; [exact Hm|]. exact Hf. Qed.

Ltac easy_step :=
  match goal with
  | |- easy (_ ≫= _) => apply easy_bind; [|intros ?]
  | |- easy (for_each _ _) => apply easy_for_each; intros ?
  | |- easy (unwrap _) => apply easy_unwrap
  | |- easy (if ?x then _ else _) => destruct x
  | |- easy (match ?x with _ => _ end) => destruct x
  | |- easy _ => apply easy_total; first [apply succeeds_ret | apply succeeds_update | apply succeeds_jot | apply succeeds_panel
      | apply succeeds_act | apply succeeds_look | apply succeeds_steer | apply succeeds_clock]
  end.
Ltac grants_rest' := unfold look_view, tones_off, sessions_off, forget_sessions, notify, ask_status; repeat easy_step.
Ltac grants_rest := apply grants_easy; grants_rest'.

Definition settled_now : Prop := settled (dk_panel w0) = true.
Abbreviation now_view := (view (sy_state (dk_system w0))).

(** The settings of the click. *)
Hypothesis Hnd : NoDup (rs_id <$> pa_receivers (dk_panel w0)).
Hypothesis Hediting : vs_editing (sy_state (dk_system w0)) = true.

Lemma grants_device_volume id index :
  (exists device, on_screen (dk_panel w0) id device /\ usable device && negb (ds_failed device) = true) ->
  grants same (device_volume path id index) (fun _ _ => True).
Proof.
  intros (device & Hon & Hu). unfold device_volume. apply grants_view. cbn [view vv_editing]. rewrite Hediting.
  eapply (grants_bind _ _ _ (fun _ _ => True)); [|intros a; grants_rest].
  eapply (grants_device id PanNotReady device); [done|done|]. apply grants_require; [by left|]. grants_rest.
Qed.

Lemma grants_settled {B} e (f : unit -> Pan B) R :
  settled_now -> grants same (f tt) R -> grants same (x ← require_settled e; f x) R.
Proof.
  intros Hs Hf. eapply (grants_bind _ _ _ (fun _ => same)); [|by intros []].
  unfold require_settled. apply grants_read. intros w w' r Hw Hr. rewrite Hs in Hr. by injection Hr as <- <-.
Qed.

Lemma grants_edit change :
  (forall pr, vs_draft (sy_state (dk_system w0)) = Some pr -> (change pr).2 = Ok tt) ->
  is_Some (vs_draft (sy_state (dk_system w0))) -> grants same (edit_call path change) (fun _ _ => True).
Proof.
  intros Hc [pr Hd]. apply grants_call_now. intros _ e. unfold edit. rewrite Hediting, Hd. specialize (Hc pr Hd).
  destruct (change pr) as [pr' r]. cbn in *. by subst.
Qed.

Lemma grants_save name copy :
  c = CmdSaveProfile name copy -> settled_now -> is_Some (vs_draft (sy_state (dk_system w0))) ->
  grants same (save_profile path name copy) (fun _ _ => True).
Proof.
  intros Ec Hs [draft Hd]. unfold save_profile. apply grants_settled; [done|]. apply grants_read.
  set (volume := with_pr_volume (pa_point (dk_panel w0))). set (y0 := dk_system w0) in *.
  eapply (grants_bind _ _ _ (fun _ => holds (eq (with_state y0 (set_draft_field (Some (volume draft)) (sy_state y0)))))).
  { eapply grants_weaken; [apply same_holds|]. apply grants_volume. fold y0. intros now y <-. unfold edit.
    rewrite Hediting, Hd. cbn. destruct y0 as [st reg d gate]. cbn in *. unfold edit. rewrite Hediting, Hd. by intros y' [= <-]. }
  intros _. apply grants_then; [|intros _; repeat easy_step]. apply grants_call. intros now y e <-. cbn [sy_state with_state].
  intros He. apply (save_draft_errors _ _ _ _ (volume draft)) in He; [|done..].
  unfold remaining. rewrite <- Ec || rewrite Ec. fold y0. destruct e; try done. by exists draft.
Qed.

Lemma grants_calibrate : c = CmdCalibrate -> settled_now -> is_Some (vs_draft (sy_state (dk_system w0))) ->
  grants same (calibrate_command path) (fun _ _ => True).
Proof.
  intros Ec Hs [pr Hd]. unfold calibrate_command. apply grants_view. apply grants_read. cbn [view vv_editing].
  rewrite Hediting, Hs. apply grants_require; [by left|]. eapply (grants_draft PanNoMaster pr); [done|].
  apply grants_master; [intros He; unfold remaining, master_on_screen; by rewrite Ec, Hd|]. intros r _ _.
  unfold tones_off, sessions_off, forget_sessions.
  set (quiet := fun (_ : unit) (w : Desk) => holds (fun _ => True) w).
  assert (forall S (op : Z -> system_op), grants (holds S) (act path op (fun _ _ => tt)) quiet) as Hact.
  { intros S op w w' r' Hw Hr'. pose proof (grants_act S op (fun _ _ => tt) w w' r' Hw Hr') as H. destruct r'; [|done].
    destruct H as (now & y & _ & _ & Hu & _ & Hi). by split_and!. }
  eapply (grants_bind _ _ _ quiet); [eapply grants_weaken; [apply same_holds|apply Hact]|intros ?].
  eapply (grants_bind _ _ _ quiet); [apply Hact|intros ?].
  eapply (grants_bind _ _ _ quiet).
  { intros w w' r' Hw Hr'. unfold mbind, pan_bind, jot, update in Hr'. injection Hr' as <- <-. exact Hw. }
  intros ?. eapply (grants_bind _ _ _ (fun a _ => a <> Err AlreadyRunning)).
  - intros w w' r' (Hu & _ & [Hi _]) Hr'. destruct (others_undisturbed path w Hu) as (w1 & Ho & _ & L2 & _).
    unfold steer in Hr'. rewrite Ho in Hr'. cbn in Hr'. rewrite L2 in Hr'. unfold start in Hr'. rewrite Hi in Hr'.
    destruct (child_token _) as [tokens token]. destruct (tn_spawns _); by injection Hr' as <- <-.
  - intros [u|e].
    + apply grants_easy. cbn. repeat easy_step.
    + intros w w' r' He [= <- <-]. unfold remaining. rewrite Ec. by destruct e.
Qed.

Lemma grants_preview id pair :
  (forall e, refusal (PanRegistry e)) -> settled_now ->
  (pair = true -> exists device pr f, on_screen (dk_panel w0) id device /\ vs_draft (sy_state (dk_system w0)) = Some pr /\
     f ∈ pr_followers pr /\ matches (fo_device f) device = true /\
     existsb (is_on (pr_master pr)) (pa_receivers (dk_panel w0)) = true) ->
  grants same (preview path id pair) (fun _ _ => True).
Proof.
  intros He Hs Hpair. unfold preview. apply grants_view. apply grants_read. cbn [view vv_editing vv_draft].
  rewrite Hediting, Hs. apply grants_require; [by left|].
  eapply (grants_bind _ _ _ (fun _ => same)).
  2:{ intros targets. apply grants_easy. unfold tones_off. repeat easy_step. by apply easy_start_tone. }
  destruct pair; [|by intros w w' r' Hw [= <- <-]].
  destruct (Hpair eq_refl) as (device & pr & f & Hon & Hd & Hf & Hm & Hmaster). rewrite Hd.
  apply (grants_lift (Ok pr)). eapply (grants_device id PanDeviceGone device); [done|done|].
  apply grants_require; [left; apply existsb_exists; exists f; split; [by apply list_elem_of_In|done]|].
  apply grants_master; [by rewrite Hmaster|]. intros r _ _ w w' r' Hw [= <- <-]. done.
Qed.

(** The recorded point. *)
Lemma grants_record id device pr f :
  c = CmdRecord id -> settled_now -> on_screen (dk_panel w0) id device ->
  vs_draft (sy_state (dk_system w0)) = Some pr -> f ∈ pr_followers pr -> matches (fo_device f) device = true ->
  grants same (record_command path id) (fun _ _ => True).
Proof.
  intros Ec Hs Hon Hd Hf Hm. unfold record_command. apply grants_view. apply grants_read. cbn [view vv_editing].
  rewrite Hediting, Hs. apply grants_require; [by left|].
  eapply (grants_device id PanDeviceGone device); [done|done|]. eapply (grants_draft PanNoMaster pr); [done|].
  apply grants_require.
  - unfold remaining, at_the_point. rewrite Ec, Hd. destruct (existsb _ _); [by left|by right].
  - apply grants_then; [|intros _; grants_rest']. apply grants_edit; [|done].
    intros pr' Hd'. simplify_eq. by eapply record_point_ok.
Qed.

Lemma grants_offered c' :
  c' = c -> offered (dk_panel w0) now_view false c' -> grants same (perform path c') (fun _ _ => True).
Proof.
  intros Ec Ho. destruct c' as [page| |steps| | |id|id index|index|pos|id|id|id|id| | | |id| |name copy| | | |];
    cbn [offered perform view vv_draft vv_library] in *; try done.
  - apply grants_settled; [apply Ho|]. grants_rest.
  - destruct Ho as (_ & Hs & device & Hon & Hu). unfold choose_master. apply grants_settled; [done|].
    eapply (grants_device id PanNotReady device); [done|done|]. apply grants_then; [|intros _; grants_rest'].
    apply grants_call_now. intros now e He. apply set_master_errors in He as [-> He]; [|done..].
    unfold remaining. rewrite <- Ec. by exists device.
  - apply grants_device_volume, Ho.
  - destruct Ho as (_ & pr & Hd). eapply (grants_draft PanNoMaster pr); [done|].
    apply grants_master; [intros He; unfold remaining, master_on_screen; by rewrite <- Ec, Hd|].
    intros r Hr Hon. apply grants_preamble. apply grants_device_volume.
    unfold is_on in Hon. destruct (rs_device r) as [device|] eqn:Ed; [|done]. exists device.
    split; [by exists r|]. unfold matches in Hon. unfold usable. rewrite !andb_true_iff in *. naive_solver.
  - destruct Ho as (_ & Hs & device & pr & f & Hon & Hd & Hf & Hm). by eapply grants_record.
  - destruct Ho as (_ & Hs & device & pr & f & Hon & Hd & Hf & Hm). unfold remove_command.
    eapply (grants_device id PanDeviceGone device); [done|done|]. apply grants_read. apply grants_edit; [|done].
    intros pr' Hd'. simplify_eq. by eapply remove_point_ok.
  - destruct Ho as (_ & Hs & _). apply grants_preview; [intros e; unfold remaining; by rewrite <- Ec|done|done].
  - destruct Ho as (_ & Hs & Ho). apply grants_preview; [intros e; unfold remaining; by rewrite <- Ec|done|done].
  - grants_rest.
  - by apply grants_calibrate; [|apply Ho..].
  - destruct Ho as (_ & Hs & Hid). unfold choose_profile. apply grants_settled; [done|].
    apply grants_then; [|intros _; grants_rest']. apply grants_call_now. intros now e He.
    apply select_errors in He as [-> He]; [|done..]. unfold remaining. by rewrite <- Ec.
  - unfold new_profile. apply grants_then; [|intros _; grants_rest']. apply grants_call_now. intros now e.
    unfold new_draft. by rewrite Hediting.
  - by apply grants_save; [|apply Ho..].
  - destruct Ho as (_ & Hs & pr & Hd). unfold delete_profile. apply grants_view. cbn [view vv_draft]. rewrite Hd.
    apply grants_call_now. intros now e He. apply delete_errors in He as [[-> He]|[pe ->]]; [| |done];
      unfold remaining; by rewrite <- Ec.
Qed.
End command.

End editor.

(** ** Witness: the room with the calibration window open *)

Definition opening : list panel_event := [PanRefresh; PanCommand CmdOpenCalibration; PanRefresh].

Definition still (w : Desk (Sender := Channel ControlMessage) (FS := MemDisk)) : Desk :=
  mkDesk (dk_system w) (dk_calibration w) (dk_panel w) (dk_now w) (fun _ => room_turn []) 0 (dk_log w).

Definition editor_desk : Desk (Sender := Channel ControlMessage) (FS := MemDisk) :=
  match panel_run room_path opening (desk_start room_path room_disk 0 visit) with
  | Some (w, _) => still w
  | None => room_desk
  end.

Definition editor_elements : list Element :=
  default [] (calibration_content (dk_panel editor_desk) (view (sy_state (dk_system editor_desk)))
    (status (dk_calibration editor_desk)).1 (status (dk_calibration editor_desk)).2).

Lemma editor_desk_ok : desk_ok editor_desk.
Proof.
  destruct (keeps_panel_run room_path opening (desk_start room_path room_disk 0 visit)) as (w & r & Hw & [[H1 H2 H3 H4 H5] _]).
  { apply desk_start_ok. apply visit_background. }
  unfold editor_desk. rewrite Hw. split; [intros n; repeat constructor|exact H2|exact H3|exact H4|exact H5].
Qed.


(** ** Witness of [View.main_window_moves_the_master]: the room at rest *)

Lemma main_window_moves_the_master_witness :
  positions (Some the_room) (dk_panel editor_desk) = [3; 7] /\
  exists elements, receivers_content (dk_panel editor_desk) (mkVolumeView room_library None false MsgNone) false = Some elements /\
  forall s c, Track s ∈ elements -> sends (Track s) c ->
    false = false /\ false = false /\
    exists pr r device index,
      current room_library = Some pr /\ r ∈ pa_receivers (dk_panel editor_desk) /\ rs_device r = Some device /\
      matches (pr_master pr) device = true /\
      c = CmdMasterPosition index /\
      is_Some (positions (current room_library) (dk_panel editor_desk) !! Z.to_nat index) /\
      (pr_volume pr ∈ positions (current room_library) (dk_panel editor_desk) ->
       positions (current room_library) (dk_panel editor_desk) !! Z.to_nat (sl_value s) = Some (pr_volume pr)).
Proof.
  split; [vm_compute; reflexivity|].
  apply (main_window_moves_the_master (dk_panel editor_desk) (mkVolumeView room_library None false MsgNone) false).
  - split; [|done]. intros r device Hr Hd. split; [|exact (do_devices _ editor_desk_ok r device Hr Hd)].
    apply list_elem_of_In in Hr. revert Hr Hd. vm_compute. intros [<-|[<-|[]]] [= <-]; done.
  - vm_compute. done.
Defined.
