(* ===== verification/Window.v ===== *)
(** * Window: the event loop of the program's windows

    [ui/dashboard.rs] ([dispatch], the polling task, closing the main window),
    [ui/calibration_window.rs] ([open_calibration], closing the window),
    [ui/controls.rs] (dragging a slider) and [ui/tray.rs] (the icon's messages
    and its bounded queue).  All of it runs on one thread, one event after the
    other; the other threads of the server run inside the calls of the panel. *)

From stdpp Require Import base list.
From Stdlib Require Import ZArith Lia.
From S2P Require Import Prelude BTree Wire Text Storage Registry Profiles Gate VolumeControl Calibration CalibrationControl Panel Slider View.
Open Scope Z_scope.

(** ** The tray *)

(** [mpsc::sync_channel(16)] in [ui::run]. *)
Definition TRAY_QUEUE : nat := 16.
Definition POLL_LIMIT : nat := 32.

(** [send]: [try_send], the result ignored. *)
Definition tray_send (queue : list Command) (c : Command) : list Command :=
  if (length queue <? TRAY_QUEUE)%nat then queue ++ [c] else queue.

(** The identifiers of [menu]. *)
Definition menu_command (id : Z) : option Command :=
  match id with
  | 1 | 5 => Some (CmdShow Receivers)
  | 2 => Some CmdToggle
  | 3 => Some (CmdAdjustAll 1)
  | 4 => Some (CmdAdjustAll (-1))
  | 6 => Some (CmdShow Information)
  | 7 => Some (CmdShow Settings)
  | 8 => Some CmdExit
  | _ => None
  end.

(** What the user did to the icon, as [window_proc] tells the messages apart;
    [None] in a menu is a menu that could not be shown. *)
Inductive TrayMessage : Type :=
| TrayTaskbarCreated
| TraySelect
| TrayMenu (chosen : option Z)
| TrayOther.

Definition window_proc (queue : list Command) (m : TrayMessage) : list Command :=
  match m with
  | TraySelect => tray_send queue (CmdShow Receivers)
  | TrayMenu (Some id) => match menu_command id with Some c => tray_send queue c | None => queue end
  | TrayTaskbarCreated | TrayMenu None | TrayOther => queue
  end.

(** ** The windows *)

Inductive Clip : Type := ClipFingerprint | ClipPairing.

Section window.
Context {Sender : Type} `{MS : !Mpsc Sender ControlMessage}.
Context {FS : Type} `{HFS : !FileSystem FS} {Hcodec : LibraryCodec}.
Variable path : Path.
(** whether the server has a pairing address *)
Variable paired : bool.

Abbreviation Desk := (Desk (Sender := Sender) (FS := FS)).

(** [Dashboard] with the windows of the application: the calibration windows
    that exist, whether the main one is visible, and whether the application was
    told to quit. *)
Record Screen : Type := mkScreen {
  sc_desk : Desk;
  sc_handle : option nat;
  sc_windows : list nat;
  sc_next : nat;
  sc_dragging : option SliderKind;
  sc_visible : bool;
  sc_clipboard : option Clip;
  sc_queue : list Command;
  sc_quit : bool;
}.

Definition with_desk (w : Desk) (s : Screen) : Screen :=
  mkScreen w (sc_handle s) (sc_windows s) (sc_next s) (sc_dragging s) (sc_visible s) (sc_clipboard s) (sc_queue s) (sc_quit s).
Definition with_dragging (d : option SliderKind) (s : Screen) : Screen :=
  mkScreen (sc_desk s) (sc_handle s) (sc_windows s) (sc_next s) d (sc_visible s) (sc_clipboard s) (sc_queue s) (sc_quit s).
Definition with_visible (v : bool) (s : Screen) : Screen :=
  mkScreen (sc_desk s) (sc_handle s) (sc_windows s) (sc_next s) (sc_dragging s) v (sc_clipboard s) (sc_queue s) (sc_quit s).
Definition with_clipboard (c : Clip) (s : Screen) : Screen :=
  mkScreen (sc_desk s) (sc_handle s) (sc_windows s) (sc_next s) (sc_dragging s) (sc_visible s) (Some c) (sc_queue s) (sc_quit s).
Definition with_queue (q : list Command) (s : Screen) : Screen :=
  mkScreen (sc_desk s) (sc_handle s) (sc_windows s) (sc_next s) (sc_dragging s) (sc_visible s) (sc_clipboard s) q (sc_quit s).
Definition quit (s : Screen) : Screen :=
  mkScreen (sc_desk s) (sc_handle s) (sc_windows s) (sc_next s) (sc_dragging s) (sc_visible s) (sc_clipboard s) (sc_queue s) true.
(** A new window whose handle the dashboard keeps. *)
Definition opened (s : Screen) : Screen :=
  mkScreen (sc_desk s) (Some (sc_next s)) (sc_windows s ++ [sc_next s]) (S (sc_next s))
    (sc_dragging s) (sc_visible s) (sc_clipboard s) (sc_queue s) (sc_quit s).
(** [calibration_window = None] and the end of window [id]. *)
Definition closed (id : nat) (s : Screen) : Screen :=
  mkScreen (sc_desk s) None (filter (fun i => i <> id) (sc_windows s)) (sc_next s)
    (sc_dragging s) (sc_visible s) (sc_clipboard s) (sc_queue s) (sc_quit s).

(** A call of the controller. *)
Definition on_desk {A} (m : Pan A) (s : Screen) : option (Screen * option A) :=
  '(w, r) ← m (sc_desk s);
  Some (with_desk w s, match r with Ok a => Some a | Err _ => None end).
Definition run_command (c : Command) (s : Screen) : option Screen :=
  '(s, _) ← on_desk (command path c) s; Some s.
(** [controller.view().editing]. *)
Definition still_editing (s : Screen) : option (Screen * bool) :=
  '(s, v) ← on_desk (look_view path) s;
  Some (s, match v with Some v => vv_editing v | None => false end).
Definition set_screen_notice (n : Notice) (s : Screen) : Screen :=
  with_desk (with_panel (set_notice n (dk_panel (sc_desk s))) (sc_desk s)) s.

(** [open_calibration]; [opens] says whether the system gives a window when the
    deferred part runs. *)
Definition open_calibration_window (opens : bool) (s : Screen) : option Screen :=
  if match sc_handle s with Some id => bool_decide (id ∈ sc_windows s) | None => false end then Some s
  else
    s ← run_command CmdOpenCalibration s;
    '(s, editing) ← still_editing s;
    if negb editing then Some s
    else if opens then Some (opened s)
    else
      s ← run_command CmdCloseCalibration s;
      Some (set_screen_notice NoticeNoWindow s).

(** [dispatch], called in window [origin] ([None]: the main one); [confirmed] is
    the answer to the question before a measurement. *)
Definition dispatch (origin : option nat) (opens confirmed : bool) (c : Command) (s : Screen) : option Screen :=
  match c with
  | CmdCopyFingerprint => run_command c (with_clipboard ClipFingerprint s)
  | CmdCopyPairing => run_command c (if paired then with_clipboard ClipPairing s else s)
  | CmdOpenCalibration => open_calibration_window opens s
  | CmdCloseCalibration =>
      s ← run_command c s;
      '(s, editing) ← still_editing s;
      if editing : bool then Some s
      else Some (match origin with
                 | Some id => closed id s
                 | None => with_visible false (closed (sc_next s) s)
                 end)
  | CmdCalibrate => if confirmed then run_command c s else Some s
  | CmdShow _ => run_command c (with_dragging None s)
  | _ => run_command c s
  end.

(** The polling task, every 100 ms. *)
Fixpoint dispatch_all (cs : list Command) (s : Screen) : option Screen :=
  match cs with
  | [] => Some s
  | c :: cs' =>
      let s := match c with CmdShow _ => with_visible true s | _ => s end in
      s ← dispatch None true true c s;
      dispatch_all cs' s
  end.

Definition poll (s : Screen) : option Screen :=
  let cs := take POLL_LIMIT (sc_queue s) in
  s ← dispatch_all cs (with_queue (drop POLL_LIMIT (sc_queue s)) s);
  '(s, _) ← on_desk (refresh path) s;
  '(s, stop) ← on_desk (steer path (fun _ k => (k, ct_shutdown (cc_tokens k)))) s;
  if default false stop
  then
    '(s, _) ← on_desk (steer path (fun _ k => (cancel k, tt))) s;
    Some (quit s)
  else Some s.

(** The close button in the title of calibration window [id]. *)
Definition close_requested (id : nat) (s : Screen) : option Screen :=
  '(s, measuring) ← on_desk (calibrating path) s;
  if default false measuring
  then
    '(s, _) ← on_desk (steer path (fun _ k => (cancel k, tt))) s;
    Some (set_screen_notice NoticeCancelling s)
  else
    s ← run_command CmdCloseCalibration s;
    '(s, editing) ← still_editing s;
    if editing : bool then Some s else Some (closed id s).

(** ** Events *)

Inductive screen_event : Type :=
| EvTray (m : TrayMessage)
| EvPoll
(** a button or key, in the main window or a calibration window *)
| EvClick (origin : option nat) (opens confirmed : bool) (c : Command)
(** a slider under the pointer: the button goes down, the pointer moves with the
    button down or up *)
| EvSliderDown (origin : option nat) (kind : SliderKind) (index : Z)
| EvSliderMove (origin : option nat) (kind : SliderKind) (pressed : bool) (index : Z)
| EvMouseUp
| EvCloseMain
| EvCloseCalibration (id : nat).

Definition from_live (origin : option nat) (s : Screen) : bool :=
  match origin with Some id => bool_decide (id ∈ sc_windows s) | None => true end.

Definition screen_step (s : Screen) (ev : screen_event) : option Screen :=
  if sc_quit s then Some s
  else
    match ev with
    | EvTray m => Some (with_queue (window_proc (sc_queue s) m) s)
    | EvPoll => poll s
    | EvClick origin opens confirmed c =>
        if from_live origin s then dispatch origin opens confirmed c s else Some s
    | EvSliderDown origin kind index =>
        if from_live origin s
        then dispatch origin true true (slider_command kind index) (with_dragging (Some kind) s) else Some s
    | EvSliderMove origin kind pressed index =>
        if from_live origin s
        then
          let s := if pressed then s else with_dragging None s in
          if bool_decide (sc_dragging s = Some kind) then dispatch origin true true (slider_command kind index) s
          else Some s
        else Some s
    | EvMouseUp => Some (with_dragging None s)
    | EvCloseMain => Some (with_visible false s)
    | EvCloseCalibration id => if bool_decide (id ∈ sc_windows s) then close_requested id s else Some s
    end.

Fixpoint screen_run (s : Screen) (evs : list screen_event) : option Screen :=
  match evs with [] => Some s | ev :: evs' => s ← screen_step s ev; screen_run s evs' end.

(** [Dashboard::new], after the controller's first refresh. *)
Definition screen_start (w : Desk) : option Screen :=
  '(w, _) ← refresh path w;
  Some (mkScreen w None [] 0 None true None [] false).

(** ** The end of the program

    [ui::run] after the application quit: the server is told to stop and the
    library is saved if it must be. *)
Definition after_windows (s : Screen) : option (Screen * result VolumeError unit) :=
  '(s, _) ← on_desk (steer path (fun _ k => (controller_step k EvShutdown, tt))) s;
  w ← others path (sc_desk s);
  let '(st, d, r) := VolumeControl.finish (sy_state (dk_system w)) (sy_disk (dk_system w)) path in
  Some (with_desk (with_system (mkSystem st (sy_registry (dk_system w)) d (sy_gate (dk_system w))) w) s, r).
End window.
