(* ===== verification/WindowSafety.v ===== *)
(** * WindowSafety: the calibration window and the end of the program

    Theorems on [Window].  What the panel's commands keep is collected in two
    conditions of a desk: the calibration window's session is open, or it is
    closed and nothing of it is left. *)

From Stdlib Require Import ZArith Lia.
From S2P Require Import Prelude BTree Wire Text Storage Registry Profiles Gate VolumeControl Loudness Calibration CalibrationControl Panel PanelSafety PanelSessions PanelTray Slider View Editor Window.

Section safety.
Context {Sender : Type} `{MS : !Mpsc Sender ControlMessage}.
Context {FS : Type} `{HFS : !FileSystem FS} {Hcodec : LibraryCodec}.
Variable path : Path.

Abbreviation Desk := (Desk (Sender := Sender) (FS := FS)).
Abbreviation Pan := (Pan (Sender := Sender) (FS := FS)).
Abbreviation system_op := (system_op (Sender := Sender)).
Implicit Types (w : Desk).

(** ** Postconditions *)

Definition post {A} (P : Desk -> Prop) (m : Pan A) (Q : result PanelError A -> Desk -> Prop) : Prop :=
  forall w w' r, P w -> m w = Some (w', r) -> Q r w'.
Definition leaves (P : Desk -> Prop) {A} (m : Pan A) : Prop := post P m (fun _ => P).

Lemma post_bind {A B} P (m : Pan A) (f : A -> Pan B) Q R :
  post P m Q -> (forall a, post (Q (Ok a)) (f a) R) -> (forall e w, Q (Err e) w -> R (Err e) w) -> post P (m ≫= f) R.
Proof.
  intros Hm Hf He w w' r Hw Hr. unfold mbind, pan_bind in Hr. destruct (m w) as [[w1 [a|e]]|] eqn:E; [| |done].
  - eapply Hf; [|exact Hr]. by eapply Hm.
  - injection Hr as <- <-. apply He. by eapply Hm.
Qed.
Lemma leaves_bind P {A B} (m : Pan A) (f : A -> Pan B) : leaves P m -> (forall a, leaves P (f a)) -> leaves P (m ≫= f).
Proof. intros Hm Hf. by eapply post_bind. Qed.
Lemma leaves_ret P {A} (a : A) : leaves P (mret a).
Proof. by intros w w' r Hw [= <- _]. Qed.
Lemma leaves_lift P {A} (r : result PanelError A) : leaves P (lift r).
Proof. by intros w w' r' Hw [= <- _]. Qed.
Lemma leaves_unwrap P {A} (o : option A) : leaves P (unwrap o).
Proof. intros w w' r Hw Hr. unfold unwrap in Hr. by destruct o; simplify_eq/=. Qed.
Lemma leaves_panel P : leaves P panel.
Proof. by intros w w' r Hw [= <- _]. Qed.
Lemma leaves_attempt P {A} (m : Pan A) : leaves P m -> leaves P (attempt m).
Proof.
  intros Hm w w' r Hw Hr. unfold attempt in Hr. destruct (m w) as [[w1 r1]|] eqn:E; simplify_eq/=. by eapply Hm.
Qed.
Lemma leaves_for_each P {A} (f : A -> Pan unit) l : (forall x, leaves P (f x)) -> leaves P (for_each f l).
Proof. intros Hf. induction l; [apply leaves_ret|]. by apply leaves_bind. Qed.

(** ** The two conditions *)

Record sound w : Prop := {
  sd_schedule n : background (dk_schedule w n);
  sd_system : system_ok (dk_system w);
  sd_controller : controller_wf (dk_calibration w);
}.

Definition at_rest w : Prop := cs_running (cc_state (dk_calibration w)) = false /\ cs_result (cc_state (dk_calibration w)) = None.

(** [session true]: the session is open.  [session false]: it is closed, no
    measurement or its result is left and every request is settled. *)
Definition session (open : bool) w : Prop :=
  sound w /\ editing w = open /\ (open = false -> at_rest w /\ settled (dk_panel w) = true).

Lemma at_rest_run evs (k : Controller) :
  Forall background_event evs -> controller_wf k ->
  cs_running (cc_state k) = false -> cs_result (cc_state k) = None ->
  cs_running (cc_state (controller_run k evs)) = false /\ cs_result (cc_state (controller_run k evs)) = None.
Proof.
  revert k. induction evs as [|ev evs IH]; intros k Hevs Hwf Hr Hn; [done|].
  apply Forall_cons in Hevs as [Hev Hevs]. apply (IH (controller_step k ev)); [done|by apply controller_step_wf|..];
    pose proof (kw_thread k Hwf) as Ht; rewrite Hr in Ht;
    destruct ev; try done; simpl; try (by rewrite Ht); unfold finish; by rewrite Ht.
Qed.

Lemma others_sound w w' : sound w -> others path w = Some w' ->
  sound w' /\ editing w' = editing w /\ dk_panel w' = dk_panel w /\ (at_rest w -> at_rest w').
Proof.
  intros [H1 H2 H3] Ho. unfold others in Ho. destruct (H1 (dk_turn w)) as [Hops Hevs].
  destruct (system_run path (dk_system w) (tn_server (dk_schedule w (dk_turn w)))) as [y|] eqn:Hy; [|done].
  injection Ho as <-. cbn.
  destruct (system_run_spec path (tn_server (dk_schedule w (dk_turn w))) (dk_system w) H2) as (y' & Hy' & Hok & _).
  { eapply Forall_impl; [exact Hops|]. intros op Hop. by apply background_allowed. }
  assert (y' = y) as -> by congruence. split; [split; cbn; [done|done|by apply controller_run_wf]|].
  split; [|split; [done|]].
  - unfold editing. cbn. by eapply system_run_editing.
  - intros [Hr Hn]. by apply at_rest_run.
Qed.

Lemma leaves_others open {A} (f : Desk -> option (Desk * result PanelError A)) Q :
  post (session open) f Q -> post (session open) (fun w => w ← others path w; f w) Q.
Proof.
  intros Hf w w' r (Hs & He & Hrest) Hr. destruct (others path w) as [w1|] eqn:E; [|done]. simpl in Hr.
  destruct (others_sound _ _ Hs E) as (Hs1 & He1 & Hp1 & Hr1). eapply Hf; [|exact Hr]. split; [done|].
  split; [congruence|]. intros Ho. rewrite Hp1. destruct (Hrest Ho). auto.
Qed.

Lemma leaves_look open {A} (f : System -> A) : leaves (session open) (look path f).
Proof. apply leaves_others. by intros w w' r Hw [= <- _]. Qed.
Lemma post_look open {A} (f : System -> A) :
  post (session open) (look path f) (fun r w => r = Ok (f (dk_system w)) /\ session open w).
Proof. apply leaves_others. by intros w w' r Hw [= <- <-]. Qed.
Lemma leaves_clock open : leaves (session open) (clock path).
Proof. apply leaves_others. by intros w w' r Hw [= <- _]. Qed.
Lemma leaves_act open {A} (op : Z -> system_op) (answer : Z -> System -> A) :
  (forall now, op_allowed (op now) /\ keeps_window (op now)) -> leaves (session open) (act path op answer).
Proof.
  intros Hop. apply leaves_others. intros w w' r ([H1 H2 H3] & He & Hrest) Hr.
  destruct (Hop (dk_now w)) as [Ha Hk]. destruct (system_step_spec path _ _ H2 Ha) as (y & Hy & Hok & _).
  rewrite Hy in Hr. injection Hr as <- <-. split; [by split|]. split; [|done].
  unfold editing in *. cbn. rewrite <- He. by eapply system_step_editing.
Qed.
Lemma leaves_steer open {A} (f : bool -> Controller -> Controller * A) :
  (forall b k, controller_wf k -> controller_wf (f b k).1 /\
     (open = false -> cs_running (cc_state k) = false -> cs_result (cc_state k) = None ->
      cs_running (cc_state (f b k).1) = false /\ cs_result (cc_state (f b k).1) = None)) ->
  leaves (session open) (steer path f).
Proof.
  intros Hf. apply leaves_others. intros w w' r ([H1 H2 H3] & He & Hrest) Hr.
  destruct (Hf (tn_spawns (dk_schedule w (dk_turn w))) (dk_calibration w) H3) as [Hwf Hn].
  unfold steer in Hr. destruct (f _ (dk_calibration w)) as [k a]. injection Hr as <- <-.
  split; [by split|]. split; [done|]. intros Ho. destruct (Hrest Ho) as [[Hr Hres] Hs]. split; [by apply Hn|done].
Qed.
Lemma leaves_update open (f : Panel -> Panel) :
  (open = false -> forall p, settled p = true -> settled (f p) = true) -> leaves (session open) (update f).
Proof.
  intros Hf w w' r (Hs & He & Hrest) [= <- <-]. split; [by destruct Hs|]. split; [done|]. intros Ho.
  destruct (Hrest Ho). split; [done|]. by apply Hf.
Qed.
Lemma leaves_jot open c : leaves (session open) (jot c).
Proof. intros w w' r (Hs & He & Hrest) [= <- <-]. split; [by destruct Hs|]. by split. Qed.
Lemma leaves_notify open n : leaves (session open) (notify n).
Proof. by apply leaves_update. Qed.

(** What is read is true. *)
Lemma leaves_view open {B} (f : VolumeView -> Pan B) :
  (forall v, vv_editing v = open -> leaves (session open) (f v)) -> leaves (session open) (v ← look_view path; f v).
Proof.
  intros Hf. eapply post_bind; [apply post_look| |by intros e w []].
  intros v w w' r [[= ->] Hw] Hr. eapply Hf; [|exact Hw|exact Hr]. cbn. apply Hw.
Qed.
Lemma leaves_read open {B} (f : Panel -> Pan B) :
  (forall p, (open = false -> settled p = true) -> leaves (session open) (f p)) -> leaves (session open) (p ← panel; f p).
Proof.
  intros Hf w w' r Hw Hr. unfold mbind, pan_bind, panel in Hr. eapply Hf; [|exact Hw|exact Hr].
  intros Ho. by apply Hw.
Qed.

Lemma settled_nil p : settled p = true -> pa_pending p = [] /\ pa_replies p = [].
Proof. unfold settled. rewrite andb_true_iff, !bool_decide_eq_true. done. Qed.

(** ** What every command keeps *)

Ltac leaves_step :=
  match goal with
  | |- leaves _ (v ← look_view _; _) => apply leaves_view; intros ? ?
  | |- leaves _ (p ← panel; _) => apply leaves_read; intros ? ?
  | |- leaves _ (_ ≫= _) => apply leaves_bind; [|intros ?]
  | |- leaves _ (for_each _ _) => apply leaves_for_each; intros ?
  | |- leaves _ (match ?x with _ => _ end) => destruct x
  | |- leaves _ (if ?x then _ else _) => destruct x
  | |- leaves _ (act _ _ _) => apply leaves_act; intros ?; split; done
  | |- leaves _ _ => first [apply leaves_ret | apply leaves_lift | apply leaves_unwrap | apply leaves_panel | apply leaves_look
      | apply leaves_clock | apply leaves_jot | apply leaves_notify | by apply leaves_update]
  end.
Ltac leaves_steps := repeat leaves_step.

Lemma leaves_take_result open : leaves (session open) (steer path (fun _ k => take_result k)).
Proof. apply leaves_steer. intros b k Hk. split; [by apply (controller_step_wf k EvTakeResult)|done]. Qed.
Lemma leaves_calibrating open : leaves (session open) (calibrating path).
Proof. by apply leaves_steer. Qed.
Lemma leaves_clear_message open : leaves (session open) (steer path (fun _ k => (clear_message k, tt))).
Proof. apply leaves_steer. intros b k Hk. split; [by apply (controller_step_wf k EvClearMessage)|done]. Qed.
Lemma leaves_cancel open : leaves (session open) (steer path (fun _ k => (cancel k, tt))).
Proof. apply leaves_steer. intros b k Hk. split; [by apply (controller_step_wf k EvCancel)|done]. Qed.
Lemma leaves_shutdown open : leaves (session open) (steer path (fun _ k => (controller_step k EvShutdown, tt))).
Proof. apply leaves_steer. intros b k Hk. split; [by apply (controller_step_wf k EvShutdown)|done]. Qed.
Lemma leaves_start : leaves (session true) (steer path start).
Proof. apply leaves_steer. intros b k Hk. split; [by apply (controller_step_wf k (EvStart b))|done]. Qed.

Lemma leaves_volume_call open (op : Z -> system_op) answer :
  (forall now, op_allowed (op now) /\ keeps_window (op now)) -> leaves (session open) (volume_call path op answer).
Proof. intros Hop. unfold volume_call. apply leaves_bind; [by apply leaves_act|]. intros r. apply leaves_lift. Qed.

Lemma leaves_preamble open : leaves (session open) (preamble path).
Proof.
  unfold preamble, adopt_result. apply leaves_bind; [apply leaves_calibrating|]. intros running. apply leaves_bind; [apply leaves_lift|].
  intros _. apply leaves_bind; [apply leaves_take_result|]. intros result. apply leaves_bind; [|intros _; apply leaves_clear_message].
  leaves_steps.
Qed.

(** The closed window has no request under way, so there is nothing to settle
    and nothing to send. *)
Lemma leaves_settle_one x : leaves (session true) (settle_one path x).
Proof. unfold settle_one, poll_reply, abandon, drop_reply. leaves_steps. Qed.
Lemma leaves_ready_changes open pending : leaves (session open) (ready_changes path pending).
Proof. induction pending as [|[id [index at_]] pending IH]; simpl; leaves_steps. exact IH. Qed.
Lemma leaves_send_change x : leaves (session true) (send_change path x).
Proof. unfold send_change, ask_begin, ask_volume. leaves_steps. Qed.

Lemma leaves_refresh open : leaves (session open) (refresh path).
Proof.
  unfold refresh, adopt_result. apply leaves_bind; [apply leaves_look|]. intros receivers.
  apply leaves_bind; [by apply leaves_update|]. intros _. apply leaves_bind; [apply leaves_take_result|]. intros result.
  apply leaves_bind; [leaves_steps|]. intros _. apply leaves_bind; [by apply leaves_update|]. intros _.
  apply leaves_read. intros p Hp. apply leaves_bind.
  { destruct open; [apply leaves_for_each, leaves_settle_one|]. destruct (settled_nil p (Hp eq_refl)) as [_ ->]. apply leaves_ret. }
  intros _. apply leaves_bind; [apply leaves_calibrating|]. intros [|]; [apply leaves_ret|].
  apply leaves_read. intros p' Hp'. destruct open.
  - apply leaves_bind; [apply leaves_ready_changes|]. intros ready. apply leaves_for_each, leaves_send_change.
  - destruct (settled_nil p' (Hp' eq_refl)) as [-> _]. simpl.
    by intros w w' r Hw [= <- _].
Qed.

Lemma leaves_device_volume open id index : leaves (session open) (device_volume path id index).
Proof.
  unfold device_volume, request_volume, my_device. apply leaves_view. intros v Hv.
  apply leaves_bind; [|intros _; apply leaves_notify]. rewrite Hv. destruct open; leaves_steps.
  by apply leaves_volume_call.
Qed.

Lemma leaves_calibrate open : leaves (session open) (calibrate_command path).
Proof.
  unfold calibrate_command. apply leaves_view. intros v ->. apply leaves_read. intros p _. destruct open; [|by intros w w' r Hw [= <- _]].
  unfold draft_or, my_receiver, tones_off, sessions_off, forget_sessions. repeat (leaves_step || apply leaves_start).
Qed.

Definition keeps_session (c : Command) : Prop :=
  match c with CmdOpenCalibration | CmdCloseCalibration => False | _ => True end.

Lemma leaves_perform open c : keeps_session c -> leaves (session open) (perform path c).
Proof.
  intros Hc. destruct c as [page| |steps| | |id|id index|index|pos|id|id|id|id| | | |id| |name copy| | | |]; try done;
    cbn [perform]; unfold toggle, choose_master, master_position, record_command, remove_command, preview,
      choose_profile, new_profile, save_profile, delete_profile, adjust_all, require_settled, my_device, my_receiver, draft_or,
      edit_call, request_volume, ask_status, tones_off, start_tone, ask_tone;
    try solve [repeat (leaves_step || (apply leaves_volume_call; intros ?; done))].
  - apply leaves_device_volume.
  - unfold master_point, draft_or, my_receiver. repeat (leaves_step || apply leaves_preamble || apply leaves_device_volume).
  - repeat (unfold tones_off || leaves_step).
  - repeat (unfold tones_off || leaves_step).
  - apply leaves_calibrate.
Qed.

Lemma leaves_execute open c : keeps_session c -> leaves (session open) (execute path c).
Proof.
  intros Hc. assert (leaves (session open) (_ ← preamble path; perform path c)) as Hmost.
  { apply leaves_bind; [apply leaves_preamble|]. intros _. by apply leaves_perform. }
  destruct c; try done; try exact Hmost; [apply leaves_cancel|apply leaves_shutdown].
Qed.

Lemma leaves_command open c : keeps_session c -> leaves (session open) (command path c).
Proof.
  intros Hc. unfold command. apply leaves_bind; [by apply leaves_attempt, leaves_execute|]. intros r. leaves_steps.
Qed.

(** ** Opening and closing *)

(** After the preamble no measurement runs and no result waits. *)
Definition resting open w : Prop := session open w /\ at_rest w.

Lemma post_others open {A} (f : Desk -> option (Desk * result PanelError A)) Q :
  post (resting open) f Q -> post (resting open) (fun w => w ← others path w; f w) Q.
Proof.
  intros Hf w w' r [Hw Hrest] Hr. destruct (others path w) as [w1|] eqn:E; [|done]. simpl in Hr.
  eapply Hf; [|exact Hr]. split.
  - eapply (leaves_others open (fun w => Some (w, Ok tt)) (fun _ => session open)); [|exact Hw|by rewrite E]. by intros ??? ? [= <- _].
  - destruct (others_sound _ _ (proj1 Hw) E) as (_ & _ & _ & H). auto.
Qed.

Lemma resting_leaves open {A} (m : Pan A) :
  leaves (session open) m -> (forall w w' r, resting open w -> m w = Some (w', r) -> at_rest w') -> leaves (resting open) m.
Proof. intros Hm Hr w w' r Hw Hm'. split; [eapply Hm; [apply Hw|done]|by eapply Hr]. Qed.

Lemma resting_act open {A} (op : Z -> system_op) (answer : Z -> System -> A) :
  (forall now, op_allowed (op now) /\ keeps_window (op now)) -> leaves (resting open) (act path op answer).
Proof.
  intros Hop. apply resting_leaves; [by apply leaves_act|]. refine (post_others open _ (fun _ => at_rest) _).
  intros w w' r [_ Hw] Hr. by destruct (system_step _ _ _); simplify_eq/=.
Qed.
Lemma resting_lift open {A} (r : result PanelError A) : leaves (resting open) (lift r).
Proof. apply leaves_lift. Qed.
Lemma resting_clear open : leaves (resting open) (steer path (fun _ k => (clear_message k, tt))).
Proof.
  apply resting_leaves; [apply leaves_clear_message|]. refine (post_others open _ (fun _ => at_rest) _).
  by intros w w' r [_ Hw] [= <- _].
Qed.

(** No measurement runs. *)
Definition unmeasured open w : Prop := session open w /\ measuring w = false.

Lemma post_calibrating open :
  post (session open) (calibrating path) (fun r w => match r with Ok running => session open w /\ measuring w = running | Err _ => session open w end).
Proof. apply leaves_others. intros w w' r Hw [= <- <-]. destruct w. split; [exact Hw|reflexivity]. Qed.

Lemma post_take_result open :
  post (unmeasured open) (steer path (fun _ k => take_result k)) (fun _ => resting open).
Proof.
  intros w w' r [Hw Hm] Hr. split; [eapply leaves_take_result; [exact Hw|exact Hr]|].
  destruct (others path w) as [w1|] eqn:E; unfold steer in Hr; rewrite E in Hr; [|done]. injection Hr as <- _.
  split; [|done]. cbn. unfold others in E. destruct (system_run _ _ _); [|done]. injection E as <-. cbn.
  destruct (cs_running (cc_state (controller_run _ _))) eqn:Er; [|done].
  apply background_run in Er; [unfold measuring in Hm; congruence|]. apply Hw.
Qed.

Lemma post_preamble open : post (session open) (preamble path) (fun r w => match r with Ok _ => resting open w | Err _ => session open w end).
Proof.
  unfold preamble, adopt_result. eapply post_bind; [apply post_calibrating| |done]. intros running.
  eapply (post_bind _ _ _ (fun r w => match r with Ok _ => unmeasured open w | Err _ => session open w end)); [|intros []|done].
  { intros w w' r [Hw Hm] [= <- <-]. destruct running; [done|]. by split. }
  eapply post_bind; [apply post_take_result| |by intros e w []]. intros result.
  eapply (post_bind _ _ _ (fun _ => resting open)); [|intros _|by intros e w []].
  - change (leaves (resting open) (match result with
      | Some profile => r ← act path (fun _ => SysSetDraft profile) (fun _ y => done (set_draft (sy_state y) profile)); lift (map_err PanVolume r)
      | None => mret tt end)).
    destruct result; [|apply leaves_ret]. apply leaves_bind; [by apply resting_act|]. intros r. apply leaves_lift.
  - intros w w' r Hw Hr. pose proof (resting_clear open _ _ _ Hw Hr) as H. destruct r; [done|apply H].
Qed.

(** A session that has just been opened: nothing was asked for in it. *)
Definition fresh w : Prop := resting true w /\ settled (dk_panel w) = true.

Lemma resting_settled w : resting false w -> settled (dk_panel w) = true.
Proof. intros [(_ & _ & H) _]. by apply H. Qed.

Lemma post_open_call :
  post (resting false) (volume_call path (fun _ => SysOpen) (fun _ y => done (open (sy_state y) (sy_registry y) (sy_gate y))))
    (fun r w => match r with Ok _ => fresh w | Err _ => session false w end).
Proof.
  unfold volume_call. eapply (post_bind _ _ _ (fun r w => match r with
    | Ok (Ok _) => fresh w | Ok (Err _) => session false w | Err _ => session false w end)); [|intros [?|?]; by intros w w' r Hw [= <- <-]|done].
  refine (post_others false _ _ _). intros w w' r [([H1 H2 H3] & He & Hrest) Hr] Hstep.
  destruct (system_step_spec path (dk_system w) SysOpen H2 I) as (y & Hy & Hok & _). rewrite Hy in Hstep. injection Hstep as <- <-.
  destruct (Hrest eq_refl) as [_ Hs]. destruct (dk_system w) as [s reg d gate] eqn:Ew. cbn [system_step sy_state sy_registry sy_gate] in *.
  unfold editing in He. rewrite Ew in He. cbn in He. unfold open in *. rewrite He in *. cbn in *.
  destruct (bool_decide (vs_pending s = [])); cbn in *; injection Hy as <-.
  - split; [|done]. split; [|done]. split; [by split|]. split; [done|done].
  - split; [by split|]. split; [done|done].
Qed.

Lemma leaves_fresh {A} (m : Pan A) : leaves (session true) m -> leaves (resting true) m -> stable m -> leaves fresh m.
Proof.
  intros H1 H2 H3 w w' r [Hw Hs] Hm. split; [by eapply H2|]. by destruct (H3 _ _ _ Hm) as [-> _].
Qed.

Lemma resting_look open {A} (f : System -> A) : leaves (resting open) (look path f).
Proof. refine (post_others open _ (fun _ => resting open) _). by intros w w' r Hw [= <- _]. Qed.

Lemma leaves_fresh_update (f : Panel -> Panel) :
  (forall p, settled p = true -> settled (f p) = true) -> leaves fresh (update f).
Proof.
  intros Hf w w' r [[Hw Hr] Hs] [= <- <-]. split; [|by apply Hf]. split; [|done].
  eapply leaves_update; [by intros|exact Hw|reflexivity].
Qed.

Lemma post_execute_open :
  post (session false) (execute path CmdOpenCalibration) (fun r w => match r with Ok _ => fresh w | Err _ => session false w end).
Proof.
  cbn [execute perform]. eapply post_bind; [apply post_preamble| |done]. intros []. unfold open_calibration.
  eapply post_bind; [apply post_open_call| |done]. intros [].
  assert (leaves fresh (v ← look_view path; _ ← update (set_point (draft_volume v)); notify NoNotice)) as H.
  { apply leaves_bind; [apply leaves_fresh; [apply leaves_look|apply resting_look|apply stable_look]|]. intros v.
    apply leaves_bind; [by apply leaves_fresh_update|]. intros _. by apply leaves_fresh_update. }
  intros w w' r Hw Hm. destruct r as [a|e]; [by eapply H|].
  destruct (succeeds_bind (look_view path) (fun v => _ ← update (set_point (draft_volume v)); notify NoNotice)
    (succeeds_look path _) (fun v => succeeds_bind _ _ (succeeds_update _) (fun _ => succeeds_update _)) _ _ _ Hm) as [? [=]].
Qed.

(** Closing. *)
Lemma post_settled_close :
  post (fun w => resting true w /\ settled (dk_panel w) = true)
    (_ ← act path SysClose (fun _ _ => tt); _ ← forget_sessions; notify NoNotice) (fun r w => r = Ok tt /\ session false w).
Proof.
  eapply (post_bind _ _ _ (fun r w => r = Ok tt /\ session false w)); [|intros []|by intros e w []].
  - intros w w' r [Hw Hs] Hr.
    eapply (post_others true _ (fun r w => settled (dk_panel w) = true -> r = Ok tt /\ session false w)); [|exact Hw|exact Hr|].
    + clear. intros w w' r [([H1 H2 H3] & He & Hrest) Hr] Hstep.
      destruct (system_step_spec path (dk_system w) (SysClose (dk_now w)) H2 I) as (y & Hy & Hok & _).
      rewrite Hy in Hstep. injection Hstep as <- <-. intros Hs. split; [done|].
      split; [by split|]. split; [|done]. unfold editing. cbn. destruct (dk_system w) as [s reg d gate]. cbn in Hy.
      unfold close in Hy. destruct (foldl _ _ _) as [s' reg']. by injection Hy as <-.
    + by destruct (stable_act path SysClose (fun _ _ => tt) _ _ _ Hr) as [-> _].
  - intros w w' r [_ Hw] Hr.
    assert (leaves (session false) (_ ← forget_sessions; notify NoNotice)) as H by (unfold forget_sessions; leaves_steps).
    split; [|by eapply H]. unfold forget_sessions, mbind, pan_bind, jot, update, notify in Hr. cbn in Hr. by injection Hr as _ <-.
Qed.

Lemma post_execute_close :
  post (session true) (execute path CmdCloseCalibration) (fun r w => match r with Ok _ => session false w | Err _ => session true w end).
Proof.
  cbn [execute perform]. eapply post_bind; [apply post_preamble| |done]. intros []. unfold close_calibration, require_settled.
  intros w w' r Hw Hr. unfold mbind at 1, pan_bind at 1 in Hr. unfold mbind at 1, pan_bind at 1 in Hr. simpl in Hr.
  destruct (settled (dk_panel w)) eqn:Hs; simpl in Hr.
  - destruct (post_settled_close w w' r) as [-> ?]; done.
  - injection Hr as <- <-. apply Hw.
Qed.

(** Right after opening, closing succeeds. *)
Lemma post_fresh_preamble : post fresh (preamble path) (fun r w => r = Ok tt /\ fresh w).
Proof.
  intros w w' r [Hw Hs] Hr. assert (r = Ok tt) as ->.
  { clear Hs. revert w w' r Hw Hr. change (post (resting true) (preamble path) (fun r _ => r = Ok tt)).
    unfold preamble. eapply (post_bind _ _ _ (fun r w => r = Ok false /\ resting true w)); [|intros running|by intros e w []].
    { unfold calibrating. apply post_others. intros w w' r [Hw Hr] [= <- <-]. destruct w. destruct Hr as [Hr Hn].
      split; [cbn in *; by rewrite Hr|by split]. }
    eapply (post_bind _ _ _ (fun r w => r = Ok tt /\ resting true w)); [|intros []|by intros e w []].
    { by intros w w' r [[= ->] Hw] [= <- <-]. }
    eapply (post_bind _ _ _ (fun r w => r = Ok None /\ resting true w)); [|intros result|by intros e w []].
    { intros w w' r [_ Hw]. revert w w' r Hw.
      refine (post_others true _ (fun r w => r = Ok None /\ resting true w) _). intros w w' r [([H1 H2 H3] & He & Hrest) Hr] [= <- <-].
      split; [by rewrite (proj2 Hr)|]. split; [|by split; [apply Hr|]]. split; [|by split].
      split; [done|done|]. by apply (controller_step_wf _ EvTakeResult). }
    eapply (post_bind _ _ _ (fun r w => r = Ok tt /\ resting true w)); [|intros []|by intros e w []].
    { by intros w w' r [[= ->] Hw] [= <- <-]. }
    intros w w' r _ Hr. by destruct (succeeds_steer path _ _ _ _ Hr) as [[] ->]. }
  split; [done|]. destruct (post_preamble true w w' _ (proj1 Hw) Hr) as [H1 H2]. split; [by split|].
  by destruct (stable_preamble path _ _ _ Hr) as [-> _].
Qed.

Lemma post_fresh_close : post fresh (execute path CmdCloseCalibration) (fun r w => r = Ok tt /\ session false w).
Proof.
  cbn [execute perform]. eapply post_bind; [apply post_fresh_preamble| |by intros e w []]. intros []. unfold close_calibration, require_settled.
  intros w w' r [_ [Hw Hs]] Hr. unfold mbind at 1, pan_bind at 1 in Hr. unfold mbind at 1, pan_bind at 1 in Hr. simpl in Hr.
  rewrite Hs in Hr. simpl in Hr. eapply post_settled_close; [|exact Hr]. done.
Qed.

Lemma post_command c P (Q : bool -> Desk -> Prop) :
  (forall b n, leaves (Q b) (notify n)) -> post P (execute path c) (fun r w => Q (is_ok r) w) ->
  post P (command path c) (fun _ w => exists b, Q b w).
Proof.
  intros Hn He w w' r Hw Hr. unfold command, mbind, pan_bind, attempt in Hr.
  destruct (execute path c w) as [[w1 r1]|] eqn:E; [|done]. cbn in Hr. pose proof (He _ _ _ Hw E) as HQ.
  destruct r1 as [a|e]; cbn in Hr, HQ.
  - injection Hr as <- _. by exists true.
  - exists false. by eapply (Hn false).
Qed.

Lemma post_command_open : post (session false) (command path CmdOpenCalibration) (fun _ w => fresh w \/ session false w).
Proof.
  pose proof (post_command CmdOpenCalibration (session false) (fun b => if b then fresh else session false)) as H.
  intros w w' r Hw Hr. destruct (H) with (4 := Hr) as [[] ?]; [| |done|by left|by right].
  - intros [] n; [by apply leaves_fresh_update|apply leaves_notify].
  - intros w1 w2 r' Hw1 Hr1. pose proof (post_execute_open _ _ _ Hw1 Hr1). by destruct r'.
Qed.
Lemma post_command_close : post (session true) (command path CmdCloseCalibration) (fun _ w => exists b, session b w).
Proof.
  pose proof (post_command CmdCloseCalibration (session true) (fun b => session (negb b))) as H.
  intros w w' r Hw Hr. destruct (H) with (4 := Hr) as [b ?]; [| |done|by exists (negb b)].
  - intros b n. apply leaves_notify.
  - intros w1 w2 r' Hw1 Hr1. pose proof (post_execute_close _ _ _ Hw1 Hr1). by destruct r'.
Qed.
Lemma post_command_fresh_close : post fresh (command path CmdCloseCalibration) (fun _ w => session false w).
Proof.
  pose proof (post_command CmdCloseCalibration fresh (fun b w => b = true /\ session false w)) as H.
  intros w w' r Hw Hr. destruct (H) with (4 := Hr) as (b & ? & ?); [| |done|done].
  - intros b n w1 w2 r' [Hb Hw1] Hr1. split; [done|]. by eapply leaves_notify.
  - intros w1 w2 r' Hw1 Hr1. by destruct (post_fresh_close _ _ _ Hw1 Hr1) as [-> ?].
Qed.

(** ** The windows *)

Variable paired : bool.
Implicit Types (s : Screen (Sender := Sender) (FS := FS)).

Definition is_open (h : option nat) : bool := bool_decide (is_Some h).

Record windows_ok s : Prop := {
  wo_desk : desk_ok (sc_desk s);
  wo_session : session (is_open (sc_handle s)) (sc_desk s);
  wo_windows : sc_windows s = match sc_handle s with Some id => [id] | None => [] end;
}.

(** A call that the safety theorems know to return. *)
Lemma on_desk_spec {A} (m : Pan A) P (Q : result PanelError A -> Desk -> Prop) s :
  desk_ok (sc_desk s) -> keeps (knows Any) m -> P (sc_desk s) -> post P m Q ->
  exists w' (r : result PanelError A), on_desk m s = Some (with_desk w' s, match r with Ok a => Some a | Err _ => None end) /\ desk_ok w' /\ Q r w'.
Proof.
  intros Hok Hk HP HQ. destruct (Hk (sc_desk s)) as (w' & r & Hr & [Hok' _]); [by split|].
  exists w', r. unfold on_desk. rewrite Hr. split; [done|]. split; [done|by eapply HQ].
Qed.

Lemma windows_ok_desk s w : windows_ok s -> desk_ok w -> session (is_open (sc_handle s)) w -> windows_ok (with_desk w s).
Proof. by intros [H1 H2 H3] Hw Hs. Qed.
Lemma windows_ok_frame s s' :
  windows_ok s -> sc_desk s' = sc_desk s -> sc_handle s' = sc_handle s -> sc_windows s' = sc_windows s -> windows_ok s'.
Proof. intros [H1 H2 H3] E1 E2 E3. split; by rewrite ?E1, ?E2, ?E3. Qed.

Lemma keeps_command c : keeps (knows Any) (command path c).
Proof. apply (keeps_panel_step path (PanCommand c)). Qed.

(** A call that keeps the session. *)
Lemma quiet_call {A} (m : Pan A) s :
  windows_ok s -> keeps (knows Any) m -> leaves (session (is_open (sc_handle s))) m ->
  exists w' (r : result PanelError A), on_desk m s = Some (with_desk w' s, match r with Ok a => Some a | Err _ => None end) /\ windows_ok (with_desk w' s).
Proof.
  intros Hs Hk Hm. destruct (on_desk_spec m _ _ s (wo_desk s Hs) Hk (wo_session s Hs) Hm) as (w' & r & Hr & Hok & HQ).
  exists w', r. split; [done|]. by apply windows_ok_desk.
Qed.

Lemma run_command_spec c P Q s :
  desk_ok (sc_desk s) -> P (sc_desk s) -> post P (command path c) (fun _ => Q) ->
  exists w', run_command path c s = Some (with_desk w' s) /\ desk_ok w' /\ Q w'.
Proof.
  intros Hok HP HQ. destruct (on_desk_spec _ P _ s Hok (keeps_command c) HP HQ) as (w' & r & Hr & Hok' & Hq).
  exists w'. unfold run_command. rewrite Hr. done.
Qed.

Lemma plain_command c s :
  windows_ok s -> keeps_session c -> exists s', run_command path c s = Some s' /\ windows_ok s'.
Proof.
  intros Hs Hc. destruct (run_command_spec c _ _ s (wo_desk s Hs) (wo_session s Hs) (leaves_command _ c Hc)) as (w' & -> & Hok & Hw').
  eexists. split; [done|]. by apply windows_ok_desk.
Qed.

Lemma still_editing_spec s b (Q : Desk -> Prop) :
  desk_ok (sc_desk s) -> session b (sc_desk s) -> Q (sc_desk s) -> leaves Q (look_view path) ->
  exists w', still_editing path s = Some (with_desk w' s, b) /\ desk_ok w' /\ session b w' /\ Q w'.
Proof.
  intros Hok Hs HQ Hl.
  destruct (on_desk_spec (look_view path) (fun w => session b w /\ Q w)
    (fun r w => (exists v, r = Ok v /\ vv_editing v = b) /\ session b w /\ Q w) s Hok (keeps_look_view path Any)) as (w' & r & Hr & Hok' & (v & -> & Hv) & Hs' & HQ').
  - done.
  - intros w w' r [Hw Hq] Hr. destruct (post_look b _ _ _ _ Hw Hr) as [-> Hw'].
    split; [eexists; split; [reflexivity|]; apply Hw'|]. split; [done|]. by eapply Hl.
  - exists w'. unfold still_editing. rewrite Hr. simpl. by rewrite Hv.
Qed.

Lemma leaves_any b : leaves (session b) (look_view path).
Proof. apply leaves_look. Qed.
Lemma leaves_fresh_view : leaves fresh (look_view path).
Proof. apply leaves_fresh; [apply leaves_look|apply resting_look|apply stable_look]. Qed.

Lemma set_notice_ok s n : windows_ok s -> windows_ok (set_screen_notice n s).
Proof.
  intros [[H1 H2 H3 H4 H5] (Hs & He & Hr) Hw]. split; [by split|split_and!|done]; [by destruct Hs|done|done].
Qed.

Lemma open_window_ok opens s : windows_ok s -> exists s', open_calibration_window path opens s = Some s' /\ windows_ok s'.
Proof.
  intros Hs. unfold open_calibration_window. pose proof Hs as [Hok Hsession Hw].
  destruct (sc_handle s) as [id|] eqn:Eh.
  { rewrite bool_decide_true; [by exists s|]. rewrite Hw. set_solver. }
  unfold is_open in Hsession. simpl in Hsession.
  destruct (run_command_spec CmdOpenCalibration _ _ s Hok Hsession post_command_open) as (w1 & -> & Hok1 & [Hfresh|Hshut]); simpl.
  - destruct (still_editing_spec (with_desk w1 s) true fresh) as (w2 & -> & Hok2 & Hs2 & Hf2); [done|apply Hfresh|done|apply leaves_fresh_view|].
    simpl. destruct opens.
    + eexists. split; [done|]. split; cbn; [done|done|]. by rewrite Hw.
    + destruct (run_command_spec CmdCloseCalibration _ _ (with_desk w2 (with_desk w1 s)) Hok2 Hf2 post_command_fresh_close) as (w3 & -> & Hok3 & Hs3).
      simpl. eexists. split; [done|]. apply set_notice_ok. split; cbn; rewrite ?Eh; done.
  - destruct (still_editing_spec (with_desk w1 s) false (session false)) as (w2 & -> & Hok2 & Hs2 & _); [done..|apply leaves_any|].
    simpl. eexists. split; [done|]. split; cbn; rewrite ?Eh; done.
Qed.

Lemma close_window_ok id s :
  windows_ok s -> sc_handle s = Some id ->
  exists s1, run_command path CmdCloseCalibration s = Some s1 /\
  exists s2 b, still_editing path s1 = Some (s2, b) /\ windows_ok (if b then s2 else closed id s2).
Proof.
  intros Hs Eh. pose proof Hs as [Hok Hsession Hw]. rewrite Eh in Hsession, Hw.
  destruct (run_command_spec CmdCloseCalibration _ _ s Hok Hsession post_command_close) as (w1 & -> & Hok1 & b & Hb).
  eexists. split; [done|].
  destruct (still_editing_spec (with_desk w1 s) b (session b)) as (w2 & -> & Hok2 & Hs2 & _); [done..|apply leaves_any|].
  exists (with_desk w2 (with_desk w1 s)), b. split; [done|]. destruct b; split; cbn; rewrite ?Eh; try done.
  rewrite Hw. simpl. rewrite filter_cons_False; [done|]. intros H. by apply H.
Qed.

(** ** Events *)

Definition closes (c : Command) : bool := match c with CmdCloseCalibration => true | _ => false end.

(** The queue of the tray and the end of the program are the event loop's own. *)
Definition same_loop s s' : Prop := sc_queue s' = sc_queue s /\ sc_quit s' = sc_quit s.

Lemma on_desk_frame {A} (m : Pan A) s s' a : on_desk m s = Some (s', a) -> exists w, s' = with_desk w s.
Proof. unfold on_desk. destruct (m (sc_desk s)) as [[w r]|]; simpl; intros [= <- <-]. by exists w. Qed.
Lemma run_command_frame c s s' : run_command path c s = Some s' -> same_loop s s'.
Proof.
  unfold run_command. intros ([s1 a] & E & [= <-])%bind_Some. by destruct (on_desk_frame _ _ _ _ E) as [w ->].
Qed.
Lemma still_editing_frame s s' b : still_editing path s = Some (s', b) -> same_loop s s'.
Proof.
  unfold still_editing. intros ([s1 a] & E & [= <- _])%bind_Some. by destruct (on_desk_frame _ _ _ _ E) as [w ->].
Qed.
Lemma same_loop_trans s1 s2 s3 : same_loop s1 s2 -> same_loop s2 s3 -> same_loop s1 s3.
Proof. unfold same_loop. intuition congruence. Qed.

Lemma open_window_frame opens s s' : open_calibration_window path opens s = Some s' -> same_loop s s'.
Proof.
  unfold open_calibration_window. destruct (match sc_handle s with Some _ => _ | None => _ end); [by intros [= <-]|].
  intros (s1 & E1%run_command_frame & ([s2 editing] & E2%still_editing_frame & H)%bind_Some)%bind_Some.
  pose proof (same_loop_trans _ _ _ E1 E2) as E. destruct editing; simpl in H; [|by simplify_eq].
  destruct opens; [by simplify_eq|]. apply bind_Some in H as (s3 & E3%run_command_frame & [= <-]).
  by eapply (same_loop_trans _ s2); [|exact E3].
Qed.

Lemma dispatch_ok origin opens confirmed c s :
  windows_ok s -> (closes c = true -> exists id, origin = Some id /\ sc_handle s = Some id) ->
  exists s', dispatch path paired origin opens confirmed c s = Some s' /\ windows_ok s' /\ same_loop s s'.
Proof.
  intros Hs Hc.
  assert (forall s0 c0, windows_ok s0 -> keeps_session c0 -> same_loop s s0 ->
    exists s', run_command path c0 s0 = Some s' /\ windows_ok s' /\ same_loop s s') as Hplain.
  { intros s0 c0 Hs0 Hk Hq. destruct (plain_command c0 s0 Hs0 Hk) as (s' & Hr & Hs'). exists s'. split_and!; try done.
    eapply same_loop_trans; [exact Hq|]. by eapply run_command_frame. }
  destruct c; cbn [dispatch]; try (apply Hplain; [by apply (windows_ok_frame s)|done|done]).
  - destruct (open_window_ok opens s Hs) as (s' & Hr & Hs'). exists s'. split; [done|]. split; [done|].
    by eapply open_window_frame.
  - destruct (Hc eq_refl) as (id & -> & Eh). destruct (close_window_ok id s Hs Eh) as (s1 & E1 & s2 & b & E2 & Hs2).
    rewrite E1. simpl. rewrite E2. simpl.
    assert (same_loop s s2) as Hl.
    { eapply same_loop_trans; [by eapply run_command_frame|by eapply still_editing_frame]. }
    destruct b; eexists; (split; [done|]); done.
  - destruct confirmed; [by apply Hplain|]. by exists s.
  - apply Hplain; [|done|by destruct paired]. destruct paired; by apply (windows_ok_frame s).
Qed.

Lemma dispatch_all_ok cs s :
  windows_ok s -> Forall (fun c => closes c = false) cs ->
  exists s', dispatch_all path paired cs s = Some s' /\ windows_ok s' /\ same_loop s s'.
Proof.
  revert s. induction cs as [|c cs IH]; intros s Hs Hcs; [by exists s|]. apply Forall_cons in Hcs as [Hc Hcs]. cbn [dispatch_all].
  set (s0 := match c with CmdShow _ => with_visible true s | _ => s end).
  assert (windows_ok s0 /\ same_loop s s0) as [Hs0 Hl0] by (unfold s0; destruct c; try done; split; [by apply (windows_ok_frame s)|done]).
  destruct (dispatch_ok None true true c s0 Hs0) as (s1 & -> & Hs1 & Hl1); [by rewrite Hc|]. simpl.
  destruct (IH s1 Hs1 Hcs) as (s2 & -> & Hs2 & Hl2). exists s2. split_and!; try done.
  eapply same_loop_trans; [exact Hl0|]. by eapply same_loop_trans.
Qed.

Definition queue_ok s : Prop := Forall (fun c => closes c = false) (sc_queue s).

Lemma keeps_cancel : keeps (knows Any) (steer path (fun _ k => (cancel k, tt))).
Proof. apply (keeps_execute path CmdCancel). Qed.
Lemma keeps_reading {A} (f : Controller -> A) : keeps (knows Any) (steer path (fun _ k => (k, f k))).
Proof. by apply keeps_steer. Qed.
Lemma leaves_reading open {A} (f : Controller -> A) : leaves (session open) (steer path (fun _ k => (k, f k))).
Proof. by apply leaves_steer. Qed.

Lemma poll_ok s : windows_ok s -> queue_ok s -> exists s', poll path paired s = Some s' /\ windows_ok s' /\ queue_ok s'.
Proof.
  intros Hs Hq. unfold poll.
  destruct (dispatch_all_ok (take POLL_LIMIT (sc_queue s)) (with_queue (drop POLL_LIMIT (sc_queue s)) s)) as (s1 & -> & Hs1 & Hl1).
  { by apply (windows_ok_frame s). } { by apply Forall_take. }
  simpl. assert (queue_ok s1) as Hq1 by (unfold queue_ok; rewrite (proj1 Hl1); by apply Forall_drop).
  destruct (quiet_call (refresh path) s1 Hs1 (keeps_refresh path Any) (leaves_refresh _)) as (w2 & r2 & -> & Hs2). simpl.
  destruct (quiet_call (steer path (fun _ k => (k, ct_shutdown (cc_tokens k)))) (with_desk w2 s1) Hs2 (keeps_reading _) (leaves_reading _ _))
    as (w3 & r3 & -> & Hs3). simpl.
  destruct (default false _).
  - destruct (quiet_call _ (with_desk w3 (with_desk w2 s1)) Hs3 keeps_cancel (leaves_cancel _)) as (w4 & r4 & -> & Hs4). simpl.
    eexists. split; [done|]. split; [by apply (windows_ok_frame _ _ Hs4)|done].
  - eexists. split; [done|]. by split.
Qed.

Lemma close_requested_ok id s :
  windows_ok s -> sc_handle s = Some id -> exists s', close_requested path id s = Some s' /\ windows_ok s' /\ same_loop s s'.
Proof.
  intros Hs Eh. unfold close_requested.
  destruct (quiet_call (calibrating path) s Hs (keeps_calibrating path Any) (leaves_calibrating _)) as (w1 & r1 & -> & Hs1). simpl.
  destruct (default false _).
  - destruct (quiet_call _ (with_desk w1 s) Hs1 keeps_cancel (leaves_cancel _)) as (w2 & r2 & -> & Hs2). simpl.
    eexists. split; [done|]. split; [by apply set_notice_ok|done].
  - destruct (close_window_ok id (with_desk w1 s) Hs1 Eh) as (s1 & E1 & s2 & b & E2 & Hs2). rewrite E1. simpl. rewrite E2. simpl.
    assert (same_loop s s2) as Hl.
    { eapply (same_loop_trans _ (with_desk w1 s)); [done|]. eapply same_loop_trans; [by eapply run_command_frame|by eapply still_editing_frame]. }
    destruct b; eexists; (split; [done|]); done.
Qed.

(** The main window has no button that closes the calibration. *)
Definition genuine (ev : screen_event) : Prop :=
  match ev with EvClick None _ _ c => closes c = false | _ => True end.

Lemma window_proc_ok queue m :
  Forall (fun c => closes c = false) queue -> Forall (fun c => closes c = false) (window_proc queue m).
Proof.
  intros Hq. assert (forall c, closes c = false -> Forall (fun c => closes c = false) (tray_send queue c)) as Hsend.
  { intros c Hc. unfold tray_send. destruct (_ <? _)%nat; [|done]. apply Forall_app. by repeat constructor. }
  destruct m as [| |[id|]|]; try done; [by apply Hsend|]. simpl. destruct (menu_command id) as [c|] eqn:E; [|done].
  apply Hsend. unfold menu_command in E. repeat case_match; by simplify_eq.
Qed.

Lemma closes_slider kind index : closes (slider_command kind index) = false.
Proof. by destruct kind. Qed.

Lemma screen_step_ok s ev :
  windows_ok s -> queue_ok s -> genuine ev -> exists s', screen_step path paired s ev = Some s' /\ windows_ok s' /\ queue_ok s'.
Proof.
  intros Hs Hq Hev. unfold screen_step. destruct (sc_quit s); [by exists s|].
  assert (forall id, id ∈ sc_windows s -> sc_handle s = Some id) as Hlive.
  { intros id Hid. rewrite (wo_windows s Hs) in Hid. destruct (sc_handle s); [|by apply not_elem_of_nil in Hid].
    by apply list_elem_of_singleton in Hid as ->. }
  assert (forall s', windows_ok s' /\ same_loop s s' -> windows_ok s' /\ queue_ok s') as Hdone.
  { intros s' [H1 [H2 _]]. split; [done|]. unfold queue_ok. by rewrite H2. }
  assert (forall s0 origin opens confirmed c, windows_ok s0 -> same_loop s s0 -> closes c = false ->
    exists s', dispatch path paired origin opens confirmed c s0 = Some s' /\ windows_ok s' /\ queue_ok s') as Hdispatch.
  { intros s0 origin opens confirmed c Hs0 Hl Hc. destruct (dispatch_ok origin opens confirmed c s0 Hs0) as (s' & Hr & Hs' & Hl'); [by rewrite Hc|].
    exists s'. split; [done|]. apply Hdone. split; [done|]. by eapply same_loop_trans. }
  destruct ev as [m| |origin opens confirmed c|origin kind index|origin kind pressed index| | |id].
  - eexists. split; [done|]. split; [by apply (windows_ok_frame s)|by apply window_proc_ok].
  - by apply poll_ok.
  - destruct (from_live origin s) eqn:El; [|by exists s].
    destruct (dispatch_ok origin opens confirmed c s Hs) as (s' & Hr & H); [|exists s'; split; [done|by apply Hdone]].
    intros Hc. destruct origin as [id|]; simpl in *; [|congruence]. exists id. split; [done|].
    apply Hlive. by apply bool_decide_eq_true in El.
  - destruct (from_live origin s); [|by exists s]. apply Hdispatch; [by apply (windows_ok_frame s)|done|apply closes_slider].
  - destruct (from_live origin s); [|by exists s]. set (s0 := if pressed then s else with_dragging None s).
    assert (windows_ok s0 /\ same_loop s s0) as [Hs0 Hl0] by (unfold s0; destruct pressed; [done|split; [by apply (windows_ok_frame s)|done]]).
    destruct (bool_decide _); [apply Hdispatch; [done|done|apply closes_slider]|]. exists s0. split; [done|by apply Hdone].
  - eexists. split; [done|]. by split; [apply (windows_ok_frame s)|].
  - eexists. split; [done|]. by split; [apply (windows_ok_frame s)|].
  - case_bool_decide as Hid; [|by exists s]. destruct (close_requested_ok id s Hs (Hlive id Hid)) as (s' & Hr & H).
    exists s'. split; [done|by apply Hdone].
Qed.

Lemma screen_run_ok evs s :
  windows_ok s -> queue_ok s -> Forall genuine evs -> exists s', screen_run path paired s evs = Some s' /\ windows_ok s' /\ queue_ok s'.
Proof.
  revert s. induction evs as [|ev evs IH]; intros s Hs Hq Hevs; [by exists s|]. apply Forall_cons in Hevs as [Hev Hevs].
  destruct (screen_step_ok s ev Hs Hq Hev) as (s1 & Hr & Hs1 & Hq1). simpl. rewrite Hr. simpl. by apply IH.
Qed.

Lemma start_ok d now schedule :
  (forall n, background (schedule n)) ->
  exists s, screen_start path (desk_start path d now schedule) = Some s /\ windows_ok s /\ sc_queue s = [] /\ sc_quit s = false.
Proof.
  intros Hsch. pose proof (desk_start_ok path d now schedule Hsch) as Hok.
  assert (session false (desk_start path d now schedule)) as Hsession.
  { destruct Hok as [[H1 H2 H3 _ _] _]. split; [by split|]. split; [|done].
    unfold editing, desk_start. cbn. unfold controller_new. by destruct (load _ _). }
  unfold screen_start. destruct (keeps_refresh path Any _ Hok) as (w & r & Hr & [Hok' _]). rewrite Hr. simpl.
  pose proof (leaves_refresh false _ _ _ Hsession Hr) as Hs'. eexists. split; [done|]. by split_and!.
Qed.

(** ** Shutdown *)

Definition stopping w : Prop := ct_shutdown (cc_tokens (dk_calibration w)) = true.

Lemma shutdown_step (k : Controller) ev : ct_shutdown (cc_tokens k) = true -> ct_shutdown (cc_tokens (controller_step k ev)) = true.
Proof.
  intros Hk. destruct ev as [spawns| | | | |m|outcome]; simpl; try done.
  - unfold start. destruct (cs_running _); [done|]. by destruct spawns.
  - by destruct (cc_thread k).
  - unfold finish. destruct (cc_thread k) as [t|]; [|done].
    by destruct (match outcome with Ok _ => _ | Err _ => _ end).
Qed.
Lemma shutdown_run evs k : ct_shutdown (cc_tokens k) = true -> ct_shutdown (cc_tokens (controller_run k evs)) = true.
Proof. revert k. induction evs as [|ev evs IH]; intros k Hk; [done|]. by apply (IH (controller_step k ev)), shutdown_step. Qed.

Lemma stopping_others {A} (f : Desk -> option (Desk * result PanelError A)) :
  leaves stopping f -> leaves stopping (fun w => w ← others path w; f w).
Proof.
  intros Hf w w' r Hw Hr. unfold others in Hr. destruct (system_run _ _ _) as [y|]; [|done].
  eapply Hf; [|exact Hr]. by apply shutdown_run.
Qed.
Lemma stopping_act {A} (op : Z -> system_op) (answer : Z -> System -> A) : leaves stopping (act path op answer).
Proof. apply stopping_others. intros w w' r Hw Hr. by destruct (system_step _ _ _); simplify_eq/=. Qed.
Lemma stopping_look {A} (f : System -> A) : leaves stopping (look path f).
Proof. apply stopping_others. by intros w w' r Hw [= <- _]. Qed.
Lemma stopping_clock : leaves stopping (clock path).
Proof. apply stopping_others. by intros w w' r Hw [= <- _]. Qed.
Lemma stopping_steer {A} (f : bool -> Controller -> Controller * A) :
  (forall b k, exists ev, cc_tokens (f b k).1 = cc_tokens (controller_step k ev)) -> leaves stopping (steer path f).
Proof.
  intros Hf. apply stopping_others. intros w w' r Hw Hr. destruct (Hf (tn_spawns (dk_schedule w (dk_turn w))) (dk_calibration w)) as [ev Hev].
  destruct (f _ (dk_calibration w)) as [k a]. injection Hr as <- _. unfold stopping. cbn in *. rewrite Hev. by apply shutdown_step.
Qed.
Lemma stopping_update f : leaves stopping (update f).
Proof. by intros w w' r Hw [= <- _]. Qed.
Lemma stopping_jot c : leaves stopping (jot c).
Proof. by intros w w' r Hw [= <- _]. Qed.

Ltac stopping_step :=
  match goal with
  | |- leaves _ (_ ≫= _) => apply leaves_bind; [|intros ?]
  | |- leaves _ (for_each _ _) => apply leaves_for_each; intros ?
  | |- leaves _ (attempt _) => apply leaves_attempt
  | |- leaves _ (match ?x with _ => _ end) => destruct x
  | |- leaves _ (if ?x then _ else _) => destruct x
  | |- leaves _ (steer _ (fun _ k => take_result k)) => apply stopping_steer; intros b k; by exists EvTakeResult
  | |- leaves _ (steer _ (fun _ k => (clear_message k, _))) => apply stopping_steer; intros b k; by exists EvClearMessage
  | |- leaves _ (steer _ (fun _ k => (cancel k, _))) => apply stopping_steer; intros b k; by exists EvCancel
  | |- leaves _ (steer _ start) => apply stopping_steer; intros b k; by exists (EvStart b)
  | |- leaves _ (steer _ (fun _ k => (controller_step k ?e, _))) => apply stopping_steer; intros b k; by exists e
  | |- leaves _ (steer _ (fun _ k => (k, _))) => apply stopping_steer; intros b k; by exists EvTakeResult
  | |- leaves _ _ => first [apply leaves_ret | apply leaves_lift | apply leaves_unwrap | apply leaves_panel | apply stopping_look
      | apply stopping_clock | apply stopping_jot | apply stopping_update | apply stopping_act]
  end.

Lemma stopping_preamble : leaves stopping (preamble path).
Proof. unfold preamble, calibrating, adopt_result. repeat stopping_step. Qed.
Lemma stopping_ready_changes pending : leaves stopping (ready_changes path pending).
Proof. induction pending as [|[id [index at_]] pending IH]; simpl; repeat stopping_step. exact IH. Qed.
Lemma stopping_refresh : leaves stopping (refresh path).
Proof.
  unfold refresh, adopt_result, settle_one, poll_reply, abandon, drop_reply, send_change, ask_begin, ask_volume, notify, calibrating.
  repeat stopping_step. apply stopping_ready_changes.
Qed.
Lemma stopping_device_volume id index : leaves stopping (device_volume path id index).
Proof. unfold device_volume, request_volume, my_device, volume_call, notify, look_view. repeat stopping_step. Qed.
Lemma stopping_command c : leaves stopping (command path c).
Proof.
  unfold command, notify. apply leaves_bind; [apply leaves_attempt|intros r; repeat stopping_step].
  assert (leaves stopping (perform path c)) as Hp.
  { destruct c; cbn [perform]; unfold toggle, open_calibration, close_calibration, choose_master, master_position, master_point, record_command,
      remove_command, preview, choose_profile, new_profile, save_profile, delete_profile, adjust_all, calibrate_command,
      start_tone, sessions_off, tones_off, forget_sessions, ask_tone, ask_status, edit_call, request_volume, volume_call, draft_or,
      my_receiver, my_device, require_settled, look_view, notify;
      repeat (stopping_step || apply stopping_preamble || apply stopping_device_volume). }
  assert (leaves stopping (_ ← preamble path; perform path c)) as Hmost.
  { apply leaves_bind; [apply stopping_preamble|]. by intros _. }
  destruct c; try exact Hmost; cbn [execute]; repeat stopping_step.
Qed.

Lemma exit_stops w w' r : command path CmdExit w = Some (w', r) -> stopping w'.
Proof.
  unfold command, attempt, mbind, pan_bind. cbn [execute].
  destruct (steer path (fun _ k => (controller_step k EvShutdown, tt)) w) as [[w1 r1]|] eqn:E; [|done]. cbn.
  assert (stopping w1) as Hs.
  { unfold steer in E. destruct (others path w) as [w2|]; [|done]. by injection E as <- _. }
  intros Hr. destruct r1; injection Hr as <- _; exact Hs.
Qed.

Lemma run_command_stopping c s s' :
  run_command path c s = Some s' -> stopping (sc_desk s) \/ c = CmdExit -> stopping (sc_desk s').
Proof.
  unfold run_command, on_desk. destruct (command path c (sc_desk s)) as [[w r]|] eqn:E; simpl; intros [= <-] [H| ->].
  - by eapply stopping_command.
  - by eapply exit_stops.
Qed.
Lemma still_editing_stopping s s' b : still_editing path s = Some (s', b) -> stopping (sc_desk s) -> stopping (sc_desk s').
Proof.
  unfold still_editing, on_desk, look_view. destruct (look path _ (sc_desk s)) as [[w r]|] eqn:E; simpl; intros [= <- _] H.
  by eapply stopping_look.
Qed.

Lemma dispatch_stopping origin opens confirmed c s s' :
  dispatch path paired origin opens confirmed c s = Some s' -> stopping (sc_desk s) \/ c = CmdExit -> stopping (sc_desk s').
Proof.
  intros Hr Hs.
  assert (forall s0 s1, sc_desk s0 = sc_desk s -> run_command path c s0 = Some s1 -> stopping (sc_desk s1)) as Hplain.
  { intros s0 s1 E H. eapply run_command_stopping; [exact H|]. by rewrite E. }
  destruct c; cbn [dispatch] in Hr; try (by eapply Hplain; [|exact Hr]).
  - destruct Hs as [Hs|]; [|done]. unfold open_calibration_window in Hr.
    destruct (match sc_handle s with Some _ => _ | None => _ end); [by simplify_eq|].
    apply bind_Some in Hr as (s1 & E1 & ([s2 e] & E2 & H)%bind_Some).
    apply run_command_stopping in E1; [|by left]. apply still_editing_stopping in E2; [|done].
    destruct e; simpl in H; [|by simplify_eq]. destruct opens; [by simplify_eq|].
    apply bind_Some in H as (s3 & E3 & [= <-]). apply run_command_stopping in E3; [done|by left].
  - destruct Hs as [Hs|]; [|done]. apply bind_Some in Hr as (s1 & E1 & ([s2 e] & E2 & H)%bind_Some).
    apply run_command_stopping in E1; [|by left]. apply still_editing_stopping in E2; [|done].
    destruct e; [by simplify_eq|]. by destruct origin; simplify_eq.
  - destruct confirmed; [by eapply Hplain|]. simplify_eq. by destruct Hs.
  - eapply Hplain; [|exact Hr]. by destruct paired.
Qed.

Lemma dispatch_all_stopping cs s s' :
  dispatch_all path paired cs s = Some s' -> stopping (sc_desk s) \/ CmdExit ∈ cs -> stopping (sc_desk s').
Proof.
  revert s. induction cs as [|c cs IH]; intros s Hr Hs; simpl in Hr.
  - simplify_eq. destruct Hs as [?|Hs]; [done|]. by apply not_elem_of_nil in Hs.
  - apply bind_Some in Hr as (s1 & E & Hr). eapply IH; [exact Hr|].
    assert (forall s0, sc_desk s0 = sc_desk s -> dispatch path paired None true true c s0 = Some s1 ->
      stopping (sc_desk s) \/ c = CmdExit -> stopping (sc_desk s1)) as Hd.
    { intros s0 E0 H0 H. eapply dispatch_stopping; [exact H0|]. by rewrite E0. }
    destruct Hs as [Hs|[Hs|Hs]%elem_of_cons]; [left|left|by right]; (eapply (Hd _ _ E); auto).
  Unshelve. all: by destruct c.
Qed.

(** ** Reachable screens *)

(** The queue holds no more than its bound, which one poll empties. *)
Record loop_ok s : Prop := {
  lo_windows : windows_ok s;
  lo_queue : queue_ok s;
  lo_bound : (length (sc_queue s) <= TRAY_QUEUE)%nat;
}.

Lemma window_proc_bound queue m : (length queue <= TRAY_QUEUE)%nat -> (length (window_proc queue m) <= TRAY_QUEUE)%nat.
Proof.
  intros Hq. assert (forall c, (length (tray_send queue c) <= TRAY_QUEUE)%nat) as Hsend.
  { intros c. unfold tray_send. destruct (Nat.ltb_spec (length queue) TRAY_QUEUE); [|done]. rewrite length_app. simpl. lia. }
  destruct m as [| |[id|]|]; try done; [apply Hsend|]. simpl. destruct (menu_command id); [apply Hsend|done].
Qed.

(** Every event leaves the queue alone but the tray's, which may add to it, and
    the poll, which empties it. *)
Lemma screen_step_queue s s' ev :
  loop_ok s -> genuine ev -> screen_step path paired s ev = Some s' -> (length (sc_queue s') <= TRAY_QUEUE)%nat.
Proof.
  intros [Hs Hq Hb] Hev Hr. unfold screen_step in Hr. destruct (sc_quit s); [by simplify_eq|].
  assert (forall s0 origin opens confirmed c, windows_ok s0 -> sc_queue s0 = sc_queue s ->
    (closes c = true -> exists id, origin = Some id /\ sc_handle s0 = Some id) ->
    dispatch path paired origin opens confirmed c s0 = Some s' -> (length (sc_queue s') <= TRAY_QUEUE)%nat) as Hd.
  { intros s0 origin opens confirmed c Hs0 E Hc H. destruct (dispatch_ok origin opens confirmed c s0 Hs0 Hc) as (s1 & H1 & _ & [Hl _]).
    assert (s' = s1) as -> by congruence. by rewrite Hl, E. }
  assert (forall id, id ∈ sc_windows s -> sc_handle s = Some id) as Hlive.
  { intros id Hid. rewrite (wo_windows s Hs) in Hid. destruct (sc_handle s); [|by apply not_elem_of_nil in Hid].
    by apply list_elem_of_singleton in Hid as ->. }
  destruct ev as [m| |origin opens confirmed c|origin kind index|origin kind pressed index| | |id].
  - injection Hr as <-. by apply window_proc_bound.
  - destruct (poll_ok s Hs Hq) as (s1 & H1 & _). unfold poll in Hr.
    apply bind_Some in Hr as (s2 & E2 & Hr). 
    assert (sc_queue s2 = []) as Eq.
    { destruct (dispatch_all_ok (take POLL_LIMIT (sc_queue s)) (with_queue (drop POLL_LIMIT (sc_queue s)) s)) as (s3 & E3 & _ & [Hl _]).
      - by apply (windows_ok_frame s).
      - by apply Forall_take.
      - assert (s3 = s2) as -> by congruence. rewrite Hl. cbn. apply drop_ge. unfold TRAY_QUEUE, POLL_LIMIT in *. lia. }
    apply bind_Some in Hr as ([s3 r3] & E3 & Hr). apply bind_Some in Hr as ([s4 r4] & E4 & Hr).
    apply on_desk_frame in E3 as [w3 ->]. apply on_desk_frame in E4 as [w4 ->].
    destruct (default false r4).
    + apply bind_Some in Hr as ([s5 r5] & E5 & [= <-]). apply on_desk_frame in E5 as [w5 ->]. cbn. rewrite Eq. simpl. lia.
    + injection Hr as <-. cbn. rewrite Eq. simpl. lia.
  - destruct (from_live origin s) eqn:El; [|by simplify_eq]. eapply (Hd s); [done|done| |exact Hr].
    intros Hc. destruct origin as [id|]; simpl in *; [|congruence]. exists id. split; [done|].
    apply Hlive. by apply bool_decide_eq_true in El.
  - destruct (from_live origin s); [|by simplify_eq]. eapply Hd; [| | |exact Hr]; [by apply (windows_ok_frame s)|done|by rewrite closes_slider].
  - destruct (from_live origin s); [|by simplify_eq]. destruct (bool_decide _).
    + eapply Hd; [| | |exact Hr]; [destruct pressed; [done|by apply (windows_ok_frame s)]|by destruct pressed|by rewrite closes_slider].
    + destruct pressed; by simplify_eq.
  - by simplify_eq.
  - by simplify_eq.
  - case_bool_decide as Hid; [|by simplify_eq]. destruct (close_requested_ok id s Hs (Hlive id Hid)) as (s1 & H1 & _ & [Hl _]).
    assert (s' = s1) as -> by congruence. by rewrite Hl.
Qed.

Lemma loop_step s ev : loop_ok s -> genuine ev -> exists s', screen_step path paired s ev = Some s' /\ loop_ok s'.
Proof.
  intros Hl Hev. destruct (screen_step_ok s ev (lo_windows s Hl) (lo_queue s Hl) Hev) as (s' & Hr & Hs' & Hq').
  exists s'. split; [done|]. split; [done|done|]. by eapply screen_step_queue.
Qed.
Lemma loop_run evs s : loop_ok s -> Forall genuine evs -> exists s', screen_run path paired s evs = Some s' /\ loop_ok s'.
Proof.
  revert s. induction evs as [|ev evs IH]; intros s Hl Hevs; [by exists s|]. apply Forall_cons in Hevs as [Hev Hevs].
  destruct (loop_step s ev Hl Hev) as (s1 & Hr & Hl1). simpl. rewrite Hr. simpl. by apply IH.
Qed.
Lemma loop_start d now schedule :
  (forall n, background (schedule n)) ->
  exists s, screen_start path (desk_start path d now schedule) = Some s /\ loop_ok s /\ sc_quit s = false.
Proof.
  intros Hsch. destruct (start_ok d now schedule Hsch) as (s & Hr & Hs & Hq & Hquit). exists s. split; [done|]. split; [|done].
  split; [done|unfold queue_ok; by rewrite Hq|rewrite Hq; simpl; lia].
Qed.

Lemma poll_quits s s' :
  loop_ok s -> poll path paired s = Some s' -> stopping (sc_desk s) \/ CmdExit ∈ sc_queue s ->
  sc_quit s' = true /\ stopping (sc_desk s').
Proof.
  intros [Hs Hq Hb] Hr Hexit. unfold poll in Hr. apply bind_Some in Hr as (s1 & E1 & Hr).
  apply dispatch_all_stopping in E1.
  2:{ destruct Hexit as [H|H]; [by left|right]. rewrite take_ge; [done|]. unfold POLL_LIMIT, TRAY_QUEUE in *. lia. }
  apply bind_Some in Hr as ([s2 r2] & E2 & Hr). apply bind_Some in Hr as ([s3 r3] & E3 & Hr).
  assert (stopping (sc_desk s2)) as H2.
  { unfold on_desk in E2. destruct (refresh path (sc_desk s1)) as [[w r]|] eqn:E; simplify_eq/=. by eapply stopping_refresh. }
  assert (r3 = Some true /\ stopping (sc_desk s3)) as [-> H3].
  { unfold on_desk, steer in E3. destruct (others path (sc_desk s2)) as [w|] eqn:E; [|done]. simpl in E3. injection E3 as <- <-.
    assert (stopping w) as Hw.
    { eapply (stopping_others (fun w => Some (w, Ok tt))); [by intros ??? ? [= <- _]|exact H2|by rewrite E]. }
    by split; [rewrite Hw|]. }
  simpl in Hr. apply bind_Some in Hr as ([s4 r4] & E4 & [= <-]). split; [done|]. cbn.
  unfold on_desk in E4. destruct (steer _ _ (sc_desk s3)) as [[w r]|] eqn:E; simplify_eq/=.
  eapply (stopping_steer (fun _ k => (cancel k, tt))); [|exact H3|exact E]. intros b k. by exists EvCancel.
Qed.

(** ** Properties *)

(** C10. Whatever the user does with the windows and the tray, and whatever the
    other threads do meanwhile, the program's windows follow the calibration
    session: at any moment between two events there is at most one calibration
    window, the dashboard holds its handle, and it exists exactly while the
    volume controller is editing.  So a session never stays open behind a closed
    window, a measurement runs only with its window on screen, and no event
    makes the program panic. *)
Theorem calibration_window_is_the_session (d : FS) (now : Z) (schedule : nat -> Turn) (evs : list screen_event)
  (Hs : forall n, background (schedule n)) (Hevs : Forall genuine evs) :
  exists s0 s, screen_start path (desk_start path d now schedule) = Some s0 /\ screen_run path paired s0 evs = Some s /\
    (sc_windows s = [] \/ exists id, sc_windows s = [id] /\ sc_handle s = Some id) /\
    (editing (sc_desk s) = true <-> sc_windows s <> []) /\
    (measuring (sc_desk s) = true -> sc_windows s <> []).
Proof.
  destruct (loop_start d now schedule Hs) as (s0 & E0 & Hl & _). destruct (loop_run evs s0 Hl Hevs) as (s & E & [[Hok (_ & He & _) Hw] _ _]).
  exists s0, s. split; [done|]. split; [done|]. rewrite Hw.
  assert (editing (sc_desk s) = true <-> match sc_handle s with Some id => [id] | None => [] end <> []) as Hiff.
  { rewrite He. unfold is_open. by destruct (sc_handle s). }
  split; [|split; [done|]].
  - destruct (sc_handle s) as [id|]; [right; by exists id|by left].
  - intros Hm. apply Hiff. by apply (do_measuring _ Hok).
Qed.

(** The user asks the program to exit. *)
Definition asks_exit s (ev : screen_event) : Prop :=
  match ev with
  | EvClick None _ _ CmdExit => True
  | EvTray (TrayMenu (Some 8)) => (length (sc_queue s) < TRAY_QUEUE)%nat
  | _ => False
  end.

(** C32. Exit always works: from any state of the windows, when the user presses
    the exit button or takes exit from the tray's menu while the queue has room,
    the next poll ends the event loop with the server told to stop and any
    measurement cancelled - also while a measurement runs, with the calibration
    window open or with requests under way. *)
Theorem exit_ends_the_program (d : FS) (now : Z) (schedule : nat -> Turn) (evs : list screen_event) (ev : screen_event)
  (Hs : forall n, background (schedule n)) (Hevs : Forall genuine evs) :
  exists s0 s, screen_start path (desk_start path d now schedule) = Some s0 /\ screen_run path paired s0 evs = Some s /\
    (asks_exit s ev ->
     exists s', screen_run path paired s [ev; EvPoll] = Some s' /\ sc_quit s' = true /\
       (sc_quit s = false -> forall token, is_cancelled (cc_tokens (dk_calibration (sc_desk s'))) token = true)).
Proof.
  destruct (loop_start d now schedule Hs) as (s0 & E0 & Hl & _). destruct (loop_run evs s0 Hl Hevs) as (s & E & Hls).
  exists s0, s. split; [done|]. split; [done|]. intros Hexit. clear E0 E Hl s0 evs Hevs.
  assert (genuine ev) as Hev by (destruct ev as [m| |[id|] o b c| | | | |]; try done; by destruct c).
  destruct (loop_step s ev Hls Hev) as (s1 & E1 & Hl1). destruct (loop_step s1 EvPoll Hl1 I) as (s2 & E2 & Hl2).
  exists s2. cbn [screen_run]. rewrite E1. cbn [mbind option_bind]. rewrite E2. split; [done|].
  unfold screen_step in E1, E2. destruct (sc_quit s) eqn:Eq.
  { injection E1 as <-. rewrite Eq in E2. by injection E2 as <-. }
  assert (stopping (sc_desk s1) \/ CmdExit ∈ sc_queue s1) as Hstop.
  { destruct ev as [[| |[id|]|]| |[id|] o b c| | | | |]; try done.
    - right. destruct (decide (id = 8)) as [->|]; [|exfalso; revert Hexit; simpl; repeat case_match; intros; (done || congruence)].
      injection E1 as <-. cbn. unfold tray_send. simpl in Hexit. apply Nat.ltb_lt in Hexit. rewrite Hexit. set_solver.
    - left. destruct c; try done. simpl in E1. eapply run_command_stopping; [exact E1|by right]. }
  destruct (sc_quit s1) eqn:Eq1.
  { exfalso. destruct ev as [m| |[id|] o b c| | | | |]; try done; [injection E1 as <-; cbn in Eq1; congruence|].
    destruct c; try done. simpl in E1. apply run_command_frame in E1 as [_ H]. congruence. }
  destruct (poll_quits s1 s2 Hl1 E2 Hstop) as [Hq Hstop2]. split; [done|]. intros _ token.
  unfold is_cancelled. by rewrite Hstop2.
Qed.
End safety.

(** Every click in the main window is [genuine]: nothing it shows sends the
    command that closes the calibration window. *)
Lemma receiver_row_genuine profile available busy r row e c :
  receiver_row profile available busy r = Some row -> e ∈ row -> sends e c -> closes c = false.
Proof.
  unfold receiver_row. destruct (rs_device r) as [device|]; [|intros [= <-] ->%list_elem_of_singleton Hs; by inversion Hs].
  intros (s & _ & [= <-])%bind_Some He Hs. apply elem_of_cons in He as [->|He]; [by inversion Hs|].
  apply list_elem_of_singleton in He as ->. inversion Hs; subst; by destruct (sl_kind s).
Qed.

Lemma main_window_genuine p view enabled measuring pairing elements e c origin opens confirmed :
  dashboard_content p view enabled measuring pairing = Some elements -> e ∈ elements -> sends e c -> origin = None ->
  genuine (EvClick origin opens confirmed c).
Proof.
  unfold dashboard_content. intros (page & Hpage & [= <-])%bind_Some He Hs ->. simpl.
  assert (forall (es : list Element), e ∈ es ->
    Forall (fun e => match e with Button c _ _ => closes c = false | SaveButton _ _ | Say _ => True | Track _ => False end) es ->
    closes c = false) as Hplain.
  { intros es Hin Hes. rewrite Forall_forall in Hes. specialize (Hes e Hin). inversion Hs; subst; done. }
  repeat (apply elem_of_cons in He as [->|He]; [inversion Hs; by subst|]).
  apply elem_of_app in He as [He|He].
  { unfold pairing_content in He. eapply Hplain; [exact He|]. destruct pairing; repeat constructor. }
  destruct (pa_page p); [|injection Hpage as <-; eapply Hplain; [exact He|]; repeat constructor..].
  unfold receivers_content in Hpage. apply bind_Some in Hpage as (rows & Hrows & [= <-]).
  apply elem_of_cons in He as [->|He]; [inversion Hs; by subst|].
  repeat (apply elem_of_app in He as [He|He]).
  - apply list_elem_of_fmap in He as (saved & -> & _). inversion Hs; by subst.
  - eapply Hplain; [exact He|]. destruct (current _); repeat constructor.
  - destruct (Editor.rows_of _ _ _ _ Hrows He) as (r & row & _ & Hrow & He'). by eapply receiver_row_genuine.
  - eapply Hplain; [exact He|]. destruct (bool_decide _); repeat constructor.
  - eapply Hplain; [exact He|]. destruct (current _); [destruct (existsb _ _)|]; repeat constructor.
  - eapply Hplain; [exact He|]. repeat constructor.
Qed.

(** ** Witness: a visit to the calibration window, then exit from the tray *)

Definition afternoon : list screen_event :=
  [EvPoll; EvClick None true true CmdOpenCalibration; EvPoll; EvSliderDown (Some 0%nat) (SliderDevice 0) 5; EvMouseUp;
   EvPoll; EvPoll; EvCloseCalibration 0; EvCloseMain; EvTray TraySelect; EvPoll].

Lemma calibration_window_is_the_session_witness :
  exists s0 s, screen_start room_path (desk_start room_path room_disk 0 visit) = Some s0 /\
    screen_run room_path true s0 afternoon = Some s /\
    (sc_windows s = [] \/ exists id, sc_windows s = [id] /\ sc_handle s = Some id) /\
    (editing (sc_desk s) = true <-> sc_windows s <> []) /\
    (measuring (sc_desk s) = true -> sc_windows s <> []).
Proof.
  apply (calibration_window_is_the_session room_path true room_disk 0 visit afternoon visit_background). by repeat constructor.
Defined.

Lemma exit_ends_the_program_witness :
  exists s0 s, screen_start room_path (desk_start room_path room_disk 0 visit) = Some s0 /\
    screen_run room_path true s0 afternoon = Some s /\
    (asks_exit s (EvTray (TrayMenu (Some 8))) ->
     exists s', screen_run room_path true s [EvTray (TrayMenu (Some 8)); EvPoll] = Some s' /\ sc_quit s' = true /\
       (sc_quit s = false -> forall token, is_cancelled (cc_tokens (dk_calibration (sc_desk s'))) token = true)).
Proof.
  apply (exit_ends_the_program room_path true room_disk 0 visit afternoon (EvTray (TrayMenu (Some 8))) visit_background).
  by repeat constructor.
Defined.
