(* ===== verification/Tray.v ===== *)
(** * Tray: the icon in the notification area

    [ui/tray.rs] in full: the hidden window, the icon, the thread's [STATE] and
    the menu, with the calls of Windows answering as they please.  [Window] uses
    the tray as a source of commands; this file shows that it is one, and that
    nothing of it stays behind. *)

From stdpp Require Import base list gmap.
From Stdlib Require Import ZArith Lia.
From S2P Require Import Prelude BTree Wire Text Gate Panel Window.
Open Scope Z_scope.

Inductive TrayError : Type := ModuleFailed | ClassNotRegistered | WindowNotCreated | IconNotLoaded | IconNotAdded | MenuFailed.

(** What Windows holds for the program, the thread's [STATE] (the number of the
    message "TaskbarCreated") and the queue behind its sender. *)
Record Shell : Type := mkShell {
  sh_windows : gset Z;
  sh_icons : gset Z;
  sh_menus : Z;
  sh_state : option Z;
  sh_queue : list Command;
}.

Definition shell_new : Shell := mkShell ∅ ∅ 0 None [].

Definition with_icons (icons : gset Z) (s : Shell) : Shell := mkShell (sh_windows s) icons (sh_menus s) (sh_state s) (sh_queue s).
Definition with_menus (n : Z) (s : Shell) : Shell := mkShell (sh_windows s) (sh_icons s) n (sh_state s) (sh_queue s).
Definition with_commands (q : list Command) (s : Shell) : Shell := mkShell (sh_windows s) (sh_icons s) (sh_menus s) (sh_state s) q.

(** [LoadIconW] and [NIM_ADD] succeed or fail; the version is set regardless. *)
Definition add_icon (loaded added : bool) (hwnd : Z) (s : Shell) : Shell * result TrayError unit :=
  if negb loaded then (s, Err IconNotLoaded)
  else if negb added then (s, Err IconNotAdded)
  else (with_icons ({[hwnd]} ∪ sh_icons s) s, Ok tt).

(** [Drop]. *)
Definition tray_drop (hwnd : Z) (s : Shell) : Shell :=
  mkShell (sh_windows s ∖ {[hwnd]}) (sh_icons s ∖ {[hwnd]}) (sh_menus s) None (sh_queue s).

(** The answers of the calls of [Tray::new], in their order. *)
Record NewAnswers : Type := mkNewAnswers {
  na_module : bool;
  na_class : bool;
  na_window : option Z;
  na_taskbar_created : Z;
  na_icon : bool * bool;
}.

Definition tray_new (a : NewAnswers) (s : Shell) : Shell * result TrayError Z :=
  if negb (na_module a) then (s, Err ModuleFailed)
  else if negb (na_class a) then (s, Err ClassNotRegistered)
  else match na_window a with
       | None => (s, Err WindowNotCreated)
       | Some hwnd =>
           let s := mkShell ({[hwnd]} ∪ sh_windows s) (sh_icons s) (sh_menus s) (Some (na_taskbar_created a)) (sh_queue s) in
           match add_icon (na_icon a).1 (na_icon a).2 hwnd s with
           | (s, Ok _) => (s, Ok hwnd)
           | (s, Err e) => (tray_drop hwnd s, Err e)
           end
       end.

Definition send_command (c : Command) (s : Shell) : Shell :=
  match sh_state s with Some _ => with_commands (tray_send (sh_queue s) c) s | None => s end.

(** ** The menu *)

Inductive Label : Type :=
| LabelDevices | LabelPause | LabelEnable | LabelLouder | LabelQuieter | LabelWindow | LabelInformation | LabelSettings | LabelExit.

Definition menu_entries (enabled : bool) : list (Z * Label) :=
  [(1, LabelDevices); (2, if enabled then LabelPause else LabelEnable); (3, LabelLouder); (4, LabelQuieter); (5, LabelWindow);
   (6, LabelInformation); (7, LabelSettings)].

(** The answers: [CreatePopupMenu], the nine [AppendMenuW], [GetCursorPos] and
    the identifier that [TrackPopupMenu] returns, 0 for none. *)
Record MenuAnswers : Type := mkMenuAnswers {
  ma_created : bool;
  ma_appended : list bool;
  ma_cursor : bool;
  ma_tracked : Z;
}.

(** [AppendMenuW(..)?] for every entry; the entries that are in the menu. *)
Fixpoint append_all (answers : list bool) (entries : list (Z * Label)) : list (Z * Label) * list bool * bool :=
  match entries with
  | [] => ([], answers, true)
  | e :: entries' =>
      match answers with
      | true :: answers' => let '(shown, rest, ok) := append_all answers' entries' in (e :: shown, rest, ok)
      | _ => ([], tail answers, false)
      end
  end.

(** The entries on the screen, if the menu gets there. *)
Definition menu_shown (enabled : bool) (a : MenuAnswers) : option (list (Z * Label)) :=
  let '(shown, rest, ok) := append_all (ma_appended a) (menu_entries enabled) in
  if ok then
    match rest with
    | true :: true :: _ => if ma_cursor a then Some (shown ++ [(8, LabelExit)]) else None
    | _ => None
    end
  else None.

(** [STATE.with(|s| s.is_some_and(|s| s.transmission.is_enabled()))]. *)
Definition menu_enabled (gate : AudioTransmissionGate) (s : Shell) : bool :=
  match sh_state s with Some _ => is_enabled gate | None => false end.

(** [menu]; while it is on the screen, [TrackPopupMenu] hands other messages to
    the window procedure: they are steps before this one. *)
Definition menu (gate : AudioTransmissionGate) (a : MenuAnswers) (s : Shell) : Shell * result TrayError unit :=
  let enabled := menu_enabled gate s in
  if negb (ma_created a) then (s, Err MenuFailed)
  else
    let s := with_menus (sh_menus s + 1) s in
    let '(s, result) :=
      match menu_shown enabled a with
      | None => (s, Err MenuFailed)
      | Some _ => (match menu_command (ma_tracked a) with Some c => send_command c s | None => s end, Ok tt)
      end in
    (with_menus (sh_menus s - 1) s, result).

(** ** The window procedure *)

Definition CALLBACK : Z := 32769.
Definition WM_CONTEXTMENU : Z := 123.
Definition WM_LBUTTONUP : Z := 514.
Definition WM_RBUTTONUP : Z := 517.
Definition NIN_SELECT : Z := 1024.

(** A message with the answers of the calls it may lead to. *)
Record Message : Type := mkMessage {
  ms_hwnd : Z;
  ms_number : Z;
  ms_lparam : Z;
  ms_icon : bool * bool;
  ms_menu : MenuAnswers;
}.

(** [None]: the message is left to [DefWindowProcW]. *)
Definition tray_proc (gate : AudioTransmissionGate) (m : Message) (s : Shell) : Shell * option Z :=
  if match sh_state s with Some created => negb (created =? 0) && (ms_number m =? created) | None => false end
  then ((add_icon (ms_icon m).1 (ms_icon m).2 (ms_hwnd m) s).1, Some 0)
  else if ms_number m =? CALLBACK then
    let event := Z.land (ms_lparam m) 65535 in
    (if (event =? WM_LBUTTONUP) || (event =? NIN_SELECT) then send_command (CmdShow Receivers) s
     else if (event =? WM_CONTEXTMENU) || (event =? WM_RBUTTONUP) then (menu gate (ms_menu m) s).1
     else s, Some 0)
  else (s, None).

(** What happens to the tray: a message, the user closing the explorer, which
    takes the icon along, and the windows' taking of commands. *)
Inductive tray_event : Type :=
| TevMessage (gate : AudioTransmissionGate) (m : Message)
| TevExplorerGone
| TevTaken (n : nat).

Definition tray_step (s : Shell) (e : tray_event) : Shell :=
  match e with
  | TevMessage gate m => (tray_proc gate m s).1
  | TevExplorerGone => with_icons ∅ s
  | TevTaken n => with_commands (drop n (sh_queue s)) s
  end.

Definition tray_run (s : Shell) (es : list tray_event) : Shell := foldl tray_step s es.

(** The end of [ui::run]: an error of the windows comes before one of the disk. *)
Definition ui_result {E} (failure : option E) (volume_result : result E unit) : result E unit :=
  match failure with Some e => Err e | None => volume_result end.

(** ** Properties *)

(** The message as [Window] has it. *)
Definition tray_message (gate : AudioTransmissionGate) (m : Message) (s : Shell) : TrayMessage :=
  if match sh_state s with Some created => negb (created =? 0) && (ms_number m =? created) | None => false end
  then TrayTaskbarCreated
  else if ms_number m =? CALLBACK then
    let event := Z.land (ms_lparam m) 65535 in
    if (event =? WM_LBUTTONUP) || (event =? NIN_SELECT) then TraySelect
    else if (event =? WM_CONTEXTMENU) || (event =? WM_RBUTTONUP) then
      TrayMenu (if ma_created (ms_menu m) then (fun _ => ma_tracked (ms_menu m)) <$> menu_shown (menu_enabled gate s) (ms_menu m)
                else None)
    else TrayOther
  else TrayOther.

Lemma menu_spec gate a s :
  (menu gate a s).1 =
    match (if ma_created a then menu_shown (menu_enabled gate s) a else None), menu_command (ma_tracked a) with
    | Some _, Some c => send_command c s
    | _, _ => s
    end.
Proof.
  assert (forall t : Shell, with_menus (sh_menus s + 1 - 1) t = with_menus (sh_menus s) t) as Hm.
  { intros t. by replace (sh_menus s + 1 - 1) with (sh_menus s) by lia. }
  assert (with_menus (sh_menus s) s = s) as Hs by by destruct s.
  unfold menu. destruct (ma_created a); [|done]. cbn [negb].
  destruct (menu_shown _ a) as [shown|]; [|cbn; by rewrite Hm].
  destruct (menu_command _) as [c|]; [|cbn; by rewrite Hm]. unfold send_command. destruct s as [w i n [t|] q]; cbn in *; rewrite Hm; done.
Qed.

(** Everything of the tray but its icon is there while it lives. *)
Record tray_ok (hwnd : Z) (s : Shell) : Prop := {
  to_windows : sh_windows s = {[hwnd]};
  to_icons : sh_icons s ⊆ {[hwnd]};
  to_menus : sh_menus s = 0;
  to_state : is_Some (sh_state s);
  to_queue : (length (sh_queue s) <= TRAY_QUEUE)%nat;
}.

(** The messages go to the tray's own window. *)
Definition event_for (hwnd : Z) (e : tray_event) : Prop := match e with TevMessage _ m => ms_hwnd m = hwnd | _ => True end.

Lemma send_command_ok hwnd c s : tray_ok hwnd s -> tray_ok hwnd (send_command c s).
Proof.
  intros [H1 H2 H3 [t Ht] H5]. unfold send_command. rewrite Ht. split; cbn; try done. unfold tray_send.
  case_match eqn:E; [|done]. apply Nat.ltb_lt in E. rewrite length_app. cbn. lia.
Qed.

Lemma tray_step_ok hwnd e s : event_for hwnd e -> tray_ok hwnd s -> tray_ok hwnd (tray_step s e).
Proof.
  intros He Hs. destruct e as [gate m| |n]; cbn [tray_step event_for] in *.
  - unfold tray_proc. case_match.
    { unfold add_icon. destruct Hs as [H1 H2 H3 H4 H5]. repeat case_match; split; cbn; try done. rewrite He. set_solver. }
    destruct (ms_number m =? CALLBACK); [|done]. cbn [fst]. destruct (_ || _); [by apply send_command_ok|].
    destruct (_ || _); [rewrite menu_spec; repeat case_match; try done; by apply send_command_ok|done].
  - destruct Hs as [H1 H2 H3 H4 H5]. split; cbn; try done; set_solver.
  - destruct Hs as [H1 H2 H3 H4 H5]. split; cbn; try done. rewrite length_drop. lia.
Qed.

Lemma tray_run_ok hwnd es s : Forall (event_for hwnd) es -> tray_ok hwnd s -> tray_ok hwnd (tray_run s es).
Proof. intros H. revert s. induction H as [|e es He _ IH]; intros s Hs; [done|]. apply IH. by apply tray_step_ok. Qed.

(** The tray is the source of commands [Window] takes it for, and leaves
    nothing behind.  Whatever calls of Windows fail: a failed [Tray::new] leaves
    no window, icon or state; otherwise the tray keeps its window, at most its
    one icon, no menu, and at most sixteen commands, through any messages and
    restarts of the explorer, and each message does to the queue what
    [Window.window_proc] says; the icon is back after "TaskbarCreated" when it
    can be added; and [Drop] removes everything. *)
Theorem tray_leaves_nothing (a : NewAnswers) (es : list tray_event) :
  match tray_new a shell_new with
  | (s, Err _) => s = shell_new
  | (s, Ok hwnd) =>
      Forall (event_for hwnd) es ->
      let s1 := tray_run s es in
      tray_ok hwnd s1 /\
      (forall gate m, sh_queue (tray_proc gate m s1).1 = window_proc (sh_queue s1) (tray_message gate m s1)) /\
      (forall gate m t, sh_state s1 = Some t -> t <> 0 -> ms_number m = t -> ms_hwnd m = hwnd -> ms_icon m = (true, true) ->
         sh_icons (tray_proc gate m s1).1 = {[hwnd]}) /\
      let s2 := tray_drop hwnd s1 in
      sh_windows s2 = ∅ /\ sh_icons s2 = ∅ /\ sh_menus s2 = 0 /\ sh_state s2 = None
  end.
Proof.
  unfold tray_new. destruct (na_module a); [|done]. destruct (na_class a); [|done]. destruct (na_window a) as [hwnd|]; [|done].
  cbn [negb]. unfold add_icon. destruct (na_icon a) as [loaded added]. cbn [fst snd].
  assert (forall icons t, icons ⊆ {[hwnd]} -> tray_ok hwnd (mkShell ({[hwnd]} ∪ ∅) icons 0 (Some t) [])) as Hstart.
  { intros icons t Hi. split; cbn; try done; [set_solver|unfold TRAY_QUEUE; lia]. }
  assert (forall t, tray_drop hwnd (mkShell ({[hwnd]} ∪ ∅) ∅ 0 (Some t) []) = shell_new) as Hdrop.
  { intros t. unfold tray_drop, shell_new. cbn. f_equal; set_solver. }
  destruct loaded; [|exact (Hdrop _)]. destruct added; [|exact (Hdrop _)]. cbn [negb]. intros Hes.
  match goal with |- context [tray_run ?s0 es] => set (s1 := tray_run s0 es) end.
  assert (tray_ok hwnd s1) as Hs1 by (apply tray_run_ok; [done|apply Hstart; cbn; set_solver]).
  split; [exact Hs1|]. clear Hstart Hdrop. clearbody s1. destruct Hs1 as [H1 H2 H3 [t Ht] H5]. split_and!.
  - intros gate m. unfold tray_proc, tray_message. rewrite Ht. destruct (negb (t =? 0) && _).
    { cbn [fst]. unfold add_icon. by repeat case_match. }
    destruct (ms_number m =? CALLBACK); [|done]. cbn [fst]. unfold send_command at 1. rewrite Ht.
    destruct (_ || _); [done|]. destruct (_ || _); [|done]. rewrite menu_spec. cbn. unfold send_command. rewrite Ht.
    destruct (ma_created (ms_menu m)); [|done]. destruct (menu_shown _ _); cbn; [|done]. by destruct (menu_command _).
  - intros gate m t' Ht' Hne Hm Hh Hi. rewrite Ht in Ht'. injection Ht' as <-. unfold tray_proc. rewrite Ht, Hm, Hh, Hi, Z.eqb_refl.
    apply Z.eqb_neq in Hne as ->. cbn. set_solver.
  - cbn. rewrite H1. set_solver.
  - cbn. set_solver.
  - done.
  - done.
Qed.

(** Every entry of the menu does something, and nothing else does. *)
Lemma menu_entries_act enabled id :
  is_Some (menu_command id) <-> id ∈ (menu_entries enabled ++ [(8, LabelExit)]).*1.
Proof.
  assert (forall n, n ∈ [1; 2; 3; 4; 5; 6; 7; 8] -> is_Some (menu_command n)) as H.
  { intros n Hn. repeat (apply elem_of_cons in Hn as [->|Hn]; [by eexists|]). by apply elem_of_nil in Hn. }
  change ((menu_entries enabled ++ [(8, LabelExit)]).*1) with [1; 2; 3; 4; 5; 6; 7; 8]. split; [|apply H].
  intros [c Hc]. unfold menu_command in Hc. repeat case_match; try done; set_solver.
Qed.

(** The explorer restarts, and the user pauses the sound by the menu. *)
Definition tray_answers : NewAnswers := mkNewAnswers true true (Some 7) 49200 (true, true).
Definition tray_day : list tray_event :=
  [TevExplorerGone; TevMessage gate_enabled (mkMessage 7 49200 0 (true, true) (mkMenuAnswers true [] true 0));
   TevMessage gate_enabled (mkMessage 7 CALLBACK WM_RBUTTONUP (true, true) (mkMenuAnswers true (replicate 9 true) true 2))].

Lemma tray_leaves_nothing_witness :
  sh_queue (tray_run (tray_new tray_answers shell_new).1 tray_day) = [CmdToggle] /\ sh_windows (tray_drop 7 (tray_run (tray_new tray_answers shell_new).1 tray_day)) = ∅.
Proof.
  split; [vm_compute; reflexivity|].
  pose proof (tray_leaves_nothing tray_answers tray_day) as H. destruct (tray_new tray_answers shell_new) as [s [hwnd|e]] eqn:E.
  - assert (hwnd = 7) as -> by (vm_compute in E; by injection E as _ <-). apply H. repeat constructor.
  - by vm_compute in E.
Defined.
