(* ===== verification/Startup.v ===== *)
(** * Startup: the start and the end of the desktop program

    [main.rs], [application/desktop.rs] ([run]), [application/streamer.rs]
    ([run], up to the accept loop), [application/state.rs], [config.rs],
    [audio/device.rs] and [audio/capture.rs] ([record_to_pcm]).  The program
    has a main thread, which waits for the server, shows the windows and joins
    the server, and the server task; they share a channel of one message and a
    cancellation token. *)

From stdpp Require Import base list.
From Stdlib Require Import ZArith Lia.
From S2P Require Import Prelude BTree Wire Text Storage Registry Profiles Gate VolumeControl Transport Identity Packetizer Ring Pairing Capture CalibrationControl Panel.
Open Scope Z_scope.

(** ** Configuration *)

(** The arguments as [clap] parsed them. *)
Record ServerArgs : Type := mkServerArgs {
  ar_bind : Socket;
  ar_identity_dir : option rstring;
  ar_pairing_host : option Ipv4Addr;
  ar_capture_to : option Path;
  ar_capture_seconds : Z;
}.

(** [PathBuf::join] with a relative component: a separator unless the path is
    empty, ends in one or is a bare drive. *)
Definition is_separator (c : Z) : bool := (c =? 47) || (c =? 92).
Definition is_letter (c : Z) : bool := ((65 <=? c) && (c <=? 90)) || ((97 <=? c) && (c <=? 122)).
Definition is_bare_drive (dir : rstring) : bool :=
  match dir with [letter; colon] => is_letter letter && (colon =? 58) | _ => false end.
Definition path_join (dir component : rstring) : rstring :=
  match last dir with
  | Some c => if is_separator c || is_bare_drive dir then dir ++ component else dir ++ [92] ++ component
  | None => component
  end.

(** "Soundwave" and the current directory, ".". *)
Definition SOUNDWAVE : rstring := [83; 111; 117; 110; 100; 119; 97; 118; 101].
Definition CURRENT_DIR : rstring := [46].

Definition default_identity_dir (local_app_data : option rstring) : rstring :=
  path_join (default CURRENT_DIR local_app_data) SOUNDWAVE.

(** "volume-profiles.bin" in the identity directory. *)
Definition VOLUME_PROFILES : rstring := [118; 111; 108; 117; 109; 101; 45; 112; 114; 111; 102; 105; 108; 101; 115].
Definition BIN : rstring := [98; 105; 110].
Definition volume_path (identity_dir : rstring) : Path := mkPath (Some identity_dir) VOLUME_PROFILES (Some BIN).

(** ** The render device *)

Inductive AudioError : Type := ComFailed | WasapiFailed | IoFailed (e : IoError) | InvalidCaptureBytes (n : Z) | ThreadPanicked.

Record DeviceInfo : Type := mkDeviceInfo {
  di_friendly_name : rstring;
  di_mix_sample_rate : Z;
  di_mix_channels : Z;
  di_mix_bits_per_sample : Z;
  di_mix_sample_type : rstring;
}.

(** The calls of the [wasapi] crate; [None] is an error of Windows. *)
Class Wasapi (Device Client Mix : Type) : Type := {
  wa_initialize_mta : option unit;
  wa_default_device : option Device;
  wa_friendlyname : Device -> option rstring;
  wa_iaudioclient : Device -> option Client;
  wa_mixformat : Client -> option Mix;
  wa_samplespersec : Mix -> Z;
  wa_nchannels : Mix -> Z;
  wa_bitspersample : Mix -> Z;
  wa_subformat : Mix -> option rstring;
}.

Definition default_render_device_info {Device Client Mix} `{!Wasapi Device Client Mix} : result AudioError DeviceInfo :=
  _ ← ok_or ComFailed wa_initialize_mta;
  device ← ok_or WasapiFailed wa_default_device;
  friendly_name ← ok_or WasapiFailed (wa_friendlyname device);
  client ← ok_or WasapiFailed (wa_iaudioclient device);
  mix ← ok_or WasapiFailed (wa_mixformat client);
  sample_type ← ok_or WasapiFailed (wa_subformat mix);
  Ok (mkDeviceInfo friendly_name (wa_samplespersec mix) (wa_nchannels mix) (wa_bitspersample mix) sample_type).

(** ** What the server shares with the windows *)

Record ServerInfo : Type := mkServerInfo {
  si_device_name : rstring;
  si_mix_sample_rate : Z;
  si_mix_channels : Z;
  si_mix_bits_per_sample : Z;
  si_mix_sample_type : rstring;
  si_bind : Socket;
  si_fingerprint : rstring;
  si_identity_dir : rstring;
  si_pairing : result PairingError PairingInfo;
}.

(** Why the server did not start. *)
Inductive StartError : Type :=
| NoRenderDevice (e : AudioError)
| NoIdentity (e : TransportError)
| BindFailed
| AddressUnknown
| WindowsGone.

(** [quinn::Endpoint::server] and [local_addr]. *)
Class QuicServer (ServerConfig Endpoint : Type) : Type := {
  endpoint_server : ServerConfig -> Socket -> option Endpoint;
  endpoint_local_addr : Endpoint -> option Socket;
}.

Section server.
Context {Device Client Mix : Type} `{Hwasapi : !Wasapi Device Client Mix}.
Context {Hsha : Sha256} {ServerConfig : Type} `{Htls : !Tls ServerConfig}.
Context {Endpoint : Type} `{Hquic : !QuicServer ServerConfig Endpoint}.
Context {Sender : Type} `{MS : !Mpsc Sender ControlMessage}.
Context {FS : Type} `{HFS : !FileSystem FS} {Hcodec : LibraryCodec}.
(** the table of network adapters, the environment and the clock *)
Variable api : nat -> AdapterApi.
Variable local_app_data : option rstring.
Variable now : Z.

Record ServerState : Type := mkServerState {
  st_info : ServerInfo;
  st_transmission : AudioTransmissionGate;
  st_registry : Registry Sender;
  st_calibration : Controller;
  st_volume : State;
}.

Definition server_state_new (d : FS) (info : ServerInfo) (transmission : AudioTransmissionGate)
  (registry : Registry Sender) : ServerState :=
  mkServerState info transmission registry cc_start (controller_new d (volume_path (si_identity_dir info)) now).

(** [streamer::run] up to the message to the main thread: the endpoint and what
    is shown. *)
Definition server_prepare (args : ServerArgs) (d : FS) : FS * result StartError (Endpoint * ServerState) :=
  match default_render_device_info with
  | Err e => (d, Err (NoRenderDevice e))
  | Ok device =>
      let identity_dir := default (default_identity_dir local_app_data) (ar_identity_dir args) in
      match load_or_create_server_config d identity_dir with
      | (d, Err e) => (d, Err (NoIdentity e))
      | (d, Ok (server_config, identity)) =>
          (d, endpoint ← ok_or BindFailed (endpoint_server server_config (ar_bind args));
              endpoint_address ← ok_or AddressUnknown (endpoint_local_addr endpoint);
              let fingerprint := format_fingerprint (ci_sha256_fingerprint identity) in
              let pairing :=
                resolve_pairing_info api (ar_bind args) (sk_port endpoint_address) (ar_pairing_host args)
                  (ci_sha256_fingerprint identity) in
              let info :=
                mkServerInfo (di_friendly_name device) (di_mix_sample_rate device) (di_mix_channels device)
                  (di_mix_bits_per_sample device) (di_mix_sample_type device) endpoint_address fingerprint
                  identity_dir pairing in
              Ok (endpoint, server_state_new d info gate_enabled registry_default))
      end
  end.
End server.
Arguments ServerState : clear implicits.

(** The desk of the panel stands on the state the server sent. *)
Lemma prepared_desk {Sender : Type} `{!Mpsc Sender ControlMessage} {FS : Type} `{!FileSystem FS} {Hcodec : LibraryCodec}
  now info (d : FS) schedule :
  let st := server_state_new (Sender := Sender) now d info gate_enabled registry_default in
  desk_start (volume_path (si_identity_dir info)) d now schedule =
  mkDesk (mkSystem (st_volume st) (st_registry st) d (st_transmission st)) (st_calibration st) panel_new now schedule 0 [].
Proof. reflexivity. Qed.

(** ** The two threads *)

(** What ends the program with an error. *)
Inductive RunError : Type :=
| StartFailed (e : StartError)
(** the text of that error, as the main thread received it *)
| Reported (e : StartError)
| StoppedEarly
| WindowsFailed
| NotSaved (e : VolumeError)
| TaskPanicked
| RuntimeFailed
| NoCaptureTime
| CaptureFailed (e : AudioError).

(** [Result::and]. *)
Definition and_then_result {E A B} (r : result E A) (r' : result E B) : result E B :=
  match r with Ok _ => r' | Err e => Err e end.

Section program.
Context {Model : Type}.
(** what [server_prepare] comes to *)
Variable prepared : result StartError Model.

(** The server task: [streamer::run] up to the message, its accept loop, the end
    of its sessions and endpoint, its return, the cancellation and the report;
    [ServerEnded None] is a panic. *)
Inductive ServerPhase : Type :=
| Starting
| Accepting
| Unwinding
| Returned (r : result RunError unit)
| Cancelled (r : result RunError unit)
| ServerEnded (r : option (result RunError unit)).

(** The main thread: at [receiver.recv], in [ui::run], with its result before the
    cancellation, at [block_on] and at the end. *)
Inductive MainPhase : Type :=
| Waiting
| Windows (m : Model)
| Ending (r : result RunError unit)
| Joining (r : result RunError unit)
| MainDone (r : result RunError unit).

Record Program : Type := mkProgram {
  pr_main : MainPhase;
  pr_server : ServerPhase;
  pr_ready : option (result StartError Model);
  pr_cancelled : bool;
}.

Definition program_start : Program := mkProgram Waiting Starting None false.

Inductive program_event : Type :=
(** the server task *)
| EvPrepare
| EvAcceptEnds (endpoint_closed : bool)
| EvUnwound
| EvServerCancels
| EvServerReports
| EvServerPanics
(** the main thread *)
| EvReceive
| EvWindowsFail
| EvPollQuits (saved : result VolumeError unit)
| EvMainCancels
| EvMainJoins
(** the user: Ctrl+C in the console and the command to exit *)
| EvCtrlC
| EvExit.

Definition receiver_alive (p : Program) : bool := match pr_main p with MainDone _ => false | _ => true end.

(** [None]: the event is not possible now.  The task that waits for Ctrl+C is
    started by the prepared server and outlives it. *)
Definition program_step (p : Program) (ev : program_event) : option Program :=
  let 'mkProgram main server ready cancelled := p in
  match ev with
  | EvPrepare =>
      match server with
      | Starting =>
          match prepared with
          | Err e => Some (mkProgram main (Returned (Err (StartFailed e))) ready cancelled)
          | Ok m =>
              if receiver_alive p
              then match ready with
                   | None => Some (mkProgram main Accepting (Some (Ok m)) cancelled)
                   | Some _ => None
                   end
              else Some (mkProgram main (Returned (Err (StartFailed WindowsGone))) ready cancelled)
          end
      | _ => None
      end
  | EvAcceptEnds endpoint_closed =>
      match server with
      | Accepting => if cancelled || endpoint_closed then Some (mkProgram main Unwinding ready cancelled) else None
      | _ => None
      end
  | EvUnwound =>
      match server with Unwinding => Some (mkProgram main (Returned (Ok tt)) ready cancelled) | _ => None end
  | EvServerCancels =>
      match server with Returned r => Some (mkProgram main (Cancelled r) ready true) | _ => None end
  | EvServerReports =>
      match server with
      | Cancelled r =>
          let ready :=
            match r, ready with
            | Err (StartFailed e), None => if receiver_alive p then Some (Err e) else None
            | _, _ => ready
            end in
          Some (mkProgram main (ServerEnded (Some r)) ready cancelled)
      | _ => None
      end
  | EvServerPanics =>
      match server with
      | Starting | Accepting | Unwinding => Some (mkProgram main (ServerEnded None) ready cancelled)
      | _ => None
      end
  | EvReceive =>
      match main with
      | Waiting =>
          match ready with
          | Some (Ok m) => Some (mkProgram (Windows m) server None cancelled)
          | Some (Err e) => Some (mkProgram (Ending (Err (Reported e))) server None cancelled)
          | None =>
              match server with
              | ServerEnded _ => Some (mkProgram (Ending (Err StoppedEarly)) server None cancelled)
              | _ => None
              end
          end
      | _ => None
      end
  | EvWindowsFail =>
      match main with Windows _ => Some (mkProgram (Ending (Err WindowsFailed)) server ready cancelled) | _ => None end
  | EvPollQuits saved =>
      match main with
      | Windows _ =>
          if cancelled then Some (mkProgram (Ending (map_err NotSaved saved)) server ready cancelled) else None
      | _ => None
      end
  | EvMainCancels =>
      match main with Ending r => Some (mkProgram (Joining r) server ready true) | _ => None end
  | EvMainJoins =>
      match main, server with
      | Joining r, ServerEnded (Some r') => Some (mkProgram (MainDone (and_then_result r r')) server ready cancelled)
      | Joining _, ServerEnded None => Some (mkProgram (MainDone (Err TaskPanicked)) server ready cancelled)
      | _, _ => None
      end
  | EvCtrlC =>
      match prepared, server with
      | Err _, _ | Ok _, Starting => None
      | Ok _, _ => Some (mkProgram main server ready true)
      end
  | EvExit =>
      match main with Windows _ => Some (mkProgram main server ready true) | _ => None end
  end.

Fixpoint program_run (p : Program) (evs : list program_event) : option Program :=
  match evs with [] => Some p | ev :: evs' => p ← program_step p ev; program_run p evs' end.

Definition reachable (p : Program) : Prop := exists evs, program_run program_start evs = Some p.

(** ** Its invariant *)

(** The channel holds the message the server sent until it is received; a
    server that failed reports last. *)
Definition channel_ok (p : Program) : Prop :=
  match pr_server p, pr_main p, prepared with
  | Starting, Waiting, _ => pr_ready p = None
  | Starting, _, _ => False
  | ServerEnded None, Waiting, _ => pr_ready p = None \/ exists m, prepared = Ok m /\ pr_ready p = Some (Ok m)
  | _, Waiting, Ok m => pr_ready p = Some (Ok m)
  | (Returned _ | Cancelled _), Waiting, Err _ => pr_ready p = None
  | (Returned _ | Cancelled _), _, Err _ => False
  | _, Waiting, Err e => pr_ready p = Some (Err e)
  | _, _, _ => pr_ready p = None
  end.

Definition server_ok (p : Program) : Prop :=
  match pr_server p, prepared with
  | (Returned r | Cancelled r | ServerEnded (Some r)), Ok _ => r = Ok tt
  | (Returned r | Cancelled r | ServerEnded (Some r)), Err e => r = Err (StartFailed e)
  | (Accepting | Unwinding), Err _ => False
  | _, _ => True
  end.

(** A result of the main thread before it looks at the server's. *)
Definition own_result (p : Program) (r : result RunError unit) : Prop :=
  match r with
  | Ok _ => is_ok prepared = true
  | Err (Reported e) => prepared = Err e
  | Err StoppedEarly => pr_server p = ServerEnded None
  | Err WindowsFailed | Err (NotSaved _) => is_ok prepared = true
  | _ => False
  end.

Definition main_ok (p : Program) : Prop :=
  match pr_main p with
  | Waiting => True
  | Windows m => prepared = Ok m
  | Ending r => own_result p r
  | Joining r => own_result p r /\ pr_cancelled p = true
  | MainDone r =>
      match pr_server p with
      | ServerEnded (Some _) => own_result p r
      | ServerEnded None => r = Err TaskPanicked
      | _ => False
      end
  end.

Definition token_ok (p : Program) : Prop :=
  match pr_server p with Cancelled _ | ServerEnded (Some _) => pr_cancelled p = true | _ => True end.

Definition coherent (p : Program) : Prop := channel_ok p /\ server_ok p /\ main_ok p /\ token_ok p.

Lemma start_coherent : coherent program_start.
Proof. done. Qed.

Lemma step_coherent p ev p' : coherent p -> program_step p ev = Some p' -> coherent p'.
Proof.
  destruct p as [main server ready cancelled]. unfold coherent, channel_ok, server_ok, main_ok, own_result, token_ok.
  cbn. intros (H1 & H2 & H3 & H4) Hs.
  destruct prepared as [m|e]; destruct ev as [| | | | | | | |[]| | | |]; cbn in Hs;
    repeat (case_match; simplify_eq/=; try done); split_and!; try done; naive_solver.
Qed.

Lemma reachable_coherent p : reachable p -> coherent p.
Proof.
  intros [evs Hevs]. revert Hevs. generalize start_coherent. generalize program_start.
  induction evs as [|ev evs IH]; intros q Hq Hevs; simpl in Hevs; [by simplify_eq|].
  destruct (program_step q ev) as [q'|] eqn:Hs; [|done]. simpl in Hevs. eapply IH; [|done]. by eapply step_coherent.
Qed.

(** ** Progress *)

Definition asked_by_user (ev : program_event) : bool := match ev with EvCtrlC | EvExit => true | _ => false end.

(** The steps the threads take of themselves, without a failure. *)
Definition own_event (ev : program_event) : bool :=
  match ev with
  | EvAcceptEnds true | EvServerPanics | EvWindowsFail | EvPollQuits (Err _) | EvCtrlC | EvExit => false
  | _ => true
  end.

(** How many steps are left. *)
Definition rank (p : Program) : nat :=
  match pr_main p with Waiting => 4 | Windows _ => 3 | Ending _ => 2 | Joining _ => 1 | MainDone _ => 0 end +
  match pr_server p with
  | Starting => 5 | Accepting => 4 | Unwinding => 3 | Returned _ => 2 | Cancelled _ => 1 | ServerEnded _ => 0
  end.

Lemma step_rank p ev p' : program_step p ev = Some p' -> (rank p' + (if asked_by_user ev then 0 else 1) <= rank p)%nat.
Proof.
  destruct p as [main server ready cancelled]. unfold rank. intros Hs.
  destruct ev; cbn in Hs; repeat (case_match; simplify_eq/=; try done); lia.
Qed.

Definition unasked (evs : list program_event) : nat := length (filter (fun ev => asked_by_user ev = false) evs).

Lemma run_rank evs p p' : program_run p evs = Some p' -> (rank p' + unasked evs <= rank p)%nat.
Proof.
  revert p. induction evs as [|ev evs IH]; intros p Hp; simpl in Hp; [simplify_eq; unfold unasked; simpl; lia|].
  destruct (program_step p ev) as [q|] eqn:Hs; [|done]. apply step_rank in Hs. apply IH in Hp.
  unfold unasked in *. rewrite filter_cons. destruct (asked_by_user ev); simpl in *; lia.
Qed.

Lemma program_run_app evs evs' p : program_run p (evs ++ evs') = q ← program_run p evs; program_run q evs'.
Proof. revert p. induction evs as [|ev evs IH]; intros p; simpl; [done|]. destruct (program_step p ev); simpl; auto. Qed.

Lemma reachable_run p evs p' : reachable p -> program_run p evs = Some p' -> reachable p'.
Proof. intros [evs0 H0] H. exists (evs0 ++ evs). by rewrite program_run_app, H0. Qed.

Definition awaits_user (p : Program) : Prop :=
  pr_cancelled p = false /\ (exists m, pr_main p = Windows m) /\
  (pr_server p = Accepting \/ pr_server p = ServerEnded None).

Definition done_with (p : Program) (r : result RunError unit) : Prop := pr_main p = MainDone r.

Lemma coherent_progress p : coherent p ->
  (exists r, done_with p r) \/ awaits_user p \/ (exists ev p', own_event ev = true /\ program_step p ev = Some p').
Proof.
  destruct p as [main server ready cancelled].
  unfold coherent, channel_ok, server_ok, main_ok, own_result, token_ok, awaits_user, done_with.
  cbn. intros (H1 & H2 & H3 & H4). destruct main as [|m|r|r|r]; [..|by left; eexists]; right.
  - right. destruct server as [| | |r|r|[r|]]; cbn.
    + exists EvPrepare. subst. cbn. destruct prepared; by eexists.
    + exists EvReceive. destruct prepared; [|done]. subst. by eexists.
    + exists EvUnwound. by eexists.
    + exists EvServerCancels. by eexists.
    + exists EvServerReports. by eexists.
    + exists EvReceive. destruct prepared; subst; by eexists.
    + exists EvReceive. destruct H1 as [->|(m & _ & ->)]; by eexists.
  - destruct server as [| | |r|r|[r|]]; [done|..].
    + destruct cancelled; [right; exists (EvAcceptEnds false); by eexists|left; split_and!; eauto].
    + right. exists EvUnwound. by eexists.
    + right. exists EvServerCancels. by eexists.
    + right. exists EvServerReports. by eexists.
    + right. exists (EvPollQuits (Ok tt)). subst. by eexists.
    + destruct cancelled; [right; exists (EvPollQuits (Ok tt)); by eexists|left; split_and!; eauto].
  - right. exists EvMainCancels. by eexists.
  - right. destruct H3 as [_ ->]. destruct server as [| | |r'|r'|[r'|]]; [done|..].
    + exists (EvAcceptEnds false). by eexists.
    + exists EvUnwound. by eexists.
    + exists EvServerCancels. by eexists.
    + exists EvServerReports. by eexists.
    + exists EvMainJoins. by eexists.
    + exists EvMainJoins. by eexists.
Qed.

Lemma step_cancelled p ev p' : program_step p ev = Some p' -> pr_cancelled p = true -> pr_cancelled p' = true.
Proof.
  destruct p as [main server ready cancelled]. cbn. intros Hs ->.
  destruct ev; cbn in Hs; repeat (case_match; simplify_eq/=; try done); done.
Qed.

Lemma run_cancelled evs p p' : program_run p evs = Some p' -> pr_cancelled p = true -> pr_cancelled p' = true.
Proof.
  revert p. induction evs as [|ev evs IH]; intros p Hp Hc; simpl in Hp; [by simplify_eq|].
  destruct (program_step p ev) as [q|] eqn:Hs; [|done]. eapply IH; [done|]. by eapply step_cancelled.
Qed.

(** ** Properties *)

(** No failure of the start is lost and no window shows a server that did
    not start: whatever the threads do and in whatever order, windows are shown
    only with the state of a server that was prepared; a server that could not
    be prepared shows none, and the program then ends with its error or, when
    the server task panicked, with that; the program ends well only when the
    windows closed well and the server task returned well. *)
Theorem start_failure_is_reported (p : Program) (Hp : reachable p) :
  (forall m, pr_main p = Windows m -> prepared = Ok m) /\
  (forall r, pr_main p = MainDone r ->
    match prepared with
    | Err e => r = Err (Reported e) \/ (r = Err TaskPanicked /\ pr_server p = ServerEnded None)
    | Ok _ => r = Ok tt -> pr_server p = ServerEnded (Some (Ok tt))
    end).
Proof.
  apply reachable_coherent in Hp as (_ & Hs & Hm & _). unfold server_ok, main_ok, own_result in *.
  split; [intros m E; by rewrite E in Hm|]. intros r E. rewrite E in Hm.
  destruct (pr_server p) as [| | | | |[r'|]], prepared as [m|e]; try done; subst; try done.
  - left. destruct r as [|[]]; naive_solver.
  - by right.
Qed.

(** C17. The program always comes to its end: however the events of the user, the
    failures and the steps of the threads interleave, the threads take at most
    nine steps of their own; none of them waits for ever: until the end some
    thread can go on by itself, unless the windows wait for the user, who can
    then exit; and once the token is cancelled the windows do not wait either,
    so that every run that goes on as long as it can ends the program. *)
Theorem stopped_program_ends (p : Program) (Hp : reachable p) (evs : list program_event) (p' : Program)
  (Hrun : program_run p evs = Some p') :
  (unasked evs <= 9)%nat /\
  ((exists r, done_with p' r) \/
   (exists ev p'', own_event ev = true /\ program_step p' ev = Some p'') \/
   (awaits_user p' /\ exists p'', program_step p' EvExit = Some p'' /\ pr_cancelled p'' = true)) /\
  (pr_cancelled p = true -> ~ awaits_user p').
Proof.
  pose proof (reachable_run _ _ _ Hp Hrun) as Hr'. destruct Hp as [evs0 H0]. split_and!.
  - apply run_rank in Hrun, H0. change (rank program_start) with 9%nat in H0. lia.
  - destruct (coherent_progress p' (reachable_coherent _ Hr')) as [H|[H|H]]; [by left| |by right; left].
    right. right. split; [done|]. destruct p', H as (_ & (m & Hm) & _). cbn in *. subst. by eexists.
  - intros Hc (Hn & _). eapply run_cancelled in Hc; [|done]. congruence.
Qed.
End program.

(** ** The recording of [--capture-to] *)

(** One turn of the loop: the clock in the condition and how the wait for a
    block, of at most 250 ms, ended. *)
Inductive received : Type := Arrived (block : PcmBlock) | WaitTimeout | ChannelGone.
Record rec_turn : Type := mkTurn { rt_checked : Z; rt_received : received }.

(** Clocks are in nanoseconds: [Instant::add] panics beyond the seconds of a
    [u64]. *)
Definition NANOS : Z := 1000000000.
Definition instant_add (now duration : Z) : option Z :=
  if now + duration <? 2 ^ 64 * NANOS then Some (now + duration) else None.

Section recording.
Context {FS : Type} `{HFS : !FileSystem FS}.
Variable path : Path.

Fixpoint write_samples (d : FS) (samples : list Z) : FS * result AudioError unit :=
  match samples with
  | [] => (d, Ok tt)
  | sample :: samples' =>
      match fs_write_all d path (i16_to_le_bytes sample) with
      | (d, Ok _) => write_samples d samples'
      | (d, Err e) => (d, Err (IoFailed e))
      end
  end.

(** The loop of [record_to_pcm]; [None] when the turns are used up. *)
Fixpoint record_loop (d : FS) (deadline : Z) (turns : list rec_turn) : option (FS * result AudioError unit) :=
  match turns with
  | [] => None
  | t :: turns' =>
      if rt_checked t <? deadline
      then
        match rt_received t with
        | Arrived block =>
            match write_samples d (pb_samples block) with
            | (d, Ok _) => record_loop d deadline turns'
            | (d, Err e) => Some (d, Err e)
            end
        | WaitTimeout => record_loop d deadline turns'
        | ChannelGone => Some (d, Ok tt)
        end
      else Some (d, Ok tt)
  end.

(** [record_to_pcm] with what the spawn of the capture thread, the clock and the
    join come to ([None]: the capture thread panicked); the outer [None] is a
    panic or the end of the turns. *)
Definition record_to_pcm (d : FS) (duration : Z) (spawned : result IoError unit) (now : Z) (turns : list rec_turn)
  (joined : option (result AudioError unit)) : option (FS * result AudioError unit) :=
  match spawned with
  | Err e => Some (d, Err (IoFailed e))
  | Ok _ =>
      match fs_create d path with
      | (d, Err e) => Some (d, Err (IoFailed e))
      | (d, Ok _) =>
          deadline ← instant_add now duration;
          '(d, r) ← record_loop d deadline turns;
          match r with
          | Err e => Some (d, Err e)
          | Ok _ =>
              match joined with
              | None => Some (d, Err ThreadPanicked)
              | Some joined => Some (d, joined)
              end
          end
      end
  end.

(** The blocks taken before the deadline or the end of the capture. *)
Fixpoint taken (deadline : Z) (turns : list rec_turn) : list PcmBlock :=
  match turns with
  | t :: turns' =>
      if rt_checked t <? deadline
      then
        match rt_received t with
        | Arrived block => block :: taken deadline turns'
        | WaitTimeout => taken deadline turns'
        | ChannelGone => []
        end
      else []
  | [] => []
  end.

Context `{HL : !FileSystemLaws FS}.

Lemma write_samples_read samples (d d' : FS) b :
  fs_read d path = Ok b -> write_samples d samples = (d', Ok tt) ->
  fs_read d' path = Ok (b ++ samples ≫= i16_to_le_bytes).
Proof.
  revert d b. induction samples as [|x samples IH]; intros d b Hb Hw; cbn [write_samples] in Hw.
  { simplify_eq. by rewrite app_nil_r. }
  destruct (fs_write_all d path (i16_to_le_bytes x)) as [d1 [[]|e]] eqn:E; [|done].
  rewrite bind_cons, app_assoc. eapply IH; [|done]. by eapply write_appends.
Qed.

Lemma record_loop_read deadline turns (d d' : FS) b :
  fs_read d path = Ok b -> record_loop d deadline turns = Some (d', Ok tt) ->
  fs_read d' path = Ok (b ++ samples_in (taken deadline turns) ≫= i16_to_le_bytes).
Proof.
  revert d b. induction turns as [|t turns IH]; intros d b Hb Hr; cbn [record_loop taken] in *; [done|].
  destruct (rt_checked t <? deadline); [|simplify_eq; by rewrite app_nil_r].
  destruct (rt_received t) as [block| |]; [|by eapply IH|simplify_eq; by rewrite app_nil_r].
  destruct (write_samples d (pb_samples block)) as [d1 [[]|e]] eqn:E; [|done].
  unfold samples_in. rewrite bind_cons, bind_app, app_assoc. eapply IH; [|done]. by eapply write_samples_read.
Qed.

(** The loop ends when a check finds the deadline passed. *)
Lemma record_loop_ends deadline turns (d : FS) :
  Exists (fun t => deadline <= rt_checked t) turns -> exists d' r, record_loop d deadline turns = Some (d', r).
Proof.
  intros H. revert d. induction H as [t turns Ht|t turns _ IH]; intros d; cbn [record_loop].
  - destruct (Z.ltb_spec (rt_checked t) deadline); [lia|by eauto].
  - destruct (rt_checked t <? deadline); [|by eauto]. destruct (rt_received t) as [block| |]; [|by eauto..].
    destruct (write_samples d (pb_samples block)) as [d1 [|]]; by eauto.
Qed.

(** A recording is the capture: when [record_to_pcm] succeeds, the file,
    whatever was in it, holds the samples of exactly the blocks that arrived
    before the deadline or the end of the capture, in their order, and reading
    it as little-endian 16-bit samples gives them back; and it does return once
    the clock passes the deadline. *)
Theorem recording_round_trip (d : FS) (duration now deadline : Z) (turns : list rec_turn)
  (joined : option (result AudioError unit)) (Hdeadline : instant_add now duration = Some deadline)
  (Hclock : Exists (fun t => deadline <= rt_checked t) turns)
  (Hsamples : Forall (fun b => Forall in_i16 (pb_samples b)) (taken deadline turns)) :
  exists d' r, record_to_pcm d duration (Ok tt) now turns joined = Some (d', r) /\
    (r = Ok tt -> exists file, fs_read d' path = Ok file /\ samples_of file = samples_in (taken deadline turns)).
Proof.
  unfold record_to_pcm. destruct (fs_create d path) as [d1 [[]|e]] eqn:Hc; [|eexists _, _; by split]. rewrite Hdeadline. simpl.
  destruct (record_loop_ends deadline turns d1 Hclock) as (d2 & r & Hr). rewrite Hr. simpl.
  destruct r as [[]|e]; [|eexists _, _; by split].
  assert (exists file, fs_read d2 path = Ok file /\ samples_of file = samples_in (taken deadline turns)) as Hfile.
  { eexists. split; [eapply record_loop_read; [by eapply create_empty|done]|]. simpl. apply samples_of_le.
    clear -Hsamples. induction Hsamples as [|b l Hb _ IH]; [constructor|]. unfold samples_in in *. rewrite bind_cons.
    apply Forall_app. by split. }
  destruct joined as [j|]; eexists d2, _; (split; [done|]); [by intros _|done].
Qed.
End recording.

(** ** [desktop::run] and [main] *)

Inductive Launch : Type :=
| LaunchFails (e : RunError)
| LaunchRecords (path : Path) (nanoseconds : Z)
| LaunchServes.

(** What [run] does with the arguments once the runtime exists. *)
Definition launch (args : ServerArgs) (runtime : bool) : Launch :=
  if negb runtime then LaunchFails RuntimeFailed
  else
    match ar_capture_to args with
    | Some path =>
        if 0 <? ar_capture_seconds args then LaunchRecords path (ar_capture_seconds args * NANOS)
        else LaunchFails NoCaptureTime
    | None => LaunchServes
    end.

(** The code [main] exits with, after showing an error. *)
Definition exit_code (r : result RunError unit) : Z := match r with Ok _ => 0 | Err _ => 1 end.

(** The program in the words of the model: a launch that serves ends with the
    result of the main thread. *)
Definition launched {Model : Type} (args : ServerArgs) (runtime : bool) (recorded : result AudioError unit)
  (p : Program (Model := Model)) : option (result RunError unit) :=
  match launch args runtime with
  | LaunchFails e => Some (Err e)
  | LaunchRecords _ _ => Some (map_err CaptureFailed recorded)
  | LaunchServes => match pr_main p with MainDone r => Some r | _ => None end
  end.

(** ** Witnesses *)

#[export] Instance toy_wasapi : Wasapi unit unit unit := {
  wa_initialize_mta := Some tt;
  wa_default_device := Some tt;
  wa_friendlyname _ := Some [83; 112];
  wa_iaudioclient _ := Some tt;
  wa_mixformat _ := Some tt;
  wa_samplespersec _ := 48000;
  wa_nchannels _ := 2;
  wa_bitspersample _ := 32;
  wa_subformat _ := Some [70];
}.

(** An endpoint that is bound unless the port is taken. *)
Definition toy_quic (taken : bool) : QuicServer (bytes * bytes) Socket := {|
  endpoint_server _ bind := if taken then None else Some bind;
  endpoint_local_addr endpoint := Some endpoint;
|}.

Definition home_args : ServerArgs := mkServerArgs (mkSocket (V4 [0; 0; 0; 0]) 48400) (Some identity_dir) None None 10.

Definition home_server (taken : bool) : result StartError (Socket * ServerState (Channel ControlMessage)) :=
  (server_prepare (Hquic := toy_quic taken) home None 0 home_args ([] : MemDisk)).2.

Example home_server_starts :
  match home_server false with
  | Ok (endpoint, st) =>
      si_pairing (st_info st) =
        Ok (mkPairingInfo (mkSocketAddr [192; 168; 1; 42] 48400)
              (encode_pairing_uri [192; 168; 1; 42] 48400 (sum_digest [1; 2; 3])))
  | Err _ => False
  end.
Proof. vm_compute. reflexivity. Qed.

Example default_directory :
  default_identity_dir (Some [67; 58; 92; 65]) = [67; 58; 92; 65; 92] ++ SOUNDWAVE /\
  default_identity_dir None = [46; 92] ++ SOUNDWAVE.
Proof. split; reflexivity. Qed.

(** The port is taken. *)
Definition failing_run : list program_event :=
  [EvPrepare; EvServerCancels; EvServerReports; EvReceive; EvMainCancels; EvMainJoins].
(** The user looks at the windows and exits. *)
Definition visit_run : list program_event := [EvPrepare; EvReceive; EvExit; EvPollQuits (Ok tt); EvAcceptEnds false].

Lemma start_failure_is_reported_witness :
  exists p, program_run (home_server true) program_start failing_run = Some p /\
    pr_main p = MainDone (Err (Reported BindFailed)) /\ (forall m, pr_main p = Windows m -> home_server true = Ok m).
Proof.
  eexists. split; [vm_compute; reflexivity|]. split; [reflexivity|].
  refine (proj1 (start_failure_is_reported (home_server true) _ _)). exists failing_run. vm_compute. reflexivity.
Defined.

Lemma stopped_program_ends_witness :
  exists p, program_run (home_server false) program_start visit_run = Some p /\ (unasked visit_run <= 9)%nat /\
    ((exists r, done_with p r) \/
     (exists ev p'', own_event ev = true /\ program_step (home_server false) p ev = Some p'') \/
     (awaits_user p /\ exists p'', program_step (home_server false) p EvExit = Some p'' /\ pr_cancelled p'' = true)).
Proof.
  destruct (program_run (home_server false) program_start visit_run) as [p|] eqn:E; [|by vm_compute in E].
  exists p. split; [reflexivity|].
  destruct (stopped_program_ends (home_server false) program_start (ex_intro _ [] eq_refl) visit_run p E) as (H1 & H2 & _).
  by split.
Defined.

Definition recording : Path := mkPath None [114] None.
Definition recorded_block : PcmBlock := mkPcmBlock 0 [1; -2; 3; -4].
Definition recording_turns : list rec_turn :=
  [mkTurn 5 (Arrived recorded_block); mkTurn 30 WaitTimeout; mkTurn 40 (Arrived recorded_block); mkTurn 1000000005 ChannelGone].

Lemma recording_round_trip_witness :
  exists d' r, record_to_pcm recording ([] : MemDisk) 1000000000 (Ok tt) 5 recording_turns (Some (Ok tt)) = Some (d', r) /\
    (r = Ok tt -> exists file, fs_read d' recording = Ok file /\
       samples_of file = samples_in (taken 1000000005 recording_turns)).
Proof.
  apply (recording_round_trip recording ([] : MemDisk) 1000000000 5 1000000005 recording_turns (Some (Ok tt)));
    [reflexivity| |].
  - do 3 apply Exists_cons_tl. apply Exists_cons_hd. reflexivity.
  - change (taken 1000000005 recording_turns) with [recorded_block; recorded_block].
    repeat constructor; simpl; lia.
Defined.

(** A length that the arguments allow and the clock does not. *)
Example endless_recording_panics :
  launch (mkServerArgs (mkSocket (V4 [0; 0; 0; 0]) 48400) None None (Some recording) (2 ^ 64 - 1)) true =
    LaunchRecords recording ((2 ^ 64 - 1) * NANOS) /\
  instant_add NANOS ((2 ^ 64 - 1) * NANOS) = None /\
  record_to_pcm recording ([] : MemDisk) ((2 ^ 64 - 1) * NANOS) (Ok tt) NANOS recording_turns (Some (Ok tt)) = None.
Proof. split_and!; reflexivity. Qed.
