(* ===== verification/Shutdown.v ===== *)
(** * Shutdown: the whole server and its end

    [application/desktop.rs] with what it runs: the main thread and the server
    task ([Startup]), the session tasks of the accept loop and the capture they
    share ([Session], [Hub]) as one step relation.  The aborted sessions skip
    their [unsubscribe]; this file shows that the program still leaves no
    receiver behind and tells every capture to stop, but for one whose fan-out
    thread failed to start. *)

From stdpp Require Import base list gmap.
From Stdlib Require Import ZArith Lia.
From S2P Require Import Prelude BTree Wire Text Registry Hub Session Startup.
Open Scope Z_scope.

Section desktop.
Context {Sender : Type} `{MS : !Mpsc Sender ControlMessage} {Model : Type}.
(** what [server_prepare] comes to *)
Variable prepared : result StartError Model.

Implicit Types (s : Streamer (Sender := Sender)).

(** [de_joining]: the capture the drop of the hub waits for. *)
Record Desktop : Type := mkDesktop {
  de_program : Program (Model := Model);
  de_streamer : Streamer (Sender := Sender);
  de_joining : option nat;
}.

Definition desktop_start : Desktop := mkDesktop program_start streamer_start None.

Inductive desktop_event : Type :=
| DeProgram (ev : program_event)
| DeSession (ev : session_event (Sender := Sender)).

(** What can happen to the sessions: the accept loop spawns them; the shutdown
    of the [JoinSet], or its drop in a panic, aborts them, and until its abort a
    session goes on; the capture and the windows need no session. *)
Definition session_enabled (server : ServerPhase) (ev : session_event (Sender := Sender)) : bool :=
  match server, ev with
  | Starting, _ => false
  | _, (HubThread _ | RegistryUser _) => true
  | Accepting, Aborted _ => false
  | Accepting, _ => true
  | (Unwinding | ServerEnded None), Accept => false
  | (Unwinding | ServerEnded None), _ => true
  | _, _ => false
  end.

(** [JoinSet::shutdown] returns when every task is gone.  The lines of
    [unsubscribe] up to its first [await] are not cut by an abort, so nothing is
    left to cancel by then. *)
Definition sessions_gone s : bool := bool_decide (Forall (fun p => p = Ended) (sy_sessions s)) && bool_decide (hub_released (sy_hub s) = []).

(** The end of [streamer::run] drops the last clone of the hub, which cancels
    the capture and joins its thread before [run] returns. *)
Definition drop_hub s : Streamer := mkStreamer (hub_drop (sy_hub s)) (sy_registry s) (sy_sessions s).

Definition joined (d : Desktop) : bool :=
  match de_joining d with
  | Some run => bool_decide (run ∉ m_capturing (hub_machine (sy_hub (de_streamer d))))
  | None => true
  end.

(** [None]: the event is not possible now. *)
Definition desktop_step (d : Desktop) (e : desktop_event) : option Desktop :=
  match e with
  | DeSession ev =>
      if session_enabled (pr_server (de_program d)) ev
      then Some (mkDesktop (de_program d) (session_step (de_streamer d) ev) (de_joining d)) else None
  | DeProgram EvUnwound =>
      if sessions_gone (de_streamer d) then
        p ← program_step prepared (de_program d) EvUnwound;
        Some (mkDesktop p (drop_hub (de_streamer d)) (h_run <$> hub_capture (hub_state (sy_hub (de_streamer d)))))
      else None
  | DeProgram EvServerCancels =>
      if joined d then
        p ← program_step prepared (de_program d) EvServerCancels; Some (mkDesktop p (de_streamer d) (de_joining d))
      else None
  | DeProgram ev => p ← program_step prepared (de_program d) ev; Some (mkDesktop p (de_streamer d) (de_joining d))
  end.

Fixpoint desktop_run (d : Desktop) (es : list desktop_event) : option Desktop :=
  match es with [] => Some d | e :: es' => d' ← desktop_step d e; desktop_run d' es' end.

(** The fan-out thread can be started whenever the capture thread can. *)
Definition can_publish (e : desktop_event) : Prop :=
  match e with DeSession (HandshakeEnds _ _ c p _ _) => c = true -> p = true | _ => True end.

(** ** The parts keep their invariants *)

Lemma program_of e d d' :
  desktop_step d e = Some d' ->
  match e with
  | DeProgram ev => program_step prepared (de_program d) ev = Some (de_program d')
  | DeSession ev => session_enabled (pr_server (de_program d)) ev = true /\ de_program d' = de_program d
  end.
Proof.
  destruct e as [ev|ev]; intros H; cbn in H.
  - destruct ev; repeat (case_match; simplify_eq/=; try done);
      match goal with H : mbind _ ?x = Some _ |- _ => destruct x as [p|] eqn:E; simplify_eq/=; try done end;
      by rewrite E.
  - by case_match; simplify_eq/=.
Qed.

(** Every step of a session is a step of the hub, or none. *)
Lemma session_step_hub s ev :
  sy_hub (session_step s ev) = sy_hub s \/
  exists h, sy_hub (session_step s ev) = hub_step (sy_hub s) h /\ (can_publish (DeSession ev) -> publisher_available h).
Proof.
  destruct ev as [|i ok c p peer controls|i|i|i|i|i|h|op]; cbn [session_step].
  - by left.
  - destruct (phase s i) as [[| | | | |]|]; try by left. destruct ok; [|by left]. right. exists (Subscribe c p).
    split; [|done]. unfold begin_stream. cbn [hub_step]. destruct (subscribe c p (sy_hub s)) as [hub [run|e]]; [|done].
    destruct (register (sy_registry s) peer controls) as [registry id]. by destruct (playback_gate registry id).
  - left. by destruct (phase s i) as [[| | | | |]|].
  - left. by destruct (phase s i) as [[| | | | |]|].
  - destruct (phase s i) as [[| | | | |]|]; try by left. right. by exists Unsubscribe.
  - left. by destruct (phase s i) as [[| | | | |]|].
  - left. by destruct (phase s i) as [[| | | | |]|].
  - destruct h; try (by left); right; by eexists.
  - left. by destruct op.
Qed.

(** Who may still stop a capture thread: its token is cancelled, or the hub has
    its handle or is about to cancel it; [orphan] are the others. *)
Definition owned (orphan : nat -> Prop) (h : CaptureHub) : Prop :=
  forall run, run ∈ m_capturing (hub_machine h) ->
    run ∈ m_cancelled (hub_machine h) \/
    mkCaptureHandle run ∈ option_list (hub_capture (hub_state h)) ++ hub_released h \/ orphan run.

Lemma owned_step (orphan orphan' : nat -> Prop) h ev :
  (forall run, orphan run -> orphan' run) -> (ev = Subscribe true false -> orphan' (m_next (hub_machine h))) ->
  owned orphan h -> owned orphan' (hub_step h ev).
Proof.
  intros Hsub Hnew Ho run Hrun.
  assert (run ∈ m_capturing (hub_machine h) -> run ∈ m_cancelled (hub_machine h) \/
    mkCaptureHandle run ∈ option_list (hub_capture (hub_state h)) ++ hub_released h \/ orphan' run) as Hold by (intros Hr; destruct (Ho run Hr) as [|[|]]; auto).
  clear Ho. destruct ev as [c p| | |r failed|r]; cbn [hub_step] in *.
  - unfold subscribe, start_wasapi_capture in *.
    destruct (hub_capture (hub_state h)) as [capture|] eqn:Hc; rewrite ?Hc in Hold; cbn in *; [by apply Hold|].
    destruct c; cbn in *; [|rewrite ?Hc; by apply Hold].
    destruct p; cbn in *; apply elem_of_union in Hrun as [->%elem_of_singleton|Hrun]; rewrite ?Hc;
      [right; left; set_solver| |right; right; by apply Hnew|by apply Hold].
    destruct (Hold Hrun) as [?|[?|?]]; [by left|right; left; set_solver|by right; right].
  - unfold unsubscribe in *. destruct (0 <? _); cbn in *; [by apply Hold|].
    destruct (Hold Hrun) as [?|[?|?]]; [by left|right; left|by right; right]. rewrite elem_of_app in *. tauto.
  - unfold cancel_released in *. destruct (hub_released h) as [|[r] released] eqn:Hrel; cbn in *; [rewrite Hrel; by apply Hold|].
    destruct (Hold Hrun) as [?|[H|?]]; [left; set_solver| |by right; right].
    rewrite elem_of_app, elem_of_cons in H. destruct H as [?|[[= ->]|?]]; [right; left; set_solver|left; set_solver|right; left; set_solver].
  - unfold capture_thread_ends in *. cbn in *. repeat case_decide; destruct failed; cbn in *; destruct (Hold ltac:(set_solver)) as [?|?]; auto; left; set_solver.
  - unfold publisher_ends in *. cbn in *. case_decide; by apply Hold.
Qed.

Lemma owned_drop orphan h : owned orphan h -> owned orphan (hub_drop h).
Proof.
  intros Ho run Hrun. unfold hub_drop in *. destruct (hub_capture (hub_state h)) as [[r]|] eqn:Hc; [|by apply Ho].
  cbn in *. destruct (Ho run Hrun) as [?|[H|?]]; [left; set_solver| |by right; right].
  rewrite Hc in H. simpl in H. apply elem_of_cons in H as [[= ->]|?]; [left; set_solver|by right; left].
Qed.

(** The hub serves what it handed out, also when a fan-out thread could not be started. *)
Definition hub_sound (h : CaptureHub) : Prop := exists granted, served (fun _ => True) granted h.

Lemma hub_step_sound h ev : hub_sound h -> hub_sound (hub_step h ev).
Proof. intros [granted Hs]. eexists. by apply (hub_step_served (fun _ => True) granted). Qed.

Lemma hub_drop_sound h : hub_sound h -> hub_sound (hub_drop h).
Proof.
  intros [granted Hs]. exists granted. pose proof Hs as [H1 H2 H3 H4 H5 H6]. unfold hub_drop.
  destruct (hub_capture (hub_state h)) as [[run]|] eqn:Hc; [|done]. destruct (H1 run eq_refl) as [Hlt _]. split; cbn; try done.
  - intros r Hr. right. destruct (H2 r Hr) as [[= ->]|[Hr'|Hr']]; [left; set_solver|left; set_solver|by right].
  - intros r [->%elem_of_singleton|Hr]%elem_of_union; [done|by apply H3].
Qed.

Lemma session_step_sound s ev : hub_sound (sy_hub s) -> hub_sound (sy_hub (session_step s ev)).
Proof. intros Hs. destruct (session_step_hub s ev) as [->|(h & -> & _)]; [done|by apply hub_step_sound]. Qed.

Lemma desktop_step_accounted e d d' :
  desktop_step d e = Some d' -> 0 <= reg_next_id (sy_registry (de_streamer d)) ->
  reg_next_id (sy_registry (de_streamer d)) + 1 < 2 ^ 64 -> accounted (de_streamer d) ->
  accounted (de_streamer d') /\
  reg_next_id (sy_registry (de_streamer d)) <= reg_next_id (sy_registry (de_streamer d')) <= reg_next_id (sy_registry (de_streamer d)) + 1.
Proof.
  intros H H0 H1 Hs. destruct e as [ev|ev]; cbn in H.
  - destruct ev; repeat (case_match; simplify_eq/=; try done);
      match goal with H : mbind _ ?x = Some _ |- _ => destruct x; simplify_eq/=; try done end;
      (split; [by apply (accounted_frame (de_streamer d))|lia]).
  - case_match; simplify_eq/=. split; [by apply session_step_accounted|]. by apply session_step_growth.
Qed.

(** ** What is left when [streamer::run] has returned *)

Lemma omap_ended (l : list Phase) : Forall (fun p => p = Ended) l -> omap registration l = [].
Proof. by induction 1 as [|p l -> _ IH]. Qed.

(** Every session is over, the hub has no capture and waits for none. *)
Definition over s : Prop :=
  Forall (fun p => p = Ended) (sy_sessions s) /\ hub_capture (hub_state (sy_hub s)) = None /\ hub_released (sy_hub s) = [].

Definition returned (server : ServerPhase) : bool :=
  match server with Returned _ | Cancelled _ | ServerEnded (Some _) => true | _ => false end.
Definition let_go (server : ServerPhase) : bool :=
  match server with Cancelled _ | ServerEnded (Some _) => true | _ => false end.

Record desktop_ok (d : Desktop) : Prop := {
  ok_coherent : coherent prepared (de_program d);
  ok_hub : hub_sound (sy_hub (de_streamer d));
  ok_start : pr_server (de_program d) = Starting -> de_streamer d = streamer_start;
  ok_over : returned (pr_server (de_program d)) = true -> over (de_streamer d);
  ok_joining : match de_joining d with
               | Some run => run ∈ m_cancelled (hub_machine (sy_hub (de_streamer d)))
               | None => True
               end;
  ok_joined : let_go (pr_server (de_program d)) = true -> joined d = true;
}.

(** The threads of the capture only ever end. *)
Lemma hub_thread_shrinks s ev server :
  session_enabled server ev = true -> returned server = true -> over s ->
  over (session_step s ev) /\ m_capturing (hub_machine (sy_hub (session_step s ev))) ⊆ m_capturing (hub_machine (sy_hub s)).
Proof.
  intros Hen Hr (H1 & H2 & H3).
  assert (match ev with HubThread _ | RegistryUser _ => True | _ => False end) as Hev by (destruct server as [| | | | |[]], ev; done).
  destruct ev as [| | | | | | |h|op]; try done; cbn [session_step].
  - destruct h as [| | |run failed|run]; unfold over; cbn; [done..| | |].
    + unfold cancel_released. by rewrite H3.
    + split; [done|]. unfold capture_thread_ends. repeat case_decide; destruct failed; cbn; set_solver.
    + split; [done|]. unfold publisher_ends. by case_decide.
  - split; [|by destruct op]. by destruct op.
Qed.

(** Cancelled tokens stay cancelled. *)
Lemma hub_step_cancelled (h : CaptureHub) (ev : hub_event) : m_cancelled (hub_machine h) ⊆ m_cancelled (hub_machine (hub_step h ev)).
Proof.
  destruct ev as [c p| | |run failed|run]; cbn [hub_step].
  - unfold subscribe, start_wasapi_capture. destruct (hub_capture (hub_state h)); [done|]. by destruct c, p.
  - unfold unsubscribe. by destruct (0 <? _).
  - unfold cancel_released. destruct (hub_released h); [done|]. cbn. set_solver.
  - unfold capture_thread_ends. cbn. repeat case_decide; destruct failed; cbn; set_solver.
  - unfold publisher_ends. cbn. by case_decide.
Qed.

Lemma session_step_ok d ev :
  session_enabled (pr_server (de_program d)) ev = true -> desktop_ok d ->
  desktop_ok (mkDesktop (de_program d) (session_step (de_streamer d) ev) (de_joining d)).
Proof.
  intros Hen [H1 H2 H3 H4 H5 H6]. split; cbn; [done| | | | |].
  - by apply session_step_sound.
  - intros Hs. rewrite Hs in Hen. done.
  - intros Hr. by apply (hub_thread_shrinks _ ev (pr_server (de_program d))); auto.
  - destruct (de_joining d) as [run|]; [|done].
    destruct (session_step_hub (de_streamer d) ev) as [->|(h & -> & _)]; [done|]. by apply hub_step_cancelled.
  - intros Hl. specialize (H6 Hl). unfold joined in *. cbn. destruct (de_joining d) as [run|]; [|done].
    apply bool_decide_eq_true in H6. apply bool_decide_eq_true.
    assert (returned (pr_server (de_program d)) = true) as Hr by (destruct (pr_server (de_program d)) as [| | | | |[]]; done).
    pose proof (hub_thread_shrinks _ ev _ Hen Hr (H4 Hr)) as [_ Hsub]. set_solver.
Qed.

Lemma drop_hub_over s : sessions_gone s = true -> over (drop_hub s).
Proof.
  unfold sessions_gone, over, drop_hub, hub_drop. rewrite andb_true_iff, !bool_decide_eq_true. cbn. intros [H1 H2].
  by destruct (hub_capture (hub_state (sy_hub s))) eqn:E.
Qed.

(** How the server task moves. *)
Lemma server_moves p ev p' :
  program_step prepared p ev = Some p' ->
  (pr_server p' = Starting -> pr_server p = Starting) /\
  (returned (pr_server p') = true -> returned (pr_server p) = true \/ pr_server p = Starting \/ ev = EvUnwound) /\
  (let_go (pr_server p') = true -> let_go (pr_server p) = true \/ ev = EvServerCancels).
Proof.
  destruct p as [main server ready cancelled]. intros Hs.
  destruct ev; cbn in Hs; repeat (case_match; simplify_eq/=; try done); cbn; naive_solver.
Qed.

Lemma program_event_spec d (ev : program_event) d' :
  desktop_step d (DeProgram ev) = Some d' ->
  (ev = EvUnwound /\ sessions_gone (de_streamer d) = true /\ de_streamer d' = drop_hub (de_streamer d) /\
     de_joining d' = h_run <$> hub_capture (hub_state (sy_hub (de_streamer d)))) \/
  (ev <> EvUnwound /\ de_streamer d' = de_streamer d /\ de_joining d' = de_joining d /\ (ev = EvServerCancels -> joined d = true)).
Proof.
  intros Hs. pose proof (program_of _ _ _ Hs) as Hp. cbn beta iota in Hp.
  destruct d' as [p' s' j']. cbn [de_program de_streamer de_joining] in *.
  destruct ev; cbn [desktop_step] in Hs; try (rewrite Hp in Hs; cbn in Hs; simplify_eq; by right).
  - destruct (sessions_gone (de_streamer d)); [|done]. rewrite Hp in Hs. cbn in Hs. simplify_eq. by left.
  - destruct (joined d) eqn:E; [|done]. rewrite Hp in Hs. cbn in Hs. simplify_eq. by right.
Qed.

Lemma program_step_ok d (ev : program_event) d' : desktop_step d (DeProgram ev) = Some d' -> desktop_ok d -> desktop_ok d'.
Proof.
  intros Hs Hok. pose proof (program_of _ _ _ Hs) as Hp. cbn beta iota in Hp.
  destruct Hok as [H1 H2 H3 H4 H5 H6].
  assert (hub_sound (sy_hub (de_streamer d'))) as Hsound.
  { destruct (program_event_spec _ _ _ Hs) as [(_ & _ & -> & _)|(_ & -> & _)]; [by apply hub_drop_sound|done]. }
  destruct (server_moves _ _ _ Hp) as (M1 & M2 & M3). pose proof (step_coherent _ _ _ _ H1 Hp) as Hco.
  destruct (program_event_spec _ _ _ Hs) as [(-> & Hg & Es & Ej)|(Hne & Es & Ej & Hj)].
  - apply drop_hub_over in Hg. split; [done..|rewrite Es|rewrite Es|rewrite Es, Ej|]; [..|done| |].
    + clear -Hp. destruct (de_program d) as [main server ready cancelled]. cbn in Hp.
      destruct server; try done. injection Hp as Hp. by rewrite <- Hp.
    + unfold drop_hub, hub_drop. cbn. destruct (hub_capture (hub_state (sy_hub (de_streamer d)))); cbn; [set_solver|done].
    + clear -Hp. destruct (de_program d) as [main server ready cancelled]. cbn in Hp.
      destruct server; try done. injection Hp as Hp. by rewrite <- Hp.
  - split; [done..|rewrite Es|rewrite Es|by rewrite Es, Ej|]; [by auto| |].
    + intros Hr. destruct (M2 Hr) as [H|[H|H]]; [by apply H4|rewrite H3 by done|done]. split; [constructor|done].
    + intros Hl. unfold joined in *. rewrite Es, Ej. destruct (M3 Hl) as [H|H]; auto.
Qed.

(** ** Runs *)

Lemma desktop_run_app es es' d : desktop_run d (es ++ es') = d' ← desktop_run d es; desktop_run d' es'.
Proof. revert d. induction es as [|e es IH]; intros d; cbn; [done|]. destruct (desktop_step d e); cbn; auto. Qed.

(** The capture thread of a run was started and its fan-out thread not. *)
Definition orphaned (es : list desktop_event) (run : nat) : Prop :=
  exists es1 e es2 d, es = es1 ++ e :: es2 /\ desktop_run desktop_start es1 = Some d /\ ~ can_publish e /\
    run = m_next (hub_machine (sy_hub (de_streamer d))).

Lemma run_owned es d : desktop_run desktop_start es = Some d -> owned (orphaned es) (sy_hub (de_streamer d)).
Proof.
  revert d. induction es as [|e es IH] using rev_ind; intros d; [intros [= <-]; intros run; cbn; set_solver|].
  rewrite desktop_run_app. destruct (desktop_run desktop_start es) as [d0|] eqn:E0; [|done]. cbn [mbind option_bind desktop_run].
  destruct (desktop_step d0 e) as [d1|] eqn:E1; [|done]. intros [= <-]. specialize (IH d0 eq_refl).
  assert (forall run, orphaned es run -> orphaned (es ++ [e]) run) as Hsub.
  { intros run (es1 & e1 & es2 & d2 & -> & H). exists es1, e1, (es2 ++ [e]), d2. split; [by rewrite <- (assoc_L (++))|done]. }
  assert (owned (orphaned (es ++ [e])) (sy_hub (de_streamer d0))) as IH'.
  { intros run Hrun. destruct (IH run Hrun) as [?|[?|?]]; auto. }
  destruct e as [ev|ev].
  - destruct (program_event_spec _ _ _ E1) as [(_ & _ & -> & _)|(_ & -> & _)]; [by apply owned_drop|done].
  - cbn in E1. case_match; simplify_eq/=. destruct (session_step_hub (de_streamer d0) ev) as [->|(h & -> & Hh)]; [done|].
    eapply owned_step; [exact Hsub| |exact IH]. intros ->. exists es, (DeSession ev), [], d0. split_and!; [done..| |done].
    intros Hcan. by specialize (Hh Hcan eq_refl).
Qed.

Lemma run_ok es d d' : desktop_run d es = Some d' -> desktop_ok d -> desktop_ok d'.
Proof.
  revert d. induction es as [|e es IH]; intros d Hrun Hok; cbn in Hrun; [by simplify_eq|].
  destruct (desktop_step d e) as [d1|] eqn:Hs; [|done]. apply (IH d1 Hrun). destruct e as [ev|ev].
  - by eapply program_step_ok.
  - cbn in Hs. destruct (session_enabled _ ev) eqn:E; simplify_eq. by apply session_step_ok.
Qed.

Lemma run_accounted es d d' :
  desktop_run d es = Some d' -> 0 <= reg_next_id (sy_registry (de_streamer d)) ->
  reg_next_id (sy_registry (de_streamer d)) + Z.of_nat (length es) < 2 ^ 64 ->
  accounted (de_streamer d) -> accounted (de_streamer d').
Proof.
  revert d. induction es as [|e es IH]; intros d Hrun H0 Hlen Hs; cbn in Hrun; [by simplify_eq|].
  destruct (desktop_step d e) as [d1|] eqn:Hd; [|done]. cbn [length] in Hlen.
  destruct (desktop_step_accounted _ _ _ Hd H0 ltac:(lia) Hs) as [Hs1 H1]. apply (IH d1); [done|lia..|done].
Qed.

Lemma desktop_start_ok : desktop_ok desktop_start.
Proof. split; try done. exists (fun _ => False). apply hub_new_served. Qed.

(** ** How it ends *)

(** The steps the program takes to its end, without a failure and without the
    user: those of its two threads, the abort of the sessions, and the threads
    of the capture that end. *)
Definition closing (e : desktop_event) : bool :=
  match e with
  | DeProgram ev => own_event ev
  | DeSession (Aborted _) | DeSession (HubThread CancelReleased) | DeSession (HubThread (CaptureEnds _ false)) => true
  | _ => false
  end.

Lemma run_sessions evs d :
  Forall (fun ev => session_enabled (pr_server (de_program d)) ev = true) evs ->
  desktop_run d (DeSession <$> evs) = Some (mkDesktop (de_program d) (session_run (de_streamer d) evs) (de_joining d)).
Proof.
  intros H. destruct d as [p s j]. cbn in *. revert s. induction H as [|ev evs Hev _ IH]; intros s; cbn; [done|].
  rewrite Hev. cbn. by rewrite IH.
Qed.

Lemma aborted_sessions s i : sy_sessions (session_step s (Aborted i)) = <[i := Ended]> (sy_sessions s).
Proof.
  cbn [session_step]. unfold phase. destruct (sy_sessions s !! i) as [[| | | | |]|] eqn:E; try done.
  by rewrite list_insert_ge by (by apply lookup_ge_None).
Qed.

Lemma abort_sessions s n :
  (n <= length (sy_sessions s))%nat ->
  sy_sessions (session_run s (Aborted <$> seq 0 n)) = replicate n Ended ++ drop n (sy_sessions s).
Proof.
  induction n as [|n IH]; intros Hn; [done|]. unfold session_run in *.
  rewrite seq_S, fmap_app, foldl_app. cbn [fmap list_fmap foldl]. rewrite aborted_sessions, IH by lia. cbn [Nat.add].
  destruct (lookup_lt_is_Some_2 (sy_sessions s) n) as [p Hp]; [lia|].
  rewrite (drop_S _ _ _ Hp), insert_app_r_alt, length_replicate, Nat.sub_diag by (by rewrite length_replicate).
  change (replicate (S n) Ended) with (Ended :: replicate n Ended).
  rewrite replicate_cons_app, <- app_assoc. done.
Qed.

Lemma cancel_all s n :
  let s' := session_run s (replicate n (HubThread CancelReleased)) in
  sy_sessions s' = sy_sessions s /\ hub_released (sy_hub s') = drop n (hub_released (sy_hub s)).
Proof.
  cbn zeta. unfold session_run. revert s. induction n as [|n IH]; intros s; cbn [replicate foldl]; [done|].
  destruct (IH (session_step s (HubThread CancelReleased))) as [-> ->]. split; [done|]. cbn. unfold cancel_released.
  destruct (hub_released (sy_hub s)) eqn:E; cbn; [by rewrite E, drop_nil|done].
Qed.

(** The shutdown of the sessions. *)
Definition abort_events s : list (session_event (Sender := Sender)) :=
  let aborts := Aborted <$> seq 0 (length (sy_sessions s)) in
  aborts ++ replicate (length (hub_released (sy_hub (session_run s aborts)))) (HubThread CancelReleased).

Lemma abort_events_end s : sessions_gone (session_run s (abort_events s)) = true.
Proof.
  unfold abort_events, session_run. rewrite foldl_app.
  fold (session_run s (Aborted <$> seq 0 (length (sy_sessions s)))). set (s1 := session_run s _).
  destruct (cancel_all s1 (length (hub_released (sy_hub s1)))) as [E1 E2]. unfold session_run in E1, E2.
  unfold sessions_gone. rewrite E1, E2, drop_all. unfold s1. rewrite abort_sessions, drop_all, app_nil_r by done.
  rewrite andb_true_iff, !bool_decide_eq_true. split; [|done]. by apply Forall_replicate.
Qed.

(** The steps that wait for something. *)
Definition waits (ev : program_event) : bool := match ev with EvUnwound | EvServerCancels => true | _ => false end.

(** Each step of the two threads can be taken, if need be after what it waits
    for. *)
Lemma closing_step d (ev : program_event) p' :
  desktop_ok d -> own_event ev = true -> program_step prepared (de_program d) ev = Some p' ->
  exists es d', Forall (fun e => closing e = true) es /\ desktop_run d es = Some d' /\ de_program d' = p'.
Proof.
  intros Hok Hown Hp. destruct (waits ev) eqn:Hw; [destruct ev; try done|].
  - assert (pr_server (de_program d) = Unwinding) as Hs by (destruct d as [[main [] ready c] s j]; done).
    exists ((DeSession <$> abort_events (de_streamer d)) ++ [DeProgram EvUnwound]). eexists. split_and!.
    + apply Forall_app. split; [|by repeat constructor]. apply Forall_fmap, Forall_app.
      split; [by apply Forall_fmap, Forall_true|by apply Forall_replicate].
    + rewrite desktop_run_app, run_sessions; cbn [mbind option_bind desktop_run desktop_step de_streamer de_program].
      * rewrite abort_events_end, Hp. reflexivity.
      * rewrite Hs. apply Forall_app. split; [by apply Forall_fmap, Forall_true|by apply Forall_replicate].
    + done.
  - pose proof (ok_joining _ Hok) as Hj. destruct (joined d) eqn:E.
    { exists [DeProgram EvServerCancels]. eexists. split; [by repeat constructor|]. cbn. rewrite E, Hp. by split. }
    unfold joined in E. destruct (de_joining d) as [run|] eqn:Ej; [|done]. apply bool_decide_eq_false in E.
    assert (run ∈ m_capturing (hub_machine (sy_hub (de_streamer d)))) as Hin by (by apply dec_stable).
    assert (forall ev', session_enabled (pr_server (de_program d)) (HubThread ev') = true) as Hen.
    { intros ev'. destruct d as [[main [] ready c] s j]; done. }
    exists [DeSession (HubThread (CaptureEnds run false)); DeProgram EvServerCancels]. eexists.
    split; [by repeat constructor|]. cbn [desktop_run desktop_step]. rewrite Hen. cbn [mbind option_bind].
    unfold joined at 1. cbn [de_joining de_streamer de_program]. rewrite Ej, Hp. cbn.
    unfold capture_thread_ends. rewrite decide_True, decide_True by done. cbn.
    rewrite bool_decide_true by set_solver. by split.
  - exists [DeProgram ev]. eexists. split; [by repeat constructor|]. cbn. destruct ev; try done; by rewrite Hp.
Qed.

Lemma end_in_sight d :
  desktop_ok d -> pr_cancelled (de_program d) = true ->
  exists es d' r, Forall (fun e => closing e = true) es /\ desktop_run d es = Some d' /\ pr_main (de_program d') = MainDone r.
Proof.
  remember (rank (de_program d)) as n eqn:Hn. revert d Hn. induction (lt_wf n) as [n _ IH]. intros d -> Hok Hc.
  destruct (coherent_progress _ _ (ok_coherent _ Hok)) as [[r Hr]|[(Ha & _)|(ev & p' & Hown & Hp)]]; [|congruence|].
  { exists [], d, r. by split. }
  destruct (closing_step _ _ _ Hok Hown Hp) as (es & d1 & Hes & Hrun & Hd1).
  pose proof (step_rank _ _ _ _ Hp) as Hrank. assert (asked_by_user ev = false) as Hask by (destruct ev; done).
  rewrite Hask in Hrank. pose proof (step_cancelled _ _ _ _ Hp Hc) as Hc1.
  destruct (IH (rank (de_program d1)) ltac:(subst; lia) d1 eq_refl) as (es2 & d2 & r & Hes2 & Hrun2 & Hr);
    [|by rewrite Hd1|].
  - by eapply run_ok.
  - exists (es ++ es2), d2, r. split; [by apply Forall_app|]. split; [|done]. by rewrite desktop_run_app, Hrun.
Qed.

(** ** Property *)

(** C16. The server leaves nothing behind, although its shutdown aborts the
    sessions before they give their capture back.  In every reachable state of
    the two threads, the session tasks and the capture threads, the registered
    receivers are those of the sessions that stream or close, each its own, also
    in the middle of the shutdown; when [streamer::run] has returned, every
    session is over, no receiver is registered, the hub holds no capture and
    waits for none, and every fan-out thread and every capture thread that still
    runs is told to stop, but for a capture thread whose fan-out thread could not
    be started ([orphaned]; [failed_publisher_leaks_capture] shows one); when the program has ended and no task panicked, the last capture has
    stopped; and from every state in which the token is cancelled the program
    comes to its end by its own steps, without another failure or another action
    of the user. *)
Theorem server_leaves_nothing (es : list desktop_event) (d : Desktop)
  (Hlen : Z.of_nat (length es) < 2 ^ 64) (Hrun : desktop_run desktop_start es = Some d) :
  let m := hub_machine (sy_hub (de_streamer d)) in
  accounted (de_streamer d) /\
  (returned (pr_server (de_program d)) = true ->
     Forall (fun p => p = Ended) (sy_sessions (de_streamer d)) /\
     (forall id, ~ registered (sy_registry (de_streamer d)) id) /\
     hub_capture (hub_state (sy_hub (de_streamer d))) = None /\ hub_released (sy_hub (de_streamer d)) = [] /\
     m_publishing m ⊆ m_cancelled m /\
     (forall run, run ∈ m_capturing m -> run ∈ m_cancelled m \/ orphaned es run)) /\
  (forall r run, pr_main (de_program d) = MainDone r -> r <> Err TaskPanicked ->
     returned (pr_server (de_program d)) = true /\
     (de_joining d = Some run -> run ∉ m_capturing m)) /\
  (pr_cancelled (de_program d) = true ->
     exists es' d' r, Forall (fun e => closing e = true) es' /\ desktop_run d es' = Some d' /\ pr_main (de_program d') = MainDone r).
Proof.
  intros m. pose proof (run_ok _ _ _ Hrun desktop_start_ok) as Hok.
  pose proof (run_accounted _ _ _ Hrun ltac:(done) ltac:(cbn; lia) (proj1 streamer_start_balanced)) as Hacc.
  split; [done|]. split_and!; [|intros r run Hm Hr|by apply end_in_sight].
  - intros Hr. destruct (ok_over _ Hok Hr) as (H1 & H2 & H3). split_and!; [done| |done|done| |].
    + intros id Hid. apply (acc_registered _ Hacc) in Hid. unfold registrations in Hid.
      rewrite (omap_ended _ H1) in Hid. by apply not_elem_of_nil in Hid.
    + intros run Hin. destruct (ok_hub _ Hok) as [granted Hs]. apply (sv_publishing _ _ _ Hs) in Hin.
      destruct (sv_given_up _ _ _ Hs run Hin) as [H|[H|H]]; [congruence|done|].
      rewrite H3 in H. by apply not_elem_of_nil in H.
    + intros run Hin. destruct (run_owned _ _ Hrun run Hin) as [?|[H|?]]; [by left| |by right].
      rewrite H2, H3 in H. by apply not_elem_of_nil in H.
  - pose proof (ok_coherent _ Hok) as (_ & _ & Hmain & _). unfold main_ok in Hmain. rewrite Hm in Hmain.
    pose proof (ok_joined _ Hok) as Hj. destruct (pr_server (de_program d)) as [| | | | |[r'|]]; try done.
    split; [done|]. intros Hjoin. specialize (Hj eq_refl). unfold joined in Hj. rewrite Hjoin in Hj.
    by apply bool_decide_eq_true in Hj.
Qed.
End desktop.

(** ** Witness *)

(** A phone listens when the user exits; its session is aborted. *)
Definition exit_while_playing : list (desktop_event (Sender := Channel ControlMessage)) :=
  [DeProgram EvPrepare; DeSession Accept; DeProgram EvReceive;
   DeSession (HandshakeEnds 0 true true true visitor queue); DeProgram EvExit; DeProgram (EvPollQuits (Ok tt));
   DeProgram (EvAcceptEnds false); DeSession (Aborted 0); DeProgram EvUnwound;
   DeSession (HubThread (CaptureEnds 0 false)); DeProgram EvServerCancels; DeProgram EvServerReports;
   DeProgram EvMainCancels; DeProgram EvMainJoins].

Lemma server_leaves_nothing_witness :
  exists d, desktop_run (Ok tt) desktop_start exit_while_playing = Some d /\
    pr_main (de_program d) = MainDone (Ok tt) /\ de_joining d = Some 0%nat /\
    0%nat ∉ m_capturing (hub_machine (sy_hub (de_streamer d))).
Proof.
  destruct (desktop_run (Ok tt) desktop_start exit_while_playing) as [d|] eqn:E; [|by vm_compute in E].
  exists d. split; [reflexivity|].
  destruct (server_leaves_nothing (Ok tt) exit_while_playing d ltac:(by apply Z.ltb_lt) E)
    as (_ & _ & H & _).
  vm_compute in E. injection E as E. subst d. cbn in *. split; [reflexivity|]. split; [reflexivity|].
  by apply (H (Ok tt) 0%nat).
Defined.
