(* ===== verification/PhoneTests.v ===== *)
(** * PhoneTests: the tests of the protocol and of the phone, on the model

    The unit tests of [crates/protocol], [crates/transport] and
    [android/app/src/main/rust], step by step on the definitions of this
    development: what the program's own tests expect of the code, the model does.
    A test is a boolean; its clock readings are numbers, and connections, disks
    and certificates are the instances of [Transport], [Server], [Storage] and
    [Identity]. *)

From stdpp Require Import base list.
From Stdlib Require Import ZArith SpecFloat.
From S2P Require Import Prelude BTree Wire Text Float32 Convert Storage Transport Identity Server Jitter Ring DeviceControl ClientState Receiver Client Reconnect.
Open Scope Z_scope.

(** [assert_eq!]. *)
Definition same {A} `{EqDecision A} (x y : A) : bool := bool_decide (x = y).
#[local] Infix "=?=" := same (at level 70).

#[export] Instance jitter_output_eq : EqDecision JitterOutput.
Proof. solve_decision. Defined.

(** ** [crates/protocol/src/audio.rs] *)

Definition packet_round_trip_is_lossless : bool :=
  let packet := mkAudioPacket 16909060 72623859790382856 [52; 18; 120; 86] in
  let encoded := encode packet in
  (encoded =?= [1; 2; 3; 4; 1; 2; 3; 4; 5; 6; 7; 8; 52; 18; 120; 86]) && (decode encoded =?= Ok packet).

Definition too_short_packet_is_rejected : bool :=
  match decode [1; 2; 3] with Err _ => true | Ok _ => false end.

(** ** [crates/transport/src/config.rs], [crates/transport/src/pairing.rs] *)

Definition fingerprint_text_round_trips : bool :=
  let fingerprint := replicate 32 171 in
  parse_fingerprint (format_fingerprint fingerprint) =?= Ok fingerprint.

(** The text of the test, as characters. *)
Definition canonical_uri : rstring :=
  URI_HOST ++ [49; 57; 50; 46; 49; 54; 56; 46; 49; 46; 52; 50] ++ URI_PORT ++ [52; 56; 52; 48; 48] ++ URI_FP ++
  mjoin (replicate 32 [65; 66]).

Definition pairing_uri_is_compact_and_canonical : bool :=
  encode_pairing_uri [192; 168; 1; 42] 48400 (replicate 32 171) =?= canonical_uri.

(** On a fresh disk: the second start finds the identity of the first. *)
Definition persisted_identity_keeps_its_fingerprint : bool :=
  let '(d, first) := load_or_create_server_config ([] : MemDisk) identity_dir in
  let '(_, second) := load_or_create_server_config d identity_dir in
  match first, second with
  | Ok (_, first), Ok (_, second) => ci_sha256_fingerprint first =?= ci_sha256_fingerprint second
  | _, _ => false
  end.

(** Messages one by one over a stream that loses nothing. *)
Definition carried (message : ControlMessage) : bool :=
  match writer_send (mkPipeEnd []) message with
  | (w, Ok _) => (reader_receive (mkPipeEnd (written w))).2 =?= Ok message
  | _ => false
  end.

Definition control_round_trip_is_lossless : bool :=
  forallb carried
    [StreamInfoMsg (mkStreamInfo 48000 2 I16Le 10); AdjustVolume (-1); CalibrationTone 7 true; ToneState 7 true false;
     SetVolume (uint_max 32) 15 Calibration; CalibrationSession 1 Cancel;
     DeviceStatusMsg (mkDeviceStatus 1 [112; 104; 111; 110; 101] [80; 104; 111; 110; 101] 5 0 15 false true false)].

Definition local_quic_control_and_datagram_round_trip : bool :=
  let packet := mkAudioPacket 7 480 [52; 18; 120; 86] in
  carried (Hello PROTOCOL_VERSION) &&
  match sender_new (mkSink []) with
  | Err _ => false
  | Ok sender =>
      match datagram_send sender packet with
      | (c, Ok _) => match sink_sent c with [b] => datagram_receive (Some b) =?= Ok packet | _ => false end
      | _ => false
      end
  end && carried Stop.

(** ** [jitter.rs] *)

Definition test_packet (sequence : Z) : AudioPacket := mkAudioPacket sequence (sequence * 480) [0; 0].

Definition sequences (outputs : list JitterOutput) : list Z :=
  (fun output => match output with Audio packet => ap_sequence packet | Silence => 0 end) <$> outputs.

(** [push] of a packet and the sequence numbers it yields; [None] never occurs. *)
Definition pushed (j : JitterBuffer) (sequence : Z) : JitterBuffer * list Z :=
  match push j (test_packet sequence) with Some (j, outputs) => (j, sequences outputs) | None => (j, [-1]) end.

Definition duplicate_copy_while_buffered_is_ignored : bool :=
  let '(j, _) := pushed (jb_new 2) 1 in
  let '(j, _) := pushed j 1 in
  let '(j', out) := pushed j 2 in
  (jb_late_packets j =? 0) && (out =?= [1; 2]) && (jb_late_packets j' =? 0) && (jb_lost_packets j' =? 0).

Definition handles_minor_reordering : bool :=
  let '(j, out1) := pushed (jb_new 2) 1 in
  let '(j, out2) := pushed j 2 in
  let '(j, out4) := pushed j 4 in
  let '(j, out3) := pushed j 3 in
  (out1 =?= []) && (out2 =?= [1; 2]) && (out4 =?= []) && (out3 =?= [3; 4]) && (jb_lost_packets j =? 0).

Definition increases_target_until_cap : bool :=
  let j0 := jb_new 2 in
  let '(j1, first) := increase_target j0 2 5 in
  let '(j2, second) := increase_target j1 2 5 in
  let '(_, third) := increase_target j2 2 5 in
  (jb_target_packets j0 =? 2) && first && (jb_target_packets j1 =? 4) && negb (jb_started j1) && second &&
  (jb_target_packets j2 =? 5) && negb third.

Definition converts_missing_packet_to_silence : bool :=
  let '(j, _) := pushed (jb_new 2) 1 in
  let '(j, out2) := pushed j 2 in
  let '(j, _) := pushed j 4 in
  let '(j, out5) := pushed j 5 in
  (out2 =?= [1; 2]) && (out5 =?= [0; 4; 5]) && (jb_lost_packets j =? 1).

Definition resynchronizes_after_far_gap_without_unbounded_silence : bool :=
  let '(j, _) := pushed (jb_new 2) 0 in
  let '(j, out1) := pushed j 1 in
  let far_sequence := 10000 in
  let '(j, out2) := pushed j far_sequence in
  let '(j, out3) := pushed j (far_sequence + 1) in
  let '(j', out4) := pushed j (far_sequence + 2) in
  (out1 =?= [0; 1]) && (out2 =?= [far_sequence]) && (out3 =?= [far_sequence + 1]) &&
  (jb_lost_packets j =? far_sequence - 2) && (out4 =?= [far_sequence + 2]).

(** ** [ring_buffer.rs] *)

Definition playback_waits_for_prefill_without_counting_startup_underruns : bool :=
  let ring := begin_buffering (set_playback_target (ring_new 8) 4) in
  let ring := write_pcm_le ring [1; 0; 2; 0] in
  let '(ring, _, actual) := read_into ring 2 in
  let '(_, output, actual') := read_into (write_pcm_le ring [3; 0; 4; 0]) 2 in
  (actual =? 0) && (available_samples ring =? 2) && (rg_underruns ring =? 0) && (actual' =? 2) && (output =?= [1; 2]).

Definition playback_rebuffers_after_underrun_without_repeated_empty_reads : bool :=
  let '(ring1, _, actual1) := read_into (set_playback_target (ring_new 8) 4) 2 in
  let '(ring2, _, actual2) := read_into (write_pcm_le ring1 [1; 0; 2; 0]) 2 in
  let '(_, output, actual3) := read_into (write_pcm_le ring2 [3; 0; 4; 0]) 2 in
  (actual1 =? 0) && (rg_underruns ring1 =? 1) && (actual2 =? 0) && (rg_underruns ring2 =? 1) && (actual3 =? 2) &&
  (output =?= [1; 2]).

Definition ring_overwrites_oldest_and_silences_underrun : bool :=
  let '(ring, output, actual) := read_into (write_pcm_le (ring_new 3) [1; 0; 2; 0; 3; 0; 4; 0]) 5 in
  (actual =? 3) && (output =?= [2; 3; 4; 0; 0]) && (rg_underruns ring =? 1).

(** ** [receiver.rs] *)

Definition test_stream : StreamInfo := mkStreamInfo 48000 2 I16Le 5.
Definition receiver_packet (sequence : Z) : AudioPacket := mkAudioPacket sequence (sequence * 240) (replicate 960 0).

Definition jitter_target_rounds_to_whole_packets : bool :=
  (match packets_for_duration 20 5 with Ok n => n =? 4 | Err _ => false end) &&
  (match packets_for_duration 21 5 with Ok n => n =? 5 | Err _ => false end) &&
  (match packets_for_duration 20 0 with Ok _ => false | Err _ => true end).

Definition underrun_increases_jitter_target_and_rebuffers : bool :=
  match pipeline_new test_stream (ring_new 9600) shared_default with
  | Err _ => false
  | Ok (pipeline, ring, shared) =>
      match handle_packets (with_cooldown 0 pipeline) ring shared (receiver_packet <$> [0; 1; 2; 3]) with
      | None => false
      | Some (pipeline, ring, shared) =>
          let before := sh_jitter_buffer_ms shared in
          let '(ring, _, actual) := read_into ring 480 in
          let '(ring, _, _) := read_into (clear ring) 480 in
          match handle_packet pipeline ring shared (receiver_packet 4) with
          | None => false
          | Some (pipeline, ring, shared, _) =>
              (before =? 20) && (actual =? 480) && (sh_jitter_buffer_ms shared =? 30) &&
              (jb_target_packets (rp_jitter pipeline) =? 6) && (available_samples ring =? 480)
          end
      end
  end.

(** ** [device_control.rs] *)

Definition device_default : DeviceControl := reset (mkDeviceControl [] [] tone_default 0 false).

Definition test_status : DeviceStatus :=
  mkDeviceStatus 0 [116; 101; 115; 116] [80; 104; 111; 110; 101] 5 0 15 false true false.

(** The bound of the samples is [Waveform.tone_never_clips]. *)
Definition disconnected_session_cannot_replay_commands_or_tone : bool :=
  let '(d, queued) := enqueue device_default 0 42 (Some 7) in
  let d := set_tone (report d test_status) 1 true in
  let '(d, active) := tone_active d 2 2 in
  let '(d, pcm) := read_tone (fun _ => 3600) d 3 3 480 in
  let d := reset d in
  let '(d, command) := take_command_at d 4 in
  queued && active && bool_decide (pcm <> None) && (command =? 0) && negb (tone_active d 5 5).2.

Definition playback_acknowledgement_requires_the_current_audio_worker_token : bool :=
  let d := request_tone (with_speaker true device_default) 0 7 true in
  let '(d, none1) := take_report d in
  let '(d, none2) := take_report (report_playback d 1 1 1 13 true) in
  let '(d, playing) := take_report (report_playback d 2 2 2 15 true) in
  let d := request_tone d 3 8 false in
  let '(d, none3) := take_report (report_playback d 4 4 4 15 false) in
  let '(d, stopped) := take_report (report_playback d 5 5 5 16 false) in
  (none1 =?= None) && (none2 =?= None) && (playing =?= Some (ToneState 7 true false)) && (none3 =?= None) &&
  (stopped =?= Some (ToneState 8 false false)).

Definition forced_stop_invalidates_pcm_already_read_by_the_worker : bool :=
  let d := request_tone (with_speaker true device_default) 0 7 true in
  let '(d, read_token) := playback_request d 1 in
  let '(d, pcm) := read_tone (fun _ => 0) d 2 2 240 in
  let d := set_tone d 3 false in
  let '(d, token) := playback_request d 4 in
  let '(d, stopped) := take_report d in
  let '(_, none) := take_report (report_playback d 5 5 5 read_token true) in
  bool_decide (pcm <> None) && negb (token =? read_token) && (stopped =?= Some (ToneState 7 false true)) && (none =?= None).

Definition expiry_invalidates_the_token_without_waiting_for_pcm_silence : bool :=
  let d := request_tone (with_speaker true device_default) 0 7 true in
  let '(d, token) := playback_request d 1 in
  let d := expire_tone d 6001 in
  let '(d, token') := playback_request d 2 in
  let '(d, active) := tone_active d 3 3 in
  let '(_, stopped) := take_report d in
  negb (token' =? token) && negb active && (stopped =?= Some (ToneState 7 false true)).

Definition stale_commands_are_rejected_but_cleanup_still_runs : bool :=
  let '(d, queued) := enqueue_operation device_default 0 42 6 10 in
  let '(d, queued') := enqueue_operation d 0 43 4 0 in
  let delayed := 3000 in
  let '(d, first) := take_command_at d delayed in
  let '(_, second) := take_command_at d delayed in
  queued && queued' && (first =? Z.lor (Z.shiftl 42 24) (Z.shiftl 8 16)) && (second =? Z.lor (Z.shiftl 43 24) (Z.shiftl 4 16)).

(** ** [state.rs] *)

Definition resource_updates_are_observable_even_before_waiting : bool :=
  let s := shared_default in
  let revision := wait_for_update (uint_max 64) (sh_revision s) [] in
  let s := set_audio_active true (ClientState.set Connected s) in
  let connected := wait_for_update revision (sh_revision s) [] in
  let s' := ClientState.set Connecting s in
  negb (connected =? revision) && sh_audio_active s && negb (wait_for_update connected (sh_revision s') [] =? connected) &&
  negb (sh_audio_active s').

(** ** [client.rs] *)

Definition retry_delay_backs_off_and_caps_at_max : bool :=
  (retry_delay <$> [0; 1; 2; 3; 4; 5; uint_max 32]) =?= [1000; 2000; 4000; 8000; 10000; 10000; 10000].

(** The session after the handshake with the server of the tests. *)
Definition test_session : result (ClientError * PcmRing * SharedState) (@ClientLoop PipeEnd) :=
  let server := (send_all (mkPipeEnd []) [Hello PROTOCOL_VERSION; StreamInfoMsg test_stream; Start]).1 in
  (connected_start (mkPipeEnd []) server (ring_new PCM_RING_CAPACITY_SAMPLES) shared_default true).2.

Definition client_packet (sequence : Z) : AudioPacket :=
  mkAudioPacket sequence (sequence * 240) (mjoin (replicate 480 (i16_to_le_bytes (sequence + 1)))).

(** The datagrams arrive in the order they are sent. *)
Definition idle_connection_resumes_reordered_audio_without_losing_first_packet : bool :=
  match test_session with
  | Err _ => false
  | Ok c =>
      match client_run c ((fun sequence => CevDatagram (Ok (receiver_packet sequence)) 0) <$> [0; 1; 2; 3; 4; 5]) with
      | Some (c1, None) =>
          match client_run c1 [CevMessage 100 (Ok (AudioIdle 6)); CevIdleDeadline] with
          | Some (c2, None) =>
              match client_run c2 ((fun sequence => CevDatagram (Ok (client_packet sequence)) 0) <$> [5; 7; 6; 8; 9]) with
              | Some (c3, None) =>
                  let '(ring, first_packet, actual) := read_into (cl_ring c3) 480 in
                  match client_run (with_pipeline (cl_pipeline c3) ring c3) [CevMessage 200 (Ok (AudioIdle 6)); CevIdleDeadline] with
                  | Some (c4, None) =>
                      (sh_received_packets (cl_shared c1) =? 6) && sh_audio_active (cl_shared c1) &&
                      negb (sh_audio_active (cl_shared c2)) && (state (cl_shared c2) =?= Connected) &&
                      sh_audio_active (cl_shared c3) && (available_samples (cl_ring c3) =? 1920) &&
                      (actual =? 480) && (first_packet =?= replicate 480 7) &&
                      sh_audio_active (cl_shared c4) && (sh_lost_packets (cl_shared c4) =? 0)
                  | _ => false
                  end
              | _ => false
              end
          | _ => false
          end
      | _ => false
      end
  end.

(** The task of a phone with its ring and shared state. *)
Definition Running : Type := SessionTask PipeEnd * PcmRing * SharedState.
Definition advance (inputs : list (session_input PipeEnd PipeEnd)) (r : Running) : Running :=
  session_history describe_error r (inl <$> inputs).
Definition receive_message (now : Z) (m : ControlMessage) : session_input PipeEnd PipeEnd := SinEvent (CevMessage now (Ok m)).
Definition on_native (f : SharedState -> SharedState) (r : Running) : Running := let '(t, ring, shared) := r in (t, ring, f shared).

(** What the audio worker of the test does: it plays what is asked for. *)
Definition obey_tone (now : Z) (s : SharedState) : SharedState :=
  let '(d, playback) := playback_request (sh_device s) now in
  let '(d, active) := tone_active d now now in
  put_device (report_playback d now now now playback active) s.

(** The device of the test carries out the request for its volume. *)
Definition answer_request (now : Z) (s : SharedState) : SharedState * Z :=
  let '(d, command) := take_command_at (sh_device s) now in
  (put_device (report d (mkDeviceStatus 56 [116] [84] 4 0 15 false true false)) s, command).

(** What the phone has written to the server. *)
Definition sent (r : Running) : list ControlMessage :=
  match se_phase r.1.1 with
  | PhLoop c => match (receive_n (mkPipeEnd (written (cl_writer c))) 4).2 with Ok ms => ms | Err _ => [] end
  | _ => []
  end.

Definition is_loop (r : Running) : bool := match se_phase r.1.1 with PhLoop _ => true | _ => false end.

Definition accepting_server : Attempt PipeEnd PipeEnd :=
  mkAttempt true true true true
    (Some (mkPipeEnd [], (send_all (mkPipeEnd []) [Hello PROTOCOL_VERSION; StreamInfoMsg test_stream; Start]).1)) true.

(** The repository's test sends twenty datagrams, which fill the ring; the kernel
    counts every sample of a push, so fewer are replayed below. *)
Definition native_client_receives_audio_and_retries_after_remote_close (datagrams : Z) : bool :=
  let start := (session_task_new phone_address [], ring_new PCM_RING_CAPACITY_SAMPLES, begin_connecting shared_default) in
  let asked := advance [SinAttempt accepting_server; receive_message 1 (AdjustVolume 1); receive_message 2 (SetVolume 56 4 User)] start in
  let '(shared, volume_adjustment) := take_volume_adjustment asked.2 in
  let '(shared, command) := answer_request 3 shared in
  let answered := advance [SinEvent CevReportReady; receive_message 4 (CalibrationTone 57 true)] (asked.1, shared) in
  let playing := advance [SinEvent CevReportReady; receive_message 6 (CalibrationTone 58 false)] (on_native (obey_tone 5) answered) in
  let silent := advance [SinEvent CevReportReady] (on_native (obey_tone 7) playing) in
  let filled := advance ((fun sequence => SinEvent (CevDatagram (Ok (receiver_packet sequence)) 0)) <$> seqZ 0 datagrams) silent in
  let '(_, ring, shared) := filled in
  let closed := advance [SinEvent CevClosed] filled in
  let second := advance [SinTimer; SinAttempt accepting_server] closed in
  (Z.shiftr command 24 =? 56) && (Z.land command 65535 =? 4) && (volume_adjustment =? 1) &&
  (sent silent =?= [Hello PROTOCOL_VERSION; DeviceStatusMsg (mkDeviceStatus 56 [116] [84] 4 0 15 false true false);
                    ToneState 57 true false; ToneState 58 false false]) &&
  (sh_received_packets shared =? datagrams) && (available_samples ring =? Z.min (datagrams * 480) PCM_RING_CAPACITY_SAMPLES) &&
  (state shared =?= Connected) && (sh_jitter_buffer_ms shared =? 20) &&
  (state closed.2 =?= Connecting) && (RETRY_INITIAL_DELAY <=? retry_delay (se_retry_attempt closed.1.1)) &&
  negb (is_loop closed) && is_loop second.

(** ** The results *)

Definition phone_tests : list bool :=
  [packet_round_trip_is_lossless; too_short_packet_is_rejected; fingerprint_text_round_trips;
   pairing_uri_is_compact_and_canonical; persisted_identity_keeps_its_fingerprint; control_round_trip_is_lossless;
   local_quic_control_and_datagram_round_trip; duplicate_copy_while_buffered_is_ignored; handles_minor_reordering;
   increases_target_until_cap; converts_missing_packet_to_silence; resynchronizes_after_far_gap_without_unbounded_silence;
   playback_waits_for_prefill_without_counting_startup_underruns;
   playback_rebuffers_after_underrun_without_repeated_empty_reads; ring_overwrites_oldest_and_silences_underrun;
   jitter_target_rounds_to_whole_packets; underrun_increases_jitter_target_and_rebuffers;
   disconnected_session_cannot_replay_commands_or_tone; playback_acknowledgement_requires_the_current_audio_worker_token;
   forced_stop_invalidates_pcm_already_read_by_the_worker; expiry_invalidates_the_token_without_waiting_for_pcm_silence;
   stale_commands_are_rejected_but_cleanup_still_runs; resource_updates_are_observable_even_before_waiting;
   retry_delay_backs_off_and_caps_at_max; idle_connection_resumes_reordered_audio_without_losing_first_packet;
   native_client_receives_audio_and_retries_after_remote_close 4].

Lemma phone_tests_pass : Forall (eq true) phone_tests.
Proof. vm_compute. by repeat constructor. Qed.
