(* ===== verification/ServerTests.v ===== *)
(** * ServerTests: the tests of the server, on the model

    The unit tests of [windows-server/src], step by step on the definitions of
    this development, as in [PhoneTests].  The tests of the volume controller
    run in a small monad over the controller, the registry and the disk; a
    failed assertion or a panic is [None].  Left out are the two tests of the
    microphone that need the platform's sine, and the test of tokio's broadcast
    channel. *)

From stdpp Require Import base list.
From Stdlib Require Import ZArith SpecFloat.
From S2P Require Import Prelude BTree Wire Text Float32 Convert Storage Registry Profiles Gate VolumeControl Transport Identity Silence Packetizer Pairing Hub Loudness Microphone Calibration CalibrationControl PhoneTests.
Open Scope Z_scope.
#[local] Infix "=?=" := same (at level 70).

(** ** [silence.rs] *)

Definition silence_sleeps_after_grace_and_preserves_first_nonzero_block : bool :=
  (silence_run silence_new
     [mkSilenceInput 0 false true; mkSilenceInput 480 true true; mkSilenceInput 14400 true true; mkSilenceInput 14880 true true;
      mkSilenceInput 15360 true true; mkSilenceInput 15840 false true]).2 =?=
  [(true, false); (true, false); (true, false); (false, true); (false, false); (true, false)].

Definition disable_sleeps_immediately_and_reenable_waits_for_sound : bool :=
  (silence_run silence_new [mkSilenceInput 0 false false; mkSilenceInput 480 true true; mkSilenceInput 960 false true]).2 =?=
  [(false, true); (false, false); (true, false)].

(** ** [convert.rs]: the bytes of 0, -1 and 1 *)

Definition converts_little_endian_float_pcm : bool :=
  match f32_le_to_i16 [0; 0; 0; 0; 0; 0; 128; 191; 0; 0; 128; 63] with
  | Ok output => output =?= [0; -32768; 32767]
  | Err _ => false
  end.

(** ** [loudness.rs] *)

(** Nothing of the platform's mathematics is reached in the first test. *)
#[local] Instance no_cosine : Cosine := {| cosf x := x |}.
#[local] Instance no_libm : Libm := {| powf x y := x; log10 x := x |}.

Definition clipped_or_noise_dominated_measurements_are_rejected : bool :=
  (match Microphone.finish (Microphone.push (f64_of_Z 1) window_new) with Ok _ => false | Err _ => true end) &&
  (match signal_level (f64_of_Z (-40)) (f64_of_Z (-45)) with Ok _ => false | Err _ => true end).

Definition discrete_step_matching_uses_nearest_not_always_louder : bool :=
  let '(step, level) := closest_step (4, f64_of_Z (-32)) (5, f64_of_Z (-26)) (f64_of_Z (-30)) in
  (step =? 4) && f64_le level (f64_of_Z (-32)) && f64_le (f64_of_Z (-32)) level.

(** ** [volume_profiles.rs] *)

(** Text of the tests. *)
Definition ROOM : rstring := [82; 111; 111; 109].
Definition MASTER : rstring := [109; 97; 115; 116; 101; 114].
Definition SLAVE : rstring := [115; 108; 97; 118; 101].

Definition test_room (mapping : btree Z) : Profile :=
  mkProfile 1 ROOM (mkDeviceRange MASTER MASTER 0 15) [mkFollower (mkDeviceRange SLAVE SLAVE 0 30) mapping] 2.

Definition participating_followers_restrict_master_to_explicit_points : bool :=
  let p := test_room [(2, 5); (4, 9)] in
  (available p [SLAVE] =?= [2; 4]) && (nearest p 3 [SLAVE] =?= Some 2).

Definition no_shared_mapping_disables_group : bool :=
  let p := test_room [(2, 5); (4, 9)] in
  let other := mkFollower (mkDeviceRange [111] SLAVE 0 30) [(3, 7)] in
  available (with_pr_followers (pr_followers p ++ [other]) p) [SLAVE; [111]] =?= [].

Definition mapping_at_system_maximum_survives_serialization : bool :=
  let p := test_room (bt_insert 15 30 [(2, 5); (4, 9)]) in
  match put library_default p with
  | Err _ => false
  | Ok (library, _) =>
      match to_allocvec library with
      | None => false
      | Some bytes =>
          ((fun r => (fun f => bt_get 15 (fo_mapping f)) <$> (current r.1 ≫= fun p => head (pr_followers p))) <$>
             take_from_bytes bytes) =?= Some (Some (Some 30))
      end
  end.

(** ** [pairing.rs] *)

Definition pairing_address_rejects_non_lan_endpoints : bool :=
  forallb (fun address => negb (is_usable_pairing_address address))
    [[0; 0; 0; 0]; [127; 0; 0; 1]; [255; 255; 255; 255]; [224; 0; 0; 1]; [169; 254; 1; 1]] &&
  is_usable_pairing_address [192; 168; 1; 42].

Definition pairing_host_must_match_a_specific_bind : bool :=
  let bind := mkSocket (V4 [192; 168; 1; 42]) 48400 in
  (match validate_bind_compatibility bind [192; 168; 1; 42] with Ok _ => true | Err _ => false end) &&
  (match validate_bind_compatibility bind [192; 168; 1; 43] with Ok _ => false | Err _ => true end).

(** ** [server.rs] *)

(** Clones of the gate are one switch. *)
Definition audio_transmission_gate_is_shared_between_clones : bool :=
  let gate := gate_enabled in
  let gate' := set_enabled gate false in
  is_enabled gate && negb (is_enabled gate') && is_enabled (set_enabled gate' true).

Definition datagram_size_selects_safe_packet_duration : bool :=
  (choose_packet_duration_ms <$> [1920; 960; 384; 100]) =?= [Some 10; Some 5; Some 2; None].

Definition block (timestamp : Z) : PcmBlock := mkPcmBlock timestamp (replicate PCM_BLOCK_SAMPLES 0).

Definition packet_shapes (k : Packetizer) (b : PcmBlock) : Packetizer * list (Z * nat) :=
  for_each_packet (fun packets timestamp samples => (packets ++ [(timestamp, length samples)], true)) k b [].

Definition four_ms_packetizer_carries_contiguous_tail_without_short_packets : bool :=
  let '(k, first) := packet_shapes (packetizer_new 4) (block 0) in
  let '(_, second) := packet_shapes k (block 480) in
  (first =?= [(0, FOUR_MS_PACKET_SAMPLES); (192, FOUR_MS_PACKET_SAMPLES)]) &&
  (second =?= [(384, FOUR_MS_PACKET_SAMPLES); (576, FOUR_MS_PACKET_SAMPLES); (768, FOUR_MS_PACKET_SAMPLES)]).

Definition four_ms_packetizer_discards_tail_after_capture_gap : bool :=
  let '(k, _) := packet_shapes (packetizer_new 4) (block 0) in
  let '(k, second) := packet_shapes k (block 960) in
  let '(_, third) := packet_shapes k (block 1440) in
  (second =?= [(960, FOUR_MS_PACKET_SAMPLES); (1152, FOUR_MS_PACKET_SAMPLES)]) &&
  (third =?= [(1344, FOUR_MS_PACKET_SAMPLES); (1536, FOUR_MS_PACKET_SAMPLES); (1728, FOUR_MS_PACKET_SAMPLES)]).

(** ** [hub.rs] *)

(** The [starts] of the tests is the number of runs; their blocks go to the
    subscribers of the run. *)
Definition subscribed (h : CaptureHub) : CaptureHub * option nat :=
  let '(h, r) := subscribe true true h in (h, match r with Ok run => Some run | Err _ => None end).
Definition unsubscribed (h : CaptureHub) : CaptureHub := cancel_released (unsubscribe h).
Definition stopped (run : option nat) (h : CaptureHub) : bool :=
  match run with Some run => bool_decide (run ∈ m_cancelled (hub_machine h)) | None => false end.

Definition reconnecting_receiver_keeps_capture_running_for_the_other_receiver : bool :=
  let '(h, first) := subscribed hub_new in
  let '(h, second) := subscribed h in
  let h1 := unsubscribed h in
  let '(h2, reconnected) := subscribed h1 in
  let h3 := unsubscribed h2 in
  let h4 := unsubscribed h3 in
  negb (stopped first h1) && (m_next (hub_machine h2) =? 1)%nat && (reconnected =?= first) && negb (stopped first h3) &&
  stopped first h4.

Definition capture_starts_once_for_overlapping_receivers_and_stops_after_the_last : bool :=
  let '(h, first) := subscribed hub_new in
  let '(h, second) := subscribed h in
  let h1 := unsubscribed h in
  let h2 := unsubscribed h1 in
  (m_next (hub_machine h) =? 1)%nat && (m_next (hub_machine h1) =? 1)%nat && bool_decide (hub_capture (hub_state h1) <> None) &&
  bool_decide (hub_capture (hub_state h2) = None).

(** ** [calibration.rs] *)

Definition cancel_revokes_published_unclaimed_result : bool :=
  let state := cc_state cc_start in
  let published := mkCalState (cs_running state) (cs_message state) (cs_cancel state) (Some (test_room [])) in
  let controller := mkController published (cc_tokens cc_start) (cc_thread cc_start) in
  bool_decide ((take_result controller).2 <> None) && bool_decide ((take_result (cancel controller)).2 = None).

(** ** [volume_control.rs] *)

Abbreviation Setup := (System (Sender := Channel ControlMessage) (FS := MemDisk)).

Definition Tst (A : Type) : Type := Setup -> option (Setup * A).
#[export] Instance tst_ret : MRet Tst := fun A a y => Some (y, a).
#[export] Instance tst_bind : MBind Tst := fun A B f m y => '(y, a) ← m y; f a y.

Definition assert (b : bool) : Tst unit := fun y => if b then Some (y, tt) else None.
Definition unwrap {A} (o : option A) : Tst A := fun y => a ← o; Some (y, a).
Definition on_registry {A} (f : Registry (Channel ControlMessage) -> Registry (Channel ControlMessage) * A) : Tst A := fun y =>
  let '(reg, a) := f (sy_registry y) in Some (mkSystem (sy_state y) reg (sy_disk y) (sy_gate y), a).
Definition read_registry {A} (f : Registry (Channel ControlMessage) -> A) : Tst A := fun y => Some (y, f (sy_registry y)).
Definition read_state {A} (f : State -> A) : Tst A := fun y => Some (y, f (sy_state y)).
Definition on_state (f : State -> State) : Tst unit := fun y => Some (mkSystem (f (sy_state y)) (sy_registry y) (sy_disk y) (sy_gate y), tt).

(** [registry.register] with a channel for 16 messages. *)
Definition join : Tst Z := on_registry (fun reg => register reg peer_a (mkChannel 16 true [])).
Definition update (id : Z) (status : DeviceStatus) : Tst unit := on_registry (fun reg => (update_device reg id status, tt)).

(** [rx.try_recv()]. *)
Definition try_recv (id : Z) : Tst (option ControlMessage) := on_registry (fun reg =>
  match get_receiver reg id with
  | Some r =>
      match ch_queue (r_controls r) with
      | m :: queue => (modify reg id (with_controls (mkChannel (ch_capacity (r_controls r)) (ch_open (r_controls r)) queue)), Some m)
      | [] => (reg, None)
      end
  | None => (reg, None)
  end).

(** [let ControlMessage::SetVolume { request_id, index, .. } = rx.try_recv().unwrap()]. *)
Definition recv_volume (id : Z) : Tst (Z * Z) :=
  m ← try_recv id;
  match m with Some (SetVolume request_id index _) => mret (request_id, index) | _ => unwrap None end.

Definition nothing_received (id : Z) : Tst unit := m ← try_recv id; assert (bool_decide (m = None)).

Definition tick_at (now : Z) : Tst unit := fun y =>
  '(s, reg, d) ← tick now (sy_state y) (sy_registry y) (sy_disk y) room_path; Some (mkSystem s reg d (sy_gate y), tt).
Definition ask_for (requested : Z) : Tst unit := fun y =>
  let '(s, reg, r) := set_volume (sy_state y) (sy_registry y) requested 0 in
  match r with Ok _ => Some (mkSystem s reg (sy_disk y) (sy_gate y), tt) | Err _ => None end.
Definition choose (id : Z) : Tst unit := fun y =>
  let '(s, reg, d, r) := select (sy_state y) (sy_registry y) (sy_disk y) room_path id in
  match r with Ok _ => Some (mkSystem s reg d (sy_gate y), tt) | Err _ => None end.
Definition finish_all : Tst unit := fun y =>
  let '(s, d, r) := VolumeControl.finish (sy_state y) (sy_disk y) room_path in
  match r with Ok _ => Some (mkSystem s (sy_registry y) d (sy_gate y), tt) | Err _ => None end.

(** [controller.view().library.current().unwrap().volume]. *)
Definition shown_volume : Tst Z := v ← read_state (fun s => pr_volume <$> current (vv_library (view s))); unwrap v.
Definition is_blocked (id : Z) : Tst bool := read_state (fun s => bt_contains_key id (vs_blocked s)).
Definition plays (id : Z) : Tst bool := read_registry (fun reg => let '(reg, gate) := playback_gate reg id in gate_load reg gate).

Definition test_device : DeviceStatus := mkDeviceStatus 0 MASTER MASTER 3 0 15 false true false.
Definition slave_device : DeviceStatus := mkDeviceStatus 0 SLAVE SLAVE 5 0 30 false true false.
(** [DeviceStatus { request_id, volume, ..device }]. *)
Definition status_with (request_id volume : Z) (d : DeviceStatus) : DeviceStatus :=
  mkDeviceStatus request_id (ds_device_id d) (ds_name d) volume (ds_minimum d) (ds_maximum d) (ds_fixed d) (ds_speaker d) (ds_failed d).

Definition room_with (name : rstring) (followers : list Follower) (volume : Z) : Profile :=
  mkProfile 0 name (from_status test_device) followers volume.
Definition put_all (profiles : list Profile) : Library :=
  foldl (fun l p => match put l p with Ok (l, _) => l | Err _ => l end) library_default profiles.

Definition run_test {A} (library : Library) (t : Tst A) : bool :=
  match t (mkSystem (state_new library MsgNone 0) registry_default [] gate_enabled) with Some _ => true | None => false end.

Definition panel_barrier_discards_delayed_old_event_but_accepts_new_physical_change : bool :=
  run_test (put_all [room_with ROOM [] 3]) (
    master ← join;
    _ ← update master test_device;
    _ ← tick_at 0;
    _ ← ask_for 7;
    _ ← tick_at 0;
    '(request_id, _) ← recv_volume master;
    _ ← update master (status_with 0 4 test_device);
    _ ← tick_at 0;
    v ← shown_volume;
    _ ← assert (v =? 7);
    _ ← update master (status_with request_id 7 test_device);
    _ ← update master (status_with 0 5 test_device);
    _ ← update master (status_with 998 5 test_device);
    _ ← tick_at 0;
    v ← shown_volume;
    _ ← assert (v =? 5);
    nothing_received master).

Definition failed_volume_command_does_not_create_physical_input : bool :=
  run_test (put_all [room_with ROOM [] 3]) (
    master ← join;
    _ ← update master test_device;
    _ ← tick_at 0;
    _ ← ask_for 7;
    '(request_id, _) ← recv_volume master;
    _ ← update master (mkDeviceStatus request_id MASTER MASTER 6 0 15 false true true);
    _ ← tick_at 0;
    b ← is_blocked master;
    _ ← assert b;
    _ ← update master (status_with 998 6 test_device);
    _ ← update master (status_with 0 6 test_device);
    _ ← tick_at 0;
    v ← shown_volume;
    _ ← assert (v =? 7);
    b ← is_blocked master;
    _ ← assert b;
    _ ← update master (status_with 0 5 test_device);
    _ ← tick_at 0;
    v ← shown_volume;
    _ ← assert (v =? 5);
    b ← is_blocked master;
    assert b).

(** [pending.get_mut(&master.id()).unwrap().at = Instant::now() - 5 s]. *)
Definition age_pending (id : Z) (s : State) : State :=
  match bt_get id (vs_pending s) with
  | Some p => set_pending (bt_insert id (mkPending (pe_request p) (pe_index p) (-5000)) (vs_pending s)) s
  | None => s
  end.

Definition lost_panel_receipt_is_recovered_by_a_new_ordered_barrier : bool :=
  run_test (put_all [room_with ROOM [] 3]) (
    master ← join;
    _ ← update master test_device;
    _ ← tick_at 0;
    _ ← ask_for 7;
    '(old, _) ← recv_volume master;
    _ ← on_state (age_pending master);
    _ ← tick_at 0;
    b ← is_blocked master;
    _ ← assert b;
    b ← read_registry (fun reg => has_panel_barrier reg master);
    _ ← assert b;
    _ ← choose 1;
    _ ← tick_at 0;
    '(fence, index) ← recv_volume master;
    _ ← assert (negb (old =? fence) && (index =? 3));
    _ ← update master (status_with old 7 test_device);
    b ← read_registry (fun reg => has_panel_barrier reg master);
    _ ← assert b;
    _ ← update master (status_with 0 8 test_device);
    taken ← on_registry (fun reg => take_unsolicited_volume reg master);
    _ ← assert (bool_decide (taken = None));
    _ ← update master (status_with fence 3 test_device);
    _ ← update master (status_with 0 5 test_device);
    _ ← tick_at 0;
    v ← shown_volume;
    assert (v =? 5)).

Definition selecting_profile_while_editing_keeps_active_profile : bool :=
  let library := with_active (Some 1) (put_all [room_with [65] [] 3; room_with [66] [] 7]) in
  run_test library (
    _ ← on_state (set_editing true);
    _ ← choose 2;
    active ← read_state (fun s => li_active (vv_library (view s)));
    _ ← assert (active =?= Some 1);
    draft ← read_state (fun s => pr_id <$> vv_draft (view s));
    assert (draft =?= Some 2)).

Definition activating_profile_revokes_playback_before_returning : bool :=
  let library := with_active (Some 1) (put_all [room_with [65] [] 3; room_with [66] [] 7]) in
  run_test library (
    master ← join;
    _ ← update master test_device;
    _ ← on_registry (fun reg => (approve reg [(master, test_device)], tt));
    b ← plays master;
    _ ← assert b;
    _ ← choose 2;
    b ← plays master;
    assert (negb b)).

Definition INVALID : bytes := [105; 110; 118; 97; 108; 105; 100; 32; 112; 114; 111; 102; 105; 108; 101; 32; 100; 97; 116; 97].

Definition unreadable_library_cannot_be_overwritten_by_a_draft : bool :=
  let disk : MemDisk := [(room_path, INVALID)] in
  match load disk room_path with
  | Ok _ => false
  | Err error =>
      let draft := room_with ROOM [mkFollower (mkDeviceRange [102] MASTER 0 15) [(3, 3)]] 3 in
      let s := set_draft_field (Some draft) (set_editing true (set_load_error (Some error) (state_new library_default MsgNone 0))) in
      let '(_, d, r) := save_draft s disk room_path ROOM false in
      (match r with Ok _ => false | Err _ => true end) && bool_decide (d = disk)
  end.

Definition shutdown_flushes_last_confirmed_not_pending_volume : bool :=
  run_test (put_all [room_with ROOM [] 3]) (
    _ ← on_state (fun s => set_dirty true (set_library (with_volume 1 7 (vs_library s)) s));
    _ ← finish_all;
    d ← (fun y => Some (y, sy_disk y));
    assert (match load d room_path with Ok l => (pr_volume <$> current l) =?= Some 3 | Err _ => false end)).

Definition follower_hardware_volume_is_restored_before_playback : bool :=
  run_test (put_all [room_with ROOM [mkFollower (from_status slave_device) [(3, 5)]] 3]) (
    master ← join;
    slave ← join;
    _ ← update master test_device;
    _ ← update slave slave_device;
    _ ← tick_at 0;
    b ← plays slave;
    _ ← assert b;
    _ ← update slave (status_with 0 9 slave_device);
    _ ← tick_at 0;
    b ← plays slave;
    _ ← assert (negb b);
    '(_, index) ← recv_volume slave;
    assert (index =? 5)).

Definition old_volume_receipts_cannot_override_new_master_target : bool :=
  run_test (put_all [room_with ROOM [mkFollower (from_status slave_device) [(3, 5); (7, 11)]] 3]) (
    master ← join;
    slave ← join;
    _ ← update master test_device;
    _ ← update slave slave_device;
    _ ← tick_at 0;
    _ ← ask_for 7;
    _ ← tick_at 0;
    '(master_request, _) ← recv_volume master;
    '(slave_request, _) ← recv_volume slave;
    _ ← ask_for 3;
    '(newest_request, index) ← recv_volume master;
    _ ← assert (index =? 3);
    _ ← update master (status_with master_request 7 test_device);
    _ ← update slave (status_with slave_request 11 slave_device);
    _ ← tick_at 0;
    v ← shown_volume;
    _ ← assert (v =? 3);
    _ ← nothing_received master;
    pending ← read_state (fun s => pe_request <$> bt_get master (vs_pending s));
    _ ← assert (pending =?= Some newest_request);
    '(_, index) ← recv_volume slave;
    assert (index =? 5)).

(** ** [calibration.rs]: a measurement that is cancelled while it begins *)

(** What the phone of the test answers: the query (request 1), then, with the
    cancellation, the beginning (2), then the stop of the tone (3) and the end (4). *)
Definition cancelling_phone (id : Z) (turn : nat) : Moment (Channel ControlMessage) :=
  let answer request_id := RegUpdateDevice id (status_with request_id 3 test_device) in
  match turn with
  | 0%nat | 1%nat => mkMoment [] false 5
  | 2%nat | 3%nat => mkMoment [answer 1] false 5
  | 4%nat => mkMoment [answer 2] true 5
  | _ => mkMoment [RegUpdateTone id 3 false false; answer 4] false 5
  end.

Definition session_actions (log : list log_entry) : list CalibrationAction :=
  omap (fun e => match e with LogSession _ action _ => Some action | _ => None end) log.

Definition cancel_after_begin_sent_cleans_up_unconfirmed_session : bool :=
  let '(reg, id) := register registry_default peer_a (mkChannel 16 true []) in
  let reg := update_device reg id test_device in
  let request := mkCalibrationRequest id (mkProfile 1 ROOM (from_status test_device) [] 3) in
  let '(w, r) := run request true (mkWorld reg 0 false (cancelling_phone id) 0 (fun _ => None) 0 [] SayNothing []) in
  (session_actions (w_log w) =?= [Begin; Cancel]) && (match r with Ok _ => false | Err _ => true end).

(** ** The results *)

Definition server_tests : list bool :=
  [silence_sleeps_after_grace_and_preserves_first_nonzero_block; disable_sleeps_immediately_and_reenable_waits_for_sound;
   converts_little_endian_float_pcm; clipped_or_noise_dominated_measurements_are_rejected;
   discrete_step_matching_uses_nearest_not_always_louder; participating_followers_restrict_master_to_explicit_points;
   no_shared_mapping_disables_group; mapping_at_system_maximum_survives_serialization;
   pairing_address_rejects_non_lan_endpoints; pairing_host_must_match_a_specific_bind;
   audio_transmission_gate_is_shared_between_clones; datagram_size_selects_safe_packet_duration;
   four_ms_packetizer_carries_contiguous_tail_without_short_packets; four_ms_packetizer_discards_tail_after_capture_gap;
   reconnecting_receiver_keeps_capture_running_for_the_other_receiver;
   capture_starts_once_for_overlapping_receivers_and_stops_after_the_last; cancel_revokes_published_unclaimed_result;
   panel_barrier_discards_delayed_old_event_but_accepts_new_physical_change;
   failed_volume_command_does_not_create_physical_input; lost_panel_receipt_is_recovered_by_a_new_ordered_barrier;
   selecting_profile_while_editing_keeps_active_profile; activating_profile_revokes_playback_before_returning;
   unreadable_library_cannot_be_overwritten_by_a_draft; shutdown_flushes_last_confirmed_not_pending_volume;
   follower_hardware_volume_is_restored_before_playback; old_volume_receipts_cannot_override_new_master_target;
   cancel_after_begin_sent_cleans_up_unconfirmed_session].

Lemma server_tests_pass : Forall (eq true) server_tests.
Proof. vm_compute. by repeat constructor. Qed.
